(* ===== verification/_CoqProject ===== *)
-Q . S2P
Prelude.v
Bytes.v
TarsBuffer.v
TarsOutput.v
TarsInput.v
TarsSkip.v
TarsWire.v
TarsCodec.v
TarsContainers.v
TarsStruct.v
Packets.v
NetBuffer.v
AppProtocol.v
Transceiver.v
TimeoutQueue.v
AdapterProxy.v
AdapterInv.v
AdapterTheorems.v
Sender.v
Base64.v
Md5.v
Tea.v
ConsistentHash.v
LoopQueue.v
EndpointManager.v
EndpointQuery.v
EndpointWeights.v
EndpointInv.v
EndpointState.v
EndpointTheorems.v
EndpointRuns.v
EndpointTurns.v
RequestQueue.v
ObjectProxy.v
ObjectTheorems.v
ObjectRuns.v
MemChunk.v
MemChunkSpec.v
HashMap.v
HashMapLists.v
HashMapRep.v
HashMapBlocks.v
HashMapErase.v
HashMapOrder.v
HashMapEvict.v
HashMapNew.v
HashMapData.v
HashMapWrite.v
HashMapStore.v
HashMapFind.v
HashMapCache.v
HashMapSpec.v
HashMapRefine.v
HashMapSet.v
HashMapSync.v
HashMapOps.v
HashMapTheorems.v
Json.v
JsonSpec.v
JsonTheorems.v
TarsSafety.v
TarsTheorems.v
NetTheorems.v
SenderTheorems.v
