(* ===== verification/Prelude.v ===== *)
(** * TarsCpp: the wire encoding and the network path

    TarsCpp is an RPC framework.  An interface file is compiled to C++ structures
    whose [writeTo] and [readFrom] call the encoder and decoder of
    [src/servant/tup/Tars.h].  A client wraps an encoded [RequestPacket] into a
    length-prefixed buffer ([src/servant/libservant/AppProtocol.cpp]) and sends it
    over TCP.  The receiver collects what arrives in a list of shared blocks
    ([src/util/src/tc_network_buffer.cpp]), and a parse loop
    ([src/util/src/tc_transceiver.cpp]) cuts packets off its front and hands them
    to a callback: the server's queue ([src/util/src/tc_epoll_server.cpp]) or the
    client's response handling.  Before a call reaches the connection it passes a
    ring between the caller's thread and the network thread
    ([src/util/include/util/tc_loop_queue.h]) and the adapter of its endpoint
    ([src/servant/libservant/AdapterProxy.cpp]), which keeps the calls in a timeout
    queue ([src/util/include/util/tc_timeout_queue_new.h]) until they are answered,
    time out or fail, and takes an endpoint that fails too often out of use.  Which
    endpoint a call goes to is the choice of an [EndpointManager]
    ([src/servant/libservant/EndpointManager.cpp]), which gets the endpoints of a
    servant from the registry.  Between the two an [ObjectProxy]
    ([src/servant/libservant/ObjectProxy.cpp]) keeps the calls that wait for the registry
    or for a connection.

    ** Files

    - [Prelude]: outcomes of a C++ call (value, exception, access out of bounds,
      failed assert, fuel), the state-and-exception monad [prog] with its notation
      in the scope [prog_scope], widths of integers and wrap-around.
    - [Bytes]: byte lists, little- and big-endian images, [htons] .. [ntohl], memory
      reads with bounds.
    - [TarsBuffer]: the three output buffers of Tars.h; the class [WriterT] states
      what the encoder needs of them, with an instance for each.
    - [TarsOutput]: [TarsOutputStream], one definition per [write] overload and
      write macro.  [writes m bs] says that [m] appends exactly [bs].
    - [TarsInput]: [BufferReader] and [TarsInputStream], one definition per [read]
      overload and read macro, skipping, unknown fields, [MapBufferReader].
    - [TarsSkip]: termination of skipping and the recursion equations of the code.
    - [TarsWire]: [reads m bs a] says that [m] reads [a] off [bs] wherever they
      stand; the lemmas for heads, integers, blocks and searches.
    - [TarsCodec], [TarsContainers]: a pair of overloads as a [codec]; the class
      [CodecLaws] is what the two promise each other, with instances for the
      scalars, strings, byte vectors, vectors and maps.
    - [TarsStruct]: the [writeTo], [readFrom] and [resetDefautlt] that
      [src/tools/tars2cpp/tars2cpp.cpp] generates, as functions of the member
      list; [StructLaws] is what the generator's own checks establish.
    - [Packets]: [RequestPacket] and [ResponsePacket] of
      [src/servant/tup/RequestF.tars].
    - [NetBuffer]: [Module Buffer] is [TC_NetWorkBuffer::Buffer], one block of memory
      with its two indices; [Module NetWorkBuffer] is the list of shared blocks, in
      a heap from addresses to blocks.  [abs] is the flat list of bytes.
    - [AppProtocol]: framing of requests, parsing of TARS, TUP, JSON and total
      responses, [parse] and [parseStream].
    - [Transceiver]: [doProtocolAnalysis] for any buffer and parser, and the server
      connection around it.
    - [TimeoutQueue]: [TC_TimeoutQueueNew], its table, multimap and list of unsent
      requests with the iterators between them, and the flat list they stand for.
    - [AdapterProxy]: [AdapterProxy], the calls of one endpoint over a heap of
      messages ([Module Adapter]), its circuit breaker and its statistics.  The
      class [Transceiver] is what it needs of a connection.
    - [AdapterInv]: the invariant of an adapter and, for each operation, that it
      keeps it and to whom it hands which message.  [AdapterTheorems]: what follows.
    - [Sender]: the sending half of a client's [TC_Transceiver] on TCP, over a
      kernel given by the class [Kernel], with the client's callbacks as
      parameters.  [SenderTheorems]: what it puts on the wire, and what the server
      of [Transceiver] makes of it.
    - [LoopQueue]: [TC_LoopQueue], operation by operation, and shared by two threads.
    - [Base64]: [TC_Base64] of [src/util/src/tc_base64.cpp].
    - [Md5]: [TC_MD5] of [src/util/src/tc_md5.cpp], and RFC 1321 as a reference.
    - [Tea]: [TC_Tea] of [src/util/src/tc_tea.cpp], the block cipher and the chained
      mode with its vectors.
    - [ConsistentHash]: [src/util/src/tc_consistent_hash_new.cpp], over [Md5].
    - [EndpointManager]: updates of the endpoints and the strategies of a choice, over
      adapters with their breakers ([Module EndpointManager]), and the table of
      weighted round robin ([Module Router]).  [EndpointQuery]: the queries of the
      registry ([QueryEpBase]) and the runs of both.  [EndpointWeights]: the table.
      [EndpointInv], [EndpointState]: the invariant and what keeps it, strategy by
      strategy.  [EndpointTheorems], [EndpointRuns], [EndpointTurns]: updates, whole
      runs, consecutive calls.
    - [RequestQueue]: [TC_TimeoutQueueNoID], the queue of an [ObjectProxy].
      [ObjectProxy]: its operations, over the class [Endpoints] of what it calls.
      [ObjectTheorems]: the laws of that class, and where messages go under them.
      [ObjectRuns]: the manager of [EndpointQuery] keeps those laws; the properties.
    - [MemChunk]: the allocators of [src/util/src/tc_mem_chunk.cpp], which keep their
      state in shared memory.  [MemChunkSpec]: the class [Allocator] is what they
      promise to what is built on them, [AllocatorLaws] its laws; the properties.
    - [HashMap]: [TC_HashMap] of [src/util/src/tc_hashmap.cpp], over any [Allocator]: its
      memory as a map from members to values, the journal, blocks and chunks, the calls.
      [HashMapLists]: lists threaded through the memory and what writes do to them.
      [HashMapRep]: the lists, buckets and bytes a memory stands for ([rep]).
      [HashMapBlocks], [HashMapErase], [HashMapOrder]: a block goes, comes to the front
      or becomes dirty.  [HashMapEvict], [HashMapNew], [HashMapData], [HashMapWrite],
      [HashMapStore]: throwing out, a new block, its chunks, its bytes.  [HashMapFind]:
      searches.  [HashMapCache], [HashMapSpec]: the cache a map promises to be and its
      steps.  [HashMapRefine], [HashMapSet], [HashMapSync], [HashMapOps]: every call is
      such a step.  [HashMapTheorems]: the properties, and a sample.
    - [Json]: the values, the reader, the two writers and the merge of
      [src/util/src/tc_json.cpp].  [JsonSpec]: well-formed values, the bounds of the
      reader, the text of a value.  [JsonTheorems]: reading a text back.
    - [TarsSafety]: no access out of bounds and no exhausted fuel, for any bytes.
    - [TarsTheorems], [NetTheorems]: the properties.

    ** Correspondence

    A C++ object is a record of its members, a method a function in [prog] over that
    record; the state survives an exception, as the members of an object do.
    Integers are [Z] with the wrap-around of their width written out ([wrapS],
    [wrapU]); bytes are [Z] between 0 and 255, also where the code has a signed
    [char].  An access outside the memory of an object is the outcome [OutOfBounds],
    and stays one where the code does not exclude it.  [std::map] and [std::set] are
    lists in the order of their comparator, the unordered containers lists in some
    order.  [shared_ptr] is an address in a heap, so that two owners see each
    other's writes.  [float] and [double] are bit patterns.

    ** What the theorems show

    Encoding (in [TarsTheorems]): structures and fields of every type round-trip
    through any buffer; readers and writers with different versions of a structure
    understand each other; the decoder is total and memory safe on arbitrary bytes;
    skipping terminates and follows the code's recursion; integers take the
    narrowest head and never lose value; absent fields; the string limit; what the
    vector-backed buffers hold, and when they lose data; what reading into an array,
    into a filled set and from a [Float] into a [Double] does.

    Network (in [NetTheorems]): the buffer list refines a queue of bytes; a stream
    cut anywhere is reassembled into the packets sent; a request is delivered to the
    server as it was built; complete responses are delivered or refused; the check
    of incomplete responses reads outside its copy of the head.

    Calls (in [AdapterTheorems]): the timeout queue refines one list of requests;
    through any calls, answers, timeouts and failures no message is used after it
    was handed over, and each is pending or handed over exactly once, but for those
    an exception of [send] loses; timeouts complete exactly what is due, answers
    exactly the call with their id, except on serial connections; when the breaker
    trips and recovers and how often it reconnects; the statistics add up; and two
    ways in which the code goes wrong: a lost message and a failed assert.

    Sending (in [SenderTheorems]): whatever the kernel answers, what is on the wire
    with what waits is what was accepted; the outcomes of [sendRequest]; the server
    gets a beginning of the packets accepted, whole and once; a packet that broke
    off is resumed in the middle on the next connection.

    Endpoints: through any events an [EndpointManager] stays inside its vectors, its
    searches end, and what it chooses is usable if an active endpoint was connected
    ([EndpointRuns]); round robin takes the endpoints in turn, and the table of
    weights gives each its share, never a whole call early ([EndpointTurns]).

    Waiting calls ([ObjectRuns]): through any events each message given to an
    [ObjectProxy] waits in its queue or is gone, once, to an adapter or failed; timeouts
    fail what is due; an adapter that connects gets all that waits; and an iterator
    that a connection made at once invalidates.

    Shared memory ([MemChunkSpec]): through any requests and returns the blocks of a
    client never overlap and lie in the area, a request fails only when every block
    is lent, the block is the best fit, and its number stands for its address.  A new
    hash map does, through any calls, what a cache does that keeps its records in the
    order they were set and read and throws out from the back, and its journal makes
    the changes of an operation's step one, wherever the program stops
    ([HashMapTheorems]).

    Utilities: the ring refines a bounded FIFO and is one for a pushing and a popping
    thread ([LoopQueue]); Base64 round-trips within the buffers the code allocates,
    and decodes any 7-bit string within bounds ([Base64]).  The digest computed in
    64-bit registers and piece by piece is that of RFC 1321 ([Md5]); decryption
    undoes encryption, and is safe on any bytes ([Tea]); the lookup of a hash ring is
    the clockwise neighbour, and a new node takes keys from others without moving any
    other key ([ConsistentHash]).  The JSON reader makes a well-formed value or an
    exception of any bytes, and the value back of what the writers write
    ([JsonTheorems]); what is not written, or not read as it was meant, is in the
    examples of [Json].

    ** Fuel and bounds

    Skipping recurses on fuel computed from the length of the buffer ([skip_fuel]);
    every recursive call of the code is preceded by a byte consumed or by a counter
    that goes down, so the fuel is enough ([skip_fuel_enough]) and the functions
    satisfy the code's recursion ([run_skip_eq]).  [moveHeader] takes one more than
    the number of blocks, the parse loop one more than the number of bytes; that
    both are enough is part of their specifications, as it is for the loops of the
    timeout queue, the adapter, the sender and Base64.  [doRequest] and [doAuthReq]
    call each other; two levels are enough because the second finds the connection
    made.  The loop of a consistent hash takes two
    more than there are adapters, since a round takes one out or rebuilds the ring
    once; the loop of a hash takes one for each adapter.  The JSON reader takes two units for each
    character, since a round of its loops consumes one, and is shown never to run
    out ([getValue_str_typed]).  The loops of the hash map take one unit for each block and
    chunk there is, since they follow lists without a repetition ([with_fuel]).  Sizes in hypotheses are those
    the code relies on: counts of containers below 2^31 because they are written as
    [Int32], buffers below 2^31 or 2^32 because lengths pass through 32-bit
    integers.

    ** What is not modelled

    System calls other than through [Kernel]; locks and thread scheduling, but for
    the two threads of [LoopQueue], whose steps are taken to be atomic and at once
    visible; TLS, UDP and proxies; HTTP and gRPC framing; the character iterators of
    [TC_NetWorkBuffer]; pointers and fixed arrays as structure members; JSON, XML and
    SQL output of the generator; the constants of [BaseF.tars] and the structures of
    [StatF.tars], which are not in the repository: the former are the parameter
    [base_constants].  In [AdapterProxy] the connection's callbacks do not run inside
    [connect] and [close], taking an adapter out of use does not reach its siblings,
    iterators of the hash table are keys with the node they point at, and [TNOW] is
    [TNOWMS] in seconds.  In [Sender] the close callback, which plans a reconnection,
    does nothing.  In [Json] a [double] is a [spec_float], [pow] and the printing
    of a [double] are parameters, the order of an [unordered_map] is that of any
    instance of [UnorderedMap], an overflow of [int64_t] wraps around, and the depth
    of the recursion is not bounded, as it is by the stack.  In [EndpointManager] the
    parsing of endpoint strings, the cache and the queries by interface are left
    out, an adapter is its index among all there ever were, and memory never runs
    out.  In [ObjectProxy] what the manager calls back runs after the part of the
    selection that calls it: [doInvoke] after [refreshReg], [onConnect] after the choice;
    the instance of [ObjectRuns] makes no connection at once, and what an adapter does to
    its breaker and its connection is any function.  The threads of a communicator and
    [ServantProxy] are left out.  In [HashMap] a member of a
    structure in shared memory is a cell of its own, the bytes behind a head are a list,
    and what the allocator lends is zero; whole stores are atomic.  Its dump files,
    [connect] and [append] are left out, and [recover] and the iterators over buckets are
    modelled without theorems; keys and values are shorter than 4 GB.  The other containers in shared memory
    are variants of it, each as large.  Authentication and configuration are not
    modelled. *)
From stdpp Require Import prelude gmap list strings.
From Stdlib Require Import ZArith Lia.

#[global] Open Scope Z_scope.

Create HintDb bytes.
Create Rewrite HintDb bytes.

(** * Outcomes and the state-and-exception monad *)

(** How a C++ call ends: a value, a thrown exception, an access outside the
    memory it was given (undefined behaviour, which the code may or may not
    exclude), a failed [assert] (the process stops), or, only for functions that
    recurse on fuel, exhausted fuel. *)
Inductive outcome (E A : Type) : Type :=
  | Ok (a : A)
  | Throw (e : E)
  | OutOfBounds
  | AssertFailed
  | NoFuel.
Arguments Ok {E A} a.
Arguments Throw {E A} e.
Arguments OutOfBounds {E A}.
Arguments AssertFailed {E A}.
Arguments NoFuel {E A}.

(** A stateful computation.  The state survives an exception, as the members of
    a C++ object do. *)
Definition prog (S E A : Type) : Type := S → outcome E A * S.

Definition ret {S E A} (a : A) : prog S E A := λ s, (Ok a, s).

Definition bind {S E A B} (m : prog S E A) (k : A → prog S E B) : prog S E B :=
  λ s, match m s with
       | (Ok a, s') => k a s'
       | (Throw e, s') => (Throw e, s')
       | (OutOfBounds, s') => (OutOfBounds, s')
       | (AssertFailed, s') => (AssertFailed, s')
       | (NoFuel, s') => (NoFuel, s')
       end.

Definition throw {S E A} (e : E) : prog S E A := λ s, (Throw e, s).
Definition get_st {S E} : prog S E S := λ s, (Ok s, s).
Definition put_st {S E} (s : S) : prog S E unit := λ _, (Ok tt, s).
Definition modify {S E} (f : S → S) : prog S E unit := λ s, (Ok tt, f s).
Definition out_of_bounds {S E A} : prog S E A := λ s, (OutOfBounds, s).
Definition assert_that {S E} (b : bool) : prog S E unit :=
  λ s, if b then (Ok tt, s) else (AssertFailed, s).

(** [try m handler]: [catch] of every exception of the modelled type; the
    handler runs in the state the exception left. *)
Definition try_catch {S E A} (m : prog S E A) (h : E → prog S E A) : prog S E A :=
  λ s, match m s with
       | (Throw e, s') => h e s'
       | r => r
       end.

Declare Scope prog_scope.
Delimit Scope prog_scope with prog.
Notation "'let*' x ':=' m 'in' k" := (bind m (λ x, k))
  (at level 10, x pattern, m at level 100, k at level 200) : prog_scope.
Notation "m ';;;' k" := (bind m (λ _, k))
  (at level 190, k at level 200, right associativity) : prog_scope.
#[global] Open Scope prog_scope.

Section monad_laws.
Context {S E : Type}.

Lemma bind_ret_l {A B} (a : A) (k : A → prog S E B) s : bind (ret a) k s = k a s.
Proof. done. Qed.

Lemma bind_assoc {A B C} (m : prog S E A) (k : A → prog S E B) (h : B → prog S E C) s :
  bind (bind m k) h s = bind m (λ a, bind (k a) h) s.
Proof. unfold bind. by destruct (m s) as [[]]. Qed.

Lemma bind_Ok {A B} (m : prog S E A) (k : A → prog S E B) s a s' :
  m s = (Ok a, s') → bind m k s = k a s'.
Proof. unfold bind. by intros ->. Qed.

Lemma bind_Throw {A B} (m : prog S E A) (k : A → prog S E B) s e s' :
  m s = (Throw e, s') → bind m k s = (Throw e, s').
Proof. unfold bind. by intros ->. Qed.

Lemma bind_Ok_inv {A B} (m : prog S E A) (k : A → prog S E B) s b s'' :
  bind m k s = (Ok b, s'') → ∃ a s', m s = (Ok a, s') ∧ k a s' = (Ok b, s'').
Proof. unfold bind. destruct (m s) as [[]] eqn:?; naive_solver. Qed.
End monad_laws.

(** ** Weakest preconditions

    [runs m s Q R]: from [s], [m] returns a value, and [Q] holds of it and of the
    state it leaves, or it throws, and [R] holds of the exception and that state.
    No access is out of bounds, no assertion fails and no fuel runs out. *)
Definition runs {S E A} (m : prog S E A) (s : S) (Q : A → S → Prop) (R : E → S → Prop) : Prop :=
  match m s with
  | (Ok a, s') => Q a s'
  | (Throw e, s') => R e s'
  | _ => False
  end.

Section runs.
Context {S E : Type} (R : E → S → Prop).

Lemma runs_ret {A} (a : A) s (Q : A → S → Prop) : Q a s → runs (ret a) s Q R.
Proof. done. Qed.

Lemma runs_throw {A} e s (Q : A → S → Prop) : R e s → runs (throw e) s Q R.
Proof. done. Qed.

Lemma runs_bind {A B} (m : prog S E A) (k : A → prog S E B) s Q :
  runs m s (λ a s', runs (k a) s' Q R) R → runs (bind m k) s Q R.
Proof. unfold runs, bind. by destruct (m s) as [[] s']. Qed.

Lemma runs_get s (Q : S → S → Prop) : Q s s → runs get_st s Q R.
Proof. done. Qed.

Lemma runs_modify (f : S → S) s (Q : unit → S → Prop) : Q tt (f s) → runs (modify f) s Q R.
Proof. done. Qed.

Lemma runs_assert (b : bool) s (Q : unit → S → Prop) : b = true → Q tt s → runs (assert_that b) s Q R.
Proof. by intros ->. Qed.

Lemma runs_Ok {A} (m : prog S E A) s a s' (Q : A → S → Prop) : m s = (Ok a, s') → Q a s' → runs m s Q R.
Proof. unfold runs. by intros ->. Qed.
End runs.

Lemma runs_weaken {S E A} (m : prog S E A) s (Q Q' : A → S → Prop) (R R' : E → S → Prop) :
  runs m s Q R → (∀ a s', Q a s' → Q' a s') → (∀ e s', R e s' → R' e s') → runs m s Q' R'.
Proof. unfold runs. destruct (m s) as [[] s']; naive_solver. Qed.

Lemma runs_weaken_post {S E A} (m : prog S E A) s (Q Q' : A → S → Prop) (R : E → S → Prop) :
  runs m s Q R → (∀ a s', Q a s' → Q' a s') → runs m s Q' R.
Proof. intros H HQ. by eapply runs_weaken. Qed.

(** If nothing can be thrown, there is a value. *)
Lemma runs_value {S E A} (m : prog S E A) s (Q : A → S → Prop) :
  runs m s Q (λ _ _, False) → ∃ a s', m s = (Ok a, s') ∧ Q a s'.
Proof. unfold runs. destruct (m s) as [[] s'] eqn:E'; try done. intros HQ. eauto. Qed.

(** Runs one step of a monadic goal whose head is [bind]. *)
Ltac step_with H := erewrite bind_Ok by (first [exact H | apply H]).

(** * Machine integers *)

(** The value an unsigned type of [w] bits holds after storing [z]. *)
Definition wrapU (w z : Z) : Z := z mod 2 ^ w.

(** The value a signed two's complement type of [w] bits holds after a
    conversion of [z] to it. *)
Definition wrapS (w z : Z) : Z :=
  let u := wrapU w z in if u <? 2 ^ (w - 1) then u else u - 2 ^ w.

Definition in_U (w z : Z) : Prop := 0 ≤ z < 2 ^ w.
Definition in_S (w z : Z) : Prop := - 2 ^ (w - 1) ≤ z < 2 ^ (w - 1).

Lemma pow2_pos w : 0 ≤ w → 0 < 2 ^ w.
Proof. intros. apply Z.pow_pos_nonneg; lia. Qed.

Lemma pow2_half w : 0 < w → 2 ^ w = 2 * 2 ^ (w - 1).
Proof. intros. rewrite <- Z.pow_succ_r by lia. f_equal; lia. Qed.

Lemma wrapU_range w z : 0 ≤ w → in_U w (wrapU w z).
Proof. intros. unfold in_U, wrapU. apply Z.mod_pos_bound, pow2_pos; lia. Qed.

Lemma wrapU_id w z : in_U w z → wrapU w z = z.
Proof. unfold in_U, wrapU. intros. apply Z.mod_small; lia. Qed.

Lemma wrapS_range w z : 0 < w → in_S w (wrapS w z).
Proof.
  intros Hw. unfold in_S, wrapS. pose proof (wrapU_range w z ltac:(lia)) as Hr.
  unfold in_U in Hr. rewrite (pow2_half w) in * by lia.
  destruct (Z.ltb_spec (wrapU w z) (2 ^ (w - 1))); lia.
Qed.

Lemma wrapS_id w z : 0 < w → in_S w z → wrapS w z = z.
Proof.
  unfold in_S, wrapS, wrapU. intros Hw Hz. pose proof (pow2_half w Hw) as E2.
  destruct (decide (0 ≤ z)).
  - rewrite Z.mod_small by lia. destruct (Z.ltb_spec z (2 ^ (w - 1))); lia.
  - rewrite <- (Z.mod_add z 1) by lia. rewrite Z.mod_small by lia.
    destruct (Z.ltb_spec (z + 1 * 2 ^ w) (2 ^ (w - 1))); lia.
Qed.

Lemma wrapS_wrapU w z : 0 < w → wrapS w (wrapU w z) = wrapS w z.
Proof.
  intros. unfold wrapS, wrapU. rewrite Z.mod_mod; [done |]. pose proof (pow2_pos w); lia.
Qed.

(** * Lists *)

Lemma take_take_le {A} (l : list A) (n m : nat) : (n ≤ m)%nat → take n (take m l) = take n l.
Proof. intros. rewrite take_take. f_equal. lia. Qed.

(** [map] with a key that tells the elements apart. *)
Lemma NoDup_map_inj {A B} (f : A → B) (l : list A) x y :
  NoDup (map f l) → x ∈ l → y ∈ l → f x = f y → x = y.
Proof.
  induction l as [|z l IH]; cbn; [by intros _ ?%elem_of_nil |].
  rewrite NoDup_cons, !elem_of_cons. intros [Hz Hl] [->|Hx] [->|Hy] E; [done | | | by apply IH].
  - exfalso. apply Hz. rewrite E. by apply list_elem_of_fmap_2.
  - exfalso. apply Hz. rewrite <- E. by apply list_elem_of_fmap_2.
Qed.

Lemma filter_rev {A} (P : A → Prop) `{!∀ x, Decision (P x)} (l : list A) :
  filter P (rev l) = rev (filter P l).
Proof.
  induction l as [|x l IH]; [done |]. cbn [rev]. rewrite filter_app, IH, !filter_cons.
  destruct (decide (P x)); [done |]. cbn. by rewrite app_nil_r.
Qed.

Lemma filter_map_comm {A B} (f : A → B) (P : B → Prop) (Q : A → Prop)
    `{!∀ x, Decision (P x)} `{!∀ x, Decision (Q x)} (l : list A) :
  (∀ x, x ∈ l → P (f x) ↔ Q x) → filter P (map f l) = map f (filter Q l).
Proof.
  induction l as [|x l IH]; intros Hl; [done |]. cbn [map]. rewrite !filter_cons.
  assert (HPQ : P (f x) ↔ Q x) by (apply Hl, list_elem_of_here).
  rewrite IH by (intros; apply Hl; by apply list_elem_of_further).
  destruct (decide (P (f x))), (decide (Q x)); try done; tauto.
Qed.

Lemma NoDup_map_filter {A B} (f : A → B) (P : A → Prop) `{!∀ x, Decision (P x)} (l : list A) :
  NoDup (map f l) → NoDup (map f (filter P l)).
Proof.
  induction l as [|x l IH]; [done |]. cbn [map]. rewrite NoDup_cons, filter_cons. intros [Hx Hl].
  destruct (decide (P x)); [|by apply IH]. cbn [map]. apply NoDup_cons. split; [|by apply IH].
  intros (y & E & Hy)%list_elem_of_fmap. apply Hx. rewrite E. apply list_elem_of_fmap_2.
  by apply list_elem_of_filter in Hy as [_ Hy].
Qed.

Lemma Forall_filter {A} (P Q : A → Prop) `{!∀ x, Decision (Q x)} (l : list A) :
  Forall P l → Forall P (filter Q l).
Proof.
  rewrite !Forall_forall. intros HP x Hx. apply HP. by apply list_elem_of_filter in Hx as [_ Hx].
Qed.

Lemma filter_all {A} (P : A → Prop) `{!∀ x, Decision (P x)} (l : list A) :
  Forall P l → filter P l = l.
Proof. induction 1 as [|x l Hx Hl IH]; [done |]. by rewrite filter_cons, decide_True, IH. Qed.

Lemma filter_ext_in {A} (P Q : A → Prop) `{!∀ x, Decision (P x)} `{!∀ x, Decision (Q x)} (l : list A) :
  (∀ x, x ∈ l → P x ↔ Q x) → filter P l = filter Q l.
Proof. intros HPQ. rewrite <- (map_id l) at 1. by rewrite (filter_map_comm id P Q), map_id. Qed.
