(* ===== verification/Bytes.v ===== *)
(** Bytes in memory: little-endian images of integers, byte swapping, and reads
    of a memory block.  A byte is a [Z] in [0, 256); the host is little-endian,
    as the branch of [src/servant/tup/TarsType.h] that defines [tars_htonll] by
    swapping assumes. *)
From stdpp Require Import prelude list.
From Stdlib Require Import ZArith Lia.
From S2P Require Import Prelude.

Definition is_byte (b : Z) : Prop := 0 ≤ b < 256.
Abbreviation bytes_ok := (Forall is_byte).

(** Length of a list as an integer. *)
Abbreviation zlen l := (Z.of_nat (length l)).

(** The [n] bytes of [v] in memory, least significant first. *)
Fixpoint le_bytes (n : nat) (v : Z) : list Z :=
  match n with
  | O => []
  | S n' => v mod 256 :: le_bytes n' (v / 256)
  end.

(** The unsigned value of bytes in memory. *)
Fixpoint le_val (l : list Z) : Z :=
  match l with
  | [] => 0
  | b :: l' => b + 256 * le_val l'
  end.

(** Reversal of the [n] bytes of a value: [htons], [htonl], [ntohs], [ntohl] on
    a little-endian host. *)
Definition bswap (n : nat) (v : Z) : Z := le_val (rev (le_bytes n v)).
Definition htons (v : Z) : Z := bswap 2 v.
Definition ntohs (v : Z) : Z := bswap 2 v.
Definition htonl (v : Z) : Z := bswap 4 v.
Definition ntohl (v : Z) : Z := bswap 4 v.

(** Network byte order: the [n] bytes of [v], most significant first. *)
Definition be_bytes (n : nat) (v : Z) : list Z := rev (le_bytes n v).

(** A read of [n] bytes at offset [off] of a memory block, [None] outside it. *)
Definition mem_read (l : list Z) (off n : Z) : option (list Z) :=
  if (0 <=? off) && (0 <=? n) && (off + n <=? zlen l)
  then Some (take (Z.to_nat n) (drop (Z.to_nat off) l))
  else None.

Section bytes.
Lemma length_le_bytes n v : length (le_bytes n v) = n.
Proof. revert v; induction n; intros; simpl; auto. Qed.

Lemma length_be_bytes n v : length (be_bytes n v) = n.
Proof. unfold be_bytes. by rewrite length_rev, length_le_bytes. Qed.

Lemma le_bytes_ok n v : bytes_ok (le_bytes n v).
Proof.
  revert v; induction n; intros; simpl; constructor; auto.
  unfold is_byte. apply Z.mod_pos_bound; lia.
Qed.

Lemma be_bytes_ok n v : bytes_ok (be_bytes n v).
Proof. unfold be_bytes. apply Forall_rev, le_bytes_ok. Qed.

Lemma pow256 n : 2 ^ (8 * Z.of_nat (S n)) = 256 * 2 ^ (8 * Z.of_nat n).
Proof.
  rewrite Nat2Z.inj_succ. replace (8 * Z.succ (Z.of_nat n)) with (8 + 8 * Z.of_nat n) by lia.
  rewrite Z.pow_add_r by lia. done.
Qed.

Lemma le_bytes_app n k v :
  le_bytes (n + k) v = le_bytes n v ++ le_bytes k (Z.shiftr v (8 * Z.of_nat n)).
Proof.
  revert v; induction n as [|n IH]; intros v.
  - simpl. by rewrite Z.shiftr_0_r.
  - cbn [le_bytes Nat.add app]. rewrite IH. do 3 f_equal.
    change (v / 256) with (v / 2 ^ 8). rewrite <- Z.shiftr_div_pow2 by lia.
    rewrite Z.shiftr_shiftr by lia. f_equal. lia.
Qed.

Lemma le_val_le_bytes n v : le_val (le_bytes n v) = wrapU (8 * Z.of_nat n) v.
Proof.
  unfold wrapU. revert v; induction n as [|n IH]; intros v.
  - simpl. by rewrite Z.mod_1_r.
  - rewrite pow256. cbn [le_bytes le_val]. rewrite IH.
    rewrite Z.rem_mul_r; [lia | lia |].
    apply Z.pow_pos_nonneg; lia.
Qed.

Lemma le_val_range l : bytes_ok l → in_U (8 * zlen l) (le_val l).
Proof.
  unfold in_U. induction 1 as [|b l Hb Hl IH]; [simpl; lia|].
  cbn [length le_val]. rewrite pow256. unfold is_byte in Hb. lia.
Qed.

Lemma le_bytes_le_val l : bytes_ok l → le_bytes (length l) (le_val l) = l.
Proof.
  induction 1 as [|b l Hb Hl IH]; [done|]. cbn [length le_val le_bytes].
  unfold is_byte in Hb. f_equal.
  - rewrite (Z.mul_comm 256), Z.mod_add by lia. apply Z.mod_small; lia.
  - rewrite (Z.mul_comm 256), Z.div_add by lia. rewrite Z.div_small by lia. by rewrite Z.add_0_l.
Qed.

Lemma le_bytes_wrapU n v : le_bytes n (wrapU (8 * Z.of_nat n) v) = le_bytes n v.
Proof.
  rewrite <- le_val_le_bytes.
  pose proof (le_bytes_le_val (le_bytes n v) (le_bytes_ok n v)) as H.
  by rewrite length_le_bytes in H.
Qed.

(** Storing a byte-swapped value leaves network byte order in memory. *)
Lemma le_bytes_bswap n v : le_bytes n (bswap n v) = be_bytes n v.
Proof.
  unfold bswap, be_bytes.
  pose proof (le_bytes_le_val (rev (le_bytes n v)) (be_bytes_ok n v)) as H.
  by rewrite length_rev, length_le_bytes in H.
Qed.

(** Loading network byte order and swapping gives the value back. *)
Lemma bswap_be_bytes n v : bswap n (le_val (be_bytes n v)) = wrapU (8 * Z.of_nat n) v.
Proof.
  unfold bswap, be_bytes.
  pose proof (le_bytes_le_val (rev (le_bytes n v)) (be_bytes_ok n v)) as H.
  rewrite length_rev, length_le_bytes in H. rewrite H.
  by rewrite rev_involutive, le_val_le_bytes.
Qed.

Lemma bswap_range n v : in_U (8 * Z.of_nat n) (bswap n v).
Proof.
  unfold bswap. pose proof (le_val_range _ (be_bytes_ok n v)) as H.
  by rewrite length_be_bytes in H.
Qed.

Lemma bswap_involutive n v : bswap n (bswap n v) = wrapU (8 * Z.of_nat n) v.
Proof.
  rewrite <- (bswap_be_bytes n v). done.
Qed.

(** A cast of the stored value to the signed type of the same width does not
    change the stored bytes. *)
Lemma wrapU_wrapS w v : 0 < w → wrapU w (wrapS w v) = wrapU w v.
Proof.
  intros. unfold wrapS, wrapU. pose proof (pow2_pos w ltac:(lia)).
  destruct (Z.ltb_spec (v mod 2 ^ w) (2 ^ (w - 1))).
  - rewrite Z.mod_mod; lia.
  - rewrite <- (Z.mod_add (v mod 2 ^ w - 2 ^ w) 1) by lia.
    rewrite Z.mul_1_l, Z.sub_add, Z.mod_mod; lia.
Qed.
End bytes.

Section mem.
Lemma mem_read_app pre bs post :
  mem_read (pre ++ bs ++ post) (zlen pre) (zlen bs) = Some bs.
Proof.
  unfold mem_read. rewrite !length_app, !Nat2Z.inj_add.
  replace (_ && _ && _) with true by (symmetry; rewrite !andb_true_iff, !Z.leb_le; lia).
  rewrite !Nat2Z.id, drop_app_length, take_app_length. done.
Qed.

Lemma mem_read_length l off n r : mem_read l off n = Some r → zlen r = n ∧ 0 ≤ off ∧ off + n ≤ zlen l.
Proof.
  unfold mem_read. destruct (_ && _ && _) eqn:E; [|done].
  rewrite !andb_true_iff, !Z.leb_le in E. intros [= <-].
  rewrite length_take, length_drop. lia.
Qed.

Lemma mem_read_Some l off n : 0 ≤ off → 0 ≤ n → off + n ≤ zlen l → is_Some (mem_read l off n).
Proof.
  intros. unfold mem_read.
  replace (_ && _ && _) with true by (symmetry; rewrite !andb_true_iff, !Z.leb_le; lia). eauto.
Qed.

Lemma mem_read_ok l off n r : bytes_ok l → mem_read l off n = Some r → bytes_ok r.
Proof.
  unfold mem_read. destruct (_ && _ && _); [|done]. intros ? [= <-].
  by apply Forall_take, Forall_drop.
Qed.
End mem.

Section bits.
(** Bit by bit: [wrapU w] keeps the low [w] bits. *)
Lemma testbit_wrapU w x n : 0 ≤ w → 0 ≤ n → Z.testbit (wrapU w x) n = (n <? w) && Z.testbit x n.
Proof.
  intros. unfold wrapU. destruct (Z.ltb_spec n w).
  - by rewrite Z.mod_pow2_bits_low.
  - by rewrite Z.mod_pow2_bits_high by lia.
Qed.

End bits.

(** An equation of bitwise operations, bit by bit. *)
Ltac bitwise :=
  apply Z.bits_inj'; intros ?n ?Hn;
  repeat (rewrite ?testbit_wrapU, ?Z.land_spec, ?Z.lor_spec, ?Z.lxor_spec, ?Z.lnot_spec by lia).

Section bits_more.
Lemma lor_shiftl x y n : 0 ≤ n → 0 ≤ x < 2 ^ n → Z.lor x (Z.shiftl y n) = x + 2 ^ n * y.
Proof.
  intros Hn Hx. assert (E : Z.land x (Z.shiftl y n) = 0).
  { apply Z.bits_inj'. intros k Hk. rewrite Z.land_spec, Z.shiftl_spec, Z.bits_0 by lia.
    rewrite <- (wrapU_id n x) by (unfold in_U; lia). rewrite testbit_wrapU by lia.
    destruct (Z.ltb_spec k n); [|done]. rewrite (Z.testbit_neg_r _ (k - n)) by lia. by rewrite andb_false_r. }
  rewrite <- Z.lxor_lor, <- Z.add_nocarry_lxor by done. by rewrite Z.shiftl_mul_pow2, Z.mul_comm by lia.
Qed.

Lemma lxor_range w x y : 0 ≤ w → in_U w x → in_U w y → in_U w (Z.lxor x y).
Proof.
  intros Hw Hx Hy. replace (Z.lxor x y) with (wrapU w (Z.lxor x y)); [by apply wrapU_range |].
  rewrite <- (wrapU_id w x), <- (wrapU_id w y) by done. bitwise.
  destruct (Z.ltb_spec n w); [done | cbn]. done.
Qed.
End bits_more.

#[export] Hint Rewrite length_le_bytes length_be_bytes : bytes.
#[export] Hint Resolve le_bytes_ok be_bytes_ok wrapU_range wrapS_range : bytes.
