(* ===== verification/TarsBuffer.v ===== *)
(** The output buffers of [src/servant/tup/Tars.h]: [BufferWriter],
    [BufferWriterString] and [BufferWriterVector], the growth macro
    [TarsReserveBuf], and the interface [WriterT] that the encoder is proved
    against. *)
From stdpp Require Import prelude list.
From Stdlib Require Import ZArith Lia.
From S2P Require Import Prelude Bytes.

(** The exception classes of Tars.h.  [TarsDecodeException] is the base of the
    three that follow it. *)
Inductive tars_error : Type :=
  | TarsEncodeException
  | TarsDecodeException
  | TarsDecodeMismatch
  | TarsDecodeRequireNotExist
  | TarsDecodeInvalidValue
  | TarsNotEnoughBuff.
#[export] Instance tars_error_eq_dec : EqDecision tars_error.
Proof. solve_decision. Defined.

(** Whether [catch (TarsDecodeException&)] catches the exception. *)
Definition is_decode_exception (e : tars_error) : bool :=
  match e with
  | TarsDecodeException | TarsDecodeMismatch
  | TarsDecodeRequireNotExist | TarsDecodeInvalidValue => true
  | TarsEncodeException | TarsNotEnoughBuff => false
  end.

(** The growth rule of [TarsReserveBuf]: the new [_buf_len] when [len] bytes are
    needed and [cap] are there; [None] when nothing is reallocated. *)
Definition reserve_len (cap len : Z) : option Z :=
  if cap <? len then
    let len1 := wrapU 64 (Z.shiftl len 1) in
    Some (if len1 <? 128 then 128 else len1)
  else None.

(** What the encoder needs of its buffer: an operation that appends bytes at the
    write position, a view of the bytes written so far, and a well-formedness
    invariant under which the append is exact.  Every write macro of Tars.h is
    this operation on the little-endian image of its value. *)
Class WriterT (S : Type) := {
  w_view : S → list Z;
  w_wf : S → Prop;
  w_raw : list Z → prog S tars_error unit;
  w_raw_spec : ∀ s bs, w_wf s → zlen (w_view s) + zlen bs < 2 ^ 63 →
    ∃ s', w_raw bs s = (Ok tt, s') ∧ w_wf s' ∧ w_view s' = w_view s ++ bs
}.

Lemma reserve_len_enough cap len : 0 ≤ cap → 0 ≤ len < 2 ^ 63 →
  match reserve_len cap len with
  | Some cap' => len ≤ cap' ∧ cap < cap' ∧ 128 ≤ cap' ≤ Z.max 128 (2 * len)
  | None => len ≤ cap
  end.
Proof.
  intros Hc Hl. unfold reserve_len. destruct (Z.ltb_spec cap len); [|lia].
  rewrite wrapU_id.
  - rewrite Z.shiftl_mul_pow2 by lia. change (2 ^ 1) with 2.
    destruct (Z.ltb_spec (len * 2) 128); lia.
  - unfold in_U. rewrite Z.shiftl_mul_pow2 by lia. change (2 ^ 64) with (2 * 2 ^ 63). lia.
Qed.

(** * BufferWriter *)
Module BufferWriter.
(** [_buf] up to [_len], and [_buf_len].  The bytes between [_len] and
    [_buf_len] are never read. *)
Record t := mk { data : list Z; buf_len : Z }.

Definition init : t := mk [] 0.

(** [TarsReserveBuf] with [BufferWriter::reserve], which copies the first
    [_len] bytes to the new block. *)
Definition TarsReserveBuf (len : Z) (w : t) : t :=
  match reserve_len (buf_len w) len with
  | Some cap' => mk (data w) cap'
  | None => w
  end.

Definition writeBuf (bs : list Z) : prog t tars_error unit := λ w,
  let w := TarsReserveBuf (zlen (data w) + zlen bs) w in
  if zlen (data w) + zlen bs <=? buf_len w
  then (Ok tt, mk (data w ++ bs) (buf_len w))
  else (OutOfBounds, w).

Definition reset (w : t) : t := mk [] (buf_len w).
Definition getByteBuffer (w : t) : list Z := data w.
Definition getLength (w : t) : Z := zlen (data w).
Definition swap (w w' : t) : t * t := (w', w).

Definition wf (w : t) : Prop := zlen (data w) ≤ buf_len w.

Lemma append_spec w bs : wf w → zlen (data w) + zlen bs < 2 ^ 63 →
  ∃ w', writeBuf bs w = (Ok tt, w') ∧ wf w' ∧ data w' = data w ++ bs.
Proof.
  intros Hwf Hlen. unfold writeBuf, TarsReserveBuf, wf in *.
  pose proof (reserve_len_enough (buf_len w) (zlen (data w) + zlen bs)
    ltac:(lia) ltac:(lia)) as Hr.
  destruct (reserve_len _ _); simpl.
  all: rewrite (proj2 (Z.leb_le _ _)) by lia.
  all: eexists; split_and!; [done | | done]; simpl; rewrite length_app; lia.
Qed.

#[export] Instance writer : WriterT t :=
  {| w_view := data; w_wf := wf; w_raw := writeBuf; w_raw_spec := append_spec |}.
End BufferWriter.

(** * BufferWriterVector

    The bytes live in a [std::vector<char>] that the object also hands out, so
    the vector's size, its capacity and the object's [_buf_len] are separate
    numbers.  [BufferWriterString] has the same members and methods over a
    [std::string]. *)
Module BufferWriterVector.
(** A [std::vector<char>]: its allocation and its size. *)
Record vec := mkvec { mem : list Z; vsize : Z }.

(** [resize]: shrinking keeps the allocation, growing within the capacity
    value-initialises the new elements, growing beyond it moves the old
    elements to a new block. *)
Definition resize (n : Z) (v : vec) : vec :=
  if n <=? vsize v then mkvec (mem v) n
  else if n <=? zlen (mem v)
  then mkvec (take (Z.to_nat (vsize v)) (mem v)
                ++ replicate (Z.to_nat (n - vsize v)) 0
                ++ drop (Z.to_nat n) (mem v)) n
  else mkvec (take (Z.to_nat (vsize v)) (mem v)
                ++ replicate (Z.to_nat (n - vsize v)) 0) n.

Definition contents (v : vec) : list Z := take (Z.to_nat (vsize v)) (mem v).

Record t := mk { buffer : vec; len : Z; buf_len : Z }.

Definition init : t := mk (mkvec [] 0) 0 0.

Definition TarsReserveBuf (n : Z) (w : t) : t :=
  match reserve_len (buf_len w) n with
  | Some cap' => mk (resize cap' (buffer w)) (len w) cap'
  | None => w
  end.

(** [memcpy(_buf + _len, buf, n)]: the bytes go to the allocation, whatever the
    vector's size is. *)
Definition store (off : Z) (bs : list Z) (m : list Z) : list Z :=
  take (Z.to_nat off) m ++ bs ++ drop (Z.to_nat (off + zlen bs)) m.

Definition writeBuf (bs : list Z) : prog t tars_error unit := λ w,
  let w := TarsReserveBuf (len w + zlen bs) w in
  if len w + zlen bs <=? zlen (mem (buffer w))
  then (Ok tt, mk (mkvec (store (len w) bs (mem (buffer w))) (vsize (buffer w)))
                  (len w + zlen bs) (buf_len w))
  else (OutOfBounds, w).

Definition reset (w : t) : t := mk (buffer w) 0 (buf_len w).

(** [getByteBuffer]: trims the (mutable) vector to [_len] and returns a
    reference to it. *)
Definition getByteBuffer (w : t) : list Z * t :=
  let v := resize (len w) (buffer w) in (contents v, mk v (len w) (buf_len w)).

(** [swap(std::vector<char>&)]: the caller takes the vector, the writer is left
    with the caller's. *)
Definition swap (v : vec) (w : t) : vec * t :=
  (resize (len w) (buffer w), mk v 0 0).

Definition getLength (w : t) : Z := len w.

Definition view (w : t) : list Z := take (Z.to_nat (len w)) (mem (buffer w)).

(** The vector is exactly as long as [_buf_len] says: nobody has trimmed it. *)
Definition wf (w : t) : Prop :=
  0 ≤ len w ≤ buf_len w ∧ buf_len w = vsize (buffer w)
  ∧ vsize (buffer w) ≤ zlen (mem (buffer w)).

Lemma resize_grow n v : 0 ≤ vsize v ≤ zlen (mem v) → vsize v ≤ n →
  vsize (resize n v) = n ∧ n ≤ zlen (mem (resize n v))
  ∧ take (Z.to_nat (vsize v)) (mem (resize n v)) = take (Z.to_nat (vsize v)) (mem v).
Proof.
  intros Hv Hn. unfold resize. destruct (Z.leb_spec n (vsize v)); simpl.
  { split_and!; [done | lia | done]. }
  assert (Hlen : length (take (Z.to_nat (vsize v)) (mem v)) = Z.to_nat (vsize v))
    by (rewrite length_take; lia).
  destruct (Z.leb_spec n (zlen (mem v))); simpl; split_and!; try done.
  - rewrite !length_app, Hlen, length_replicate, length_drop. lia.
  - by rewrite take_app_le, take_take, Nat.min_id by lia.
  - rewrite !length_app, Hlen, length_replicate. lia.
  - by rewrite take_app_le, take_take, Nat.min_id by lia.
Qed.

Lemma store_view off bs m : 0 ≤ off → off + zlen bs ≤ zlen m →
  length (store off bs m) = length m
  ∧ take (Z.to_nat (off + zlen bs)) (store off bs m) = take (Z.to_nat off) m ++ bs.
Proof.
  intros Ho Hl. unfold store. split.
  - rewrite !length_app, length_take, length_drop. lia.
  - rewrite app_assoc, take_app_le; [rewrite take_ge; [done|] |];
      rewrite length_app, length_take; lia.
Qed.

Lemma reserve_spec w n : wf w → 0 ≤ n < 2 ^ 63 → len w ≤ n →
  let w' := TarsReserveBuf n w in
  wf w' ∧ n ≤ buf_len w' ∧ len w' = len w ∧ view w' = view w.
Proof.
  intros (Hl & He & Hm) Hn Hle. unfold TarsReserveBuf, view, wf.
  pose proof (reserve_len_enough (buf_len w) n ltac:(lia) Hn) as Hr.
  destruct (reserve_len _ _) as [c|]; simpl; [|by split_and!; try lia].
  destruct (resize_grow c (buffer w)) as (Hs & Hc & Ht); [lia..|].
  split_and!; try lia.
  rewrite <- (take_take_le (mem (buffer w)) (Z.to_nat (len w)) (Z.to_nat (vsize (buffer w)))) by lia.
  rewrite <- Ht. apply eq_sym, take_take_le. lia.
Qed.

Lemma writeBuf_spec w bs : wf w → zlen (view w) + zlen bs < 2 ^ 63 →
  ∃ w', writeBuf bs w = (Ok tt, w') ∧ wf w' ∧ view w' = view w ++ bs.
Proof.
  intros Hwf Hlen. pose proof Hwf as (Hl & He & Hm).
  assert (Hv : zlen (view w) = len w) by (unfold view; rewrite length_take; lia).
  destruct (reserve_spec w (len w + zlen bs)) as (Hwf' & Hc & Hl' & Hview); [done|lia..|].
  unfold writeBuf. set (w' := TarsReserveBuf _ w) in *. destruct Hwf' as (? & ? & ?).
  rewrite (proj2 (Z.leb_le _ _)) by lia.
  destruct (store_view (len w') bs (mem (buffer w'))) as [Hs1 Hs2]; [lia..|].
  eexists; split_and!; [done | |]; unfold wf, view in *; simpl.
  - rewrite Hs1. lia.
  - rewrite <- Hview, <- Hs2. by rewrite Hl'.
Qed.

#[export] Instance writer : WriterT t :=
  {| w_view := view; w_wf := wf; w_raw := writeBuf; w_raw_spec := writeBuf_spec |}.

(** The bytes handed over by [swap] are the bytes written. *)
Lemma swap_view v w : wf w → contents (fst (swap v w)) = view w.
Proof.
  intros (Hl & He & Hm). unfold swap, contents, resize, view; simpl.
  rewrite (proj2 (Z.leb_le _ _)) by lia. done.
Qed.

(** So are the bytes returned by [getByteBuffer]. *)
Lemma getByteBuffer_view w : wf w → fst (getByteBuffer w) = view w.
Proof.
  intros (Hl & He & Hm). unfold getByteBuffer, contents, resize, view; simpl.
  rewrite (proj2 (Z.leb_le _ _)) by lia. done.
Qed.

(** After [reset] the trimmed length is still the allocated one, so the writer
    can be reused. *)
Lemma reset_wf w : wf w → wf (reset w) ∧ view (reset w) = [].
Proof. intros (Hl & He & Hm). unfold wf, view, reset; simpl. split; [lia|done]. Qed.
End BufferWriterVector.

(** * BufferWriterString

    The same class text over [std::string]; [swap] into a [std::vector<char>]
    copies instead of exchanging. *)
Module BufferWriterString.
Definition t : Type := BufferWriterVector.t.
Definition init : t := BufferWriterVector.init.
Definition writeBuf : list Z → prog t tars_error unit := BufferWriterVector.writeBuf.
Definition reset : t → t := BufferWriterVector.reset.
Definition getByteBuffer : t → list Z * t := BufferWriterVector.getByteBuffer.
Definition swap_string : BufferWriterVector.vec → t → BufferWriterVector.vec * t :=
  BufferWriterVector.swap.
Definition swap_vector (w : t) : list Z * t :=
  let v := BufferWriterVector.resize (BufferWriterVector.len w) (BufferWriterVector.buffer w) in
  (BufferWriterVector.contents v, BufferWriterVector.mk v 0 0).

Lemma swap_vector_view (w : t) : BufferWriterVector.wf w →
  fst (swap_vector w) = BufferWriterVector.view w.
Proof.
  intros (Hl & He & Hm). unfold swap_vector, BufferWriterVector.contents,
    BufferWriterVector.resize, BufferWriterVector.view; simpl.
  rewrite (proj2 (Z.leb_le _ _)) by lia. done.
Qed.
End BufferWriterString.

#[export] Existing Instance BufferWriter.writer.
#[export] Existing Instance BufferWriterVector.writer.
