(* ===== verification/TarsOutput.v ===== *)
(** The encoder: the data heads, the write macros and every [write] overload of
    [TarsOutputStream] in [src/servant/tup/Tars.h], over any output buffer that
    implements [WriterT]. *)
From stdpp Require Import prelude list.
From Stdlib Require Import ZArith Lia.
From S2P Require Import Prelude Bytes TarsBuffer.

(** The data head types (the [TarsHeade...] macros). *)
Definition TarsHeadeChar := 0.
Definition TarsHeadeShort := 1.
Definition TarsHeadeInt32 := 2.
Definition TarsHeadeInt64 := 3.
Definition TarsHeadeFloat := 4.
Definition TarsHeadeDouble := 5.
Definition TarsHeadeString1 := 6.
Definition TarsHeadeString4 := 7.
Definition TarsHeadeMap := 8.
Definition TarsHeadeList := 9.
Definition TarsHeadeStructBegin := 10.
Definition TarsHeadeStructEnd := 11.
Definition TarsHeadeZeroTag := 12.
Definition TarsHeadeSimpleList := 13.

(** 100 MB. *)
Definition TARS_MAX_STRING_LENGTH := 100 * 1024 * 1024.

(** [tars_htonll]: the union of an [Int64] and two [Int32], each half swapped and
    the halves exchanged. *)
Definition tars_htonll (x : Z) : Z :=
  let i32_0 := wrapS 32 x in
  let i32_1 := wrapS 32 (Z.shiftr x 32) in
  let tmp := wrapS 32 (htonl i32_1) in
  let i32_1' := wrapS 32 (htonl i32_0) in
  wrapS 64 (wrapU 32 tmp + Z.shiftl (wrapU 32 i32_1') 32).

(** [tars_ntohf] on the bit pattern of a [Float], [tars_ntohd] on that of a
    [Double]: the same unions. *)
Definition tars_ntohf (x : Z) : Z := htonl x.
Definition tars_ntohd (x : Z) : Z := wrapU 64 (tars_htonll x).

Section output.
Context {S : Type} `{WriterT S}.
Implicit Types (m : prog S tars_error unit) (tag : Z).

Definition TarsWriteUInt8TTypeBuf (val : Z) : prog S tars_error unit := w_raw (le_bytes 1 val).
Definition TarsWriteCharTypeBuf (val : Z) : prog S tars_error unit := w_raw (le_bytes 1 val).
Definition TarsWriteShortTypeBuf (val : Z) : prog S tars_error unit := w_raw (le_bytes 2 val).
Definition TarsWriteInt32TypeBuf (val : Z) : prog S tars_error unit := w_raw (le_bytes 4 val).
Definition TarsWriteUInt32TTypeBuf (val : Z) : prog S tars_error unit := w_raw (le_bytes 4 val).
Definition TarsWriteInt64TypeBuf (val : Z) : prog S tars_error unit := w_raw (le_bytes 8 val).
Definition TarsWriteFloatTypeBuf (val : Z) : prog S tars_error unit := w_raw (le_bytes 4 val).
Definition TarsWriteDoubleTypeBuf (val : Z) : prog S tars_error unit := w_raw (le_bytes 8 val).
Definition TarsWriteTypeBuf (buf : list Z) : prog S tars_error unit := w_raw buf.

Definition TarsWriteToHead (type tag : Z) : prog S tars_error unit :=
  if tag <? 15
  then TarsWriteUInt8TTypeBuf (type + Z.shiftl tag 4)
  else (TarsWriteUInt8TTypeBuf (type + 240) ;;; TarsWriteUInt8TTypeBuf tag).

(** ** Scalars *)

Definition write_Char (n tag : Z) : prog S tars_error unit :=
  if n =? 0 then TarsWriteToHead TarsHeadeZeroTag tag
  else (TarsWriteToHead TarsHeadeChar tag ;;; TarsWriteCharTypeBuf n).

Definition write_Bool (b : bool) (tag : Z) : prog S tars_error unit :=
  write_Char (if b then 1 else 0) tag.

Definition write_Short (n tag : Z) : prog S tars_error unit :=
  if (-128 <=? n) && (n <=? 127) then write_Char (wrapS 8 n) tag
  else (TarsWriteToHead TarsHeadeShort tag ;;;
        TarsWriteShortTypeBuf (wrapS 16 (htons n))).

Definition write_UInt8 (n tag : Z) : prog S tars_error unit := write_Short (wrapS 16 n) tag.

Definition write_Int32 (n tag : Z) : prog S tars_error unit :=
  if (-32768 <=? n) && (n <=? 32767) then write_Short (wrapS 16 n) tag
  else (TarsWriteToHead TarsHeadeInt32 tag ;;;
        TarsWriteInt32TypeBuf (wrapS 32 (htonl n))).

Definition write_UInt16 (n tag : Z) : prog S tars_error unit := write_Int32 (wrapS 32 n) tag.

Definition write_Int64 (n tag : Z) : prog S tars_error unit :=
  if (-2147483647 - 1 <=? n) && (n <=? 2147483647) then write_Int32 (wrapS 32 n) tag
  else (TarsWriteToHead TarsHeadeInt64 tag ;;;
        TarsWriteInt64TypeBuf (tars_htonll n)).

Definition write_UInt32 (n tag : Z) : prog S tars_error unit := write_Int64 (wrapS 64 n) tag.

Definition write_Float (n tag : Z) : prog S tars_error unit :=
  TarsWriteToHead TarsHeadeFloat tag ;;; TarsWriteFloatTypeBuf (tars_ntohf n).

Definition write_Double (n tag : Z) : prog S tars_error unit :=
  TarsWriteToHead TarsHeadeDouble tag ;;; TarsWriteDoubleTypeBuf (tars_ntohd n).

(** ** Strings and byte blocks *)

Definition write_string (s : list Z) (tag : Z) : prog S tars_error unit :=
  if 255 <? zlen s then
    if TARS_MAX_STRING_LENGTH <? zlen s then throw TarsDecodeInvalidValue
    else (TarsWriteToHead TarsHeadeString4 tag ;;;
          TarsWriteUInt32TTypeBuf (htonl (wrapU 32 (zlen s))) ;;;
          TarsWriteTypeBuf s)
  else (TarsWriteToHead TarsHeadeString1 tag ;;;
        TarsWriteUInt8TTypeBuf (wrapU 8 (zlen s)) ;;;
        TarsWriteTypeBuf s).

(** [write(const char *buf, const UInt32 len, uint8_t tag)]. *)
Definition write_chars (buf : list Z) (tag : Z) : prog S tars_error unit :=
  TarsWriteToHead TarsHeadeSimpleList tag ;;;
  TarsWriteToHead TarsHeadeChar 0 ;;;
  write_UInt32 (wrapU 32 (zlen buf)) 0 ;;;
  TarsWriteTypeBuf buf.

(** [write(const std::vector<Char>&, uint8_t)]. *)
Definition write_vector_char (v : list Z) (tag : Z) : prog S tars_error unit :=
  TarsWriteToHead TarsHeadeSimpleList tag ;;;
  TarsWriteToHead TarsHeadeChar 0 ;;;
  write_Int32 (wrapS 32 (zlen v)) 0 ;;;
  TarsWriteTypeBuf v.

(** ** Containers

    The element [write] the C++ overload resolution picks is an argument. *)

Fixpoint write_each {A} (wr : A → prog S tars_error unit) (l : list A) : prog S tars_error unit :=
  match l with
  | [] => ret tt
  | x :: l' => wr x ;;; write_each wr l'
  end.

Section containers.
Context {A B : Type} (wA : A → Z → prog S tars_error unit) (wB : B → Z → prog S tars_error unit).

Definition write_vector (v : list A) (tag : Z) : prog S tars_error unit :=
  TarsWriteToHead TarsHeadeList tag ;;;
  write_Int32 (wrapS 32 (zlen v)) 0 ;;;
  write_each (λ x, wA x 0) v.

(** A [std::set] in iteration order. *)
Definition write_set (v : list A) (tag : Z) : prog S tars_error unit :=
  TarsWriteToHead TarsHeadeList tag ;;;
  write_Int32 (wrapS 32 (zlen v)) 0 ;;;
  write_each (λ x, wA x 0) v.

(** A [std::unordered_set] in whatever iteration order it has. *)
Definition write_unordered_set (v : list A) (tag : Z) : prog S tars_error unit :=
  TarsWriteToHead TarsHeadeList tag ;;;
  write_Int32 (wrapS 32 (zlen v)) 0 ;;;
  write_each (λ x, wA x 0) v.

(** [write(const T *v, const UInt32 len, uint8_t)]; the loop bound is
    [(Int32)len]. *)
Definition write_array (v : list A) (tag : Z) : prog S tars_error unit :=
  TarsWriteToHead TarsHeadeList tag ;;;
  write_UInt32 (wrapU 32 (zlen v)) 0 ;;;
  write_each (λ x, wA x 0) (take (Z.to_nat (wrapS 32 (zlen v))) v).

(** A [std::map] in key order. *)
Definition write_map (m : list (A * B)) (tag : Z) : prog S tars_error unit :=
  TarsWriteToHead TarsHeadeMap tag ;;;
  write_Int32 (wrapS 32 (zlen m)) 0 ;;;
  write_each (λ p, wA p.1 0 ;;; wB p.2 1) m.

(** A [std::unordered_map]; the [std::cout] line of the code is not part of
    the encoded stream. *)
Definition write_unordered_map (m : list (A * B)) (tag : Z) : prog S tars_error unit :=
  TarsWriteToHead TarsHeadeMap tag ;;;
  write_Int32 (wrapS 32 (zlen m)) 0 ;;;
  write_each (λ p, wA p.1 0 ;;; wB p.2 1) m.
End containers.

(** The [writeEx] overloads convert each element to a type [CV] first. *)
Section containers_ex.
Context {A B CV : Type} (wA : A → Z → prog S tars_error unit).
Context (wCV : CV → Z → prog S tars_error unit) (cvA : A → CV) (cvB : B → CV).

Definition writeEx_vector (v : list A) (tag : Z) : prog S tars_error unit :=
  TarsWriteToHead TarsHeadeList tag ;;;
  write_Int32 (wrapS 32 (zlen v)) 0 ;;;
  write_each (λ x, wCV (cvA x) 0) v.

Definition writeEx_set (v : list A) (tag : Z) : prog S tars_error unit :=
  TarsWriteToHead TarsHeadeList tag ;;;
  write_Int32 (wrapS 32 (zlen v)) 0 ;;;
  write_each (λ x, wCV (cvA x) 0) v.

Definition writeEx_unordered_set (v : list A) (tag : Z) : prog S tars_error unit :=
  TarsWriteToHead TarsHeadeList tag ;;;
  write_Int32 (wrapS 32 (zlen v)) 0 ;;;
  write_each (λ x, wCV (cvA x) 0) v.

Definition writeEx_map (m : list (A * B)) (tag : Z) : prog S tars_error unit :=
  TarsWriteToHead TarsHeadeMap tag ;;;
  write_Int32 (wrapS 32 (zlen m)) 0 ;;;
  write_each (λ p, wA p.1 0 ;;; wCV (cvB p.2) 1) m.
End containers_ex.

(** An enumeration: [write((Int32) v, tag)]. *)
Definition write_enum (v tag : Z) : prog S tars_error unit := write_Int32 (wrapS 32 v) tag.

(** A structure, given its generated [writeTo]. *)
Definition write_struct {A} (writeTo : A → prog S tars_error unit) (v : A) (tag : Z)
  : prog S tars_error unit :=
  TarsWriteToHead TarsHeadeStructBegin tag ;;;
  writeTo v ;;;
  TarsWriteToHead TarsHeadeStructEnd 0.

Definition writeUnknown (s : list Z) : prog S tars_error unit := w_raw s.

(** [DataHead::writeTo], whose [helper] packs the type in the low and the tag
    in the high four bits. *)
Definition DataHead_writeTo (type tag : Z) : prog S tars_error unit :=
  if tag <? 15
  then w_raw [Z.lor (Z.land type 15) (Z.shiftl (Z.land tag 15) 4)]
  else (w_raw [Z.lor (Z.land type 15) (Z.shiftl 15 4)] ;;; w_raw [tag]).

Definition writeUnknownV2 (s : list Z) : prog S tars_error unit :=
  DataHead_writeTo TarsHeadeStructBegin 0 ;;;
  w_raw s ;;;
  DataHead_writeTo TarsHeadeStructEnd 0.
End output.

(** * What the encoder writes *)

(** The head of a field: one byte for tags below 15, two bytes otherwise. *)
Definition head_bytes (type tag : Z) : list Z :=
  if tag <? 15 then [type + 16 * tag] else [type + 240; tag].

(** The head type and the body an integer is written with: the narrowest that
    holds it. *)
Definition int_type (n : Z) : Z :=
  if n =? 0 then TarsHeadeZeroTag
  else if (-128 <=? n) && (n <=? 127) then TarsHeadeChar
  else if (-32768 <=? n) && (n <=? 32767) then TarsHeadeShort
  else if (-2147483648 <=? n) && (n <=? 2147483647) then TarsHeadeInt32
  else TarsHeadeInt64.

Definition int_body (n : Z) : list Z :=
  if n =? 0 then []
  else if (-128 <=? n) && (n <=? 127) then be_bytes 1 n
  else if (-32768 <=? n) && (n <=? 32767) then be_bytes 2 n
  else if (-2147483648 <=? n) && (n <=? 2147483647) then be_bytes 4 n
  else be_bytes 8 n.

Definition int_bytes (n tag : Z) : list Z := head_bytes (int_type n) tag ++ int_body n.

(** [writes m bs]: on every well-formed buffer with room below 2^63 bytes, [m]
    succeeds and appends exactly [bs]. *)
Definition writes {S} `{WriterT S} (m : prog S tars_error unit) (bs : list Z) : Prop :=
  ∀ s, w_wf s → zlen (w_view s) + zlen bs < 2 ^ 63 →
  ∃ s', m s = (Ok tt, s') ∧ w_wf s' ∧ w_view s' = w_view s ++ bs.

Lemma length_head_bytes ty tag : 1 ≤ zlen (head_bytes ty tag) ≤ 2.
Proof. unfold head_bytes. destruct (tag <? 15); simpl; lia. Qed.

Lemma le_bytes_1 v : le_bytes 1 v = [v mod 256].
Proof. done. Qed.

Lemma be_bytes_1 v : be_bytes 1 v = [v mod 256].
Proof. done. Qed.

Lemma le_bytes_wrapS n v : (0 < n)%nat → le_bytes n (wrapS (8 * Z.of_nat n) v) = le_bytes n v.
Proof. intros. rewrite <- le_bytes_wrapU, wrapU_wrapS, le_bytes_wrapU by lia. done. Qed.

(** [tars_htonll] leaves the eight bytes in network order. *)
Lemma le_bytes_tars_htonll x : le_bytes 8 (tars_htonll x) = be_bytes 8 x.
Proof.
  unfold tars_htonll.
  change 64 with (8 * Z.of_nat 8) at 1. rewrite le_bytes_wrapS by lia.
  change 8%nat with (4 + 4)%nat. unfold be_bytes. rewrite !(le_bytes_app 4 4), rev_app_distr.
  change (8 * Z.of_nat 4) with 32.
  set (a := wrapU 32 (wrapS 32 (htonl (wrapS 32 (Z.shiftr x 32))))).
  set (b := wrapU 32 (wrapS 32 (htonl (wrapS 32 x)))).
  assert (Ha : in_U 32 a) by (apply wrapU_range; lia). unfold in_U in Ha.
  assert (Hhi : Z.shiftr (a + Z.shiftl b 32) 32 = b).
  { rewrite Z.shiftl_mul_pow2, Z.shiftr_div_pow2 by lia.
    rewrite Z.div_add by lia. rewrite Z.div_small by lia. lia. }
  assert (Hlo : le_bytes 4 (a + Z.shiftl b 32) = le_bytes 4 a).
  { rewrite <- (le_bytes_wrapU 4 (a + _)), <- (le_bytes_wrapU 4 a). f_equal. unfold wrapU.
    rewrite Z.shiftl_mul_pow2 by lia. change (8 * Z.of_nat 4) with 32.
    by rewrite Z.mod_add by lia. }
  rewrite Hhi, Hlo. unfold a, b.
  assert (Hh : ∀ y, le_bytes 4 (wrapU 32 (wrapS 32 (htonl (wrapS 32 y)))) = rev (le_bytes 4 y)).
  { intros y. change 32 with (8 * Z.of_nat 4).
    rewrite le_bytes_wrapU, le_bytes_wrapS by lia. unfold htonl. rewrite le_bytes_bswap.
    unfold be_bytes. by rewrite le_bytes_wrapS by lia. }
  by rewrite !Hh.
Qed.

Section writes.
Context {S : Type} `{WriterT S}.
Implicit Types m : prog S tars_error unit.

Lemma writes_ret : writes (ret tt) [].
Proof. intros s Hs _. exists s. rewrite app_nil_r. done. Qed.

Lemma writes_raw bs : writes (w_raw bs) bs.
Proof. intros s Hs Hl. by apply w_raw_spec. Qed.

Lemma writes_bind m m' bs bs' :
  writes m bs → writes m' bs' → writes (m ;;; m') (bs ++ bs').
Proof.
  intros Hm Hm' s Hs Hl. rewrite length_app in Hl.
  destruct (Hm s Hs) as (s1 & E1 & Hs1 & V1); [lia|].
  destruct (Hm' s1 Hs1) as (s2 & E2 & Hs2 & V2).
  { rewrite V1, length_app. lia. }
  exists s2. split_and!; [| done | by rewrite V2, V1, app_assoc].
  by rewrite (bind_Ok _ _ _ _ _ E1).
Qed.

Lemma writes_eq m bs bs' : writes m bs → bs = bs' → writes m bs'.
Proof. by intros ? <-. Qed.

Lemma writes_head ty tag : 0 ≤ ty < 16 → 0 ≤ tag < 256 →
  writes (TarsWriteToHead ty tag) (head_bytes ty tag).
Proof.
  intros. unfold TarsWriteToHead, head_bytes, TarsWriteUInt8TTypeBuf.
  rewrite Z.shiftl_mul_pow2 by lia. change (2 ^ 4) with 16. rewrite !le_bytes_1.
  destruct (Z.ltb_spec tag 15).
  - rewrite Z.mod_small by lia. rewrite (Z.mul_comm tag). apply writes_raw.
  - rewrite !Z.mod_small by lia. apply (writes_bind _ _ [_] [_]); apply writes_raw.
Qed.

Lemma writes_Char n tag : in_S 8 n → 0 ≤ tag < 256 → writes (write_Char n tag) (int_bytes n tag).
Proof.
  unfold in_S. intros Hn Ht. unfold write_Char, int_bytes, int_type, int_body.
  destruct (Z.eqb_spec n 0).
  - rewrite app_nil_r. apply writes_head; [unfold TarsHeadeZeroTag|]; lia.
  - replace ((-128 <=? n) && (n <=? 127)) with true by lia.
    apply writes_bind; [apply writes_head; [unfold TarsHeadeChar|]; lia | apply writes_raw].
Qed.

Lemma writes_Short n tag : in_S 16 n → 0 ≤ tag < 256 → writes (write_Short n tag) (int_bytes n tag).
Proof.
  intros Hn Ht. unfold write_Short. destruct (_ && _) eqn:E.
  - rewrite wrapS_id by (unfold in_S; lia). apply writes_Char; unfold in_S; lia.
  - unfold int_bytes, int_type, int_body. rewrite E. unfold in_S in Hn.
    replace (n =? 0) with false by lia.
    replace ((-32768 <=? n) && (n <=? 32767)) with true by lia.
    apply writes_bind; [apply writes_head; [unfold TarsHeadeShort|]; lia |].
    eapply writes_eq; [apply writes_raw |].
    change 16 with (8 * Z.of_nat 2). rewrite le_bytes_wrapS by lia. apply le_bytes_bswap.
Qed.

Lemma writes_Int32 n tag : in_S 32 n → 0 ≤ tag < 256 → writes (write_Int32 n tag) (int_bytes n tag).
Proof.
  intros Hn Ht. unfold write_Int32. destruct (_ && _) eqn:E.
  - rewrite wrapS_id by (unfold in_S; lia). apply writes_Short; unfold in_S; lia.
  - unfold int_bytes, int_type, int_body. rewrite E. unfold in_S in Hn.
    replace (n =? 0) with false by lia.
    replace ((-128 <=? n) && (n <=? 127)) with false by lia.
    replace ((-2147483648 <=? n) && (n <=? 2147483647)) with true by lia.
    apply writes_bind; [apply writes_head; [unfold TarsHeadeInt32|]; lia |].
    eapply writes_eq; [apply writes_raw |].
    change 32 with (8 * Z.of_nat 4). rewrite le_bytes_wrapS by lia. apply le_bytes_bswap.
Qed.

Lemma writes_Int64 n tag : in_S 64 n → 0 ≤ tag < 256 → writes (write_Int64 n tag) (int_bytes n tag).
Proof.
  intros Hn Ht. unfold write_Int64. destruct (_ && _) eqn:E.
  - rewrite wrapS_id by (unfold in_S; lia). apply writes_Int32; unfold in_S; lia.
  - unfold int_bytes, int_type, int_body.
    change (-2147483647 - 1) with (-2147483648) in E. rewrite E.
    replace (n =? 0) with false by lia.
    replace ((-128 <=? n) && (n <=? 127)) with false by lia.
    replace ((-32768 <=? n) && (n <=? 32767)) with false by lia.
    apply writes_bind; [apply writes_head; [unfold TarsHeadeInt64|]; lia |].
    eapply writes_eq; [apply writes_raw |]. apply le_bytes_tars_htonll.
Qed.
End writes.
