(* ===== verification/TarsInput.v ===== *)
(** The decoder: [BufferReader], the read macros, the skipping functions and the
    scalar, string and container [read] overloads of [TarsInputStream] in
    [src/servant/tup/Tars.h]. *)
From stdpp Require Import prelude list.
From Stdlib Require Import ZArith Lia.
From S2P Require Import Prelude Bytes TarsBuffer TarsOutput.

(** * BufferReader

    [rmem] is the memory behind [_buf], [rlen] the [_buf_len] the reader was
    given and [rcur] the position [_cur].  The code checks positions against
    [rlen] only; a read it lets through that leaves [rmem] is an
    [OutOfBounds]. *)
Record BufferReader := mkReader { rmem : list Z; rlen : Z; rcur : Z }.

Abbreviation reads_prog A := (prog BufferReader tars_error A).

Definition set_cur (c : Z) (r : BufferReader) : BufferReader := mkReader (rmem r) (rlen r) c.

Definition BufferReader_reset (r : BufferReader) : BufferReader := set_cur 0 r.

(** [setBuffer]. *)
Definition setBuffer (buf : list Z) (len : Z) : BufferReader := mkReader buf len 0.

Definition tellp (r : BufferReader) : Z := rcur r.

(** [TarsPeekBuf]: the bytes at [offset] after the position. *)
Definition TarsPeekBuf (len offset : Z) : reads_prog (list Z) := λ r,
  if rlen r <? rcur r + offset + len then (Throw TarsDecodeException, r)
  else match mem_read (rmem r) (rcur r + offset) len with
       | Some bs => (Ok bs, r)
       | None => (OutOfBounds, r)
       end.

(** [TarsPeekTypeBuf]: an object of [size] bytes, as its unsigned value. *)
Definition TarsPeekTypeBuf (offset size : Z) : reads_prog Z :=
  let* bs := TarsPeekBuf size offset in ret (le_val bs).

(** [TarsPeekTypeBufNoTag]: only the check. *)
Definition TarsPeekTypeBufNoTag (offset size : Z) : reads_prog unit := λ r,
  if rlen r <? rcur r + offset + size then (Throw TarsDecodeException, r) else (Ok tt, r).

Definition TarsReadHeadSkip (len : Z) : reads_prog unit :=
  modify (λ r, set_cur (rcur r + len) r).

Definition TarsReadTypeBuf (size : Z) : reads_prog Z :=
  let* v := TarsPeekTypeBuf 0 size in
  TarsReadHeadSkip size ;;; ret v.

(** [BufferReader::readBuf]: two checks, then [peekBuf] and the advance. *)
Definition readBuf (len : Z) : reads_prog (list Z) := λ r,
  if (len <=? rlen r) && (rcur r + len <=? rlen r)
  then (let* bs := TarsPeekBuf len 0 in TarsReadHeadSkip len ;;; ret bs) r
  else (Throw TarsDecodeException, r).

(** [BufferReader::skip]. *)
Definition BufferReader_skip (len : Z) : reads_prog unit := λ r,
  if (len <=? rlen r) && (rcur r + len <=? rlen r)
  then TarsReadHeadSkip len r
  else (Throw TarsDecodeException, r).

(** [TarsReadStringBuf]. *)
Definition TarsReadStringBuf (len : Z) : reads_prog (list Z) :=
  let* bs := TarsPeekBuf len 0 in
  TarsReadHeadSkip len ;;; ret bs.

(** [TarsPeekFromHead]: type, tag and length of the next head. *)
Definition TarsPeekFromHead : reads_prog (Z * Z * Z) :=
  let* typeTag := TarsPeekTypeBuf 0 1 in
  let tmpTag := Z.shiftr typeTag 4 in
  let type := Z.land typeTag 15 in
  if tmpTag =? 15 then
    let* tag := TarsPeekTypeBuf 1 1 in ret (type, tag, 2)
  else ret (type, tmpTag, 1).

Definition readFromHead : reads_prog (Z * Z) :=
  let* (type, tag, n) := TarsPeekFromHead in
  TarsReadHeadSkip n ;;; ret (type, tag).

Definition TarsPeekFromHeadNoTag : reads_prog (Z * Z) :=
  let* typeTag := TarsPeekTypeBuf 0 1 in
  let tmpTag := Z.shiftr typeTag 4 in
  let type := Z.land typeTag 15 in
  if tmpTag =? 15 then TarsPeekTypeBufNoTag 1 1 ;;; ret (type, 2)
  else ret (type, 1).

Definition readFromHeadNoTag : reads_prog Z :=
  let* (type, n) := TarsPeekFromHeadNoTag in
  TarsReadHeadSkip n ;;; ret type.

(** [hasEnd] throws once the position is past the end. *)
Definition hasEnd : reads_prog bool := λ r,
  if rlen r <? rcur r then (Throw TarsDecodeException, r)
  else (Ok (rlen r <=? rcur r), r).

(** * Scalars without their head *)

Definition tars_ntohll (x : Z) : Z := tars_htonll x.

Definition load_Char : reads_prog Z := let* v := TarsReadTypeBuf 1 in ret (wrapS 8 v).

(** [TarsReadTypeBuf(n, Short); n = (Short)ntohs(n)], and the like. *)
Definition load_Short : reads_prog Z :=
  let* v := TarsReadTypeBuf 2 in ret (wrapS 16 (ntohs (wrapS 16 v))).
Definition load_Int32 : reads_prog Z :=
  let* v := TarsReadTypeBuf 4 in ret (wrapS 32 (ntohl (wrapS 32 v))).
Definition load_Int64 : reads_prog Z :=
  let* v := TarsReadTypeBuf 8 in ret (tars_ntohll (wrapS 64 v)).

(** The [switch] of [read(Int64&)]. *)
Definition Int64_of_head (headType : Z) : reads_prog Z :=
  if headType =? TarsHeadeZeroTag then ret 0
  else if headType =? TarsHeadeChar then load_Char
  else if headType =? TarsHeadeShort then load_Short
  else if headType =? TarsHeadeInt32 then load_Int32
  else if headType =? TarsHeadeInt64 then load_Int64
  else throw TarsDecodeMismatch.

(** * Skipping

    [skipField(type)], the loops of fields of a list or map, [skipToStructEnd]
    and [TarsSkipToTag] call each other, so they are one function of the task.
    Each call takes one unit of fuel; [skip_fuel] gives enough for every input
    (see [skip_total] below). *)
Inductive skip_task : Type :=
  | SkipField (type : Z)
  | SkipFields (n : Z)
  | SkipStructEnd
  | SkipToTag (tag : Z).

(** [try { ... } catch (TarsDecodeException&) {}] around a search that then
    reports "not found". *)
Definition catch_decode {A} (m : reads_prog (option A)) : reads_prog (option A) :=
  try_catch m (λ e, if is_decode_exception e then ret None else throw e).

(** One call: what the code of the task does, with [rec] for the calls it
    makes. *)
Definition skip_step (rec : skip_task → reads_prog (option (Z * Z))) (k : skip_task)
  : reads_prog (option (Z * Z)) :=
  (* [read(size, 0)] for a [UInt32 size] *)
  let read_size :=
    let* found := rec (SkipToTag 0) in
    match found with
    | Some (headType, _) => let* i := Int64_of_head headType in ret (wrapU 32 i)
    | None => throw TarsDecodeRequireNotExist
    end in
  match k with
  | SkipToTag tag =>
    catch_decode (
      let* fin := hasEnd in
      if (fin : bool) then ret None else
      let* (nextHeadType, nextHeadTag, len) := TarsPeekFromHead in
      if (nextHeadType =? TarsHeadeStructEnd) || (tag <? nextHeadTag) then ret None
      else if tag =? nextHeadTag
      then (TarsReadHeadSkip len ;;; ret (Some (nextHeadType, nextHeadTag)))
      else (TarsReadHeadSkip len ;;; rec (SkipField nextHeadType) ;;; rec (SkipToTag tag)))
  | SkipStructEnd =>
    let* headType := readFromHeadNoTag in
    rec (SkipField headType) ;;;
    if headType =? TarsHeadeStructEnd then ret None else rec SkipStructEnd
  | SkipFields n =>
    if n <=? 0 then ret None
    else (let* headType := readFromHeadNoTag in
          rec (SkipField headType) ;;; rec (SkipFields (n - 1)))
  | SkipField type =>
    if type =? TarsHeadeChar then TarsReadHeadSkip 1 ;;; ret None
    else if type =? TarsHeadeShort then TarsReadHeadSkip 2 ;;; ret None
    else if type =? TarsHeadeInt32 then TarsReadHeadSkip 4 ;;; ret None
    else if type =? TarsHeadeInt64 then TarsReadHeadSkip 8 ;;; ret None
    else if type =? TarsHeadeFloat then TarsReadHeadSkip 4 ;;; ret None
    else if type =? TarsHeadeDouble then TarsReadHeadSkip 8 ;;; ret None
    else if type =? TarsHeadeString1 then
      let* len := TarsReadTypeBuf 1 in TarsReadHeadSkip len ;;; ret None
    else if type =? TarsHeadeString4 then
      let* len := TarsReadTypeBuf 4 in TarsReadHeadSkip (ntohl len) ;;; ret None
    else if type =? TarsHeadeMap then
      let* size := read_size in rec (SkipFields (wrapU 32 (size * 2)))
    else if type =? TarsHeadeList then
      let* size := read_size in rec (SkipFields size)
    else if type =? TarsHeadeSimpleList then
      let* (headType, _) := readFromHead in
      if negb (headType =? TarsHeadeChar) then throw TarsDecodeMismatch
      else (let* size := read_size in TarsReadHeadSkip size ;;; ret None)
    else if type =? TarsHeadeStructBegin then rec SkipStructEnd
    else if (type =? TarsHeadeStructEnd) || (type =? TarsHeadeZeroTag) then ret None
    else throw TarsDecodeMismatch
  end.

Fixpoint skip (fuel : nat) (k : skip_task) : reads_prog (option (Z * Z)) :=
  match fuel with
  | O => λ r, (NoFuel, r)
  | S f => skip_step (skip f) k
  end.

(** Enough fuel for every task on a reader: four calls per remaining byte. *)
Definition skip_fuel (r : BufferReader) : nat := (4 * Z.to_nat (rlen r) + 4)%nat.

Definition run_skip (k : skip_task) : reads_prog (option (Z * Z)) :=
  λ r, skip (skip_fuel r) k r.

Definition skipField (type : Z) : reads_prog unit := run_skip (SkipField type) ;;; ret tt.
Definition skipToStructEnd : reads_prog unit := run_skip SkipStructEnd ;;; ret tt.

(** [skipField()] with the head. *)
Definition skipFieldHead : reads_prog unit :=
  let* headType := readFromHeadNoTag in skipField headType.

(** [TarsSkipToTag]: the head of the field with the tag, if there is one. *)
Definition TarsSkipToTag (tag : Z) : reads_prog (option (Z * Z)) := run_skip (SkipToTag tag).

(** * Reading fields

    Every [read] overload looks for the tag, switches on the head type, and
    otherwise either throws or leaves its argument alone. *)
Definition read_field {A} (d : A) (tag : Z) (isRequire : bool) (body : Z → reads_prog A) : reads_prog A :=
  let* found := TarsSkipToTag tag in
  match found with
  | Some (headType, _) => body headType
  | None => if isRequire then throw TarsDecodeRequireNotExist else ret d
  end.

Definition read_Char (c tag : Z) (isRequire : bool) : reads_prog Z :=
  read_field c tag isRequire (λ headType,
    if headType =? TarsHeadeZeroTag then ret 0
    else if headType =? TarsHeadeChar then load_Char
    else throw TarsDecodeMismatch).

Definition read_Bool (b : bool) (tag : Z) (isRequire : bool) : reads_prog bool :=
  let* c := read_Char (if b then 1 else 0) tag isRequire in ret (negb (c =? 0)).

Definition read_Short (n tag : Z) (isRequire : bool) : reads_prog Z :=
  read_field n tag isRequire (λ headType,
    if headType =? TarsHeadeZeroTag then ret 0
    else if headType =? TarsHeadeChar then load_Char
    else if headType =? TarsHeadeShort then load_Short
    else throw TarsDecodeMismatch).

Definition read_UInt8 (n tag : Z) (isRequire : bool) : reads_prog Z :=
  let* i := read_Short (wrapS 16 n) tag isRequire in ret (wrapU 8 i).

Definition read_Int32 (n tag : Z) (isRequire : bool) : reads_prog Z :=
  read_field n tag isRequire (λ headType,
    if headType =? TarsHeadeZeroTag then ret 0
    else if headType =? TarsHeadeChar then load_Char
    else if headType =? TarsHeadeShort then load_Short
    else if headType =? TarsHeadeInt32 then load_Int32
    else throw TarsDecodeMismatch).

Definition read_UInt16 (n tag : Z) (isRequire : bool) : reads_prog Z :=
  let* i := read_Int32 (wrapS 32 n) tag isRequire in ret (wrapU 16 i).

Definition read_Int64 (n tag : Z) (isRequire : bool) : reads_prog Z :=
  read_field n tag isRequire Int64_of_head.

Definition read_UInt32 (n tag : Z) (isRequire : bool) : reads_prog Z :=
  let* i := read_Int64 (wrapS 64 n) tag isRequire in ret (wrapU 32 i).

(** An enumeration: read into an [Int32] that starts at 0. *)
Definition read_enum (tag : Z) (isRequire : bool) : reads_prog Z := read_Int32 0 tag isRequire.

Definition read_Float (n tag : Z) (isRequire : bool) : reads_prog Z :=
  read_field n tag isRequire (λ headType,
    if headType =? TarsHeadeZeroTag then ret 0
    else if headType =? TarsHeadeFloat then let* v := TarsReadTypeBuf 4 in ret (tars_ntohf v)
    else throw TarsDecodeMismatch).

(** [(float)(double)f] on bit patterns: the conversion to [double] makes a
    signalling NaN quiet; every other [float] survives. *)
Definition Float_is_NaN (b : Z) : bool :=
  (Z.land (Z.shiftr b 23) 255 =? 255) && negb (Z.land b (Z.ones 23) =? 0).
Definition Float_via_Double (b : Z) : Z :=
  if Float_is_NaN b then Z.lor b (Z.shiftl 1 22) else b.

(** The bit pattern of [(double)f] from that of [f]. *)
Definition Float_to_Double (b : Z) : Z :=
  let sign := Z.shiftl (Z.shiftr b 31) 63 in
  let e := Z.land (Z.shiftr b 23) 255 in
  let m := Z.land b (Z.ones 23) in
  if e =? 255 then
    sign + Z.shiftl 2047 52 + (if m =? 0 then 0 else Z.shiftl (Z.lor m (Z.shiftl 1 22)) 29)
  else if e =? 0 then
    if m =? 0 then sign
    else let k := Z.log2 m in
         sign + Z.shiftl (k - 149 + 1023) 52 + Z.shiftl (m - Z.shiftl 1 k) (52 - k)
  else sign + Z.shiftl (e - 127 + 1023) 52 + Z.shiftl m 29.

(** In the [TarsHeadeFloat] case [n] is a [Double] already when the wire bytes
    are loaded into it as a [float], and again when [tars_ntohf(n)] is applied. *)
Definition read_Double (n tag : Z) (isRequire : bool) : reads_prog Z :=
  read_field n tag isRequire (λ headType,
    if headType =? TarsHeadeZeroTag then ret 0
    else if headType =? TarsHeadeFloat then
      let* v := TarsReadTypeBuf 4 in ret (Float_to_Double (tars_ntohf (Float_via_Double v)))
    else if headType =? TarsHeadeDouble then let* v := TarsReadTypeBuf 8 in ret (tars_ntohd v)
    else throw TarsDecodeMismatch).

Definition read_string (s : list Z) (tag : Z) (isRequire : bool) : reads_prog (list Z) :=
  read_field s tag isRequire (λ headType,
    let* strLength :=
      if headType =? TarsHeadeString1 then TarsReadTypeBuf 1
      else if headType =? TarsHeadeString4 then
        let* v := TarsReadTypeBuf 4 in
        let strLength := ntohl v in
        if TARS_MAX_STRING_LENGTH <? strLength then throw TarsDecodeInvalidValue else ret strLength
      else throw TarsDecodeMismatch in
    TarsReadStringBuf strLength).

(** ** Containers

    The element [read] and the value-initialised element are arguments; elements
    are read with [isRequire] at its default, [true]. *)

(** [this->size()]. *)
Definition reader_size : reads_prog Z := λ r, (Ok (rlen r), r).

(** The element count of a list or map, refused when above [this->size()]. *)
Definition read_count : reads_prog Z :=
  let* size := read_UInt32 0 0 true in
  let* limit := reader_size in
  if limit <? size then throw TarsDecodeInvalidValue else ret size.

(** [for (i = 0; i < size; ++i) read(v[i], 0)]. *)
Fixpoint read_elems {A} (rd : A → reads_prog A) (l : list A) : reads_prog (list A) :=
  match l with
  | [] => ret []
  | x :: l' => let* y := rd x in let* ys := read_elems rd l' in ret (y :: ys)
  end.

(** [n] times: read an element from its initial value and insert it. *)
Fixpoint read_insert {A C} (rd : reads_prog A) (ins : A → C → C) (n : nat) (c : C) : reads_prog C :=
  match n with
  | O => ret c
  | S n' => let* x := rd in read_insert rd ins n' (ins x c)
  end.

(** [std::map::insert] on a map kept in key order: an equal key leaves the map
    as it is. *)
Fixpoint map_insert {K V} (lt : K → K → bool) (p : K * V) (m : list (K * V)) : list (K * V) :=
  match m with
  | [] => [p]
  | q :: m' => if lt p.1 q.1 then p :: q :: m'
               else if lt q.1 p.1 then q :: map_insert lt p m' else q :: m'
  end.

(** [std::set::insert]. *)
Fixpoint set_insert {K} (lt : K → K → bool) (x : K) (l : list K) : list K :=
  match l with
  | [] => [x]
  | y :: l' => if lt x y then x :: y :: l'
               else if lt y x then y :: set_insert lt x l' else y :: l'
  end.

(** The insertions of the unordered containers.  Their iteration order is not
    specified; the list is one such order. *)
Definition unordered_map_insert {K V} `{EqDecision K} (p : K * V) (m : list (K * V)) : list (K * V) :=
  if decide (p.1 ∈ m.*1) then m else m ++ [p].
Definition unordered_set_insert {K} `{EqDecision K} (x : K) (l : list K) : list K :=
  if decide (x ∈ l) then l else l ++ [x].

Section read_containers.
Context {A B : Type} (dA : A) (dB : B).
Context (rA : A → Z → bool → reads_prog A) (rB : B → Z → bool → reads_prog B).

Definition read_vector (v : list A) (tag : Z) (isRequire : bool) : reads_prog (list A) :=
  read_field v tag isRequire (λ headType,
    if headType =? TarsHeadeList then
      let* size := read_count in
      read_elems (λ x, rA x 0 true) (resize (Z.to_nat size) dA v)
    else throw TarsDecodeMismatch).

(** [pair<K, V> pr; read(pr.first, 0); read(pr.second, 1)]. *)
Definition read_pair : reads_prog (A * B) :=
  let* k := rA dA 0 true in let* v := rB dB 1 true in ret (k, v).

Definition read_map (lt : A → A → bool) (m : list (A * B)) (tag : Z) (isRequire : bool)
  : reads_prog (list (A * B)) :=
  read_field m tag isRequire (λ headType,
    if headType =? TarsHeadeMap then
      let* size := read_count in
      read_insert read_pair (map_insert lt) (Z.to_nat size) []
    else throw TarsDecodeMismatch).

Definition read_unordered_map `{EqDecision A} (m : list (A * B)) (tag : Z) (isRequire : bool)
  : reads_prog (list (A * B)) :=
  read_field m tag isRequire (λ headType,
    if headType =? TarsHeadeMap then
      let* size := read_count in
      read_insert read_pair unordered_map_insert (Z.to_nat size) []
    else throw TarsDecodeMismatch).

(** The set overloads insert into the set they are given; they do not clear
    it. *)
Definition read_set (lt : A → A → bool) (v : list A) (tag : Z) (isRequire : bool)
  : reads_prog (list A) :=
  read_field v tag isRequire (λ headType,
    if headType =? TarsHeadeList then
      let* size := read_count in
      read_insert (rA dA 0 true) (set_insert lt) (Z.to_nat size) v
    else throw TarsDecodeMismatch).

Definition read_unordered_set `{EqDecision A} (v : list A) (tag : Z) (isRequire : bool)
  : reads_prog (list A) :=
  read_field v tag isRequire (λ headType,
    if headType =? TarsHeadeList then
      let* size := read_count in
      read_insert (rA dA 0 true) unordered_set_insert (Z.to_nat size) v
    else throw TarsDecodeMismatch).

(** [read(T* v, const UInt32 len, UInt32 &readLen, ...)]: [v] is the memory of
    the array; [len] is not looked at. *)
Fixpoint read_slots (n : nat) (v : list A) : reads_prog (list A) :=
  match n, v with
  | O, _ => ret v
  | S _, [] => out_of_bounds
  | S n', x :: v' => let* y := rA x 0 true in let* ys := read_slots n' v' in ret (y :: ys)
  end.

Definition read_array (v : list A) (len readLen tag : Z) (isRequire : bool)
  : reads_prog (list A * Z) :=
  read_field (v, readLen) tag isRequire (λ headType,
    if headType =? TarsHeadeList then
      let* size := read_count in
      let* v' := read_slots (Z.to_nat size) v in ret (v', size)
    else throw TarsDecodeMismatch).
End read_containers.

(** The [readEx] overloads read each element through a wrapper [CV] of a
    reference to it: [rCV] is that read, from the element's old to its new
    value. *)
Section read_containers_ex.
Context {A B : Type} (dA : A) (dB : B).
Context (rA : A → Z → bool → reads_prog A) (rCV_A : A → Z → bool → reads_prog A)
        (rCV_B : B → Z → bool → reads_prog B).

Definition readEx_vector (v : list A) (tag : Z) (isRequire : bool) : reads_prog (list A) :=
  read_field v tag isRequire (λ headType,
    if headType =? TarsHeadeList then
      let* size := read_count in
      read_elems (λ x, rCV_A x 0 true) (resize (Z.to_nat size) dA v)
    else throw TarsDecodeMismatch).

Definition readEx_map (lt : A → A → bool) (m : list (A * B)) (tag : Z) (isRequire : bool)
  : reads_prog (list (A * B)) :=
  read_field m tag isRequire (λ headType,
    if headType =? TarsHeadeMap then
      let* size := read_count in
      read_insert (let* k := rA dA 0 true in let* v := rCV_B dB 1 true in ret (k, v))
        (map_insert lt) (Z.to_nat size) []
    else throw TarsDecodeMismatch).

Definition readEx_unordered_map `{EqDecision A} (m : list (A * B)) (tag : Z) (isRequire : bool)
  : reads_prog (list (A * B)) :=
  read_field m tag isRequire (λ headType,
    if headType =? TarsHeadeMap then
      let* size := read_count in
      read_insert (let* k := rA dA 0 true in let* v := rCV_B dB 1 true in ret (k, v))
        unordered_map_insert (Z.to_nat size) []
    else throw TarsDecodeMismatch).

Definition readEx_set (lt : A → A → bool) (v : list A) (tag : Z) (isRequire : bool)
  : reads_prog (list A) :=
  read_field v tag isRequire (λ headType,
    if headType =? TarsHeadeList then
      let* size := read_count in
      read_insert (rCV_A dA 0 true) (set_insert lt) (Z.to_nat size) v
    else throw TarsDecodeMismatch).

Definition readEx_unordered_set `{EqDecision A} (v : list A) (tag : Z) (isRequire : bool)
  : reads_prog (list A) :=
  read_field v tag isRequire (λ headType,
    if headType =? TarsHeadeList then
      let* size := read_count in
      read_insert (rCV_A dA 0 true) unordered_set_insert (Z.to_nat size) v
    else throw TarsDecodeMismatch).
End read_containers_ex.

(** The head of the bytes of a simple list, checked to be [TarsHeadeChar]. *)
Definition read_bytes_head : reads_prog unit :=
  let* (hheadType, _) := readFromHead in
  if negb (hheadType =? TarsHeadeChar) then throw TarsDecodeMismatch else ret tt.

(** [read(std::vector<Char>&)]: a simple list, or a list of characters. *)
Definition read_vector_char (v : list Z) (tag : Z) (isRequire : bool) : reads_prog (list Z) :=
  read_field v tag isRequire (λ headType,
    if headType =? TarsHeadeSimpleList then
      read_bytes_head ;;;
      let* size := read_count in
      readBuf size
    else if headType =? TarsHeadeList then
      let* size := read_count in
      let* l := read_elems (λ x, read_Char x 0 true) (resize (Z.to_nat size) 0 v) in
      ret (map (wrapU 8) l)
    else throw TarsDecodeMismatch).

(** [read(char *buf, const UInt32 bufLen, UInt32 &readLen, ...)]: the buffer's
    memory and the number of bytes read into it. *)
Definition read_chars (buf : list Z) (bufLen readLen tag : Z) (isRequire : bool)
  : reads_prog (list Z * Z) :=
  read_field (buf, readLen) tag isRequire (λ headType,
    if headType =? TarsHeadeSimpleList then
      read_bytes_head ;;;
      let* size := read_UInt32 0 0 true in
      if bufLen <? size then throw TarsDecodeInvalidValue
      else (let* bs := readBuf size in
            if zlen buf <? size then out_of_bounds
            else ret (bs ++ drop (Z.to_nat size) buf, size))
    else throw TarsDecodeMismatch).

(** [read] of a structure, given its generated [readFrom]. *)
Definition read_struct {A} (readFrom : A → reads_prog A) (v : A) (tag : Z) (isRequire : bool)
  : reads_prog A :=
  read_field v tag isRequire (λ headType,
    if negb (headType =? TarsHeadeStructBegin) then throw TarsDecodeMismatch
    else (let* v' := readFrom v in skipToStructEnd ;;; ret v')).

(** ** Unknown fields *)

(** [DataHead::peekFrom]. *)
Definition DataHead_peekFrom : reads_prog (Z * Z * Z) :=
  let* h := TarsPeekBuf 1 0 in
  let type := Z.land (le_val h) 15 in
  let tag := Z.shiftr (le_val h) 4 in
  if tag =? 15 then let* t := TarsPeekBuf 1 1 in ret (type, le_val t, 2)
  else ret (type, tag, 1).

(** The loop of [readUnknown]: tags must strictly increase, so 256 rounds are
    enough.  The result is the last position reached. *)
Fixpoint readUnknown_loop (fuel : nat) (lasttag last : Z) : reads_prog Z :=
  match fuel with
  | O => λ r, (NoFuel, r)
  | S f =>
    let* fin := hasEnd in
    if (fin : bool) then ret last else
    let* (type, tag, len) := DataHead_peekFrom in
    if tag <=? lasttag then ret last
    else (BufferReader_skip len ;;; skipField type ;;;
          let* r := get_st in
          readUnknown_loop f tag (tellp r))
  end.

Definition readUnknown (tag : Z) : reads_prog (list Z) :=
  let* r := get_st in
  let* last := readUnknown_loop 257 tag (tellp r) in
  match mem_read (rmem r) (tellp r) (last - tellp r) with
  | Some s => ret s
  | None => out_of_bounds
  end.

(** * MapBufferReader

    The reader with a second, preallocated block that pointer members are carved
    from; [buf_m] is [None] for [NULL]. *)
Record MapBufferReader := mkMapReader {
  base_reader : BufferReader; buf_m : option (list Z); buf_len_m : Z; cur_m : Z
}.

Definition MapBufferReader_reset (r : MapBufferReader) : MapBufferReader :=
  mkMapReader (BufferReader_reset (base_reader r)) (buf_m r) (buf_len_m r) 0.

(** [cur]: the offset in the block of the pointer it returns. *)
Definition MapBufferReader_cur : prog MapBufferReader tars_error Z := λ r,
  match buf_m r with
  | None => (Throw TarsDecodeException, r)
  | Some _ => (Ok (cur_m r), r)
  end.

Definition left (r : MapBufferReader) : Z := wrapU 64 (buf_len_m r - cur_m r).

Definition mapBufferSkip (len : Z) : prog MapBufferReader tars_error unit := λ r,
  if buf_len_m r <? wrapU 64 (cur_m r + len) then (Throw TarsDecodeException, r)
  else (Ok tt, mkMapReader (base_reader r) (buf_m r) (buf_len_m r) (wrapU 64 (cur_m r + len))).

Definition setMapBuffer (buf : list Z) (r : MapBufferReader) : MapBufferReader :=
  mkMapReader (base_reader r) (Some buf) (zlen buf) 0.
