(* ===== verification/TarsSkip.v ===== *)
(** Facts about the decoder's cursor: it never moves backwards, the skipping
    functions end on every input, and they satisfy the equations of the code
    without fuel. *)
From stdpp Require Import prelude list.
From Stdlib Require Import ZArith Lia.
From S2P Require Import Prelude Bytes TarsBuffer TarsOutput TarsInput.

(** A reader over real bytes whose position is not negative. *)
Definition reader_ok (r : BufferReader) : Prop := bytes_ok (rmem r) ∧ 0 ≤ rcur r.

(** [advances r r']: the same buffer, at the same position or further on. *)
Definition advances (r r' : BufferReader) : Prop :=
  rmem r' = rmem r ∧ rlen r' = rlen r ∧ rcur r ≤ rcur r'.

#[export] Instance advances_preorder : PreOrder advances.
Proof. unfold advances. split; [intros r; split_and!; done || lia |]. intros ??? (?&?&?) (?&?&?). split_and!; try congruence; lia. Qed.

(** Every outcome of [m] leaves the reader advanced. *)
Definition forward {A} (m : reads_prog A) : Prop := ∀ r, reader_ok r → advances r (m r).2.

Lemma advances_ok r r' : reader_ok r → advances r r' → reader_ok r'.
Proof. unfold reader_ok, advances. intros [? ?] (-> & ? & ?). split; [done | lia]. Qed.

Section forward.
Lemma forward_ret {A} (a : A) : forward (ret a).
Proof. by intros r _. Qed.

Lemma forward_throw {A} e : forward (A:=A) (throw e).
Proof. by intros r _. Qed.

(** The continuation may use what is known of the value. *)
Lemma forward_bind' {A B} (m : reads_prog A) (k : A → reads_prog B) :
  forward m → (∀ a r r', reader_ok r → m r = (Ok a, r') → forward (k a)) → forward (bind m k).
Proof.
  intros Hm Hk r Hr. pose proof (Hm r Hr) as Ha. unfold bind.
  destruct (m r) as [[] r'] eqn:E; simpl in *; try done.
  etrans; [exact Ha |]. eapply Hk; [exact Hr | exact E |]. by eapply advances_ok.
Qed.

Lemma forward_bind {A B} (m : reads_prog A) (k : A → reads_prog B) :
  forward m → (∀ a, forward (k a)) → forward (bind m k).
Proof. intros ? Hk. apply forward_bind'; eauto. Qed.

Lemma forward_catch {A} (m : reads_prog (option A)) : forward m → forward (catch_decode m).
Proof.
  intros Hm r Hr. pose proof (Hm r Hr) as Ha. unfold catch_decode, try_catch.
  destruct (m r) as [[] r']; try done. simpl in *. by destruct (is_decode_exception e).
Qed.

Lemma forward_if {A} (b : bool) (m m' : reads_prog A) :
  forward m → forward m' → forward (if b then m else m').
Proof. by destruct b. Qed.

Lemma forward_skip n : 0 ≤ n → forward (TarsReadHeadSkip n).
Proof. intros ? r _. unfold advances; simpl. split_and!; [done.. | lia]. Qed.

Lemma peek_state len off r : (TarsPeekBuf len off r).2 = r.
Proof. unfold TarsPeekBuf. destruct (_ <? _); [done|]. by destruct (mem_read _ _ _). Qed.

Lemma forward_peek len off : forward (TarsPeekBuf len off).
Proof. intros r _. by rewrite peek_state. Qed.

Lemma forward_hasEnd : forward hasEnd.
Proof. intros r _. unfold hasEnd. by destruct (_ <? _). Qed.

Lemma peek_type_inv off size r v r' :
  reader_ok r → TarsPeekTypeBuf off size r = (Ok v, r') →
  r' = r ∧ rcur r + off + size ≤ rlen r ∧ in_U (8 * size) v.
Proof.
  unfold TarsPeekTypeBuf, bind, TarsPeekBuf. intros [Hb _].
  destruct (Z.ltb_spec (rlen r) (rcur r + off + size)); [done|].
  destruct (mem_read _ _ _) as [bs|] eqn:E; [|done]. intros [= <- <-].
  split_and!; [done | lia |].
  pose proof (mem_read_length _ _ _ _ E) as (Hl & _).
  pose proof (le_val_range bs) as Hr. rewrite Hl in Hr. eapply Hr, mem_read_ok; eauto.
Qed.

Lemma forward_peek_type off size : forward (TarsPeekTypeBuf off size).
Proof. apply forward_bind; [apply forward_peek | intros; apply forward_ret]. Qed.

Lemma read_type_inv size r v r' :
  reader_ok r → TarsReadTypeBuf size r = (Ok v, r') →
  r' = set_cur (rcur r + size) r ∧ rcur r + size ≤ rlen r ∧ in_U (8 * size) v.
Proof.
  unfold TarsReadTypeBuf. intros Hr (v' & r1 & H1 & H2)%bind_Ok_inv.
  apply peek_type_inv in H1 as (-> & Hl & Hv); [|done].
  unfold TarsReadHeadSkip, modify, bind, ret in H2. simplify_eq.
  rewrite Z.add_0_r in Hl. done.
Qed.

Lemma forward_read_type size : 0 ≤ size → forward (TarsReadTypeBuf size).
Proof.
  intros. apply forward_bind; [apply forward_peek_type | intros v].
  apply forward_bind; [by apply forward_skip | intros; apply forward_ret].
Qed.
End forward.

Create HintDb forward.
#[export] Hint Resolve forward_ret forward_throw forward_bind forward_catch forward_if
  forward_peek forward_hasEnd forward_peek_type : forward.
#[export] Hint Extern 1 (forward (TarsReadHeadSkip _)) => apply forward_skip; lia : forward.
#[export] Hint Extern 1 (forward (TarsReadTypeBuf _)) => apply forward_read_type; lia : forward.

Section heads.
Lemma peek_head_inv r ty tag n r' :
  reader_ok r → TarsPeekFromHead r = (Ok (ty, tag, n), r') →
  r' = r ∧ 1 ≤ n ≤ 2 ∧ rcur r + n ≤ rlen r ∧ 0 ≤ ty < 16 ∧ 0 ≤ tag < 256.
Proof.
  intros Hr (v & r1 & H1 & H2)%bind_Ok_inv.
  apply peek_type_inv in H1 as (-> & Hl & Hv); [|done]. unfold in_U in Hv.
  assert (Hty : 0 ≤ Z.land v 15 < 16).
  { change 15 with (Z.ones 4). rewrite Z.land_ones by lia. apply Z.mod_pos_bound; lia. }
  assert (Htag : 0 ≤ Z.shiftr v 4 < 16).
  { rewrite Z.shiftr_div_pow2 by lia. change (2 ^ (8 * 1)) with (16 * 2 ^ 4) in Hv.
    split; [apply Z.div_pos; lia | apply Z.div_lt_upper_bound; lia]. }
  cbv zeta in H2. destruct (Z.eqb_spec (Z.shiftr v 4) 15).
  - apply bind_Ok_inv in H2 as (t & r2 & H2 & H3).
    apply peek_type_inv in H2 as (-> & Hl2 & Ht); [|done]. unfold in_U in Ht.
    unfold ret in H3. simplify_eq. split_and!; lia || done.
  - unfold ret in H2. simplify_eq. split_and!; lia || done.
Qed.

Lemma forward_peek_head : forward TarsPeekFromHead.
Proof. unfold TarsPeekFromHead. eauto 10 with forward. Qed.

Lemma forward_head : forward readFromHead.
Proof.
  unfold readFromHead. apply forward_bind'; [apply forward_peek_head |].
  intros [[ty tag] n] r r' Hr H. apply peek_head_inv in H as (_ & ? & _); [|done].
  auto with forward.
Qed.

Lemma head_inv r ty tag r' : reader_ok r → readFromHead r = (Ok (ty, tag), r') →
  advances r r' ∧ rcur r < rcur r' ≤ rlen r.
Proof.
  intros Hr (((ty' & tag') & n) & r1 & H1 & H2)%bind_Ok_inv.
  apply peek_head_inv in H1 as (-> & ? & ? & _); [|done].
  unfold TarsReadHeadSkip, modify, bind, ret in H2. simplify_eq. unfold advances; simpl.
  split_and!; lia || done.
Qed.

(** [readFromHeadNoTag] is [readFromHead] without the tag. *)
Lemma head_notag_inv r ty r' : reader_ok r → readFromHeadNoTag r = (Ok ty, r') →
  advances r r' ∧ rcur r < rcur r' ≤ rlen r ∧ 0 ≤ ty < 16.
Proof.
  unfold readFromHeadNoTag, TarsPeekFromHeadNoTag.
  intros Hr ((ty' & n) & r1 & (v & r2 & H1 & H2)%bind_Ok_inv & H3)%bind_Ok_inv.
  apply peek_type_inv in H1 as (-> & Hl & Hv); [|done].
  assert (Hty : 0 ≤ Z.land v 15 < 16).
  { change 15 with (Z.ones 4). rewrite Z.land_ones by lia. apply Z.mod_pos_bound; lia. }
  unfold TarsReadHeadSkip, modify, bind, ret in H3. simplify_eq.
  assert (r1 = r ∧ 1 ≤ n ∧ rcur r + n ≤ rlen r ∧ ty = Z.land v 15) as (-> & ? & ? & ->).
  { cbv zeta in H2. destruct (_ =? 15); [|unfold ret in H2; simplify_eq; split_and!; lia || done].
    unfold TarsPeekTypeBufNoTag, bind, ret in H2.
    destruct (Z.ltb_spec (rlen r) (rcur r + 1 + 1)); simplify_eq. split_and!; lia || done. }
  unfold advances; simpl. split_and!; lia || done.
Qed.

Lemma forward_head_notag : forward readFromHeadNoTag.
Proof.
  intros r Hr. destruct (readFromHeadNoTag r) as [o r'] eqn:E. simpl.
  destruct o; [by apply head_notag_inv in E as (? & _) | ..].
  all: unfold readFromHeadNoTag, TarsPeekFromHeadNoTag, TarsPeekTypeBuf, bind in E.
  all: pose proof (peek_state 1 0 r) as Hp.
  all: destruct (TarsPeekBuf 1 0 r) as [[] r1]; simpl in Hp; subst r1; simpl in E; simplify_eq; try done.
  all: destruct (_ =? 15); [|done]; unfold TarsPeekTypeBufNoTag in E;
    destruct (_ <? _); simpl in E; simplify_eq; done.
Qed.

Lemma forward_Int64_of_head ty : forward (Int64_of_head ty).
Proof.
  unfold Int64_of_head, load_Char, load_Short, load_Int32, load_Int64.
  repeat apply forward_if; eauto 8 with forward.
Qed.
End heads.
#[export] Hint Resolve forward_peek_head forward_head forward_head_notag forward_Int64_of_head : forward.

Section skip_forward.
Context (rec : skip_task → reads_prog (option (Z * Z))) (Hrec : ∀ k, forward (rec k)).

(** The read of an element count inside [skip_step]. *)
Definition size_of (rec : skip_task → reads_prog (option (Z * Z))) : reads_prog Z :=
  let* found := rec (SkipToTag 0) in
  match found with
  | Some (headType, _) => let* i := Int64_of_head headType in ret (wrapU 32 i)
  | None => throw TarsDecodeRequireNotExist
  end.

Lemma forward_size : forward (size_of rec).
Proof.
  apply forward_bind; [apply Hrec |]. intros [[]|]; eauto with forward.
Qed.

Lemma size_nonneg r size r' : size_of rec r = (Ok size, r') → in_U 32 size.
Proof.
  intros (found & r1 & _ & H)%bind_Ok_inv. destruct found as [[ty tg]|]; [|done].
  apply bind_Ok_inv in H as (i & r2 & _ & H). unfold ret in H. simplify_eq.
  apply wrapU_range; lia.
Qed.

Lemma forward_skip_step k : forward (skip_step rec k).
Proof.
  assert (Hsz : forward (size_of rec)) by apply forward_size.
  destruct k as [ty|n| |tag]; simpl skip_step; fold (size_of rec).
  - repeat apply forward_if; eauto 6 with forward.
    + apply forward_bind'; [auto with forward |]. intros v r r' Hr H.
      apply read_type_inv in H as (_ & _ & Hv); [|done]. unfold in_U in Hv. auto with forward.
    + apply forward_bind; [auto with forward |]. intros v.
      pose proof (bswap_range 4 v) as Hv. unfold in_U in Hv.
      apply forward_bind; [apply forward_skip; unfold ntohl; lia | auto with forward].
    + apply forward_bind; [auto with forward |]. intros [ty' tg]. apply forward_if; [auto with forward|].
      apply forward_bind'; [done |]. intros v r r' Hr H%size_nonneg. unfold in_U in H.
      auto with forward.
  - apply forward_if; [auto with forward |].
    apply forward_bind; [auto with forward | intros ty]. by apply forward_bind.
  - apply forward_bind; [auto with forward | intros ty].
    apply forward_bind; [done |]. intros _. apply forward_if; auto with forward.
  - apply forward_catch, forward_bind; [auto with forward |]. intros fin.
    apply forward_if; [auto with forward |].
    apply forward_bind'; [auto with forward |]. intros [[ty tg] n] r r' Hr H.
    apply peek_head_inv in H as (_ & ? & _); [|done].
    repeat apply forward_if; auto with forward.
Qed.
End skip_forward.

Lemma forward_skip_fuel f k : forward (skip f k).
Proof. revert k. induction f as [|f IH]; intros k; [by intros r _ | by apply forward_skip_step]. Qed.
#[export] Hint Resolve forward_skip_fuel : forward.

(** * The skipping functions end *)

Definition total {A} (m : reads_prog A) (r : BufferReader) : Prop := (m r).1 ≠ NoFuel.

(** Bytes left after the position. *)
Definition left_bytes (r : BufferReader) : nat := Z.to_nat (rlen r - rcur r).

(** The fuel a task needs. *)
Definition need (k : skip_task) (r : BufferReader) : nat :=
  match k with
  | SkipField _ => 4 * left_bytes r + 2
  | _ => 4 * left_bytes r + 1
  end.

Section total.
Lemma total_bind {A B} (m : reads_prog A) (k : A → reads_prog B) r :
  total m r → (∀ a r', m r = (Ok a, r') → total (k a) r') → total (bind m k) r.
Proof.
  unfold total, bind. intros Hm Hk. destruct (m r) as [[] r'] eqn:E; simpl in *; try done.
  by apply Hk.
Qed.

Lemma total_catch {A} (m : reads_prog (option A)) r : total m r → total (catch_decode m) r.
Proof.
  unfold total, catch_decode, try_catch. destruct (m r) as [[] r']; simpl; try done.
  by destruct (is_decode_exception e).
Qed.

Lemma total_ret {A} (a : A) r : total (ret a) r.
Proof. done. Qed.
Lemma total_throw {A} e r : total (A:=A) (throw e) r.
Proof. done. Qed.
Lemma total_skip n r : total (TarsReadHeadSkip n) r.
Proof. done. Qed.
Lemma total_if {A} (b : bool) (m m' : reads_prog A) r :
  total m r → total m' r → total (if b then m else m') r.
Proof. by destruct b. Qed.
Lemma total_peek len off r : total (TarsPeekBuf len off) r.
Proof. unfold total, TarsPeekBuf. destruct (_ <? _); [done|]. by destruct (mem_read _ _ _). Qed.
Lemma total_peek_type off size r : total (TarsPeekTypeBuf off size) r.
Proof. apply total_bind; [apply total_peek | done]. Qed.
Lemma total_read_type size r : total (TarsReadTypeBuf size) r.
Proof. apply total_bind; [apply total_peek_type | done]. Qed.
Lemma total_hasEnd r : total hasEnd r.
Proof. unfold total, hasEnd. by destruct (_ <? _). Qed.
Lemma total_peek_head r : total TarsPeekFromHead r.
Proof.
  apply total_bind; [apply total_peek_type | intros]. apply total_if; [|done].
  by apply total_bind; [apply total_peek_type | intros].
Qed.
Lemma total_head r : total readFromHead r.
Proof. apply total_bind; [apply total_peek_head | by intros [[] ?]]. Qed.
Lemma total_head_notag r : total readFromHeadNoTag r.
Proof.
  apply total_bind; [|by intros [] ]. apply total_bind; [apply total_peek_type | intros].
  apply total_if; [|done]. apply total_bind; [|done].
  unfold total, TarsPeekTypeBufNoTag. by destruct (_ <? _).
Qed.
Lemma total_Int64_of_head ty r : total (Int64_of_head ty) r.
Proof.
  unfold Int64_of_head, load_Char, load_Short, load_Int32, load_Int64.
  repeat apply total_if; try done; (apply total_bind; [apply total_read_type | done]).
Qed.
End total.
Create HintDb total.
#[export] Hint Resolve total_bind total_catch total_ret total_throw total_skip total_if
  total_peek total_peek_type total_read_type total_hasEnd total_peek_head total_head
  total_head_notag total_Int64_of_head : total.

(** A search that finds its tag has consumed a head. *)
Lemma found_progress f tag r h r' :
  reader_ok r → skip f (SkipToTag tag) r = (Ok (Some h), r') →
  advances r r' ∧ rcur r < rcur r' ∧ rcur r < rlen r.
Proof.
  revert r. induction f as [|f IH]; intros r Hr H; [done|].
  pose proof (forward_skip_fuel (S f) (SkipToTag tag) r Hr) as Ha. rewrite H in Ha. split; [done|].
  cbn [skip skip_step] in H. unfold catch_decode, try_catch in H.
  destruct (bind _ _ r) as [o r1] eqn:E. destruct o as [o|e| | |]; simplify_eq.
  2: { by destruct (is_decode_exception e). }
  apply bind_Ok_inv in E as (fin & r2 & Hend & E).
  assert (r2 = r) as ->. { unfold hasEnd in Hend. destruct (_ <? _); simplify_eq. done. }
  destruct fin; [done|].
  apply bind_Ok_inv in E as ([[ty tg] n] & r3 & Hh & E).
  apply peek_head_inv in Hh as (-> & Hn & Hlen & _); [|done].
  destruct (_ || _); [done|].
  destruct (tag =? tg).
  - unfold TarsReadHeadSkip, modify, bind, ret in E. simplify_eq. simpl. lia.
  - apply bind_Ok_inv in E as (u & r4 & Hs & E). injection Hs as _ <-.
    set (r4 := set_cur _ r) in *.
    assert (Hr4 : reader_ok r4 ∧ rcur r < rcur r4).
    { destruct Hr. unfold reader_ok, r4; simpl. split_and!; done || lia. }
    apply bind_Ok_inv in E as (x & r5 & Hf & E).
    pose proof (forward_skip_fuel f (SkipField ty) r4 (proj1 Hr4)) as Hadv. rewrite Hf in Hadv.
    pose proof (advances_ok _ _ (proj1 Hr4) Hadv) as Hr5.
    apply IH in E as (_ & ? & ?); [|done]. destruct Hadv as (_ & _ & ?). simpl in *. lia.
Qed.

Lemma left_bytes_lt r r' : advances r r' → rcur r < rcur r' → rcur r < rlen r →
  (left_bytes r' < left_bytes r)%nat.
Proof. unfold left_bytes, advances. intros (_ & -> & _). lia. Qed.

Lemma left_bytes_le r r' : advances r r' → (left_bytes r' ≤ left_bytes r)%nat.
Proof. unfold left_bytes, advances. intros (_ & -> & ?). lia. Qed.

Section skip_total.
Context (f : nat).
Context (IH : ∀ k r, reader_ok r → (need k r ≤ f)%nat → total (skip f k) r).

Lemma size_total r : reader_ok r → (4 * left_bytes r + 1 ≤ f)%nat → total (size_of (skip f)) r.
Proof.
  intros Hr Hf. apply total_bind; [by apply IH |]. intros [[ty tg]|] r' _; auto with total.
Qed.

Lemma size_progress r n r' : reader_ok r → size_of (skip f) r = (Ok n, r') →
  reader_ok r' ∧ (left_bytes r' < left_bytes r)%nat.
Proof.
  intros Hr (found & r1 & H & E)%bind_Ok_inv. destruct found as [[ty tg]|]; [|done].
  apply found_progress in H as (Ha & ? & ?); [|done].
  assert (advances r1 r') as Ha'.
  { pose proof (forward_Int64_of_head ty r1 (advances_ok _ _ Hr Ha)) as Hf.
    apply bind_Ok_inv in E as (i & r2 & E2 & E). rewrite E2 in Hf. unfold ret in E. by simplify_eq. }
  split; [eapply advances_ok; [eapply advances_ok|]; done |].
  pose proof (left_bytes_lt r r1 ltac:(done) ltac:(lia) ltac:(lia)).
  pose proof (left_bytes_le r1 r' Ha'). lia.
Qed.

Lemma head_progress r ty r' : reader_ok r → readFromHeadNoTag r = (Ok ty, r') →
  reader_ok r' ∧ (left_bytes r' < left_bytes r)%nat.
Proof.
  intros Hr H. apply head_notag_inv in H as (Ha & ? & _); [|done].
  split; [by eapply advances_ok | apply left_bytes_lt; lia || done].
Qed.

(** After the element of a loop the rest of the loop has enough fuel. *)
Lemma loop_total k k' r0 r : reader_ok r → (left_bytes r < left_bytes r0)%nat →
  (4 * left_bytes r0 ≤ f)%nat → (∀ r', need k r' ≤ 4 * left_bytes r' + 2)%nat →
  (∀ r', need k' r' ≤ 4 * left_bytes r' + 2)%nat →
  total (skip f k ;;; skip f k') r.
Proof.
  intros Hr Hl Hf Hk Hk'. apply total_bind; [apply IH; [done | specialize (Hk r); lia] |].
  intros a r' E. pose proof (forward_skip_fuel f k r Hr) as Ha. rewrite E in Ha.
  apply IH; [by eapply advances_ok |]. pose proof (left_bytes_le r r' Ha). specialize (Hk' r'). lia.
Qed.

Lemma skip_step_total k r : reader_ok r → (need k r ≤ S f)%nat → total (skip_step (skip f) k) r.
Proof.
  intros Hr Hf. destruct k as [ty|n| |tag]; simpl skip_step; simpl need in Hf;
    fold (size_of (skip f)).
  - assert (total (size_of (skip f)) r) by (apply size_total; [done | lia]).
    repeat apply total_if; auto with total.
    + apply total_bind; [done |]. intros n r' E. apply size_progress in E as [? ?]; [|done].
      apply IH; [done | simpl; lia].
    + apply total_bind; [done |]. intros n r' E. apply size_progress in E as [? ?]; [|done].
      apply IH; [done | simpl; lia].
    + apply total_bind; [auto with total |]. intros [ty' tg] r' E.
      apply head_inv in E as (Ha & ? & _); [|done]. apply total_if; [done|].
      apply total_bind; [|auto with total]. apply size_total; [by eapply advances_ok |].
      pose proof (left_bytes_le r r' Ha). lia.
    + apply IH; [done | simpl; lia].
  - apply total_if; [done|]. apply total_bind; [auto with total|]. intros ty r' E.
    apply head_progress in E as [? ?]; [|done].
    eapply loop_total; [done | done | lia | intros; simpl; lia..].
  - apply total_bind; [auto with total|]. intros ty r' E.
    apply head_progress in E as [? ?]; [|done].
    destruct (ty =? TarsHeadeStructEnd).
    + apply total_bind; [apply IH; [done | simpl; lia] | done].
    + eapply loop_total; [done | done | lia | intros; simpl; lia..].
  - apply total_catch, total_bind; [auto with total|]. intros fin r' E.
    assert (r' = r) as ->. { unfold hasEnd in E. destruct (_ <? _); by simplify_eq. }
    apply total_if; [done|]. apply total_bind; [auto with total|]. intros [[ty tg] n] r' E'.
    apply peek_head_inv in E' as (-> & ? & ? & _); [|done].
    repeat apply total_if; auto with total.
    unfold TarsReadHeadSkip, modify. unfold total, bind at 1. fold (total (A:=option (Z*Z))).
    eapply (loop_total _ _ r); [ | | lia | intros; simpl; lia..].
    + destruct Hr. split; simpl; [done | lia].
    + unfold left_bytes; simpl. lia.
Qed.
End skip_total.

Lemma skip_enough f k r : reader_ok r → (need k r ≤ f)%nat → total (skip f k) r.
Proof.
  revert k r. induction f as [|f IH]; intros k r Hr Hf.
  - destruct k; simpl in Hf; lia.
  - by apply skip_step_total.
Qed.

Lemma skip_fuel_enough k r : reader_ok r → (need k r ≤ skip_fuel r)%nat.
Proof. intros [_ ?]. unfold skip_fuel, need, left_bytes. destruct k; lia. Qed.

(** * The equations of the code *)

(** [m] agrees with [m'] unless it runs out of fuel. *)
Definition below {A} (m m' : reads_prog A) (r : BufferReader) : Prop :=
  (m r).1 = NoFuel ∨ m r = m' r.

Section equations.
Lemma below_refl {A} (m : reads_prog A) r : below m m r.
Proof. by right. Qed.

Lemma below_bind {A B} (m m' : reads_prog A) (k k' : A → reads_prog B) r :
  below m m' r → (∀ a r', m r = (Ok a, r') → below (k a) (k' a) r') →
  below (bind m k) (bind m' k') r.
Proof.
  unfold below, bind. intros [Hm|Hm] Hk.
  - left. destruct (m r) as [[] r']; by simpl in *.
  - rewrite <- Hm. destruct (m r) as [[] r'] eqn:E; try by right. by apply Hk.
Qed.

Lemma below_catch {A} (m m' : reads_prog (option A)) r :
  below m m' r → below (catch_decode m) (catch_decode m') r.
Proof.
  unfold below, catch_decode, try_catch. intros [Hm|<-]; [|by right].
  left. destruct (m r) as [[] r']; by simpl in *.
Qed.

Lemma below_if {A} (b : bool) (m m' n n' : reads_prog A) r :
  below m m' r → below n n' r → below (if b then m else n) (if b then m' else n') r.
Proof. by destruct b. Qed.

Context (rec rec' : skip_task → reads_prog (option (Z * Z))).
Context (Hfw : ∀ k, forward (rec k)).
Context (r0 : BufferReader).
Context (Hle : ∀ k r, reader_ok r → rlen r = rlen r0 → below (rec k) (rec' k) r).

(** Results of the primitives keep the buffer. *)
Lemma keeps {A} (m : reads_prog A) r a r' : forward m → reader_ok r → rlen r = rlen r0 →
  m r = (Ok a, r') → reader_ok r' ∧ rlen r' = rlen r0.
Proof.
  intros Hm Hr Hl E. pose proof (Hm r Hr) as Ha. rewrite E in Ha.
  split; [by eapply advances_ok | destruct Ha as (_ & Ha & _); by rewrite <- Hl, <- Ha].
Qed.

Lemma below_bind_keeps {A B} (m m' : reads_prog A) (k k' : A → reads_prog B) r :
  below m m' r → forward m → reader_ok r → rlen r = rlen r0 →
  (∀ a r', reader_ok r' → rlen r' = rlen r0 → m r = (Ok a, r') → below (k a) (k' a) r') →
  below (bind m k) (bind m' k') r.
Proof.
  intros Hb Hm Hr Hl Hk. apply below_bind; [done |]. intros a r' E.
  destruct (keeps m r a r') as [? ?]; auto.
Qed.

Lemma below_rec {B} k (j j' : option (Z * Z) → reads_prog B) r :
  reader_ok r → rlen r = rlen r0 →
  (∀ a r', reader_ok r' → rlen r' = rlen r0 → below (j a) (j' a) r') →
  below (bind (rec k) j) (bind (rec' k) j') r.
Proof. intros. apply below_bind_keeps; auto. Qed.

Lemma below_size {B} (j j' : Z → reads_prog B) r :
  reader_ok r → rlen r = rlen r0 →
  (∀ a r', reader_ok r' → rlen r' = rlen r0 → 0 ≤ a → below (j a) (j' a) r') →
  below (bind (size_of rec) j) (bind (size_of rec') j') r.
Proof.
  intros Hr Hl Hj. apply below_bind_keeps; [| by apply forward_size | done.. |].
  { apply below_rec; [done.. |]. intros [[ty tg]|] r' ? ?; apply below_refl. }
  intros a r' ? ? E. apply size_nonneg in E. unfold in_U in E. apply Hj; [done..| lia].
Qed.

Lemma below_skip_step k r : reader_ok r → rlen r = rlen r0 →
  below (skip_step rec k) (skip_step rec' k) r.
Proof.
  intros Hr Hl. destruct k as [ty|n| |tag]; simpl skip_step;
    fold (size_of rec); fold (size_of rec').
  - repeat apply below_if; try apply below_refl.
    + apply below_size; auto.
    + apply below_size; auto.
    + apply below_bind_keeps; [apply below_refl | auto with forward | done..|].
      intros [ty' tg] r' ? ? _. apply below_if; [apply below_refl|].
      apply below_size; [done..|]. intros. apply below_refl.
    + auto.
  - apply below_if; [apply below_refl|].
    apply below_bind_keeps; [apply below_refl | auto with forward | done..|]. intros.
    apply below_rec; auto.
  - apply below_bind_keeps; [apply below_refl | auto with forward | done..|]. intros.
    apply below_rec; [done..|]. intros. apply below_if; auto using below_refl.
  - apply below_catch, below_bind_keeps; [apply below_refl | auto with forward | done..|].
    intros fin r' ? ? _. apply below_if; [apply below_refl|].
    apply below_bind_keeps; [apply below_refl | auto with forward | done..|].
    intros [[ty tg] n] r1 Hr1 Hl1 E. apply peek_head_inv in E as (-> & ? & _); [|done].
    repeat apply below_if; try apply below_refl.
    apply below_bind_keeps; [apply below_refl | auto with forward | done..|]. intros.
    apply below_rec; auto.
Qed.
End equations.

(** One more unit of fuel does not change a result. *)
Lemma skip_below_S f k r : reader_ok r → below (skip f k) (skip (S f) k) r.
Proof.
  revert k r. induction f as [|f IH]; intros k r Hr; [by left |].
  apply (below_skip_step (skip f) (skip (S f)) (forward_skip_fuel f) r); auto.
Qed.

(** [run_skip] satisfies the code's equations: each call of the code is one
    unfolding of [skip_step], with no fuel in sight. *)
Lemma run_skip_eq k r : reader_ok r → run_skip k r = skip_step run_skip k r.
Proof.
  intros Hr. unfold run_skip at 1. set (F := skip_fuel r).
  destruct (skip_below_S F k r Hr) as [Hn|HS].
  { by destruct (skip_enough F k r Hr (skip_fuel_enough k r Hr)). }
  rewrite HS. cbn [skip].
  destruct (below_skip_step (skip F) run_skip (forward_skip_fuel F) r) with (k := k) (r := r)
    as [Hn|He]; try done.
  - intros k' r' _ Hl. right. unfold run_skip, F, skip_fuel. by rewrite Hl.
  - destruct (skip_step_total F) with (k := k) (r := r); try done.
    + intros. by apply skip_enough.
    + pose proof (skip_fuel_enough k r Hr). unfold F. lia.
Qed.

Lemma forward_run_skip k : forward (run_skip k).
Proof. intros r Hr. by apply forward_skip_fuel. Qed.
#[export] Hint Resolve forward_run_skip : forward.
