(* ===== verification/TarsWire.v ===== *)
(** What the decoder does on the bytes the encoder writes: heads, integers,
    strings and byte blocks are read back exactly, and skipped exactly. *)
From stdpp Require Import prelude list.
From Stdlib Require Import ZArith Lia.
From S2P Require Import Prelude Bytes TarsBuffer TarsOutput TarsInput TarsSkip.

(** A reader of [pre ++ rest], positioned before [rest]. *)
Definition at_ (pre rest : list Z) : BufferReader :=
  mkReader (pre ++ rest) (zlen (pre ++ rest)) (zlen pre).

(** [reads_if P m bs a]: wherever the bytes [bs] stand in a buffer, followed by
    bytes that satisfy [P], [m] returns [a] and stops right after them. *)
Definition reads_if {A} (P : list Z → Prop) (m : reads_prog A) (bs : list Z) (a : A) : Prop :=
  ∀ pre post, bytes_ok (pre ++ bs ++ post) → P post →
  m (at_ pre (bs ++ post)) = (Ok a, at_ (pre ++ bs) post).

Abbreviation reads := (reads_if (λ _, True)).

Lemma at_ok pre rest : bytes_ok (pre ++ rest) → reader_ok (at_ pre rest).
Proof. intros. split; [done | simpl; lia]. Qed.

Lemma at_set_cur pre bs post : set_cur (zlen pre + zlen bs) (at_ pre (bs ++ post)) = at_ (pre ++ bs) post.
Proof. unfold at_, set_cur; simpl. rewrite <- app_assoc. f_equal. rewrite length_app. lia. Qed.

Section combinators.
Lemma reads_ret {A} (a : A) P : reads_if P (ret a) [] a.
Proof. intros pre post _ _. by rewrite app_nil_r. Qed.

Lemma reads_if_bind {A B} (P Q : list Z → Prop) (m : reads_prog A) (k : A → reads_prog B) bs bs' a b :
  reads_if P m bs a → reads_if Q (k a) bs' b → (∀ post, Q post → P (bs' ++ post)) →
  reads_if Q (bind m k) (bs ++ bs') b.
Proof.
  intros Hm Hk HP pre post Hb HQ. rewrite <- app_assoc in *.
  rewrite (bind_Ok _ _ _ _ _ (Hm pre (bs' ++ post) Hb (HP _ HQ))).
  rewrite (app_assoc pre). apply Hk; [by rewrite <- app_assoc | done].
Qed.

Lemma reads_bind {A B} (Q : list Z → Prop) (m : reads_prog A) (k : A → reads_prog B) bs bs' a b :
  reads m bs a → reads_if Q (k a) bs' b → reads_if Q (bind m k) (bs ++ bs') b.
Proof. intros. by eapply reads_if_bind. Qed.

(** The last step of a sequence that reads nothing more. *)
Lemma reads_map {A B} P (m : reads_prog A) (f : A → B) bs a b :
  reads_if P m bs a → f a = b → reads_if P (let* x := m in ret (f x)) bs b.
Proof.
  intros Hm <- pre post Hb HP. by rewrite (bind_Ok _ _ _ _ _ (Hm pre post Hb HP)).
Qed.

Lemma reads_weaken {A} (P Q : list Z → Prop) (m : reads_prog A) bs a :
  reads_if P m bs a → (∀ post, Q post → P post) → reads_if Q m bs a.
Proof. intros Hm HPQ pre post Hb HQ. apply Hm; auto. Qed.

Lemma reads_eq {A} P (m : reads_prog A) bs bs' a : reads_if P m bs a → bs = bs' → reads_if P m bs' a.
Proof. by intros ? <-. Qed.
End combinators.

Section primitives.
Lemma peek_at pre bs post n off lead :
  zlen bs = n → zlen lead = off →
  TarsPeekBuf n off (at_ pre (lead ++ bs ++ post)) = (Ok bs, at_ pre (lead ++ bs ++ post)).
Proof.
  intros <- <-. unfold TarsPeekBuf, at_; simpl.
  destruct (Z.ltb_spec (zlen (pre ++ lead ++ bs ++ post)) (zlen pre + zlen lead + zlen bs)) as [Hl|_].
  { rewrite !length_app in Hl. lia. }
  rewrite !(app_assoc pre lead). replace (zlen pre + zlen lead) with (zlen (pre ++ lead)).
  - by rewrite mem_read_app.
  - rewrite length_app. lia.
Qed.

Lemma reads_skip n bs : zlen bs = n → reads (TarsReadHeadSkip n) bs tt.
Proof. intros <- pre post _ _. unfold TarsReadHeadSkip, modify; simpl. by rewrite at_set_cur. Qed.

Lemma reads_type n bs : zlen bs = n → reads (TarsReadTypeBuf n) bs (le_val bs).
Proof.
  intros <- pre post Hb _. unfold TarsReadTypeBuf, TarsPeekTypeBuf, bind.
  rewrite (peek_at pre bs post _ 0 []) by done. unfold TarsReadHeadSkip, modify, ret. simpl.
  by rewrite at_set_cur.
Qed.

Lemma reads_string_buf n bs : zlen bs = n → reads (TarsReadStringBuf n) bs bs.
Proof.
  intros <- pre post Hb _. unfold TarsReadStringBuf, bind.
  rewrite (peek_at pre bs post _ 0 []) by done. unfold TarsReadHeadSkip, modify, ret. simpl.
  by rewrite at_set_cur.
Qed.

Lemma reads_readBuf n bs : zlen bs = n → reads (readBuf n) bs bs.
Proof.
  intros <- pre post Hb _. unfold readBuf.
  rewrite (proj2 (andb_true_iff _ _)).
  2: { rewrite !Z.leb_le. cbn [at_ rlen rcur]. rewrite !length_app. lia. }
  by apply (reads_string_buf _ bs).
Qed.

Lemma peek_head_at pre ty tag post : 0 ≤ ty < 16 → 0 ≤ tag < 256 →
  TarsPeekFromHead (at_ pre (head_bytes ty tag ++ post)) =
  (Ok (ty, tag, zlen (head_bytes ty tag)), at_ pre (head_bytes ty tag ++ post)).
Proof.
  intros Hty Ht. unfold TarsPeekFromHead, head_bytes, TarsPeekTypeBuf.
  assert (Hnib : ∀ t, 0 ≤ t < 16 → Z.shiftr (ty + 16 * t) 4 = t ∧ Z.land (ty + 16 * t) 15 = ty).
  { intros t ?. rewrite (Z.mul_comm 16). split.
    - rewrite Z.shiftr_div_pow2 by lia. change (2 ^ 4) with 16.
      rewrite Z.div_add, Z.div_small by lia. lia.
    - change 15 with (Z.ones 4). rewrite Z.land_ones by lia. change (2 ^ 4) with 16.
      rewrite Z.mod_add, Z.mod_small by lia. done. }
  destruct (Z.ltb_spec tag 15) as [Hlt|Hge]; unfold bind.
  - rewrite (peek_at pre [ty + 16 * tag] post _ 0 []) by done. simpl.
    destruct (Hnib tag) as [E1 E2]; [lia|].
    replace (ty + 16 * tag + 256 * 0) with (ty + 16 * tag) by lia. rewrite E1, E2.
    by rewrite (proj2 (Z.eqb_neq tag 15)) by lia.
  - rewrite (peek_at pre [ty + 240] (tag :: post) _ 0 []) by done. simpl.
    destruct (Hnib 15) as [E1 E2]; [lia|].
    replace (ty + 240 + 256 * 0) with (ty + 16 * 15) by lia. rewrite E1, E2. simpl.
    rewrite (peek_at pre [tag] post _ 1 [ty + 240]) by done. simpl. by rewrite Z.add_0_r.
Qed.

Lemma reads_head ty tag : 0 ≤ ty < 16 → 0 ≤ tag < 256 →
  reads readFromHead (head_bytes ty tag) (ty, tag).
Proof.
  intros Hty Ht pre post _ _. unfold readFromHead.
  rewrite (bind_Ok _ _ _ _ _ (peek_head_at pre ty tag post Hty Ht)).
  unfold bind, TarsReadHeadSkip, modify, ret; simpl. by rewrite at_set_cur.
Qed.

Lemma peek_notag_eq pre ty tag post : 0 ≤ ty < 16 → 0 ≤ tag < 256 →
  readFromHeadNoTag (at_ pre (head_bytes ty tag ++ post)) =
  (Ok ty, at_ (pre ++ head_bytes ty tag) post).
Proof.
  intros Hty Ht.
  assert (E : TarsPeekFromHeadNoTag (at_ pre (head_bytes ty tag ++ post)) =
    (Ok (ty, zlen (head_bytes ty tag)), at_ pre (head_bytes ty tag ++ post))).
  { pose proof (peek_head_at pre ty tag post Hty Ht) as H.
    unfold TarsPeekFromHead in H. unfold TarsPeekFromHeadNoTag, bind in *.
    destruct (TarsPeekTypeBuf 0 1 _) as [[v| | | |] r1]; try done.
    destruct (Z.shiftr v 4 =? 15); [|unfold ret in *; congruence].
    unfold TarsPeekTypeBuf, TarsPeekBuf, TarsPeekTypeBufNoTag, bind in *.
    destruct (rlen r1 <? rcur r1 + 1 + 1); [done|].
    destruct (mem_read _ _ _); [|done]. unfold ret in *. congruence. }
  unfold readFromHeadNoTag. rewrite (bind_Ok _ _ _ _ _ E).
  unfold bind, TarsReadHeadSkip, modify, ret; simpl. by rewrite at_set_cur.
Qed.

Lemma reads_head_notag ty tag : 0 ≤ ty < 16 → 0 ≤ tag < 256 →
  reads readFromHeadNoTag (head_bytes ty tag) ty.
Proof. intros ? ? pre post _ _. by apply peek_notag_eq. Qed.
End primitives.

(** * Searching for a tag *)

(** The bytes that make a search for [tag] stop empty-handed: the end of the
    buffer, the end of the structure, or a field with a larger tag. *)
Definition stops (tag : Z) (post : list Z) : Prop :=
  post = [] ∨ ∃ ty tag' rest, post = head_bytes ty tag' ++ rest ∧ 0 ≤ ty < 16 ∧ 0 ≤ tag' < 256
    ∧ (ty = TarsHeadeStructEnd ∨ tag < tag').

Section search.
Lemma hasEnd_at pre rest : hasEnd (at_ pre rest) = (Ok (bool_decide (rest = [])), at_ pre rest).
Proof.
  unfold hasEnd, at_; cbn [rlen rcur].
  destruct (Z.ltb_spec (zlen (pre ++ rest)) (zlen pre)) as [Hl|_].
  { rewrite length_app in Hl. lia. }
  do 2 f_equal. destruct rest as [|x rest].
  - rewrite bool_decide_eq_true_2 by done. rewrite app_nil_r. apply Z.leb_refl.
  - rewrite bool_decide_eq_false_2 by done. apply Z.leb_gt. rewrite length_app. simpl. lia.
Qed.

Lemma head_nonempty ty tag rest : head_bytes ty tag ++ rest ≠ [].
Proof. unfold head_bytes. by destruct (tag <? 15). Qed.

(** One round of the search at a head. *)
Lemma search_at_head pre ty tag' tag post :
  bytes_ok (pre ++ head_bytes ty tag' ++ post) → 0 ≤ ty < 16 → 0 ≤ tag' < 256 →
  TarsSkipToTag tag (at_ pre (head_bytes ty tag' ++ post)) =
  catch_decode (
    if (ty =? TarsHeadeStructEnd) || (tag <? tag') then ret None
    else if tag =? tag'
    then (TarsReadHeadSkip (zlen (head_bytes ty tag')) ;;; ret (Some (ty, tag')))
    else (TarsReadHeadSkip (zlen (head_bytes ty tag')) ;;;
          run_skip (SkipField ty) ;;; TarsSkipToTag tag))
    (at_ pre (head_bytes ty tag' ++ post)).
Proof.
  intros Hb Hty Ht. unfold TarsSkipToTag at 1. rewrite run_skip_eq by by apply at_ok.
  cbn [skip_step]. unfold catch_decode, try_catch.
  rewrite (bind_Ok _ _ _ _ _ (hasEnd_at pre _)).
  rewrite bool_decide_eq_false_2 by apply head_nonempty.
  by rewrite (bind_Ok _ _ _ _ _ (peek_head_at pre ty tag' post Hty Ht)).
Qed.

Lemma reads_found ty tag : 0 ≤ ty < 16 → ty ≠ TarsHeadeStructEnd → 0 ≤ tag < 256 →
  reads (TarsSkipToTag tag) (head_bytes ty tag) (Some (ty, tag)).
Proof.
  intros Hty Hne Ht pre post Hb _. rewrite search_at_head by done.
  rewrite (proj2 (Z.eqb_neq _ _)), Z.ltb_irrefl, Z.eqb_refl by done. cbn [orb].
  unfold catch_decode, try_catch.
  rewrite (bind_Ok _ _ _ _ _ (reads_skip _ _ eq_refl pre post Hb I)). done.
Qed.

Lemma reads_absent tag : reads_if (stops tag) (TarsSkipToTag tag) [] None.
Proof.
  intros pre post Hb [-> | (ty & tag' & rest & -> & Hty & Ht & Hstop)];
    rewrite (app_nil_r pre), app_nil_l in *.
  - unfold TarsSkipToTag. rewrite run_skip_eq by by apply at_ok. cbn [skip_step].
    unfold catch_decode, try_catch. by rewrite (bind_Ok _ _ _ _ _ (hasEnd_at pre _)).
  - rewrite search_at_head by done.
    replace (_ || _) with true; [done |].
    destruct Hstop as [-> | Hlt]; [done |]. by rewrite (proj2 (Z.ltb_lt _ _) Hlt), orb_true_r.
Qed.

(** A field with a smaller tag is stepped over. *)
Lemma reads_step_over {P ty tag' tag body rest x} :
  0 ≤ ty < 16 → ty ≠ TarsHeadeStructEnd → 0 ≤ tag' < tag → tag < 256 →
  reads (run_skip (SkipField ty)) body None →
  reads_if P (TarsSkipToTag tag) rest x →
  reads_if P (TarsSkipToTag tag) (head_bytes ty tag' ++ body ++ rest) x.
Proof.
  intros Hty Hne Ht' Ht Hskip Hrest pre post Hb HP. rewrite <- !app_assoc in *.
  rewrite search_at_head by (done || lia).
  rewrite (proj2 (Z.eqb_neq _ _)) by done. rewrite (proj2 (Z.ltb_ge tag tag')) by lia.
  rewrite (proj2 (Z.eqb_neq tag tag')) by lia. cbn [orb].
  unfold catch_decode, try_catch.
  rewrite (bind_Ok _ _ _ _ _ (reads_skip _ _ eq_refl pre (body ++ rest ++ post) Hb I)).
  rewrite (app_assoc pre) in Hb.
  rewrite (bind_Ok _ _ _ _ _ (Hskip (pre ++ head_bytes ty tag') (rest ++ post) Hb I)).
  rewrite <- !app_assoc in *. rewrite !(app_assoc pre) in *.
  rewrite (Hrest (((pre ++ head_bytes ty tag') ++ body)) post).
  - by rewrite <- !app_assoc.
  - by rewrite <- !app_assoc in *.
  - done.
Qed.

Lemma catch_decode_idem {A} (m : reads_prog (option A)) r :
  catch_decode (catch_decode m) r = catch_decode m r.
Proof.
  unfold catch_decode, try_catch. destruct (m r) as [[] ?]; try done.
  destruct (is_decode_exception e) eqn:E; [done |]. unfold throw. by rewrite E.
Qed.

(** The search from before a field with a smaller tag is the search from
    after it. *)
Lemma search_over pre ty tag' tag body post :
  bytes_ok (pre ++ head_bytes ty tag' ++ body ++ post) →
  0 ≤ ty < 16 → ty ≠ TarsHeadeStructEnd → 0 ≤ tag' < tag → tag < 256 →
  reads (run_skip (SkipField ty)) body None →
  TarsSkipToTag tag (at_ pre (head_bytes ty tag' ++ body ++ post)) =
  TarsSkipToTag tag (at_ (pre ++ head_bytes ty tag' ++ body) post).
Proof.
  intros Hb Hty Hne Ht' Ht Hskip. rewrite search_at_head by (done || lia).
  rewrite (proj2 (Z.eqb_neq _ _)) by done. rewrite (proj2 (Z.ltb_ge tag tag')) by lia.
  rewrite (proj2 (Z.eqb_neq tag tag')) by lia. cbn [orb].
  unfold catch_decode, try_catch.
  rewrite (bind_Ok _ _ _ _ _ (reads_skip _ _ eq_refl pre (body ++ post) Hb I)).
  rewrite (app_assoc pre) in *.
  rewrite (bind_Ok _ _ _ _ _ (Hskip (pre ++ head_bytes ty tag') post Hb I)).
  rewrite <- (app_assoc pre) in *. rewrite !(app_assoc pre) in *.
  set (r := at_ _ post).
  assert (E : TarsSkipToTag tag r = catch_decode (TarsSkipToTag tag) r).
  { unfold TarsSkipToTag. rewrite run_skip_eq.
    2: { subst r. apply at_ok. by rewrite <- app_assoc. }
    cbn [skip_step]. rewrite <- catch_decode_idem. unfold catch_decode at 1 3, try_catch.
    rewrite run_skip_eq; [done |]. subst r. apply at_ok. by rewrite <- app_assoc. }
  rewrite E at 2. done.
Qed.
End search.

(** * Fields *)
Section fields.
Context {A : Type} (d : A) (tag : Z) (req : bool) (body : Z → reads_prog A).

Lemma reads_field_found P ty bs a :
  0 ≤ ty < 16 → ty ≠ TarsHeadeStructEnd → 0 ≤ tag < 256 →
  reads_if P (body ty) bs a →
  reads_if P (read_field d tag req body) (head_bytes ty tag ++ bs) a.
Proof.
  intros. eapply reads_if_bind; [by apply reads_found | done | done].
Qed.

Lemma reads_field_absent : reads_if (stops tag) (read_field d tag false body) [] d.
Proof.
  change [] with (@nil Z ++ []). eapply reads_if_bind; [apply reads_absent | apply reads_ret |].
  done.
Qed.

(** A required field that is not there is an error. *)
Lemma field_missing pre post : bytes_ok (pre ++ post) → stops tag post →
  read_field d tag true body (at_ pre post) = (Throw TarsDecodeRequireNotExist, at_ pre post).
Proof.
  intros Hb Hs. unfold read_field.
  pose proof (reads_absent tag pre post Hb Hs) as E. rewrite app_nil_r, app_nil_l in E.
  by rewrite (bind_Ok _ _ _ _ _ E).
Qed.

Lemma field_over pre ty tag' bs post :
  bytes_ok (pre ++ head_bytes ty tag' ++ bs ++ post) →
  0 ≤ ty < 16 → ty ≠ TarsHeadeStructEnd → 0 ≤ tag' < tag → tag < 256 →
  reads (run_skip (SkipField ty)) bs None →
  read_field d tag req body (at_ pre (head_bytes ty tag' ++ bs ++ post)) =
  read_field d tag req body (at_ (pre ++ head_bytes ty tag' ++ bs) post).
Proof. intros. unfold read_field, bind. by rewrite search_over. Qed.
End fields.

(** * Integers *)
Section integers.
Lemma bswap_wrapS n v : (0 < n)%nat → bswap n (wrapS (8 * Z.of_nat n) v) = bswap n v.
Proof. intros. unfold bswap. by rewrite le_bytes_wrapS. Qed.

Lemma reads_load_Char n : in_S 8 n → reads load_Char (be_bytes 1 n) n.
Proof.
  intros Hn. eapply reads_map; [by apply reads_type |].
  change (be_bytes 1 n) with (le_bytes 1 n). rewrite le_val_le_bytes.
  change (8 * Z.of_nat 1) with 8. by rewrite wrapS_wrapU, wrapS_id.
Qed.

(** The swapped load of [k] bytes. *)
Lemma load_swapped k n : (0 < k)%nat → in_S (8 * Z.of_nat k) n →
  wrapS (8 * Z.of_nat k) (bswap k (wrapS (8 * Z.of_nat k) (le_val (be_bytes k n)))) = n.
Proof.
  intros. rewrite bswap_wrapS, bswap_be_bytes, wrapS_wrapU, wrapS_id by (done || lia). done.
Qed.

Lemma reads_load_Short n : in_S 16 n → reads load_Short (be_bytes 2 n) n.
Proof.
  intros Hn. eapply reads_map; [by apply reads_type |]. apply (load_swapped 2); [lia | done].
Qed.

Lemma reads_load_Int32 n : in_S 32 n → reads load_Int32 (be_bytes 4 n) n.
Proof.
  intros Hn. eapply reads_map; [by apply reads_type |]. apply (load_swapped 4); [lia | done].
Qed.

(** [tars_htonll] undoes itself on the stored bytes. *)
Lemma tars_ntohll_be_bytes v : tars_ntohll (wrapS 64 (le_val (be_bytes 8 v))) = wrapS 64 v.
Proof.
  unfold tars_ntohll. set (y := wrapS 64 _).
  assert (Hb : le_bytes 8 (tars_htonll y) = le_bytes 8 v).
  { rewrite le_bytes_tars_htonll. unfold be_bytes, y.
    change 64 with (8 * Z.of_nat 8). rewrite le_bytes_wrapS by lia.
    pose proof (le_bytes_le_val (be_bytes 8 v) (be_bytes_ok 8 v)) as E.
    rewrite length_be_bytes in E. rewrite E. unfold be_bytes. apply rev_involutive. }
  assert (Hw : wrapU 64 (tars_htonll y) = wrapU 64 v).
  { change 64 with (8 * Z.of_nat 8). by rewrite <- !le_val_le_bytes, Hb. }
  rewrite <- (wrapS_wrapU 64 v), <- Hw, wrapS_wrapU by lia.
  symmetry. apply wrapS_id; [lia |]. unfold tars_htonll. apply wrapS_range. lia.
Qed.

Lemma reads_load_Int64 n : in_S 64 n → reads load_Int64 (be_bytes 8 n) n.
Proof.
  intros Hn. eapply reads_map; [by apply reads_type |]. rewrite tars_ntohll_be_bytes.
  apply wrapS_id; [lia | done].
Qed.
End integers.

(** Case analysis on the width an integer is written with. *)
Ltac int_cases n :=
  unfold int_type, int_body;
  destruct (Z.eqb_spec n 0) as [->|?];
  [| destruct ((-128 <=? n) && (n <=? 127)) eqn:?;
  [| destruct ((-32768 <=? n) && (n <=? 32767)) eqn:?;
  [| destruct ((-2147483648 <=? n) && (n <=? 2147483647)) eqn:?]]].

Lemma int_type_range n : 0 ≤ int_type n < 16 ∧ int_type n ≠ TarsHeadeStructEnd.
Proof. int_cases n; done. Qed.

Lemma reads_Int64_of_head n : in_S 64 n → reads (Int64_of_head (int_type n)) (int_body n) n.
Proof.
  intros Hn. unfold Int64_of_head. int_cases n; cbn.
  - apply reads_ret.
  - apply reads_load_Char. unfold in_S; lia.
  - apply reads_load_Short. unfold in_S; lia.
  - apply reads_load_Int32. unfold in_S; lia.
  - by apply reads_load_Int64.
Qed.

(** Skipping an integer body. *)
Lemma reads_skip_int n : reads (run_skip (SkipField (int_type n))) (int_body n) None.
Proof.
  assert (Hs : ∀ k ty m, zlen (be_bytes k n) = m →
    (∀ rec, skip_step rec (SkipField ty) = (TarsReadHeadSkip m ;;; ret None)) →
    reads (run_skip (SkipField ty)) (be_bytes k n) None).
  { intros k ty m Hm Hstep pre post Hb _. rewrite run_skip_eq by by apply at_ok. rewrite Hstep.
    by rewrite (bind_Ok _ _ _ _ _ (reads_skip m _ Hm pre post Hb I)). }
  int_cases n.
  2-5: eapply Hs; [rewrite length_be_bytes; reflexivity | reflexivity].
  intros pre post Hb _. rewrite run_skip_eq by by apply at_ok. cbn. unfold ret. by rewrite app_nil_r.
Qed.

Section read_ints.
Context (d tag : Z) (req : bool) (Ht : 0 ≤ tag < 256).

Lemma reads_Int64 n : in_S 64 n → reads (read_Int64 d tag req) (int_bytes n tag) n.
Proof.
  intros Hn. destruct (int_type_range n) as [? ?]. apply reads_field_found; [done..|].
  by apply reads_Int64_of_head.
Qed.

Lemma reads_Int32 n : in_S 32 n → reads (read_Int32 d tag req) (int_bytes n tag) n.
Proof.
  intros Hn. destruct (int_type_range n) as [? ?]. apply reads_field_found; [done..|].
  unfold in_S in Hn. int_cases n; cbn; [apply reads_ret | | | | lia].
  - apply reads_load_Char. unfold in_S; lia.
  - apply reads_load_Short. unfold in_S; lia.
  - apply reads_load_Int32. unfold in_S; lia.
Qed.

Lemma reads_Short n : in_S 16 n → reads (read_Short d tag req) (int_bytes n tag) n.
Proof.
  intros Hn. destruct (int_type_range n) as [? ?]. apply reads_field_found; [done..|].
  unfold in_S in Hn. int_cases n; cbn; [apply reads_ret | | | lia..].
  - apply reads_load_Char. unfold in_S; lia.
  - apply reads_load_Short. unfold in_S; lia.
Qed.

Lemma reads_Char n : in_S 8 n → reads (read_Char d tag req) (int_bytes n tag) n.
Proof.
  intros Hn. destruct (int_type_range n) as [? ?]. apply reads_field_found; [done..|].
  unfold in_S in Hn. int_cases n; cbn; [apply reads_ret | | lia..].
  apply reads_load_Char. unfold in_S; lia.
Qed.
End read_ints.
