(* ===== verification/TarsCodec.v ===== *)
(** Field types as an interface: a [codec] is the pair of [write] and [read]
    overloads the C++ compiler picks for a type, [CodecLaws] what the two promise
    each other.  Instances for the scalars, strings, byte vectors, vectors and
    maps; the laws of a container need only the laws of its elements. *)
From stdpp Require Import prelude list.
From Stdlib Require Import ZArith Lia.
From S2P Require Import Prelude Bytes TarsBuffer TarsOutput TarsInput TarsSkip TarsWire.

Record codec (A : Type) := Codec {
  c_write : ∀ {S} `{WriterT S}, A → Z → prog S tars_error unit;
  c_read : A → Z → bool → reads_prog A
}.
Arguments Codec {A} _ _.
Arguments c_write {A} _ {S _} _ _.
Arguments c_read {A} _ _ _ _.

Definition is_tag (tag : Z) : Prop := 0 ≤ tag < 256.

Class CodecLaws {A} (c : codec A) := {
  (** values the wire format can carry *)
  c_ok : A → Prop;
  (** the head type and the body of a value *)
  c_type : A → Z;
  c_body : A → list Z;
  law_type a : c_ok a → 0 ≤ c_type a < 16 ∧ c_type a ≠ TarsHeadeStructEnd;
  law_bytes a : c_ok a → bytes_ok (c_body a);
  law_write a tag S `{WriterT S} : c_ok a → is_tag tag →
    writes (c_write c a tag) (head_bytes (c_type a) tag ++ c_body a);
  law_read d a tag req : c_ok a → is_tag tag →
    reads (c_read c d tag req) (head_bytes (c_type a) tag ++ c_body a) a;
  law_absent d tag : c_ok d → is_tag tag →
    reads_if (stops tag) (c_read c d tag false) [] d;
  law_missing d tag pre post : is_tag tag → bytes_ok (pre ++ post) → stops tag post →
    c_read c d tag true (at_ pre post) = (Throw TarsDecodeRequireNotExist, at_ pre post);
  law_over d tag req pre ty tag' bs post :
    bytes_ok (pre ++ head_bytes ty tag' ++ bs ++ post) →
    0 ≤ ty < 16 → ty ≠ TarsHeadeStructEnd → 0 ≤ tag' < tag → tag < 256 →
    reads (run_skip (SkipField ty)) bs None →
    c_read c d tag req (at_ pre (head_bytes ty tag' ++ bs ++ post)) =
    c_read c d tag req (at_ (pre ++ head_bytes ty tag' ++ bs) post);
  law_skip a : c_ok a → reads (run_skip (SkipField (c_type a))) (c_body a) None
}.

(** The bytes of a field. *)
Definition field_bytes {A} (c : codec A) `{!CodecLaws c} (a : A) (tag : Z) : list Z :=
  head_bytes (c_type a) tag ++ c_body a.

Lemma bytes_ok_head ty tag : 0 ≤ ty < 16 → is_tag tag → bytes_ok (head_bytes ty tag).
Proof.
  unfold is_tag, head_bytes, is_byte. intros. destruct (Z.ltb_spec tag 15);
    repeat constructor; lia.
Qed.

Lemma bytes_ok_field {A} (c : codec A) `{!CodecLaws c} a tag :
  c_ok a → is_tag tag → bytes_ok (field_bytes c a tag).
Proof.
  intros Ha Ht. apply Forall_app. split; [|by apply law_bytes].
  apply bytes_ok_head; [by apply law_type | done].
Qed.

Lemma field_bytes_pos {A} (c : codec A) `{!CodecLaws c} a tag : 1 ≤ zlen (field_bytes c a tag).
Proof.
  unfold field_bytes. rewrite length_app. pose proof (length_head_bytes (c_type a) tag). lia.
Qed.

(** * Integers *)

(** The integer overloads share one wire format; they differ in the range they
    are given and in the conversions around it. *)
Section int_codecs.
Lemma int_body_ok n : bytes_ok (int_body n).
Proof. int_cases n; auto using be_bytes_ok. Qed.

(** A missing tag seen through a conversion of the result. *)
Lemma absent_map {A B} (m : reads_prog A) (f : A → B) tag d b :
  reads_if (stops tag) m [] d → f d = b →
  reads_if (stops tag) (let* x := m in ret (f x)) [] b.
Proof. apply reads_map. Qed.

Lemma missing_map {A B} (m : reads_prog A) (f : A → B) r e :
  m r = (Throw e, r) → (let* x := m in ret (f x)) r = (Throw e, r).
Proof. apply bind_Throw. Qed.

Lemma over_map {A B} (m : reads_prog A) (f : A → B) r r' :
  m r = m r' → (let* x := m in ret (f x)) r = (let* x := m in ret (f x)) r'.
Proof. unfold bind. by intros ->. Qed.
End int_codecs.

Definition codec_Char : codec Z := Codec (λ S _, write_Char) read_Char.
Definition codec_Short : codec Z := Codec (λ S _, write_Short) read_Short.
Definition codec_Int32 : codec Z := Codec (λ S _, write_Int32) read_Int32.
Definition codec_Int64 : codec Z := Codec (λ S _, write_Int64) read_Int64.
Definition codec_UInt8 : codec Z := Codec (λ S _, write_UInt8) read_UInt8.
Definition codec_UInt16 : codec Z := Codec (λ S _, write_UInt16) read_UInt16.
Definition codec_UInt32 : codec Z := Codec (λ S _, write_UInt32) read_UInt32.
Definition codec_Bool : codec bool := Codec (λ S _, write_Bool) read_Bool.

#[export] Program Instance Char_laws : CodecLaws codec_Char :=
  {| c_ok := in_S 8; c_type := int_type; c_body := int_body |}.
Next Obligation. intros; apply int_type_range. Qed.
Next Obligation. intros; apply int_body_ok. Qed.
Next Obligation. intros; by apply writes_Char. Qed.
Next Obligation. intros; by apply reads_Char. Qed.
Next Obligation. intros; apply reads_field_absent. Qed.
Next Obligation. intros; by apply field_missing. Qed.
Next Obligation. intros; by apply field_over. Qed.
Next Obligation. intros; apply reads_skip_int. Qed.

#[export] Program Instance Short_laws : CodecLaws codec_Short :=
  {| c_ok := in_S 16; c_type := int_type; c_body := int_body |}.
Next Obligation. intros; apply int_type_range. Qed.
Next Obligation. intros; apply int_body_ok. Qed.
Next Obligation. intros; by apply writes_Short. Qed.
Next Obligation. intros; by apply reads_Short. Qed.
Next Obligation. intros; apply reads_field_absent. Qed.
Next Obligation. intros; by apply field_missing. Qed.
Next Obligation. intros; by apply field_over. Qed.
Next Obligation. intros; apply reads_skip_int. Qed.

#[export] Program Instance Int32_laws : CodecLaws codec_Int32 :=
  {| c_ok := in_S 32; c_type := int_type; c_body := int_body |}.
Next Obligation. intros; apply int_type_range. Qed.
Next Obligation. intros; apply int_body_ok. Qed.
Next Obligation. intros; by apply writes_Int32. Qed.
Next Obligation. intros; by apply reads_Int32. Qed.
Next Obligation. intros; apply reads_field_absent. Qed.
Next Obligation. intros; by apply field_missing. Qed.
Next Obligation. intros; by apply field_over. Qed.
Next Obligation. intros; apply reads_skip_int. Qed.

#[export] Program Instance Int64_laws : CodecLaws codec_Int64 :=
  {| c_ok := in_S 64; c_type := int_type; c_body := int_body |}.
Next Obligation. intros; apply int_type_range. Qed.
Next Obligation. intros; apply int_body_ok. Qed.
Next Obligation. intros; by apply writes_Int64. Qed.
Next Obligation. intros; by apply reads_Int64. Qed.
Next Obligation. intros; apply reads_field_absent. Qed.
Next Obligation. intros; by apply field_missing. Qed.
Next Obligation. intros; by apply field_over. Qed.
Next Obligation. intros; apply reads_skip_int. Qed.

(** An unsigned overload converts to the next wider signed type and back. *)
Lemma U_in_S w w' n : in_U w n → 0 < w < w' → in_S w' n.
Proof.
  unfold in_U, in_S. intros Hn Hw.
  assert (2 ^ w ≤ 2 ^ (w' - 1)) by (apply Z.pow_le_mono_r; lia). lia.
Qed.

Lemma U_cast w w' n : in_U w n → 0 < w < w' → wrapS w' n = n.
Proof. intros. apply wrapS_id; [lia | by eapply U_in_S]. Qed.

#[export] Program Instance UInt8_laws : CodecLaws codec_UInt8 :=
  {| c_ok := in_U 8; c_type := int_type; c_body := int_body |}.
Next Obligation. intros; apply int_type_range. Qed.
Next Obligation. intros; apply int_body_ok. Qed.
Next Obligation.
  intros a tag S HS Ha Ht. cbn. unfold write_UInt8. rewrite (U_cast 8 16) by (done || lia).
  apply writes_Short; [apply (U_in_S 8 16); done || lia | done].
Qed.
Next Obligation.
  intros d a tag req Ha Ht. eapply reads_map; [|by apply wrapU_id].
  apply reads_Short; [done | apply (U_in_S 8 16); done || lia].
Qed.
Next Obligation.
  intros d tag Hd Ht. eapply absent_map; [apply reads_field_absent |].
  rewrite (U_cast 8 16) by (done || lia). by apply wrapU_id.
Qed.
Next Obligation. intros. by apply missing_map, field_missing. Qed.
Next Obligation. intros. by apply over_map, field_over. Qed.
Next Obligation. intros; apply reads_skip_int. Qed.

#[export] Program Instance UInt16_laws : CodecLaws codec_UInt16 :=
  {| c_ok := in_U 16; c_type := int_type; c_body := int_body |}.
Next Obligation. intros; apply int_type_range. Qed.
Next Obligation. intros; apply int_body_ok. Qed.
Next Obligation.
  intros a tag S HS Ha Ht. cbn. unfold write_UInt16. rewrite (U_cast 16 32) by (done || lia).
  apply writes_Int32; [apply (U_in_S 16 32); done || lia | done].
Qed.
Next Obligation.
  intros d a tag req Ha Ht. eapply reads_map; [|by apply wrapU_id].
  apply reads_Int32; [done | apply (U_in_S 16 32); done || lia].
Qed.
Next Obligation.
  intros d tag Hd Ht. eapply absent_map; [apply reads_field_absent |].
  rewrite (U_cast 16 32) by (done || lia). by apply wrapU_id.
Qed.
Next Obligation. intros. by apply missing_map, field_missing. Qed.
Next Obligation. intros. by apply over_map, field_over. Qed.
Next Obligation. intros; apply reads_skip_int. Qed.

Lemma reads_UInt32 d tag req n : is_tag tag → in_U 32 n →
  reads (read_UInt32 d tag req) (int_bytes n tag) n.
Proof.
  intros. eapply reads_map; [|by apply wrapU_id].
  apply reads_Int64; [done | apply (U_in_S 32 64); done || lia].
Qed.

Lemma writes_UInt32 {S} `{WriterT S} n tag : in_U 32 n → is_tag tag →
  writes (write_UInt32 n tag) (int_bytes n tag).
Proof.
  intros. unfold write_UInt32. rewrite (U_cast 32 64) by (done || lia).
  apply writes_Int64; [apply (U_in_S 32 64); done || lia | done].
Qed.

#[export] Program Instance UInt32_laws : CodecLaws codec_UInt32 :=
  {| c_ok := in_U 32; c_type := int_type; c_body := int_body |}.
Next Obligation. intros; apply int_type_range. Qed.
Next Obligation. intros; apply int_body_ok. Qed.
Next Obligation. intros; by apply writes_UInt32. Qed.
Next Obligation. intros; by apply reads_UInt32. Qed.
Next Obligation.
  intros d tag Hd Ht. eapply absent_map; [apply reads_field_absent |].
  rewrite (U_cast 32 64) by (done || lia). by apply wrapU_id.
Qed.
Next Obligation. intros. by apply missing_map, field_missing. Qed.
Next Obligation. intros. by apply over_map, field_over. Qed.
Next Obligation. intros; apply reads_skip_int. Qed.

#[export] Program Instance Bool_laws : CodecLaws codec_Bool :=
  {| c_ok := λ _, True; c_type := λ b, int_type (if b then 1 else 0);
     c_body := λ b, int_body (if b then 1 else 0) |}.
Next Obligation. intros; apply int_type_range. Qed.
Next Obligation. intros; apply int_body_ok. Qed.
Next Obligation. intros [] **; apply writes_Char; done. Qed.
Next Obligation. intros d [] **; (eapply reads_map; [by apply reads_Char | done]). Qed.
Next Obligation. intros [] **; (eapply absent_map; [apply reads_field_absent | done]). Qed.
Next Obligation. intros. by apply missing_map, field_missing. Qed.
Next Obligation. intros. by apply over_map, field_over. Qed.
Next Obligation. intros; apply reads_skip_int. Qed.
