(* ===== verification/TarsContainers.v ===== *)
(** The codecs of the composite types of [src/servant/tup/Tars.h]: floats,
    strings, byte vectors, vectors and maps.  The laws of a container need only
    the laws of its elements. *)
From stdpp Require Import prelude list.
From Stdlib Require Import ZArith Lia Sorting.Sorted.
From S2P Require Import Prelude Bytes TarsBuffer TarsOutput TarsInput TarsSkip TarsWire.
From S2P Require Import TarsCodec.

#[local] Arguments be_bytes : simpl never.
#[local] Arguments ntohl : simpl never.
#[local] Arguments Z.pow : simpl never.
#[local] Arguments head_bytes : simpl never.
#[local] Arguments int_bytes : simpl never.

(** * Skipping whole fields *)

(** A head type, a tag and a body that the decoder skips exactly. *)
Definition skippable (f : Z * Z * list Z) : Prop :=
  let '(ty, tag, body) := f in
  0 ≤ ty < 16 ∧ ty ≠ TarsHeadeStructEnd ∧ is_tag tag ∧ reads (run_skip (SkipField ty)) body None.

Definition wire (f : Z * Z * list Z) : list Z :=
  let '(ty, tag, body) := f in head_bytes ty tag ++ body.

Definition wires (fs : list (Z * Z * list Z)) : list Z := concat (map wire fs).

Section skipping.
(** [run_skip] unfolds one call of the code. *)
Lemma reads_run_skip P k bs x :
  reads_if P (skip_step run_skip k) bs x → reads_if P (run_skip k) bs x.
Proof. intros Hs pre post Hb HP. rewrite run_skip_eq by by apply at_ok. by apply Hs. Qed.

Lemma reads_skip_bytes ty n bs :
  zlen bs = n → (∀ rec, skip_step rec (SkipField ty) = (TarsReadHeadSkip n ;;; ret None)) →
  reads (run_skip (SkipField ty)) bs None.
Proof.
  intros Hn Hs. apply reads_run_skip. rewrite Hs.
  eapply reads_eq; [|apply app_nil_r]. eapply reads_bind; [by apply reads_skip | apply reads_ret].
Qed.

(** The size of a list or map, as the skipping code reads it. *)
Lemma reads_size n : in_U 32 n →
  reads (let* found := TarsSkipToTag 0 in
         match found with
         | Some (headType, _) => let* i := Int64_of_head headType in ret (wrapU 32 i)
         | None => throw TarsDecodeRequireNotExist
         end) (int_bytes n 0) n.
Proof.
  intros Hn pre post Hb _. rewrite <- (reads_UInt32 0 0 true n ltac:(done) Hn pre post Hb I).
  unfold read_UInt32, read_Int64, read_field. rewrite bind_assoc. unfold bind.
  by destruct (TarsSkipToTag 0 _) as [[[[] |]| | | |] ?].
Qed.

Lemma skippable_head ty tag body : skippable (ty, tag, body) →
  reads readFromHeadNoTag (head_bytes ty tag) ty.
Proof. intros (?&?&?&?). by apply reads_head_notag. Qed.

Lemma reads_skip_fields fs : Forall skippable fs →
  reads (run_skip (SkipFields (zlen fs))) (wires fs) None.
Proof.
  induction 1 as [|[[ty tag] body] fs Hf Hfs IH]; apply reads_run_skip; cbn [skip_step].
  - apply reads_ret.
  - cbn [length]. rewrite (proj2 (Z.leb_gt _ _)) by lia.
    replace (Z.of_nat (S (length fs)) - 1) with (zlen fs) by lia.
    unfold wires. simpl. rewrite <- app_assoc.
    eapply reads_bind; [by eapply skippable_head |].
    eapply reads_bind; [by apply Hf | done].
Qed.

Lemma reads_skip_struct fs tag : Forall skippable fs → is_tag tag →
  reads (run_skip SkipStructEnd) (wires fs ++ head_bytes TarsHeadeStructEnd tag) None.
Proof.
  intros Hfs Ht. induction Hfs as [|[[ty t] body] fs Hf Hfs IH]; apply reads_run_skip; cbn [skip_step].
  - change (wires [] ++ ?x) with x. rewrite <- (app_nil_r (head_bytes _ _)).
    eapply reads_bind; [by apply reads_head_notag |].
    rewrite <- (app_nil_r []). eapply reads_bind; [|apply reads_ret].
    apply reads_run_skip, reads_ret.
  - unfold wires. simpl. rewrite <- !app_assoc.
    eapply reads_bind; [by eapply skippable_head |].
    eapply reads_bind; [by apply Hf |].
    destruct Hf as (_ & Hne & _). rewrite (proj2 (Z.eqb_neq _ _) Hne). done.
Qed.

Lemma skippable_field {A} (c : codec A) `{!CodecLaws c} a tag :
  c_ok a → is_tag tag → skippable (c_type a, tag, c_body a).
Proof. intros Ha Ht. destruct (law_type a Ha). split_and!; try done; try lia. by apply law_skip. Qed.
End skipping.

(** * Floats *)

Definition codec_Float : codec Z := Codec (λ S _, write_Float) read_Float.

#[export] Program Instance Float_laws : CodecLaws codec_Float :=
  {| c_ok := in_U 32; c_type := λ _, TarsHeadeFloat; c_body := be_bytes 4 |}.
Next Obligation. done. Qed.
Next Obligation. intros; apply be_bytes_ok. Qed.
Next Obligation.
  intros a tag S HS Ha Ht. cbn. apply writes_bind; [by apply writes_head |].
  eapply writes_eq; [apply writes_raw | apply le_bytes_bswap].
Qed.
Next Obligation.
  intros d a tag req Ha Ht. apply reads_field_found; [done..|].
  apply (reads_map _ (TarsReadTypeBuf 4) tars_ntohf (be_bytes 4 a) (le_val (be_bytes 4 a)));
    [by apply reads_type |].
  unfold tars_ntohf, htonl. rewrite bswap_be_bytes. by apply wrapU_id.
Qed.
Next Obligation. intros; apply reads_field_absent. Qed.
Next Obligation. intros; by apply field_missing. Qed.
Next Obligation. intros; by apply field_over. Qed.
Next Obligation. intros; by eapply (reads_skip_bytes _ 4). Qed.

Definition codec_Double : codec Z := Codec (λ S _, write_Double) read_Double.

(** Both conversions reverse the eight bytes. *)
Lemma tars_ntohd_bswap x : tars_ntohd x = bswap 8 x.
Proof.
  unfold tars_ntohd. change 64 with (8 * Z.of_nat 8).
  by rewrite <- le_val_le_bytes, le_bytes_tars_htonll.
Qed.

#[export] Program Instance Double_laws : CodecLaws codec_Double :=
  {| c_ok := in_U 64; c_type := λ _, TarsHeadeDouble; c_body := be_bytes 8 |}.
Next Obligation. done. Qed.
Next Obligation. intros; apply be_bytes_ok. Qed.
Next Obligation.
  intros a tag S HS Ha Ht. cbn. apply writes_bind; [by apply writes_head |].
  eapply writes_eq; [apply writes_raw |]. rewrite tars_ntohd_bswap. apply le_bytes_bswap.
Qed.
Next Obligation.
  intros d a tag req Ha Ht. apply reads_field_found; [done..|].
  apply (reads_map _ (TarsReadTypeBuf 8) tars_ntohd (be_bytes 8 a) (le_val (be_bytes 8 a)));
    [by apply reads_type |].
  rewrite tars_ntohd_bswap, bswap_be_bytes. by apply wrapU_id.
Qed.
Next Obligation. intros; apply reads_field_absent. Qed.
Next Obligation. intros; by apply field_missing. Qed.
Next Obligation. intros; by apply field_over. Qed.
Next Obligation. intros; by eapply (reads_skip_bytes _ 8). Qed.

(** What a [Double] member becomes that is read from a [Float] field: the loaded
    bytes are taken for a [float], widened, narrowed again, swapped and widened. *)
Lemma reads_Double_of_Float d x tag req :
  is_tag tag → in_U 32 x →
  reads (read_Double d tag req) (field_bytes codec_Float x tag)
    (Float_to_Double (tars_ntohf (Float_via_Double (bswap 4 x)))).
Proof.
  intros Ht Hx. apply reads_field_found; [done..|].
  by apply (reads_map _ (TarsReadTypeBuf 4) _ (be_bytes 4 x) (le_val (be_bytes 4 x))); [apply reads_type |].
Qed.

(** A [float] whose bit pattern is a signalling NaN. *)
Definition signalling (b : Z) : bool := Float_is_NaN b && negb (Z.testbit b 22).

(** Only signalling NaNs do not survive the widening and narrowing. *)
Lemma Float_via_Double_id b : Float_via_Double b = b ↔ signalling b = false.
Proof.
  unfold Float_via_Double, signalling. destruct (Float_is_NaN b); [|done]. cbn [andb].
  rewrite Z.shiftl_1_l, negb_false_iff. split.
  - intros E. rewrite <- E, Z.lor_spec, Z.pow2_bits_true by lia. by rewrite orb_true_r.
  - intros E. apply Z.bits_inj'. intros i Hi. rewrite Z.lor_spec, Z.pow2_bits_eqb by lia.
    destruct (Z.eqb_spec 22 i) as [<-|]; [by rewrite E | by rewrite orb_false_r].
Qed.

Lemma Float_via_Double_range b : in_U 32 b → in_U 32 (Float_via_Double b).
Proof.
  intros Hb. unfold Float_via_Double. destruct (Float_is_NaN b); [|done].
  replace (Z.lor b (Z.shiftl 1 22)) with (wrapU 32 (Z.lor b (Z.shiftl 1 22))); [by apply wrapU_range |].
  unfold wrapU. rewrite <- !Z.land_ones by lia. rewrite Z.land_lor_distr_l.
  rewrite (Z.land_ones b) by lia. change (b mod 2 ^ 32) with (wrapU 32 b). by rewrite wrapU_id.
Qed.

Lemma Float_survives x : in_U 32 x →
  tars_ntohf (Float_via_Double (bswap 4 x)) = x ↔ signalling (bswap 4 x) = false.
Proof.
  intros Hx. rewrite <- Float_via_Double_id. unfold tars_ntohf, htonl. split.
  - intros E. rewrite <- E at 2. rewrite bswap_involutive. symmetry. apply wrapU_id.
    apply Float_via_Double_range, (bswap_range 4).
  - intros ->. rewrite bswap_involutive. by apply wrapU_id.
Qed.

(** * Strings *)

Definition codec_string : codec (list Z) := Codec (λ S _, write_string) read_string.

Definition string_type (s : list Z) : Z := if 255 <? zlen s then TarsHeadeString4 else TarsHeadeString1.
Definition string_body (s : list Z) : list Z :=
  if 255 <? zlen s then be_bytes 4 (zlen s) ++ s else zlen s :: s.

Definition string_ok (s : list Z) : Prop := bytes_ok s ∧ zlen s ≤ TARS_MAX_STRING_LENGTH.

Lemma max_string_32 : TARS_MAX_STRING_LENGTH < 2 ^ 32.
Proof. done. Qed.

Lemma ntohl_be_bytes n : in_U 32 n → ntohl (le_val (be_bytes 4 n)) = n.
Proof. intros. unfold ntohl. rewrite bswap_be_bytes. by apply wrapU_id. Qed.

(** A one-byte length. *)
Lemma reads_len1 n : 0 ≤ n < 256 → reads (TarsReadTypeBuf 1) [n] n.
Proof. intros. rewrite <- (Z.add_0_r n) at 2. by apply (reads_type 1 [n]). Qed.

#[export] Program Instance string_laws : CodecLaws codec_string :=
  {| c_ok := string_ok; c_type := string_type; c_body := string_body |}.
Next Obligation. intros s _. unfold string_type. by destruct (_ <? _). Qed.
Next Obligation.
  intros s [Hs Hl]. unfold string_body. destruct (Z.ltb_spec 255 (zlen s)).
  - apply Forall_app; auto using be_bytes_ok.
  - constructor; [unfold is_byte; lia | done].
Qed.
Next Obligation.
  intros s tag S HS [Hs Hl] Ht. cbn. unfold write_string, string_type, string_body.
  pose proof max_string_32. destruct (Z.ltb_spec 255 (zlen s)).
  - rewrite (proj2 (Z.ltb_ge _ _)) by lia.
    apply writes_bind; [by apply writes_head |]. apply writes_bind; [|apply writes_raw].
    rewrite wrapU_id by (unfold in_U; lia).
    eapply writes_eq; [apply writes_raw | apply le_bytes_bswap].
  - apply writes_bind; [by apply writes_head |]. apply (writes_bind _ _ [_]); [|apply writes_raw].
    eapply writes_eq; [apply writes_raw |]. rewrite wrapU_id by (unfold in_U; lia).
    rewrite le_bytes_1, Z.mod_small by lia. done.
Qed.
Next Obligation.
  intros d s tag req [Hs Hl] Ht. cbn. unfold string_type, string_body.
  pose proof max_string_32.
  destruct (Z.ltb_spec 255 (zlen s)); (apply reads_field_found; [done..|]); cbn.
  - eapply reads_bind; [|by apply reads_string_buf].
    rewrite <- (app_nil_r (be_bytes _ _)). eapply reads_bind; [by apply reads_type |].
    rewrite ntohl_be_bytes by (unfold in_U; lia).
    rewrite (proj2 (Z.ltb_ge _ _)) by lia. apply reads_ret.
  - apply (reads_bind _ _ _ [_] _ (zlen s)); [apply reads_len1; lia | by apply reads_string_buf].
Qed.
Next Obligation. intros; apply reads_field_absent. Qed.
Next Obligation. intros; by apply field_missing. Qed.
Next Obligation. intros; by apply field_over. Qed.
Next Obligation.
  intros s [Hs Hl]. unfold string_type, string_body. pose proof max_string_32.
  destruct (Z.ltb_spec 255 (zlen s)); apply reads_run_skip; cbn.
  - eapply reads_bind; [by apply reads_type |]. rewrite ntohl_be_bytes by (unfold in_U; lia).
    rewrite <- (app_nil_r s) at 2. eapply reads_bind; [by apply reads_skip | apply reads_ret].
  - apply (reads_bind _ _ _ [_] _ (zlen s)); [apply reads_len1; lia |].
    rewrite <- (app_nil_r s) at 2. eapply reads_bind; [by apply reads_skip | apply reads_ret].
Qed.

(** * Byte vectors *)

Definition codec_bytes : codec (list Z) := Codec (λ S _, write_vector_char) read_vector_char.

Definition size_ok (n : Z) : Prop := n < 2 ^ 31.

Definition bytes_body (v : list Z) : list Z := head_bytes TarsHeadeChar 0 ++ int_bytes (zlen v) 0 ++ v.

Lemma size_in_S n : size_ok n → 0 ≤ n → in_S 32 n ∧ in_U 32 n.
Proof. unfold size_ok, in_S, in_U. lia. Qed.

Lemma int_bytes_ok n : bytes_ok (int_bytes n 0).
Proof. apply Forall_app. split; [|apply int_body_ok]. apply bytes_ok_head; [apply int_type_range | done]. Qed.

(** The count of elements is accepted when the elements are there. *)
Lemma reads_count n : in_U 32 n → reads_if (λ post, n ≤ zlen post) read_count (int_bytes n 0) n.
Proof.
  intros Hn pre post Hb Hp. unfold read_count.
  rewrite (bind_Ok _ _ _ _ _ (reads_UInt32 0 0 true n ltac:(done) Hn pre post Hb I)).
  unfold bind, reader_size. cbn [at_ rlen]. rewrite (proj2 (Z.ltb_ge _ _)); [done |].
  rewrite !length_app. lia.
Qed.

Lemma writes_size {S} `{WriterT S} {A} (l : list A) : size_ok (zlen l) →
  writes (write_Int32 (wrapS 32 (zlen l)) 0) (int_bytes (zlen l) 0).
Proof.
  intros Hl. destruct (size_in_S _ Hl ltac:(lia)).
  rewrite wrapS_id by (done || lia). by apply writes_Int32.
Qed.

#[export] Program Instance bytes_laws : CodecLaws codec_bytes :=
  {| c_ok := λ v, bytes_ok v ∧ size_ok (zlen v); c_type := λ _, TarsHeadeSimpleList;
     c_body := bytes_body |}.
Next Obligation. done. Qed.
Next Obligation.
  intros v [Hv _]. unfold bytes_body.
  apply Forall_app; split; [by apply bytes_ok_head | apply Forall_app; auto using int_bytes_ok].
Qed.
Next Obligation.
  intros v tag S HS [Hv Hl] Ht. cbn [c_write codec_bytes]. unfold write_vector_char, bytes_body.
  apply writes_bind; [by apply writes_head |]. apply writes_bind; [by apply writes_head |].
  apply writes_bind; [by apply writes_size | apply writes_raw].
Qed.
Next Obligation.
  intros d v tag req [Hv Hl] Ht. apply reads_field_found; [done..|]. cbn. unfold bytes_body.
  destruct (size_in_S _ Hl ltac:(lia)).
  eapply reads_bind.
  - rewrite <- (app_nil_r (head_bytes _ _)). eapply reads_bind; [by apply reads_head | apply reads_ret].
  - eapply reads_if_bind; [by apply reads_count | by apply reads_readBuf |].
    intros post _. cbv beta. rewrite length_app. lia.
Qed.
Next Obligation. intros; apply reads_field_absent. Qed.
Next Obligation. intros; by apply field_missing. Qed.
Next Obligation. intros; by apply field_over. Qed.
Next Obligation.
  intros v [Hv Hl]. apply reads_run_skip. cbn. unfold bytes_body.
  destruct (size_in_S _ Hl ltac:(lia)).
  eapply reads_bind; [by apply reads_head |]. cbn.
  eapply reads_bind; [by apply reads_size |].
  rewrite <- (app_nil_r v) at 2. eapply reads_bind; [by apply reads_skip | apply reads_ret].
Qed.

(** * Vectors *)

(** [write_each] writes the elements one after the other. *)
Lemma writes_each {S} `{WriterT S} {A} (wr : A → prog S tars_error unit) (f : A → list Z) l :
  Forall (λ x, writes (wr x) (f x)) l → writes (write_each wr l) (concat (map f l)).
Proof. induction 1; [apply writes_ret | by apply writes_bind]. Qed.

Lemma reads_elems {A} (rd : A → reads_prog A) (f : A → list Z) l l0 :
  length l0 = length l → Forall (λ x, ∀ d, reads (rd d) (f x) x) l →
  reads (read_elems rd l0) (concat (map f l)) l.
Proof.
  intros Hl Hr. revert l0 Hl. induction Hr as [|x l Hx Hr IH]; intros [|d l0] [=]; [apply reads_ret |].
  cbn [map concat read_elems]. eapply reads_bind; [apply Hx |].
  rewrite <- (app_nil_r (concat _)). eapply reads_bind; [by apply IH | apply reads_ret].
Qed.

(** Each field takes at least a byte, so the count never exceeds what is left. *)
Lemma count_le_bytes {A} (f : A → list Z) l : (∀ x, 1 ≤ zlen (f x)) → zlen l ≤ zlen (concat (map f l)).
Proof.
  intros Hf. induction l as [|x l IH]; [done |].
  cbn [map concat length]. rewrite length_app. specialize (Hf x). lia.
Qed.

Section vector.
Context {A : Type} (dA : A) (c : codec A) `{!CodecLaws c}.

Definition codec_vector : codec (list A) :=
  Codec (λ S _, write_vector (c_write c)) (read_vector dA (c_read c)).

Definition elems (v : list A) : list (Z * Z * list Z) := map (λ x, (c_type x, 0, c_body x)) v.
Definition vector_body (v : list A) : list Z := int_bytes (zlen v) 0 ++ wires (elems v).
Definition vector_ok (v : list A) : Prop := Forall c_ok v ∧ size_ok (zlen v).

Lemma wires_elems v : wires (elems v) = concat (map (λ x, field_bytes c x 0) v).
Proof. unfold wires, elems. by rewrite map_map. Qed.

Lemma skippable_elems v : Forall c_ok v → Forall skippable (elems v).
Proof. induction 1; constructor; [by apply skippable_field | done]. Qed.

Lemma bytes_ok_elems v : Forall c_ok v → bytes_ok (wires (elems v)).
Proof.
  rewrite wires_elems.
  induction 1; cbn [map concat]; [constructor | apply Forall_app; auto using bytes_ok_field].
  split; [by apply bytes_ok_field | done].
Qed.

#[export] Program Instance vector_laws : CodecLaws codec_vector :=
  {| c_ok := vector_ok; c_type := λ _, TarsHeadeList; c_body := vector_body |}.
Next Obligation. done. Qed.
Next Obligation. intros v [Hv _]. apply Forall_app; auto using int_bytes_ok, bytes_ok_elems. Qed.
Next Obligation.
  intros v tag S HS [Hv Hl] Ht. cbn [c_write codec_vector]. unfold write_vector, vector_body.
  apply writes_bind; [by apply writes_head |]. apply writes_bind; [by apply writes_size |].
  rewrite wires_elems. apply writes_each.
  eapply Forall_impl; [exact Hv |]. intros x Hx. by apply law_write.
Qed.
Next Obligation.
  intros d v tag req [Hv Hl] Ht. apply reads_field_found; [done..|]. cbn. unfold vector_body.
  destruct (size_in_S _ Hl ltac:(lia)).
  eapply reads_if_bind; [by apply reads_count | |]; rewrite wires_elems.
  - apply reads_elems; [by rewrite length_resize, Nat2Z.id |].
    eapply Forall_impl; [exact Hv |]. intros x Hx d'. by apply law_read.
  - intros post _. cbv beta. rewrite length_app.
    pose proof (count_le_bytes (λ x, field_bytes c x 0) v (λ x, field_bytes_pos c x 0)). lia.
Qed.
Next Obligation. intros; apply reads_field_absent. Qed.
Next Obligation. intros; by apply field_missing. Qed.
Next Obligation. intros; by apply field_over. Qed.
Next Obligation.
  intros v [Hv Hl]. apply reads_run_skip. cbn. unfold vector_body.
  destruct (size_in_S _ Hl ltac:(lia)).
  eapply reads_bind; [by apply reads_size |].
  replace (zlen v) with (zlen (elems v)) by (unfold elems; by rewrite length_map).
  by apply reads_skip_fields, skippable_elems.
Qed.
End vector.

(** * Maps *)

(** The order of the keys: what [std::map] needs of its comparator, on the keys
    at hand. *)
Definition map_sorted {K V} (lt : K → K → bool) : list (K * V) → Prop :=
  StronglySorted (λ p q, lt p.1 q.1 = true ∧ lt q.1 p.1 = false).

(** Inserting keys in ascending order appends them. *)
Lemma map_insert_last {K V} (lt : K → K → bool) (m : list (K * V)) p :
  Forall (λ q, lt q.1 p.1 = true ∧ lt p.1 q.1 = false) m → map_insert lt p m = m ++ [p].
Proof. induction 1 as [|q m [E1 E2] Hm IH]; [done |]. cbn. by rewrite E1, E2, IH. Qed.

Lemma reads_insert {K V} (lt : K → K → bool) (rd : reads_prog (K * V)) (f : K * V → list Z) l m :
  Forall (λ p, reads rd (f p) p) l → map_sorted lt (m ++ l) →
  reads (read_insert rd (map_insert lt) (length l) m) (concat (map f l)) (m ++ l).
Proof.
  intros Hr. revert m. induction Hr as [|p l Hp Hr IH]; intros m Hs.
  - rewrite app_nil_r. apply reads_ret.
  - cbn [map concat length read_insert]. eapply reads_bind; [exact Hp |].
    rewrite map_insert_last.
    + replace (m ++ p :: l) with ((m ++ [p]) ++ l) in * by (by rewrite <- app_assoc).
      by apply IH.
    + clear -Hs. induction m as [|q m IH]; [constructor |].
      inversion_clear Hs as [|? ? Hs' Hq]. constructor; [|by apply IH].
      rewrite Forall_app, Forall_cons in Hq. apply Hq.
Qed.

(** Whatever the container, the elements are inserted in the order of the wire. *)
Lemma reads_insert_fold {A C} (ins : A → C → C) (rd : reads_prog A) (f : A → list Z) l m :
  Forall (λ x, reads rd (f x) x) l →
  reads (read_insert rd ins (length l) m) (concat (map f l)) (foldl (λ m x, ins x m) m l).
Proof.
  intros Hr. revert m. induction Hr as [|x l Hx Hr IH]; intros m; [apply reads_ret |].
  cbn [map concat length read_insert foldl]. by eapply reads_bind.
Qed.

Section map.
Context {K V : Type} (dK : K) (dV : V) (lt : K → K → bool).
Context (ck : codec K) (cv : codec V) `{!CodecLaws ck} `{!CodecLaws cv}.

Definition codec_map : codec (list (K * V)) :=
  Codec (λ S _, write_map (c_write ck) (c_write cv)) (read_map dK dV (c_read ck) (c_read cv) lt).

Definition entries (m : list (K * V)) : list (Z * Z * list Z) :=
  flat_map (λ p, [(c_type p.1, 0, c_body p.1); (c_type p.2, 1, c_body p.2)]) m.
Definition entry_bytes (p : K * V) : list Z := field_bytes ck p.1 0 ++ field_bytes cv p.2 1.
Definition map_body (m : list (K * V)) : list Z := int_bytes (zlen m) 0 ++ wires (entries m).
Definition map_ok (m : list (K * V)) : Prop :=
  Forall (λ p, c_ok p.1 ∧ c_ok p.2) m ∧ map_sorted lt m ∧ size_ok (zlen m).

Lemma wires_entries m : wires (entries m) = concat (map entry_bytes m).
Proof.
  unfold wires, entries, entry_bytes. induction m as [|p m IH]; [done |].
  cbn. rewrite IH. unfold field_bytes. by rewrite <- !app_assoc.
Qed.

Lemma skippable_entries m : Forall (λ p, c_ok p.1 ∧ c_ok p.2) m → Forall skippable (entries m).
Proof. induction 1 as [|p m [??]]; [constructor |].
  cbn. apply Forall_cons_2; [|apply Forall_cons_2]; [by apply skippable_field.. | done].
Qed.

Lemma length_entries m : length (entries m) = (2 * length m)%nat.
Proof. unfold entries. induction m; cbn; lia. Qed.

#[export] Program Instance map_laws : CodecLaws codec_map :=
  {| c_ok := map_ok; c_type := λ _, TarsHeadeMap; c_body := map_body |}.
Next Obligation. done. Qed.
Next Obligation.
  intros m [Hm _]. apply Forall_app; split; [apply int_bytes_ok |]. rewrite wires_entries.
  induction Hm as [|p m [??]]; cbn [map concat]; [constructor |].
  unfold entry_bytes. rewrite !Forall_app. auto using bytes_ok_field. split_and!; try done; by apply bytes_ok_field.
Qed.
Next Obligation.
  intros m tag S HS (Hm & _ & Hl) Ht. cbn [c_write codec_map]. unfold write_map, map_body.
  apply writes_bind; [by apply writes_head |]. apply writes_bind; [by apply writes_size |].
  rewrite wires_entries. apply writes_each.
  eapply Forall_impl; [exact Hm |]. intros p [??]. by apply writes_bind; apply law_write.
Qed.
Next Obligation.
  intros d m tag req (Hm & Hs & Hl) Ht. apply reads_field_found; [done..|]. cbn. unfold map_body.
  destruct (size_in_S _ Hl ltac:(lia)).
  eapply reads_if_bind; [by apply reads_count | |]; rewrite wires_entries.
  - rewrite Nat2Z.id. apply (reads_insert lt _ _ m []); [|done].
    eapply Forall_impl; [exact Hm |]. intros p [??]. unfold read_pair, entry_bytes.
    eapply reads_bind; [by apply law_read |]. rewrite <- (app_nil_r (field_bytes cv _ _)).
    eapply reads_bind; [by apply law_read |]. rewrite <- surjective_pairing. apply reads_ret.
  - intros post _. cbv beta. rewrite length_app.
    assert (Hc : ∀ p, 1 ≤ zlen (entry_bytes p)).
    { intros p. unfold entry_bytes. rewrite length_app. pose proof (field_bytes_pos ck p.1 0). lia. }
    pose proof (count_le_bytes entry_bytes m Hc). lia.
Qed.
Next Obligation. intros; apply reads_field_absent. Qed.
Next Obligation. intros; by apply field_missing. Qed.
Next Obligation. intros; by apply field_over. Qed.
Next Obligation.
  intros m (Hm & Hs & Hl). apply reads_run_skip. cbn. unfold map_body.
  destruct (size_in_S _ Hl ltac:(lia)). unfold size_ok in Hl.
  eapply reads_bind; [by apply reads_size |].
  replace (wrapU 32 (zlen m * 2)) with (zlen (entries m)).
  - by apply reads_skip_fields, skippable_entries.
  - rewrite length_entries, wrapU_id; unfold in_U; lia.
Qed.
End map.

(** * Sets and arrays

    Both have the wire format of a vector. *)
Section set_array.
Context {A : Type} (dA : A) (c : codec A) `{!CodecLaws c}.

(** What every loop over the elements of a list has to show. *)
Lemma reads_list {B} P (body : Z → reads_prog B) (d : B) (l : list A) tag req (b : B) :
  vector_ok c l → is_tag tag →
  reads_if P (body (zlen l)) (wires (elems c l)) b →
  reads_if P (read_field d tag req (λ headType,
    if headType =? TarsHeadeList then let* size := read_count in body size
    else throw TarsDecodeMismatch)) (field_bytes (codec_vector dA c) l tag) b.
Proof.
  intros [Hl Hs] Ht Hb. destruct (size_in_S _ Hs ltac:(lia)).
  apply reads_field_found; [done..|]. cbn. unfold vector_body.
  eapply reads_if_bind; [by apply reads_count | exact Hb |]. intros post' _. cbv beta.
  rewrite length_app, wires_elems.
  pose proof (count_le_bytes (λ x, field_bytes c x 0) l (λ x, field_bytes_pos c x 0)). lia.
Qed.

Lemma reads_set lt (l v : list A) tag req : vector_ok c l → is_tag tag →
  reads (read_set dA (c_read c) lt v tag req) (field_bytes (codec_vector dA c) l tag)
    (foldl (λ v x, set_insert lt x v) v l).
Proof.
  intros Hl Ht. apply reads_list; [done.. |].
  rewrite wires_elems, Nat2Z.id. apply reads_insert_fold.
  destruct Hl as [Hl _]. eapply Forall_impl; [exact Hl |]. intros x Hx. by apply law_read.
Qed.

(** Elements in ascending order are appended. *)
Lemma set_insert_last (lt : A → A → bool) (m : list A) x :
  Forall (λ y, lt y x = true ∧ lt x y = false) m → set_insert lt x m = m ++ [x].
Proof. induction 1 as [|y m [E1 E2] Hm IH]; [done |]. cbn. by rewrite E1, E2, IH. Qed.

Lemma foldl_set_insert (lt : A → A → bool) (l : list A) :
  StronglySorted (λ x y, lt x y = true ∧ lt y x = false) l → foldl (λ v x, set_insert lt x v) [] l = l.
Proof.
  intros Hs. change l with ([] ++ l) in Hs |- * at 2. revert Hs. generalize (@nil A) as m.
  induction l as [|x l IH]; intros m Hs; cbn [foldl]; [by rewrite app_nil_r |].
  rewrite set_insert_last.
  - replace (m ++ x :: l) with ((m ++ [x]) ++ l) in * by (by rewrite <- app_assoc). by apply IH.
  - clear -Hs. induction m as [|q m IH]; [constructor |].
    inversion_clear Hs as [|? ? Hs' Hq]. constructor; [|by apply IH].
    rewrite Forall_app, Forall_cons in Hq. apply Hq.
Qed.

(** [n] elements fit the array, or the first that does not is out of bounds. *)
Lemma reads_slots (l v : list A) : Forall c_ok l → (length l ≤ length v)%nat →
  reads (read_slots (c_read c) (length l) v) (wires (elems c l)) (l ++ drop (length l) v).
Proof.
  rewrite wires_elems. intros Hl. revert v. induction Hl as [|x l Hx Hl IH]; intros v Hv.
  - destruct v; apply reads_ret.
  - destruct v as [|y v]; [cbn in Hv; lia |]. cbn [map concat length read_slots drop app].
    eapply reads_bind; [by apply law_read |].
    rewrite <- (app_nil_r (concat _)). eapply reads_bind; [apply IH; cbn in Hv; lia | apply reads_ret].
Qed.

Lemma slots_overflow (l v : list A) pre post : Forall c_ok l → (length v < length l)%nat →
  bytes_ok (pre ++ wires (elems c l) ++ post) →
  ∃ r, read_slots (c_read c) (length l) v (at_ pre (wires (elems c l) ++ post)) = (OutOfBounds, r).
Proof.
  rewrite wires_elems. intros Hl. revert v pre. induction Hl as [|x l Hx Hl IH]; intros v pre Hv Hb; [cbn in Hv; lia |].
  destruct v as [|y v]; [by eexists |]. cbn [map concat length read_slots] in *.
  rewrite <- app_assoc in *. unfold bind at 1.
  pose proof (law_read y x 0 true Hx ltac:(done) pre _ Hb I) as E0.
  change (head_bytes (c_type x) 0 ++ c_body x) with (field_bytes c x 0) in E0. rewrite E0.
  destruct (IH v (pre ++ field_bytes c x 0)) as [r E]; [lia | by rewrite <- app_assoc |].
  unfold bind. rewrite E. by eexists.
Qed.

Lemma array_overflows (l arr : list A) len readLen tag req pre post :
  vector_ok c l → is_tag tag → zlen arr < zlen l →
  bytes_ok (pre ++ field_bytes (codec_vector dA c) l tag ++ post) →
  (read_array (c_read c) arr len readLen tag req
    (at_ pre (field_bytes (codec_vector dA c) l tag ++ post))).1 = OutOfBounds.
Proof.
  intros [Hl Hs] Ht Hlt Hb. destruct (size_in_S _ Hs ltac:(lia)).
  unfold field_bytes in *. cbn [c_type c_body vector_laws] in *. unfold vector_body in *.
  rewrite <- !app_assoc in *. unfold read_array, read_field.
  rewrite (bind_Ok _ _ _ _ _ (reads_found TarsHeadeList tag ltac:(done) ltac:(done) Ht pre _ Hb I)).
  cbv iota beta. change (TarsHeadeList =? TarsHeadeList) with true. cbv iota.
  rewrite (app_assoc pre) in Hb.
  assert (Hc : zlen l ≤ zlen (wires (elems c l) ++ post)).
  { rewrite length_app, wires_elems.
    pose proof (count_le_bytes (λ x, field_bytes c x 0) l (λ x, field_bytes_pos c x 0)). lia. }
  rewrite (bind_Ok _ _ _ _ _ (reads_count (zlen l) ltac:(done) _ _ Hb Hc)). rewrite Nat2Z.id.
  rewrite (app_assoc (_ ++ _)) in Hb.
  destruct (slots_overflow l arr _ post Hl ltac:(lia) Hb) as [r E]. unfold bind. by rewrite E.
Qed.
End set_array.
