(* ===== verification/TarsStruct.v ===== *)
(** The [writeTo], [readFrom] and [resetDefautlt] members that
    [src/tools/tars2cpp/tars2cpp.cpp] generates for a structure, over the list of
    its members, and the structure overloads of [read] and [write].  The theorems
    are for every list of members the parser can build. *)
From stdpp Require Import prelude list.
From Stdlib Require Import ZArith Lia Sorting.Sorted.
From S2P Require Import Prelude Bytes TarsBuffer TarsOutput TarsInput TarsSkip TarsWire.
From S2P Require Import TarsCodec TarsContainers.

(** A member of a structure [R]: its type, as a codec; its tag; whether it is
    required; how it is accessed; what [resetDefautlt] does to it; and, when the
    generator knows a test for it, whether the value differs from the default
    ([id != def], or [id.size() > 0] for vectors and maps). *)
Record member (R : Type) := Member {
  m_type : Type;
  m_codec : codec m_type;
  m_laws : CodecLaws m_codec;
  m_tag : Z;
  m_require : bool;
  m_get : R → m_type;
  m_set : m_type → R → R;
  m_reset : m_type → m_type;
  m_differs : option (m_type → bool)
}.
Arguments Member {R _} _ {_} _ _ _ _ _ _.
Arguments m_type {R} _.
Arguments m_codec {R} _.
Arguments m_tag {R} _.
Arguments m_require {R} _.
Arguments m_get {R} _ _.
Arguments m_set {R} _ _ _.
Arguments m_reset {R} _ _.
Arguments m_differs {R} _.
#[export] Existing Instance m_laws.

Section generated.
Context {R : Type}.
Implicit Types (f : member R) (F : list (member R)) (r : R).

(** [resetDefautlt]. *)
Fixpoint resetDefautlt F r : R :=
  match F with
  | [] => r
  | f :: F' => resetDefautlt F' (m_set f (m_reset f (m_get f r)) r)
  end.

(** Does the generated [writeTo] skip the member?  Only optional members, only
    when the generator runs with its default check. *)
Definition omitted (checkDefault : bool) f r : bool :=
  match m_differs f with
  | Some differs => checkDefault && negb (m_require f) && negb (differs (m_get f r))
  | None => false
  end.

Fixpoint writeTo {S} `{WriterT S} (checkDefault : bool) F r : prog S tars_error unit :=
  match F with
  | [] => ret tt
  | f :: F' =>
    (if omitted checkDefault f r then ret tt else c_write (m_codec f) (m_get f r) (m_tag f)) ;;;
    writeTo checkDefault F' r
  end.

(** [_is.read(id, tag, require)] member by member. *)
Fixpoint readMembers F r : reads_prog R :=
  match F with
  | [] => ret r
  | f :: F' =>
    let* v := c_read (m_codec f) (m_get f r) (m_tag f) (m_require f) in
    readMembers F' (m_set f v r)
  end.

Definition readFrom F r : reads_prog R := readMembers F (resetDefautlt F r).
End generated.

(** A structure as a codec. *)
Definition codec_struct {R} (checkDefault : bool) (F : list (member R)) : codec R :=
  Codec (λ S _, write_struct (writeTo checkDefault F)) (read_struct (readFrom F)).

(** What [Struct::addTypeId] and the generated C++ class guarantee of the
    members: ascending tags; members are separate fields that make up the whole
    object; default values can be encoded, and the default test finds exactly
    values equal to the default. *)
Class StructLaws {R} (F : list (member R)) := {
  sl_sorted : StronglySorted (λ f g, m_tag f < m_tag g) F;
  sl_tags : Forall (λ f, is_tag (m_tag f)) F;
  sl_get_set f v r : f ∈ F → m_get f (m_set f v r) = v;
  sl_indep f g v r : f ∈ F → g ∈ F → m_tag f ≠ m_tag g → m_get g (m_set f v r) = m_get g r;
  sl_ext r r' : Forall (λ f, m_get f r = m_get f r') F → r = r';
  sl_reset_ok f v : f ∈ F → c_ok (m_reset f v);
  sl_differs f p v v0 : f ∈ F → m_differs f = Some p → p v = false → m_reset f v0 = v
}.

(** The members of an object on the wire. *)
Definition struct_fields {R} (cd : bool) (F : list (member R)) (r : R) : list (Z * Z * list Z) :=
  flat_map (λ f, if omitted cd f r then []
                 else [(c_type (m_get f r), m_tag f, c_body (m_get f r))]) F.

(** Every member has a value the wire can carry. *)
Definition struct_ok {R} (F : list (member R)) (r : R) : Prop :=
  Forall (λ f, c_ok (m_get f r)) F.

Section struct.
Context {R : Type}.
Implicit Types (f : member R) (F : list (member R)) (r : R).

Lemma skippable_struct_fields cd F r :
  struct_ok F r → Forall (λ f, is_tag (m_tag f)) F → Forall skippable (struct_fields cd F r).
Proof.
  intros Hok Ht. induction F as [|f F IH]; [constructor |].
  apply Forall_cons in Hok as [Hf Hok]; apply Forall_cons in Ht as [Hft Ht]. specialize (IH Hok Ht).
  unfold struct_fields. cbn. destruct (omitted _ _ _); [done |].
  apply Forall_cons_2; [by apply skippable_field | done].
Qed.

Lemma writes_struct_fields {S} `{WriterT S} cd F r :
  struct_ok F r → Forall (λ f, is_tag (m_tag f)) F →
  writes (writeTo cd F r) (wires (struct_fields cd F r)).
Proof.
  intros Hok Ht. induction F as [|f F IH]; [apply writes_ret |].
  apply Forall_cons in Hok as [Hf Hok]; apply Forall_cons in Ht as [Hft Ht]. specialize (IH Hok Ht).
  unfold struct_fields, wires. cbn. rewrite map_app, concat_app. apply writes_bind; [|done].
  destruct (omitted _ _ _); [apply writes_ret |]. cbn. rewrite app_nil_r. by apply law_write.
Qed.

Lemma bytes_ok_struct_fields cd F r :
  struct_ok F r → Forall (λ f, is_tag (m_tag f)) F → bytes_ok (wires (struct_fields cd F r)).
Proof.
  intros Hok Ht. induction F as [|f F IH]; [constructor |].
  apply Forall_cons in Hok as [Hf Hok]; apply Forall_cons in Ht as [Hft Ht]. specialize (IH Hok Ht).
  unfold struct_fields, wires. cbn. rewrite map_app, concat_app. apply Forall_app; split; [|done].
  destruct (omitted _ _ _); [constructor |]. cbn. rewrite app_nil_r.
  by apply (bytes_ok_field (m_codec f)).
Qed.
End struct.

(** * What a reader makes of the fields it finds

    [reads_as F fs rest r r']: reading the members [F] into [r] from the fields
    [fs], in ascending order of their tags, gives [r'] and leaves [rest].  A field
    no member asks for is passed over; a member whose field is not there must be
    optional and keeps its value. *)
Inductive reads_as {R} : list (member R) → list (Z * Z * list Z) → list (Z * Z * list Z) → R → R → Prop :=
  | ra_done fs r : reads_as [] fs fs r r
  | ra_unknown f F ty tag body fs rest r r' :
      tag < m_tag f → reads_as (f :: F) fs rest r r' →
      reads_as (f :: F) ((ty, tag, body) :: fs) rest r r'
  | ra_known f F v fs rest r r' :
      c_ok v → reads_as F fs rest (m_set f v r) r' →
      reads_as (f :: F) ((c_type v, m_tag f, c_body v) :: fs) rest r r'
  | ra_missing f F fs rest r r' :
      m_require f = false → c_ok (m_get f r) → Forall (λ x, m_tag f < x.1.2) fs →
      reads_as F fs rest (m_set f (m_get f r) r) r' →
      reads_as (f :: F) fs rest r r'.

(** What ends the members of a structure: the end of the buffer, or the end
    head. *)
Definition struct_end (post : list Z) : Prop :=
  post = [] ∨ ∃ tag rest, post = head_bytes TarsHeadeStructEnd tag ++ rest ∧ is_tag tag.

Lemma struct_end_stops tag post : struct_end post → stops tag post.
Proof.
  intros [-> | (t & rest & -> & Ht)]; [by left | right].
  exists TarsHeadeStructEnd, t, rest. unfold is_tag in Ht. split_and!; try done; lia.
Qed.

Lemma fields_stop tag fs post :
  Forall skippable fs → Forall (λ x, tag < x.1.2) fs → struct_end post → stops tag (wires fs ++ post).
Proof.
  intros Hs Ht Hp. destruct Hs as [|[[ty t] body] fs' Hf Hs]; [by apply struct_end_stops |].
  apply Forall_cons in Ht as [Ht _]. right. exists ty, t, (body ++ wires fs' ++ post).
  destruct Hf as (?&?&Htag&_). unfold is_tag in Htag. unfold wires; cbn [map concat wire]. rewrite <- !app_assoc.
  split_and!; try done; try lia. by right.
Qed.

(** One member, wherever it is among the fields. *)
Section read_member.
Context {R : Type}.
Implicit Types (f : member R) (F : list (member R)) (r : R).

(** The reader of a field may start in front of fields with smaller tags. *)
Lemma read_past {A} (c : codec A) `{!CodecLaws c} d tag req ty t bs rest pre :
  bytes_ok (pre ++ wire (ty, t, bs) ++ rest) → skippable (ty, t, bs) → t < tag → is_tag tag →
  c_read c d tag req (at_ pre (wire (ty, t, bs) ++ rest)) =
  c_read c d tag req (at_ (pre ++ wire (ty, t, bs)) rest).
Proof.
  intros Hb (?&?&Ht&?) Hlt Htag. unfold is_tag in *. cbn [wire] in *. rewrite <- !app_assoc in *.
  apply law_over; (done || lia).
Qed.

Lemma reads_as_sound F fs rest r r' :
  reads_as F fs rest r r' →
  Forall (λ f, is_tag (m_tag f)) F → Forall skippable fs →
  ∃ used, fs = used ++ rest ∧ ∀ pre post, struct_end post → bytes_ok (pre ++ wires fs ++ post) →
    readMembers F r (at_ pre (wires fs ++ post)) = (Ok r', at_ (pre ++ wires used) (wires rest ++ post)).
Proof.
  intros Hra HF. induction Hra as [fs r|f F ty t bs fs rest r r' Hlt Hra IH
    |f F v fs rest r r' Hv Hra IH|f F fs rest r r' Hreq Hok Hgt Hra IH]; intros Hfs.
  - exists []. split; [done |]. intros pre post Hp Hb. cbn. by rewrite app_nil_r.
  - apply Forall_cons in Hfs as [Hf Hfs]. destruct (IH HF Hfs) as (used & -> & Hr).
    exists ((ty, t, bs) :: used). split; [done |]. intros pre post Hp Hb.
    apply Forall_cons in HF as [Htag _].
    unfold wires in *. cbn [map concat] in *. rewrite <- !app_assoc in Hb |- *.
    rewrite (app_assoc pre). rewrite <- (Hr (pre ++ wire (ty, t, bs))) by (done || by rewrite <- app_assoc).
    cbn [readMembers]. unfold bind. rewrite (read_past (m_codec f)); done.
  - apply Forall_cons in Hfs as [Hf Hfs]. apply Forall_cons in HF as [Htag HF].
    destruct (IH HF Hfs) as (used & -> & Hr).
    exists ((c_type v, m_tag f, c_body v) :: used). split; [done |]. intros pre post Hp Hb.
    unfold wires in *. cbn [map concat] in *. rewrite <- !app_assoc in Hb |- *.
    rewrite (app_assoc pre). rewrite <- (Hr (pre ++ wire (c_type v, m_tag f, c_body v)))
      by (done || by rewrite <- app_assoc).
    exact (bind_Ok _ _ _ _ _ (law_read (m_get f r) v (m_tag f) (m_require f) Hv Htag pre _ Hb I)).
  - apply Forall_cons in HF as [Htag HF]. destruct (IH HF Hfs) as (used & -> & Hr).
    exists used. split; [done |]. intros pre post Hp Hb. rewrite <- Hr by done.
    cbn [readMembers]. rewrite Hreq. unfold bind.
    pose proof (law_absent (m_get f r) (m_tag f) Hok Htag pre (wires (used ++ rest) ++ post) Hb) as E.
    rewrite app_nil_r, app_nil_l in E. rewrite E; [done |]. by apply fields_stop.
Qed.
End read_member.

(** * Round trip of a structure *)
Section roundtrip.
Context {R : Type} (F0 : list (member R)) `{!StructLaws F0} (cd : bool).
Implicit Types (f g : member R) (F : list (member R)) (r : R).

(** Two members with the same tag are the same member. *)
Lemma sorted_tail_tags f F : StronglySorted (λ f g, m_tag f < m_tag g) (f :: F) →
  ∀ g, g ∈ F → m_tag f ≠ m_tag g.
Proof.
  intros Hs. inversion_clear Hs as [|? ? _ Hlt]. intros g Hg.
  rewrite Forall_forall in Hlt. specialize (Hlt g Hg). lia.
Qed.

(** The members of [F] copied from one object to another. *)
Fixpoint copy_members F (r ra : R) : R :=
  match F with
  | [] => ra
  | f :: F' => copy_members F' r (m_set f (m_get f r) ra)
  end.

Lemma get_copy_other F r ra g :
  (∀ f, f ∈ F → f ∈ F0 ∧ m_tag f ≠ m_tag g) → g ∈ F0 → m_get g (copy_members F r ra) = m_get g ra.
Proof.
  intros HF Hg. revert ra. induction F as [|f F IH]; intros ra; [done |]. cbn.
  rewrite IH by set_solver. destruct (HF f) as [??]; [set_solver |]. by apply sl_indep.
Qed.

Lemma get_copy F r ra g :
  StronglySorted (λ f g, m_tag f < m_tag g) F → F ⊆ F0 → g ∈ F →
  m_get g (copy_members F r ra) = m_get g r.
Proof.
  intros Hs HF. revert ra. induction F as [|f F IH]; intros ra Hg; [set_solver |]. cbn.
  pose proof (sorted_tail_tags f F Hs) as Hne. inversion_clear Hs.
  apply elem_of_cons in Hg as [-> | Hg]; [|apply IH; set_solver].
  rewrite get_copy_other by set_solver. apply sl_get_set. set_solver.
Qed.

Lemma get_reset_other F r g :
  (∀ f, f ∈ F → f ∈ F0 ∧ m_tag f ≠ m_tag g) → g ∈ F0 → m_get g (resetDefautlt F r) = m_get g r.
Proof.
  intros HF Hg. revert r. induction F as [|f F IH]; intros r; [done |]. cbn.
  rewrite IH by set_solver. destruct (HF f) as [??]; [set_solver |]. by apply sl_indep.
Qed.

Lemma get_reset F r g :
  StronglySorted (λ f g, m_tag f < m_tag g) F → F ⊆ F0 → g ∈ F →
  ∃ v, m_get g (resetDefautlt F r) = m_reset g v.
Proof.
  intros Hs HF. revert r. induction F as [|f F IH]; intros r Hg; [set_solver |]. cbn.
  pose proof (sorted_tail_tags f F Hs) as Hne. inversion_clear Hs.
  apply elem_of_cons in Hg as [-> | Hg]; [|apply IH; set_solver].
  rewrite get_reset_other by set_solver. eexists. apply sl_get_set. set_solver.
Qed.

(** Reading back the fields of [r] copies its members. *)
Lemma reads_as_copy F r ra :
  StronglySorted (λ f g, m_tag f < m_tag g) F → F ⊆ F0 → struct_ok F r →
  (∀ f, f ∈ F → ∃ v, m_get f ra = m_reset f v) →
  reads_as F (struct_fields cd F r) [] ra (copy_members F r ra).
Proof.
  intros Hs HF. revert ra. induction F as [|f F IH]; intros ra Hok Hre; [constructor |].
  apply Forall_cons in Hok as [Hf Hok]. pose proof (sorted_tail_tags f F Hs) as Hne.
  inversion_clear Hs as [|? ? Hs' Hlt].
  assert (Hre' : ∀ x g, g ∈ F → ∃ v, m_get g (m_set f x ra) = m_reset g v).
  { intros x g Hg. destruct (Hre g) as [v E]; [set_solver |]. exists v. rewrite <- E.
    apply sl_indep; set_solver. }
  unfold struct_fields. cbn. destruct (omitted cd f r) eqn:Ho; cbn.
  - assert (m_get f ra = m_get f r ∧ m_require f = false) as [E Hreq].
    { unfold omitted in Ho. destruct (m_differs f) as [p|] eqn:Hp; [|done].
      apply andb_true_iff in Ho as [[_ Hq%negb_true_iff]%andb_true_iff Hd%negb_true_iff].
      destruct (Hre f) as [v ->]; [set_solver |].
      split; [|done]. eapply sl_differs; [set_solver | done | done]. }
    rewrite <- E. apply ra_missing; [done | by rewrite E | | apply IH; set_solver].
    clear -Hlt. induction Hlt as [|g F Hg HF IH]; [constructor |]. cbn.
    destruct (omitted _ _ _); [done |]. by constructor.
  - apply ra_known; [done |]. apply IH; set_solver.
Qed.

(** ** What a structure looks like to the code around it *)

Definition struct_body r : list Z :=
  wires (struct_fields cd F0 r) ++ head_bytes TarsHeadeStructEnd 0.

(** [readFrom] after [writeTo] restores the object, whatever the object read
    into held before. *)
Lemma readFrom_writeTo r r0 pre post :
  struct_ok F0 r → struct_end post → bytes_ok (pre ++ wires (struct_fields cd F0 r) ++ post) →
  readFrom F0 r0 (at_ pre (wires (struct_fields cd F0 r) ++ post)) =
  (Ok r, at_ (pre ++ wires (struct_fields cd F0 r)) post).
Proof.
  intros Hok Hp Hb. set (ra := resetDefautlt F0 r0).
  assert (Hra : reads_as F0 (struct_fields cd F0 r) [] ra (copy_members F0 r ra)).
  { apply reads_as_copy; [apply sl_sorted | done | done |].
    intros f Hf. by apply get_reset; [apply sl_sorted |..]. }
  destruct (reads_as_sound _ _ _ _ _ Hra) as (used & E & Hread).
  { apply sl_tags. }
  { apply skippable_struct_fields; [done | apply sl_tags]. }
  rewrite app_nil_r in E. subst used. unfold readFrom. fold ra. rewrite Hread by done.
  cbn [wires map concat app]. do 2 f_equal.
  apply (sl_ext (F := F0)), Forall_forall. intros f Hf. by apply get_copy; [apply sl_sorted |..].
Qed.

#[export] Program Instance struct_laws : CodecLaws (codec_struct cd F0) :=
  {| c_ok := struct_ok F0; c_type := λ _, TarsHeadeStructBegin; c_body := struct_body |}.
Next Obligation. done. Qed.
Next Obligation.
  intros r Hr. apply Forall_app; split; [|by apply bytes_ok_head].
  apply bytes_ok_struct_fields; [done | apply sl_tags].
Qed.
Next Obligation.
  intros r tag S HS Hr Ht. cbn [c_write codec_struct]. unfold write_struct, struct_body.
  apply writes_bind; [by apply writes_head |]. apply writes_bind; [|by apply writes_head].
  apply writes_struct_fields; [done | apply sl_tags].
Qed.
Next Obligation.
  intros d r tag req Hr Ht. apply reads_field_found; [done..|]. unfold struct_body.
  intros pre post Hb _. rewrite <- app_assoc in Hb |- *. cbn [negb Z.eqb TarsHeadeStructBegin].
  change (negb _) with false. cbv iota.
  rewrite (bind_Ok _ _ _ _ _ (readFrom_writeTo r d pre (head_bytes TarsHeadeStructEnd 0 ++ post) Hr
    ltac:(right; by exists 0, post) Hb)).
  rewrite app_assoc in Hb.
  pose proof (reads_skip_struct [] 0 (Forall_nil_2 _) ltac:(done) _ post Hb I) as E.
  unfold skipToStructEnd, bind. cbn [wires map concat app] in E. rewrite E.
  unfold ret. by rewrite <- !app_assoc.
Qed.
Next Obligation. intros; apply reads_field_absent. Qed.
Next Obligation. intros; by apply field_missing. Qed.
Next Obligation. intros; by apply field_over. Qed.
Next Obligation.
  intros r Hr. apply reads_run_skip. cbn.
  apply reads_skip_struct; [|done]. apply skippable_struct_fields; [done | apply sl_tags].
Qed.
End roundtrip.

(** Reading a structure whose fields are not exactly the reader's members. *)
Lemma read_struct_fields {R} (F : list (member R)) fs rest r r' tag t req :
  Forall (λ f, is_tag (m_tag f)) F → Forall skippable fs → is_tag tag → is_tag t →
  reads_as F fs rest (resetDefautlt F r) r' →
  reads (read_struct (readFrom F) r tag req)
    (head_bytes TarsHeadeStructBegin tag ++ wires fs ++ head_bytes TarsHeadeStructEnd t) r'.
Proof.
  intros HF Hfs Htag Ht Hra. apply reads_field_found; [done..|].
  intros pre post Hb _. change (negb _) with false. cbv iota.
  destruct (reads_as_sound F fs rest _ _ Hra HF Hfs) as (used & -> & Hread).
  rewrite <- app_assoc in Hb |- *.
  specialize (Hread pre (head_bytes TarsHeadeStructEnd t ++ post) ltac:(right; by exists t, post) Hb).
  unfold readFrom. rewrite (bind_Ok _ _ _ _ _ Hread).
  apply Forall_app in Hfs as [Hused Hrest].
  assert (Ew : wires (used ++ rest) = wires used ++ wires rest).
  { unfold wires. by rewrite map_app, concat_app. }
  rewrite Ew, <- !app_assoc in Hb.
  pose proof (reads_skip_struct rest t Hrest Ht (pre ++ wires used) post) as E.
  rewrite <- !app_assoc in E. specialize (E Hb I).
  unfold skipToStructEnd, bind. rewrite E, Ew. unfold ret. by rewrite <- !app_assoc.
Qed.
