(* ===== verification/Packets.v ===== *)
(** The two packets of the TARS protocol, [RequestPacket] and [ResponsePacket] of
    [src/servant/tup/RequestF.tars], as the generated structures: their members,
    and the proof that they satisfy the laws of [TarsStruct]. *)
From stdpp Require Import prelude list.
From Stdlib Require Import ZArith Lia Sorting.Sorted.
From S2P Require Import Prelude Bytes TarsBuffer TarsOutput TarsInput TarsSkip TarsWire.
From S2P Require Import TarsCodec TarsContainers TarsStruct.

(** The order of [std::string]: byte by byte, a prefix first. *)
Fixpoint string_lt (s t : list Z) : bool :=
  match s, t with
  | _, [] => false
  | [], _ :: _ => true
  | a :: s', b :: t' => if a <? b then true else if b <? a then false else string_lt s' t'
  end.

Definition codec_string_map : codec (list (list Z * list Z)) :=
  codec_map [] [] string_lt codec_string codec_string.

#[export] Instance string_map_laws : CodecLaws codec_string_map := map_laws [] [] string_lt codec_string codec_string.

(** * Kinds of members, by what the generator emits for them *)
Section members.
Context {R : Type} (tag : Z) (require : bool).

Definition member_Short (def : Z) (get : R → Z) (set : Z → R → R) : member R :=
  Member codec_Short tag require get set (λ _, def) (Some (λ v, negb (v =? def))).
Definition member_Char (def : Z) (get : R → Z) (set : Z → R → R) : member R :=
  Member codec_Char tag require get set (λ _, def) (Some (λ v, negb (v =? def))).
Definition member_Int32 (def : Z) (get : R → Z) (set : Z → R → R) : member R :=
  Member codec_Int32 tag require get set (λ _, def) (Some (λ v, negb (v =? def))).
Definition member_string (def : list Z) (get : R → list Z) (set : list Z → R → R) : member R :=
  Member codec_string tag require get set (λ _, def) (Some (λ v, negb (bool_decide (v = def)))).
Definition member_bytes (get : R → list Z) (set : list Z → R → R) : member R :=
  Member codec_bytes tag require get set (λ _, []) (Some (λ v, 0 <? zlen v)).
Definition member_map (get : R → list (list Z * list Z)) (set : list (list Z * list Z) → R → R) : member R :=
  Member codec_string_map tag require get set (λ _, []) (Some (λ v, 0 <? zlen v)).
End members.

(** What the laws need of one member on its own. *)
Definition member_good {R} (f : member R) : Prop :=
  is_tag (m_tag f) ∧ (∀ v r, m_get f (m_set f v r) = v) ∧ (∀ v, c_ok (m_reset f v)) ∧
  (∀ p v v0, m_differs f = Some p → p v = false → m_reset f v0 = v).

Section good.
Context {R : Type} (tag : Z) (require : bool).

Lemma good_int (c : codec Z) `{!CodecLaws c} def (get : R → Z) set :
  is_tag tag → c_ok def → (∀ v r, get (set v r) = v) →
  member_good (Member c tag require get set (λ _, def) (Some (λ v, negb (v =? def)))).
Proof.
  intros Ht Hd Hgs. split_and!; [done.. |]. cbn. intros p v v0 [= <-] Hp.
  by apply negb_false_iff, Z.eqb_eq in Hp.
Qed.

Lemma good_string def (get : R → list Z) set :
  is_tag tag → string_ok def → (∀ v r, get (set v r) = v) →
  member_good (member_string tag require def get set).
Proof.
  intros Ht Hd Hgs. split_and!; [done.. |]. cbn. intros p v v0 [= <-] Hp.
  by apply negb_false_iff, bool_decide_eq_true in Hp.
Qed.

Lemma empty_differs {A} (v v0 : list A) : (0 <? zlen v) = false → [] = v.
Proof. intros H%Z.ltb_ge. destruct v; [done | cbn in H; lia]. Qed.

Lemma good_bytes (get : R → list Z) set :
  is_tag tag → (∀ v r, get (set v r) = v) → member_good (member_bytes tag require get set).
Proof.
  intros Ht Hgs. split_and!; [done.. | | cbn; intros p v v0 [= <-]; by apply empty_differs].
  intros v. split; [constructor | done].
Qed.

Lemma good_map (get : R → list (list Z * list Z)) set :
  is_tag tag → (∀ v r, get (set v r) = v) → member_good (member_map tag require get set).
Proof.
  intros Ht Hgs. split_and!; [done.. | | cbn; intros p v v0 [= <-]; by apply empty_differs].
  intros v. split_and!; try constructor; done.
Qed.
End good.

(** The laws of a structure, from those of its members. *)
Lemma struct_laws_of {R} (F : list (member R)) :
  Forall member_good F → StronglySorted (λ f g, m_tag f < m_tag g) F →
  (∀ f g v r, f ∈ F → g ∈ F → m_tag f ≠ m_tag g → m_get g (m_set f v r) = m_get g r) →
  (∀ r r', Forall (λ f, m_get f r = m_get f r') F → r = r') →
  StructLaws F.
Proof.
  intros HF Hs Hi He. pose proof (proj1 (Forall_forall _ _) HF) as HF'.
  constructor; [done | | by intros; apply HF' | done | done | by intros; apply HF' | ].
  - eapply Forall_impl; [exact HF |]. by intros f (?&_).
  - intros f p v v0 Hf. by apply HF'.
Qed.

(** Checks the pairs of members one by one. *)
Ltac members_apart :=
  intros f g v r Hf Hg; revert v;
  repeat (apply elem_of_cons in Hf as [-> | Hf]); [.. | by apply not_elem_of_nil in Hf];
  repeat (apply elem_of_cons in Hg as [-> | Hg]); try (by apply not_elem_of_nil in Hg);
  cbn; intros; (done || congruence).

(** * RequestPacket *)
Module RequestPacket.
Record t := mk {
  iVersion : Z; cPacketType : Z; iMessageType : Z; iRequestId : Z;
  sServantName : list Z; sFuncName : list Z; sBuffer : list Z; iTimeout : Z;
  context : list (list Z * list Z); status : list (list Z * list Z)
}.

Definition empty : t := mk 0 0 0 0 [] [] [] 0 [] [].

Definition fields : list (member t) := [
  member_Short 1 true 0 iVersion
    (λ v r, mk v (cPacketType r) (iMessageType r) (iRequestId r) (sServantName r) (sFuncName r) (sBuffer r) (iTimeout r) (context r) (status r));
  member_Char 2 true 0 cPacketType
    (λ v r, mk (iVersion r) v (iMessageType r) (iRequestId r) (sServantName r) (sFuncName r) (sBuffer r) (iTimeout r) (context r) (status r));
  member_Int32 3 true 0 iMessageType
    (λ v r, mk (iVersion r) (cPacketType r) v (iRequestId r) (sServantName r) (sFuncName r) (sBuffer r) (iTimeout r) (context r) (status r));
  member_Int32 4 true 0 iRequestId
    (λ v r, mk (iVersion r) (cPacketType r) (iMessageType r) v (sServantName r) (sFuncName r) (sBuffer r) (iTimeout r) (context r) (status r));
  member_string 5 true [] sServantName
    (λ v r, mk (iVersion r) (cPacketType r) (iMessageType r) (iRequestId r) v (sFuncName r) (sBuffer r) (iTimeout r) (context r) (status r));
  member_string 6 true [] sFuncName
    (λ v r, mk (iVersion r) (cPacketType r) (iMessageType r) (iRequestId r) (sServantName r) v (sBuffer r) (iTimeout r) (context r) (status r));
  member_bytes 7 true sBuffer
    (λ v r, mk (iVersion r) (cPacketType r) (iMessageType r) (iRequestId r) (sServantName r) (sFuncName r) v (iTimeout r) (context r) (status r));
  member_Int32 8 true 0 iTimeout
    (λ v r, mk (iVersion r) (cPacketType r) (iMessageType r) (iRequestId r) (sServantName r) (sFuncName r) (sBuffer r) v (context r) (status r));
  member_map 9 true context
    (λ v r, mk (iVersion r) (cPacketType r) (iMessageType r) (iRequestId r) (sServantName r) (sFuncName r) (sBuffer r) (iTimeout r) v (status r));
  member_map 10 true status
    (λ v r, mk (iVersion r) (cPacketType r) (iMessageType r) (iRequestId r) (sServantName r) (sFuncName r) (sBuffer r) (iTimeout r) (context r) v)
].

#[export] Instance laws : StructLaws fields.
Proof.
  unfold fields. apply struct_laws_of.
  - repeat apply Forall_cons_2; [..| apply Forall_nil_2];
      (apply good_int || apply good_string || apply good_bytes || apply good_map); done.
  - repeat (apply SSorted_cons || apply SSorted_nil); repeat (apply Forall_cons_2 || apply Forall_nil_2); cbn; lia.
  - members_apart.
  - intros [] []. unfold fields. rewrite !Forall_cons. cbn. by intros (->&->&->&->&->&->&->&->&->&->&_).
Qed.
End RequestPacket.

(** * ResponsePacket *)
Module ResponsePacket.
Record t := mk {
  iVersion : Z; cPacketType : Z; iRequestId : Z; iMessageType : Z; iRet : Z;
  sBuffer : list Z; status : list (list Z * list Z);
  sResultDesc : list Z; context : list (list Z * list Z)
}.

Definition empty : t := mk 0 0 0 0 0 [] [] [] [].

Definition fields : list (member t) := [
  member_Short 1 true 0 iVersion
    (λ v r, mk v (cPacketType r) (iRequestId r) (iMessageType r) (iRet r) (sBuffer r) (status r) (sResultDesc r) (context r));
  member_Char 2 true 0 cPacketType
    (λ v r, mk (iVersion r) v (iRequestId r) (iMessageType r) (iRet r) (sBuffer r) (status r) (sResultDesc r) (context r));
  member_Int32 3 true 0 iRequestId
    (λ v r, mk (iVersion r) (cPacketType r) v (iMessageType r) (iRet r) (sBuffer r) (status r) (sResultDesc r) (context r));
  member_Int32 4 true 0 iMessageType
    (λ v r, mk (iVersion r) (cPacketType r) (iRequestId r) v (iRet r) (sBuffer r) (status r) (sResultDesc r) (context r));
  member_Int32 5 true 0 iRet
    (λ v r, mk (iVersion r) (cPacketType r) (iRequestId r) (iMessageType r) v (sBuffer r) (status r) (sResultDesc r) (context r));
  member_bytes 6 true sBuffer
    (λ v r, mk (iVersion r) (cPacketType r) (iRequestId r) (iMessageType r) (iRet r) v (status r) (sResultDesc r) (context r));
  member_map 7 true status
    (λ v r, mk (iVersion r) (cPacketType r) (iRequestId r) (iMessageType r) (iRet r) (sBuffer r) v (sResultDesc r) (context r));
  member_string 8 false [] sResultDesc
    (λ v r, mk (iVersion r) (cPacketType r) (iRequestId r) (iMessageType r) (iRet r) (sBuffer r) (status r) v (context r));
  member_map 9 false context
    (λ v r, mk (iVersion r) (cPacketType r) (iRequestId r) (iMessageType r) (iRet r) (sBuffer r) (status r) (sResultDesc r) v)
].

#[export] Instance laws : StructLaws fields.
Proof.
  unfold fields. apply struct_laws_of.
  - repeat apply Forall_cons_2; [..| apply Forall_nil_2];
      (apply good_int || apply good_string || apply good_bytes || apply good_map); done.
  - repeat (apply SSorted_cons || apply SSorted_nil); repeat (apply Forall_cons_2 || apply Forall_nil_2); cbn; lia.
  - members_apart.
  - intros [] []. unfold fields. rewrite !Forall_cons. cbn. by intros (->&->&->&->&->&->&->&->&->&_).
Qed.
End ResponsePacket.

#[export] Existing Instance RequestPacket.laws.
#[export] Existing Instance ResponsePacket.laws.
