(* ===== verification/NetBuffer.v ===== *)
(** [TC_NetWorkBuffer] and its [Buffer], from [src/util/src/tc_network_buffer.cpp]
    and [src/util/include/util/tc_network_buffer.h]: blocks of memory behind shared
    pointers, a list of them, and the operations of the protocol parsers.  The
    operations are shown to implement a flat queue of bytes. *)
From stdpp Require Import prelude gmap list.
From Stdlib Require Import ZArith Lia.
From S2P Require Import Prelude Bytes.

(** The exceptions of this component. *)
Inductive net_error : Type := TC_NetWorkBuffer_Exception.

Inductive PACKET_TYPE : Type := PACKET_LESS | PACKET_FULL | PACKET_FULL_CLOSE | PACKET_ERR.

(** The values of the enumeration. *)
Definition PACKET_TYPE_value (p : PACKET_TYPE) : Z :=
  match p with PACKET_LESS => 0 | PACKET_FULL => 1 | PACKET_FULL_CLOSE => 2 | PACKET_ERR => -1 end.

(** * TC_NetWorkBuffer::Buffer *)
Module Buffer.
(** [_buffer] is [None] for [NULL]; the bytes of a new block are indeterminate
    in C++ and zero here. *)
Record t := mk { _buffer : option (list Z); _readIdx : Z; _writeIdx : Z; _capacity : Z }.

(** [Buffer()]. *)
Definition new : t := mk None 0 0 (1024 * 8).

Definition is_NULL (b : t) : bool := match _buffer b with None => true | Some _ => false end.

Abbreviation M A := (prog t net_error A).

Definition fresh_block (n : Z) : list Z := replicate (Z.to_nat n) 0.

Definition clear : M unit := modify (λ b, mk (_buffer b) 0 0 (_capacity b)).

Definition length (b : t) : Z := wrapU 64 (_writeIdx b - _readIdx b).
Definition capacity (b : t) : Z := _capacity b.
Definition left (b : t) : Z := wrapU 64 (_capacity b - _writeIdx b).
Definition readIdx (b : t) : Z := _readIdx b.
Definition writeIdx (b : t) : Z := _writeIdx b.

Definition empty : M bool := λ b,
  if _readIdx b <=? _writeIdx b then (Ok (_readIdx b =? _writeIdx b), b) else (AssertFailed, b).

(** [memcpy(_buffer + off, bytes, n)]. *)
Definition poke (off : Z) (bytes : list Z) : M unit := λ b,
  match _buffer b with
  | Some m =>
    if (0 <=? off) && (off + zlen bytes <=? zlen m)
    then (Ok tt, mk (Some (take (Z.to_nat off) m ++ bytes ++ drop (Z.to_nat off + List.length bytes) m))
                    (_readIdx b) (_writeIdx b) (_capacity b))
    else (OutOfBounds, b)
  | None => match bytes with [] => (Ok tt, b) | _ => (OutOfBounds, b) end
  end.

(** [n] bytes read from [buffer()], that is [_buffer + _readIdx]. *)
Definition peek (n : Z) (b : t) : option (list Z) :=
  match _buffer b with
  | Some m => mem_read m (_readIdx b) n
  | None => if n =? 0 then Some [] else None
  end.

Definition peek_bytes (n : Z) : M (list Z) := λ b,
  match peek n b with Some bs => (Ok bs, b) | None => (OutOfBounds, b) end.

Definition set_idx (r w : Z) : M unit := modify (λ b, mk (_buffer b) r w (_capacity b)).
Definition set_block (m : option (list Z)) : M unit :=
  modify (λ b, mk m (_readIdx b) (_writeIdx b) (_capacity b)).
Definition set_capacity (n : Z) : M unit := modify (λ b, mk (_buffer b) (_readIdx b) (_writeIdx b) n).

Definition alloc (len : Z) : M unit :=
  set_idx 0 0 ;;;
  let* b := get_st in
  (if is_NULL b then set_capacity len else ret tt) ;;;
  let* b := get_st in
  (if _capacity b <? len then set_capacity len ;;; set_block None else ret tt) ;;;
  let* b := get_st in
  if is_NULL b then set_block (Some (fresh_block (_capacity b))) else ret tt.

Definition compact : M unit :=
  let* b := get_st in
  (if is_NULL b then alloc (_capacity b) else ret tt) ;;;
  let* b := get_st in
  if negb (_readIdx b =? 0) then
    (let* bs := peek_bytes (length b) in
     poke 0 bs ;;; set_idx 0 (length b))
  else ret tt.

Definition expansion (len : Z) : M unit :=
  let* b := get_st in
  if _capacity b <? len then
    ((if is_NULL b then set_block (Some (fresh_block len))
      else if 0 <? length b then
        (let* bs := peek_bytes (length b) in
         set_block (Some (fresh_block len)) ;;; poke 0 bs ;;; set_idx 0 (length b))
      else set_block (Some (fresh_block len))) ;;;
     set_capacity len)
  else compact.

Definition addBuffer (buff : list Z) : M unit :=
  let len := zlen buff in
  let* b := get_st in
  (if is_NULL b then alloc len else ret tt) ;;;
  let* b := get_st in
  if len <=? left b then
    poke (_writeIdx b) buff ;;; set_idx (_readIdx b) (wrapU 64 (_writeIdx b + len))
  else if wrapU 64 (len + length b) <=? _capacity b then
    (let* bs := peek_bytes (length b) in
     poke 0 bs ;;; poke (length b) buff ;;; set_idx 0 (wrapU 64 (length b + len)))
  else
    (let* bs := peek_bytes (length b) in
     set_block (Some (fresh_block (wrapU 64 (length b + len)))) ;;;
     poke 0 bs ;;; poke (length b) buff ;;;
     set_idx 0 (wrapU 64 (length b + len)) ;;; set_capacity (wrapU 64 (length b + len))).

Definition replaceBuffer (buff : option (list Z)) (len : Z) : M unit :=
  put_st (mk buff 0 len len).

Definition setBuffer (buff : list Z) : M unit :=
  let len := zlen buff in
  let* b := get_st in
  (if is_NULL b || (_capacity b <=? len) then alloc len else ret tt) ;;;
  set_idx 0 0 ;;;
  poke 0 buff ;;;
  set_idx 0 len.

Definition at_ (offset : Z) : M Z := λ b,
  if _writeIdx b <=? wrapU 64 (_readIdx b + offset) then (Throw TC_NetWorkBuffer_Exception, b)
  else match _buffer b with
       | Some m => match mem_read m (_readIdx b + offset) 1 with
                   | Some [x] => (Ok x, b)
                   | _ => (OutOfBounds, b)
                   end
       | None => (OutOfBounds, b)
       end.

(** The parameter is a [uint32_t]. *)
Definition addReadIdx (len : Z) : M unit := λ b,
  let len := wrapU 32 len in
  if _writeIdx b <? wrapU 64 (_readIdx b + len) then (Throw TC_NetWorkBuffer_Exception, b)
  else set_idx (wrapU 64 (_readIdx b + len)) (_writeIdx b) b.

Definition addWriteIdx (len : Z) : M unit := λ b,
  let len := wrapU 32 len in
  if left b <? len then (Throw TC_NetWorkBuffer_Exception, b)
  else set_idx (_readIdx b) (wrapU 64 (_writeIdx b + len)) b.

(** ** Invariant and contents *)

Definition wf (b : t) : Prop :=
  0 ≤ _readIdx b ≤ _writeIdx b ∧ _writeIdx b ≤ _capacity b < 2 ^ 62 ∧
  match _buffer b with
  | Some m => zlen m = _capacity b
  | None => _writeIdx b = 0
  end.

Definition content (b : t) : list Z :=
  match _buffer b with
  | Some m => take (Z.to_nat (_writeIdx b - _readIdx b)) (drop (Z.to_nat (_readIdx b)) m)
  | None => []
  end.

(** Takes the conditions of [wf] apart and removes the wrap-arounds. *)
Ltac crush_wf :=
  unfold wf, length, left, capacity in *; cbn in *;
  repeat match goal with
  | H : _ ∧ _ |- _ => destruct H
  | H : context [wrapU 64 ?x] |- _ => rewrite (wrapU_id 64 x) in H by (unfold in_U; lia)
  | |- context [wrapU 64 ?x] => rewrite (wrapU_id 64 x) by (unfold in_U; lia)
  end.

Lemma length_content b : wf b → zlen (content b) = _writeIdx b - _readIdx b.
Proof.
  destruct b as [[m|] r w c]; unfold content; crush_wf; [|lia].
  rewrite length_take, length_drop. lia.
Qed.

Lemma length_spec b : wf b → length b = zlen (content b).
Proof. intros Hb. rewrite length_content by done. destruct b; crush_wf. done. Qed.

Lemma left_spec b : wf b → left b = _capacity b - _writeIdx b.
Proof. destruct b; intros; crush_wf. done. Qed.

(** Reading from the front. *)
Lemma peek_spec b n : wf b → 0 ≤ n ≤ zlen (content b) → peek n b = Some (take (Z.to_nat n) (content b)).
Proof.
  intros Hb Hn. rewrite length_content in Hn by done. unfold content. destruct b as [[m|] r w c]; crush_wf.
  - unfold peek; cbn. unfold mem_read.
    replace (_ && _ && _) with true by (symmetry; rewrite !andb_true_iff, !Z.leb_le; lia).
    f_equal. rewrite take_take. f_equal. lia.
  - unfold peek; cbn. replace (n =? 0) with true by lia. by rewrite take_nil.
Qed.

Lemma peek_all b : wf b → peek_bytes (length b) b = (Ok (content b), b).
Proof.
  intros Hb. unfold peek_bytes. rewrite length_spec, peek_spec by (done || lia).
  by rewrite Nat2Z.id, firstn_all.
Qed.

(** ** What each operation does to the contents *)

#[local] Arguments content : simpl never.
#[local] Arguments length : simpl never.
#[local] Arguments peek_bytes : simpl never.
#[local] Arguments poke : simpl never.

Definition splice (off : Z) (bs m : list Z) : list Z :=
  take (Z.to_nat off) m ++ bs ++ drop (Z.to_nat off + List.length bs) m.

Lemma poke_eq off bs m r w c : 0 ≤ off → off + zlen bs ≤ zlen m →
  poke off bs (mk (Some m) r w c) = (Ok tt, mk (Some (splice off bs m)) r w c).
Proof.
  intros. unfold poke; cbn.
  by replace ((0 <=? off) && _) with true by (symmetry; rewrite andb_true_iff, !Z.leb_le; lia).
Qed.

Lemma length_splice off bs m : 0 ≤ off → off + zlen bs ≤ zlen m → zlen (splice off bs m) = zlen m.
Proof. intros. unfold splice. rewrite !length_app, length_take, length_drop. lia. Qed.

(** The part of a block before and including what was stored. *)
Lemma take_splice off bs m : 0 ≤ off → off ≤ zlen m →
  take (Z.to_nat (off + zlen bs)) (splice off bs m) = take (Z.to_nat off) m ++ bs.
Proof.
  intros. unfold splice. rewrite app_assoc. rewrite take_app_length'; [done |].
  rewrite length_app, length_take. lia.
Qed.

Lemma fresh_length n : 0 ≤ n → zlen (fresh_block n) = n.
Proof. intros. unfold fresh_block. rewrite length_replicate. lia. Qed.

(** The contents as the part of the block between the indices. *)
Lemma content_eq m r w c : 0 ≤ r ≤ w →
  content (mk (Some m) r w c) = drop (Z.to_nat r) (take (Z.to_nat w) m).
Proof.
  intros. unfold content; cbn. rewrite skipn_firstn_comm. f_equal. lia.
Qed.

Lemma content_at_0 m w c : content (mk (Some m) 0 w c) = take (Z.to_nat w) m.
Proof. unfold content; cbn. by rewrite Z.sub_0_r. Qed.

Lemma take_splice_0 bs m : zlen bs ≤ zlen m → take (List.length bs) (splice 0 bs m) = bs.
Proof. intros. pose proof (take_splice 0 bs m) as E. rewrite Z.add_0_l, Nat2Z.id in E. apply E; lia. Qed.

(** Runs a sequence of the primitive steps. *)
Ltac run := unfold bind, get_st, set_idx, set_block, set_capacity, modify, ret; cbn.

Lemma alloc_spec len b : wf b → 0 ≤ len < 2 ^ 62 →
  ∃ m c, alloc len b = (Ok tt, mk (Some m) 0 0 c) ∧ len ≤ c ∧ wf (mk (Some m) 0 0 c) ∧
    (_buffer b = None → c = len).
Proof.
  intros Hb Hl. unfold alloc. destruct b as [[m|] r w c]; crush_wf; run.
  - destruct (Z.ltb_spec c len); cbn.
    + exists (fresh_block len), len. crush_wf. rewrite fresh_length by lia. split_and!; (done || lia).
    + exists m, c. split_and!; (done || lia).
  - rewrite Z.ltb_irrefl. cbn. exists (fresh_block len), len. rewrite fresh_length by lia.
    split_and!; (done || lia).
Qed.

Lemma compact_spec b : wf b →
  ∃ b', compact b = (Ok tt, b') ∧ wf b' ∧ content b' = content b ∧
    _readIdx b' = 0 ∧ _capacity b' = _capacity b ∧ is_NULL b' = false.
Proof.
  intros Hb. unfold compact. destruct b as [[m|] r w c].
  - unfold bind at 1, get_st; cbn. unfold bind at 1, ret. unfold bind at 1. cbn.
    destruct (Z.eqb_spec r 0) as [->|Hr]; cbn; [by eexists; split_and! |].
    run. rewrite (peek_all _ Hb), length_spec by done.
    pose proof (length_content _ Hb) as Hl. set (bs := content _) in *. clearbody bs. crush_wf.
    rewrite (poke_eq 0 bs m r w c) by lia. run.
    eexists. split; [done |]. cbn. rewrite content_at_0, Nat2Z.id, take_splice_0 by lia.
    unfold wf; cbn. rewrite length_splice by lia. split_and!; (done || lia).
  - unfold bind at 1, get_st; cbn.
    destruct (alloc_spec c _ Hb) as (m & c' & E & ? & Hwf & Hc); [crush_wf; lia |].
    rewrite (bind_Ok _ _ _ _ _ E). run. specialize (Hc eq_refl).
    eexists. split; [done |]. cbn. split_and!; done.
Qed.

Lemma expansion_spec len b : wf b → 0 ≤ len < 2 ^ 62 →
  ∃ b', expansion len b = (Ok tt, b') ∧ wf b' ∧ content b' = content b ∧
    len ≤ _capacity b' ∧ _capacity b' ≤ Z.max len (_capacity b) ∧ _writeIdx b' ≤ _writeIdx b ∧
    is_NULL b' = false.
Proof.
  intros Hb Hlen. unfold expansion. unfold bind at 1, get_st; cbn.
  destruct (Z.ltb_spec (_capacity b) len) as [Hc|Hc].
  - rewrite length_spec by done. pose proof (length_content b Hb) as Hl.
    destruct b as [[m|] r w c]; cbn in *.
    + destruct (Z.ltb_spec 0 (zlen (content (mk (Some m) r w c)))) as [Hp|Hp].
      * run. rewrite <- length_spec, (peek_all _ Hb) by done.
        set (bs := content _) in *. clearbody bs. run. crush_wf.
        rewrite poke_eq; [run | lia | rewrite fresh_length; lia].
        eexists. split; [done |]. cbn. rewrite content_at_0. replace (Z.to_nat (w - r)) with (List.length bs) by lia. rewrite take_splice_0
          by (rewrite fresh_length; lia).
        unfold wf; cbn. rewrite length_splice, fresh_length by (try rewrite fresh_length; lia).
        split_and!; (done || lia).
      * assert (w = r) as -> by (crush_wf; lia). run. eexists. split; [done |]. cbn.
        crush_wf. rewrite fresh_length by lia. split_and!; try lia.
        unfold content; cbn. by rewrite Z.sub_diag.
    + run. eexists. split; [done |]. crush_wf. rewrite fresh_length by lia.
      assert (w = 0) as -> by lia. assert (r = 0) as -> by lia. split_and!; (done || lia).
  - destruct (compact_spec b Hb) as (b' & -> & Hwf & E & ? & ? & ?). exists b'.
    pose proof (length_content b Hb). pose proof (length_content b' Hwf).
    rewrite E in *. unfold wf in *. split_and!; try done; try lia. apply Hwf.
Qed.

(** Storing bytes right behind the contents and moving the write index, as
    [addBuffer] and the receiving code do. *)
Lemma append_content m r w c bs : wf (mk (Some m) r w c) → w + zlen bs ≤ c →
  wf (mk (Some (splice w bs m)) r (w + zlen bs) c) ∧
  content (mk (Some (splice w bs m)) r (w + zlen bs) c) = content (mk (Some m) r w c) ++ bs.
Proof.
  intros Hb Hc. crush_wf. split.
  - rewrite length_splice by lia. split_and!; (done || lia).
  - rewrite !content_eq, take_splice by lia.
    rewrite drop_app_le; [done |]. rewrite length_take. lia.
Qed.

(** Moving the contents to the front and storing bytes behind them. *)
Lemma pack_content m bs bs' c : zlen m = c → zlen bs + zlen bs' ≤ c < 2 ^ 62 →
  wf (mk (Some (splice (zlen bs) bs' (splice 0 bs m))) 0 (zlen bs + zlen bs') c) ∧
  content (mk (Some (splice (zlen bs) bs' (splice 0 bs m))) 0 (zlen bs + zlen bs') c) = bs ++ bs'.
Proof.
  intros Hm Hc. pose proof (length_splice 0 bs m ltac:(lia) ltac:(lia)) as Hl. split.
  - unfold wf; cbn. rewrite length_splice, Hl by lia. split_and!; (done || lia).
  - rewrite content_at_0, take_splice, Nat2Z.id, take_splice_0 by lia. done.
Qed.

Lemma fill_spec buff b : wf b → zlen (content b) + zlen buff < 2 ^ 62 →
  ∃ b', addBuffer buff b = (Ok tt, b') ∧ wf b' ∧ content b' = content b ++ buff.
Proof.
  intros Hb Hl. unfold addBuffer.
  assert (Hpre : ∃ m r w c, (let* b := get_st in if is_NULL b then alloc (zlen buff) else ret tt) b =
    (Ok tt, mk (Some m) r w c) ∧ wf (mk (Some m) r w c) ∧ content (mk (Some m) r w c) = content b).
  { run. destruct b as [[m|] r w c]; cbn; [by eexists _, _, _, _ |].
    destruct (alloc_spec (zlen buff) _ Hb) as (m & c' & E & ? & Hwf & Hc); [lia |].
    exists m, 0, 0, c'. by rewrite content_at_0. }
  destruct Hpre as (m & r & w & c & E & Hwf & Ec). rewrite <- Ec in *.
  revert E. unfold bind at 1 2, get_st. intros E.
  rewrite (bind_Ok _ _ _ _ _ E). cbn. clear E Ec Hb b.
  pose proof (length_content _ Hwf) as Hlen. cbn in Hlen.
  assert (0 ≤ r ≤ w ∧ w ≤ c < 2 ^ 62 ∧ zlen m = c) as (? & ? & ?) by apply Hwf.
  destruct (Z.leb_spec (zlen buff) (left (mk (Some m) r w c))) as [Hleft|Hleft];
    rewrite left_spec in Hleft by done; cbn in Hleft.
  - destruct (append_content _ _ _ _ buff Hwf) as [Hw' Ec']; [lia |].
    run. rewrite poke_eq by lia. run. rewrite wrapU_id by (unfold in_U; lia). eauto.
  - rewrite length_spec by done. rewrite !wrapU_id by (unfold in_U; lia).
    assert (Hpeek : peek_bytes (length (mk (Some m) r w c)) (mk (Some m) r w c) =
      (Ok (content (mk (Some m) r w c)), mk (Some m) r w c)) by by apply peek_all.
    rewrite length_spec in Hpeek by done.
    set (bs := content _) in *. clearbody bs. run.
    destruct (Z.leb_spec (zlen buff + zlen bs) c); run; rewrite Hpeek; run.
    + destruct (pack_content m bs buff c) as [??]; [lia.. |].
      rewrite poke_eq by lia. run. rewrite poke_eq by (rewrite ?length_splice; lia). run. eauto.
    + set (n := zlen bs + zlen buff). destruct (pack_content (fresh_block n) bs buff n) as [??];
        [rewrite fresh_length; lia | lia |].
      rewrite poke_eq by (rewrite ?fresh_length; lia). run.
      rewrite poke_eq by (rewrite ?length_splice, ?fresh_length; rewrite ?fresh_length; lia). run.
      eauto.
Qed.

Lemma setBuffer_spec buff b : wf b → zlen buff < 2 ^ 62 →
  ∃ b', setBuffer buff b = (Ok tt, b') ∧ wf b' ∧ content b' = buff.
Proof.
  intros Hb Hl. unfold setBuffer.
  assert (Hpre : ∃ m r w c, (let* b := get_st in
      if is_NULL b || (_capacity b <=? zlen buff) then alloc (zlen buff) else ret tt) b =
    (Ok tt, mk (Some m) r w c) ∧ zlen buff ≤ c < 2 ^ 62 ∧ zlen m = c).
  { run. destruct (is_NULL b || (_capacity b <=? zlen buff)) eqn:Ha.
    - destruct (alloc_spec (zlen buff) _ Hb) as (m & c & E & ? & (_ & ? & ?) & _); [lia |].
      exists m, 0, 0, c. cbn in *. split_and!; (done || lia).
    - apply orb_false_iff in Ha as [Hn Hc%Z.leb_gt]. destruct b as [[m|] r w c]; [|done].
      exists m, r, w, c. crush_wf. split_and!; (done || lia). }
  destruct Hpre as (m & r & w & c & E & ? & Hm).
  revert E. unfold bind at 1 2, get_st. intros E. rewrite (bind_Ok _ _ _ _ _ E). run.
  rewrite poke_eq by lia. run. eexists. split; [done |].
  rewrite content_at_0, Nat2Z.id, take_splice_0 by lia. unfold wf; cbn.
  rewrite length_splice by lia. split_and!; (done || lia).
Qed.

(** [addReadIdx] drops bytes from the front, or throws. *)
Lemma addReadIdx_spec n b : wf b → 0 ≤ n < 2 ^ 32 →
  (n ≤ zlen (content b) ∧ ∃ b', addReadIdx n b = (Ok tt, b') ∧ wf b' ∧
     content b' = drop (Z.to_nat n) (content b) ∧
     is_NULL b' = is_NULL b ∧ _capacity b' = _capacity b) ∨
  (zlen (content b) < n ∧ addReadIdx n b = (Throw TC_NetWorkBuffer_Exception, b)).
Proof.
  intros Hb Hn. pose proof (length_content _ Hb) as Hl. unfold addReadIdx.
  assert (0 ≤ _readIdx b ≤ _writeIdx b ∧ _writeIdx b ≤ _capacity b < 2 ^ 62) as [??]
    by (split; apply Hb).
  cbv zeta. rewrite (wrapU_id 32), (wrapU_id 64) by (unfold in_U; lia).
  destruct (Z.ltb_spec (_writeIdx b) (_readIdx b + n)); [right; split; [lia | done] | left].
  split; [lia |]. run. eexists. split; [done |].
  destruct b as [[m|] r w c]; cbn in *.
  - rewrite !content_eq by lia. rewrite drop_drop. crush_wf.
    split_and!; try (done || lia). f_equal. lia.
  - unfold content; cbn. rewrite drop_nil. crush_wf. split_and!; (done || lia).
Qed.

(** What a receiver does with the memory [getOrCreateBuffer] hands out: store
    bytes at [free()], then [addWriteIdx]. *)
Definition receive (bs : list Z) : M unit :=
  let* b := get_st in poke (_writeIdx b) bs ;;; addWriteIdx (zlen bs).

Lemma receive_spec bs b : wf b → zlen bs < 2 ^ 32 → zlen bs ≤ left b → is_NULL b = false →
  ∃ b', receive bs b = (Ok tt, b') ∧ wf b' ∧ content b' = content b ++ bs ∧
    is_NULL b' = false ∧ _capacity b' = _capacity b.
Proof.
  intros Hb Hs Hl Hn. rewrite left_spec in Hl by done.
  destruct b as [[m|] r w c]; [|done]. cbn in Hl. clear Hn.
  assert (0 ≤ r ≤ w ∧ w ≤ c < 2 ^ 62 ∧ zlen m = c) as (? & ? & ?) by apply Hb.
  destruct (append_content _ _ _ _ bs Hb) as [??]; [lia |].
  unfold receive. run. rewrite poke_eq by lia. run. unfold addWriteIdx, left. cbn.
  rewrite (wrapU_id 32), !(wrapU_id 64) by (unfold in_U; lia).
  rewrite (proj2 (Z.ltb_ge _ _)) by lia. run. eauto 10.
Qed.

Lemma at_spec b i : wf b → 0 ≤ i < 2 ^ 62 →
  at_ i b = match content b !! Z.to_nat i with
            | Some x => (Ok x, b)
            | None => (Throw TC_NetWorkBuffer_Exception, b)
            end.
Proof.
  intros Hb Hi. pose proof (length_content _ Hb) as Hl. unfold at_.
  assert (0 ≤ _readIdx b ≤ _writeIdx b ∧ _writeIdx b ≤ _capacity b < 2 ^ 62) as [??]
    by (split; apply Hb).
  rewrite wrapU_id by (unfold in_U; lia).
  destruct (Z.leb_spec (_writeIdx b) (_readIdx b + i)).
  - by rewrite lookup_ge_None_2 by lia.
  - destruct (lookup_lt_is_Some_2 (content b) (Z.to_nat i)) as [x Hx]; [lia |]. rewrite Hx.
    destruct b as [[m|] r w c]; [|crush_wf; lia]. cbn in *.
    rewrite content_eq, lookup_drop in Hx by lia.
    rewrite lookup_take_lt in Hx by lia. unfold mem_read.
    assert (zlen m = c) by apply Hb.
    replace (_ && _ && _) with true by (symmetry; rewrite !andb_true_iff, !Z.leb_le; lia).
    replace (Z.to_nat (r + i)) with (Z.to_nat r + Z.to_nat i)%nat by lia.
    by rewrite (drop_S _ _ _ Hx).
Qed.
End Buffer.

(** * TC_NetWorkBuffer *)
Module NetWorkBuffer.
(** Buffers live behind [shared_ptr]s: [heap] is the store they point into, a
    pointer is a key of it, and [_bufferList] and [_defaultBuff] may share. *)
Record t := mk {
  heap : gmap nat Buffer.t; _bufferList : list nat; _length : Z; _defaultBuff : option nat
}.

Definition new : t := mk ∅ [] 0 None.

Abbreviation M A := (prog t net_error A).

Definition set_heap h : M unit := modify (λ s, mk h (_bufferList s) (_length s) (_defaultBuff s)).
Definition set_list l : M unit := modify (λ s, mk (heap s) l (_length s) (_defaultBuff s)).
Definition set_length n : M unit := modify (λ s, mk (heap s) (_bufferList s) n (_defaultBuff s)).
Definition set_default d : M unit := modify (λ s, mk (heap s) (_bufferList s) (_length s) d).

(** A call of a method of the buffer behind a pointer. *)
Definition on {A} (l : nat) (m : Buffer.M A) : M A := λ s,
  match heap s !! l with
  | Some b => let '(o, b') := m b in
              (o, mk (<[l := b']> (heap s)) (_bufferList s) (_length s) (_defaultBuff s))
  | None => (OutOfBounds, s)
  end.

Definition deref (l : nat) : M Buffer.t := λ s,
  match heap s !! l with Some b => (Ok b, s) | None => (OutOfBounds, s) end.

(** [std::make_shared<Buffer>()]. *)
Definition make_shared : M nat :=
  let* s := get_st in
  let l := fresh (dom (heap s)) in
  set_heap (<[l := Buffer.new]> (heap s)) ;;; ret l.

(** [addBuffer(const shared_ptr<Buffer>&)]. *)
Definition addBuffer_shared (buff : nat) : M unit :=
  let* e := on buff Buffer.empty in
  if (e : bool) then ret tt else
  let* s := get_st in
  set_list (_bufferList s ++ [buff]) ;;;
  let* b := deref buff in
  set_length (wrapU 64 (_length s + Buffer.length b)).

Definition getOrCreateBuffer (minCapacity maxCapacity : Z) : M nat :=
  assert_that (minCapacity <=? maxCapacity) ;;;
  let* s := get_st in
  (match last (_bufferList s) with
   | None =>
     match _defaultBuff s with
     | None =>
       let* d := make_shared in
       set_default (Some d) ;;; on d (Buffer.alloc maxCapacity) ;;; set_list [d]
     | Some d => on d Buffer.clear ;;; on d (Buffer.expansion maxCapacity) ;;; set_list [d]
     end
   | Some l =>
     let* b := deref l in
     if Buffer.left b <? minCapacity then
       if (minCapacity <=? wrapU 64 (Buffer.capacity b - Buffer.length b)) &&
          (wrapU 64 (Buffer.length b * 3) <? Buffer.capacity b)
       then on l Buffer.compact
       else (let* l' := make_shared in
             on l' (Buffer.alloc maxCapacity) ;;; set_list (_bufferList s ++ [l']))
     else ret tt
   end) ;;;
  let* s := get_st in
  match last (_bufferList s) with
  | Some l => ret l
  | None => λ s, (AssertFailed, s)
  end.

Definition addLength (length : Z) : M unit :=
  let* s := get_st in set_length (wrapU 64 (_length s + length)).

Definition subLength (length : Z) : M unit :=
  let* s := get_st in
  assert_that (length <=? _length s) ;;; set_length (_length s - length).

(** [addBuffer(const char*, size_t)]; [capacity * 1.5] converted back to
    [size_t]. *)
Definition addBuffer (buff : list Z) : M unit :=
  let length := zlen buff in
  if length =? 0 then ret tt else
  let capacity := if length <? 1024 then 1024 else length in
  let* data := getOrCreateBuffer capacity (capacity * 3 / 2) in
  let* b := deref data in
  assert_that (length <=? Buffer.left b) ;;;
  on data (Buffer.receive buff) ;;;
  addLength length.

(** [compute]: drop empty buffers at the front, add up the lengths. *)
Fixpoint drop_empty (ls : list nat) : M (list nat) :=
  match ls with
  | [] => ret []
  | l :: ls' => let* e := on l Buffer.empty in
                if (e : bool) then drop_empty ls' else ret ls
  end.

Fixpoint sum_lengths (ls : list nat) (acc : Z) : M Z :=
  match ls with
  | [] => ret acc
  | l :: ls' => let* b := deref l in sum_lengths ls' (wrapU 64 (acc + Buffer.length b))
  end.

Definition compute : M unit :=
  let* s := get_st in
  set_length 0 ;;;
  let* ls := drop_empty (_bufferList s) in
  set_list ls ;;;
  let* n := sum_lengths ls 0 in set_length n.

Definition getBuffer (s : t) : option nat := head (_bufferList s).

Definition clearBuffers : M unit := set_list [] ;;; set_length 0.

Definition empty (s : t) : bool := _length s =? 0.
Definition getBufferLength (s : t) : Z := _length s.
Definition listSize (s : t) : Z := zlen (_bufferList s).

(** [getBufferPointer]: the first buffer's bytes that may be sent. *)
Definition getBufferPointer : M (option (nat * Z)) :=
  let* s := get_st in
  if empty s then ret None else
  match _bufferList s with
  | [] => out_of_bounds
  | l :: _ => let* b := deref l in ret (Some (l, Buffer.length b))
  end.

(** The copying loop of [getBuffers(char*, size_t)]: the bytes stored. *)
Fixpoint copy_buffers (ls : list nat) (left : Z) : M (list Z) :=
  match ls with
  | [] => ret []
  | l :: ls' =>
    if left =? 0 then ret [] else
    let* b := deref l in
    let len := Z.min left (Buffer.length b) in
    let* bs := on l (Buffer.peek_bytes len) in
    let* bs' := copy_buffers ls' (left - len) in ret (bs ++ bs')
  end.

Definition getBuffers_into (length : Z) : M (list Z) :=
  let* s := get_st in
  assert_that (length <=? getBufferLength s) ;;; copy_buffers (_bufferList s) length.

(** A [vector] or [string] resized to [n] zero bytes and then filled from the
    front. *)
Definition resized (n : Z) (bs : list Z) : list Z := bs ++ replicate (Z.to_nat n - length bs) 0.

(** [getBuffers()] and [getBuffersString()]. *)
Definition getBuffers : M (list Z) :=
  let* s := get_st in
  if 0 <? _length s
  then let* bs := getBuffers_into (_length s) in ret (resized (_length s) bs)
  else ret (resized (_length s) []).

Definition getBuffersString : M (list Z) := getBuffers.

(** [getBuffers(shared_ptr<Buffer>&)]. *)
Definition getBuffers_shared (buff : nat) : M unit :=
  let* s := get_st in
  on buff (Buffer.alloc (_length s)) ;;;
  let* bs := getBuffers_into (_length s) in
  let* b := deref buff in
  on buff (Buffer.poke (Buffer._readIdx b) bs) ;;;
  on buff (Buffer.addWriteIdx (_length s)).

(** [mergeBuffers]: the pointer it returns. *)
Definition mergeBuffers : M (option nat) :=
  let* s := get_st in
  (if 1 <? listSize s then
     let* buff := make_shared in
     getBuffers_shared buff ;;; set_list [buff]
   else ret tt) ;;;
  let* s := get_st in
  assert_that (listSize s <=? 1) ;;;
  ret (head (_bufferList s)).

(** [getHeader(len, buffer)]: [None] for [false]. *)
Definition getHeader (len : Z) : M (option (list Z)) :=
  let* s := get_st in
  if getBufferLength s <? len then ret None
  else if len =? 0 then ret (Some [])
  else let* bs := getBuffers_into len in ret (Some (resized len bs)).

(** [getHeader<T>(len)]. *)
Definition getHeader_throw (len : Z) : M (list Z) :=
  let* s := get_st in
  if getBufferLength s <? len then throw TC_NetWorkBuffer_Exception
  else if len =? 0 then ret []
  else let* bs := getBuffers_into len in ret (resized len bs).

(** [moveHeader] calls itself after each buffer it empties. *)
Fixpoint moveHeader_loop (fuel : nat) (len : Z) : M bool :=
  match fuel with
  | O => λ s, (NoFuel, s)
  | S fuel' =>
    let* s := get_st in
    if getBufferLength s <? len then ret false
    else if len =? 0 then ret true
    else match _bufferList s with
         | [] => out_of_bounds
         | l :: ls =>
           let* b := deref l in
           let left := Buffer.length b in
           if len <? left then
             on l (Buffer.addReadIdx len) ;;; set_length (_length s - len) ;;; ret true
           else if left =? len then
             on l (Buffer.addReadIdx len) ;;; set_length (_length s - len) ;;; set_list ls ;;; ret true
           else
             on l (Buffer.addReadIdx left) ;;; set_length (_length s - left) ;;; set_list ls ;;;
             moveHeader_loop fuel' (len - left)
         end
  end.

Definition moveHeader (len : Z) : M bool :=
  let* s := get_st in moveHeader_loop (S (length (_bufferList s))) len.

(** [getValue<T>] for [sizeof(T) = k]: the bytes in network order, for one, two
    and four bytes. *)
Definition getValue (k : Z) : M Z :=
  let* h := getHeader k in
  match h with
  | Some buffer =>
    if k =? 2 then ret (ntohs (le_val buffer))
    else if k =? 4 then ret (ntohl (le_val buffer))
    else ret (le_val buffer)
  | None => ret 0
  end.

Definition getValueOf1 : M Z := getValue 1.
Definition getValueOf2 : M Z := getValue 2.
Definition getValueOf4 : M Z := getValue 4.

(** [parseBuffer<T>]: the packet type and what is left in [buffer]. *)
Definition parseBuffer (k : Z) (buffer : list Z) (minLength maxLength : Z) : M (PACKET_TYPE * list Z) :=
  let* s := get_st in
  if getBufferLength s <? k then ret (PACKET_LESS, buffer) else
  let minLength := if minLength <? k then k else minLength in
  let* length := getValue k in
  if (length <? minLength) || (maxLength <? length) then ret (PACKET_ERR, buffer)
  else if getBufferLength s <? length then ret (PACKET_LESS, buffer)
  else
    moveHeader k ;;;
    let* h := getHeader (length - k) in
    match h with
    | None => ret (PACKET_LESS, buffer)
    | Some body => moveHeader (length - k) ;;; ret (PACKET_FULL, body)
    end.

Definition parseBufferOf1 (buffer : list Z) (minLength maxLength : Z) : M (PACKET_TYPE * list Z) :=
  parseBuffer 1 buffer (wrapU 8 minLength) (wrapU 8 maxLength).
Definition parseBufferOf2 (buffer : list Z) (minLength maxLength : Z) : M (PACKET_TYPE * list Z) :=
  parseBuffer 2 buffer (wrapU 16 minLength) (wrapU 16 maxLength).
Definition parseBufferOf4 (buffer : list Z) (minLength maxLength : Z) : M (PACKET_TYPE * list Z) :=
  parseBuffer 4 buffer (wrapU 32 minLength) (wrapU 32 maxLength).

(** [parseEcho]. *)
Definition parseEcho (out : list Z) : M (PACKET_TYPE * list Z) :=
  let* s := get_st in
  if empty s then ret (PACKET_LESS, out)
  else let* out := getBuffers in clearBuffers ;;; ret (PACKET_FULL, out).

(** ** The flat queue the buffers stand for *)

Definition buf_content (h : gmap nat Buffer.t) (l : nat) : list Z :=
  match h !! l with Some b => Buffer.content b | None => [] end.

Definition contents (h : gmap nat Buffer.t) (ls : list nat) : list Z :=
  concat (map (buf_content h) ls).

Definition abs (s : t) : list Z := contents (heap s) (_bufferList s).

(** A buffer of the list: its capacity fits the [uint32_t] parameters of
    [addReadIdx] and [addWriteIdx]. *)
Definition good (b : Buffer.t) : Prop :=
  Buffer.wf b ∧ Buffer._capacity b < 2 ^ 32 ∧ Buffer.is_NULL b = false.

Definition good_at (h : gmap nat Buffer.t) (l : nat) : Prop := ∃ b, h !! l = Some b ∧ good b.

Definition inv (s : t) : Prop :=
  NoDup (_bufferList s) ∧ Forall (good_at (heap s)) (_bufferList s) ∧
  (∀ d, _defaultBuff s = Some d → good_at (heap s) d) ∧
  _length s = zlen (abs s) ∧ zlen (abs s) < 2 ^ 62.

Lemma inv_new : inv new.
Proof. unfold inv, new, abs; cbn. split_and!; (done || constructor). Qed.

Lemma good_left b : good b → Buffer.length b = zlen (Buffer.content b) ∧ zlen (Buffer.content b) < 2 ^ 32.
Proof.
  intros (Hb & Hc & _). split; [by apply Buffer.length_spec |].
  rewrite Buffer.length_content by done. unfold Buffer.wf in Hb. lia.
Qed.

(** A call behind a pointer, when the pointer is good. *)
Lemma on_eq {A} l (m : Buffer.M A) s b o b' :
  heap s !! l = Some b → m b = (o, b') →
  on l m s = (o, mk (<[l := b']> (heap s)) (_bufferList s) (_length s) (_defaultBuff s)).
Proof. intros E1 E2. unfold on. by rewrite E1, E2. Qed.

Lemma on_same {A} l (m : Buffer.M A) s b o :
  heap s !! l = Some b → m b = (o, b) → on l m s = (o, s).
Proof.
  intros E1 E2. rewrite (on_eq _ _ _ _ _ _ E1 E2), insert_id by done. by destruct s.
Qed.

Lemma deref_eq l s b : heap s !! l = Some b → deref l s = (Ok b, s).
Proof. intros E. unfold deref. by rewrite E. Qed.

Lemma empty_eq l s b : heap s !! l = Some b → Buffer.wf b →
  on l Buffer.empty s = (Ok (bool_decide (Buffer.content b = [])), s).
Proof.
  intros E Hb. eapply on_same; [done |]. unfold Buffer.empty.
  pose proof (Buffer.length_content b Hb) as Hl.
  assert (Buffer._readIdx b ≤ Buffer._writeIdx b) by apply Hb.
  rewrite (proj2 (Z.leb_le _ _)) by done. do 2 f_equal.
  apply eq_true_iff_eq. rewrite Z.eqb_eq, bool_decide_eq_true, <- length_zero_iff_nil. lia.
Qed.

(** The contents of buffers that a change of the heap leaves alone. *)
Lemma contents_insert h l b ls : l ∉ ls → contents (<[l := b]> h) ls = contents h ls.
Proof.
  intros Hl. unfold contents. f_equal. apply map_ext_in. intros l' Hl'%list_elem_of_In.
  unfold buf_content. rewrite lookup_insert_ne; [done |]. by intros ->.
Qed.

Lemma good_at_insert h l b l' : good b → good_at h l' → good_at (<[l := b]> h) l'.
Proof.
  intros Hb (b' & E & Hb'). destruct (decide (l = l')) as [<-|].
  - exists b. by rewrite lookup_insert_eq.
  - exists b'. by rewrite lookup_insert_ne.
Qed.

Lemma good_insert_all h l b ls : good b → Forall (good_at h) ls → Forall (good_at (<[l := b]> h)) ls.
Proof. intros Hb H. eapply Forall_impl; [exact H |]. intros l'. by apply good_at_insert. Qed.

Lemma contents_cons h l b ls : h !! l = Some b →
  contents h (l :: ls) = Buffer.content b ++ contents h ls.
Proof. intros E. unfold contents. cbn. unfold buf_content at 1. by rewrite E. Qed.

Lemma contents_app h ls ls' : contents h (ls ++ ls') = contents h ls ++ contents h ls'.
Proof. unfold contents. by rewrite map_app, concat_app. Qed.

(** *** Reading without moving *)

Lemma copy_buffers_spec s ls left :
  Forall (good_at (heap s)) ls → 0 ≤ left →
  copy_buffers ls left s = (Ok (take (Z.to_nat left) (contents (heap s) ls)), s).
Proof.
  intros Hls. revert left. induction Hls as [|l ls (b & E & Hb) Hls IH]; intros left Hl.
  - cbn. by rewrite take_nil.
  - cbn [copy_buffers]. destruct (Z.eqb_spec left 0) as [->|Hne]; [done |].
    destruct (good_left b Hb) as [Elen ?].
    rewrite (bind_Ok _ _ _ _ _ (deref_eq _ _ _ E)), Elen. cbv zeta.
    set (n := Z.min left (zlen (Buffer.content b))).
    assert (Hp : on l (Buffer.peek_bytes n) s = (Ok (take (Z.to_nat n) (Buffer.content b)), s)).
    { eapply on_same; [done |]. unfold Buffer.peek_bytes.
      rewrite Buffer.peek_spec; [done | apply Hb | lia]. }
    rewrite (bind_Ok _ _ _ _ _ Hp), (bind_Ok _ _ _ _ _ (IH (left - n) ltac:(lia))).
    unfold ret. do 2 f_equal. rewrite (contents_cons _ _ _ _ E), take_app.
    f_equal; [destruct (Z.min_spec left (zlen (Buffer.content b))) as [[? Em]|[? Em]] |];
      subst n; rewrite ?Em; [done | | f_equal; lia].
    rewrite !take_ge; (done || lia).
Qed.

Lemma getBuffers_into_spec s len : inv s → 0 ≤ len ≤ zlen (abs s) →
  getBuffers_into len s = (Ok (take (Z.to_nat len) (abs s)), s).
Proof.
  intros (_ & Hg & _ & El & _) Hlen. unfold getBuffers_into, bind, get_st, assert_that, getBufferLength.
  rewrite (proj2 (Z.leb_le _ _)) by lia. apply copy_buffers_spec; (done || lia).
Qed.

Lemma resized_full n (bs : list Z) : zlen bs = n → resized n bs = bs.
Proof.
  intros <-. unfold resized. rewrite Nat2Z.id, Nat.sub_diag. cbn. by rewrite app_nil_r.
Qed.

Lemma getHeader_spec s len : inv s → 0 ≤ len →
  getHeader len s =
  (Ok (if zlen (abs s) <? len then None else Some (take (Z.to_nat len) (abs s))), s).
Proof.
  intros Hi Hlen. pose proof Hi as (_ & _ & _ & El & _).
  unfold getHeader, bind at 1, get_st, getBufferLength. rewrite El.
  destruct (Z.ltb_spec (zlen (abs s)) len); [done |].
  destruct (Z.eqb_spec len 0) as [->|Hne]; [done |].
  rewrite (bind_Ok _ _ _ _ _ (getBuffers_into_spec s len Hi ltac:(lia))).
  unfold ret. rewrite resized_full; [done |]. rewrite length_take. lia.
Qed.

Lemma getBuffers_spec s : inv s → getBuffers s = (Ok (abs s), s).
Proof.
  intros Hi. pose proof Hi as (_ & _ & _ & El & _).
  unfold getBuffers, bind at 1, get_st. rewrite El.
  destruct (Z.ltb_spec 0 (zlen (abs s))).
  - rewrite (bind_Ok _ _ _ _ _ (getBuffers_into_spec s (zlen (abs s)) Hi ltac:(lia))).
    unfold ret. by rewrite Nat2Z.id, firstn_all, resized_full.
  - assert (abs s = []) as -> by (apply length_zero_iff_nil; lia). done.
Qed.

(** *** Moving the front *)

Lemma inv_cons s l ls : inv s → _bufferList s = l :: ls →
  ∃ b, heap s !! l = Some b ∧ good b ∧ l ∉ ls ∧ NoDup ls ∧ Forall (good_at (heap s)) ls ∧
    abs s = Buffer.content b ++ contents (heap s) ls.
Proof.
  intros (Hnd & Hg & _) El. rewrite El in *. apply NoDup_cons in Hnd as [Hl Hnd].
  apply Forall_cons in Hg as [(b & E & Hb) Hg]. exists b. unfold abs. rewrite El.
  by rewrite (contents_cons _ _ _ _ E).
Qed.

(** Taking [n] bytes off the first buffer; it stays in the list or, when it has
    become empty, goes. *)
Lemma inv_front s l ls b b' n ls' :
  inv s → _bufferList s = l :: ls → heap s !! l = Some b → good b' →
  0 ≤ n ≤ zlen (Buffer.content b) → Buffer.content b' = drop (Z.to_nat n) (Buffer.content b) →
  (ls' = l :: ls ∨ (ls' = ls ∧ n = zlen (Buffer.content b))) →
  let s' := mk (<[l := b']> (heap s)) ls' (_length s - n) (_defaultBuff s) in
  inv s' ∧ abs s' = drop (Z.to_nat n) (abs s).
Proof.
  intros Hi El E Hb' Hn Ec Hls s'. destruct (inv_cons s l ls Hi El) as (b0 & E0 & Hb & Hl & Hnd & Hg & Ea).
  assert (b0 = b) as -> by congruence.
  assert (Habs : abs s' = drop (Z.to_nat n) (abs s)).
  { unfold abs at 1, s'; cbn [heap _bufferList]. rewrite Ea, drop_app_le, <- Ec by lia.
    destruct Hls as [-> | [-> En]].
    - rewrite (contents_cons _ _ b') by apply lookup_insert_eq. by rewrite contents_insert.
    - rewrite contents_insert by done. rewrite Ec, drop_ge by lia. done. }
  pose proof Hi as (_ & _ & Hd & Elen & Hmax).
  split; [|done]. assert (n ≤ zlen (abs s)) by (rewrite Ea, length_app; lia).
  unfold inv. rewrite Habs, length_drop. cbn. split_and!; [| | | lia | lia].
  - destruct Hls as [-> | [-> _]]; [by apply NoDup_cons | done].
  - destruct Hls as [-> | [-> _]].
    + apply Forall_cons; split; [exists b'; by rewrite lookup_insert_eq | by apply good_insert_all].
    + by apply good_insert_all.
  - intros d Ed. by apply good_at_insert, Hd.
Qed.

Lemma moveHeader_loop_spec fuel s len :
  inv s → 0 ≤ len ≤ zlen (abs s) → (length (_bufferList s) < fuel)%nat →
  ∃ s', moveHeader_loop fuel len s = (Ok true, s') ∧ inv s' ∧ abs s' = drop (Z.to_nat len) (abs s).
Proof.
  revert s len. induction fuel as [|fuel IH]; intros s len Hi Hlen Hf; [lia |].
  pose proof Hi as (_ & _ & _ & Elen & Hmax).
  cbn [moveHeader_loop]. unfold bind at 1, get_st, getBufferLength. rewrite Elen.
  rewrite (proj2 (Z.ltb_ge _ _)) by lia.
  destruct (Z.eqb_spec len 0) as [->|Hne]; [by exists s |].
  destruct (_bufferList s) as [|l ls] eqn:El.
  { unfold abs in Hlen. rewrite El in Hlen. cbn in Hlen. lia. }
  destruct (inv_cons s l ls Hi El) as (b & E & Hb & Hl & Hnd & Hg & Ea).
  destruct (good_left b Hb) as [Eb Hb32].
  rewrite (bind_Ok _ _ _ _ _ (deref_eq _ _ _ E)), Eb. cbv zeta.
  set (n := zlen (Buffer.content b)) in *.
  assert (Hadd : ∀ k, 0 ≤ k ≤ n → ∃ b', on l (Buffer.addReadIdx k) s =
      (Ok tt, mk (<[l := b']> (heap s)) (l :: ls) (_length s) (_defaultBuff s)) ∧ good b' ∧
      Buffer.content b' = drop (Z.to_nat k) (Buffer.content b)).
  { intros k Hk. destruct Hb as (Hwf & Hcap & Hnull).
    destruct (Buffer.addReadIdx_spec k b Hwf ltac:(lia)) as [(_ & b' & E' & ? & ? & ? & ?)|[? _]]; [|lia].
    exists b'. rewrite (on_eq _ _ _ _ _ _ E E'), El.
    unfold good. split_and!; (done || congruence || lia). }
  destruct (Hadd (Z.min len n) ltac:(lia)) as (b' & Eadd & Hb' & Ec).
  destruct (Z.ltb_spec len n) as [Hlt|Hge]; [|destruct (Z.eqb_spec n len) as [Heq|Hgt]].
  - rewrite Z.min_l in * by lia. rewrite (bind_Ok _ _ _ _ _ Eadd).
    destruct (inv_front s l ls b b' len (l :: ls)) as [Hi' Ha']; try done; [lia | by left |].
    unfold bind, set_length, modify, ret; cbn. rewrite Elen in Hi', Ha'. eauto.
  - rewrite Z.min_l in * by lia. rewrite (bind_Ok _ _ _ _ _ Eadd).
    destruct (inv_front s l ls b b' len ls) as [Hi' Ha']; try done; [lia | by right |].
    unfold bind, set_length, set_list, modify, ret; cbn. rewrite Elen in Hi', Ha'. eauto.
  - rewrite Z.min_r in * by lia. rewrite (bind_Ok _ _ _ _ _ Eadd).
    destruct (inv_front s l ls b b' n ls) as [Hi' Ha']; try done; [lia | by right |].
    unfold bind at 1 2, set_length, set_list, modify; cbn [heap _bufferList _length _defaultBuff].
    rewrite Elen in Hi', Ha'. destruct (IH _ (len - n) Hi') as (s' & E' & Hi'' & Ha'').
    { rewrite Ha', length_drop. lia. }
    { cbn. cbn in Hf. lia. }
    exists s'. split_and!; [exact E' | done |].
    rewrite Ha'', Ha', drop_drop. f_equal. lia.
Qed.

Lemma moveHeader_spec s len : inv s → 0 ≤ len ≤ zlen (abs s) →
  ∃ s', moveHeader len s = (Ok true, s') ∧ inv s' ∧ abs s' = drop (Z.to_nat len) (abs s).
Proof. intros. unfold moveHeader, bind at 1, get_st. by apply moveHeader_loop_spec; [.. | lia]. Qed.

Lemma moveHeader_short s len : inv s → zlen (abs s) < len → moveHeader len s = (Ok false, s).
Proof.
  intros (_ & _ & _ & El & _) Hl. unfold moveHeader, bind at 1, get_st. cbn [moveHeader_loop].
  unfold bind at 1, get_st, getBufferLength. rewrite El. by rewrite (proj2 (Z.ltb_lt _ _)).
Qed.

(** *** Appending at the back *)

(** The last buffer gains bytes. *)
Lemma inv_back s ls l b b' bs :
  inv s → _bufferList s = ls ++ [l] → heap s !! l = Some b → good b' →
  Buffer.content b' = Buffer.content b ++ bs → zlen (abs s) + zlen bs < 2 ^ 62 →
  let s' := mk (<[l := b']> (heap s)) (_bufferList s) (_length s + zlen bs) (_defaultBuff s) in
  inv s' ∧ abs s' = abs s ++ bs.
Proof.
  intros (Hnd & Hg & Hd & El & _) Els E Hb' Ec Hmax s'. rewrite Els in Hnd.
  assert (Hl : l ∉ ls).
  { apply NoDup_app in Hnd as (_ & Hn & _). intros Hl. apply (Hn l Hl). by apply list_elem_of_singleton. }
  assert (Habs : abs s' = abs s ++ bs).
  { unfold abs, s'; cbn [heap _bufferList]. rewrite Els, !contents_app, contents_insert by done.
    rewrite (contents_cons _ _ b' []) by apply lookup_insert_eq.
    rewrite (contents_cons _ _ _ [] E), Ec. cbn. by rewrite !app_nil_r, app_assoc. }
  split; [|done]. unfold inv. rewrite Habs, length_app. cbn.
  split_and!; [by rewrite Els | by apply good_insert_all | | lia | lia].
  intros d Ed. by apply good_at_insert, Hd.
Qed.

(** A buffer behind a new pointer, or the default buffer, joins the list. *)
Lemma inv_push s l b' d :
  inv s → l ∉ _bufferList s → good b' → (d = _defaultBuff s ∨ d = Some l) →
  zlen (abs s) + zlen (Buffer.content b') < 2 ^ 62 →
  let s' := mk (<[l := b']> (heap s)) (_bufferList s ++ [l])
               (_length s + zlen (Buffer.content b')) d in
  inv s' ∧ abs s' = abs s ++ Buffer.content b'.
Proof.
  intros (Hnd & Hg & Hd & El & _) Hl Hb' Hdd Hmax s'.
  assert (Hself : good_at (<[l := b']> (heap s)) l) by (exists b'; by rewrite lookup_insert_eq).
  assert (Habs : abs s' = abs s ++ Buffer.content b').
  { unfold abs, s'; cbn [heap _bufferList]. rewrite contents_app, contents_insert by done.
    rewrite (contents_cons _ _ b' []) by apply lookup_insert_eq. cbn. by rewrite app_nil_r. }
  split; [|done]. unfold inv. rewrite Habs, length_app. cbn.
  split_and!; [| | | lia | lia].
  - apply NoDup_app. split_and!; [done | | apply NoDup_singleton].
    intros x Hx ->%list_elem_of_singleton. done.
  - apply Forall_app; split; [by apply good_insert_all | by repeat constructor].
  - intros x Ex. destruct Hdd as [-> | ->]; [by apply good_at_insert, Hd | by simplify_eq].
Qed.

Lemma last_spec {A} (l : list A) x : last l = Some x → ∃ l', l = l' ++ [x].
Proof. intros H. apply last_Some in H as [l' ->]. by exists l'. Qed.

Lemma last_fresh s : inv s → fresh (dom (heap s)) ∉ _bufferList s ∧ heap s !! fresh (dom (heap s)) = None.
Proof.
  intros (_ & Hg & _). set (l := fresh _).
  assert (Hn : heap s !! l = None) by apply not_elem_of_dom, is_fresh.
  split; [|done]. intros Hl. rewrite Forall_forall in Hg.
  destruct (Hg l Hl) as (b & E & _). congruence.
Qed.

Lemma wf_new : Buffer.wf Buffer.new.
Proof. unfold Buffer.wf; cbn. lia. Qed.

(** A new buffer with [n] bytes of room. *)
Lemma alloc_new n : 0 ≤ n < 2 ^ 32 → ∃ b, Buffer.alloc n Buffer.new = (Ok tt, b) ∧ good b ∧
  Buffer.content b = [] ∧ Buffer.left b = n.
Proof.
  intros Hn. destruct (Buffer.alloc_spec n Buffer.new wf_new ltac:(lia)) as (m & c & E & ? & Hwf & Hc).
  specialize (Hc eq_refl) as ->. eexists. split; [exact E |].
  split; [split_and!; (done || cbn; lia) |]. split; [done |].
  rewrite Buffer.left_spec by done. cbn. lia.
Qed.

Lemma last_back s l : inv s → last (_bufferList s) = Some l →
  ∃ ls b, _bufferList s = ls ++ [l] ∧ heap s !! l = Some b ∧ good b.
Proof.
  intros (_ & Hg & _) El. apply last_spec in El as [ls El]. rewrite El in Hg.
  apply Forall_app in Hg as [_ Hg]. apply Forall_cons in Hg as [(b & E & Hb) _]. by exists ls, b.
Qed.

(** [l] is the last buffer of [s'], which holds the same bytes as [s], and has
    room for [lo] more. *)
Definition hands_out (s : t) (lo : Z) (l : nat) (s' : t) : Prop :=
  inv s' ∧ abs s' = abs s ∧ last (_bufferList s') = Some l ∧
  ∃ b, heap s' !! l = Some b ∧ lo ≤ Buffer.left b.

(** The four ways to get a buffer. *)
Lemma hand_out_new s lo hi d (l := fresh (dom (heap s))) :
  inv s → 0 ≤ lo ≤ hi → hi < 2 ^ 32 → (d = _defaultBuff s ∨ d = Some l) →
  ∃ b, Buffer.alloc hi Buffer.new = (Ok tt, b) ∧
    hands_out s lo l (mk (<[l := b]> (heap s)) (_bufferList s ++ [l]) (_length s) d).
Proof.
  intros Hi Hlo Hhi Hd. pose proof Hi as (_ & _ & _ & _ & Hmax).
  destruct (last_fresh s Hi) as [Hl _]. fold l in Hl.
  destruct (alloc_new hi ltac:(lia)) as (b & Ea & Hb & Ec & Hleft). exists b. split; [done |].
  destruct (inv_push s l b d Hi Hl Hb Hd) as [Hi' Ha']; [rewrite Ec; cbn; lia |].
  rewrite Ec, Z.add_0_r, app_nil_r in *.
  do 2 (split; [done |]). split; [apply last_snoc |].
  exists b. cbn. rewrite lookup_insert_eq. split; [done | lia].
Qed.

Lemma hand_out_default s lo hi d b :
  inv s → 0 ≤ lo ≤ hi → hi < 2 ^ 32 → _bufferList s = [] → _defaultBuff s = Some d →
  heap s !! d = Some b →
  ∃ b', Buffer.expansion hi (Buffer.mk (Buffer._buffer b) 0 0 (Buffer._capacity b)) = (Ok tt, b') ∧
    hands_out s lo d (mk (<[d := b']> (heap s)) [d] (_length s) (Some d)).
Proof.
  intros Hi Hlo Hhi Elist Edef E. pose proof Hi as (_ & _ & Hd & _ & Hmax).
  destruct (Hd d Edef) as (b1 & E1 & Hwf & Hcap & Hnull). assert (b1 = b) as -> by congruence.
  set (b0 := Buffer.mk _ _ _ _).
  assert (Hwf0 : Buffer.wf b0).
  { unfold b0, Buffer.wf in *; cbn. destruct (Buffer._buffer b); lia. }
  destruct (Buffer.expansion_spec hi b0 Hwf0 ltac:(lia)) as (b' & Ee & Hwf' & Eb & Hc & Hc' & Hw & Hn').
  assert (Hc0 : Buffer.content b0 = []).
  { apply length_zero_iff_nil. pose proof (Buffer.length_content b0 Hwf0). cbn in *. lia. }
  rewrite Hc0 in Eb. cbn in Hw, Hc'. exists b'. split; [done |].
  assert (Hb' : good b') by (split_and!; (done || lia)).
  destruct (inv_push s d b' (Some d) Hi) as [Hi' Ha']; [rewrite Elist; set_solver | done | by right |
    rewrite Eb; cbn; lia |].
  rewrite Eb, Elist, Z.add_0_r, app_nil_r in *.
  do 3 (split; [done |]). exists b'. cbn. rewrite lookup_insert_eq. split; [done |].
  rewrite Buffer.left_spec by done. unfold Buffer.wf in Hwf'. lia.
Qed.

Lemma hand_out_compact s lo l b :
  inv s → last (_bufferList s) = Some l → heap s !! l = Some b →
  lo ≤ wrapU 64 (Buffer.capacity b - Buffer.length b) →
  ∃ b', Buffer.compact b = (Ok tt, b') ∧
    hands_out s lo l (mk (<[l := b']> (heap s)) (_bufferList s) (_length s) (_defaultBuff s)).
Proof.
  intros Hi Elast E Hr. pose proof Hi as (_ & _ & _ & _ & Hmax).
  destruct (last_back s l Hi Elast) as (ls & b1 & Els & E1 & Hwf & Hcap & Hnull).
  assert (b1 = b) as -> by congruence.
  destruct (Buffer.compact_spec b Hwf) as (b' & Ec & Hwf' & Eb & Er & Ecap & Hn').
  exists b'. split; [done |]. assert (Hb' : good b') by (split_and!; (done || lia)).
  destruct (inv_back s ls l b b' [] Hi Els E Hb') as [Hi' Ha']; [by rewrite app_nil_r | cbn; lia |].
  rewrite app_nil_r, Z.add_0_r in *.
  do 3 (split; [done |]). exists b'. cbn. rewrite lookup_insert_eq. split; [done |].
  pose proof (Buffer.length_content b Hwf). pose proof (Buffer.length_content b' Hwf').
  rewrite Buffer.left_spec by done. rewrite Eb in *. unfold Buffer.capacity in Hr.
  rewrite Buffer.length_spec in Hr by done. unfold Buffer.wf in *.
  rewrite wrapU_id in Hr by (unfold in_U; lia). lia.
Qed.

Lemma getOrCreateBuffer_spec s lo hi : inv s → 0 ≤ lo ≤ hi → hi < 2 ^ 32 →
  ∃ l s', getOrCreateBuffer lo hi s = (Ok l, s') ∧ hands_out s lo l s'.
Proof.
  intros Hi Hlo Hhi. pose proof Hi as (_ & _ & Hd & _).
  unfold getOrCreateBuffer. unfold bind at 1, assert_that. rewrite (proj2 (Z.leb_le _ _)) by lia.
  unfold bind at 1, get_st.
  destruct (last (_bufferList s)) as [l|] eqn:Elast.
  - destruct (last_back s l Hi Elast) as (ls & b & Els & E & Hb).
    rewrite !bind_assoc, (bind_Ok _ _ _ _ _ (deref_eq _ _ _ E)).
    destruct (Z.ltb_spec (Buffer.left b) lo) as [Hfew|Henough].
    2: { unfold bind, ret. rewrite Elast. exists l, s. split; [done |]. do 3 (split; [done |]). by exists b. }
    destruct (_ && _) eqn:Hroom.
    + apply andb_true_iff in Hroom as [Hr%Z.leb_le _].
      destruct (hand_out_compact s lo l b Hi Elast E Hr) as (b' & Ec & Hout).
      rewrite (bind_Ok _ _ _ _ _ (on_eq _ _ _ _ _ _ E Ec)). unfold bind, ret; cbn. rewrite Elast. eauto.
    + destruct (hand_out_new s lo hi (_defaultBuff s) Hi Hlo Hhi) as (b' & Ea & Hout); [by left |].
      rewrite bind_assoc. unfold make_shared. unfold bind at 1 2 3, get_st, set_heap, modify, ret at 1.
      unfold bind at 1 2. erewrite on_eq; [|cbn; apply lookup_insert_eq | exact Ea].
      unfold set_list, modify, bind, ret; cbn. rewrite insert_insert_eq, last_snoc. eauto.
  - assert (Enil : _bufferList s = []) by by apply last_None. destruct (_defaultBuff s) as [d|] eqn:Edef.
    + destruct (Hd d eq_refl) as (b & E & Hb).
      destruct (hand_out_default s lo hi d b Hi Hlo Hhi Enil Edef E) as (b' & Ee & Hout).
      rewrite !bind_assoc. erewrite bind_Ok; [|by eapply on_eq].
      rewrite !bind_assoc. erewrite bind_Ok; [|eapply on_eq; [cbn; apply lookup_insert_eq | exact Ee]].
      unfold set_list, modify, bind, ret; cbn. rewrite insert_insert_eq, Edef. eauto.
    + set (l := fresh (dom (heap s))).
      destruct (hand_out_new s lo hi (Some l) Hi Hlo Hhi) as (b' & Ea & Hout); [by right |].
      rewrite Enil in Hout. fold l in Hout.
      rewrite bind_assoc. unfold make_shared. unfold bind at 1 2 3, get_st, set_heap, modify, ret at 1.
      unfold set_default, modify. unfold bind at 1 2 3. cbn [heap _bufferList _length _defaultBuff].
      erewrite on_eq; [|cbn; apply lookup_insert_eq | exact Ea].
      unfold set_list, modify, bind, ret; cbn. rewrite insert_insert_eq. eauto.
Qed.

Lemma addBuffer_spec s buff :
  inv s → zlen buff < 2 ^ 31 → zlen (abs s) + zlen buff < 2 ^ 62 →
  ∃ s', addBuffer buff s = (Ok tt, s') ∧ inv s' ∧ abs s' = abs s ++ buff.
Proof.
  intros Hi Hb Hmax. unfold addBuffer. cbv zeta. destruct (Z.eqb_spec (zlen buff) 0) as [E0|Hne].
  { exists s. assert (buff = []) as -> by (apply length_zero_iff_nil; lia). by rewrite app_nil_r. }
  set (cap := if zlen buff <? 1024 then 1024 else zlen buff).
  assert (Hcap : zlen buff ≤ cap < 2 ^ 31) by (unfold cap; destruct (Z.ltb_spec (zlen buff) 1024); lia).
  assert (Hcap2 : cap ≤ cap * 3 / 2 < 2 ^ 32).
  { split; [apply Z.div_le_lower_bound; lia | apply Z.div_lt_upper_bound; lia]. }
  destruct (getOrCreateBuffer_spec s cap (cap * 3 / 2) Hi) as (l & s1 & E & Hi1 & Ha1 & Hlast & b & Eb & Hleft);
    [lia.. |].
  rewrite (bind_Ok _ _ _ _ _ E), (bind_Ok _ _ _ _ _ (deref_eq _ _ _ Eb)).
  unfold bind at 1, assert_that. rewrite (proj2 (Z.leb_le _ _)) by lia.
  destruct (last_back s1 l Hi1 Hlast) as (ls & b1 & Els & E1 & Hwf & Hc & Hnull).
  assert (b1 = b) as -> by congruence.
  destruct (Buffer.receive_spec buff b Hwf) as (b' & Er & Hwf' & Ec & Hn' & Ecap); [lia.. | done |].
  rewrite (bind_Ok _ _ _ _ _ (on_eq _ _ _ _ _ _ Eb Er)).
  assert (Hb' : good b') by (split_and!; (done || lia)).
  destruct (inv_back s1 ls l b b' buff Hi1 Els Eb Hb' Ec) as [Hi' Ha']; [by rewrite Ha1 |].
  unfold addLength, bind, get_st, set_length, modify; cbn.
  pose proof Hi1 as (_ & _ & _ & El1 & _). rewrite Ha1 in *.
  rewrite wrapU_id by (unfold in_U; lia). eauto.
Qed.

(** A buffer built elsewhere joins the list. *)
Lemma addBuffer_shared_spec s l b :
  inv s → heap s !! l = Some b → good b → l ∉ _bufferList s →
  zlen (abs s) + zlen (Buffer.content b) < 2 ^ 62 →
  ∃ s', addBuffer_shared l s = (Ok tt, s') ∧ inv s' ∧ abs s' = abs s ++ Buffer.content b.
Proof.
  intros Hi E Hb Hl Hmax. unfold addBuffer_shared.
  rewrite (bind_Ok _ _ _ _ _ (empty_eq _ _ _ E (proj1 Hb))).
  case_bool_decide as Hc; [exists s; by rewrite Hc, app_nil_r |].
  destruct (inv_push s l b (_defaultBuff s) Hi Hl Hb) as [Hi' Ha']; [by left | done |].
  rewrite insert_id in Hi', Ha' by done. destruct (good_left b Hb) as [El _].
  pose proof Hi as (_ & _ & _ & Els & _).
  unfold bind, get_st, set_list, set_length, deref, modify; cbn. rewrite E, El.
  rewrite wrapU_id by (unfold in_U; lia). eauto.
Qed.

(** [compute] restores the length whatever [addLength] and [subLength] did to
    it. *)
Lemma drop_empty_spec s ls : Forall (good_at (heap s)) ls → NoDup ls →
  ∃ ls', drop_empty ls s = (Ok ls', s) ∧ ls' `suffix_of` ls ∧
    contents (heap s) ls' = contents (heap s) ls.
Proof.
  intros Hg Hnd. induction Hg as [|l ls (b & E & Hb) Hg IH]; [by exists [] |].
  apply NoDup_cons in Hnd as [_ Hnd]. cbn [drop_empty].
  rewrite (bind_Ok _ _ _ _ _ (empty_eq _ _ _ E (proj1 Hb))).
  case_bool_decide as Hc; [|by exists (l :: ls)].
  destruct (IH Hnd) as (ls' & E' & Hs & Ec). exists ls'. split; [done |].
  split; [by apply suffix_cons_r |]. by rewrite (contents_cons _ _ _ _ E), Hc.
Qed.

Lemma sum_lengths_spec s ls acc : Forall (good_at (heap s)) ls →
  0 ≤ acc → acc + zlen (contents (heap s) ls) < 2 ^ 62 →
  sum_lengths ls acc s = (Ok (acc + zlen (contents (heap s) ls)), s).
Proof.
  intros Hg. revert acc. induction Hg as [|l ls (b & E & Hb) Hg IH]; intros acc Ha Hmax.
  - cbn. by rewrite Z.add_0_r.
  - rewrite (contents_cons _ _ _ _ E), length_app in *. destruct (good_left b Hb) as [El _].
    cbn [sum_lengths]. rewrite (bind_Ok _ _ _ _ _ (deref_eq _ _ _ E)), El.
    rewrite wrapU_id by (unfold in_U; lia). rewrite IH by lia. do 2 f_equal. lia.
Qed.

Lemma compute_spec s n : inv s →
  ∃ s', compute (mk (heap s) (_bufferList s) n (_defaultBuff s)) = (Ok tt, s') ∧ inv s' ∧ abs s' = abs s.
Proof.
  intros (Hnd & Hg & Hd & El & Hmax).
  set (s0 := mk (heap s) (_bufferList s) 0 (_defaultBuff s)).
  destruct (drop_empty_spec s0 (_bufferList s) Hg Hnd) as (ls & E & [pre Hs] & Ec).
  rewrite Hs in Hg, Hnd. apply Forall_app in Hg as [_ Hg]. apply NoDup_app in Hnd as (_ & _ & Hnd).
  set (s1 := mk (heap s) ls 0 (_defaultBuff s)).
  assert (Ha1 : abs s1 = abs s) by exact Ec.
  pose proof (sum_lengths_spec s1 ls 0 Hg ltac:(lia)) as Esum. change (contents (heap s1) ls) with (abs s1) in Esum.
  rewrite Ha1 in Esum. specialize (Esum Hmax).
  unfold compute, bind, get_st, set_length, set_list, modify; cbn -[s0 s1]. fold s0. rewrite E. cbn. fold s1.
  rewrite Esum. cbn. rewrite <- Ha1.
  eexists. split; [done |]. split; [|done].
  split_and!; [done | done | done | done |]. change (abs _) with (abs s1). by rewrite Ha1.
Qed.

(** *** Merging *)

(** Replacing a buffer that is not in the list. *)
Lemma inv_other s l b : inv s → l ∉ _bufferList s → good b →
  let s' := mk (<[l := b]> (heap s)) (_bufferList s) (_length s) (_defaultBuff s) in
  inv s' ∧ abs s' = abs s.
Proof.
  intros (Hnd & Hg & Hd & El & Hmax) Hl Hb s'.
  assert (Ha : abs s' = abs s) by (apply contents_insert; done). split; [|done].
  unfold inv. rewrite Ha. split_and!; [done | by apply good_insert_all | | done | done].
  intros d Ed. by apply good_at_insert, Hd.
Qed.

(** [alloc], [memcpy] and [addWriteIdx] of a new buffer. *)
Lemma fill_new bs : zlen bs < 2 ^ 32 →
  ∃ b b1 b2, Buffer.alloc (zlen bs) Buffer.new = (Ok tt, b) ∧ good b ∧
    Buffer.poke (Buffer._readIdx b) bs b = (Ok tt, b1) ∧
    Buffer.addWriteIdx (zlen bs) b1 = (Ok tt, b2) ∧ good b2 ∧ Buffer.content b2 = bs.
Proof.
  intros Hbs. destruct (Buffer.alloc_spec (zlen bs) Buffer.new wf_new ltac:(lia)) as (m & c & Ea & _ & Hwf & Hc).
  specialize (Hc eq_refl) as ->.
  destruct (Buffer.receive_spec bs _ Hwf) as (b2 & Er & Hwf2 & Ec & Hn & Ecap);
    [done | rewrite Buffer.left_spec by done; cbn; lia | done |].
  set (b := Buffer.mk (Some m) 0 0 (zlen bs)) in *.
  unfold Buffer.receive, bind, get_st in Er. cbn [Buffer._writeIdx b] in Er.
  destruct (Buffer.poke 0 bs b) as [[[]| | | |] b1] eqn:Ep; try done.
  exists b, b1, b2. split; [done |]. split; [split_and!; (done || cbn; lia) |].
  do 2 (split; [done |]). split; [|by rewrite Ec]. split_and!; [done | rewrite Ecap; cbn; lia | done].
Qed.

Lemma getBuffers_shared_spec s l :
  inv s → zlen (abs s) < 2 ^ 32 → heap s !! l = Some Buffer.new → l ∉ _bufferList s →
  ∃ b, getBuffers_shared l s =
    (Ok tt, mk (<[l := b]> (heap s)) (_bufferList s) (_length s) (_defaultBuff s)) ∧
    good b ∧ Buffer.content b = abs s.
Proof.
  intros Hi H32 E Hl. pose proof Hi as (_ & _ & _ & El & _).
  destruct (fill_new (abs s) H32) as (b & b1 & b2 & Ea & Hb & Ep & Ew & Hb2 & Ec).
  rewrite <- El in Ea, Ew.
  destruct (inv_other s l b Hi Hl Hb) as [Hi1 Ha1]. set (s1 := mk _ _ _ _) in *.
  assert (Eg : getBuffers_into (_length s) s1 = (Ok (abs s), s1)).
  { rewrite getBuffers_into_spec by (done || (rewrite Ha1; lia)).
    by rewrite Ha1, El, Nat2Z.id, firstn_all. }
  assert (E1 : heap s1 !! l = Some b) by apply lookup_insert_eq.
  exists b2. split; [|done]. unfold getBuffers_shared, bind at 1, get_st.
  rewrite (bind_Ok _ _ _ _ _ (on_eq _ _ _ _ _ _ E Ea)). fold s1.
  rewrite (bind_Ok _ _ _ _ _ Eg), (bind_Ok _ _ _ _ _ (deref_eq _ _ _ E1)).
  rewrite (bind_Ok _ _ _ _ _ (on_eq _ _ _ _ _ _ E1 Ep)).
  erewrite on_eq; [|cbn; apply lookup_insert_eq | exact Ew].
  cbn. by rewrite !insert_insert_eq.
Qed.

Lemma mergeBuffers_spec s : inv s → zlen (abs s) < 2 ^ 32 →
  ∃ p s', mergeBuffers s = (Ok p, s') ∧ inv s' ∧ abs s' = abs s ∧ p = head (_bufferList s') ∧
    (length (_bufferList s') ≤ 1)%nat.
Proof.
  intros Hi H32. pose proof Hi as (_ & _ & Hd & El & Hmax).
  unfold mergeBuffers. unfold bind at 1, get_st. unfold listSize at 1.
  destruct (Z.ltb_spec 1 (zlen (_bufferList s))) as [Hm|Hm].
  2: { unfold bind, ret, assert_that, listSize. rewrite (proj2 (Z.leb_le _ _)) by done.
       eexists _, s. split_and!; (done || lia). }
  set (l := fresh (dom (heap s))). destruct (last_fresh s Hi) as [Hl Hn]. fold l in Hl, Hn.
  set (s1 := mk (<[l := Buffer.new]> (heap s)) (_bufferList s) (_length s) (_defaultBuff s)).
  assert (Ha1 : abs s1 = abs s) by (apply contents_insert; done).
  assert (Hg1 : ∀ l', good_at (heap s) l' → good_at (heap s1) l').
  { intros l' (b & E & Hb). exists b. cbn. rewrite lookup_insert_ne; [done | congruence]. }
  assert (Hi1 : inv s1).
  { pose proof Hi as (Hnd & Hg & _). unfold inv. rewrite Ha1. split_and!; try done; [|by intros d ?%Hd%Hg1].
    eapply Forall_impl; [exact Hg | exact Hg1]. }
  destruct (getBuffers_shared_spec s1 l Hi1) as (b & Eb & Hb & Ec);
    [by rewrite Ha1 | apply lookup_insert_eq | done |].
  cbn [heap _bufferList _length _defaultBuff s1] in Eb. rewrite insert_insert_eq in Eb. rewrite Ha1 in Ec.
  set (s2 := mk (<[l := b]> (heap s)) [l] (_length s) (_defaultBuff s)).
  assert (Ha2 : abs s2 = abs s).
  { unfold abs at 1, s2; cbn [heap _bufferList]. rewrite (contents_cons _ _ b []) by apply lookup_insert_eq.
    rewrite Ec. apply app_nil_r. }
  exists (Some l), s2. split; [|split_and!; [ | done | done | cbn; lia]].
  - rewrite bind_assoc. unfold make_shared. unfold bind at 1 2 3, get_st, set_heap, modify, ret at 1.
    fold l. fold s1. rewrite bind_assoc, (bind_Ok _ _ _ _ _ Eb). done.
  - unfold inv. rewrite Ha2. split_and!; [apply NoDup_singleton | | | done | done].
    + repeat constructor. exists b. cbn. by rewrite lookup_insert_eq.
    + intros d Ed. cbn. by apply good_at_insert, Hd.
Qed.

(** ** Length-prefixed packets *)

(** The integer of a length prefix of [k] bytes. *)
Definition net_val (k : Z) (bs : list Z) : Z :=
  if k =? 2 then ntohs (le_val bs) else if k =? 4 then ntohl (le_val bs) else le_val bs.

(** [parseBuffer] on the flat queue: type, output and what stays queued. *)
Definition parse_flat (k : Z) (data buffer : list Z) (minLength maxLength : Z)
  : PACKET_TYPE * list Z * list Z :=
  if zlen data <? k then (PACKET_LESS, buffer, data) else
  let n := net_val k (take (Z.to_nat k) data) in
  if (n <? Z.max k minLength) || (maxLength <? n) then (PACKET_ERR, buffer, data)
  else if zlen data <? n then (PACKET_LESS, buffer, data)
  else (PACKET_FULL, drop (Z.to_nat k) (take (Z.to_nat n) data), drop (Z.to_nat n) data).

Lemma getValue_spec s k : inv s → 0 < k ≤ zlen (abs s) →
  getValue k s = (Ok (net_val k (take (Z.to_nat k) (abs s))), s).
Proof.
  intros Hi Hk. unfold getValue.
  pose proof (getHeader_spec s k Hi ltac:(lia)) as E. rewrite (proj2 (Z.ltb_ge _ _)) in E by lia.
  rewrite (bind_Ok _ _ _ _ _ E). unfold net_val. by destruct (k =? 2), (k =? 4).
Qed.

Lemma getValue_short s k : inv s → 0 < k → zlen (abs s) < k → getValue k s = (Ok 0, s).
Proof.
  intros Hi Hk Hl. unfold getValue.
  pose proof (getHeader_spec s k Hi ltac:(lia)) as E. rewrite (proj2 (Z.ltb_lt _ _)) in E by lia.
  by rewrite (bind_Ok _ _ _ _ _ E).
Qed.

Lemma parseBuffer_spec s k buffer lo hi : inv s → 0 < k →
  ∃ t out s', parseBuffer k buffer lo hi s = (Ok (t, out), s') ∧ inv s' ∧
    parse_flat k (abs s) buffer lo hi = (t, out, abs s').
Proof.
  intros Hi Hk. pose proof Hi as (_ & _ & _ & El & _).
  unfold parseBuffer, parse_flat. unfold bind at 1, get_st, getBufferLength. rewrite El.
  destruct (Z.ltb_spec (zlen (abs s)) k) as [Hs|Hs]; [by eexists _, _, s |].
  rewrite (bind_Ok _ _ _ _ _ (getValue_spec s k Hi ltac:(lia))). cbv zeta.
  replace (if lo <? k then k else lo) with (Z.max k lo) by (destruct (Z.ltb_spec lo k); lia).
  set (n := net_val k _). destruct (_ || _) eqn:Hr; [by eexists _, _, s |].
  apply orb_false_iff in Hr as [Hlo%Z.ltb_ge _].
  destruct (Z.ltb_spec (zlen (abs s)) n) as [Hn|Hn]; [by eexists _, _, s |].
  destruct (moveHeader_spec s k Hi ltac:(lia)) as (s1 & E1 & Hi1 & Ha1).
  rewrite (bind_Ok _ _ _ _ _ E1).
  assert (Hl1 : zlen (abs s1) = zlen (abs s) - k) by (rewrite Ha1, length_drop; lia).
  pose proof (getHeader_spec s1 (n - k) Hi1 ltac:(lia)) as Eh.
  rewrite (proj2 (Z.ltb_ge _ _)) in Eh by lia. rewrite (bind_Ok _ _ _ _ _ Eh).
  destruct (moveHeader_spec s1 (n - k) Hi1 ltac:(lia)) as (s2 & E2 & Hi2 & Ha2).
  rewrite (bind_Ok _ _ _ _ _ E2). eexists _, _, s2. split_and!; [done | done |].
  rewrite Ha2, Ha1, drop_drop. f_equal; [f_equal |]; [|f_equal; lia].
  rewrite skipn_firstn_comm. f_equal. lia.
Qed.

(** A body behind its four-byte length. *)
Definition frame4 (body : list Z) : list Z := be_bytes 4 (zlen body + 4) ++ body.

Lemma net_val_frame4 body rest : zlen body + 4 < 2 ^ 32 →
  net_val 4 (take (Z.to_nat 4) (frame4 body ++ rest)) = zlen body + 4.
Proof.
  intros. unfold frame4, net_val. rewrite <- app_assoc.
  rewrite take_app_length' by (rewrite length_be_bytes; lia). cbn [Z.eqb Pos.eqb].
  unfold ntohl. rewrite bswap_be_bytes, wrapU_id; [done | unfold in_U; lia].
Qed.

Lemma length_frame4 body : zlen (frame4 body) = zlen body + 4.
Proof. unfold frame4. rewrite length_app, length_be_bytes. lia. Qed.

Lemma parse_frame4 body rest buffer lo hi :
  zlen body + 4 < 2 ^ 32 → lo ≤ zlen body + 4 ≤ hi →
  parse_flat 4 (frame4 body ++ rest) buffer lo hi = (PACKET_FULL, body, rest).
Proof.
  intros Hb Hr. unfold parse_flat. rewrite net_val_frame4 by done.
  rewrite length_app, Nat2Z.inj_add, length_frame4.
  rewrite (proj2 (Z.ltb_ge _ 4)) by lia. cbv zeta.
  rewrite (proj2 (orb_false_iff _ _)) by (rewrite !Z.ltb_ge; lia).
  rewrite (proj2 (Z.ltb_ge _ (zlen body + 4))) by lia.
  pose proof (length_frame4 body) as Hl.
  rewrite take_app_length', drop_app_length' by lia.
  unfold frame4. rewrite drop_app_length'; [done | rewrite length_be_bytes; lia].
Qed.

(** Part of a packet is not a packet. *)
Lemma parse_partial body part rest buffer lo hi :
  frame4 body = part ++ rest → rest ≠ [] → zlen body + 4 < 2 ^ 32 → lo ≤ zlen body + 4 ≤ hi →
  parse_flat 4 part buffer lo hi = (PACKET_LESS, buffer, part).
Proof.
  intros E Hrest Hb Hr. unfold parse_flat.
  destruct (Z.ltb_spec (zlen part) 4) as [Hl|Hl]; [done |].
  pose proof (net_val_frame4 body [] Hb) as Hn. rewrite app_nil_r, E in Hn.
  rewrite take_app_le in Hn by lia. rewrite Hn. cbv zeta.
  rewrite (proj2 (orb_false_iff _ _)) by (rewrite !Z.ltb_ge; lia).
  pose proof (length_frame4 body) as Hlen. rewrite E, length_app in Hlen.
  destruct rest; [done |]. cbn in Hlen. rewrite (proj2 (Z.ltb_lt _ _)) by lia. done.
Qed.
End NetWorkBuffer.
