(* ===== verification/AppProtocol.v ===== *)
(** The client protocol functions of [src/servant/libservant/AppProtocol.cpp] and
    [src/servant/servant/AppProtocol.h]: a request packet becomes a framed buffer,
    and received bytes become response packets. *)
From stdpp Require Import prelude gmap list.
From Stdlib Require Import ZArith Lia.
From S2P Require Import Prelude Bytes TarsBuffer TarsOutput TarsInput TarsSkip TarsWire.
From S2P Require Import TarsCodec TarsContainers TarsStruct Packets NetBuffer.

(** The constants of [BaseF.tars], which is not part of the repository. *)
Record base_constants := {
  TARSVERSION : Z; TUPVERSION : Z; JSONVERSION : Z; TARSNORMAL : Z; TARSSERVERUNKNOWNERR : Z
}.

Definition TARS_NET_MIN_PACKAGE_SIZE := 5.
Definition TARS_NET_MAX_PACKAGE_SIZE := 1024 * 1024 * 10.

(** What these functions throw. *)
Inductive proto_error : Type := FromTars (e : tars_error) | FromNet (e : net_error).

(** The buffer and the response they work on. *)
Abbreviation proto_state := (NetWorkBuffer.t * ResponsePacket.t)%type.
Abbreviation P A := (prog proto_state proto_error A).

Definition on_in {A} (m : NetWorkBuffer.M A) : P A := λ s,
  match m s.1 with
  | (Ok a, n) => (Ok a, (n, s.2))
  | (Throw e, n) => (Throw (FromNet e), (n, s.2))
  | (OutOfBounds, n) => (OutOfBounds, (n, s.2))
  | (AssertFailed, n) => (AssertFailed, (n, s.2))
  | (NoFuel, n) => (NoFuel, (n, s.2))
  end.

Definition get_rsp : P ResponsePacket.t := λ s, (Ok s.2, s).
Definition set_rsp (r : ResponsePacket.t) : P unit := λ s, (Ok tt, (s.1, r)).
Definition decode_exception {A} : P A := throw (FromTars TarsDecodeException).

(** A read from an input stream [is]; what an exception leaves in a response that
    [readFrom] was filling is not modelled, the callers drop it. *)
Definition reading {A} (m : reads_prog A) (ist : BufferReader) : P (A * BufferReader) := λ s,
  match m ist with
  | (Ok a, ist') => (Ok (a, ist'), s)
  | (Throw e, _) => (Throw (FromTars e), s)
  | (OutOfBounds, _) => (OutOfBounds, s)
  | (AssertFailed, _) => (AssertFailed, s)
  | (NoFuel, _) => (NoFuel, s)
  end.

(** * Requests *)

(** [ProxyProtocol::toBuffer]: the writer's block changes hands, without a copy. *)
Definition toBuffer (os : BufferWriter.t) : Buffer.t * BufferWriter.t :=
  ((Buffer.replaceBuffer (Some (BufferWriter.data os)) (BufferWriter.getLength os) Buffer.new).2,
   BufferWriter.init).

(** [memcpy(os.getBuffer(), bytes, n)]. *)
Definition overwrite (bytes : list Z) : prog BufferWriter.t tars_error unit := λ os,
  if zlen bytes <=? BufferWriter.buf_len os
  then (Ok tt, BufferWriter.mk (bytes ++ drop (length bytes) (BufferWriter.data os)) (BufferWriter.buf_len os))
  else (OutOfBounds, os).

(** [ProxyProtocol::tarsRequest]. *)
Definition tarsRequest_os (request : RequestPacket.t) : prog BufferWriter.t tars_error unit :=
  BufferWriter.writeBuf (le_bytes 4 0) ;;;
  writeTo false RequestPacket.fields request ;;;
  let* os := get_st in
  assert_that (4 <=? BufferWriter.getLength os) ;;;
  let iHeaderLen := wrapS 32 (htonl (wrapS 32 (BufferWriter.getLength os))) in
  overwrite (le_bytes 4 iHeaderLen).

Definition tarsRequest (request : RequestPacket.t) : outcome tars_error Buffer.t :=
  match tarsRequest_os request BufferWriter.init with
  | (Ok _, os) => Ok (toBuffer os).1
  | (Throw e, _) => Throw e
  | (OutOfBounds, _) => OutOfBounds
  | (AssertFailed, _) => AssertFailed
  | (NoFuel, _) => NoFuel
  end.

(** [ProxyProtocol::streamRequest]. *)
Definition streamRequest (request : RequestPacket.t) : outcome net_error Buffer.t :=
  match Buffer.addBuffer (RequestPacket.sBuffer request) Buffer.new with
  | (Ok _, b) => Ok b
  | (Throw e, _) => Throw e
  | (OutOfBounds, _) => OutOfBounds
  | (AssertFailed, _) => AssertFailed
  | (NoFuel, _) => NoFuel
  end.

(** * Responses *)
Section responses.
Context (K : base_constants).

(** [set] functions for the members the code assigns one by one. *)
Definition with_iVersion v (r : ResponsePacket.t) := let '(ResponsePacket.mk _ b c d e f g h i) := r in ResponsePacket.mk v b c d e f g h i.
Definition with_cPacketType v (r : ResponsePacket.t) := let '(ResponsePacket.mk a _ c d e f g h i) := r in ResponsePacket.mk a v c d e f g h i.
Definition with_iRequestId v (r : ResponsePacket.t) := let '(ResponsePacket.mk a b _ d e f g h i) := r in ResponsePacket.mk a b v d e f g h i.
Definition with_iMessageType v (r : ResponsePacket.t) := let '(ResponsePacket.mk a b c _ e f g h i) := r in ResponsePacket.mk a b c v e f g h i.
Definition with_iRet v (r : ResponsePacket.t) := let '(ResponsePacket.mk a b c d _ f g h i) := r in ResponsePacket.mk a b c d v f g h i.
Definition with_sBuffer v (r : ResponsePacket.t) := let '(ResponsePacket.mk a b c d e _ g h i) := r in ResponsePacket.mk a b c d e v g h i.
Definition with_context v (r : ResponsePacket.t) := let '(ResponsePacket.mk a b c d e f g h _) := r in ResponsePacket.mk a b c d e f g h v.

(** The stream the checks of an incomplete packet use:
    [is.setBuffer(buffer.c_str() + sizeof(Int32), head)] where [buffer] holds
    [head] bytes and the terminating zero. *)
Definition head_stream (head : Z) : P BufferReader :=
  let* h := on_in (NetWorkBuffer.getHeader head) in
  match h with
  | Some buffer => ret (setBuffer (drop 4 (buffer ++ [0])) head)
  | None => ret (setBuffer [] head)   (* the code would read an empty string *)
  end.

(** The checks every response goes through. *)
Definition check (b : bool) : P unit := if b then ret tt else decode_exception.

(** [getBufferLength()] as a [uint32_t], the length prefix, and its bounds. *)
Definition packet_length (iMinLength iMaxLength : Z) (short : P PACKET_TYPE) (k : Z → Z → P PACKET_TYPE)
  : P PACKET_TYPE :=
  let* s := get_st in
  let len := wrapU 32 (NetWorkBuffer.getBufferLength s.1) in
  if len <? 4 then short else
  let* iHeaderLen := on_in NetWorkBuffer.getValueOf4 in
  check (negb ((iHeaderLen <? iMinLength) || (iMaxLength <? iHeaderLen))) ;;;
  k len iHeaderLen.

(** The checks on the head of a packet that is still incomplete, as
    [tarsResponseLen] and [jsonResponseLen] make them, with the two members
    after [cPacketType] in the order the function reads them. *)
Definition check_head (version_ok : Z → bool) (head : Z)
    (third fourth : BufferReader → P BufferReader) : P unit :=
  let* ist := head_stream head in
  let* rsp := get_rsp in
  let* (v, ist) := reading (read_Short (ResponsePacket.iVersion rsp) 1 false) ist in
  set_rsp (with_iVersion v rsp) ;;;
  check (version_ok v) ;;;
  let* rsp := get_rsp in
  let* (t, ist) := reading (read_Char (ResponsePacket.cPacketType rsp) 2 false) ist in
  set_rsp (with_cPacketType t rsp) ;;;
  check (t =? TARSNORMAL K) ;;;
  let* ist := third ist in
  let* ist := fourth ist in
  let* rsp := get_rsp in
  let* (r, ist) := reading (read_Int32 (ResponsePacket.iRet rsp) 5 false) ist in
  set_rsp (with_iRet r rsp) ;;;
  check (negb (r <? TARSSERVERUNKNOWNERR K)).

Definition read_iRequestId (tag : Z) (ist : BufferReader) : P BufferReader :=
  let* rsp := get_rsp in
  let* (v, ist) := reading (read_Int32 (ResponsePacket.iRequestId rsp) tag false) ist in
  set_rsp (with_iRequestId v rsp) ;;; ret ist.
Definition read_iMessageType (tag : Z) (ist : BufferReader) : P BufferReader :=
  let* rsp := get_rsp in
  let* (v, ist) := reading (read_Int32 (ResponsePacket.iMessageType rsp) tag false) ist in
  set_rsp (with_iMessageType v rsp) ;;; ret ist.

(** [rsp.readFrom(is)] on the body of a packet. *)
Definition read_rsp (buffer : list Z) : P unit :=
  let* rsp := get_rsp in
  let* (rsp, _) := reading (readFrom ResponsePacket.fields rsp) (setBuffer buffer (zlen buffer)) in
  set_rsp rsp.

(** [RequestPacket req; req.readFrom(is)] on a packet with its length. *)
Definition read_req (buffer : list Z) : P RequestPacket.t :=
  let* (req, _) := reading (readFrom RequestPacket.fields RequestPacket.empty)
                     (setBuffer (drop 4 buffer) (wrapU 64 (zlen buffer - 4))) in
  ret req.

(** The members a TUP response takes from the request packet it is. *)
Definition take_req (req : RequestPacket.t) (buffer : list Z) : P unit :=
  let* rsp := get_rsp in
  set_rsp (with_sBuffer buffer (with_context (RequestPacket.context req)
    (with_iVersion (RequestPacket.iVersion req) (with_iRequestId (RequestPacket.iRequestId req)
    (with_iMessageType (RequestPacket.iMessageType req) (with_cPacketType (RequestPacket.cPacketType req) rsp)))))).

(** [ProxyProtocol::tarsResponseLen]. *)
Definition tarsResponseLen (iMinLength iMaxLength : Z) : P PACKET_TYPE :=
  packet_length iMinLength iMaxLength (ret PACKET_LESS) (λ len iHeaderLen,
    if len <? iHeaderLen then
      (if 20 <=? len
       then check_head (Z.eqb (TARSVERSION K)) 20 (read_iRequestId 3) (read_iMessageType 4)
       else ret tt) ;;;
      ret PACKET_LESS
    else
      let* (r, buffer) := on_in (NetWorkBuffer.parseBufferOf4 [] iMinLength iMaxLength) in
      check (match r with PACKET_LESS => false | _ => true end) ;;;
      read_rsp buffer ;;;
      let* rsp := get_rsp in
      check (ResponsePacket.iVersion rsp =? TARSVERSION K) ;;;
      check (ResponsePacket.cPacketType rsp =? TARSNORMAL K) ;;;
      check (negb (ResponsePacket.iRet rsp <? TARSSERVERUNKNOWNERR K)) ;;;
      ret PACKET_FULL).

(** [ProxyProtocol::jsonResponseLen]; [bool ret = in.parseBufferOf4(...)]. *)
Definition jsonResponseLen (iMinLength iMaxLength : Z) : P PACKET_TYPE :=
  packet_length iMinLength iMaxLength (ret PACKET_LESS) (λ len iHeaderLen,
    if len <? iHeaderLen then
      (if 20 <=? len
       then check_head (Z.eqb (JSONVERSION K)) 20 (read_iMessageType 3) (read_iRequestId 4)
       else ret tt) ;;;
      ret PACKET_LESS
    else
      let* (r, buffer) := on_in (NetWorkBuffer.parseBufferOf4 [] iMinLength iMaxLength) in
      check (negb (PACKET_TYPE_value r =? 0)) ;;;
      read_rsp buffer ;;;
      let* rsp := get_rsp in
      check (ResponsePacket.iVersion rsp =? JSONVERSION K) ;;;
      check (ResponsePacket.cPacketType rsp =? TARSNORMAL K) ;;;
      check (negb (ResponsePacket.iRet rsp <? TARSSERVERUNKNOWNERR K)) ;;;
      ret PACKET_FULL).

(** The head checks of [tupResponseLen], on a local [RequestPacket]. *)
Definition check_head_tup : P unit :=
  let* ist := head_stream 20 in
  let* (v, ist) := reading (read_Short 0 1 true) ist in
  check (v =? TUPVERSION K) ;;;
  let* (t, ist) := reading (read_Char 0 2 true) ist in
  check (t =? TARSNORMAL K) ;;;
  let* (_, ist) := reading (read_Int32 0 3 true) ist in
  let* (_, ist) := reading (read_Int32 0 4 true) ist in
  ret tt.

(** [ProxyProtocol::tupResponseLen]. *)
Definition tupResponseLen (iMinLength iMaxLength : Z) : P PACKET_TYPE :=
  packet_length iMinLength iMaxLength (ret PACKET_LESS) (λ len iHeaderLen,
    if len <? iHeaderLen then
      (if 20 <=? len then check_head_tup else ret tt) ;;; ret PACKET_LESS
    else
      let* h := on_in (NetWorkBuffer.getHeader iHeaderLen) in
      let buffer := default (replicate (Z.to_nat iHeaderLen) 0) h in
      let* req := read_req buffer in
      check (RequestPacket.iVersion req =? TUPVERSION K) ;;;
      check (RequestPacket.cPacketType req =? TARSNORMAL K) ;;;
      take_req req buffer ;;;
      on_in (NetWorkBuffer.moveHeader iHeaderLen) ;;;
      ret PACKET_FULL).

(** [ProxyProtocol::totalResponseLen]. *)
Definition totalResponseLen (iMinLength iMaxLength : Z) : P PACKET_TYPE :=
  packet_length iMinLength iMaxLength (ret PACKET_LESS) (λ len iHeaderLen,
    if len <? iHeaderLen then
      (if 18 <=? len
       then check_head (λ v, (v =? TARSVERSION K) || (v =? TUPVERSION K) || (v =? JSONVERSION K))
              18 (read_iRequestId 3) (read_iMessageType 4)
       else ret tt) ;;;
      ret PACKET_LESS
    else
      let* h := on_in (NetWorkBuffer.getHeader iHeaderLen) in
      let buffer := default [] h in
      let* rsp := get_rsp in
      let* (v, _) := reading (read_Short (ResponsePacket.iVersion rsp) 1 false)
                       (setBuffer (drop 4 (buffer ++ [0])) (wrapU 64 (iHeaderLen - 4))) in
      set_rsp (with_iVersion v rsp) ;;;
      if v =? TUPVERSION K then
        let* h := on_in (NetWorkBuffer.getHeader iHeaderLen) in
        let buffer := default (replicate (Z.to_nat iHeaderLen) 0) h in
        let* req := read_req buffer in
        check (RequestPacket.cPacketType req =? TARSNORMAL K) ;;;
        take_req req buffer ;;;
        on_in (NetWorkBuffer.moveHeader iHeaderLen) ;;;
        ret PACKET_FULL
      else if (v =? TARSVERSION K) || (v =? JSONVERSION K) then
        let* (r, buffer) := on_in (NetWorkBuffer.parseBufferOf4 [] iMinLength iMaxLength) in
        check (negb (PACKET_TYPE_value r =? 0)) ;;;
        read_rsp buffer ;;;
        let* rsp := get_rsp in
        check (ResponsePacket.cPacketType rsp =? TARSNORMAL K) ;;;
        check (negb (ResponsePacket.iRet rsp <? TARSSERVERUNKNOWNERR K)) ;;;
        ret PACKET_FULL
      else decode_exception).

Definition tarsResponse : P PACKET_TYPE := tarsResponseLen TARS_NET_MIN_PACKAGE_SIZE TARS_NET_MAX_PACKAGE_SIZE.
Definition tupResponse : P PACKET_TYPE := tupResponseLen TARS_NET_MIN_PACKAGE_SIZE TARS_NET_MAX_PACKAGE_SIZE.
Definition jsonResponse : P PACKET_TYPE := jsonResponseLen TARS_NET_MIN_PACKAGE_SIZE TARS_NET_MAX_PACKAGE_SIZE.
Definition totalResponse : P PACKET_TYPE := totalResponseLen TARS_NET_MIN_PACKAGE_SIZE TARS_NET_MAX_PACKAGE_SIZE.
End responses.

(** * Parsers *)

(** [AppProtocol::parse]. *)
Definition parse (out : list Z) : NetWorkBuffer.M (PACKET_TYPE * list Z) :=
  NetWorkBuffer.parseBufferOf4 out TARS_NET_MIN_PACKAGE_SIZE TARS_NET_MAX_PACKAGE_SIZE.

(** [AppProtocol::parseStream<offset, T, netorder>] for an unsigned [T] of [k]
    bytes. *)
Definition parseStream (offset k : Z) (netorder : bool) (out : list Z) : NetWorkBuffer.M (PACKET_TYPE * list Z) :=
  let len := offset + k in
  let* s := get_st in
  if NetWorkBuffer.getBufferLength s <? len then ret (PACKET_LESS, out) else
  let* h := NetWorkBuffer.getHeader len in
  let header := default [] h in
  assert_that (zlen header =? len) ;;;
  let field := take (Z.to_nat k) (drop (Z.to_nat offset) header) in
  let iHeaderLen := if netorder then bswap (Z.to_nat k) (le_val field) else le_val field in
  if (iHeaderLen <? wrapU (8 * k) len) || (TARS_NET_MAX_PACKAGE_SIZE <? wrapU 32 iHeaderLen)
  then ret (PACKET_ERR, out)
  else if NetWorkBuffer.getBufferLength s <? wrapU 32 iHeaderLen then ret (PACKET_LESS, out)
  else
    let* h := NetWorkBuffer.getHeader iHeaderLen in
    let out := default out h in
    assert_that (zlen out =? iHeaderLen) ;;;
    NetWorkBuffer.moveHeader iHeaderLen ;;;
    ret (PACKET_FULL, out).

(** * What the functions do *)

(** The bytes of a packet body. *)
Definition request_bytes (r : RequestPacket.t) : list Z := wires (struct_fields false RequestPacket.fields r).
Definition response_bytes (cd : bool) (r : ResponsePacket.t) : list Z :=
  wires (struct_fields cd ResponsePacket.fields r).

Section requests_spec.
Lemma htonl_prefix n : le_bytes 4 (wrapS 32 (htonl (wrapS 32 n))) = be_bytes 4 n.
Proof.
  change 32 with (8 * Z.of_nat 4). rewrite le_bytes_wrapS by lia. unfold htonl.
  rewrite le_bytes_bswap. unfold be_bytes. by rewrite le_bytes_wrapS by lia.
Qed.

Lemma toBuffer_content data n : zlen data < 2 ^ 62 →
  Buffer.wf (toBuffer (BufferWriter.mk data n)).1 ∧
  Buffer.content (toBuffer (BufferWriter.mk data n)).1 = data.
Proof.
  intros Hl. change (toBuffer _).1 with (Buffer.mk (Some data) 0 (zlen data) (zlen data)). split.
  - unfold Buffer.wf; cbn. lia.
  - rewrite Buffer.content_at_0. apply take_ge. lia.
Qed.

(** The buffer of a request holds the framed packet. *)
Lemma tarsRequest_frame r :
  struct_ok RequestPacket.fields r → zlen (request_bytes r) < 2 ^ 31 →
  ∃ b, tarsRequest r = Ok b ∧ Buffer.wf b ∧
    Buffer.content b = NetWorkBuffer.frame4 (request_bytes r).
Proof.
  intros Hr Hl. unfold request_bytes in *. set (body := wires _) in *.
  destruct (BufferWriter.append_spec BufferWriter.init (le_bytes 4 0)) as (w1 & E1 & Hw1 & D1);
    [unfold BufferWriter.wf; cbn; lia | cbn; lia |].
  pose proof (writes_struct_fields (S:=BufferWriter.t) false RequestPacket.fields r Hr sl_tags) as Hw.
  destruct (Hw w1 Hw1) as (w2 & E2 & Hw2 & D2).
  { fold body. change (w_view w1) with (BufferWriter.data w1). rewrite D1, length_app, length_le_bytes. change (length (BufferWriter.data BufferWriter.init)) with 0%nat. lia. }
  cbn [w_view w_wf BufferWriter.writer] in *. fold body in D2. rewrite D1 in D2.
  assert (Hlen : BufferWriter.getLength w2 = zlen body + 4).
  { unfold BufferWriter.getLength. rewrite D2, length_app. cbn. lia. }
  unfold tarsRequest, tarsRequest_os. rewrite (bind_Ok _ _ _ _ _ E1), (bind_Ok _ _ _ _ _ E2).
  unfold bind, get_st, assert_that. rewrite Hlen, (proj2 (Z.leb_le _ _)) by lia.
  unfold overwrite. rewrite htonl_prefix, length_be_bytes.
  unfold BufferWriter.wf in Hw2. unfold BufferWriter.getLength in Hlen.
  rewrite (proj2 (Z.leb_le _ _)) by lia. rewrite D2. eexists. split; [done |].
  pose proof (NetWorkBuffer.length_frame4 body) as Hf.
  apply (toBuffer_content (NetWorkBuffer.frame4 body)). lia.
Qed.
End requests_spec.

(** The bytes of an object, read from a stream that holds nothing else. *)
Lemma read_packet {R} (F : list (member R)) `{!StructLaws F} cd r r0 :
  struct_ok F r →
  ∃ ist, readFrom F r0 (setBuffer (wires (struct_fields cd F r)) (zlen (wires (struct_fields cd F r)))) = (Ok r, ist).
Proof.
  intros Hr. pose proof (bytes_ok_struct_fields cd F r Hr sl_tags) as Hb.
  pose proof (readFrom_writeTo F cd r r0 [] [] Hr (or_introl eq_refl)) as E.
  rewrite app_nil_r, app_nil_l in E. specialize (E Hb). eexists.
  exact E.
Qed.

Section responses_spec.
Context (K : base_constants).

Lemma on_in_Ok {A} (m : NetWorkBuffer.M A) n r a n' : m n = (Ok a, n') → on_in m (n, r) = (Ok a, (n', r)).
Proof. unfold on_in; cbn. by intros ->. Qed.

Lemma reading_Ok {A} (m : reads_prog A) ist s a ist' : m ist = (Ok a, ist') →
  reading m ist s = (Ok (a, ist'), s).
Proof. unfold reading. by intros ->. Qed.

(** A framed body at the front of the queue is parsed off. *)
Lemma parse_front n out body rest lo hi :
  NetWorkBuffer.inv n → NetWorkBuffer.abs n = NetWorkBuffer.frame4 body ++ rest →
  in_U 32 lo → in_U 32 hi → lo ≤ zlen body + 4 ≤ hi →
  ∃ n', NetWorkBuffer.parseBufferOf4 out lo hi n = (Ok (PACKET_FULL, body), n') ∧
    NetWorkBuffer.inv n' ∧ NetWorkBuffer.abs n' = rest.
Proof.
  intros Hi Ea Hlo Hhi Hr. unfold NetWorkBuffer.parseBufferOf4. rewrite !wrapU_id by done.
  destruct (NetWorkBuffer.parseBuffer_spec n 4 out lo hi Hi) as (t & o & n' & E & Hi' & Ef); [lia |].
  rewrite Ea, NetWorkBuffer.parse_frame4 in Ef by (unfold in_U in *; lia). simplify_eq. eauto.
Qed.

(** The length prefix of the packet at the front. *)
Lemma packet_length_front n r lo hi short k body rest :
  NetWorkBuffer.inv n → NetWorkBuffer.abs n = NetWorkBuffer.frame4 body ++ rest →
  zlen (NetWorkBuffer.abs n) < 2 ^ 32 → lo ≤ zlen body + 4 ≤ hi →
  packet_length lo hi short k (n, r) = k (zlen (NetWorkBuffer.abs n)) (zlen body + 4) (n, r).
Proof.
  intros Hi Ea H32 Hr. pose proof Hi as (_ & _ & _ & El & _).
  pose proof (NetWorkBuffer.length_frame4 body) as Hf.
  assert (Hl : zlen body + 4 ≤ zlen (NetWorkBuffer.abs n)) by (rewrite Ea, length_app; lia).
  unfold packet_length, bind at 1, get_st, NetWorkBuffer.getBufferLength. cbn [fst].
  rewrite El, wrapU_id by (unfold in_U; lia). cbv zeta. rewrite (proj2 (Z.ltb_ge _ _)) by lia.
  pose proof (NetWorkBuffer.getValue_spec n 4 Hi ltac:(lia)) as Ev.
  rewrite Ea, NetWorkBuffer.net_val_frame4 in Ev by lia.
  unfold NetWorkBuffer.getValueOf4. rewrite (bind_Ok _ _ _ _ _ (on_in_Ok _ _ _ _ _ Ev)).
  rewrite (proj2 (orb_false_iff _ _)) by (rewrite !Z.ltb_ge; lia). done.
Qed.

(** A complete response is delivered and taken off the queue. *)
Lemma tarsResponse_full n r0 cd r rest :
  NetWorkBuffer.inv n → NetWorkBuffer.abs n = NetWorkBuffer.frame4 (response_bytes cd r) ++ rest →
  zlen (NetWorkBuffer.abs n) < 2 ^ 32 → struct_ok ResponsePacket.fields r →
  TARS_NET_MIN_PACKAGE_SIZE ≤ zlen (response_bytes cd r) + 4 ≤ TARS_NET_MAX_PACKAGE_SIZE →
  ResponsePacket.iVersion r = TARSVERSION K → ResponsePacket.cPacketType r = TARSNORMAL K →
  TARSSERVERUNKNOWNERR K ≤ ResponsePacket.iRet r →
  ∃ n', tarsResponse K (n, r0) = (Ok PACKET_FULL, (n', r)) ∧
    NetWorkBuffer.inv n' ∧ NetWorkBuffer.abs n' = rest.
Proof.
  intros Hi Ea H32 Hr Hs Hv Ht Hret. unfold tarsResponse, tarsResponseLen.
  erewrite packet_length_front by done. rewrite (proj2 (Z.ltb_ge _ _)).
  2: { rewrite Ea, length_app. pose proof (NetWorkBuffer.length_frame4 (response_bytes cd r)). lia. }
  destruct (parse_front n [] _ rest TARS_NET_MIN_PACKAGE_SIZE TARS_NET_MAX_PACKAGE_SIZE Hi Ea)
    as (n' & E & Hi' & Ea'); [done.. |].
  rewrite (bind_Ok _ _ _ _ _ (on_in_Ok _ _ _ _ _ E)). exists n'. split; [|done].
  destruct (read_packet ResponsePacket.fields cd r r0 Hr) as [ist Erd].
  unfold bind at 1, check at 1, ret at 1. unfold bind at 1, read_rsp.
  unfold get_rsp at 1. unfold bind at 1. cbn [snd].
  rewrite (bind_Ok _ _ _ _ _ (reading_Ok _ _ _ _ _ Erd)). unfold set_rsp, bind, get_rsp, check; cbn [fst snd].
  rewrite Hv, Ht, !Z.eqb_refl. rewrite (proj2 (Z.ltb_ge _ _)) by done. done.
Qed.

(** A complete packet of another version is refused with an exception. *)
Lemma tarsResponse_version n r0 cd r rest :
  NetWorkBuffer.inv n → NetWorkBuffer.abs n = NetWorkBuffer.frame4 (response_bytes cd r) ++ rest →
  zlen (NetWorkBuffer.abs n) < 2 ^ 32 → struct_ok ResponsePacket.fields r →
  TARS_NET_MIN_PACKAGE_SIZE ≤ zlen (response_bytes cd r) + 4 ≤ TARS_NET_MAX_PACKAGE_SIZE →
  ResponsePacket.iVersion r ≠ TARSVERSION K ∨ ResponsePacket.cPacketType r ≠ TARSNORMAL K ∨
    ResponsePacket.iRet r < TARSSERVERUNKNOWNERR K →
  ∃ s, tarsResponse K (n, r0) = (Throw (FromTars TarsDecodeException), s).
Proof.
  intros Hi Ea H32 Hr Hs Hbad. unfold tarsResponse, tarsResponseLen.
  erewrite packet_length_front by done. rewrite (proj2 (Z.ltb_ge _ _)).
  2: { rewrite Ea, length_app. pose proof (NetWorkBuffer.length_frame4 (response_bytes cd r)). lia. }
  destruct (parse_front n [] _ rest TARS_NET_MIN_PACKAGE_SIZE TARS_NET_MAX_PACKAGE_SIZE Hi Ea)
    as (n' & E & Hi' & Ea'); [done.. |].
  rewrite (bind_Ok _ _ _ _ _ (on_in_Ok _ _ _ _ _ E)). exists (n', r).
  destruct (read_packet ResponsePacket.fields cd r r0 Hr) as [ist Erd].
  unfold bind at 1, check at 1, ret at 1. unfold bind at 1, read_rsp.
  unfold get_rsp at 1. unfold bind at 1. cbn [snd].
  rewrite (bind_Ok _ _ _ _ _ (reading_Ok _ _ _ _ _ Erd)). unfold set_rsp, bind, get_rsp, check; cbn [fst snd].
  destruct (Z.eqb_spec (ResponsePacket.iVersion r) (TARSVERSION K)); [|done].
  destruct (Z.eqb_spec (ResponsePacket.cPacketType r) (TARSNORMAL K)); [|done].
  destruct Hbad as [? | [? | ?]]; [done.. |]. by rewrite (proj2 (Z.ltb_lt _ _)).
Qed.
End responses_spec.
