(* ===== verification/Transceiver.v ===== *)
(** The receiving side of a connection: the parse loop
    [TC_Transceiver::doProtocolAnalysis] and the receive step of
    [TC_TCPTransceiver::doResponse] from [src/util/src/tc_transceiver.cpp], with
    the server's parser callback [Connection::onParserCallback] from
    [src/util/src/tc_epoll_server.cpp].  However the network cuts a stream of
    packets into pieces, the server queues exactly the packets sent. *)
From stdpp Require Import prelude gmap list.
From Stdlib Require Import ZArith Lia.
From S2P Require Import Prelude Bytes NetBuffer AppProtocol.

Definition BUFFER_SIZE := 16 * 1024.
Definition MAX_BUFFER_SIZE := 1024 * 1024 * 10.

Inductive tx_error : Type := TC_Transceiver_Exception.

(** * The parse loop *)
Section analysis.
(** The state around the receive buffer, the callbacks, and what closing the
    connection does to it. *)
Context {X E : Type} (recvBuffer : X → NetWorkBuffer.t).
Context (onParser : prog X E PACKET_TYPE).
Context (onCompletePackage onCompleteNetwork tcpClose : X → X).

Definition is_full (p : PACKET_TYPE) : bool :=
  match p with PACKET_FULL | PACKET_FULL_CLOSE => true | _ => false end.

(** The [do ... while] loop: the last packet type and the number of packets.
    A thrown exception is any exception inside the [try] block. *)
Fixpoint analysis_loop (fuel : nat) (packetCount : Z) : prog X tx_error (PACKET_TYPE * Z) := λ s,
  match fuel with
  | O => (NoFuel, s)
  | S fuel' =>
    let ioriginal := wrapS 32 (NetWorkBuffer.getBufferLength (recvBuffer s)) in
    match onParser s with
    | (Ok ret, s1) =>
      let isurplus := wrapS 32 (NetWorkBuffer.getBufferLength (recvBuffer s1)) in
      let packetCount := if is_full ret then packetCount + 1 else packetCount in
      let s2 := onCompletePackage s1 in
      match ret with
      | PACKET_FULL =>
        if ioriginal =? isurplus then (Throw TC_Transceiver_Exception, tcpClose s2)
        else analysis_loop fuel' packetCount s2
      | PACKET_FULL_CLOSE => (Ok (ret, packetCount), tcpClose s2)
      | _ => (Ok (ret, packetCount), s2)
      end
    | (Throw _, s1) => (Throw TC_Transceiver_Exception, s1)
    | (OutOfBounds, s1) => (OutOfBounds, s1)
    | (AssertFailed, s1) => (AssertFailed, s1)
    | (NoFuel, s1) => (NoFuel, s1)
    end
  end.

(** After the loop: the network callback; exceptions and parse errors close
    the connection. *)
Definition doProtocolAnalysis : prog X tx_error Z := λ s,
  match analysis_loop (S (Z.to_nat (NetWorkBuffer.getBufferLength (recvBuffer s)))) 0 s with
  | (Ok (ret, packetCount), s1) =>
    let s2 := onCompleteNetwork s1 in
    match ret with
    | PACKET_ERR => (Throw TC_Transceiver_Exception, tcpClose s2)
    | _ => (Ok packetCount, s2)
    end
  | (Throw e, s1) => (Throw e, tcpClose (onCompleteNetwork s1))
  | (OutOfBounds, s1) => (OutOfBounds, s1)
  | (AssertFailed, s1) => (AssertFailed, s1)
  | (NoFuel, s1) => (NoFuel, s1)
  end.
End analysis.

(** * The server's connection *)
Module Connection.
(** The receive buffer, [_iHeaderLen], [_bEmptyConn], [_recv], the queue of the
    bind adapter, and whether the connection is still open. *)
Record t := mk {
  rbuf : NetWorkBuffer.t; _iHeaderLen : Z; _bEmptyConn : bool;
  _recv : list (list Z); queue : list (list Z); open : bool
}.

Abbreviation M A := (prog t net_error A).

Definition on_buf {A} (m : NetWorkBuffer.M A) : M A := λ s,
  let '(o, n) := m (rbuf s) in
  (o, mk n (_iHeaderLen s) (_bEmptyConn s) (_recv s) (queue s) (open s)).

Definition set_iHeaderLen n : M unit :=
  modify (λ s, mk (rbuf s) n (_bEmptyConn s) (_recv s) (queue s) (open s)).

Section callbacks.
(** [_pBindAdapter->getProtocol()]. *)
Context (protocol : list Z → NetWorkBuffer.M (PACKET_TYPE * list Z)).

(** The protocol, and the packet it produced on [_recv]. *)
Definition run_protocol : M PACKET_TYPE :=
  let* (r, ro) := on_buf (protocol []) in
  match r with
  | PACKET_FULL =>
    modify (λ s, mk (rbuf s) (_iHeaderLen s) false (_recv s ++ [ro]) (queue s) (open s)) ;;;
    ret r
  | _ => ret r
  end.

(** [Connection::onParserCallback]; the header filter only sees the bytes. *)
Definition onParserCallback : M PACKET_TYPE :=
  let* s := get_st in
  if NetWorkBuffer.empty (rbuf s) then ret PACKET_LESS else
  if 0 <? _iHeaderLen s then
    if _iHeaderLen s <=? NetWorkBuffer.getBufferLength (rbuf s) then
      on_buf (NetWorkBuffer.getHeader (_iHeaderLen s)) ;;;
      on_buf (NetWorkBuffer.moveHeader (_iHeaderLen s)) ;;;
      set_iHeaderLen 0 ;;;
      run_protocol
    else
      on_buf NetWorkBuffer.getBuffers ;;;
      set_iHeaderLen (_iHeaderLen s - wrapS 32 (NetWorkBuffer.getBufferLength (rbuf s))) ;;;
      on_buf NetWorkBuffer.clearBuffers ;;;
      ret PACKET_LESS
  else run_protocol.

(** [Connection::onCompleteNetworkCallback]. *)
Definition onCompleteNetworkCallback (s : t) : t :=
  mk (rbuf s) (_iHeaderLen s) (_bEmptyConn s) [] (queue s ++ _recv s) (open s).

(** [TC_Transceiver::tcpClose], for an open TCP connection. *)
Definition tcpClose (s : t) : t :=
  if open s then
    mk (NetWorkBuffer.clearBuffers (rbuf s)).2 (_iHeaderLen s) (_bEmptyConn s) (_recv s) (queue s) false
  else s.

Definition analyse : prog t tx_error Z :=
  doProtocolAnalysis rbuf onParserCallback (λ s, s) onCompleteNetworkCallback tcpClose.

(** One round of [doResponse]: room for the bytes, [recv] into it, and the
    parse loop.  [chunk] is what [recv] delivers. *)
Definition receive_chunk (chunk : list Z) : M unit :=
  let* s := get_st in
  let expansion := Z.max (Z.min (NetWorkBuffer.getBufferLength (rbuf s)) MAX_BUFFER_SIZE) BUFFER_SIZE in
  let* data := on_buf (NetWorkBuffer.getOrCreateBuffer (BUFFER_SIZE / 8) expansion) in
  on_buf (NetWorkBuffer.on data (Buffer.receive chunk)) ;;;
  on_buf (NetWorkBuffer.addLength (zlen chunk)).

Definition doResponse_once (chunk : list Z) : prog t tx_error Z := λ s,
  match receive_chunk chunk s with
  | (Ok _, s1) => analyse s1
  | (Throw _, s1) => (Throw TC_Transceiver_Exception, s1)
  | (OutOfBounds, s1) => (OutOfBounds, s1)
  | (AssertFailed, s1) => (AssertFailed, s1)
  | (NoFuel, s1) => (NoFuel, s1)
  end.

Fixpoint receive_all (chunks : list (list Z)) : prog t tx_error unit :=
  match chunks with
  | [] => ret tt
  | c :: cs => doResponse_once c ;;; receive_all cs
  end.
End callbacks.
End Connection.

(** * Reassembly *)

(** Sizes [AppProtocol::parse] accepts. *)
Definition body_ok (b : list Z) : Prop :=
  TARS_NET_MIN_PACKAGE_SIZE ≤ zlen b + 4 ≤ TARS_NET_MAX_PACKAGE_SIZE.

Definition frames (bodies : list (list Z)) : list Z := concat (map NetWorkBuffer.frame4 bodies).

(** [part] is a proper beginning of the first frame of [bodies], or nothing when
    there are none. *)
Definition partial (part : list Z) (bodies : list (list Z)) : Prop :=
  match bodies with
  | [] => part = []
  | b :: _ => ∃ rest, NetWorkBuffer.frame4 b = part ++ rest ∧ rest ≠ []
  end.

Section reassembly.
Implicit Types (bodies : list (list Z)) (s : Connection.t).

(** Any beginning of a stream of frames is some whole frames and a part. *)
Lemma split_stream bodies p q : p ++ q = frames bodies →
  ∃ done todo part, bodies = done ++ todo ∧ p = frames done ++ part ∧ partial part todo ∧
    part ++ q = frames todo.
Proof.
  revert p. induction bodies as [|b bodies IH]; intros p E.
  - unfold frames in E; cbn in E. apply app_eq_nil in E as [-> ->]. by exists [], [], [].
  - change (frames (b :: bodies)) with (NetWorkBuffer.frame4 b ++ frames bodies) in E.
    destruct (decide (zlen p < zlen (NetWorkBuffer.frame4 b))) as [Hlt|Hge].
    + exists [], (b :: bodies), p. split_and!; try done.
      exists (drop (length p) (NetWorkBuffer.frame4 b)).
      assert (Ep : p = take (length p) (NetWorkBuffer.frame4 b)).
      { apply (f_equal (take (length p))) in E.
        rewrite take_app_length, take_app_le in E by lia. done. }
      split; [by rewrite Ep at 1; rewrite take_drop |].
      intros Hd. apply (f_equal length) in Hd. rewrite length_drop in Hd. change (length (@nil Z)) with 0%nat in Hd. lia.
    + assert (Ep : p = NetWorkBuffer.frame4 b ++ drop (length (NetWorkBuffer.frame4 b)) p).
      { apply (f_equal (take (length (NetWorkBuffer.frame4 b)))) in E.
        rewrite take_app_length, take_app_le in E by lia.
        rewrite <- E at 1. by rewrite take_drop. }
      set (p' := drop _ p) in *. rewrite Ep, <- app_assoc in E. apply app_inv_head in E.
      destruct (IH p' E) as (dn & todo & part & -> & Ed & Hp & Eq).
      exists (b :: dn), todo, part. split_and!; try done.
      change (frames (b :: dn)) with (NetWorkBuffer.frame4 b ++ frames dn).
      rewrite Ep at 1. by rewrite Ed, <- app_assoc.
Qed.

Abbreviation analysis :=
  (analysis_loop Connection.rbuf (Connection.onParserCallback parse) (λ s, s) Connection.tcpClose).

(** One call of the parser callback. *)
Definition after (s : Connection.t) n out :=
  Connection.mk n 0 false (Connection._recv s ++ [out]) (Connection.queue s) (Connection.open s).

Lemma run_parser s t out n : Connection._iHeaderLen s = 0 →
  NetWorkBuffer.inv (Connection.rbuf s) →
  NetWorkBuffer.abs (Connection.rbuf s) ≠ [] →
  parse [] (Connection.rbuf s) = (Ok (t, out), n) → t = PACKET_FULL ∨ t = PACKET_LESS →
  Connection.onParserCallback parse s =
    (Ok t, match t with
           | PACKET_FULL => after s n out
           | _ => Connection.mk n 0 (Connection._bEmptyConn s) (Connection._recv s)
                    (Connection.queue s) (Connection.open s)
           end).
Proof.
  intros Hh (_ & _ & _ & El & _) Hne E Ht.
  unfold Connection.onParserCallback, bind at 1, get_st, NetWorkBuffer.empty. rewrite El, Hh.
  rewrite (proj2 (Z.eqb_neq _ _)) by (destruct (NetWorkBuffer.abs _); [done | cbn; lia]).
  unfold Connection.run_protocol, Connection.on_buf, bind, modify. cbn [Z.ltb Z.compare]. rewrite E, Hh.
  unfold after. by destruct Ht as [-> | ->].
Qed.

(** [parse] on the flat queue. *)
Lemma parse_eq n : NetWorkBuffer.inv n →
  ∃ t out n', parse [] n = (Ok (t, out), n') ∧ NetWorkBuffer.inv n' ∧
    NetWorkBuffer.parse_flat 4 (NetWorkBuffer.abs n) [] TARS_NET_MIN_PACKAGE_SIZE TARS_NET_MAX_PACKAGE_SIZE =
    (t, out, NetWorkBuffer.abs n').
Proof. intros Hi. by apply NetWorkBuffer.parseBuffer_spec. Qed.

Lemma body_ok_range b : body_ok b → zlen b + 4 < 2 ^ 32.
Proof. unfold body_ok, TARS_NET_MAX_PACKAGE_SIZE. lia. Qed.

(** The loop takes every whole packet off the buffer and stops at the part. *)
Lemma analysis_frames bodies todo part s fuel count :
  Connection._iHeaderLen s = 0 → NetWorkBuffer.inv (Connection.rbuf s) →
  NetWorkBuffer.abs (Connection.rbuf s) = frames bodies ++ part →
  Forall body_ok bodies → Forall body_ok todo → partial part todo →
  zlen (NetWorkBuffer.abs (Connection.rbuf s)) < 2 ^ 31 → (length bodies < fuel)%nat →
  ∃ s', analysis fuel count s = (Ok (PACKET_LESS, count + zlen bodies), s') ∧
    NetWorkBuffer.inv (Connection.rbuf s') ∧ NetWorkBuffer.abs (Connection.rbuf s') = part ∧
    Connection._recv s' = Connection._recv s ++ bodies ∧ Connection.queue s' = Connection.queue s ∧
    Connection._iHeaderLen s' = 0 ∧ Connection.open s' = Connection.open s.
Proof.
  intros Hh Hi Ea Hb Htodo Hp Hsz. revert s count fuel Hh Hi Ea Hsz.
  induction Hb as [|b bodies Hbok Hb IH]; intros s count fuel Hh Hi Ea Hsz Hf;
    (destruct fuel as [|fuel]; [cbn in Hf; lia |]); cbn [analysis_loop].
  - unfold frames in Ea; cbn in Ea. rewrite Z.add_0_r, app_nil_r.
    destruct (decide (part = [])) as [->|Hne].
    + assert (E : Connection.onParserCallback parse s = (Ok PACKET_LESS, s)).
      { unfold Connection.onParserCallback, bind at 1, get_st, NetWorkBuffer.empty.
        pose proof Hi as (_ & _ & _ & El & _). by rewrite El, Ea. }
      rewrite E. cbn. by exists s.
    + destruct todo as [|b todo]; [done |]. destruct Hp as (rest & Eb & Hr).
      apply Forall_cons in Htodo as [Hbok _].
      destruct (parse_eq _ Hi) as (t & out & n' & E & Hi' & Ef). rewrite Ea in Ef.
      rewrite (NetWorkBuffer.parse_partial b part rest) in Ef by (done || apply body_ok_range, Hbok || exact Hbok).
      simplify_eq. rewrite (run_parser s _ _ _ Hh Hi) by (congruence || by right || done).
      cbn. eexists. split_and!; done.
  - change (frames (b :: bodies)) with (NetWorkBuffer.frame4 b ++ frames bodies) in Ea.
    rewrite <- app_assoc in Ea.
    destruct (parse_eq _ Hi) as (t & out & n' & E & Hi' & Ef). rewrite Ea in Ef.
    rewrite NetWorkBuffer.parse_frame4 in Ef by (apply body_ok_range, Hbok || exact Hbok).
    injection Ef as <- <- Ea'. pose proof (NetWorkBuffer.length_frame4 b) as Hl.
    rewrite (run_parser s _ _ _ Hh Hi) by (try done; try (by left); rewrite Ea; by destruct b).
    pose proof Hi as (_ & _ & _ & El & _). pose proof Hi' as (_ & _ & _ & El' & _).
    rewrite Ea, !length_app in Hsz.
    assert (Hdiff : (wrapS 32 (NetWorkBuffer.getBufferLength (Connection.rbuf s)) =?
      wrapS 32 (NetWorkBuffer.getBufferLength (Connection.rbuf (after s n' b)))) = false).
    { unfold NetWorkBuffer.getBufferLength, after; cbn [Connection.rbuf].
      rewrite El, El', Ea, <- Ea', !length_app. apply Z.eqb_neq.
      rewrite !wrapS_id by (unfold in_S; lia). lia. }
    cbn [is_full]. rewrite Hdiff.
    destruct (IH (after s n' b) (count + 1) fuel) as (s' & E' & Hi'' & Ea'' & Er & Eq & Eh & Eo);
      [done | done | done | cbn; rewrite <- Ea', length_app; lia | cbn in Hf; lia |].
    exists s'. rewrite E'. split_and!; try done; [do 3 f_equal; cbn; lia |].
    rewrite Er. cbn. by rewrite <- app_assoc.
Qed.

(** Receiving appends the bytes. *)
Lemma receive_chunk_spec s chunk :
  NetWorkBuffer.inv (Connection.rbuf s) → zlen chunk ≤ BUFFER_SIZE / 8 →
  zlen (NetWorkBuffer.abs (Connection.rbuf s)) + zlen chunk < 2 ^ 31 →
  ∃ n, Connection.receive_chunk chunk s =
      (Ok tt, Connection.mk n (Connection._iHeaderLen s) (Connection._bEmptyConn s)
                (Connection._recv s) (Connection.queue s) (Connection.open s)) ∧
    NetWorkBuffer.inv n ∧ NetWorkBuffer.abs n = NetWorkBuffer.abs (Connection.rbuf s) ++ chunk.
Proof.
  intros Hi Hc Hsz. unfold Connection.receive_chunk, bind at 1, get_st.
  set (hi := Z.max _ _).
  assert (Hhi : 0 ≤ BUFFER_SIZE / 8 ≤ hi ∧ hi < 2 ^ 32).
  { unfold hi, BUFFER_SIZE, MAX_BUFFER_SIZE. change (16 * 1024 / 8) with 2048. lia. }
  destruct (NetWorkBuffer.getOrCreateBuffer_spec (Connection.rbuf s) (BUFFER_SIZE / 8) hi Hi)
    as (l & n1 & E1 & Hi1 & Ha1 & Hlast & b & Eb & Hleft); [lia.. |].
  destruct (NetWorkBuffer.last_back n1 l Hi1 Hlast) as (ls & b1 & Els & E1' & Hwf & Hcap & Hnull).
  assert (b1 = b) as -> by congruence.
  destruct (Buffer.receive_spec chunk b Hwf) as (b' & Er & Hwf' & Ec & Hn' & Ecap);
    [unfold BUFFER_SIZE in Hc; lia | lia | done |].
  assert (Hb' : NetWorkBuffer.good b') by (split_and!; (done || lia)).
  destruct (NetWorkBuffer.inv_back n1 ls l b b' chunk Hi1 Els Eb Hb' Ec) as [Hi' Ha'];
    [rewrite Ha1; lia |].
  pose proof Hi1 as (_ & _ & _ & El1 & _). rewrite Ha1 in *.
  unfold bind, Connection.on_buf. rewrite E1. cbn [Connection.rbuf].
  rewrite (NetWorkBuffer.on_eq _ _ _ _ _ _ Eb Er).
  unfold NetWorkBuffer.addLength, bind, get_st, NetWorkBuffer.set_length, modify. cbn.
  rewrite wrapU_id by (unfold in_U; lia). eauto.
Qed.

Lemma length_frames bodies : zlen bodies ≤ zlen (frames bodies).
Proof.
  unfold frames. induction bodies as [|b bodies IH]; [done |]. cbn [map concat length].
  rewrite length_app. pose proof (NetWorkBuffer.length_frame4 b). lia.
Qed.

(** One receive step, in the middle of a stream: the whole packets in the buffer
    go to the queue, the part stays. *)
Lemma doResponse_step s part todo chunk q :
  Connection._iHeaderLen s = 0 → Connection._recv s = [] →
  NetWorkBuffer.inv (Connection.rbuf s) → NetWorkBuffer.abs (Connection.rbuf s) = part →
  Forall body_ok todo → part ++ chunk ++ q = frames todo →
  zlen chunk ≤ BUFFER_SIZE / 8 → zlen (frames todo) < 2 ^ 31 →
  ∃ dn todo' part' s', todo = dn ++ todo' ∧ part' ++ q = frames todo' ∧
    Connection.doResponse_once parse chunk s = (Ok (zlen dn), s') ∧
    Connection._iHeaderLen s' = 0 ∧ Connection._recv s' = [] ∧
    NetWorkBuffer.inv (Connection.rbuf s') ∧ NetWorkBuffer.abs (Connection.rbuf s') = part' ∧
    partial part' todo' ∧ Connection.queue s' = Connection.queue s ++ dn ∧ Connection.open s' = Connection.open s.
Proof.
  intros Hh Hr Hi Ea Hok E Hc Hsz. rewrite app_assoc in E.
  assert (Hlen : zlen part + zlen chunk < 2 ^ 31).
  { apply (f_equal length) in E. rewrite !length_app in E. lia. }
  destruct (split_stream todo (part ++ chunk) q E) as (dn & todo' & part' & -> & Ep & Hp & Eq).
  destruct (receive_chunk_spec s chunk Hi Hc) as (n & Erc & Hi' & Ea'); [by rewrite Ea |].
  rewrite Ea, Ep in Ea'. rewrite Hr in Erc.
  apply Forall_app in Hok as [Hdn Htodo]. set (s1 := Connection.mk n _ _ _ _ _) in Erc.
  destruct (analysis_frames dn todo' part' s1 (S (Z.to_nat (NetWorkBuffer.getBufferLength n))) 0)
    as (s2 & E2 & Hi2 & Ea2 & Er2 & Eq2 & Eh2 & Eo2); try done.
  { cbn. rewrite Ea', <- Ep, length_app. lia. }
  { pose proof Hi' as (_ & _ & _ & El & _). unfold NetWorkBuffer.getBufferLength. rewrite El, Ea', length_app.
    pose proof (length_frames dn). lia. }
  exists dn, todo', part', (Connection.onCompleteNetworkCallback s2).
  split_and!; try done.
  - unfold Connection.doResponse_once. rewrite Erc. unfold Connection.analyse, doProtocolAnalysis.
    cbn [Connection.rbuf s1]. fold s1. by rewrite E2.
  - cbn. by rewrite Eq2, Er2.
Qed.

(** Any beginning of a stream, from any point where the buffer holds a part of the
    next packet. *)
Lemma receive_prefix chunks q s todo :
  Connection._iHeaderLen s = 0 → Connection._recv s = [] →
  NetWorkBuffer.inv (Connection.rbuf s) → partial (NetWorkBuffer.abs (Connection.rbuf s)) todo →
  Forall body_ok todo → NetWorkBuffer.abs (Connection.rbuf s) ++ concat chunks ++ q = frames todo →
  Forall (λ c, zlen c ≤ BUFFER_SIZE / 8) chunks → zlen (frames todo) < 2 ^ 31 →
  ∃ dn todo' s', todo = dn ++ todo' ∧ Connection.receive_all parse chunks s = (Ok tt, s') ∧
    NetWorkBuffer.inv (Connection.rbuf s') ∧ partial (NetWorkBuffer.abs (Connection.rbuf s')) todo' ∧
    NetWorkBuffer.abs (Connection.rbuf s') ++ q = frames todo' ∧
    Connection.queue s' = Connection.queue s ++ dn ∧ Connection.open s' = Connection.open s.
Proof.
  revert s todo. induction chunks as [|c chunks IH]; intros s todo Hh Hr Hi Hp Hok E Hc Hsz.
  - exists [], todo, s. cbn in *. by rewrite app_nil_r.
  - cbn [concat] in E. apply Forall_cons in Hc as [Hc Hcs]. rewrite <- app_assoc in E.
    destruct (doResponse_step s _ todo c (concat chunks ++ q) Hh Hr Hi eq_refl Hok E Hc Hsz)
      as (dn & todo' & part' & s1 & -> & Eq & E1 & Hh1 & Hr1 & Hi1 & <- & Hp1 & Eq1 & Eo1).
    apply Forall_app in Hok as [_ Hok].
    destruct (IH s1 todo') as (dn' & todo2 & s2 & -> & E2 & Hi2 & Hp2 & Ea2 & Eq2 & Eo2); try done.
    { unfold frames in Hsz. rewrite map_app, concat_app, length_app in Hsz. unfold frames. lia. }
    exists (dn ++ dn'), todo2, s2. split_and!; [by rewrite app_assoc | | done | done | done | | congruence].
    + cbn [Connection.receive_all]. by rewrite (bind_Ok _ _ _ _ _ E1).
    + by rewrite Eq2, Eq1, app_assoc.
Qed.

Lemma partial_nil bodies : partial [] bodies.
Proof.
  destruct bodies as [|b bodies]; [done |]. exists (NetWorkBuffer.frame4 b). split; [done |].
  intros E. apply (f_equal length) in E. pose proof (NetWorkBuffer.length_frame4 b). rewrite E in *. cbn in *. lia.
Qed.

(** A part is nothing when it is everything. *)
Lemma partial_all part todo : partial part todo → part = frames todo → todo = [].
Proof.
  destruct todo as [|b todo]; [done |]. intros (rest & Eb & Hne) Ea.
  change (frames (b :: todo)) with (NetWorkBuffer.frame4 b ++ frames todo) in Ea.
  apply (f_equal length) in Ea, Eb. rewrite length_app in Ea, Eb. destruct rest; [done |]. cbn [length] in Eb. lia.
Qed.

(** The whole stream. *)
Lemma receive_all_spec chunks s todo :
  Connection._iHeaderLen s = 0 → Connection._recv s = [] →
  NetWorkBuffer.inv (Connection.rbuf s) → partial (NetWorkBuffer.abs (Connection.rbuf s)) todo →
  Forall body_ok todo → NetWorkBuffer.abs (Connection.rbuf s) ++ concat chunks = frames todo →
  Forall (λ c, zlen c ≤ BUFFER_SIZE / 8) chunks → zlen (frames todo) < 2 ^ 31 →
  ∃ s', Connection.receive_all parse chunks s = (Ok tt, s') ∧
    NetWorkBuffer.inv (Connection.rbuf s') ∧ NetWorkBuffer.abs (Connection.rbuf s') = [] ∧
    Connection.queue s' = Connection.queue s ++ todo ∧ Connection.open s' = Connection.open s.
Proof.
  intros Hh Hr Hi Hp Hok E Hc Hsz.
  destruct (receive_prefix chunks [] s todo) as (dn & todo' & s' & -> & Er & Hi' & Hp' & Ea & Eq & Eo);
    [done.. | by rewrite app_nil_r | done | done |].
  rewrite app_nil_r in Ea. exists s'. pose proof (partial_all _ _ Hp' Ea) as ->. by rewrite app_nil_r.
Qed.
End reassembly.
