(* ===== verification/TimeoutQueue.v ===== *)
(** The timeout queue [TC_TimeoutQueueNew] of
    [src/util/include/util/tc_timeout_queue_new.h]: pending requests by id, by
    deadline, and, while they wait to be sent, in the order of arrival.  The three
    containers point into each other with iterators; the invariant says that none
    of them dangles, the refinement that together they are one list of requests. *)
From stdpp Require Import prelude gmap list.
From Stdlib Require Import ZArith Lia Sorting.Sorted.
From S2P Require Import Prelude Bytes.

(** Nothing in the queue throws. *)
Module TimeoutQueue.
Section queue.
Context {T : Type}.

(** [n] names the nodes one [push] makes in the three containers.  A
    [data_type::iterator] is a key and the name of the node; it dangles when the
    node is gone, even if the key is back.  [None] is an iterator that was never
    set. *)
Record PtrInfo := mkPtr { ptr : T; hasSend : bool; timeIter : option nat; sendIter : option nat }.
Definition data_iter : Type := Z * nat.

(** [_data] by id; [_time] in the order of the multimap; [_send] from front to
    back. *)
Record t := mk {
  _uniqId : Z;
  _data : gmap Z (nat * PtrInfo);
  _time : list (nat * (Z * data_iter));
  _send : list (nat * data_iter);
  nodes : nat
}.

Definition new : t := mk 0 ∅ [] [] 0.

Abbreviation M A := (prog t Empty_set A).

Definition set_data d : M unit := modify (λ s, mk (_uniqId s) d (_time s) (_send s) (nodes s)).
Definition set_time l : M unit := modify (λ s, mk (_uniqId s) (_data s) l (_send s) (nodes s)).
Definition set_send l : M unit := modify (λ s, mk (_uniqId s) (_data s) (_time s) l (nodes s)).

(** [*it] for a [data_type::iterator]. *)
Definition deref (it : data_iter) : M PtrInfo := λ s,
  match _data s !! it.1 with
  | Some (n, p) => if decide (n = it.2) then (Ok p, s) else (OutOfBounds, s)
  | None => (OutOfBounds, s)
  end.

(** [_data.erase(it)]. *)
Definition data_erase (it : data_iter) : M unit :=
  deref it ;;; let* s := get_st in set_data (delete it.1 (_data s)).

(** [_time.erase(it)] and [_send.erase(it)]. *)
Definition time_erase (it : option nat) : M unit :=
  let* s := get_st in
  match it with
  | Some n => if decide (n ∈ (_time s).*1) then set_time (filter (λ x, x.1 ≠ n) (_time s)) else out_of_bounds
  | None => out_of_bounds
  end.
Definition send_erase (it : option nat) : M unit :=
  let* s := get_st in
  match it with
  | Some n => if decide (n ∈ (_send s).*1) then set_send (filter (λ x, x.1 ≠ n) (_send s)) else out_of_bounds
  | None => out_of_bounds
  end.

(** [multimap::insert]: behind the elements with the same key. *)
Fixpoint time_insert (x : nat * (Z * data_iter)) (l : list (nat * (Z * data_iter))) :=
  match l with
  | [] => [x]
  | y :: l' => if y.2.1 <=? x.2.1 then y :: time_insert x l' else x :: y :: l'
  end.

Definition generateId : M Z :=
  let* s := get_st in
  let i := wrapU 32 (_uniqId s + 1) in
  let i := if i =? 0 then wrapU 32 (i + 1) else i in
  put_st (mk i (_data s) (_time s) (_send s) (nodes s)) ;;; ret i.

Definition sendListEmpty (s : t) : bool := match _send s with [] => true | _ => false end.
Definition getSendListSize (s : t) : Z := zlen (_send s).
Definition size (s : t) : Z := Z.of_nat (base.size (_data s)).

Definition getSend : M (option T) :=
  let* s := get_st in
  match last (_send s) with
  | None => ret None
  | Some (_, dataIter) =>
    let* p := deref dataIter in
    assert_that (negb (hasSend p)) ;;; ret (Some (ptr p))
  end.

Definition popSend (del : bool) : M unit :=
  let* s := get_st in
  match last (_send s) with
  | None => λ s, (AssertFailed, s)
  | Some (_, dataIter) =>
    let* p := deref dataIter in
    set_data (<[dataIter.1 := (dataIter.2, mkPtr (ptr p) true (timeIter p) (sendIter p))]> (_data s)) ;;;
    (if del then time_erase (timeIter p) ;;; data_erase dataIter else ret tt) ;;;
    let* s := get_st in set_send (removelast (_send s))
  end.

Definition get (uniqId : Z) (bErase : bool) : M (option T) :=
  let* s := get_st in
  match _data s !! uniqId with
  | None => ret None
  | Some (n, p) =>
    (if bErase then
       time_erase (timeIter p) ;;;
       (if hasSend p then ret tt else send_erase (sendIter p)) ;;;
       data_erase (uniqId, n)
     else ret tt) ;;;
    ret (Some (ptr p))
  end.

Definition erase (uniqId : Z) : M (option T) :=
  let* s := get_st in
  match _data s !! uniqId with
  | None => ret None
  | Some (n, p) =>
    (if hasSend p then ret tt else send_erase (sendIter p)) ;;;
    time_erase (timeIter p) ;;;
    data_erase (uniqId, n) ;;;
    ret (Some (ptr p))
  end.

(** [push]: [insert] does nothing when the id is there. *)
Definition push (x : T) (uniqId timeout : Z) (sent : bool) : M bool :=
  let* s := get_st in
  match _data s !! uniqId with
  | Some _ => ret false
  | None =>
    let n := nodes s in
    put_st (mk (_uniqId s)
      (<[uniqId := (n, mkPtr x sent (Some n) (if sent then None else Some n))]> (_data s))
      (time_insert (n, (timeout, (uniqId, n))) (_time s))
      (if sent then _send s else (n, (uniqId, n)) :: _send s) (S n)) ;;;
    ret true
  end.

(** The body the [timeout] overloads share: the first node of [_time] goes, with
    the others of its request. *)
Definition expire (n : nat) (dataIter : data_iter) : M T :=
  let* p := deref dataIter in
  (if hasSend p then ret tt else send_erase (sendIter p)) ;;;
  data_erase dataIter ;;;
  time_erase (Some n) ;;;
  ret (ptr p).

(** [timeout(T&)] at the time [iNow]. *)
Definition timeout (iNow : Z) : M (option T) :=
  let* s := get_st in
  match _time s with
  | [] => ret None
  | (n, (deadline, dataIter)) :: _ =>
    if iNow <? deadline then ret None
    else (let* t := expire n dataIter in ret (Some t))
  end.

(** [timeout()]. *)
Fixpoint timeout_loop (fuel : nat) (iNow : Z) : M unit :=
  match fuel with
  | O => λ s, (NoFuel, s)
  | S fuel' =>
    let* s := get_st in
    match _time s with
    | [] => ret tt
    | (n, (deadline, dataIter)) :: _ =>
      if iNow <? deadline then ret tt
      else (expire n dataIter ;;; timeout_loop fuel' iNow)
    end
  end.
Definition timeout_all (iNow : Z) : M unit :=
  let* s := get_st in timeout_loop (S (length (_time s))) iNow.

(** ** The queue as one list of requests *)

Record request := mkReq { r_id : Z; r_ptr : T; r_deadline : Z; r_sent : bool }.

Definition find_id (i : Z) (L : list request) : option request := List.find (λ r, r_id r =? i) L.
Definition first_unsent (L : list request) : option request := List.find (λ r, negb (r_sent r)) L.
Definition without (i : Z) (L : list request) : list request := filter (λ r, r_id r ≠ i) L.
Definition mark_sent (i : Z) (L : list request) : list request :=
  map (λ r, if r_id r =? i then mkReq (r_id r) (r_ptr r) (r_deadline r) true else r) L.

(** The request whose deadline comes first, the earlier arrival among equals. *)
Fixpoint earliest (L : list request) : option request :=
  match L with
  | [] => None
  | r :: L' => match earliest L' with
               | Some r' => Some (if r_deadline r' <? r_deadline r then r' else r)
               | None => Some r
               end
  end.

(** A request and its nodes: [g_node] names them, [g_queued] tells whether it was
    pushed to be sent later. *)
Record entry := mkEntry { g_req : request; g_queued : bool; g_node : nat }.
#[local] Coercion g_req : entry >-> request.

Definition info (g : entry) : PtrInfo :=
  mkPtr (r_ptr g) (r_sent g) (Some (g_node g)) (if g_queued g then Some (g_node g) else None).
Definition data_node (g : entry) : Z * (nat * PtrInfo) := (r_id g, (g_node g, info g)).
Definition time_node (g : entry) : nat * (Z * data_iter) := (g_node g, (r_deadline g, (r_id g, g_node g))).
Definition send_node (g : entry) : nat * data_iter := (g_node g, (r_id g, g_node g)).

Definition times (G : list entry) : list (nat * (Z * data_iter)) :=
  foldl (λ l g, time_insert (time_node g) l) [] G.
Definition unsent (G : list entry) : list entry := filter (λ g : entry, r_sent g = false) G.

(** The concrete state of a list of requests, in the order of arrival. *)
Definition rep (s : t) (G : list entry) : Prop :=
  NoDup (map (λ g : entry, r_id g) G) ∧ NoDup (map g_node G) ∧
  Forall (λ g, (g_node g < nodes s)%nat ∧ (r_sent g = false → g_queued g = true)) G ∧
  _data s = list_to_map (map data_node G) ∧ _time s = times G ∧
  _send s = rev (map send_node (unsent G)).

(** ** The multimap *)

Definition time_sorted : list (nat * (Z * data_iter)) → Prop := StronglySorted (λ x y, x.2.1 ≤ y.2.1).

Lemma time_insert_perm x l : time_insert x l ≡ₚ x :: l.
Proof.
  induction l as [|y l IH]; [done |]. cbn. destruct (_ <=? _); [|done].
  rewrite IH. by apply perm_swap.
Qed.

Lemma time_insert_sorted x l : time_sorted l → time_sorted (time_insert x l).
Proof.
  induction 1 as [|y l Hl IH Hy]; cbn; [by repeat constructor |].
  destruct (Z.leb_spec y.2.1 x.2.1).
  - constructor; [done |]. rewrite time_insert_perm. by constructor.
  - constructor; [by constructor |]. constructor; [lia |].
    eapply Forall_impl; [exact Hy |]. cbn. lia.
Qed.

(** An element smaller than the rest stays in front. *)
Lemma time_insert_front x l : Forall (λ y, x.2.1 < y.2.1) l → time_insert x l = x :: l.
Proof. destruct 1 as [|y l Hy _]; [done |]. cbn. by rewrite (proj2 (Z.leb_gt _ _) Hy). Qed.

Lemma time_insert_filter (P : nat * (Z * data_iter) → Prop) `{!∀ x, Decision (P x)} x l : time_sorted l →
  filter P (time_insert x l) = if decide (P x) then time_insert x (filter P l) else filter P l.
Proof.
  induction 1 as [|y l Hl IH Hy]; cbn [time_insert].
  - rewrite filter_cons, filter_nil. done.
  - destruct (Z.leb_spec y.2.1 x.2.1) as [Hle|Hlt].
    + rewrite !filter_cons, IH. destruct (decide (P y)), (decide (P x)); try done.
      cbn [time_insert]. by rewrite (proj2 (Z.leb_le _ _) Hle).
    + rewrite (filter_cons _ x). destruct (decide (P x)); [|done]. symmetry. apply time_insert_front.
      apply Forall_filter. constructor; [done |]. eapply Forall_impl; [exact Hy |]. cbn. lia.
Qed.

Lemma times_snoc G g : times (G ++ [g]) = time_insert (time_node g) (times G).
Proof. unfold times. by rewrite foldl_app. Qed.

Lemma times_sorted G : time_sorted (times G).
Proof.
  induction G as [|g G IH] using rev_ind; [constructor |]. rewrite times_snoc. by apply time_insert_sorted.
Qed.

Lemma times_perm G : times G ≡ₚ map time_node G.
Proof.
  induction G as [|g G IH] using rev_ind; [done |].
  rewrite times_snoc, time_insert_perm, IH, map_app. by rewrite Permutation_app_comm.
Qed.

Lemma times_filter (P : nat * (Z * data_iter) → Prop) (Q : entry → Prop)
    `{!∀ x, Decision (P x)} `{!∀ x, Decision (Q x)} G :
  (∀ g, g ∈ G → P (time_node g) ↔ Q g) → filter P (times G) = times (filter Q G).
Proof.
  induction G as [|g G IH] using rev_ind; intros HPQ; [done |].
  rewrite times_snoc, time_insert_filter, filter_app, filter_cons, filter_nil by apply times_sorted.
  rewrite IH by (intros; apply HPQ, elem_of_app; by left).
  assert (Hg : P (time_node g) ↔ Q g) by (apply HPQ, elem_of_app; right; apply list_elem_of_here).
  destruct (decide (P (time_node g))), (decide (Q g)); try tauto.
  - by rewrite times_snoc.
  - by rewrite app_nil_r.
Qed.

(** The front of the multimap is the earliest request. *)
Lemma earliest_snoc L r :
  earliest (L ++ [r]) = Some (match earliest L with
                              | Some r' => if r_deadline r <? r_deadline r' then r else r'
                              | None => r
                              end).
Proof.
  induction L as [|q L IH]; [done |]. cbn [app earliest]. rewrite IH.
  destruct (earliest L) as [r'|]; [|done].
  destruct (Z.ltb_spec (r_deadline r) (r_deadline r')), (Z.ltb_spec (r_deadline r') (r_deadline q));
    cbn; f_equal;
    repeat match goal with |- context [r_deadline ?a <? r_deadline ?b] =>
      is_var a; is_var b; destruct (Z.ltb_spec (r_deadline a) (r_deadline b)) end; done || lia.
Qed.

Lemma earliest_head G :
  match head (times G) with
  | Some x => ∃ g, g ∈ G ∧ x = time_node g ∧ earliest (map g_req G) = Some (g : request)
  | None => G = []
  end.
Proof.
  induction G as [|g G IH] using rev_ind; [done |].
  rewrite times_snoc, map_app. cbn [map]. rewrite earliest_snoc.
  destruct (times G) as [|x l]; cbn in *.
  - exists g. split_and!; [|done |]; subst; [apply list_elem_of_here | done].
  - destruct IH as (g' & Hg' & -> & ->). cbn.
    destruct (Z.leb_spec (r_deadline g') (r_deadline g)); cbn.
    + exists g'. split_and!; [apply elem_of_app; by left | done |].
      by rewrite (proj2 (Z.ltb_ge _ _)).
    + exists g. split_and!; [apply elem_of_app; right; apply list_elem_of_here | done |].
      by rewrite (proj2 (Z.ltb_lt _ _)).
Qed.

Lemma earliest_le L r r' : earliest L = Some r → r' ∈ L → r_deadline r ≤ r_deadline r'.
Proof.
  revert r. induction L as [|q L IH]; intros r; cbn; [done |].
  destruct (earliest L) as [q'|] eqn:E.
  - intros [= <-] [->|Hr]%elem_of_cons; [destruct (Z.ltb_spec (r_deadline q') (r_deadline q)); lia |].
    specialize (IH q' eq_refl Hr). destruct (Z.ltb_spec (r_deadline q') (r_deadline q)); lia.
  - intros [= <-] [->|Hr]%elem_of_cons; [done |]. destruct L; [by apply elem_of_nil in Hr |].
    cbn in E. by destruct (earliest L).
Qed.

(** ** Looking up and removing *)

Definition reqs (G : list entry) : list request := map g_req G.
Definition drop_id (i : Z) (G : list entry) : list entry := filter (λ g : entry, r_id g ≠ i) G.

Lemma reqs_drop_id i G : reqs (drop_id i G) = without i (reqs G).
Proof. symmetry. by apply filter_map_comm. Qed.

(** Ids and nodes tell requests apart in the same way. *)
Lemma rep_same s G (g g' : entry) : rep s G → g ∈ G → g' ∈ G → g_node g' = g_node g ↔ r_id g' = r_id g.
Proof.
  intros (Hi & Hn & _) Hg Hg'. split; intros E.
  - by rewrite (NoDup_map_inj g_node G g' g).
  - by rewrite (NoDup_map_inj (λ g : entry, r_id g) G g' g).
Qed.

Lemma rep_lookup s G (g : entry) : rep s G → g ∈ G → _data s !! r_id g = Some (g_node g, info g).
Proof.
  intros (Hi & _ & _ & -> & _) Hg. apply elem_of_list_to_map_1.
  - by rewrite <- list_fmap_compose.
  - change (r_id g, (g_node g, info g)) with (data_node g). by apply list_elem_of_fmap_2.
Qed.

Lemma rep_lookup_None s G i : rep s G → i ∉ map r_id (reqs G) → _data s !! i = None.
Proof.
  intros (_ & _ & _ & -> & _) Hi. apply not_elem_of_list_to_map_1.
  unfold reqs in Hi. rewrite map_map in Hi. by rewrite <- list_fmap_compose.
Qed.

Lemma find_id_spec i G :
  match find_id i (reqs G) with
  | Some r => ∃ g : entry, g ∈ G ∧ g_req g = r ∧ r_id g = i
  | None => i ∉ map r_id (reqs G)
  end.
Proof.
  induction G as [|g G IH]; cbn; [apply not_elem_of_nil |].
  destruct (Z.eqb_spec (r_id g) i) as [E|E].
  - exists g. split_and!; [apply list_elem_of_here | done | done].
  - unfold find_id in IH. destruct (List.find _ _).
    + destruct IH as (g' & ? & ? & ?). exists g'. split_and!; [by apply list_elem_of_further | done | done].
    + rewrite not_elem_of_cons. auto.
Qed.

Lemma queue_deref_eq s G (g : entry) : rep s G → g ∈ G → deref (r_id g, g_node g) s = (Ok (info g), s).
Proof. intros Hr Hg. unfold deref. cbn. rewrite (rep_lookup s G g Hr Hg). by rewrite decide_True. Qed.

(** The state without a request. *)
Definition removed (g : entry) (s : t) : t :=
  mk (_uniqId s) (delete (r_id g) (_data s)) (filter (λ x, x.1 ≠ g_node g) (_time s))
    (if r_sent g then _send s else filter (λ x, x.1 ≠ g_node g) (_send s)) (nodes s).

Lemma delete_data_nodes i G :
  delete i (list_to_map (map data_node G) : gmap Z (nat * PtrInfo)) = list_to_map (map data_node (drop_id i G)).
Proof.
  induction G as [|g G IH]; [apply delete_empty |]. unfold drop_id in *. rewrite filter_cons. cbn [map list_to_map foldr].
  change (data_node g).1 with (r_id g). destruct (decide (r_id g ≠ i)) as [Hn|Hn].
  - cbn [map list_to_map foldr]. by rewrite delete_insert_ne, IH by done.
  - apply dec_stable in Hn as <-. by rewrite delete_insert_eq.
Qed.

Lemma rep_removed s G (g : entry) : rep s G → g ∈ G → rep (removed g s) (drop_id (r_id g) G).
Proof.
  intros Hr Hg. pose proof Hr as (Hi & Hn & Ha & Hd & Ht & Hs). unfold removed. split_and!; cbn.
  - by apply NoDup_map_filter.
  - by apply NoDup_map_filter.
  - by apply Forall_filter.
  - by rewrite Hd, delete_data_nodes.
  - rewrite Ht. apply times_filter. intros g' Hg'. cbn. by rewrite (rep_same s G g g').
  - assert (E : filter (λ x, x.1 ≠ g_node g) (_send s) = rev (map send_node (unsent (drop_id (r_id g) G)))).
    { rewrite Hs, filter_rev. f_equal. unfold unsent, drop_id.
      rewrite (filter_map_comm send_node _ (λ g' : entry, r_id g' ≠ r_id g)).
      - f_equal. rewrite !list_filter_filter. apply list_filter_iff. tauto.
      - intros g' [_ Hg']%list_elem_of_filter. cbn. by rewrite (rep_same s G g g'). }
    destruct (r_sent g) eqn:Es; [|exact E]. rewrite <- E, filter_all; [done |].
    rewrite Hs. apply Forall_rev, Forall_fmap, Forall_forall.
    intros g' [Eu Hg']%list_elem_of_filter. cbn. rewrite (rep_same s G g g') by done.
    intros E'. rewrite (NoDup_map_inj (λ g : entry, r_id g) G g' g) in Eu by done. congruence.
Qed.

(** The steps of the erasing operations, in whatever order they come. *)
Definition has_nodes (s : t) (g : entry) : Prop :=
  _data s !! r_id g = Some (g_node g, info g) ∧ g_node g ∈ (_time s).*1 ∧
  (r_sent g = false → g_queued g = true ∧ g_node g ∈ (_send s).*1).

Lemma rep_has_nodes s G (g : entry) : rep s G → g ∈ G → has_nodes s g.
Proof.
  intros Hr Hg. pose proof Hr as (_ & _ & Ha & _ & Ht & Hs). split_and!.
  - by apply (rep_lookup s G).
  - rewrite Ht, times_perm. change (g_node g) with (fst (time_node g)).
    by apply list_elem_of_fmap_2, list_elem_of_fmap_2.
  - intros Es. rewrite Forall_forall in Ha. split; [by apply Ha |]. rewrite Hs.
    change (g_node g) with (fst (send_node g)). apply list_elem_of_fmap_2. rewrite list_elem_of_In, <- in_rev, <- list_elem_of_In.
    apply list_elem_of_fmap_2. by apply list_elem_of_filter.
Qed.

Lemma send_part s (g : entry) : (r_sent g = false → g_queued g = true ∧ g_node g ∈ (_send s).*1) →
  (if hasSend (info g) then ret tt else send_erase (sendIter (info g))) s =
  (Ok tt, mk (_uniqId s) (_data s) (_time s)
            (if r_sent g then _send s else filter (λ x, x.1 ≠ g_node g) (_send s)) (nodes s)).
Proof.
  intros Hs. cbn. destruct (r_sent g); [by destruct s |]. destruct (Hs eq_refl) as [-> Hn].
  unfold send_erase, bind, get_st. by rewrite decide_True.
Qed.

Lemma time_part s n : n ∈ (_time s).*1 →
  time_erase (Some n) s =
  (Ok tt, mk (_uniqId s) (_data s) (filter (λ x, x.1 ≠ n) (_time s)) (_send s) (nodes s)).
Proof. intros Hn. unfold time_erase, bind, get_st. by rewrite decide_True. Qed.

Lemma data_part s i n p : _data s !! i = Some (n, p) →
  data_erase (i, n) s = (Ok tt, mk (_uniqId s) (delete i (_data s)) (_time s) (_send s) (nodes s)).
Proof. intros E. unfold data_erase, deref, bind, get_st. cbn. rewrite E. by rewrite decide_True. Qed.

Lemma erase_spec s G i : rep s G →
  match find_id i (reqs G) with
  | Some r => ∃ s', erase i s = (Ok (Some (r_ptr r)), s') ∧ rep s' (drop_id i G) ∧ nodes s' = nodes s
  | None => erase i s = (Ok None, s)
  end.
Proof.
  intros Hr. pose proof (find_id_spec i G) as Hf. destruct (find_id i (reqs G)).
  - destruct Hf as (g & Hg & <- & <-). pose proof (rep_has_nodes s G g Hr Hg) as (Hd & Ht & Hs).
    exists (removed g s). split; [|split; [by apply rep_removed | done]].
    unfold erase. unfold bind at 1, get_st. rewrite Hd. cbv iota beta.
    change (timeIter (info g)) with (Some (g_node g)).
    erewrite bind_Ok by (by apply send_part).
    erewrite bind_Ok by (by apply time_part).
    by erewrite bind_Ok by (eapply data_part; exact Hd).
  - unfold erase, bind at 1, get_st. by rewrite (rep_lookup_None s G i Hr Hf).
Qed.

Lemma get_spec s G i b : rep s G →
  match find_id i (reqs G) with
  | Some r => ∃ s', get i b s = (Ok (Some (r_ptr r)), s') ∧ rep s' (if b then drop_id i G else G) ∧ nodes s' = nodes s
  | None => get i b s = (Ok None, s)
  end.
Proof.
  intros Hr. pose proof (find_id_spec i G) as Hf. destruct (find_id i (reqs G)).
  - destruct Hf as (g & Hg & <- & <-). pose proof (rep_has_nodes s G g Hr Hg) as (Hd & Ht & Hs).
    exists (if b then removed g s else s). split; [|destruct b; split; try done; by apply rep_removed].
    unfold get. unfold bind at 1, get_st. rewrite Hd. cbv iota beta. destruct b; [|done].
    change (timeIter (info g)) with (Some (g_node g)).
    rewrite !bind_assoc. erewrite bind_Ok by (by apply time_part).
    rewrite !bind_assoc. erewrite bind_Ok by (by apply send_part).
    by erewrite bind_Ok by (eapply data_part; exact Hd).
  - unfold get, bind at 1, get_st. by rewrite (rep_lookup_None s G i Hr Hf).
Qed.

(** The earliest request, when its time has come. *)
Definition due (now : Z) (L : list request) : option request :=
  match earliest L with
  | Some r => if now <? r_deadline r then None else Some r
  | None => None
  end.

Lemma timeout_spec s G now : rep s G →
  match due now (reqs G) with
  | Some r => ∃ s', timeout now s = (Ok (Some (r_ptr r)), s') ∧ rep s' (drop_id (r_id r) G) ∧ nodes s' = nodes s
  | None => timeout now s = (Ok None, s)
  end.
Proof.
  intros Hr. pose proof (earliest_head G) as He. unfold due, timeout.
  rewrite !(bind_Ok get_st _ s s s) by done.
  pose proof Hr as (_ & _ & _ & _ & Et & _). rewrite Et in *.
  destruct (times G) as [|x l] eqn:E; cbn [head] in He; [by subst |].
  destruct He as (g & Hg & -> & Ee). change (map g_req G) with (reqs G) in Ee. rewrite Ee. cbn [time_node]. destruct (Z.ltb_spec now (r_deadline g)); [done |].
  pose proof (rep_has_nodes s G g Hr Hg) as (Hd & Ht & Hs).
  exists (removed g s). split; [|split; [by apply rep_removed | done]].
  unfold expire. rewrite bind_assoc, (bind_Ok _ _ _ _ _ (queue_deref_eq s G g Hr Hg)).
  rewrite !bind_assoc. erewrite bind_Ok by (by apply send_part).
  rewrite !bind_assoc. erewrite bind_Ok by (eapply data_part; exact Hd).
  rewrite !bind_assoc. by erewrite bind_Ok by (by apply time_part).
Qed.

(** ** Sending and pushing *)

Lemma first_unsent_spec G :
  match unsent G with
  | g :: _ => g ∈ G ∧ first_unsent (reqs G) = Some (g_req g) ∧ r_sent g = false
  | [] => first_unsent (reqs G) = None
  end.
Proof.
  induction G as [|g G IH]; [done |]. unfold unsent. rewrite filter_cons. cbn.
  destruct (r_sent g) eqn:E; cbn.
  - fold (unsent G). destruct (unsent G); [done |]. destruct IH as (? & ? & ?).
    split_and!; [by apply list_elem_of_further | done | done].
  - split_and!; [apply list_elem_of_here | done | done].
Qed.

Lemma last_send s G : rep s G →
  last (_send s) = match unsent G with g :: _ => Some (send_node g) | [] => None end.
Proof.
  intros (_ & _ & _ & _ & _ & ->). destruct (unsent G); [done |]. cbn. by rewrite last_snoc.
Qed.

Lemma sendListEmpty_spec s G : rep s G →
  sendListEmpty s = match first_unsent (reqs G) with Some _ => false | None => true end.
Proof.
  intros (_ & _ & _ & _ & _ & Es). unfold sendListEmpty. rewrite Es. pose proof (first_unsent_spec G) as Hf.
  destruct (unsent G) as [|g U]; [by rewrite Hf |]. destruct Hf as (_ & -> & _). cbn [map rev].
  by destruct (rev (map send_node U)).
Qed.

Lemma getSend_spec s G : rep s G → getSend s = (Ok (r_ptr <$> first_unsent (reqs G)), s).
Proof.
  intros Hr. unfold getSend. rewrite (bind_Ok get_st _ s s s) by done. rewrite (last_send s G Hr).
  pose proof (first_unsent_spec G) as Hf. destruct (unsent G) as [|g U]; [by rewrite Hf |].
  destruct Hf as (Hg & -> & Es). cbn [send_node]. rewrite (bind_Ok _ _ _ _ _ (queue_deref_eq s G g Hr Hg)).
  unfold info, assert_that, bind. cbn. by rewrite Es.
Qed.

Definition mark_entry (i : Z) (g : entry) : entry :=
  if r_id g =? i then mkEntry (mkReq (r_id g) (r_ptr g) (r_deadline g) true) (g_queued g) (g_node g) else g.
Definition mark_id (i : Z) (G : list entry) : list entry := map (mark_entry i) G.

Lemma reqs_mark_id i G : reqs (mark_id i G) = mark_sent i (reqs G).
Proof.
  unfold reqs, mark_id, mark_sent. rewrite !map_map. apply map_ext. intros g. unfold mark_entry.
  by destruct (_ =? _).
Qed.

Lemma mark_entry_same i g : r_id (mark_entry i g) = r_id g ∧ r_deadline (mark_entry i g) = r_deadline g ∧
  g_node (mark_entry i g) = g_node g ∧ g_queued (mark_entry i g) = g_queued g.
Proof. unfold mark_entry. by destruct (_ =? _). Qed.

Lemma times_mark i G : times (mark_id i G) = times G.
Proof.
  induction G as [|g G IH] using rev_ind; [done |]. unfold mark_id in *. rewrite map_app. cbn [map].
  rewrite !times_snoc, IH. f_equal. unfold time_node.
  destruct (mark_entry_same i g) as (-> & -> & -> & _). done.
Qed.

Lemma unsent_mark i G : unsent (mark_id i G) = filter (λ g : entry, r_id g ≠ i) (unsent G).
Proof.
  unfold unsent, mark_id. induction G as [|g G IH]; [done |]. cbn [map]. rewrite !filter_cons, IH.
  unfold mark_entry. destruct (Z.eqb_spec (r_id g) i) as [E|E]; cbn [r_sent g_req].
  - rewrite decide_False by done. destruct (decide (r_sent g = false)); [|done].
    rewrite filter_cons. by rewrite decide_False by (intros H0; by apply H0).
  - destruct (decide (r_sent g = false)); [|done]. rewrite filter_cons. by rewrite decide_True.
Qed.

Lemma mark_other i G : i ∉ map (λ g : entry, r_id g) G → mark_id i G = G.
Proof.
  unfold mark_id. induction G as [|g G IH]; [done |]. cbn [map]. rewrite not_elem_of_cons. intros [Hn HG].
  rewrite IH by done. unfold mark_entry. by rewrite (proj2 (Z.eqb_neq _ _)) by done.
Qed.

Lemma mark_data_nodes (g : entry) G : NoDup (map (λ g : entry, r_id g) G) → g ∈ G →
  <[r_id g := (g_node g, info (mark_entry (r_id g) g))]> (list_to_map (map data_node G)) =
  (list_to_map (map data_node (mark_id (r_id g) G)) : gmap Z (nat * PtrInfo)).
Proof.
  induction G as [|g' G IH]; [by intros _ ?%elem_of_nil |].
  cbn [map]. rewrite NoDup_cons. intros [Hn HG] [<-|Hg]%elem_of_cons.
  - unfold mark_id. cbn [map]. fold (mark_id (r_id g) G). rewrite mark_other by done.
    assert (data_node (mark_entry (r_id g) g) = (r_id g, (g_node g, info (mark_entry (r_id g) g)))) as E.
    { unfold data_node. by destruct (mark_entry_same (r_id g) g) as (-> & _ & -> & _). }
    cbn [map list_to_map foldr]. rewrite E. cbn. by rewrite insert_insert_eq.
  - assert (Hne : r_id g' ≠ r_id g).
    { intros E. apply Hn. rewrite E. change (r_id g) with ((λ g : entry, r_id g) g). by apply list_elem_of_fmap_2. }
    unfold mark_id. cbn [map]. fold (mark_id (r_id g) G). unfold mark_entry at 2.
    rewrite (proj2 (Z.eqb_neq _ _) Hne). cbn [list_to_map foldr]. rewrite <- IH by done. by rewrite insert_insert_ne.
Qed.

(** [popSend(false)]: the first request to be sent is marked. *)
Lemma popSend_mark s G r : rep s G → first_unsent (reqs G) = Some r →
  ∃ s', popSend false s = (Ok tt, s') ∧ rep s' (mark_id (r_id r) G) ∧ nodes s' = nodes s.
Proof.
  intros Hr Ef. pose proof Hr as (Hi & Hn & Ha & Hd & Ht & Hs).
  pose proof (last_send s G Hr) as El. pose proof (first_unsent_spec G) as Hf.
  destruct (unsent G) as [|g U] eqn:EU; [congruence |]. destruct Hf as (Hg & Ef' & Es).
  rewrite Ef in Ef'. injection Ef' as ->.
  eexists. split; [|split].
  - unfold popSend. rewrite (bind_Ok get_st _ s s s) by done. rewrite El. cbn [send_node].
    rewrite (bind_Ok _ _ _ _ _ (queue_deref_eq s G g Hr Hg)). unfold set_data, modify, bind, get_st, set_send. cbn. done.
  - split_and!; cbn.
    + unfold mark_id. rewrite map_map. erewrite map_ext; [exact Hi |]. intros g'. apply mark_entry_same.
    + unfold mark_id. rewrite map_map. erewrite map_ext; [exact Hn |]. intros g'. apply mark_entry_same.
    + unfold mark_id. apply Forall_fmap. eapply Forall_impl; [exact Ha |]. intros g' [??]. cbn.
      unfold mark_entry. by destruct (_ =? _).
    + rewrite Hd. replace (mkPtr _ _ _ _) with (info (mark_entry (r_id g) g)); [by apply mark_data_nodes |].
      unfold mark_entry. by rewrite Z.eqb_refl.
    + by rewrite times_mark.
    + rewrite unsent_mark, EU, Hs, filter_cons. rewrite decide_False by (intros H0; by apply H0).
      cbn [map rev]. rewrite removelast_last. do 2 f_equal. symmetry. apply filter_all.
      apply Forall_forall. intros g' Hg' E.
      pose proof (NoDup_map_filter (λ g : entry, r_id g) (λ g : entry, r_sent g = false) G Hi) as HU.
      change (NoDup (map (λ g : entry, r_id g) (unsent G))) in HU. rewrite EU in HU. cbn in HU.
      apply NoDup_cons in HU as [HU _]. apply HU. rewrite <- E.
      change (r_id g') with ((λ g : entry, r_id g) g'). by apply list_elem_of_fmap_2.
  - done.
Qed.

(** [popSend(true)]: the first request to be sent is gone. *)
Lemma popSend_drop s G r : rep s G → first_unsent (reqs G) = Some r →
  ∃ s', popSend true s = (Ok tt, s') ∧ rep s' (drop_id (r_id r) G) ∧ nodes s' = nodes s.
Proof.
  intros Hr Ef. pose proof (last_send s G Hr) as El. pose proof (first_unsent_spec G) as Hf.
  pose proof (rep_removed s G) as Hrm. pose proof Hr as (Hi & Hn & Ha & Hd & Ht & Hs).
  destruct (unsent G) as [|g U] eqn:EU; [congruence |]. destruct Hf as (Hg & Ef' & Es).
  rewrite Ef in Ef'. injection Ef' as ->.
  pose proof (rep_has_nodes s G g Hr Hg) as (Hdg & Htg & Hsg).
  exists (removed g s). split; [|split; [by apply rep_removed | done]].
  unfold popSend. rewrite (bind_Ok get_st _ s s s) by done. rewrite El. cbn [send_node].
  rewrite (bind_Ok _ _ _ _ _ (queue_deref_eq s G g Hr Hg)). unfold set_data.
  erewrite (bind_Ok (modify _)) by done. rewrite bind_assoc.
  change (timeIter (info g)) with (Some (g_node g)).
  erewrite bind_Ok by (by apply time_part).
  erewrite bind_Ok by (eapply data_part; cbn; apply lookup_insert_eq).
  unfold bind, get_st, set_send, modify, removed. cbn. rewrite Es, delete_insert_eq. do 2 f_equal.
  pose proof (rep_removed s G g Hr Hg) as (_ & _ & _ & _ & _ & Hs'). cbn in Hs'. rewrite Es in Hs'. rewrite Hs'.
  assert (EU' : unsent (drop_id (r_id g) G) = U).
  { unfold unsent, drop_id in *. rewrite list_filter_filter.
    rewrite (list_filter_iff _ (λ g' : entry, r_id g' ≠ r_id g ∧ r_sent g' = false)) by tauto.
    rewrite <- (list_filter_filter (λ g' : entry, r_id g' ≠ r_id g) (λ g' : entry, r_sent g' = false)).
    rewrite EU, filter_cons, decide_False by (intros H0; by apply H0). apply filter_all, Forall_forall.
    intros g' Hg' E.
    pose proof (NoDup_map_filter (λ g : entry, r_id g) (λ g : entry, r_sent g = false) G Hi) as HU.
    rewrite EU in HU. cbn in HU. apply NoDup_cons in HU as [HU _]. apply HU. rewrite <- E.
    change (r_id g') with ((λ g : entry, r_id g) g'). by apply list_elem_of_fmap_2. }
  rewrite EU', Hs. cbn. by rewrite removelast_last.
Qed.

Lemma push_spec s G x i d sent : rep s G →
  match find_id i (reqs G) with
  | Some _ => push x i d sent s = (Ok false, s)
  | None => ∃ s', push x i d sent s = (Ok true, s') ∧ nodes s' = S (nodes s) ∧
              rep s' (G ++ [mkEntry (mkReq i x d sent) (negb sent) (nodes s)])
  end.
Proof.
  intros Hr. pose proof (find_id_spec i G) as Hf. unfold push.
  rewrite !(bind_Ok get_st _ s s s) by done. destruct (find_id i (reqs G)).
  - destruct Hf as (g & Hg & _ & <-). by rewrite (rep_lookup s G g Hr Hg).
  - rewrite (rep_lookup_None s G i Hr Hf). eexists. split; [done | split; [done |]].
    destruct Hr as (Hi & Hn & Ha & Hd & Ht & Hs).
    unfold reqs in Hf. rewrite map_map in Hf. split_and!; cbn.
    + rewrite map_app. apply NoDup_app. split_and!; [done | | apply NoDup_singleton].
      intros y Hy ->%list_elem_of_singleton. done.
    + rewrite map_app. apply NoDup_app. split_and!; [done | | apply NoDup_singleton].
      intros y (g & -> & Hg)%list_elem_of_fmap E%list_elem_of_singleton. cbn in E.
      rewrite Forall_forall in Ha. destruct (Ha g Hg). lia.
    + apply Forall_app. split.
      * eapply Forall_impl; [exact Ha |]. intros g [??]. split; [lia | done].
      * constructor; [|done]. cbn. split; [lia | by intros ->].
    + rewrite map_app, list_to_map_app, <- Hd.
      cbn. rewrite insert_union_singleton_r; [by destruct sent |].
      rewrite Hd. apply not_elem_of_list_to_map_1. by rewrite <- list_fmap_compose.
    + by rewrite Ht, times_snoc.
    + unfold unsent. rewrite filter_app, filter_cons, filter_nil, map_app, rev_app_distr. cbn.
      rewrite Hs. by destruct sent.
Qed.

Definition not_due (now : Z) (L : list request) : list request := filter (λ r, now < r_deadline r) L.

Lemma due_None now L : due now L = None → not_due now L = L.
Proof.
  unfold due, not_due. intros Hd. apply filter_all, Forall_forall. intros r Hr.
  destruct (earliest L) as [r'|] eqn:E.
  - pose proof (earliest_le L r' r E Hr). destruct (Z.ltb_spec now (r_deadline r')); [lia | done].
  - destruct L; [by apply elem_of_nil in Hr |]. cbn in E. by destruct (earliest L).
Qed.

Lemma due_Some now G r : due now (reqs G) = Some r →
  ∃ g : entry, g ∈ G ∧ g_req g = r ∧ r_deadline r ≤ now.
Proof.
  unfold due. pose proof (earliest_head G) as He. change (map g_req G) with (reqs G) in He.
  destruct (head (times G)) as [x|].
  - destruct He as (g & Hg & _ & ->). destruct (Z.ltb_spec now (r_deadline g)); [done |].
    intros [= <-]. by exists g.
  - by subst.
Qed.

Lemma not_due_drop now s G (g : entry) : rep s G → g ∈ G → r_deadline g ≤ now →
  not_due now (reqs (drop_id (r_id g) G)) = not_due now (reqs G).
Proof.
  intros (Hi & _) Hg Hd. rewrite reqs_drop_id. unfold not_due, without. rewrite list_filter_filter.
  apply filter_ext_in. intros r (g' & -> & Hg')%list_elem_of_fmap. split; [tauto |].
  intros Hlt. split; [done |]. intros E. rewrite (NoDup_map_inj (λ g : entry, r_id g) G g' g) in Hlt by done. lia.
Qed.

(** [timeout()] repeats [timeout(T&)]. *)
Lemma timeout_loop_step now (s s1 : t) x fuel : timeout now s = (Ok (Some x), s1) →
  timeout_loop (S fuel) now s = timeout_loop fuel now s1.
Proof.
  unfold timeout. cbn [timeout_loop]. rewrite !(bind_Ok get_st _ s s s) by done.
  destruct (_time s) as [|[n [d it]] l]; [done |]. destruct (now <? d); [done |].
  unfold bind, ret. destruct (expire n it s) as [[] s2]; naive_solver.
Qed.

Lemma timeout_loop_stop now (s : t) fuel : timeout now s = (Ok None, s) →
  timeout_loop (S fuel) now s = (Ok tt, s).
Proof.
  unfold timeout. cbn [timeout_loop]. rewrite !(bind_Ok get_st _ s s s) by done.
  destruct (_time s) as [|[n [d it]] l]; [done |]. destruct (now <? d); [done |].
  unfold bind, ret. destruct (expire n it s) as [[] s2]; naive_solver.
Qed.

Lemma timeout_all_spec s G now : rep s G →
  ∃ s' G', timeout_all now s = (Ok tt, s') ∧ rep s' G' ∧ reqs G' = not_due now (reqs G) ∧ nodes s' = nodes s.
Proof.
  intros Hr. unfold timeout_all. rewrite (bind_Ok get_st _ s s s) by done.
  assert (Hf : (length (_time s) < S (length (_time s)))%nat) by lia. revert Hf.
  generalize (S (length (_time s))) as fuel. intros fuel. revert s G Hr.
  induction fuel as [|fuel IH]; intros s G Hr Hf; [lia |]. cbn [timeout_loop].
  pose proof (timeout_spec s G now Hr) as Ht. destruct (due now (reqs G)) as [r|] eqn:Ed.
  - destruct Ht as (s1 & E & Hr1 & Hn1). destruct (due_Some now G r Ed) as (g & Hg & <- & Hd).
    destruct (IH s1 (drop_id (r_id g) G) Hr1) as (s' & G' & E' & Hr' & EG & Hn').
    { destruct Hr1 as (_ & _ & _ & _ & -> & _). pose proof Hr as (_ & _ & _ & _ & Et & _). rewrite Et in Hf.
      rewrite !times_perm, !length_map in *. unfold drop_id.
      pose proof (length_filter_lt (λ g' : entry, r_id g' ≠ r_id g) G g Hg). lia. }
    exists s', G'. split_and!; [| done | | congruence].
    + rewrite <- E'. by apply (timeout_loop_step now s s1 (r_ptr g)).
    + rewrite EG. by apply (not_due_drop now s).
  - exists s, G. split_and!; [| done | | done].
    + by apply (timeout_loop_stop now).
    + symmetry. by apply due_None.
Qed.

Lemma unsent_drop i G : unsent (drop_id i G) = filter (λ g : entry, r_id g ≠ i) (unsent G).
Proof. unfold unsent, drop_id. rewrite !list_filter_filter. apply list_filter_iff. tauto. Qed.

(** Taking a request out, up to the order. *)
Lemma drop_id_perm (g : entry) G : NoDup (map (λ g : entry, r_id g) G) → g ∈ G → G ≡ₚ g :: drop_id (r_id g) G.
Proof.
  induction G as [|g' G IH]; [by intros _ ?%elem_of_nil |]. cbn [map]. rewrite NoDup_cons.
  intros [Hn HG] [<-|Hg]%elem_of_cons; unfold drop_id; rewrite filter_cons.
  - rewrite decide_False by (intros H0; by apply H0). rewrite filter_all; [done |].
    apply Forall_forall. intros g' Hg' E. apply Hn. rewrite <- E.
    change (r_id g') with ((λ g : entry, r_id g) g'). by apply list_elem_of_fmap_2.
  - rewrite decide_True.
    + rewrite (IH HG Hg) at 1. apply perm_swap.
    + intros E. apply Hn. rewrite E. change (r_id g) with ((λ g : entry, r_id g) g). by apply list_elem_of_fmap_2.
Qed.

(** [generateId] touches nothing but the counter, and never gives 0. *)
Lemma generateId_spec s G : rep s G →
  ∃ i s', generateId s = (Ok i, s') ∧ rep s' G ∧ nodes s' = nodes s ∧ in_U 32 i ∧ i ≠ 0.
Proof.
  intros Hr. unfold generateId. rewrite (bind_Ok get_st _ s s s) by done. cbv zeta.
  eexists _, _. split; [reflexivity |]. split; [exact Hr | split; [done |]].
  pose proof (wrapU_range 32 (_uniqId s + 1) ltac:(lia)).
  destruct (Z.eqb_spec (wrapU 32 (_uniqId s + 1)) 0) as [->|]; [|done].
  split; [by apply wrapU_range | done].
Qed.

(** ** Refinement *)

(** The operations and their results as one type. *)
Inductive op : Type :=
  | OpPush (x : T) (id deadline : Z) (sent : bool)
  | OpGetSend
  | OpPopSend (del : bool)
  | OpGet (id : Z) (bErase : bool)
  | OpErase (id : Z)
  | OpTimeout (now : Z)
  | OpTimeoutAll (now : Z).

Inductive result : Type :=
  | RUnit
  | RBool (b : bool)
  | RPtr (x : option T).

Definition run_op (o : op) : M result :=
  match o with
  | OpPush x i d sent => let* b := push x i d sent in ret (RBool b)
  | OpGetSend => let* x := getSend in ret (RPtr x)
  | OpPopSend del => popSend del ;;; ret RUnit
  | OpGet i b => let* x := get i b in ret (RPtr x)
  | OpErase i => let* x := erase i in ret (RPtr x)
  | OpTimeout now => let* x := timeout now in ret (RPtr x)
  | OpTimeoutAll now => timeout_all now ;;; ret RUnit
  end.

(** On the list of requests; [popSend] needs a request to send. *)
Definition spec_op (o : op) (L : list request) : result * list request :=
  match o with
  | OpPush x i d sent =>
    match find_id i L with
    | Some _ => (RBool false, L)
    | None => (RBool true, L ++ [mkReq i x d sent])
    end
  | OpGetSend => (RPtr (r_ptr <$> first_unsent L), L)
  | OpPopSend del =>
    match first_unsent L with
    | Some r => (RUnit, if del then without (r_id r) L else mark_sent (r_id r) L)
    | None => (RUnit, L)
    end
  | OpGet i b => (RPtr (r_ptr <$> find_id i L), if b then without i L else L)
  | OpErase i => (RPtr (r_ptr <$> find_id i L), without i L)
  | OpTimeout now =>
    match due now L with
    | Some r => (RPtr (Some (r_ptr r)), without (r_id r) L)
    | None => (RPtr None, L)
    end
  | OpTimeoutAll now => (RUnit, not_due now L)
  end.

Definition op_ok (o : op) (L : list request) : bool :=
  match o with OpPopSend _ => match first_unsent L with Some _ => true | None => false end | _ => true end.

Lemma without_absent i L : find_id i L = None → without i L = L.
Proof.
  unfold find_id, without. induction L as [|r L IH]; [done |]. cbn [List.find]. rewrite filter_cons.
  destruct (Z.eqb_spec (r_id r) i); [done |]. intros E. by rewrite decide_True, IH.
Qed.

Lemma run_op_spec o s G : rep s G → op_ok o (reqs G) = true →
  ∃ s' G', run_op o s = (Ok (spec_op o (reqs G)).1, s') ∧ rep s' G' ∧ reqs G' = (spec_op o (reqs G)).2.
Proof.
  intros Hr Hok. destruct o as [x i d sent | | del | i b | i | now | now]; cbn [run_op spec_op op_ok] in *.
  - pose proof (push_spec s G x i d sent Hr) as Hp. destruct (find_id i (reqs G)).
    + exists s, G. by rewrite (bind_Ok _ _ _ _ _ Hp).
    + destruct Hp as (s' & E & _ & Hr'). eexists s', _. rewrite (bind_Ok _ _ _ _ _ E).
      split_and!; [done | exact Hr' |]. unfold reqs. by rewrite map_app.
  - exists s, G. by rewrite (bind_Ok _ _ _ _ _ (getSend_spec s G Hr)).
  - destruct (first_unsent (reqs G)) as [r|] eqn:Ef; [|done]. destruct del.
    + destruct (popSend_drop s G r Hr Ef) as (s' & E & Hr' & _). eexists s', _. rewrite (bind_Ok _ _ _ _ _ E).
      split_and!; [done | exact Hr' | apply reqs_drop_id].
    + destruct (popSend_mark s G r Hr Ef) as (s' & E & Hr' & _). eexists s', _. rewrite (bind_Ok _ _ _ _ _ E).
      split_and!; [done | exact Hr' | apply reqs_mark_id].
  - pose proof (get_spec s G i b Hr) as Hg. destruct (find_id i (reqs G)) eqn:Ef.
    + destruct Hg as (s' & E & Hr' & _). eexists s', _. rewrite (bind_Ok _ _ _ _ _ E).
      split_and!; [done | exact Hr' |]. destruct b; [apply reqs_drop_id | done].
    + exists s, G. rewrite (bind_Ok _ _ _ _ _ Hg). split_and!; [done.. |].
      destruct b; [by rewrite without_absent | done].
  - pose proof (erase_spec s G i Hr) as Hg. destruct (find_id i (reqs G)) eqn:Ef.
    + destruct Hg as (s' & E & Hr' & _). eexists s', _. rewrite (bind_Ok _ _ _ _ _ E).
      split_and!; [done | exact Hr' | apply reqs_drop_id].
    + exists s, G. rewrite (bind_Ok _ _ _ _ _ Hg). split_and!; [done.. |]. by rewrite without_absent.
  - pose proof (timeout_spec s G now Hr) as Ht. destruct (due now (reqs G)).
    + destruct Ht as (s' & E & Hr' & _). eexists s', _. rewrite (bind_Ok _ _ _ _ _ E).
      split_and!; [done | exact Hr' | apply reqs_drop_id].
    + exists s, G. by rewrite (bind_Ok _ _ _ _ _ Ht).
  - destruct (timeout_all_spec s G now Hr) as (s' & G' & E & Hr' & EG & _).
    exists s', G'. by rewrite (bind_Ok _ _ _ _ _ E).
Qed.

Lemma rep_new : rep new [].
Proof. split_and!; constructor. Qed.
End queue.
Arguments t T : clear implicits.
Arguments PtrInfo T : clear implicits.
End TimeoutQueue.
