(* ===== verification/AdapterProxy.v ===== *)
(** The client's side of one endpoint: [src/servant/libservant/AdapterProxy.cpp].
    Requests wait in a timeout queue until they are answered, fail or time out;
    a circuit breaker takes an endpoint out of use after failures and tries it
    again later.  The connection behind it is an interface. *)
From stdpp Require Import prelude gmap list.
From Stdlib Require Import ZArith Lia Floats.SpecFloat.
From S2P Require Import Prelude Bytes Packets TimeoutQueue.

(** [TC_Transceiver::ReturnStatus]. *)
Inductive ReturnStatus : Type := eRetError | eRetOk | eRetFull | eRetNotSend.

(** What the adapter asks of a [TC_Transceiver].  [B] are pointers to buffers.
    [tr_connect] also tells whether it threw; [tr_sendRequest] returns [None] for an
    exception, which leaves the connection closed. *)
Class Transceiver (X B : Type) := {
  tr_requestFunc : RequestPacket.t → X → B * X;
  tr_sendRequest : B → X → option ReturnStatus * X;
  tr_connect : X → bool * X;
  tr_close : X → X;
  tr_isValid : X → bool;
  tr_hasConnected : X → bool;
  tr_isConnecting : X → bool;
  tr_setIsConnTimeout : bool → X → X;
  tr_connected_valid x : tr_hasConnected x = true → tr_isValid x = true;
  tr_close_invalid x : tr_isValid (tr_close x) = false;
  tr_throw_invalid d x x' : tr_sendRequest d x = (None, x') → tr_isValid x' = false
}.

(** ** Messages *)

Inductive CallType : Type := SYNC_CALL | ASYNC_CALL | ONE_WAY.
Inductive ReqStatus : Type := REQ_REQ | REQ_RSP | REQ_TIME | REQ_EXC.
#[export] Instance CallType_eq_dec : EqDecision CallType.
Proof. solve_decision. Defined.
#[export] Instance ReqStatus_eq_dec : EqDecision ReqStatus.
Proof. solve_decision. Defined.

(** [ReqMessage].  [sched] tells whether there is a coroutine scheduler,
    [pMonitor] whether there is a monitor, [netThread] is
    [callback->getNetThreadProcess()], [coro] whether the callback has a parallel
    coroutine object. *)
Record ReqMessage (B : Type) := mkReqMessage {
  eStatus : ReqStatus;
  eType : CallType;
  bFromRpc : bool;
  request : RequestPacket.t;
  response : ResponsePacket.t;
  sReqData : option B;
  iBeginTime : Z;
  iEndTime : Z;
  bPush : bool;
  sched : bool;
  pMonitor : bool;
  netThread : bool;
  coro : bool
}.
Arguments mkReqMessage {B}.
Arguments eStatus {B} _.
Arguments eType {B} _.
Arguments bFromRpc {B} _.
Arguments request {B} _.
Arguments response {B} _.
Arguments sReqData {B} _.
Arguments iBeginTime {B} _.
Arguments iEndTime {B} _.
Arguments bPush {B} _.
Arguments sched {B} _.
Arguments pMonitor {B} _.
Arguments netThread {B} _.
Arguments coro {B} _.

Section setters.
Context {B : Type}.
Implicit Types m : ReqMessage B.

Definition with_eStatus v m : ReqMessage B :=
  mkReqMessage v (eType m) (bFromRpc m) (request m) (response m) (sReqData m) (iBeginTime m) (iEndTime m)
    (bPush m) (sched m) (pMonitor m) (netThread m) (coro m).
Definition with_response v m : ReqMessage B :=
  mkReqMessage (eStatus m) (eType m) (bFromRpc m) (request m) v (sReqData m) (iBeginTime m) (iEndTime m)
    (bPush m) (sched m) (pMonitor m) (netThread m) (coro m).
Definition with_sReqData v m : ReqMessage B :=
  mkReqMessage (eStatus m) (eType m) (bFromRpc m) (request m) (response m) (Some v) (iBeginTime m) (iEndTime m)
    (bPush m) (sched m) (pMonitor m) (netThread m) (coro m).
Definition with_iEndTime v m : ReqMessage B :=
  mkReqMessage (eStatus m) (eType m) (bFromRpc m) (request m) (response m) (sReqData m) (iBeginTime m) v
    (bPush m) (sched m) (pMonitor m) (netThread m) (coro m).
Definition with_request v m : ReqMessage B :=
  mkReqMessage (eStatus m) (eType m) (bFromRpc m) v (response m) (sReqData m) (iBeginTime m) (iEndTime m)
    (bPush m) (sched m) (pMonitor m) (netThread m) (coro m).

Definition with_iRequestId (i : Z) m : ReqMessage B :=
  let r := request m in
  with_request (RequestPacket.mk (RequestPacket.iVersion r) (RequestPacket.cPacketType r)
    (RequestPacket.iMessageType r) i (RequestPacket.sServantName r) (RequestPacket.sFuncName r)
    (RequestPacket.sBuffer r) (RequestPacket.iTimeout r) (RequestPacket.context r) (RequestPacket.status r)) m.
Definition with_iRet (v : Z) m : ReqMessage B :=
  let r := response m in
  with_response (ResponsePacket.mk (ResponsePacket.iVersion r) (ResponsePacket.cPacketType r)
    (ResponsePacket.iRequestId r) (ResponsePacket.iMessageType r) v (ResponsePacket.sBuffer r)
    (ResponsePacket.status r) (ResponsePacket.sResultDesc r) (ResponsePacket.context r)) m.
End setters.

(** ** The circuit breaker *)

(** [CheckTimeoutInfo] of [src/servant/servant/Message.h]. *)
Record CheckTimeoutInfo := mkInfo {
  minTimeoutInvoke : Z; checkTimeoutInterval : Z; frequenceFailInvoke : Z;
  minFrequenceFailTime : Z; radio : spec_float; tryTimeInterval : Z; maxConnectExc : Z
}.
(** 0.5 as a [float]. *)
Definition one_half : spec_float := S754_finite false 8388608 (-24).
Definition default_info : CheckTimeoutInfo := mkInfo 2 60 2 5 one_half 10 1.

(** [_timeoutInvoke >= radio * _totalInvoke] in single precision. *)
Definition float_of (n : Z) : spec_float := binary_normalize 24 128 n 0 false.
Definition radio_reached (r : spec_float) (timeouts total : Z) : bool :=
  SFleb (SFmul 24 128 r (float_of total)) (float_of timeouts).

Record breaker := mkBreaker {
  _activeStatus : bool; _totalInvoke : Z; _timeoutInvoke : Z; _nextFinishInvokeTime : Z;
  _frequenceFailInvoke : Z; _frequenceFailTime : Z; _nextRetryTime : Z; _connExc : bool; _connExcCnt : Z
}.
Definition breaker_new : breaker := mkBreaker true 0 0 0 0 0 0 false 0.

Section breaker.
Context {X B : Type} `{Transceiver X B} (info : CheckTimeoutInfo).
(** [TNOW], in seconds. *)
Context (now : Z).

Definition set_activeStatus v (b : breaker) : breaker :=
  mkBreaker v (_totalInvoke b) (_timeoutInvoke b) (_nextFinishInvokeTime b) (_frequenceFailInvoke b)
    (_frequenceFailTime b) (_nextRetryTime b) (_connExc b) (_connExcCnt b).
Definition set_counts total timeouts (b : breaker) : breaker :=
  mkBreaker (_activeStatus b) total timeouts (_nextFinishInvokeTime b) (_frequenceFailInvoke b)
    (_frequenceFailTime b) (_nextRetryTime b) (_connExc b) (_connExcCnt b).
Definition set_nextFinishInvokeTime v (b : breaker) : breaker :=
  mkBreaker (_activeStatus b) (_totalInvoke b) (_timeoutInvoke b) v (_frequenceFailInvoke b)
    (_frequenceFailTime b) (_nextRetryTime b) (_connExc b) (_connExcCnt b).
Definition set_frequenceFail n time (b : breaker) : breaker :=
  mkBreaker (_activeStatus b) (_totalInvoke b) (_timeoutInvoke b) (_nextFinishInvokeTime b) n
    time (_nextRetryTime b) (_connExc b) (_connExcCnt b).
Definition set_nextRetryTime v (b : breaker) : breaker :=
  mkBreaker (_activeStatus b) (_totalInvoke b) (_timeoutInvoke b) (_nextFinishInvokeTime b)
    (_frequenceFailInvoke b) (_frequenceFailTime b) v (_connExc b) (_connExcCnt b).
Definition set_connExc v n (b : breaker) : breaker :=
  mkBreaker (_activeStatus b) (_totalInvoke b) (_timeoutInvoke b) (_nextFinishInvokeTime b)
    (_frequenceFailInvoke b) (_frequenceFailTime b) (_nextRetryTime b) v n.

Definition resetRetryTime (next : bool) (b : breaker) : breaker :=
  set_nextRetryTime (if next then now + tryTimeInterval info else now) b.

(** [onSetInactive].  [setInactive] calls it for this adapter and then, through
    the root proxy, for every adapter of the endpoint, this one again, which
    changes nothing. *)
Definition onSetInactive (s : breaker * X) : breaker * X :=
  (resetRetryTime true (set_activeStatus false s.1), tr_close s.2).
Definition setInactive : breaker * X → breaker * X := onSetInactive.

(** [finishInvoke(bool bFail)]. *)
Definition finishInvoke_bool (bFail : bool) (s : breaker * X) : breaker * X :=
  let '(b, x) := s in
  if negb (_activeStatus b) then
    if negb bFail then
      (mkBreaker true 1 0 (now + checkTimeoutInterval info) 0 (_frequenceFailTime b) (_nextRetryTime b) false (_connExcCnt b),
       tr_setIsConnTimeout false x)
    else (b, x)
  else
    let b := set_counts (wrapU 32 (_totalInvoke b + 1)) (_timeoutInvoke b) b in
    let b :=
      if bFail then
        let b := set_counts (_totalInvoke b) (wrapU 32 (_timeoutInvoke b + 1)) b in
        let time := if 0 =? _frequenceFailInvoke b then now + minFrequenceFailTime info else _frequenceFailTime b in
        set_frequenceFail (wrapU 32 (_frequenceFailInvoke b + 1)) time b
      else set_frequenceFail 0 (_frequenceFailTime b) b in
    if bFail && (frequenceFailInvoke info <=? _frequenceFailInvoke b) && (_frequenceFailTime b <=? now) then
      let '(b, x) := setInactive (b, x) in
      (resetRetryTime true (set_activeStatus false b), x)
    else if _nextFinishInvokeTime b <? now then
      let b := set_nextFinishInvokeTime (now + checkTimeoutInterval info) b in
      if bFail && (minTimeoutInvoke info <=? _timeoutInvoke b) &&
         radio_reached (radio info) (_timeoutInvoke b) (_totalInvoke b)
      then setInactive (b, x)
      else (set_counts 0 0 b, x)
    else (b, x).

(** [checkActive(connecting)]. *)
Definition checkActive (connecting : bool) (s : breaker * X) : bool * (breaker * X) :=
  let '(b, x) := s in
  if negb (_activeStatus b) && (now <? _nextRetryTime b) then (false, (b, x))
  else
    let b := if negb (_activeStatus b) then resetRetryTime true b else b in
    let '(b, x) :=
      if negb (tr_isValid x) then
        let '(threw, x) := tr_connect x in
        if (threw : bool) then (set_activeStatus false b, tr_close x) else (b, x)
      else (b, x) in
    (if connecting && _activeStatus b then tr_hasConnected x || tr_isConnecting x else tr_hasConnected x, (b, x)).

(** [addConnExc(bExc)]. *)
Definition addConnExc (bExc : bool) (s : breaker * X) : breaker * X :=
  let '(b, x) := s in
  if bExc then
    if negb (_connExc b) then
      let b := set_connExc (_connExc b) (wrapU 32 (_connExcCnt b + 1)) b in
      if maxConnectExc info <=? _connExcCnt b then
        let '(b, x) := setInactive (b, x) in (set_connExc true (_connExcCnt b) b, x)
      else (b, x)
    else (b, x)
  else
    (set_activeStatus true (set_connExc false 0 b), x).
End breaker.

(** ** Statistics *)

(** The members of [StatMicMsgBody] (of [StatF.tars], which is not in the
    repository) that the code uses; unbounded, as their widths are not known. *)
Record StatMicMsgBody := mkBody {
  count : Z; timeoutCount : Z; execCount : Z; intervalCount : gmap Z Z;
  totalRspTime : Z; maxRspTime : Z; minRspTime : Z
}.
Definition body_empty : StatMicMsgBody := mkBody 0 0 0 ∅ 0 0 0.

(** [StatReport::getIntervCount]: [found] is [bGetIntev]. *)
Fixpoint interv_loop (points : list Z) (time : Z) (needInit found : bool) (m : gmap Z Z) : gmap Z Z :=
  match points with
  | [] => m
  | p :: points' =>
    if negb found && (time <? p) then
      let m := <[p := default 0 (m !! p) + 1]> m in
      if needInit then interv_loop points' time needInit true m else m
    else interv_loop points' time needInit found (if needInit then <[p := 0]> m else m)
  end.
Definition getIntervCount (points : list Z) (time : Z) (b : StatMicMsgBody) : StatMicMsgBody :=
  mkBody (count b) (timeoutCount b) (execCount b)
    (interv_loop points time (bool_decide (intervalCount b = ∅)) false (intervalCount b))
    (totalRspTime b) (maxRspTime b) (minRspTime b).

(** [AdapterProxy::merge]. *)
Definition merge (points : list Z) (i o : StatMicMsgBody) : StatMicMsgBody :=
  getIntervCount points (maxRspTime i)
    (mkBody (count o + count i) (timeoutCount o + timeoutCount i) (execCount o + execCount i) (intervalCount o)
      (totalRspTime o + totalRspTime i) (if maxRspTime o <? maxRspTime i then maxRspTime i else maxRspTime o)
      (if (minRspTime o =? 0) || ((minRspTime i <? minRspTime o) && negb (minRspTime i =? 0))
       then minRspTime i else minRspTime o)).

(** ** The adapter *)

(** What the adapter reads of its surroundings: the root proxy's settings, the
    communicator's, the points of the statistics, and the return codes of
    [BaseF.tars], which is not in the repository. *)
Record config := {
  connection_serial : Z;
  timeout_info : CheckTimeoutInfo;
  push_callback : bool;
  push_netThread : bool;
  noSendQueueLimit : Z;
  keepAliveInterval : Z;
  default_asynctimeout : Z;
  timePoint : list Z;
  adapter_name : list Z;
  TARSSERVERSUCCESS : Z;
  TARSSERVERUNKNOWNERR_ : Z;
  TARSSENDREQUESTERR : Z;
  TARSPROXYCONNECTERR : Z;
  TARSASYNCCALLTIMEOUT : Z;
  TARSVERSION_ : Z;
  TARSONEWAY : Z
}.

(** [TarsDecodeException] of a push without callback; [TC_Transceiver_Exception]
    from sending. *)
Inductive adapter_error : Type := PushWithoutCallback | SendFailed.

(** How a message leaves the adapter: [notify] of the caller's monitor, [put] to
    its coroutine scheduler, [dispatch] of the callback in the network thread,
    [pushAsyncThreadQueue], [insert] into a parallel coroutine object, [delete]. *)
Inductive completion : Type :=
  | Notified | Scheduled | Dispatched | Queued | Inserted | Deleted.

Module Adapter.
Section adapter.
Context {X B : Type} `{Transceiver X B} (C : config).

(** [heap] holds the messages the adapter may touch; [next] is the next address
    of [new]; [completed] lists the messages that left, with the content they
    left with. *)
Record t := mk {
  heap : gmap nat (ReqMessage B);
  next : nat;
  completed : list (nat * (completion * ReqMessage B));
  _requestMsg : option nat;
  _timeoutQueue : TimeoutQueue.t nat;
  brk : breaker;
  _nextKeepAliveTime : Z;
  _statBody : gmap (list Z) StatMicMsgBody;
  trans : X
}.

Definition new (x : X) : t := mk ∅ 0 [] None TimeoutQueue.new breaker_new 0 ∅ x.

Abbreviation M A := (prog t adapter_error A).

Definition set_heap h : M unit := modify (λ s,
  mk h (next s) (completed s) (_requestMsg s) (_timeoutQueue s) (brk s) (_nextKeepAliveTime s) (_statBody s) (trans s)).
Definition set_requestMsg r : M unit := modify (λ s,
  mk (heap s) (next s) (completed s) r (_timeoutQueue s) (brk s) (_nextKeepAliveTime s) (_statBody s) (trans s)).
Definition set_nextKeepAliveTime v : M unit := modify (λ s,
  mk (heap s) (next s) (completed s) (_requestMsg s) (_timeoutQueue s) (brk s) v (_statBody s) (trans s)).
Definition set_statBody v : M unit := modify (λ s,
  mk (heap s) (next s) (completed s) (_requestMsg s) (_timeoutQueue s) (brk s) (_nextKeepAliveTime s) v (trans s)).
Definition set_breaker (bx : breaker * X) : M unit := modify (λ s,
  mk (heap s) (next s) (completed s) (_requestMsg s) (_timeoutQueue s) bx.1 (_nextKeepAliveTime s) (_statBody s) bx.2).

(** A method of the timeout queue. *)
Definition on_queue {A} (m : prog (TimeoutQueue.t nat) Empty_set A) : M A := λ s,
  let '(o, q) := m (_timeoutQueue s) in
  (match o with
   | Ok a => Ok a
   | Throw e => match e with end
   | OutOfBounds => OutOfBounds
   | AssertFailed => AssertFailed
   | NoFuel => NoFuel
   end,
   mk (heap s) (next s) (completed s) (_requestMsg s) q (brk s) (_nextKeepAliveTime s) (_statBody s) (trans s)).

(** A call of the connection. *)
Definition on_trans {A} (f : X → A * X) : M A := λ s,
  let '(a, x) := f (trans s) in
  (Ok a, mk (heap s) (next s) (completed s) (_requestMsg s) (_timeoutQueue s) (brk s) (_nextKeepAliveTime s) (_statBody s) x).

(** A message behind its pointer, and an assignment to a member of it. *)
Definition deref (p : nat) : M (ReqMessage B) := λ s,
  match heap s !! p with Some m => (Ok m, s) | None => (OutOfBounds, s) end.
Definition update (p : nat) (f : ReqMessage B → ReqMessage B) : M unit :=
  let* m := deref p in let* s := get_st in set_heap (<[p := f m]> (heap s)).

(** [new ReqMessage]. *)
Definition alloc (m : ReqMessage B) : M nat := λ s,
  (Ok (next s), mk (<[next s := m]> (heap s)) (S (next s)) (completed s) (_requestMsg s) (_timeoutQueue s) (brk s)
                  (_nextKeepAliveTime s) (_statBody s) (trans s)).

(** The message is handed over, or deleted: from here on the adapter must not
    touch it. *)
Definition give (c : completion) (p : nat) : M unit :=
  let* m := deref p in
  modify (λ s, mk (delete p (heap s)) (next s) (completed s ++ [(p, (c, m))]) (_requestMsg s) (_timeoutQueue s)
                 (brk s) (_nextKeepAliveTime s) (_statBody s) (trans s)).

Section at_time.
(** [TNOWMS]; [TNOW] is the same clock in seconds. *)
Context (nowms : Z).
Let now : Z := nowms / 1000.

(** What one completed message adds to the statistics. *)
Definition stat_body (m : ReqMessage B) : StatMicMsgBody :=
  match eStatus m with
  | REQ_RSP =>
    if ResponsePacket.iRet (response m) =? TARSSERVERSUCCESS C then
      let sptime := if iBeginTime m <=? iEndTime m then iEndTime m - iBeginTime m else 10000 in
      mkBody 1 0 0 ∅ sptime sptime sptime
    else mkBody 0 0 1 ∅ 0 0 0
  | REQ_TIME => mkBody 0 1 0 ∅ 0 0 0
  | _ => mkBody 0 0 1 ∅ 0 0 0
  end.

(** The body of a function, with one more message. *)
Definition add_body (body : StatMicMsgBody) (o : option StatMicMsgBody) : StatMicMsgBody :=
  match o with
  | Some b => merge (timePoint C) body b
  | None => getIntervCount (timePoint C) (maxRspTime body) body
  end.

(** [stat(msg)]. *)
Definition stat (p : nat) : M unit :=
  let* m := deref p in
  if bPush m then ret tt else
  update p (with_iEndTime nowms) ;;;
  let* m := deref p in
  let body := stat_body m in
  let* s := get_st in
  let name := RequestPacket.sFuncName (request m) in
  set_statBody (<[name := add_body body (_statBody s !! name)]> (_statBody s)).

(** [finishInvoke] of a message. *)
Definition finishInvoke_msg (p : nat) : M unit :=
  let* m := deref p in
  if decide (eType m = ONE_WAY) then give Deleted p else
  stat p ;;;
  let* m := deref p in
  (if negb (bool_decide (eStatus m = REQ_EXC)) && negb (bPush m) then
     let* s := get_st in
     set_breaker (finishInvoke_bool (timeout_info C) now
       (negb (ResponsePacket.iRet (response m) =? TARSSERVERSUCCESS C)) (brk s, trans s))
   else ret tt) ;;;
  let* m := deref p in
  match eType m with
  | SYNC_CALL =>
    if negb (sched m) then assert_that (pMonitor m) ;;; give Notified p
    else give Scheduled p
  | ASYNC_CALL =>
    if negb (sched m) then (if netThread m then give Dispatched p else give Queued p)
    else if coro m then give Inserted p
    else give Deleted p
  | ONE_WAY => λ s, (AssertFailed, s)
  end.

Definition generateId : M Z := on_queue TimeoutQueue.generateId.

(** The last lines of both ways to invoke: the message waits to be sent. *)
Definition push_message (p : nat) (sent : bool) : M bool :=
  let* m := deref p in
  on_queue (TimeoutQueue.push p (RequestPacket.iRequestId (request m))
    (RequestPacket.iTimeout (request m) + iBeginTime m) sent).

Definition make_request (p : nat) : M unit :=
  let* m := deref p in
  let* d := on_trans (tr_requestFunc (request m)) in
  update p (with_sReqData d).

Definition sendRequest (p : nat) : M ReturnStatus :=
  let* m := deref p in
  match sReqData m with
  | Some d =>
    let* r := on_trans (tr_sendRequest d) in
    match r with Some r => ret r | None => throw SendFailed end
  | None => out_of_bounds
  end.

Definition fail_exc (p : nat) : M unit := update p (with_eStatus REQ_EXC) ;;; finishInvoke_msg p.

Definition push_unsent (p : nat) : M Z :=
  let* bFlag := push_message p false in
  (if (bFlag : bool) then ret tt else fail_exc p) ;;; ret 0.

Definition invoke_connection_serial (p : nat) : M Z :=
  let* m := deref p in
  assert_that (negb (bool_decide (eType m = ONE_WAY))) ;;;
  make_request p ;;;
  let* i := generateId in
  update p (with_iRequestId i) ;;;
  let* s := get_st in
  match _requestMsg s, TimeoutQueue.sendListEmpty (_timeoutQueue s) with
  | None, true =>
    let* r := sendRequest p in
    match r with
    | eRetOk | eRetFull =>
      set_requestMsg (Some p) ;;;
      let* bFlag := push_message p true in
      (if (bFlag : bool) then ret tt else set_requestMsg None ;;; fail_exc p) ;;; ret 0
    | eRetError => set_requestMsg None ;;; fail_exc p ;;; ret (-1)
    | eRetNotSend => push_unsent p
    end
  | _, _ => push_unsent p
  end.

Definition invoke_connection_parallel (p : nat) : M Z :=
  make_request p ;;;
  let* s := get_st in
  if TimeoutQueue.sendListEmpty (_timeoutQueue s) then
    let* r := sendRequest p in
    match r with
    | eRetOk | eRetFull =>
      let* m := deref p in
      if decide (eType m = ONE_WAY) then give Deleted p ;;; ret 0
      else
        let* bFlag := push_message p true in
        (if (bFlag : bool) then ret tt else fail_exc p) ;;; ret 0
    | eRetError => fail_exc p ;;; ret (-1)
    | eRetNotSend => push_unsent p
    end
  else push_unsent p.

Definition invoke (p : nat) : M Z :=
  let* s := get_st in
  if noSendQueueLimit C <? TimeoutQueue.getSendListSize (_timeoutQueue s) then
    update p (with_eStatus REQ_EXC) ;;;
    update p (with_iRet (TARSSENDREQUESTERR C)) ;;;
    finishInvoke_msg p ;;; ret 0
  else
    let* m := deref p in
    (if negb (bFromRpc m) then let* i := generateId in update p (with_iRequestId i) else ret tt) ;;;
    if 0 <? connection_serial C then invoke_connection_serial p else invoke_connection_parallel p.

Definition doInvoke_serial : M unit :=
  let* s := get_st in
  match _requestMsg s, TimeoutQueue.sendListEmpty (_timeoutQueue s) with
  | None, false =>
    let* msg := on_queue TimeoutQueue.getSend in
    match msg with
    | None => out_of_bounds
    | Some p =>
      let* iRet := sendRequest p in
      match iRet with
      | eRetError =>
        set_requestMsg None ;;;
        on_queue (TimeoutQueue.popSend true) ;;;
        update p (with_iRet (TARSSENDREQUESTERR C)) ;;;
        finishInvoke_msg p
      | eRetOk | eRetFull =>
        set_requestMsg (Some p) ;;; on_queue (TimeoutQueue.popSend false)
      | eRetNotSend => ret tt
      end
    end
  | _, _ => ret tt
  end.

Fixpoint doInvoke_loop (fuel : nat) : M unit :=
  match fuel with
  | O => λ s, (NoFuel, s)
  | S fuel' =>
    let* s := get_st in
    if TimeoutQueue.sendListEmpty (_timeoutQueue s) then ret tt else
    let* msg := on_queue TimeoutQueue.getSend in
    match msg with
    | None => out_of_bounds
    | Some p =>
      let* iRet := sendRequest p in
      match iRet with
      | eRetError | eRetNotSend => ret tt
      | eRetOk | eRetFull =>
        let* m := deref p in
        on_queue (TimeoutQueue.popSend (bool_decide (eType m = ONE_WAY))) ;;;
        (if decide (eType m = ONE_WAY) then give Deleted p else ret tt) ;;;
        match iRet with eRetFull => ret tt | _ => doInvoke_loop fuel' end
      end
    end
  end.

(** Each round takes a message off the list. *)
Definition doInvoke_parallel : M unit :=
  let* s := get_st in doInvoke_loop (S (length (TimeoutQueue._send (_timeoutQueue s)))).

Definition doInvoke : M unit :=
  if 0 <? connection_serial C then doInvoke_serial else doInvoke_parallel.

Definition finishInvoke_serial (rsp : ResponsePacket.t) : M unit :=
  let* s := get_st in
  match _requestMsg s with
  | None => ret tt
  | Some p =>
    let* m := deref p in
    let* retErase := on_queue (TimeoutQueue.erase (RequestPacket.iRequestId (request m))) in
    assert_that (bool_decide (retErase = Some p)) ;;;
    assert_that (negb (bool_decide (eType m = ONE_WAY))) ;;;
    assert_that (bool_decide (eStatus m = REQ_REQ)) ;;;
    set_requestMsg None ;;;
    update p (with_eStatus REQ_RSP) ;;;
    update p (with_response rsp) ;;;
    finishInvoke_msg p
  end.

(** A message the server pushes. *)
Definition push_msg : ReqMessage B :=
  mkReqMessage REQ_RSP ASYNC_CALL true RequestPacket.empty ResponsePacket.empty None nowms 0 true false false
    (push_netThread C) false.

Definition finishInvoke_parallel (rsp : ResponsePacket.t) : M unit :=
  if ResponsePacket.iRequestId rsp =? 0 then
    if negb (push_callback C) then throw PushWithoutCallback
    else
      let* p := alloc push_msg in
      update p (with_response rsp) ;;; finishInvoke_msg p
  else
    let* msg := on_queue (TimeoutQueue.erase (ResponsePacket.iRequestId rsp)) in
    match msg with
    | None => ret tt
    | Some p =>
      let* m := deref p in
      assert_that (bool_decide (eStatus m = REQ_REQ)) ;;;
      update p (with_eStatus REQ_RSP) ;;;
      update p (with_response rsp) ;;;
      finishInvoke_msg p
    end.

Definition finishInvoke (rsp : ResponsePacket.t) : M unit :=
  if 0 <? connection_serial C then finishInvoke_serial rsp else finishInvoke_parallel rsp.

(** The body of the loop of [doTimeout]: the request [p] has timed out. *)
Definition timeout_msg (p : nat) : M unit :=
  let* s := get_st in
  (if decide (_requestMsg s = Some p)
   then set_requestMsg None ;;; on_trans (λ x, (tt, tr_close x)) else ret tt) ;;;
  update p (with_eStatus REQ_TIME) ;;;
  let* m := deref p in
  if decide (eType m = ONE_WAY) then give Deleted p
  else
    (if decide (eType m = ASYNC_CALL) then
       let* s := get_st in
       update p (with_iRet (if 0 <? _connExcCnt (brk s) then TARSPROXYCONNECTERR C else TARSASYNCCALLTIMEOUT C))
     else ret tt) ;;;
    finishInvoke_msg p.

Fixpoint doTimeout_loop (fuel : nat) : M unit :=
  match fuel with
  | O => λ s, (NoFuel, s)
  | S fuel' =>
    let* msg := on_queue (TimeoutQueue.timeout nowms) in
    match msg with
    | None => ret tt
    | Some p => timeout_msg p ;;; doTimeout_loop fuel'
    end
  end.

(** Each round takes a request off the queue. *)
Definition doTimeout : M unit :=
  let* s := get_st in doTimeout_loop (S (length (TimeoutQueue._time (_timeoutQueue s)))).

Definition checkActive_m (connecting : bool) : M bool :=
  let* s := get_st in
  let '(r, bx) := checkActive (timeout_info C) now connecting (brk s, trans s) in
  set_breaker bx ;;; ret r.

Definition addConnExc_m (bExc : bool) : M unit :=
  let* s := get_st in set_breaker (addConnExc (timeout_info C) now bExc (brk s, trans s)).

(** [doKeepAlive]: a one-way ping. *)
Definition ping_msg : ReqMessage B :=
  mkReqMessage REQ_REQ ONE_WAY false
    (RequestPacket.mk (TARSVERSION_ C) (TARSONEWAY C) 0 1 (adapter_name C)
       [116; 97; 114; 115; 95; 112; 105; 110; 103] [] (default_asynctimeout C) [] [])
    (ResponsePacket.mk 0 0 0 0 (TARSSERVERUNKNOWNERR_ C) [] [] [] [])
    None nowms 0 false false false false false.

Definition doKeepAlive : M unit :=
  let* active := checkActive_m false in
  if negb active then ret tt else
  let* s := get_st in
  if now <? _nextKeepAliveTime s then ret tt else
  set_nextKeepAliveTime (now + keepAliveInterval C) ;;;
  let* p := alloc ping_msg in
  invoke p ;;; ret tt.
End at_time.

(** [mergeStat]; the heads of one adapter differ in [interfaceName] only. *)
Definition mergeStat (mStatMicMsg : gmap (list Z) StatMicMsgBody) : M (gmap (list Z) StatMicMsgBody) :=
  let* s := get_st in
  let add m '(name, body) :=
    if negb (count body =? 0) || negb (timeoutCount body =? 0) || negb (execCount body =? 0) then
      <[name := match m !! name with Some b => merge (timePoint C) body b | None => body end]> m
    else m in
  set_statBody ∅ ;;; ret (foldl add mStatMicMsg (map_to_list (_statBody s))).
End adapter.
Arguments t X B : clear implicits.
End Adapter.
