(* ===== verification/AdapterInv.v ===== *)
(** The invariant of [AdapterProxy]: whose message is whose.  Every message the
    adapter ever got is in one place: pending in the timeout queue, or handed
    over, once; nothing that has been handed over is touched again. *)
From stdpp Require Import prelude gmap list.
From Stdlib Require Import ZArith Lia.
From S2P Require Import Prelude Bytes Packets TimeoutQueue AdapterProxy.

Import Adapter.

Section invariant.
Context {X B : Type} `{TX : Transceiver X B} (C : config).
Abbreviation st := (Adapter.t X B).
Abbreviation entry := (@TimeoutQueue.entry nat).

Definition ptrs (G : list entry) : list nat := map TimeoutQueue.r_ptr (TimeoutQueue.reqs G).

(** What the caller of [invoke] has to provide. *)
Definition msg_ok (m : ReqMessage B) : Prop :=
  (eType m = SYNC_CALL → sched m = false → pMonitor m = true) ∧
  (0 < connection_serial C → eType m ≠ ONE_WAY).

(** A message in the queue. *)
Definition pending_ok (g : entry) (m : ReqMessage B) : Prop :=
  eStatus m = REQ_REQ ∧ RequestPacket.iRequestId (request m) = TimeoutQueue.r_id (TimeoutQueue.g_req g) ∧
  RequestPacket.iTimeout (request m) + iBeginTime m = TimeoutQueue.r_deadline (TimeoutQueue.g_req g) ∧
  is_Some (sReqData m) ∧ msg_ok m.

(** [G] are the pending requests, [H] the messages in hand during an operation. *)
Record Inv (s : st) (G : list entry) (H : list nat) : Prop := {
  inv_rep : TimeoutQueue.rep (_timeoutQueue s) G;
  inv_dom p : is_Some (heap s !! p) ↔ p ∈ ptrs G ++ H;
  inv_all : map fst (completed s) ++ ptrs G ++ H ≡ₚ seq 0 (next s);
  inv_msg : Forall (λ g : entry, ∃ m, heap s !! TimeoutQueue.r_ptr (TimeoutQueue.g_req g) = Some m ∧ pending_ok g m) G;
  inv_req : ∀ p, _requestMsg s = Some p → 0 < connection_serial C ∧
    ∃ g : entry, g ∈ G ∧ TimeoutQueue.r_ptr (TimeoutQueue.g_req g) = p ∧ TimeoutQueue.r_sent (TimeoutQueue.g_req g) = true
}.

Section operations.
(** Messages given up before, and what is to hold when an operation throws. *)
Context (L : list nat) (R : adapter_error → st → Prop).
#[local] Abbreviation yields m s Q := (runs m s Q R).

(** ** Stepping through operations *)

Definition upd (p : nat) (m : ReqMessage B) (s : st) : st :=
  mk (<[p := m]> (heap s)) (next s) (completed s) (_requestMsg s) (_timeoutQueue s) (brk s) (_nextKeepAliveTime s)
    (_statBody s) (trans s).
Definition given (c : completion) (p : nat) (m : ReqMessage B) (s : st) : st :=
  mk (delete p (heap s)) (next s) (completed s ++ [(p, (c, m))]) (_requestMsg s) (_timeoutQueue s) (brk s)
    (_nextKeepAliveTime s) (_statBody s) (trans s).
Definition core (s : st) := (heap s, next s, completed s, _requestMsg s, _timeoutQueue s).

Lemma yields_deref p m s (Q : ReqMessage B → st → Prop) : heap s !! p = Some m → Q m s → yields (deref p) s Q.
Proof. intros E HQ. unfold runs, deref. by rewrite E. Qed.

Lemma yields_update p m f s (Q : unit → st → Prop) :
  heap s !! p = Some m → Q tt (upd p (f m) s) → yields (update p f) s Q.
Proof.
  intros E HQ. unfold update. apply runs_bind. eapply yields_deref; [exact E |].
  apply runs_bind, runs_get, runs_modify, HQ.
Qed.

Lemma yields_give c p m s (Q : unit → st → Prop) :
  heap s !! p = Some m → Q tt (given c p m s) → yields (give c p) s Q.
Proof.
  intros E HQ. unfold give. apply runs_bind. eapply yields_deref; [exact E |]. apply runs_modify, HQ.
Qed.

Lemma Inv_core s s' G H : core s = core s' → Inv s G H → Inv s' G H.
Proof. intros [= E1 E2 E3 E4 E5] []. split; rewrite <- ?E1, <- ?E2, <- ?E3, <- ?E4, <- ?E5; assumption. Qed.

(** A message in hand is not in the queue. *)
Lemma in_hand s G p : Inv s G (p :: L) → p ∉ ptrs G ∧ is_Some (heap s !! p) ∧ p ∉ map fst (completed s) ∧ p ∉ L.
Proof.
  intros Hi. assert (Hn : NoDup (map fst (completed s) ++ ptrs G ++ p :: L)).
  { rewrite (inv_all _ _ _ Hi). apply NoDup_seq. }
  apply NoDup_app in Hn as (_ & Hc & (_ & Hp & [HL _]%NoDup_cons)%NoDup_app). split_and!; [..| exact HL].
  - intros Hin. by apply (Hp p Hin), list_elem_of_here.
  - apply (inv_dom _ _ _ Hi), elem_of_app. right. apply list_elem_of_here.
  - intros Hin. apply (Hc p Hin), elem_of_app. right. apply list_elem_of_here.
Qed.

Lemma ptrs_elem (g : entry) G : g ∈ G → TimeoutQueue.r_ptr (TimeoutQueue.g_req g) ∈ ptrs G.
Proof. intros Hg. by apply list_elem_of_fmap_2, list_elem_of_fmap_2. Qed.

(** Changes of the heap that spare the pending messages. *)
Lemma msgs_other (h h' : gmap nat (ReqMessage B)) G :
  (∀ q, q ∈ ptrs G → h' !! q = h !! q) →
  Forall (λ g : entry, ∃ m, h !! TimeoutQueue.r_ptr (TimeoutQueue.g_req g) = Some m ∧ pending_ok g m) G →
  Forall (λ g : entry, ∃ m, h' !! TimeoutQueue.r_ptr (TimeoutQueue.g_req g) = Some m ∧ pending_ok g m) G.
Proof.
  intros Heq. rewrite !Forall_forall. intros HG g Hg. rewrite Heq by by apply ptrs_elem. by apply HG.
Qed.

Lemma Inv_upd s G p m : Inv s G (p :: L) → Inv (upd p m s) G (p :: L).
Proof.
  intros Hi. pose proof (in_hand s G p Hi) as (Hp & Hs & _). destruct Hi as [Hr Hd Ha Hm Hq]. split; cbn; [done | | done | | done].
  - intros q. rewrite <- Hd. destruct (decide (q = p)) as [->|]; [by rewrite lookup_insert_eq |].
    by rewrite lookup_insert_ne.
  - eapply msgs_other; [|exact Hm]. intros q Hq'. rewrite lookup_insert_ne; [done |]. by intros ->.
Qed.

Lemma Inv_given s G p c m : Inv s G (p :: L) → Inv (given c p m s) G L.
Proof.
  intros Hi. pose proof (in_hand s G p Hi) as (Hp & Hs & _ & HL). destruct Hi as [Hr Hd Ha Hm Hq].
  split; cbn; [done | | | | done].
  - intros q. rewrite elem_of_app. destruct (decide (q = p)) as [->|Hne].
    + rewrite lookup_delete_eq. split; [by intros [? [=]] | by intros [|]].
    + rewrite lookup_delete_ne, Hd, elem_of_app, elem_of_cons by done. tauto.
  - rewrite map_app, <- Ha, <- app_assoc. cbn. by rewrite Permutation_middle.
  - eapply msgs_other; [|exact Hm]. intros q Hq'. rewrite lookup_delete_ne; [done |]. by intros ->.
Qed.

(** ** Completing a message *)

Section time.
Context (nowms : Z).

Definition stat_msg (m : ReqMessage B) : ReqMessage B := if bPush m then m else with_iEndTime nowms m.

Lemma yields_stat p m s (Q : unit → st → Prop) : heap s !! p = Some m →
  (∀ s', core s' = core (upd p (stat_msg m) s) → Q tt s') → yields (stat C nowms p) s Q.
Proof.
  intros E HQ. unfold stat, stat_msg in *. apply runs_bind. eapply yields_deref; [exact E |]. cbv beta.
  destruct (bPush m).
  - apply runs_ret, HQ. unfold core, upd. cbn. by rewrite insert_id.
  - apply runs_bind. eapply yields_update; [exact E |]. cbv beta.
    apply runs_bind. eapply yields_deref; [apply lookup_insert_eq |]. cbv beta zeta.
    apply runs_bind, runs_get, runs_modify. by apply HQ.
Qed.

(** How a message leaves, and what it looks like then. *)
Definition completion_of (m : ReqMessage B) : completion :=
  match eType m with
  | ONE_WAY => Deleted
  | SYNC_CALL => if sched m then Scheduled else Notified
  | ASYNC_CALL =>
    if sched m then (if coro m then Inserted else Deleted) else if netThread m then Dispatched else Queued
  end.
Definition final_msg (m : ReqMessage B) : ReqMessage B :=
  match eType m with ONE_WAY => m | _ => stat_msg m end.

(** [s'] is [s] but for the message [p], completed as [m]. *)
Definition settled (p : nat) (m : ReqMessage B) (s s' : st) : Prop :=
  heap s' = delete p (heap s) ∧ next s' = next s ∧
  completed s' = completed s ++ [(p, (completion_of m, final_msg m))] ∧
  _requestMsg s' = _requestMsg s ∧ _timeoutQueue s' = _timeoutQueue s.

Lemma yields_finish p m s (Q : unit → st → Prop) : heap s !! p = Some m → msg_ok m →
  (∀ s', settled p m s s' → Q tt s') → yields (finishInvoke_msg C nowms p) s Q.
Proof.
  intros E [Hmon _] HQ. unfold finishInvoke_msg. apply runs_bind. eapply yields_deref; [exact E |]. cbv beta.
  destruct (decide (eType m = ONE_WAY)) as [Ht|Ht].
  { eapply yields_give; [exact E |]. apply HQ. unfold settled, completion_of, final_msg. by rewrite Ht. }
  assert (Hf : final_msg m = stat_msg m) by (unfold final_msg; by destruct (eType m)).
  assert (Et : eType (stat_msg m) = eType m) by (unfold stat_msg; by destruct (bPush m)).
  assert (Es : sched (stat_msg m) = sched m) by (unfold stat_msg; by destruct (bPush m)).
  assert (Ep : pMonitor (stat_msg m) = pMonitor m) by (unfold stat_msg; by destruct (bPush m)).
  assert (En : netThread (stat_msg m) = netThread m) by (unfold stat_msg; by destruct (bPush m)).
  assert (Ec : coro (stat_msg m) = coro m) by (unfold stat_msg; by destruct (bPush m)).
  apply runs_bind. eapply yields_stat; [exact E |]. intros s1 E1. cbv beta.
  assert (Hm1 : heap s1 !! p = Some (stat_msg m)) by (injection E1 as -> _ _ _ _; apply lookup_insert_eq).
  apply runs_bind. eapply yields_deref; [exact Hm1 |]. cbv beta. apply runs_bind.
  assert (Hend : ∀ s2, core s2 = core s1 → yields (
    let* m := deref p in
    match eType m with
    | SYNC_CALL =>
      if negb (sched m) then assert_that (pMonitor m) ;;; give Notified p
      else give Scheduled p
    | ASYNC_CALL =>
      if negb (sched m) then (if netThread m then give Dispatched p else give Queued p)
      else if coro m then give Inserted p
      else give Deleted p
    | ONE_WAY => λ s, (AssertFailed, s)
    end) s2 Q).
  { intros s2 E2. assert (Hm2 : heap s2 !! p = Some (stat_msg m)) by (injection E2 as -> _ _ _ _; exact Hm1).
    assert (Hgive : yields (give (completion_of m) p) s2 Q).
    { eapply yields_give; [exact Hm2 |]. apply HQ. rewrite E1 in E2. injection E2 as F1 F2 F3 F4 F5.
      unfold settled. cbn. rewrite F1, F2, F3, F4, F5, Hf. split_and!; try done. by rewrite delete_insert_eq. }
    apply runs_bind. eapply yields_deref; [exact Hm2 |]. cbv beta. rewrite Et, Es, Ep, En, Ec.
    unfold completion_of in Hgive. destruct (eType m); [| |done].
    - destruct (sched m); [exact Hgive |]. apply runs_bind, runs_assert; [by apply Hmon | exact Hgive].
    - destruct (sched m); [by destruct (coro m) | by destruct (netThread m)]. }
  destruct (negb _ && negb _); [|by apply runs_ret, Hend].
  apply runs_bind, runs_get, runs_modify, Hend. done.
Qed.

Lemma Inv_settled s s' G p m : settled p m s s' → Inv s G (p :: L) → Inv s' G L.
Proof.
  intros (E1 & E2 & E3 & E4 & E5) Hi.
  apply (Inv_core (given (completion_of m) p (final_msg m) s)); [|by apply Inv_given].
  unfold core. cbn. by rewrite E1, E2, E3, E4, E5.
Qed.

(** ** The queue *)

Definition with_queue (q : TimeoutQueue.t nat) (s : st) : st :=
  mk (heap s) (next s) (completed s) (_requestMsg s) q (brk s) (_nextKeepAliveTime s) (_statBody s) (trans s).
Definition with_req (r : option nat) (s : st) : st :=
  mk (heap s) (next s) (completed s) r (_timeoutQueue s) (brk s) (_nextKeepAliveTime s) (_statBody s) (trans s).

Lemma yields_queue {A} (m : prog (TimeoutQueue.t nat) Empty_set A) a q s (Q : A → st → Prop) :
  m (_timeoutQueue s) = (Ok a, q) → Q a (with_queue q s) → yields (on_queue m) s Q.
Proof. intros E HQ. unfold runs, on_queue. by rewrite E. Qed.

Lemma yields_generateId s G H (Q : Z → st → Prop) : Inv s G H →
  (∀ i q, Inv (with_queue q s) G H → in_U 32 i → i ≠ 0 → Q i (with_queue q s)) → yields generateId s Q.
Proof.
  intros Hi HQ. destruct (TimeoutQueue.generateId_spec _ G (inv_rep _ _ _ Hi)) as (i & q & E & Hr & _ & Hi32 & H0).
  eapply yields_queue; [exact E |]. apply HQ; [|done..]. destruct Hi. by split.
Qed.

(** A message ready to be pushed. *)
Definition ready (m : ReqMessage B) : Prop := eStatus m = REQ_REQ ∧ is_Some (sReqData m) ∧ msg_ok m.

Definition req_of (p : nat) (m : ReqMessage B) (sent : bool) : TimeoutQueue.request :=
  TimeoutQueue.mkReq (RequestPacket.iRequestId (request m)) p (RequestPacket.iTimeout (request m) + iBeginTime m) sent.

(** [push]: the message goes from hand into the queue, as sent or not; a message
    pushed as sent may become the request of the connection. *)
Lemma yields_push p m r sent s G (Q : bool → st → Prop) :
  Inv s G (p :: L) → heap s !! p = Some m → ready m →
  r = _requestMsg s ∨ r = Some p ∧ sent = true ∧ 0 < connection_serial C →
  (∀ q g, Inv (with_queue q (with_req r s)) (G ++ [g]) L → TimeoutQueue.g_req g = req_of p m sent →
     Q true (with_queue q (with_req r s))) →
  (Q false (with_req r s)) →
  yields (push_message p sent) (with_req r s) Q.
Proof.
  intros Hi E (Hst & Hd & Hok) Hr Ht Hf. unfold push_message.
  apply runs_bind. eapply yields_deref; [exact E |]. cbv beta.
  pose proof (TimeoutQueue.push_spec (_timeoutQueue s) G p (RequestPacket.iRequestId (request m))
    (RequestPacket.iTimeout (request m) + iBeginTime m) sent (inv_rep _ _ _ Hi)) as Hp.
  destruct (TimeoutQueue.find_id _ _).
  { eapply yields_queue; [exact Hp |]. destruct s; exact Hf. }
  destruct Hp as (q & Eq & _ & Hrep). eapply yields_queue; [exact Eq |].
  apply (Ht q (TimeoutQueue.mkEntry (req_of p m sent) (negb sent) (TimeoutQueue.nodes (_timeoutQueue s)))); [|done].
  destruct Hi as [Hrp Hdom Hall Hmsg Hreq]. split; cbn.
  - exact Hrep.
  - intros p'. rewrite Hdom. unfold ptrs, TimeoutQueue.reqs. by rewrite !map_app, <- app_assoc.
  - rewrite <- Hall. unfold ptrs, TimeoutQueue.reqs. by rewrite !map_app, <- app_assoc.
  - apply Forall_app. split; [exact Hmsg |]. constructor; [|constructor]. exists m. by split_and!.
  - intros p' Ep'. destruct Hr as [->|(-> & -> & Hser)].
    + destruct (Hreq p' Ep') as (Hc & g & Hg & ? & ?). split; [done |]. exists g.
      split_and!; [apply elem_of_app; by left | done..].
    + injection Ep' as <-. split; [done |]. eexists. split_and!; [apply elem_of_app; right; apply list_elem_of_here | done..].
Qed.

Lemma Inv_with_req s G H r : Inv s G H → r = None ∨ r = _requestMsg s → Inv (with_req r s) G H.
Proof. intros [Hr Hd Ha Hm Hq] Hor. split; try done. cbn. destruct Hor as [->| ->]; [done | exact Hq]. Qed.

(** ** Invoking *)

(** What every operation leaves behind. *)
Definition good (s s' : st) : Prop :=
  (∃ G', Inv s' G' L) ∧ completed s `prefix_of` completed s'.

Lemma good_settled s G p m s' : Inv s G (p :: L) → settled p m s s' → good s s'.
Proof.
  intros Hi Hs. split; [exists G; by eapply Inv_settled |]. destruct Hs as (_ & _ & -> & _). by eexists.
Qed.

Lemma yields_fail p m s G (Q : unit → st → Prop) : Inv s G (p :: L) → heap s !! p = Some m → msg_ok m →
  (∀ s', good s s' → Q tt s') → yields (fail_exc C nowms p) s Q.
Proof.
  intros Hi E Hok HQ. unfold fail_exc. apply runs_bind. eapply yields_update; [exact E |]. cbv beta.
  eapply yields_finish; [apply lookup_insert_eq | exact Hok |]. intros s' Hs'. apply HQ.
  eapply good_settled in Hs'; [exact Hs' | by apply Inv_upd].
Qed.

Lemma yields_push_unsent p m s G (Q : Z → st → Prop) : Inv s G (p :: L) → heap s !! p = Some m → ready m →
  (∀ a s', good s s' → Q a s') → yields (push_unsent C nowms p) s Q.
Proof.
  intros Hi E Hm HQ. unfold push_unsent. apply runs_bind.
  replace s with (with_req (_requestMsg s) s) at 1 by by destruct s.
  eapply yields_push; [exact Hi | exact E | exact Hm | by left | |].
  - intros q g HI _. cbv beta. apply runs_bind, runs_ret, runs_ret, HQ. split; [by eexists | done].
  - cbv beta. replace (with_req (_requestMsg s) s) with s by by destruct s.
    apply runs_bind. eapply yields_fail; [exact Hi | exact E | apply Hm |]. intros s' Hs'.
    by apply runs_ret, HQ.
Qed.

Definition with_trans (x : X) (s : st) : st :=
  mk (heap s) (next s) (completed s) (_requestMsg s) (_timeoutQueue s) (brk s) (_nextKeepAliveTime s) (_statBody s) x.

Lemma Inv_with_trans x s G H : Inv s G H → Inv (with_trans x s) G H.
Proof. by apply Inv_core. Qed.

Lemma yields_trans {A} (f : X → A * X) s (Q : A → st → Prop) :
  (∀ a x, f (trans s) = (a, x) → Q a (with_trans x s)) → yields (on_trans f) s Q.
Proof.
  intros HQ. unfold on_trans, runs. destruct (f (trans s)) as [a x] eqn:E. by apply HQ.
Qed.

Lemma good_from s1 s s' : completed s1 = completed s → good s1 s' → good s s'.
Proof. intros E [HG Hp]. split; [done | by rewrite <- E]. Qed.

(** What an operation leaves behind that loses the message [p] in hand. *)
Definition lost (p : nat) (s s' : st) : Prop :=
  (∃ G', Inv s' G' (p :: L)) ∧ completed s `prefix_of` completed s'.

Lemma lost_from p s1 s s' : completed s1 = completed s → lost p s1 s' → lost p s s'.
Proof. intros E [HG Hp]. split; [done | by rewrite <- E]. Qed.

(** [requestFunc] gives the message its buffer. *)
Lemma yields_make_request p m s G (Q : unit → st → Prop) : Inv s G (p :: L) → heap s !! p = Some m → msg_ok m →
  (∀ s1 m1, Inv s1 G (p :: L) → heap s1 !! p = Some m1 → msg_ok m1 → is_Some (sReqData m1) → eStatus m1 = eStatus m →
     completed s1 = completed s → _requestMsg s1 = _requestMsg s → _timeoutQueue s1 = _timeoutQueue s → Q tt s1) →
  yields (make_request p) s Q.
Proof.
  intros Hi E Hok HQ. unfold make_request. apply runs_bind. eapply yields_deref; [exact E |]. cbv beta.
  apply runs_bind, yields_trans. intros d x _. eapply yields_update; [exact E |].
  apply (HQ _ (with_sReqData d m)); try done.
  - by apply Inv_upd, Inv_with_trans.
  - apply lookup_insert_eq.
Qed.

(** A message in hand with a buffer can be sent. *)
Lemma yields_send p m s G (Q : ReturnStatus → st → Prop) : Inv s G (p :: L) → heap s !! p = Some m → is_Some (sReqData m) →
  (∀ r x, Inv (with_trans x s) G (p :: L) → Q r (with_trans x s)) →
  (∀ x, Inv (with_trans x s) G (p :: L) → R SendFailed (with_trans x s)) → yields (sendRequest p) s Q.
Proof.
  intros Hi E [d Hd] HQ HR. unfold sendRequest. apply runs_bind. eapply yields_deref; [exact E |]. cbv beta.
  rewrite Hd. apply runs_bind, yields_trans. intros r x _. destruct r; [by apply HQ, Inv_with_trans |].
  by apply runs_throw, HR, Inv_with_trans.
Qed.

Lemma yields_parallel p m s G (Q : Z → st → Prop) : Inv s G (p :: L) → heap s !! p = Some m → eStatus m = REQ_REQ → msg_ok m →
  (∀ a s', good s s' → Q a s') →
  (∀ s', lost p s s' → R SendFailed s') → yields (invoke_connection_parallel C nowms p) s Q.
Proof.
  intros Hi E Hst Hok HQ HR. unfold invoke_connection_parallel. apply runs_bind.
  eapply yields_make_request; [exact Hi | exact E | exact Hok |]. clear Hi E. intros s1 m1 Hi E Hok1 Hd Hst1 Ec _ _.
  assert (HQ1 : ∀ a s', good s1 s' → Q a s') by (intros; by apply HQ, (good_from s1)).
  assert (Hm : ready m1) by (split_and!; [congruence | done..]).
  cbv beta. apply runs_bind, runs_get. destruct (TimeoutQueue.sendListEmpty _); [|by eapply yields_push_unsent].
  apply runs_bind. eapply yields_send; [exact Hi | exact E | exact Hd | |].
  2: { intros x Hi2. apply HR, (lost_from p s1); [done |]. split; [by exists G | done]. }
  intros r x Hi2. cbv beta.
  assert (HQ2 : ∀ a s', good (with_trans x s1) s' → Q a s') by (intros; by apply HQ1).
  assert (Hsent : yields (
    let* m := deref p in
    if decide (eType m = ONE_WAY) then give Deleted p ;;; ret 0
    else
      let* bFlag := push_message p true in
      (if (bFlag : bool) then ret tt else fail_exc C nowms p) ;;; ret 0) (with_trans x s1) Q).
  { apply runs_bind. eapply yields_deref; [exact E |]. cbv beta. destruct (decide (eType m1 = ONE_WAY)).
    - apply runs_bind. eapply yields_give; [exact E |]. apply runs_ret, HQ2. split.
      + exists G. by apply Inv_given.
      + by eexists.
    - apply runs_bind. replace (with_trans x s1) with (with_req (_requestMsg s1) (with_trans x s1)) by done.
      eapply yields_push; [exact Hi2 | exact E | exact Hm | by left | |].
      + intros q g HI _. cbv beta. apply runs_bind, runs_ret, runs_ret, HQ2. split; [by eexists | done].
      + cbv beta. apply runs_bind. eapply yields_fail; [exact Hi2 | exact E | apply Hm |].
        intros s' Hs'. by apply runs_ret, HQ2. }
  destruct r; [| exact Hsent | exact Hsent |].
  - apply runs_bind. eapply yields_fail; [exact Hi2 | exact E | apply Hm |]. intros s' Hs'. by apply runs_ret, HQ2.
  - by eapply yields_push_unsent.
Qed.

Lemma yields_serial p m s G (Q : Z → st → Prop) : Inv s G (p :: L) → heap s !! p = Some m → eStatus m = REQ_REQ → msg_ok m →
  0 < connection_serial C → (∀ a s', good s s' → Q a s') →
  (∀ s', lost p s s' → R SendFailed s') → yields (invoke_connection_serial C nowms p) s Q.
Proof.
  intros Hi E Hst Hok Hser HQ HR. unfold invoke_connection_serial. apply runs_bind.
  eapply yields_deref; [exact E |]. cbv beta. apply runs_bind, runs_assert.
  { rewrite bool_decide_eq_false_2; [done | by apply Hok]. }
  apply runs_bind. eapply yields_make_request; [exact Hi | exact E | exact Hok |].
  clear Hi E. intros s1 m1 Hi E Hok1 Hd Hst1 Ec _ _. cbv beta.
  apply runs_bind. eapply yields_generateId; [exact Hi |]. clear Hi. intros i q Hi _ _. cbv beta.
  apply runs_bind. eapply yields_update; [exact E |]. cbv beta.
  set (s2 := upd p (with_iRequestId i m1) (with_queue q s1)).
  assert (Hi2 : Inv s2 G (p :: L)) by by apply Inv_upd.
  assert (E2 : heap s2 !! p = Some (with_iRequestId i m1)) by apply lookup_insert_eq.
  assert (Hm : ready (with_iRequestId i m1)) by (split_and!; [cbn; congruence | done..]).
  assert (HQ2 : ∀ a s', good s2 s' → Q a s') by (intros; by apply HQ, (good_from s2)).
  assert (HR2 : ∀ s', lost p s2 s' → R SendFailed s') by (intros; by apply HR, (lost_from p s2)).
  clearbody s2. apply runs_bind, runs_get.
  destruct (_requestMsg s2) as [p'|] eqn:Erq; [by eapply yields_push_unsent |].
  destruct (TimeoutQueue.sendListEmpty _); [|by eapply yields_push_unsent].
  apply runs_bind. eapply yields_send; [exact Hi2 | exact E2 | apply Hm | |].
  2: { intros x Hi3. apply HR2. split; [by exists G | done]. }
  intros r x Hi3. cbv beta.
  assert (HQ3 : ∀ a s', good (with_trans x s2) s' → Q a s') by (intros; by apply HQ2).
  assert (Hsent : yields (
    set_requestMsg (Some p) ;;;
    let* bFlag := push_message p true in
    (if (bFlag : bool) then ret tt else set_requestMsg None ;;; fail_exc C nowms p) ;;; ret 0) (with_trans x s2) Q).
  { apply runs_bind, runs_modify. cbv beta. apply runs_bind.
    match goal with |- yields _ _ ?Q' =>
      change (yields (push_message p true) (with_req (Some p) (with_trans x s2)) Q') end.
    eapply yields_push; [exact Hi3 | exact E2 | exact Hm | by right | |].
    - intros q' g HI _. cbv beta. apply runs_bind, runs_ret, runs_ret, HQ3. split; [by eexists | done].
    - cbv beta. apply runs_bind, runs_bind, runs_modify. cbv beta.
      eapply (yields_fail p _ (with_req None (with_trans x s2))); [by apply Inv_with_req; [|left] | exact E2 | apply Hm |].
      intros s' Hs'. by apply runs_ret, HQ3. }
  destruct r; [| exact Hsent | exact Hsent |].
  - apply runs_bind, runs_modify. cbv beta. apply runs_bind.
    eapply (yields_fail p _ (with_req None (with_trans x s2))); [by apply Inv_with_req; [|left] | exact E2 | apply Hm |].
    intros s' Hs'. by apply runs_ret, HQ3.
  - by eapply yields_push_unsent.
Qed.

Lemma yields_invoke p m s G (Q : Z → st → Prop) : Inv s G (p :: L) → heap s !! p = Some m → eStatus m = REQ_REQ → msg_ok m →
  (∀ a s', good s s' → Q a s') →
  (∀ s', lost p s s' → R SendFailed s') → yields (invoke C nowms p) s Q.
Proof.
  intros Hi E Hst Hok HQ HR. unfold invoke. apply runs_bind, runs_get. destruct (_ <? _).
  - apply runs_bind. eapply yields_update; [exact E |]. cbv beta.
    apply runs_bind. eapply yields_update; [apply lookup_insert_eq |]. cbv beta. apply runs_bind.
    eapply yields_finish; [apply lookup_insert_eq | exact Hok |]. intros s' Hs'. cbv beta.
    apply runs_ret, HQ. eapply good_settled in Hs'; [exact Hs' | by apply Inv_upd, Inv_upd].
  - apply runs_bind. eapply yields_deref; [exact E |]. cbv beta. apply runs_bind.
    assert (Hgo : ∀ s1 m1, Inv s1 G (p :: L) → heap s1 !! p = Some m1 → eStatus m1 = REQ_REQ → msg_ok m1 →
      completed s1 = completed s →
      yields (if 0 <? connection_serial C then invoke_connection_serial C nowms p
              else invoke_connection_parallel C nowms p) s1 Q).
    { intros s1 m1 Hi1 E1 Hst1 Hok1 Ec. assert (HQ1 : ∀ a s', good s1 s' → Q a s') by (intros; by apply HQ, (good_from s1)).
      assert (HR1 : ∀ s', lost p s1 s' → R SendFailed s') by (intros; by apply HR, (lost_from p s1)).
      destruct (Z.ltb_spec 0 (connection_serial C)); [by eapply yields_serial | by eapply yields_parallel]. }
    destruct (bFromRpc m); cbn [negb]; [by eapply runs_ret, Hgo |].
    apply runs_bind. eapply yields_generateId; [exact Hi |]. intros i q Hi1 _ _. cbv beta.
    eapply yields_update; [exact E |]. cbv beta. eapply Hgo; [by apply Inv_upd | apply lookup_insert_eq | done..].
Qed.

(** ** Taking a request off the queue *)

Abbreviation eptr g := (TimeoutQueue.r_ptr (TimeoutQueue.g_req g)).
Abbreviation eid g := (TimeoutQueue.r_id (TimeoutQueue.g_req g)).

Lemma ptrs_drop s G H (g : entry) : Inv s G H → g ∈ G → ptrs G ≡ₚ eptr g :: ptrs (TimeoutQueue.drop_id (eid g) G).
Proof.
  intros Hi Hg. destruct (inv_rep _ _ _ Hi) as (Hn & _). unfold ptrs, TimeoutQueue.reqs.
  rewrite (TimeoutQueue.drop_id_perm g G Hn Hg) at 1. done.
Qed.

(** Pending requests have different messages. *)
Lemma ptrs_inj s G H (g g' : entry) : Inv s G H → g ∈ G → g' ∈ G → eptr g = eptr g' → g = g'.
Proof.
  intros Hi Hg Hg' E. assert (Hn : NoDup (ptrs G)).
  { assert (Ha : NoDup (map fst (completed s) ++ ptrs G ++ H)) by (rewrite (inv_all _ _ _ Hi); apply NoDup_seq).
    by apply NoDup_app in Ha as (_ & _ & (Ha & _)%NoDup_app). }
  unfold ptrs, TimeoutQueue.reqs in Hn. rewrite map_map in Hn.
  by apply (NoDup_map_inj (λ g : entry, eptr g) G).
Qed.

Lemma pending_msg s G H (g : entry) : Inv s G H → g ∈ G → ∃ m, heap s !! eptr g = Some m ∧ pending_ok g m.
Proof. intros Hi Hg. pose proof (inv_msg _ _ _ Hi) as Hm. rewrite Forall_forall in Hm. by apply Hm. Qed.

Lemma drop_id_elem (g : entry) i G : g ∈ TimeoutQueue.drop_id i G ↔ g ∈ G ∧ eid g ≠ i.
Proof. unfold TimeoutQueue.drop_id. rewrite list_elem_of_filter. tauto. Qed.

Lemma Inv_drop s G (g : entry) q r : Inv s G L → g ∈ G →
  TimeoutQueue.rep q (TimeoutQueue.drop_id (eid g) G) → r = None ∨ r = _requestMsg s ∧ r ≠ Some (eptr g) →
  Inv (with_queue q (with_req r s)) (TimeoutQueue.drop_id (eid g) G) (eptr g :: L).
Proof.
  intros Hi Hg Hr Hreq. pose proof (ptrs_drop s G L g Hi Hg) as Hp.
  pose proof Hi as [Hrp Hd Ha Hm Hq]. split; cbn.
  - done.
  - intros p. rewrite Hd, Hp, !elem_of_app, !elem_of_cons. tauto.
  - rewrite <- Ha, Hp. cbn. by rewrite <- Permutation_middle.
  - by apply Forall_filter.
  - intros p Ep. destruct Hreq as [->|[-> Hne]]; [done |]. destruct (Hq p Ep) as (Hc & g' & Hg' & <- & Hs).
    split; [done |]. exists g'. split_and!; [|done..]. apply drop_id_elem. split; [done |]. intros E.
    apply Hne. rewrite Ep. f_equal. destruct Hrp as (Hn & _).
    by rewrite (NoDup_map_inj (λ g : entry, eid g) G g' g).
Qed.

Lemma Inv_mark s G (g : entry) q r : Inv s G L → g ∈ G →
  TimeoutQueue.rep q (TimeoutQueue.mark_id (eid g) G) → r = _requestMsg s ∨ r = Some (eptr g) ∧ 0 < connection_serial C →
  Inv (with_queue q (with_req r s)) (TimeoutQueue.mark_id (eid g) G) L.
Proof.
  intros Hi Hg Hr Hreq. pose proof Hi as [Hrp Hd Ha Hm Hq].
  assert (Hkeep : ∀ g' : entry, eptr (TimeoutQueue.mark_entry (eid g) g') = eptr g').
  { intros g'. unfold TimeoutQueue.mark_entry. by destruct (_ =? _). }
  assert (Hp : ptrs (TimeoutQueue.mark_id (eid g) G) = ptrs G).
  { unfold ptrs, TimeoutQueue.reqs, TimeoutQueue.mark_id. rewrite !map_map. by apply map_ext. }
  split; cbn; rewrite ?Hp; try done.
  - unfold TimeoutQueue.mark_id. apply Forall_fmap. eapply Forall_impl; [exact Hm |].
    intros g' (m & Em & Hok). exists m. cbn. unfold TimeoutQueue.mark_entry. by destruct (_ =? _).
  - assert (Hmark : ∀ g', g' ∈ G → TimeoutQueue.mark_entry (eid g) g' ∈ TimeoutQueue.mark_id (eid g) G)
      by (intros; by apply list_elem_of_fmap_2).
    intros p Ep. destruct Hreq as [->|[-> Hser]].
    + destruct (Hq p Ep) as (Hc & g' & Hg' & <- & Hs). split; [done |].
      exists (TimeoutQueue.mark_entry (eid g) g'). split_and!; [by apply Hmark | by apply Hkeep |].
      unfold TimeoutQueue.mark_entry. by destruct (_ =? _).
    + injection Ep as <-. split; [done |]. exists (TimeoutQueue.mark_entry (eid g) g).
      split_and!; [by apply Hmark | by apply Hkeep |]. unfold TimeoutQueue.mark_entry. by rewrite Z.eqb_refl.
Qed.

(** A request still to be sent is not the one the connection waits for. *)
Lemma unsent_not_req s G (g : entry) : Inv s G L → g ∈ G → TimeoutQueue.r_sent (TimeoutQueue.g_req g) = false →
  _requestMsg s ≠ Some (eptr g).
Proof.
  intros Hi Hg Hs E. destruct (inv_req _ _ _ Hi _ E) as (_ & g' & Hg' & Ep & Hs').
  rewrite (ptrs_inj s G L g' g Hi Hg' Hg Ep) in Hs'. congruence.
Qed.

(** ** Sending what waits *)

(** The next request to send, and its message. *)
Lemma next_to_send s G : Inv s G L → TimeoutQueue.sendListEmpty (_timeoutQueue s) = false →
  ∃ g U, TimeoutQueue.unsent G = g :: U ∧ g ∈ G ∧ TimeoutQueue.r_sent (TimeoutQueue.g_req g) = false ∧
    TimeoutQueue.first_unsent (TimeoutQueue.reqs G) = Some (TimeoutQueue.g_req g) ∧
    TimeoutQueue.getSend (_timeoutQueue s) = (Ok (Some (eptr g)), _timeoutQueue s).
Proof.
  intros Hi He. pose proof (inv_rep _ _ _ Hi) as Hr.
  rewrite (TimeoutQueue.sendListEmpty_spec _ G Hr) in He. pose proof (TimeoutQueue.getSend_spec _ G Hr) as Hg.
  pose proof (TimeoutQueue.first_unsent_spec G) as Hf. destruct (TimeoutQueue.unsent G) as [|g U]; [by rewrite Hf in He |].
  destruct Hf as (Hin & Ef & Hs). rewrite Ef in Hg. by exists g, U.
Qed.

Lemma with_queue_id s : with_queue (_timeoutQueue s) s = s.
Proof. by destruct s. Qed.

(** Sending the message of a pending request. *)
Lemma yields_send_pending s G (g : entry) (Q : ReturnStatus → st → Prop) : Inv s G L → g ∈ G →
  (∀ r x, Q r (with_trans x s)) → (∀ x, R SendFailed (with_trans x s)) → yields (sendRequest (eptr g)) s Q.
Proof.
  intros Hi Hg HQ HR. destruct (pending_msg s G L g Hi Hg) as (m & Em & _ & _ & _ & [d Hd] & _).
  unfold sendRequest. apply runs_bind. eapply yields_deref; [exact Em |]. cbv beta. rewrite Hd.
  apply runs_bind, yields_trans. intros r x _. destruct r; [apply HQ | apply runs_throw, HR].
Qed.

Lemma yields_doInvoke_loop fuel s G (Q : unit → st → Prop) : Inv s G L → (length (TimeoutQueue.unsent G) < fuel)%nat →
  (∀ s', good s s' → Q tt s') → (∀ s', good s s' → R SendFailed s') → yields (doInvoke_loop fuel) s Q.
Proof.
  revert s G. induction fuel as [|fuel IH]; intros s G Hi Hf HQ HR; [lia |]. cbn [doInvoke_loop].
  assert (Hstop : ∀ x, Q tt (with_trans x s)).
  { intros x. apply HQ. split; [exists G; by apply Inv_with_trans | done]. }
  apply runs_bind, runs_get. destruct (TimeoutQueue.sendListEmpty _) eqn:Ee.
  { apply runs_ret. rewrite <- (with_queue_id s). apply (Hstop (trans s)). }
  destruct (next_to_send s G Hi Ee) as (g & U & EU & Hg & Hs & Ef & Eg).
  apply runs_bind. eapply yields_queue; [exact Eg |]. cbv beta. rewrite with_queue_id.
  apply runs_bind. eapply yields_send_pending; [exact Hi | exact Hg | |].
  2: { intros x. apply HR. split; [exists G; by apply Inv_with_trans | done]. }
  intros r x. cbv beta.
  destruct (pending_msg s G L g Hi Hg) as (m & Em & Hm).
  assert (Hsent : ∀ k, (∀ s' G', Inv s' G' L → (length (TimeoutQueue.unsent G') < fuel)%nat →
        completed s `prefix_of` completed s' → yields k s' Q) → yields (
      let* m := deref (eptr g) in
      on_queue (TimeoutQueue.popSend (bool_decide (eType m = ONE_WAY))) ;;;
      (if decide (eType m = ONE_WAY) then give Deleted (eptr g) else ret tt) ;;; k) (with_trans x s) Q).
  { intros k Hk. apply runs_bind. eapply yields_deref; [exact Em |]. cbv beta.
    pose proof (inv_rep _ _ _ Hi) as Hr. apply runs_bind.
    assert (Hlt : (length (filter (λ g' : entry, eid g' ≠ eid g) (TimeoutQueue.unsent G)) < fuel)%nat).
    { rewrite EU, filter_cons, decide_False by (intros H0; by apply H0).
      pose proof (length_filter (λ g' : entry, eid g' ≠ eid g) U). rewrite EU in Hf. cbn in Hf. lia. }
    destruct (decide (eType m = ONE_WAY)) as [Ht|Ht].
    - rewrite bool_decide_eq_true_2 by done.
      destruct (TimeoutQueue.popSend_drop _ G _ Hr Ef) as (q & Eq & Hrq & _).
      eapply yields_queue; [exact Eq |]. cbv beta. apply runs_bind.
      assert (Hi1 : Inv (with_queue q (with_trans x s)) (TimeoutQueue.drop_id (eid g) G) (eptr g :: L)).
      { apply (Inv_core (with_queue q (with_req (_requestMsg s) s))); [done |].
        apply Inv_drop; [done.. |]. right. split; [done |]. by eapply unsent_not_req. }
      eapply yields_give; [exact Em |]. cbv beta. eapply Hk; [by apply Inv_given | | by eexists].
      by rewrite TimeoutQueue.unsent_drop.
    - rewrite bool_decide_eq_false_2 by done.
      destruct (TimeoutQueue.popSend_mark _ G _ Hr Ef) as (q & Eq & Hrq & _).
      eapply yields_queue; [exact Eq |]. cbv beta. apply runs_bind, runs_ret.
      eapply Hk; [| | done].
      + apply (Inv_core (with_queue q (with_req (_requestMsg s) s))); [done |]. apply Inv_mark; [done.. |]. by left.
      + by rewrite TimeoutQueue.unsent_mark. }
  destruct r; [apply runs_ret, Hstop | | | apply runs_ret, Hstop]; apply Hsent; intros s' G' Hi' Hf' Hp.
  - apply (IH s' G' Hi' Hf'); intros s2 [? Hp2]; [apply HQ | apply HR]; (split; [done |]; by trans (completed s')).
  - apply runs_ret, HQ. split; [by eexists | done].
Qed.

Lemma yields_doInvoke s G (Q : unit → st → Prop) : Inv s G L → (∀ s', good s s' → Q tt s') →
  (∀ s', good s s' → R SendFailed s') → yields (doInvoke C nowms) s Q.
Proof.
  intros Hi HQ HR. unfold doInvoke. destruct (Z.ltb_spec 0 (connection_serial C)) as [Hser|_].
  - unfold doInvoke_serial. apply runs_bind, runs_get.
    assert (Hstop : ∀ x, Q tt (with_trans x s)).
    { intros x. apply HQ. split; [exists G; by apply Inv_with_trans | done]. }
    assert (Hs0 : yields (ret tt) s Q) by (apply runs_ret; rewrite <- (with_queue_id s); apply (Hstop (trans s))).
    destruct (_requestMsg s) as [p'|] eqn:Erq; [exact Hs0 |].
    destruct (TimeoutQueue.sendListEmpty _) eqn:Ee; [exact Hs0 |].
    destruct (next_to_send s G Hi Ee) as (g & U & EU & Hg & Hs & Ef & Eg).
    apply runs_bind. eapply yields_queue; [exact Eg |]. cbv beta. rewrite with_queue_id.
    apply runs_bind. eapply yields_send_pending; [exact Hi | exact Hg | |].
  2: { intros x. apply HR. split; [exists G; by apply Inv_with_trans | done]. }
  intros r x. cbv beta.
    destruct (pending_msg s G L g Hi Hg) as (m & Em & Hm). pose proof (inv_rep _ _ _ Hi) as Hr.
    assert (Hsent : yields (set_requestMsg (Some (eptr g)) ;;; on_queue (TimeoutQueue.popSend false)) (with_trans x s) Q).
    { apply runs_bind, runs_modify. cbv beta.
      destruct (TimeoutQueue.popSend_mark _ G _ Hr Ef) as (q & Eq & Hrq & _).
      eapply yields_queue; [exact Eq |]. apply HQ. split; [|done].
      eexists. apply (Inv_core (with_queue q (with_req (Some (eptr g)) s))); [done |]. apply Inv_mark; [done.. |]. by right. }
    destruct r; [| exact Hsent | exact Hsent | apply runs_ret, Hstop].
    apply runs_bind, runs_modify. cbv beta. apply runs_bind.
    destruct (TimeoutQueue.popSend_drop _ G _ Hr Ef) as (q & Eq & Hrq & _).
    eapply yields_queue; [exact Eq |]. cbv beta. apply runs_bind.
    eapply yields_update; [exact Em |]. cbv beta.
    eapply yields_finish; [apply lookup_insert_eq | apply Hm |]. intros s' Hs'. apply HQ.
    assert (Hi1 : Inv (with_queue q (with_req None (with_trans x s))) (TimeoutQueue.drop_id (eid g) G) (eptr g :: L)).
    { apply (Inv_core (with_queue q (with_req None s))); [done |]. apply Inv_drop; [done.. |]. by left. }
    eapply good_settled in Hs'; [exact Hs' | by apply Inv_upd].
  - unfold doInvoke_parallel. apply runs_bind, runs_get. eapply yields_doInvoke_loop; [exact Hi | | exact HQ | exact HR].
    destruct (inv_rep _ _ _ Hi) as (_ & _ & _ & _ & _ & ->). rewrite length_rev, length_map. lia.
Qed.

(** ** Responses *)

Lemma find_id_entry i G :
  match TimeoutQueue.find_id i (TimeoutQueue.reqs G) with
  | Some r => ∃ g : entry, g ∈ G ∧ TimeoutQueue.g_req g = r ∧ eid g = i
  | None => i ∉ map TimeoutQueue.r_id (TimeoutQueue.reqs G)
  end.
Proof. apply TimeoutQueue.find_id_spec. Qed.

(** Looking a pending request up by its id finds it. *)
Lemma find_pending s G H (g : entry) : Inv s G H → g ∈ G →
  TimeoutQueue.find_id (eid g) (TimeoutQueue.reqs G) = Some (TimeoutQueue.g_req g).
Proof.
  intros Hi Hg. pose proof (find_id_entry (eid g) G) as Hf. destruct (inv_rep _ _ _ Hi) as (Hn & _).
  destruct (TimeoutQueue.find_id _ _).
  - destruct Hf as (g' & Hg' & <- & E). by rewrite (NoDup_map_inj (λ g : entry, eid g) G g' g).
  - exfalso. apply Hf. unfold TimeoutQueue.reqs. rewrite map_map.
    change (eid g) with ((λ g : entry, eid g) g). by apply list_elem_of_fmap_2.
Qed.

Definition answered (rsp : ResponsePacket.t) (m : ReqMessage B) : ReqMessage B :=
  with_response rsp (with_eStatus REQ_RSP m).

(** The request [g] is answered and gone, and the connection waits for [r]. *)
Definition answers (rsp : ResponsePacket.t) (g : entry) (r : option nat) (s s' : st) (G : list entry) : Prop :=
  Inv s' (TimeoutQueue.drop_id (eid g) G) L ∧ _requestMsg s' = r ∧
  ∃ m, heap s !! eptr g = Some m ∧
    completed s' = completed s ++ [(eptr g, (completion_of m, final_msg (answered rsp m)))].

Lemma good_answers rsp g r s s' G : answers rsp g r s s' G → good s s'.
Proof. intros (Hi & _ & m & _ & E). split; [by eexists | rewrite E; by eexists]. Qed.

(** The end of both response handlers. *)
Lemma yields_answer rsp s G (g : entry) m q r (Q : unit → st → Prop) : Inv s G L → g ∈ G → heap s !! eptr g = Some m →
  pending_ok g m → TimeoutQueue.rep q (TimeoutQueue.drop_id (eid g) G) →
  r = None ∨ r = _requestMsg s ∧ r ≠ Some (eptr g) →
  (∀ s', answers rsp g r s s' G → Q tt s') →
  yields (update (eptr g) (with_eStatus REQ_RSP) ;;; update (eptr g) (with_response rsp) ;;;
          finishInvoke_msg C nowms (eptr g)) (with_queue q (with_req r s)) Q.
Proof.
  intros Hi Hg Em Hm Hq Hr HQ. pose proof (Inv_drop s G g q r Hi Hg Hq Hr) as Hi1.
  apply runs_bind. eapply yields_update; [exact Em |]. cbv beta.
  apply runs_bind. eapply yields_update; [apply lookup_insert_eq |]. cbv beta.
  eapply yields_finish; [apply lookup_insert_eq | apply Hm |]. intros s' Hs'. apply HQ. split; [|split].
  - eapply Inv_settled; [exact Hs' | by apply Inv_upd, Inv_upd].
  - by destruct Hs' as (_ & _ & _ & -> & _).
  - exists m. split; [done |]. by destruct Hs' as (_ & _ & -> & _).
Qed.

Lemma yields_response_parallel rsp s G (Q : unit → st → Prop) : Inv s G L → ¬ 0 < connection_serial C →
  ResponsePacket.iRequestId rsp ≠ 0 →
  match TimeoutQueue.find_id (ResponsePacket.iRequestId rsp) (TimeoutQueue.reqs G) with
  | None => Q tt s
  | Some r => ∀ (g : entry) s', g ∈ G → TimeoutQueue.g_req g = r → eid g = ResponsePacket.iRequestId rsp →
                answers rsp g (_requestMsg s) s s' G → Q tt s'
  end → yields (finishInvoke C nowms rsp) s Q.
Proof.
  intros Hi Hser H0 HQ. unfold finishInvoke. rewrite (proj2 (Z.ltb_ge _ _)) by lia.
  unfold finishInvoke_parallel. rewrite (proj2 (Z.eqb_neq _ _) H0). apply runs_bind.
  pose proof (TimeoutQueue.erase_spec _ G (ResponsePacket.iRequestId rsp) (inv_rep _ _ _ Hi)) as He.
  pose proof (find_id_entry (ResponsePacket.iRequestId rsp) G) as Hf. destruct (TimeoutQueue.find_id _ _) as [r|].
  - destruct He as (q & Eq & Hq & _). destruct Hf as (g & Hg & <- & Ei).
    eapply yields_queue; [exact Eq |]. cbv beta. rewrite <- Ei in Hq.
    destruct (pending_msg s G L g Hi Hg) as (m & Em & Hm). pose proof Hm as (Hst & _).
    apply runs_bind. eapply yields_deref; [exact Em |]. cbv beta.
    apply runs_bind, runs_assert; [by rewrite bool_decide_eq_true_2 |].
    replace (with_queue q s) with (with_queue q (with_req (_requestMsg s) s)) by by destruct s.
    eapply yields_answer; [exact Hi | exact Hg | exact Em | exact Hm | exact Hq | | by intros s'; apply HQ].
    right. split; [done |]. intros E. by destruct (inv_req _ _ _ Hi _ E).
  - eapply yields_queue; [exact He |]. cbv beta. rewrite with_queue_id. by apply runs_ret.
Qed.

Lemma yields_response_serial rsp s G (Q : unit → st → Prop) : Inv s G L → 0 < connection_serial C →
  match _requestMsg s with
  | None => Q tt s
  | Some p => ∀ (g : entry) s', g ∈ G → eptr g = p → answers rsp g None s s' G → Q tt s'
  end → yields (finishInvoke C nowms rsp) s Q.
Proof.
  intros Hi Hser HQ. unfold finishInvoke. rewrite (proj2 (Z.ltb_lt _ _) Hser).
  unfold finishInvoke_serial. apply runs_bind, runs_get. destruct (_requestMsg s) as [p|] eqn:Er; [|by apply runs_ret].
  destruct (inv_req _ _ _ Hi p Er) as (_ & g & Hg & <- & _).
  destruct (pending_msg s G L g Hi Hg) as (m & Em & Hm). pose proof Hm as (Hst & Hid & _ & _ & _ & Hone).
  apply runs_bind. eapply yields_deref; [exact Em |]. cbv beta. rewrite Hid. apply runs_bind.
  pose proof (TimeoutQueue.erase_spec _ G (eid g) (inv_rep _ _ _ Hi)) as He. rewrite (find_pending s G L g Hi Hg) in He.
  destruct He as (q & Eq & Hq & _). eapply yields_queue; [exact Eq |]. cbv beta.
  apply runs_bind, runs_assert; [by rewrite bool_decide_eq_true_2 |].
  apply runs_bind, runs_assert; [rewrite bool_decide_eq_false_2; [done | by apply Hone] |].
  apply runs_bind, runs_assert; [by rewrite bool_decide_eq_true_2 |].
  apply runs_bind, runs_modify. cbv beta.
  change (mk _ _ _ _ _ _ _ _ _) with (with_queue q (with_req None s)).
  eapply yields_answer; [exact Hi | exact Hg | exact Em | exact Hm | exact Hq | by left | intros s'; by apply HQ].
Qed.

(** ** Timeouts *)

(** The requests that are due at [nowms] have left, as timed out; the others wait
    as before. *)
Definition timed_out (s s' : st) (G : list entry) : Prop :=
  ∃ G' K, Inv s' G' L ∧ TimeoutQueue.reqs G' = TimeoutQueue.not_due nowms (TimeoutQueue.reqs G) ∧
    next s' = next s ∧ completed s' = completed s ++ K ∧ Forall (λ x, eStatus x.2.2 = REQ_TIME) K.

Lemma final_response m : response (final_msg m) = response m ∧ request (final_msg m) = request m.
Proof. unfold final_msg, stat_msg. by destruct (eType m), (bPush m). Qed.

Lemma final_status m : eStatus (final_msg m) = eStatus m.
Proof. unfold final_msg, stat_msg. by destruct (eType m), (bPush m). Qed.

(** What happens to a request taken off the queue. *)
Lemma yields_timeout_msg s G (g : entry) q (Q : unit → st → Prop) : Inv s G L → g ∈ G →
  TimeoutQueue.rep q (TimeoutQueue.drop_id (eid g) G) →
  (∀ s' c m, Inv s' (TimeoutQueue.drop_id (eid g) G) L → next s' = next s → eStatus m = REQ_TIME →
     completed s' = completed s ++ [(eptr g, (c, m))] → Q tt s') →
  yields (timeout_msg C nowms (eptr g)) (with_queue q s) Q.
Proof.
  intros Hi Hg Hq HQ. unfold timeout_msg. destruct (pending_msg s G L g Hi Hg) as (m & Em & _ & _ & _ & _ & Hok).
  assert (Hgo : ∀ s1, Inv s1 (TimeoutQueue.drop_id (eid g) G) (eptr g :: L) → heap s1 !! eptr g = Some m →
    next s1 = next s → completed s1 = completed s → yields (
    update (eptr g) (with_eStatus REQ_TIME) ;;;
    let* m := deref (eptr g) in
    if decide (eType m = ONE_WAY) then give Deleted (eptr g)
    else
      (if decide (eType m = ASYNC_CALL) then
         let* s := get_st in
         update (eptr g) (with_iRet (if 0 <? _connExcCnt (brk s) then TARSPROXYCONNECTERR C else TARSASYNCCALLTIMEOUT C))
       else ret tt) ;;;
      finishInvoke_msg C nowms (eptr g)) s1 Q).
  { intros s1 Hi1 E1 En Ec. apply runs_bind. eapply yields_update; [exact E1 |]. cbv beta.
    set (m1 := with_eStatus REQ_TIME m). set (s2 := upd (eptr g) m1 s1).
    assert (Hi2 : Inv s2 (TimeoutQueue.drop_id (eid g) G) (eptr g :: L)) by by apply Inv_upd.
    assert (E2 : heap s2 !! eptr g = Some m1) by apply lookup_insert_eq.
    assert (Hend : ∀ s3 m3, Inv s3 (TimeoutQueue.drop_id (eid g) G) (eptr g :: L) → heap s3 !! eptr g = Some m3 →
      msg_ok m3 → eStatus m3 = REQ_TIME → next s3 = next s → completed s3 = completed s →
      yields (finishInvoke_msg C nowms (eptr g)) s3 Q).
    { intros s3 m3 Hi3 E3 Hok3 Hst3 En3 Ec3. eapply yields_finish; [exact E3 | exact Hok3 |]. intros s' Hs'.
      apply (HQ _ (completion_of m3) (final_msg m3)); [by eapply Inv_settled | | |].
      - by destruct Hs' as (_ & -> & _).
      - by rewrite final_status.
      - destruct Hs' as (_ & _ & -> & _). by rewrite Ec3. }
    apply runs_bind. eapply yields_deref; [exact E2 |]. cbv beta. destruct (decide (eType m1 = ONE_WAY)) as [Ht|Ht].
    - eapply yields_give; [exact E2 |]. apply (HQ _ Deleted m1); [by apply Inv_given | done | done |]. cbn. by rewrite Ec.
    - apply runs_bind. destruct (decide (eType m1 = ASYNC_CALL)).
      + apply runs_bind, runs_get. eapply yields_update; [exact E2 |]. cbv beta.
        eapply Hend; [by apply Inv_upd | apply lookup_insert_eq | exact Hok | done..].
      + apply runs_ret. by apply (Hend s2 m1). }
  apply runs_bind, runs_get. apply runs_bind. cbn [_requestMsg with_queue].
  destruct (decide (_requestMsg s = Some (eptr g))) as [Er|Er].
  - apply runs_bind, runs_modify. cbv beta. apply yields_trans. intros a x _.
    destruct a. apply Hgo; [|done..]. apply (Inv_core (with_queue q (with_req None s))); [done |].
    apply Inv_drop; [done.. |]. by left.
  - apply runs_ret, Hgo; [|done..]. apply (Inv_core (with_queue q (with_req (_requestMsg s) s))); [done |].
    apply Inv_drop; [done.. |]. by right.
Qed.

Lemma yields_timeout_loop fuel s G (Q : unit → st → Prop) : Inv s G L → (length (TimeoutQueue.times G) < fuel)%nat →
  (∀ s', timed_out s s' G → Q tt s') → yields (doTimeout_loop C nowms fuel) s Q.
Proof.
  revert s G Q. induction fuel as [|fuel IH]; intros s G Q Hi Hf HQ; [lia |]. cbn [doTimeout_loop].
  pose proof (TimeoutQueue.timeout_spec _ G nowms (inv_rep _ _ _ Hi)) as Ht. apply runs_bind.
  destruct (TimeoutQueue.due nowms (TimeoutQueue.reqs G)) as [r|] eqn:Ed.
  - destruct Ht as (q & Eq & Hq & _). destruct (TimeoutQueue.due_Some nowms G r Ed) as (g & Hg & <- & Hd).
    eapply yields_queue; [exact Eq |]. cbv beta.
    apply runs_bind. eapply yields_timeout_msg; [exact Hi | exact Hg | exact Hq |].
    intros s1 c m Hi1 En1 Hst Ec1. cbv beta. eapply IH; [exact Hi1 | |].
    + rewrite !TimeoutQueue.times_perm, !length_map in *. unfold TimeoutQueue.drop_id.
      pose proof (length_filter_lt (λ g' : entry, eid g' ≠ eid g) G g Hg). lia.
    + intros s' (G' & K & Hi' & EG & En & Ec & HK). apply HQ. exists G', ((eptr g, (c, m)) :: K).
      split_and!; [done | | congruence | | by constructor].
      * by rewrite EG, (TimeoutQueue.not_due_drop nowms _ G g (inv_rep _ _ _ Hi) Hg Hd).
      * rewrite Ec, Ec1, <- app_assoc. done.
  - eapply yields_queue; [exact Ht |]. cbv beta. rewrite with_queue_id. apply runs_ret, HQ.
    exists G, []. split_and!; [done | | done | by rewrite app_nil_r | constructor].
    by rewrite TimeoutQueue.due_None.
Qed.

Lemma yields_doTimeout s G (Q : unit → st → Prop) : Inv s G L →
  (∀ s', timed_out s s' G → Q tt s') → yields (doTimeout C nowms) s Q.
Proof.
  intros Hi HQ. unfold doTimeout. apply runs_bind, runs_get. eapply yields_timeout_loop; [exact Hi | | exact HQ].
  destruct (inv_rep _ _ _ Hi) as (_ & _ & _ & _ & -> & _). lia.
Qed.
End time.

(** ** New messages *)

Definition alloc_st (m : ReqMessage B) (s : st) : st :=
  mk (<[next s := m]> (heap s)) (S (next s)) (completed s) (_requestMsg s) (_timeoutQueue s) (brk s)
    (_nextKeepAliveTime s) (_statBody s) (trans s).

Lemma Inv_alloc m s G : Inv s G L → Inv (alloc_st m s) G (next s :: L).
Proof.
  intros Hi. assert (Hnew : next s ∉ ptrs G ++ L).
  { intros Hin. assert (Hs : next s ∈ seq 0 (next s)).
    { rewrite <- (inv_all _ _ _ Hi). apply elem_of_app. by right. }
    apply elem_of_seq in Hs. lia. }
  destruct Hi as [Hr Hd Ha Hm Hq]. split; cbn; [done | | | | done].
  - intros p. rewrite lookup_insert_is_Some, Hd, !elem_of_app, elem_of_cons. rewrite elem_of_app in Hnew.
    split; [intros [<- | [_ ?]]; tauto |]. intros Hin. destruct (decide (next s = p)); [by left |].
    right. split; [done |]. destruct Hin as [|[->|]]; [by left | done | by right].
  - change (0%nat :: seq 1 (next s)) with (seq 0 (S (next s))). rewrite <- Nat.add_1_r, seq_app, <- Ha. cbn.
    by rewrite <- !Permutation_middle, app_nil_r.
  - eapply msgs_other; [|exact Hm]. intros q Hq'. rewrite lookup_insert_ne; [done |]. intros <-.
    by apply Hnew, elem_of_app; left.
Qed.

Lemma yields_alloc m s (Q : nat → st → Prop) : Q (next s) (alloc_st m s) → yields (alloc m) s Q.
Proof. done. Qed.

(** The invoked or pushed message is the adapter's from the start. *)
Lemma yields_call_invoke nowms m s G (Q : unit → st → Prop) : Inv s G L → eStatus m = REQ_REQ → msg_ok m →
  (∀ s', good s s' → Q tt s') → (∀ s', lost (next s) s s' → R SendFailed s') →
  yields (let* p := alloc m in invoke C nowms p ;;; ret tt) s Q.
Proof.
  intros Hi Hst Hok HQ HR. apply runs_bind, yields_alloc. cbv beta. apply runs_bind.
  eapply yields_invoke; [by apply Inv_alloc | apply lookup_insert_eq | exact Hst | exact Hok | |].
  - intros a s' Hs'. apply runs_ret, HQ. exact Hs'.
  - intros s' Hs'. apply HR. exact Hs'.
Qed.

Lemma yields_push_response nowms rsp s G (Q : unit → st → Prop) : Inv s G L → ¬ 0 < connection_serial C →
  ResponsePacket.iRequestId rsp = 0 →
  (∀ s', good s s' → Q tt s') → R PushWithoutCallback s → yields (finishInvoke C nowms rsp) s Q.
Proof.
  intros Hi Hser H0 HQ HR. unfold finishInvoke. rewrite (proj2 (Z.ltb_ge _ _)) by lia.
  unfold finishInvoke_parallel. rewrite H0. cbn [Z.eqb].
  destruct (push_callback C); cbn [negb]; [|by apply runs_throw].
  apply runs_bind, yields_alloc. cbv beta. apply runs_bind.
  eapply yields_update; [apply lookup_insert_eq |]. cbv beta.
  eapply yields_finish; [apply lookup_insert_eq | by split |]. intros s' Hs'. apply HQ.
  eapply (good_settled nowms _ G) in Hs'; [exact Hs' |]. by apply Inv_upd, Inv_alloc.
Qed.

Lemma good_breaker bx s G : Inv s G L →
  good s (mk (heap s) (next s) (completed s) (_requestMsg s) (_timeoutQueue s) bx.1 (_nextKeepAliveTime s)
            (_statBody s) bx.2).
Proof. intros Hi. split; [|done]. exists G. by apply (Inv_core s). Qed.

Lemma yields_keepalive nowms s G (Q : unit → st → Prop) : Inv s G L → ¬ 0 < connection_serial C →
  (∀ s', good s s' → Q tt s') → (∀ s', lost (next s) s s' → R SendFailed s') → yields (doKeepAlive C nowms) s Q.
Proof.
  intros Hi Hser HQ HR. unfold doKeepAlive, checkActive_m. apply runs_bind, runs_bind, runs_get.
  destruct (checkActive _ _ _ _) as [r bx]. apply runs_bind, runs_modify, runs_ret. cbv beta.
  set (s1 := mk _ _ _ _ _ _ _ _ _). assert (Hi1 : Inv s1 G L) by by apply (Inv_core s).
  assert (HQ1 : ∀ s', good s1 s' → Q tt s') by (intros; by apply HQ).
  assert (Hs1 : good s1 s1) by (split; [by eexists | done]).
  destruct (negb r); [by apply runs_ret, HQ1 |]. apply runs_bind, runs_get. cbv beta.
  destruct (_ <? _); [by apply runs_ret, HQ1 |]. apply runs_bind, runs_modify. cbv beta.
  eapply yields_call_invoke; [by apply (Inv_core s1) | done | by split | exact HQ1 |].
  intros s' Hs'. apply HR. exact Hs'.
Qed.
End operations.

(** ** Every call *)

(** A call of the adapter; [Invoke] comes with the message its caller made. *)
Inductive call : Type :=
  | Invoke (m : ReqMessage B)
  | DoInvoke
  | FinishInvoke (rsp : ResponsePacket.t)
  | DoTimeout
  | DoKeepAlive
  | CheckActive (connecting : bool)
  | AddConnExc (bExc : bool).

(** One call, at a time. *)
Definition run_call (c : Z * call) : prog st adapter_error unit :=
  match c.2 with
  | Invoke m => let* p := alloc m in invoke C c.1 p ;;; ret tt
  | DoInvoke => doInvoke C c.1
  | FinishInvoke rsp => finishInvoke C c.1 rsp
  | DoTimeout => doTimeout C c.1
  | DoKeepAlive => doKeepAlive C c.1
  | CheckActive b => checkActive_m C c.1 b ;;; ret tt
  | AddConnExc b => addConnExc_m C c.1 b
  end.

(** The caller catches what a call throws and goes on, as the handlers of
    [CommunicatorEpoll] do. *)
Definition attempt (m : prog st adapter_error unit) : prog st adapter_error (option adapter_error) := λ s,
  match m s with
  | (Ok _, s') => (Ok None, s')
  | (Throw e, s') => (Ok (Some e), s')
  | (OutOfBounds, s') => (OutOfBounds, s')
  | (AssertFailed, s') => (AssertFailed, s')
  | (NoFuel, s') => (NoFuel, s')
  end.
Fixpoint run_calls (l : list (Z * call)) : prog st adapter_error (list (option adapter_error)) :=
  match l with
  | [] => ret []
  | c :: l' => let* r := attempt (run_call c) in let* rs := run_calls l' in ret (r :: rs)
  end.

(** What callers keep to: messages are fresh, a waiting caller has a monitor, and
    a serial connection has no one-way calls, hence no keep-alive. *)
Definition call_ok (c : call) : Prop :=
  match c with
  | Invoke m => eStatus m = REQ_REQ ∧ msg_ok m
  | DoKeepAlive => ¬ 0 < connection_serial C
  | _ => True
  end.

(** A call that gives its new message up: sending it threw. *)
Definition loses (c : call) (r : option adapter_error) : bool :=
  match c, r with
  | (Invoke _ | DoKeepAlive), Some SendFailed => true
  | _, _ => false
  end.
Definition losses (l : list (Z * call)) (rs : list (option adapter_error)) : nat :=
  length (List.filter (λ x, loses x.1.2 x.2) (combine l rs)).

Lemma run_call_runs c L s G : Inv s G L → call_ok c.2 →
  runs (run_call c) s (λ _ s', good L s s')
    (λ e s', if loses c.2 (Some e) then lost L (next s) s s' else good L s s').
Proof.
  intros Hi Hok. destruct c as [nowms c]. unfold run_call. cbn [fst snd] in *.
  assert (Hs : good L s s) by (split; [by eexists | done]).
  destruct c as [m | | rsp | | | b | b].
  - destruct Hok. by eapply yields_call_invoke.
  - by eapply yields_doInvoke.
  - destruct (Z.ltb_spec 0 (connection_serial C)) as [Hser|Hser].
    + eapply yields_response_serial; [done.. |]. destruct (_requestMsg s); [|done].
      intros g s' _ _ Ha. by eapply good_answers.
    + destruct (decide (ResponsePacket.iRequestId rsp = 0)) as [H0|H0].
      * by eapply yields_push_response; [done | lia | done | |].
      * eapply yields_response_parallel; [done | lia | done |]. destruct (TimeoutQueue.find_id _ _); [|done].
        intros g s' _ _ _ Ha. by eapply good_answers.
  - eapply yields_doTimeout; [done |]. intros s' (G' & K & Hi' & _ & _ & Ec & _).
    split; [by eexists | rewrite Ec; by eexists].
  - by eapply yields_keepalive.
  - unfold checkActive_m. apply runs_bind, runs_bind, runs_get.
    destruct (checkActive _ _ _ _) as [r bx]. by eapply runs_bind, runs_modify, runs_ret, runs_ret, good_breaker.
  - unfold addConnExc_m. by eapply runs_bind, runs_get, runs_modify, good_breaker.
Qed.

Lemma Inv_new x : Inv (new x) [] [].
Proof. split; [apply TimeoutQueue.rep_new | | done | constructor | done]. intros p. cbn. split; [by intros [? ?] | by intros ?%elem_of_nil]. Qed.

Lemma run_calls_Inv l L s G : Inv s G L → Forall (λ c, call_ok c.2) l →
  ∃ rs s' G' K, run_calls l s = (Ok rs, s') ∧ Inv s' G' (K ++ L) ∧ length K = losses l rs.
Proof.
  intros Hi Hl. revert L s G Hi. induction Hl as [|c l Hc Hl IH]; intros L s G Hi; [by exists [], s, G, [] |].
  pose proof (run_call_runs c L s G Hi Hc) as Hr. unfold runs in Hr.
  assert (Hone : ∃ r s1 G1 K1, attempt (run_call c) s = (Ok r, s1) ∧ Inv s1 G1 (K1 ++ L) ∧
    length K1 = if loses c.2 r then 1%nat else 0%nat).
  { unfold attempt. destruct (run_call c s) as [[[] | e | | |] s1]; [| |done..].
    - destruct Hr as [[G1 Hi1] _]. exists None, s1, G1, []. split_and!; [done.. |]. by destruct c as [? []].
    - destruct (loses c.2 (Some e)) eqn:El; destruct Hr as [[G1 Hi1] _].
      + exists (Some e), s1, G1, [next s]. rewrite El. by split_and!.
      + exists (Some e), s1, G1, []. rewrite El. by split_and!. }
  destruct Hone as (r & s1 & G1 & K1 & E1 & Hi1 & H1). destruct (IH _ _ _ Hi1) as (rs & s' & G' & K & E & Hi' & HK).
  exists (r :: rs), s', G', (K ++ K1). cbn [run_calls]. rewrite (bind_Ok _ _ _ _ _ E1), (bind_Ok _ _ _ _ _ E).
  split_and!; [done | by rewrite <- app_assoc |]. rewrite length_app, H1, HK. unfold losses. cbn [combine List.filter fst snd].
  destruct (loses c.2 r); cbn [length]; lia.
Qed.
End invariant.
