(* ===== verification/AdapterTheorems.v ===== *)
(** The theorems about the client's adapter: the timeout queue as one list of
    requests, every request completed exactly once, responses and timeouts, and
    the circuit breaker. *)
From stdpp Require Import prelude gmap list.
From Stdlib Require Import ZArith Lia.
From S2P Require Import Prelude Bytes Packets TimeoutQueue AdapterProxy AdapterInv.

Import Adapter.

(** * The timeout queue *)

Section queue_ops.
Context {T : Type}.

Fixpoint queue_run (ops : list (@TimeoutQueue.op T)) : prog (TimeoutQueue.t T) Empty_set (list (@TimeoutQueue.result T)) :=
  match ops with
  | [] => ret []
  | o :: ops' => let* r := TimeoutQueue.run_op o in let* rs := queue_run ops' in ret (r :: rs)
  end.

(** The list of requests, and what the operations return. *)
Fixpoint queue_spec (ops : list (@TimeoutQueue.op T)) (L : list (@TimeoutQueue.request T)) :
  list (@TimeoutQueue.result T) * list (@TimeoutQueue.request T) :=
  match ops with
  | [] => ([], L)
  | o :: ops' =>
    let '(r, L') := TimeoutQueue.spec_op o L in
    let '(rs, L'') := queue_spec ops' L' in (r :: rs, L'')
  end.

(** [popSend] is called only while there is something to send. *)
Fixpoint queue_ok (ops : list (@TimeoutQueue.op T)) (L : list (@TimeoutQueue.request T)) : bool :=
  match ops with
  | [] => true
  | o :: ops' => TimeoutQueue.op_ok o L && queue_ok ops' (TimeoutQueue.spec_op o L).2
  end.

Lemma queue_run_spec ops s G : TimeoutQueue.rep s G → queue_ok ops (TimeoutQueue.reqs G) = true →
  ∃ s' G', queue_run ops s = (Ok (queue_spec ops (TimeoutQueue.reqs G)).1, s') ∧ TimeoutQueue.rep s' G' ∧
    TimeoutQueue.reqs G' = (queue_spec ops (TimeoutQueue.reqs G)).2.
Proof.
  revert s G. induction ops as [|o ops IH]; intros s G Hr Hok; [by exists s, G |].
  cbn [queue_run queue_spec queue_ok] in *. apply andb_true_iff in Hok as [Ho Hok].
  destruct (TimeoutQueue.run_op_spec o s G Hr Ho) as (s1 & G1 & E1 & Hr1 & EG1). rewrite <- EG1 in Hok.
  destruct (IH s1 G1 Hr1 Hok) as (s2 & G2 & E2 & Hr2 & EG2). exists s2, G2.
  rewrite (bind_Ok _ _ _ _ _ E1), (bind_Ok _ _ _ _ _ E2), EG2, EG1.
  destruct (TimeoutQueue.spec_op o (TimeoutQueue.reqs G)) as [r L]. cbn [fst snd] in *.
  by destruct (queue_spec ops L).
Qed.

(** What can be seen of a queue from outside. *)
Lemma rep_observers (s : TimeoutQueue.t T) G : TimeoutQueue.rep s G →
  TimeoutQueue.size s = zlen (TimeoutQueue.reqs G) ∧
  TimeoutQueue.getSendListSize s =
    zlen (filter (λ r, TimeoutQueue.r_sent r = false) (TimeoutQueue.reqs G)).
Proof.
  intros (Hn & _ & _ & Ed & _ & Es).
  assert (Hu : filter (λ r, TimeoutQueue.r_sent r = false) (TimeoutQueue.reqs G) =
               map TimeoutQueue.g_req (TimeoutQueue.unsent G)) by by apply filter_map_comm.
  split.
  - unfold TimeoutQueue.size, zlen, TimeoutQueue.reqs. rewrite Ed, length_map, <- length_map_to_list.
    rewrite map_to_list_to_map, length_map; [done |].
    by rewrite <- list_fmap_compose.
  - unfold TimeoutQueue.getSendListSize, zlen. by rewrite Es, Hu, length_rev, !length_map.
Qed.
End queue_ops.

(** C15: The timeout queue, with its table, its list in the order of deadlines and
    its list of requests to send, all holding iterators of each other, behaves like
    one list of requests in the order of arrival: every operation returns what the
    list gives, no iterator is used after its node is gone, and the sizes agree. *)
Theorem timeout_queue_refines {T} (ops : list (@TimeoutQueue.op T)) :
  queue_ok ops [] = true →
  let '(rs, L) := queue_spec ops [] in
  ∃ s, queue_run ops TimeoutQueue.new = (Ok rs, s) ∧
    TimeoutQueue.size s = zlen L ∧
    TimeoutQueue.getSendListSize s = zlen (filter (λ r, TimeoutQueue.r_sent r = false) L).
Proof.
  intros Hok. destruct (queue_run_spec ops _ [] TimeoutQueue.rep_new Hok) as (s & G & E & Hr & EG).
  destruct (rep_observers s G Hr) as (Hs & Hu). rewrite EG in *. cbn [TimeoutQueue.reqs map] in *.
  destruct (queue_spec ops []) as [rs L]. by exists s.
Qed.

(** Three requests; one is sent, one answered, one times out. *)
Definition sample_queue_ops : list (@TimeoutQueue.op nat) :=
  [TimeoutQueue.OpPush 1%nat 10 500 false; TimeoutQueue.OpPush 2%nat 11 400 false; TimeoutQueue.OpPush 3%nat 10 1 true;
   TimeoutQueue.OpGetSend; TimeoutQueue.OpPopSend false; TimeoutQueue.OpPush 4%nat 12 450 true; TimeoutQueue.OpErase 10;
   TimeoutQueue.OpTimeout 420; TimeoutQueue.OpTimeoutAll 1000].
Lemma timeout_queue_refines_witness : ∃ s,
  queue_run sample_queue_ops TimeoutQueue.new =
    (Ok [TimeoutQueue.RBool true; TimeoutQueue.RBool true; TimeoutQueue.RBool false;
         TimeoutQueue.RPtr (Some 1%nat); TimeoutQueue.RUnit; TimeoutQueue.RBool true; TimeoutQueue.RPtr (Some 1%nat);
         TimeoutQueue.RPtr (Some 2%nat); TimeoutQueue.RUnit], s).
Proof.
  destruct (timeout_queue_refines sample_queue_ops) as (s & E & _); [reflexivity |].
  exists s. exact E.
Defined.

(** * A connection to run the examples on *)

(** It answers [sendRequest] from a script, then with [eRetOk]; buffers are
    numbered. *)
Record script := mkScript { sc_valid : bool; sc_connected : bool; sc_next : nat; sc_answers : list (option ReturnStatus) }.
#[export] Program Instance script_transceiver : Transceiver script nat := {
  tr_requestFunc _ x := (sc_next x, mkScript (sc_valid x) (sc_connected x) (S (sc_next x)) (sc_answers x));
  tr_sendRequest _ x :=
    match sc_answers x with
    | [] => (Some eRetOk, x)
    | Some r :: l => (Some r, mkScript (sc_valid x) (sc_connected x) (sc_next x) l)
    | None :: l => (None, mkScript false false (sc_next x) l)
    end;
  tr_connect x := (false, mkScript true false (sc_next x) (sc_answers x));
  tr_close x := mkScript false false (sc_next x) (sc_answers x);
  tr_isValid := sc_valid;
  tr_hasConnected x := sc_valid x && sc_connected x;
  tr_isConnecting x := sc_valid x && negb (sc_connected x);
  tr_setIsConnTimeout _ x := x
}.
Next Obligation. by intros ? [? _]%andb_true_iff. Qed.
Next Obligation. done. Qed.
Next Obligation. intros _ [v c n [|[|] l]] x'; [done | done |]. cbn. by intros [= <-]. Qed.

Definition sample_info : CheckTimeoutInfo := mkInfo 2 60 2 5 one_half 10 1.
Definition sample_config (serial : Z) (push : bool) : config := {|
  connection_serial := serial; timeout_info := sample_info; push_callback := push; push_netThread := false;
  noSendQueueLimit := 100; keepAliveInterval := 30; default_asynctimeout := 3000; timePoint := [5; 10; 100];
  adapter_name := [65]; TARSSERVERSUCCESS := 0; TARSSERVERUNKNOWNERR_ := -99; TARSSENDREQUESTERR := -1001;
  TARSPROXYCONNECTERR := -1002; TARSASYNCCALLTIMEOUT := -7; TARSVERSION_ := 1; TARSONEWAY := 1
|}.
Definition sample_msg (ty : CallType) : ReqMessage nat :=
  mkReqMessage REQ_REQ ty false (RequestPacket.mk 1 0 0 0 [65] [70] [] 3000 [] []) ResponsePacket.empty None
    1000 0 false false true true false.
Definition sample_rsp (i : Z) : ResponsePacket.t := ResponsePacket.mk 1 0 i 0 0 [7] [] [] [].
Definition sample_calls : list (Z * call (B := nat)) :=
  [(1000, CheckActive true); (1000, Invoke (sample_msg SYNC_CALL)); (1001, Invoke (sample_msg ASYNC_CALL));
   (1002, Invoke (sample_msg ONE_WAY)); (1003, FinishInvoke (sample_rsp 1)); (1004, FinishInvoke (sample_rsp 9));
   (1005, DoInvoke); (1005, DoInvoke); (1006, DoKeepAlive); (1007, DoInvoke); (1007, AddConnExc false)].
Definition sample_script : script := mkScript true true 0 [Some eRetOk; Some eRetNotSend; Some eRetFull; Some eRetOk; Some eRetNotSend; None].
Lemma sample_calls_ok push : Forall (λ c, call_ok (sample_config 0 push) c.2) sample_calls.
Proof. repeat constructor; by vm_compute. Qed.

(** * Requests *)

Section adapter.
Context {X B : Type} `{TX : Transceiver X B} (C : config).


(** States the adapter can be in, with the number of messages lost on the way. *)
Definition reachable (n : nat) (s : Adapter.t X B) : Prop :=
  ∃ x l rs, Forall (λ c, call_ok C c.2) l ∧ run_calls C l (Adapter.new x) = (Ok rs, s) ∧ losses l rs = n.

Lemma reachable_Inv n s : reachable n s → ∃ G K, Inv C s G K ∧ length K = n.
Proof.
  intros (x & l & rs & Hl & E & Hn).
  destruct (run_calls_Inv C l [] (new x) [] (Inv_new C x) Hl) as (rs' & s' & G & K & E' & Hi & HK).
  rewrite E in E'. injection E' as <- <-. rewrite app_nil_r in Hi. exists G, K. split; [done | congruence].
Qed.

(** What [doTimeout] leaves behind. *)
Lemma doTimeout_timed_out nowms s G K : Inv C s G K →
  ∃ s', doTimeout C nowms s = (Ok tt, s') ∧ timed_out C K nowms s s' G.
Proof.
  intros Hi. destruct (runs_value (doTimeout C nowms) s (λ _ s', timed_out C K nowms s s' G)) as ([] & s' & E & Ht).
  - by eapply yields_doTimeout.
  - by exists s'.
Qed.

(** Timeouts: [doTimeout] completes every request whose deadline has come, as
    timed out, and no other; requests that wait longer stay as they are. *)
Theorem timeouts_complete_due n (s : Adapter.t X B) (nowms : Z) :
  reachable n s →
  ∃ s' G G' L, doTimeout C nowms s = (Ok tt, s') ∧
    TimeoutQueue.rep (_timeoutQueue s) G ∧ TimeoutQueue.rep (_timeoutQueue s') G' ∧
    TimeoutQueue.reqs G' = TimeoutQueue.not_due nowms (TimeoutQueue.reqs G) ∧
    completed s' = completed s ++ L ∧
    Forall (λ x, eStatus x.2.2 = REQ_TIME) L ∧
    map fst L ++ ptrs G' ≡ₚ ptrs G.
Proof.
  intros (G & K & Hi & _)%reachable_Inv.
  destruct (doTimeout_timed_out nowms s G K Hi) as (s' & E & G' & L & Hi' & EG & En & Ec & HL).
  exists s', G, G', L. split_and!; [done | apply Hi | apply Hi' | done.. |].
  pose proof (inv_all _ _ _ _ Hi) as Ha. pose proof (inv_all _ _ _ _ Hi') as Ha'.
  rewrite En, Ec, map_app, <- app_assoc, <- Ha in Ha'.
  apply Permutation_app_inv_l in Ha'. rewrite app_assoc in Ha'. by apply Permutation_app_inv_r in Ha'.
Qed.



(** On a serial connection every response completes the one request the
    connection is waiting for, whatever id it carries; without such a request it
    changes nothing. *)
Theorem serial_response_any_id n (s : Adapter.t X B) (nowms : Z) (rsp : ResponsePacket.t) :
  reachable n s → 0 < connection_serial C →
  ∃ s', finishInvoke C nowms rsp s = (Ok tt, s') ∧
    match _requestMsg s with
    | None => s' = s
    | Some p => ∃ c m', _requestMsg s' = None ∧ completed s' = completed s ++ [(p, (c, m'))] ∧
        eStatus m' = REQ_RSP ∧ response m' = rsp
    end.
Proof.
  intros (G & K & Hi & _)%reachable_Inv Hser.
  pose (Q := λ (_ : unit) s', match _requestMsg s with
    | None => s' = s
    | Some p => ∃ c m', _requestMsg s' = None ∧ completed s' = completed s ++ [(p, (c, m'))] ∧
        eStatus m' = REQ_RSP ∧ response m' = rsp
    end).
  destruct (runs_value (finishInvoke C nowms rsp) s Q) as ([] & s' & E & HQ); [|by exists s'].
  apply (yields_response_serial C K _ nowms rsp s G Q Hi Hser). unfold Q. destruct (_requestMsg s) as [p|]; [|done].
  intros g s' Hg <- (Hi' & Er & m & Em & Ec). exists (completion_of m), (final_msg nowms (answered rsp m)).
  pose proof (final_response nowms (answered rsp m)) as [Ersp _].
  split_and!; [done | done | by rewrite final_status | done].
Qed.

(** Sending any new request would throw. *)
Definition broken (x : X) : Prop :=
  ∀ r, let '(d, x') := tr_requestFunc r x in (tr_sendRequest d x').1 = None.

(** A broken connection throws out of [invoke]. *)
Lemma invoke_throws p m (s : Adapter.t X B) nowms : heap s !! p = Some m →
  connection_serial C = 0 → TimeoutQueue.getSendListSize (_timeoutQueue s) = 0 → 0 ≤ noSendQueueLimit C →
  broken (trans s) →
  runs (invoke C nowms p) s (λ _ _, False) (λ e s', e = SendFailed ∧ completed s' = completed s).
Proof.
  intros Em Hser Hq Hlim Hbad. unfold invoke. apply runs_bind, runs_get. rewrite Hq.
  rewrite (proj2 (Z.ltb_ge _ _)) by done. apply runs_bind. eapply yields_deref; [exact Em |]. cbv beta.
  rewrite Hser. cbn [Z.ltb Z.compare].
  assert (Hgo : ∀ s1 m1, heap s1 !! p = Some m1 → TimeoutQueue._send (_timeoutQueue s1) = [] → completed s1 = completed s →
    trans s1 = trans s → runs (invoke_connection_parallel C nowms p) s1 (λ _ _, False) (λ e s', e = SendFailed ∧ completed s' = completed s)).
  { intros s1 m1 E1 Es Ec Et. unfold invoke_connection_parallel, make_request. apply runs_bind, runs_bind.
    eapply yields_deref; [exact E1 |]. cbv beta. apply runs_bind, yields_trans. intros d x Erq. cbv beta.
    eapply yields_update; [exact E1 |]. cbv beta. apply runs_bind, runs_get. cbn [_timeoutQueue upd with_trans].
    unfold TimeoutQueue.sendListEmpty. rewrite Es. unfold sendRequest. apply runs_bind, runs_bind.
    eapply yields_deref; [apply lookup_insert_eq |]. cbv beta. cbn [sReqData with_sReqData].
    apply runs_bind, yields_trans. intros r x' Er. specialize (Hbad (request m1)).
    cbn [trans upd with_trans] in Er. rewrite <- Et, Erq, Er in Hbad. cbn in Hbad. subst r. by apply runs_throw. }
  assert (Es : TimeoutQueue._send (_timeoutQueue s) = []).
  { unfold TimeoutQueue.getSendListSize in Hq. destruct (TimeoutQueue._send _); [done |]. cbn in Hq. lia. }
  apply runs_bind. destruct (bFromRpc m); cbn [negb]; [by eapply runs_ret, Hgo |]. apply runs_bind.
  assert (Hg : ∃ i q, TimeoutQueue.generateId (_timeoutQueue s) = (Ok i, q) ∧
    TimeoutQueue._send q = TimeoutQueue._send (_timeoutQueue s)).
  { unfold TimeoutQueue.generateId. rewrite (bind_Ok get_st _ (_timeoutQueue s) (_timeoutQueue s) (_timeoutQueue s)) by done.
    eexists _, _. by split. }
  destruct Hg as (i & q & Eg & Eq). rewrite <- Eq in Es.
  eapply yields_queue; [exact Eg |]. cbv beta. eapply yields_update; [exact Em |]. cbv beta.
  by eapply Hgo; [apply lookup_insert_eq | exact Es | |].
Qed.

(** C19: A request whose sending throws is lost: [invoke] throws in turn, the message
    is neither queued nor handed over, and no later call ever hands it over; a
    synchronous caller waits for its monitor in vain. *)
Theorem send_error_loses_message n (s : Adapter.t X B) (nowms : Z) (m : ReqMessage B) :
  reachable n s → call_ok C (Invoke m) →
  connection_serial C = 0 → TimeoutQueue.getSendListSize (_timeoutQueue s) = 0 → 0 ≤ noSendQueueLimit C →
  broken (trans s) →
  ∃ s', run_call C (nowms, Invoke m) s = (Throw SendFailed, s') ∧ completed s' = completed s ∧
    ∀ l rs s'', Forall (λ c, call_ok C c.2) l → run_calls C l s' = (Ok rs, s'') →
      next s ∉ map fst (completed s'').
Proof.
  intros (G & K & Hi & _)%reachable_Inv Hok Hser Hq Hlim Hbad.
  pose proof (run_call_runs C (nowms, Invoke m) K s G Hi Hok) as Hr.
  assert (Ht : runs (run_call C (nowms, Invoke m)) s (λ _ _, False) (λ e s', e = SendFailed ∧ completed s' = completed s)).
  { unfold run_call. cbn [snd fst]. apply runs_bind, yields_alloc. cbv beta. apply runs_bind.
    pose proof (invoke_throws (next s) m (alloc_st m s) nowms (lookup_insert_eq _ _ _) Hser Hq Hlim Hbad) as Hinv.
    unfold runs in *. by destruct (invoke C nowms (next s) _) as [[] ?]. }
  unfold runs in *. destruct (run_call C _ s) as [[| e | | |] s']; try done. destruct Ht as [-> Ec].
  cbn [loses snd] in Hr. destruct Hr as [[G' Hi'] _]. exists s'. split_and!; [done.. |].
  intros l rs s'' Hl E. destruct (run_calls_Inv C l _ s' G' Hi' Hl) as (rs' & s2 & G2 & K2 & E2 & Hi2 & _).
  rewrite E in E2. injection E2 as <- <-. pose proof (inv_all _ _ _ _ Hi2) as Ha. intros Hin.
  assert (Hn : NoDup (map fst (completed s'') ++ ptrs G2 ++ K2 ++ next s :: K)) by (rewrite Ha; apply NoDup_seq).
  apply NoDup_app in Hn as (_ & Hn & _). apply (Hn _ Hin). rewrite !elem_of_app, elem_of_cons. auto.
Qed.
End adapter.

Definition sample_state : Adapter.t script nat :=
  (run_calls (sample_config 0 true) sample_calls (Adapter.new sample_script)).2.


Lemma sample_reachable : reachable (sample_config 0 true) 0 sample_state.
Proof.
  eexists sample_script, sample_calls, _. split; [apply sample_calls_ok |].
  split; [vm_compute; reflexivity | vm_compute; reflexivity].
Qed.

Lemma timeouts_complete_due_witness : ∃ s' L,
  doTimeout (sample_config 0 true) 5000 sample_state = (Ok tt, s') ∧ completed s' = completed sample_state ++ L ∧
  Forall (λ x, eStatus x.2.2 = REQ_TIME) L.
Proof.
  destruct (timeouts_complete_due (sample_config 0 true) 0 sample_state 5000 sample_reachable)
    as (s' & _ & _ & L & E & _ & _ & _ & Ec & HL & _).
  exists s', L. split; [exact E | split; [exact Ec | exact HL]].
Defined.



Definition serial_calls : list (Z * call (B := nat)) :=
  [(1000, CheckActive true); (1000, Invoke (sample_msg SYNC_CALL)); (1001, Invoke (sample_msg ASYNC_CALL))].
Definition serial_state : Adapter.t script nat :=
  (run_calls (sample_config 1 false) serial_calls (Adapter.new sample_script)).2.
(** The first request is sent under the id 2; the answer to it comes under 77. *)
Lemma serial_response_any_id_witness :
  _requestMsg serial_state = Some 0%nat ∧
  ∃ s', finishInvoke (sample_config 1 false) 1010 (sample_rsp 77) serial_state = (Ok tt, s') ∧ _requestMsg s' = None.
Proof.
  assert (Hq : _requestMsg serial_state = Some 0%nat) by (vm_compute; reflexivity).
  split; [exact Hq |].
  assert (Hr : reachable (sample_config 1 false) 0 serial_state).
  { eexists sample_script, serial_calls, _. split; [| split; vm_compute; reflexivity].
    repeat constructor; (by vm_compute) || discriminate. }
  destruct (serial_response_any_id (sample_config 1 false) 0 serial_state 1010 (sample_rsp 77) Hr) as (s' & E & Hm); [reflexivity |].
  rewrite Hq in Hm. destruct Hm as (_ & _ & Hn & _). exists s'. split; [exact E | exact Hn].
Defined.

(** * The circuit breaker *)

Section breaker.
Context {X B : Type} `{TX : Transceiver X B} (info : CheckTimeoutInfo).

(** The results of calls, with their times. *)
Definition finish_run (l : list (Z * bool)) (s : breaker * X) : breaker * X :=
  foldl (λ s o, finishInvoke_bool info o.1 o.2 s) s l.

Lemma finish_run_snoc l t (o : bool) s : finish_run (l ++ [(t, o)]) s = finishInvoke_bool info t o (finish_run l s).
Proof. unfold finish_run. by rewrite foldl_app. Qed.

(** Taken out of use at the time [t]. *)
Definition tripped (t : Z) (s : breaker * X) : Prop :=
  _activeStatus s.1 = false ∧ _nextRetryTime s.1 = t + tryTimeInterval info ∧ tr_isValid s.2 = false.

(** One failure of an adapter in use, after [n] in a row. *)
Lemma fail_step t b x n : _activeStatus b = true → _frequenceFailInvoke b = n → 0 ≤ n < 2 ^ 32 - 1 →
  let ft := if n =? 0 then t + minFrequenceFailTime info else _frequenceFailTime b in
  let '(b', x') := finishInvoke_bool info t true (b, x) in
  tripped t (b', x') ∨
  _activeStatus b' = true ∧ _frequenceFailInvoke b' = n + 1 ∧ _frequenceFailTime b' = ft ∧
  ¬ (frequenceFailInvoke info ≤ n + 1 ∧ ft ≤ t).
Proof.
  intros Ha <- Hn. cbv zeta. unfold finishInvoke_bool. rewrite Ha. cbn -[radio_reached Z.add Z.leb Z.eqb wrapU].
  rewrite (wrapU_id 32 (_frequenceFailInvoke b + 1)) by (unfold in_U; lia).
  rewrite (Z.eqb_sym 0). set (ft := if _frequenceFailInvoke b =? 0 then _ else _).
  destruct (Z.leb_spec (frequenceFailInvoke info) (_frequenceFailInvoke b + 1)); cbn [andb]; cycle 1.
  { destruct (_nextFinishInvokeTime b <? t); [|right; cbn; split_and!; [done..| lia]].
    destruct (_ && _); [by left; repeat split; apply tr_close_invalid |]. right. cbn. split_and!; [done..| lia]. }
  destruct (Z.leb_spec ft t); [by left; repeat split; apply tr_close_invalid |].
  destruct (_nextFinishInvokeTime b <? t); [|right; cbn; split_and!; [done..| lia]].
  destruct (_ && _); [by left; repeat split; apply tr_close_invalid |]. right. cbn. split_and!; [done..| lia].
Qed.

Lemma fail_inactive t s : _activeStatus s.1 = false → finishInvoke_bool info t true s = s.
Proof. destruct s as [b x]. cbn. by intros ->. Qed.

(** While an adapter is out of use and its time has not come, it is not tried. *)
Lemma tripped_rests t s now connecting : tripped t s → now < t + tryTimeInterval info →
  checkActive info now connecting s = (false, s).
Proof.
  destruct s as [b x]. intros (Ha & Hr & _) Hn. unfold checkActive. cbn in *. rewrite Ha, Hr.
  by rewrite (proj2 (Z.ltb_lt _ _) Hn).
Qed.

Lemma fails_run t0 ts b x : _activeStatus b = true → _frequenceFailInvoke b = 0 → zlen (t0 :: ts) < 2 ^ 32 →
  let s := finish_run (map (λ t, (t, true)) (t0 :: ts)) (b, x) in
  (∃ t, t ∈ t0 :: ts ∧ tripped t s) ∨
  _activeStatus s.1 = true ∧ _frequenceFailInvoke s.1 = zlen (t0 :: ts) ∧
  _frequenceFailTime s.1 = t0 + minFrequenceFailTime info ∧
  ¬ (frequenceFailInvoke info ≤ zlen (t0 :: ts) ∧ t0 + minFrequenceFailTime info ≤ List.last (t0 :: ts) t0).
Proof.
  intros Ha Hf. induction ts as [|t ts IH] using rev_ind; intros Hlen; cbv zeta.
  - pose proof (fail_step t0 b x 0 Ha Hf ltac:(lia)) as Hs. cbv zeta in Hs. cbn [Z.eqb] in Hs.
    unfold finish_run. cbn [map foldl fst snd].
    destruct (finishInvoke_bool info t0 true (b, x)) as [b' x'].
    destruct Hs as [Hs|Hs]; [left; exists t0; split; [apply list_elem_of_here | done] | right; exact Hs].
  - assert (Hl : zlen (t0 :: ts ++ [t]) = zlen (t0 :: ts) + 1) by (unfold zlen; cbn; rewrite length_app; cbn; lia).
    rewrite Hl in *. rewrite app_comm_cons, map_app. change (map _ [t]) with [(t, true)].
    rewrite !finish_run_snoc.
    destruct IH as [(t' & Ht' & Hs)|(Ha' & Hf' & Hft & _)]; [lia | |].
    + left. exists t'. rewrite fail_inactive by apply Hs. split; [|done]. apply elem_of_app. by left.
    + destruct (finish_run _ _) as [b1 x1]. cbn [fst snd] in *.
      assert (0 < zlen (t0 :: ts)) by (unfold zlen; cbn; lia).
      pose proof (fail_step t b1 x1 _ Ha' Hf' ltac:(lia)) as Hs. cbv zeta in Hs.
      rewrite (proj2 (Z.eqb_neq (zlen (t0 :: ts)) 0)) in Hs by lia. rewrite Hft in Hs.
      destruct (finishInvoke_bool info t true (b1, x1)) as [b' x']. destruct Hs as [Hs|Hs].
      * left. exists t. split; [|done]. apply elem_of_app. right. apply list_elem_of_here.
      * right. by rewrite last_last.
Qed.

(** C18: The breaker trips: an adapter in use whose calls fail
    [frequenceFailInvoke] times in a row, over at least [minFrequenceFailTime]
    seconds, is taken out of use, at the latest by the last of these failures; its
    connection is closed, and for [tryTimeInterval] seconds from then it is neither
    chosen nor connected. *)
Theorem breaker_trips (t0 : Z) (ts : list Z) (b : breaker) (x : X) :
  _activeStatus b = true → _frequenceFailInvoke b = 0 →
  frequenceFailInvoke info ≤ zlen (t0 :: ts) < 2 ^ 32 →
  t0 + minFrequenceFailTime info ≤ List.last (t0 :: ts) t0 →
  let s := finish_run (map (λ t, (t, true)) (t0 :: ts)) (b, x) in
  _activeStatus s.1 = false ∧ tr_isValid s.2 = false ∧
  ∃ t, t ∈ t0 :: ts ∧
    ∀ now connecting, now < t + tryTimeInterval info → checkActive info now connecting s = (false, s).
Proof.
  intros Ha Hf [Hn Hlen] Hlast s. destruct (fails_run t0 ts b x Ha Hf Hlen) as [(t & Ht & Hs)|(_ & _ & _ & [])]; [|done].
  split_and!; [apply Hs | apply Hs |]. exists t. split; [done |]. intros now connecting. by apply tripped_rests.
Qed.

(** A success keeps an adapter in use, and its connection; it ends the row of
    failures; and it brings an adapter that was out of use back, with fresh
    counters. *)
Theorem breaker_success (now : Z) (b : breaker) (x : X) :
  let '(b', x') := finishInvoke_bool info now false (b, x) in
  _activeStatus b' = true ∧ _frequenceFailInvoke b' = 0 ∧
  x' = (if _activeStatus b then x else tr_setIsConnTimeout false x) ∧
  (_activeStatus b = false → _totalInvoke b' = 1 ∧ _timeoutInvoke b' = 0 ∧ _connExc b' = false).
Proof.
  unfold finishInvoke_bool. destruct (_activeStatus b) eqn:Ha; cbn [negb]; [|by cbn].
  cbn -[wrapU Z.add]. destruct (_ <? now); cbn; rewrite ?Ha; by split_and!.
Qed.
End breaker.

(** Nine failures in nine seconds; the adapter is out at the eighth. *)
Definition sample_breaker : breaker := breaker_new.
Definition open_script : script := mkScript true true 0 [].
Lemma breaker_trips_witness :
  let s := finish_run (mkInfo 2 60 3 7 one_half 10 1) (map (λ t, (t, true)) [1; 2; 3; 4; 5; 6; 7; 8; 9])
             (mkBreaker true 0 0 100 0 0 0 false 0, open_script) in
  _activeStatus s.1 = false ∧ tr_isValid s.2 = false ∧ _nextRetryTime s.1 = 18.
Proof.
  destruct (breaker_trips (mkInfo 2 60 3 7 one_half 10 1) 1 [2; 3; 4; 5; 6; 7; 8; 9]
    (mkBreaker true 0 0 100 0 0 0 false 0) open_script) as (Ha & Hx & _);
    [reflexivity | reflexivity | by vm_compute | by vm_compute |].
  split; [exact Ha | split; [exact Hx | vm_compute; reflexivity]].
Defined.

(** A connection that counts the calls of [connect]. *)
#[export] Program Instance counted_transceiver {X B} (TX : Transceiver X B) : Transceiver (X * Z) B := {
  tr_requestFunc r x := let '(d, y) := tr_requestFunc r x.1 in (d, (y, x.2));
  tr_sendRequest d x := let '(r, y) := tr_sendRequest d x.1 in (r, (y, x.2));
  tr_connect x := let '(e, y) := tr_connect x.1 in (e, (y, x.2 + 1));
  tr_close x := (tr_close x.1, x.2);
  tr_isValid x := tr_isValid x.1;
  tr_hasConnected x := tr_hasConnected x.1;
  tr_isConnecting x := tr_isConnecting x.1;
  tr_setIsConnTimeout b x := (tr_setIsConnTimeout b x.1, x.2)
}.
Next Obligation. intros X B TX x. apply tr_connected_valid. Qed.
Next Obligation. intros X B TX x. apply tr_close_invalid. Qed.
Next Obligation.
  intros X B TX d [x n] x' E. cbn in *. destruct (tr_sendRequest d x) as [r y] eqn:Es. injection E as -> <-.
  by eapply tr_throw_invalid.
Qed.

Section probes.
Context {X B : Type} `{TX : Transceiver X B} (info : CheckTimeoutInfo).

Definition check_run (l : list (Z * bool)) (s : breaker * (X * Z)) : breaker * (X * Z) :=
  foldl (λ s c, (checkActive info c.1 c.2 s).2) s l.

(** A check of an adapter out of use: nothing, or one attempt and a new time. *)
Lemma check_step t c b (x : X) n : _activeStatus b = false →
  let '(b', (_, n')) := (checkActive info t c (b, (x, n))).2 in
  _activeStatus b' = false ∧
  (n' = n ∧ _nextRetryTime b' = _nextRetryTime b ∨
   _nextRetryTime b ≤ t ∧ n' ≤ n + 1 ∧ _nextRetryTime b' = t + tryTimeInterval info).
Proof.
  intros Ha. unfold checkActive. cbn [tr_isValid tr_connect tr_close counted_transceiver fst snd].
  rewrite Ha. cbn [negb andb]. destruct (Z.ltb_spec t (_nextRetryTime b)); [by split; [|left] |].
  destruct (tr_isValid x); cbn [negb]; [cbn; rewrite Ha; split; [done | right; split_and!; [done | lia | done]] |].
  destruct (tr_connect x) as [[] y]; cbn; (split; [done | right; split_and!; [done | lia | done]]).
Qed.

(** An adapter that is out of use is tried again at most once every
    [tryTimeInterval] seconds: however often and in whatever order it is considered
    between [lo] and [hi], the calls of [connect] fit in that time. *)
Theorem inactive_connects_bounded (lo hi : Z) (l : list (Z * bool)) (b : breaker) (x : X) (n : Z) :
  _activeStatus b = false → 0 < tryTimeInterval info → lo ≤ hi → Forall (λ c, lo ≤ c.1 < hi) l →
  let '(b', (_, n')) := check_run l (b, (x, n)) in
  _activeStatus b' = false ∧ (n' - n) * tryTimeInterval info < hi - lo + tryTimeInterval info.
Proof.
  intros Ha HI Hlh Hl.
  assert (Hk : let '(b', (_, n')) := check_run l (b, (x, n)) in
    _activeStatus b' = false ∧ ∃ k, n' - n ≤ k ∧
      (k = 0 ∨ lo + k * tryTimeInterval info ≤ _nextRetryTime b' < hi + tryTimeInterval info)).
  { induction l as [|[t c] l IH] using rev_ind; [split; [done |]; exists 0; split; [lia | by left] |].
    apply Forall_app in Hl as [Hl [Ht _]%Forall_cons]. specialize (IH Hl). cbn [fst] in Ht.
    unfold check_run in *. rewrite foldl_app. destruct (foldl _ _ l) as [b1 [x1 n1]].
    destruct IH as (Ha1 & k & Hn & Hk). cbn [foldl fst snd].
    pose proof (check_step t c b1 x1 n1 Ha1) as Hs. destruct (checkActive info t c _).2 as [b' [x' n']].
    destruct Hs as (Ha' & [(-> & ->)|(Hr & Hn' & ->)]); (split; [done |]); [by exists k |].
    exists (k + 1). split; [lia |]. right. destruct Hk as [->|Hk]; lia. }
  destruct (check_run l (b, (x, n))) as [b' [x' n']]. destruct Hk as (Ha' & k & Hn & Hk). split; [done |].
  assert ((n' - n) * tryTimeInterval info ≤ k * tryTimeInterval info) by (apply Z.mul_le_mono_nonneg_r; lia).
  destruct Hk as [->|Hk]; lia.
Qed.

(** The results of connecting, [true] for an exception. *)
Definition exc_run (l : list (Z * bool)) (s : breaker * X) : breaker * X :=
  foldl (λ s o, addConnExc info o.1 o.2 s) s l.

Lemma exc_step t b (x : X) k : _connExc b = false → _connExcCnt b = k → 0 ≤ k < 2 ^ 32 - 1 →
  let '(b', x') := addConnExc info t true (b, x) in
  _connExc b' = true ∧ tripped info t (b', x') ∧ maxConnectExc info ≤ k + 1 ∨
  _connExc b' = false ∧ _connExcCnt b' = k + 1 ∧ _activeStatus b' = _activeStatus b ∧ x' = x ∧
  k + 1 < maxConnectExc info.
Proof.
  intros Hc <- Hk. unfold addConnExc. rewrite Hc. cbn -[wrapU Z.add Z.leb].
  rewrite (wrapU_id 32 (_connExcCnt b + 1)) by (unfold in_U; lia).
  destruct (Z.leb_spec (maxConnectExc info) (_connExcCnt b + 1)).
  - left. split_and!; [done | repeat split; apply tr_close_invalid | done].
  - right. cbn. by split_and!.
Qed.

(** Connection failures: an adapter is taken out of use by the
    [maxConnectExc]-th of a row of failures to connect and stays out through
    further ones; one established connection brings it back and starts the count
    again. *)
Theorem conn_exceptions_trip (ts : list Z) (t : Z) (b : breaker) (x : X) :
  _activeStatus b = true → _connExc b = false → _connExcCnt b = 0 → zlen ts < 2 ^ 32 - 1 → 0 < maxConnectExc info →
  let s := exc_run (map (λ t, (t, true)) ts) (b, x) in
  (_activeStatus s.1 = true ↔ zlen ts < maxConnectExc info) ∧
  (let s' := addConnExc info t false s in
   _activeStatus s'.1 = true ∧ _connExc s'.1 = false ∧ _connExcCnt s'.1 = 0 ∧ s'.2 = s.2).
Proof.
  intros Ha Hc Hn Hlen Hmax s. split; [|by destruct s].
  assert (Hs : (_connExc s.1 = true ∧ _activeStatus s.1 = false ∧ maxConnectExc info ≤ zlen ts) ∨
    (_connExc s.1 = false ∧ _connExcCnt s.1 = zlen ts ∧ _activeStatus s.1 = true ∧ zlen ts < maxConnectExc info)).
  { subst s. induction ts as [|t' ts IH] using rev_ind; [by right |].
    assert (Hl : zlen (ts ++ [t']) = zlen ts + 1) by (rewrite length_app; cbn [length]; lia).
    rewrite Hl in *. rewrite map_app. unfold exc_run in *. rewrite foldl_app.
    assert (0 ≤ zlen ts) by lia.
    destruct (foldl _ (b, x) _) as [b1 x1]. cbn [map foldl fst snd] in *.
    destruct IH as [(H1 & H2 & H3)|(H1 & H2 & H3 & H4)]; [lia | |].
    - left. unfold addConnExc. rewrite H1. cbn [negb fst]. split_and!; [done | done | lia].
    - pose proof (exc_step t' b1 x1 _ H1 H2 ltac:(lia)) as Hs. destruct (addConnExc info t' true (b1, x1)) as [b' x'].
      cbn [fst] in *. destruct Hs as [(? & (? & _) & ?)|(? & ? & ? & _ & ?)]; [|right; split_and!; [done | done | congruence | done]].
      by left. }
  destruct Hs as [(_ & -> & Hge)|(_ & _ & -> & Hlt)]; (split; [|by intros; lia]); [done |]. by intros _.
Qed.
End probes.

(** Considered every second for twenty seconds. *)
Lemma inactive_connects_bounded_witness :
  let '(_, (_, n)) := check_run sample_info (map (λ t, (t, false)) (seqZ 100 20))
    (mkBreaker false 0 0 0 0 0 0 false 0, (mkScript false false 0 [], 0)) in n * 10 < 30.
Proof.
  pose proof (inactive_connects_bounded sample_info 100 120 (map (λ t, (t, false)) (seqZ 100 20))
    (mkBreaker false 0 0 0 0 0 0 false 0) (mkScript false false 0 []) 0) as Hb.
  vm_compute in Hb. vm_compute. destruct Hb as [_ Hb]; try reflexivity; try (intros ?; discriminate); try exact Hb.
  repeat constructor; intros ?; discriminate.
Defined.
Lemma conn_exceptions_trip_witness :
  let s := exc_run (mkInfo 2 60 3 7 one_half 10 2) (map (λ t, (t, true)) [1; 2; 3]) (breaker_new, open_script) in
  _activeStatus s.1 ≠ true ∧ _activeStatus (addConnExc (mkInfo 2 60 3 7 one_half 10 2) 4 false s).1 = true.
Proof.
  destruct (conn_exceptions_trip (mkInfo 2 60 3 7 one_half 10 2) [1; 2; 3] 4 breaker_new open_script)
    as [Ha (Hb & _)]; [reflexivity | reflexivity | reflexivity | by vm_compute | by vm_compute |].
  split; [|exact Hb]. rewrite Ha. by vm_compute.
Defined.

(** * Statistics *)

Section statistics.
Context (points : list Z).

(** The calls counted in the intervals. *)
Fixpoint total (l : list Z) (m : gmap Z Z) : Z :=
  match l with [] => 0 | p :: l' => default 0 (m !! p) + total l' m end.
(** The first interval a time falls into, if any. *)
Definition in_interval (time : Z) : bool := existsb (λ p, time <? p) points.

Lemma interv_other l time init found m p : p ∉ l → interv_loop l time init found m !! p = m !! p.
Proof.
  revert found m. induction l as [|q l IH]; intros found m Hp; [done |].
  apply not_elem_of_cons in Hp as [Hne Hp]. cbn. destruct (negb found && _), init; rewrite ?IH by done;
    by rewrite ?lookup_insert_ne by congruence.
Qed.

Lemma total_other l m m' : (∀ p, p ∈ l → m !! p = m' !! p) → total l m = total l m'.
Proof.
  induction l as [|q l IH]; intros Hm; [done |]. cbn. rewrite (Hm q) by apply list_elem_of_here.
  f_equal. apply IH. intros p Hp. apply Hm. by apply list_elem_of_further.
Qed.

Lemma total_insert_other l m p v : p ∉ l → total l (<[p := v]> m) = total l m.
Proof. intros Hp. apply total_other. intros q Hq. apply lookup_insert_ne. by intros ->. Qed.

(** [getIntervCount] counts one call, in the first interval that holds it. *)
Lemma interv_total l time init found m : NoDup l → (init = true → ∀ p, p ∈ l → m !! p = None) →
  total l (interv_loop l time init found m) =
  total l m + (if negb found && existsb (λ p, time <? p) l then 1 else 0).
Proof.
  intros Hn. revert found m. induction Hn as [|p l Hp Hn IH]; intros found m Hi; [cbn; by rewrite andb_false_r |].
  assert (Hi' : init = true → ∀ v q, q ∈ l → <[p := v]> m !! q = None).
  { intros E v q Hq. rewrite lookup_insert_ne by by intros ->. apply Hi; [done | by apply list_elem_of_further]. }
  cbn [interv_loop existsb total].
  destruct (negb found && (time <? p)) eqn:E; [apply andb_true_iff in E as [-> ->]; cbn [orb andb]|].
  - destruct init; cbn [negb andb].
    + rewrite interv_other, lookup_insert_eq, IH, total_insert_other by auto. cbn. lia.
    + rewrite lookup_insert_eq, total_insert_other by done. cbn. lia.
  - assert (Ex : negb found && ((time <? p) || existsb (λ p, time <? p) l) = negb found && existsb (λ p, time <? p) l)
      by (destruct found, (time <? p); done).
    rewrite interv_other, Ex by done. destruct init.
    + rewrite lookup_insert_eq, IH, total_insert_other by auto. rewrite (Hi eq_refl p) by apply list_elem_of_here. cbn. lia.
    + rewrite IH by done. lia.
Qed.

Lemma getIntervCount_total time b : NoDup points →
  total points (intervalCount (getIntervCount points time b)) =
  total points (intervalCount b) + (if in_interval time then 1 else 0).
Proof.
  intros Hn. unfold getIntervCount, in_interval. cbn [intervalCount]. rewrite interv_total; [done | done |].
  intros E p _. apply bool_decide_eq_true in E. by rewrite E.
Qed.

Lemma merge_total i o : NoDup points →
  total points (intervalCount (merge points i o)) =
  total points (intervalCount o) + (if in_interval (maxRspTime i) then 1 else 0).
Proof. intros Hn. unfold merge. by rewrite getIntervCount_total. Qed.
End statistics.

Section stat_run.
Context {B : Type} (C : config).
Implicit Types (m : ReqMessage B) (ms : list (ReqMessage B)).

(** The calls of a function, one after the other. *)
Definition stat_run (ms : list (ReqMessage B)) : option StatMicMsgBody :=
  foldl (λ o m, Some (add_body C (stat_body C m) o)) None ms.

(** The time a message counts with, and whether it counts at all. *)
Definition succeeded (m : ReqMessage B) : bool :=
  match eStatus m with REQ_RSP => ResponsePacket.iRet (response m) =? TARSSERVERSUCCESS C | _ => false end.
Definition rsp_time (m : ReqMessage B) : Z :=
  if succeeded m then if iBeginTime m <=? iEndTime m then iEndTime m - iBeginTime m else 10000 else 0.
Definition counts (f : ReqMessage B → bool) (ms : list (ReqMessage B)) : Z := zlen (List.filter f ms).
Definition sum_of (f : ReqMessage B → Z) (ms : list (ReqMessage B)) : Z := foldr (λ m n, f m + n) 0 ms.

Lemma stat_body_cases m :
  count (stat_body C m) = (if succeeded m then 1 else 0) ∧
  timeoutCount (stat_body C m) = (if bool_decide (eStatus m = REQ_TIME) then 1 else 0) ∧
  execCount (stat_body C m) = (if negb (succeeded m) && negb (bool_decide (eStatus m = REQ_TIME)) then 1 else 0) ∧
  totalRspTime (stat_body C m) = rsp_time m ∧ maxRspTime (stat_body C m) = rsp_time m ∧
  intervalCount (stat_body C m) = ∅.
Proof. unfold stat_body, rsp_time, succeeded. destruct (eStatus m); [done | | done..]. by destruct (_ =? _). Qed.

Lemma counts_snoc f ms m : counts f (ms ++ [m]) = counts f ms + (if f m then 1 else 0).
Proof. unfold counts. rewrite List.filter_app. cbn. destruct (f m); rewrite length_app; cbn [length]; lia. Qed.
Lemma sum_snoc f ms m : sum_of f (ms ++ [m]) = sum_of f ms + f m.
Proof. unfold sum_of. induction ms as [|m' ms IH]; cbn; [lia | rewrite IH; lia]. Qed.
Lemma total_empty l : total l ∅ = 0.
Proof. induction l as [|p l IH]; [done |]. cbn. by rewrite IH. Qed.

Lemma max_snoc l x : foldr Z.max 0 (l ++ [x]) = Z.max (foldr Z.max 0 l) (Z.max 0 x).
Proof. induction l as [|y l IH]; cbn; [lia | rewrite IH; lia]. Qed.
Lemma rsp_time_nonneg m : 0 ≤ rsp_time m.
Proof. unfold rsp_time. destruct (succeeded m); [|lia]. destruct (Z.leb_spec (iBeginTime m) (iEndTime m)); lia. Qed.

(** The first call merges into an empty body. *)
Lemma add_body_merge m o :
  add_body C (stat_body C m) o = merge (timePoint C) (stat_body C m) (default body_empty o).
Proof.
  destruct o as [b|]; [done |]. destruct (stat_body_cases m) as (_ & _ & _ & _ & Hmax & Hi).
  pose proof (rsp_time_nonneg m) as H0. rewrite <- Hmax in H0. unfold add_body, merge. f_equal.
  destruct (stat_body C m) as [c t e iv tot mx mn]. cbn in *. subst iv.
  destruct (Z.ltb_spec 0 mx); f_equal; lia.
Qed.

Lemma stat_run_snoc ms m :
  default body_empty (stat_run (ms ++ [m])) = merge (timePoint C) (stat_body C m) (default body_empty (stat_run ms)).
Proof. unfold stat_run. rewrite foldl_app. cbn [foldl]. by rewrite add_body_merge. Qed.

(** The statistics of a function add up: after any calls, each is counted once,
    as a success, a timeout or an exception; the total and the longest time are
    those of the successes; and the intervals hold every call but those as long as
    the last point. *)
Theorem statistics_add_up (ms : list (ReqMessage B)) (b : StatMicMsgBody) :
  NoDup (timePoint C) → stat_run ms = Some b →
  count b = counts succeeded ms ∧
  timeoutCount b = counts (λ m, bool_decide (eStatus m = REQ_TIME)) ms ∧
  count b + timeoutCount b + execCount b = zlen ms ∧
  totalRspTime b = sum_of rsp_time ms ∧
  maxRspTime b = foldr Z.max 0 (map rsp_time ms) ∧
  total (timePoint C) (intervalCount b) = counts (λ m, in_interval (timePoint C) (rsp_time m)) ms.
Proof.
  intros Hn Hb.
  assert (Hd : default body_empty (stat_run ms) = b) by by rewrite Hb. clear Hb. revert b Hd.
  induction ms as [|m ms IH] using rev_ind; intros b <-; [cbn; by rewrite total_empty |].
  specialize (IH _ eq_refl). rewrite stat_run_snoc. set (o := default body_empty (stat_run ms)) in *.
  destruct IH as (H1 & H2 & H3 & H4 & H5 & H6).
  destruct (stat_body_cases m) as (E1 & E2 & E3 & E4 & E5 & E6). pose proof (rsp_time_nonneg m).
  rewrite merge_total, !counts_snoc, sum_snoc, map_app, length_app by done. cbn [map length]. rewrite max_snoc.
  unfold merge. cbn [getIntervCount count timeoutCount execCount totalRspTime maxRspTime].
  rewrite E1, E2, E3, E4, E5, H1, H2, H4, H5, H6. rewrite H1, H2 in H3. cbv beta.
  split_and!; [done | done | | done | | done].
  - assert (Hs : succeeded m = true → eStatus m ≠ REQ_TIME) by (unfold succeeded; by destruct (eStatus m)).
    destruct (succeeded m), (bool_decide_reflect (eStatus m = REQ_TIME)); cbn [negb andb]; (lia || by destruct Hs).
  - destruct (Z.ltb_spec (foldr Z.max 0 (map rsp_time ms)) (rsp_time m)); lia.
Qed.
End stat_run.

(** Calls of 3, 7 and 500 milliseconds, and a timeout. *)
Definition answered_in (n : Z) : ReqMessage nat :=
  mkReqMessage REQ_RSP SYNC_CALL false RequestPacket.empty (sample_rsp 1) None 1000 (1000 + n) false false true true false.
Definition sample_answers : list (ReqMessage nat) :=
  [answered_in 3; answered_in 7; with_eStatus REQ_TIME (answered_in 0); answered_in 500].
Lemma statistics_add_up_witness :
  ∃ b, stat_run (sample_config 0 true) sample_answers = Some b ∧ count b = 3 ∧ timeoutCount b = 1 ∧
    totalRspTime b = 510 ∧ total [5; 10; 100] (intervalCount b) = 3.
Proof.
  destruct (stat_run (sample_config 0 true) sample_answers) as [b|] eqn:E; [|discriminate].
  destruct (statistics_add_up (sample_config 0 true) sample_answers b) as (H1 & H2 & _ & H4 & _ & H6);
    [by apply (bool_decide_unpack _); vm_compute | exact E |].
  exists b. split; [done |]. rewrite H1, H2, H4. split_and!; [done.. | exact H6].
Defined.

Section merge_stat.
Context {X B : Type} `{TX : Transceiver X B} (C : config).

Lemma msg_deref_eq p m (s : Adapter.t X B) : heap s !! p = Some m → deref p s = (Ok m, s).
Proof. intros E. unfold deref. by rewrite E. Qed.
Lemma msg_update_eq p f m (s : Adapter.t X B) : heap s !! p = Some m → update p f s = (Ok tt, upd p (f m) s).
Proof. intros E. unfold update. by rewrite (bind_Ok _ _ _ _ _ (msg_deref_eq p m s E)). Qed.

(** What collecting the statistics does to the intervals: when the body [i] of
    an adapter meets a body [o] under the same head, counts and times add up, but
    the intervals gain one call only, that of [i]'s longest time, however many calls
    [i] stands for. *)
Theorem merged_intervals (s : Adapter.t X B) name i o mStat :
  NoDup (timePoint C) → _statBody s = {[name := i]} → mStat !! name = Some o → count i ≠ 0 →
  ∃ b s', mergeStat C mStat s = (Ok (<[name := b]> mStat), s') ∧ _statBody s' = ∅ ∧
    count b = count o + count i ∧ timeoutCount b = timeoutCount o + timeoutCount i ∧
    execCount b = execCount o + execCount i ∧ totalRspTime b = totalRspTime o + totalRspTime i ∧
    maxRspTime b = Z.max (maxRspTime o) (maxRspTime i) ∧
    total (timePoint C) (intervalCount b) =
      total (timePoint C) (intervalCount o) + (if in_interval (timePoint C) (maxRspTime i) then 1 else 0).
Proof.
  intros Hn Es Em Hi. eexists (merge (timePoint C) i o), _. split.
  { unfold mergeStat, bind, get_st. rewrite Es, map_to_list_singleton. cbn [foldl].
    by rewrite (proj2 (Z.eqb_neq _ _) Hi), Em. }
  split_and!; try done; [|by apply merge_total].
  unfold merge. cbn. destruct (Z.ltb_spec (maxRspTime o) (maxRspTime i)); lia.
Qed.

(** The keep-alive of a serial connection stops the process: the ping is a
    one-way call, which [invoke_connection_serial] asserts it never gets. *)
Theorem keepalive_serial_aborts (s : Adapter.t X B) (nowms : Z) :
  0 < connection_serial C → _activeStatus (brk s) = true → tr_hasConnected (trans s) = true →
  _nextKeepAliveTime s ≤ nowms / 1000 →
  TimeoutQueue.getSendListSize (_timeoutQueue s) ≤ noSendQueueLimit C →
  (doKeepAlive C nowms s).1 = AssertFailed.
Proof.
  intros Hser Ha Hcon Hk Hq.
  assert (Hc : checkActive_m C nowms false s = (Ok true, s)).
  { assert (E : checkActive (timeout_info C) (nowms / 1000) false (brk s, trans s) = (true, (brk s, trans s))).
    { unfold checkActive. rewrite Ha. cbn [negb andb]. rewrite (tr_connected_valid _ Hcon). cbn [negb andb]. by rewrite Hcon. }
    unfold checkActive_m. rewrite (bind_Ok get_st _ s s s), E by done. by destruct s. }
  unfold doKeepAlive. rewrite (bind_Ok _ _ _ _ _ Hc). cbn [negb].
  rewrite (bind_Ok get_st _ s s s), (proj2 (Z.ltb_ge _ _) Hk) by done. erewrite bind_Ok by done.
  erewrite bind_Ok by done. cbn [next heap]. set (s1 := mk (<[_ := _]> _) _ _ _ _ _ _ _ _).
  assert (Hm : heap s1 !! next s = Some (ping_msg C nowms)) by apply lookup_insert_eq.
  assert (Hinv : (invoke C nowms (next s) s1).1 = AssertFailed).
  { unfold invoke. rewrite (bind_Ok get_st _ s1 s1 s1) by done. change (_timeoutQueue s1) with (_timeoutQueue s).
    rewrite (proj2 (Z.ltb_ge _ _) Hq), (proj2 (Z.ltb_lt _ _) Hser).
    rewrite (bind_Ok _ _ _ _ _ (msg_deref_eq _ _ _ Hm)). cbn [bFromRpc ping_msg negb].
    rewrite bind_assoc. erewrite bind_Ok by done. erewrite bind_Ok by (by apply msg_update_eq).
    unfold invoke_connection_serial. erewrite bind_Ok by (by apply msg_deref_eq, lookup_insert_eq). done. }
  unfold bind. destruct (invoke C nowms (next s) s1) as [r s2]. cbn [fst] in Hinv. by subst r.
Qed.
End merge_stat.

(** Two calls of 3 milliseconds meet one of 3 milliseconds: three calls, of which
    the intervals hold two. *)
Definition stat_of (l : list Z) : StatMicMsgBody :=
  default body_empty (stat_run (sample_config 0 true) (map answered_in l)).
Definition with_stat (b : StatMicMsgBody) : Adapter.t script nat :=
  mk ∅ 0 [] None TimeoutQueue.new breaker_new 0 {[ [70] := b ]} sample_script.
Lemma merged_intervals_witness : ∃ b s',
  mergeStat (sample_config 0 true) {[ [70] := stat_of [3] ]} (with_stat (stat_of [3; 3])) =
    (Ok (<[ [70] := b ]> {[ [70] := stat_of [3] ]}), s') ∧
  count b = 3 ∧ total [5; 10; 100] (intervalCount b) = 2.
Proof.
  destruct (merged_intervals (sample_config 0 true) (with_stat (stat_of [3; 3])) [70] (stat_of [3; 3]) (stat_of [3])
    {[ [70] := stat_of [3] ]}) as (b & s' & E & _ & Hc & _ & _ & _ & _ & Ht);
    [by apply (bool_decide_unpack _); vm_compute | reflexivity | by rewrite lookup_singleton_eq | by vm_compute |].
  exists b, s'. split; [exact E |]. split; [rewrite Hc; vm_compute; reflexivity |].
  change [5; 10; 100] with (timePoint (sample_config 0 true)). rewrite Ht. vm_compute. reflexivity.
Defined.

Lemma keepalive_serial_aborts_witness :
  (doKeepAlive (B := nat) (sample_config 1 false) 1000 (Adapter.new open_script)).1 = AssertFailed.
Proof.
  apply (keepalive_serial_aborts (sample_config 1 false) (Adapter.new open_script) 1000);
    [reflexivity | reflexivity | reflexivity | by vm_compute | by vm_compute].
Defined.

(** The connection breaks while the second request is sent. *)
Definition broken_state : Adapter.t script nat :=
  (run_calls (sample_config 0 false) [(1000, Invoke (sample_msg SYNC_CALL))]
     (Adapter.new (mkScript true true 0 [Some eRetOk; None]))).2.
Lemma send_error_loses_message_witness : ∃ s',
  run_call (sample_config 0 false) (1001, Invoke (sample_msg ASYNC_CALL)) broken_state = (Throw SendFailed, s') ∧
  map fst (completed s') = [] ∧ tr_isValid (trans s') = false.
Proof.
  destruct (send_error_loses_message (sample_config 0 false) 0 broken_state 1001 (sample_msg ASYNC_CALL)) as (s' & E & Ec & _).
  - eexists (mkScript true true 0 [Some eRetOk; None]), [(1000, Invoke (sample_msg SYNC_CALL))], _.
    split; [repeat constructor; by vm_compute |]. split; vm_compute; reflexivity.
  - split; [reflexivity |]. split; [discriminate | by vm_compute].
  - reflexivity.
  - vm_compute. reflexivity.
  - by vm_compute.
  - intros r. vm_compute. reflexivity.
  - exists s'. split; [exact E |]. rewrite Ec. split; [vm_compute; reflexivity |].
    vm_compute in E. injection E as <-. vm_compute. reflexivity.
Defined.
