(* ===== verification/Sender.v ===== *)
(** The sending side of a client's TCP connection: [connect], [checkConnect],
    [setConnected], [doAuthReq], [doRequest], [sendRequest] and [tcpClose] of
    [TC_Transceiver], with [TC_TCPTransceiver::send], from
    [src/util/src/tc_transceiver.cpp].  Connections through a proxy and SSL are
    not modelled.  The kernel is an interface; the state records what it was
    given. *)
From stdpp Require Import prelude gmap list.
From Stdlib Require Import ZArith Lia.
From S2P Require Import Prelude Bytes NetBuffer Transceiver AdapterProxy.

(** * The kernel *)

(** What [::send], [::connect] and [getsockopt(SO_ERROR)] answer. *)
Inductive send_result : Type := Sent (n : Z) | Pending | SendError.
Inductive connect_result : Type := ConnectDone | InProgress | ConnectError.

(** The socket calls, by the number of calls made before.  [::send] of some bytes
    takes some of them. *)
Class Kernel := {
  k_send : nat → list Z → send_result;
  k_connect : nat → connect_result;
  k_so_error : nat → bool;
  k_sent n bs k : bs ≠ [] → k_send n bs = Sent k → 0 < k ≤ zlen bs
}.

Inductive ConnectStatus : Type := eUnconnected | eConnecting | eConnected.
Inductive AUTH_STATUS : Type := eAuthInit | eAuthSucc.
#[export] Instance ConnectStatus_eq_dec : EqDecision ConnectStatus.
Proof. solve_decision. Defined.
#[export] Instance AUTH_STATUS_eq_dec : EqDecision AUTH_STATUS.
Proof. solve_decision. Defined.

Module Sender.
(** [valid] is [_fd != -1].  Behind the members come the state of the kernel, and
    history that no operation reads: what the kernel took on this connection
    ([wire]), the buffers put into the send buffer since it was opened
    ([accepted]), and the same of the connections before it ([past]). *)
Record t := mk {
  valid : bool;
  _connStatus : ConnectStatus;
  _authState : AUTH_STATUS;
  _isConnTimeout : bool;
  _sendBuffer : NetWorkBuffer.t;
  calls : nat;
  wire : list Z;
  accepted : list (list Z);
  past : list (list Z * list (list Z))
}.

Definition init (h : gmap nat Buffer.t) : t :=
  mk false eUnconnected eAuthInit false (NetWorkBuffer.mk h [] 0 None) 0 [] [] [].

Abbreviation M A := (prog t tx_error A).

Definition set_valid v : M unit := modify (λ x,
  mk v (_connStatus x) (_authState x) (_isConnTimeout x) (_sendBuffer x) (calls x) (wire x) (accepted x) (past x)).
Definition set_connStatus c : M unit := modify (λ x,
  mk (valid x) c (_authState x) (_isConnTimeout x) (_sendBuffer x) (calls x) (wire x) (accepted x) (past x)).
Definition set_authState a : M unit := modify (λ x,
  mk (valid x) (_connStatus x) a (_isConnTimeout x) (_sendBuffer x) (calls x) (wire x) (accepted x) (past x)).
Definition setIsConnTimeout (b : bool) : M unit := modify (λ x,
  mk (valid x) (_connStatus x) (_authState x) b (_sendBuffer x) (calls x) (wire x) (accepted x) (past x)).
Definition set_sendBuffer n : M unit := modify (λ x,
  mk (valid x) (_connStatus x) (_authState x) (_isConnTimeout x) n (calls x) (wire x) (accepted x) (past x)).
Definition count_call : M nat := λ x,
  (Ok (calls x), mk (valid x) (_connStatus x) (_authState x) (_isConnTimeout x) (_sendBuffer x) (S (calls x))
    (wire x) (accepted x) (past x)).
Definition taken bs : M unit := modify (λ x,
  mk (valid x) (_connStatus x) (_authState x) (_isConnTimeout x) (_sendBuffer x) (calls x) (wire x ++ bs)
    (accepted x) (past x)).
Definition accept bs : M unit := modify (λ x,
  mk (valid x) (_connStatus x) (_authState x) (_isConnTimeout x) (_sendBuffer x) (calls x) (wire x)
    (accepted x ++ [bs]) (past x)).

(** A call of the send buffer. *)
Definition on_buf {A} (m : NetWorkBuffer.M A) : M A := λ x,
  let '(o, n) := m (_sendBuffer x) in
  (match o with
   | Ok a => Ok a
   | Throw _ => Throw TC_Transceiver_Exception
   | OutOfBounds => OutOfBounds
   | AssertFailed => AssertFailed
   | NoFuel => NoFuel
   end, (set_sendBuffer n x).2).

Definition isValid (x : t) : bool := valid x.
Definition hasConnected (x : t) : bool := isValid x && bool_decide (_connStatus x = eConnected).
Definition isConnecting (x : t) : bool := isValid x && bool_decide (_connStatus x = eConnecting).

(** [tcpClose], up to the callback; the receive buffer is [Transceiver]'s. *)
Definition tcpClose : M unit := modify (λ x,
  if isValid x then
    mk false eUnconnected eAuthInit (_isConnTimeout x) (NetWorkBuffer.clearBuffers (_sendBuffer x)).2
      (calls x) [] [] (past x ++ [(wire x, accepted x)])
  else x).

Definition close : M unit := let* x := get_st in if isValid x then tcpClose else ret tt.

(** [THROW_ERROR]: the connection is closed while the exception leaves. *)
Definition THROW_ERROR {A} : M A := tcpClose ;;; throw TC_Transceiver_Exception.

Section kernel.
Context {K : Kernel}.

(** [TC_TCPTransceiver::send]. *)
Definition send (bs : list Z) : M Z :=
  let* x := get_st in
  if negb (bool_decide (_connStatus x = eConnected)) then ret (-1) else
  let* n := count_call in
  match k_send n bs with
  | Sent k => taken (take (Z.to_nat k) bs) ;;; ret k
  | Pending => ret (-1)
  | SendError => THROW_ERROR
  end.

(** The bytes behind the pointer [getBufferPointer] returns. *)
Definition pointed (data : option (nat * Z)) : M (list Z) :=
  match data with
  | Some (l, n) => on_buf (NetWorkBuffer.on l (Buffer.peek_bytes n))
  | None => ret []
  end.

(** The loop of [sendRequest]. *)
Fixpoint send_loop (fuel : nat) : M ReturnStatus :=
  match fuel with
  | O => λ x, (NoFuel, x)
  | S fuel' =>
    let* data := on_buf NetWorkBuffer.getBufferPointer in
    let* bs := pointed data in
    let* iRet := send bs in
    if iRet <? 0 then
      let* x := get_st in
      if negb (isValid x) then on_buf NetWorkBuffer.clearBuffers ;;; ret eRetError else ret eRetFull
    else
      on_buf (NetWorkBuffer.moveHeader iRet) ;;;
      let* x := get_st in
      if NetWorkBuffer.empty (_sendBuffer x) then ret eRetOk else send_loop fuel'
  end.

(** [sendRequest]; [AUTH] is [getAuthType() == AUTH_TYPELOCAL]. *)
Context (AUTH : bool).

Definition sendRequest (buff : nat) : M ReturnStatus :=
  let* e := on_buf (NetWorkBuffer.on buff Buffer.empty) in
  if (e : bool) then ret eRetOk else
  let* x := get_st in
  if negb (NetWorkBuffer.empty (_sendBuffer x)) then ret eRetNotSend else
  if negb (bool_decide (_connStatus x = eConnected)) then ret eRetNotSend else
  if AUTH && negb (bool_decide (_authState x = eAuthSucc)) then ret eRetNotSend else
  on_buf (NetWorkBuffer.addBuffer_shared buff) ;;;
  accept (NetWorkBuffer.buf_content (NetWorkBuffer.heap (_sendBuffer x)) buff) ;;;
  let* x := get_st in
  send_loop (S (Z.to_nat (NetWorkBuffer.getBufferLength (_sendBuffer x)))).

(** The loop of [doRequest]: whether it ran to its end. *)
Fixpoint request_loop (fuel : nat) : M bool :=
  match fuel with
  | O => λ x, (NoFuel, x)
  | S fuel' =>
    let* x := get_st in
    if NetWorkBuffer.empty (_sendBuffer x) then ret true else
    let* data := on_buf NetWorkBuffer.getBufferPointer in
    assert_that (match data with Some (_, n) => negb (n =? 0) | None => false end) ;;;
    let* bs := pointed data in
    let* iRet := send bs in
    if iRet <=? 0 then ret false else
    on_buf (NetWorkBuffer.moveHeader iRet) ;;; request_loop fuel'
  end.

Definition flush : M bool :=
  let* x := get_st in request_loop (S (Z.to_nat (NetWorkBuffer.getBufferLength (_sendBuffer x)))).

(** ** Operations that call back *)
Section callbacks.
(** The state [W] of the whole client holds the transceiver; [exn] is its
    exception for the transceiver's.  The callbacks are those the client
    registers: on a connection, when it may send, and for the authentication
    packet. *)
Context {W E : Type} (tr : W → t) (set_tr : t → W → W) (exn : E).
Context (onConnectCallback onRequestCallback : prog W E unit) (onClientSendAuthCallback : prog W E nat).

Definition on_tr {A} (m : M A) : prog W E A := λ s,
  let '(o, x) := m (tr s) in
  (match o with
   | Ok a => Ok a
   | Throw _ => Throw exn
   | OutOfBounds => OutOfBounds
   | AssertFailed => AssertFailed
   | NoFuel => NoFuel
   end, set_tr x s).

(** [doAuthReq]; it calls [doRequest], which may be its caller. *)
Definition doAuthReq (doRequest : prog W E unit) : prog W E unit :=
  if negb AUTH then on_tr (set_authState eAuthSucc) ;;; onRequestCallback
  else
    let* buff := onClientSendAuthCallback in
    on_tr (on_buf (NetWorkBuffer.addBuffer_shared buff) ;;;
           let* x := get_st in
           accept (NetWorkBuffer.buf_content (NetWorkBuffer.heap (_sendBuffer x)) buff)) ;;;
    doRequest.

(** [setConnected], [onSetConnected] and [onConnect] without a proxy. *)
Definition setConnected (doRequest : prog W E unit) : prog W E unit :=
  on_tr (set_connStatus eConnected) ;;; onConnectCallback ;;; doAuthReq doRequest.

Definition checkConnect (doRequest : prog W E unit) : prog W E unit :=
  let* s := get_st in
  if isConnecting (tr s) then
    let* n := on_tr count_call in
    if k_so_error n then on_tr THROW_ERROR else setConnected doRequest
  else ret tt.

(** [doRequest]; with authentication it calls itself once, on a connection that
    is no longer connecting. *)
Fixpoint doRequest_rec (fuel : nat) : prog W E unit :=
  match fuel with
  | O => λ s, (NoFuel, s)
  | S fuel' =>
    let* s := get_st in
    if negb (isValid (tr s)) then ret tt else
    checkConnect (doRequest_rec fuel') ;;;
    let* drained := on_tr flush in
    if (drained : bool) then
      let* s := get_st in
      if NetWorkBuffer.empty (_sendBuffer (tr s)) then onRequestCallback else ret tt
    else ret tt
  end.

Definition doRequest : prog W E unit := doRequest_rec 2.

(** [connect], for a TCP endpoint, without timers and socket options. *)
Definition connect : prog W E unit :=
  let* s := get_st in
  if isValid (tr s) then ret tt else
  if bool_decide (_connStatus (tr s) = eConnecting) || bool_decide (_connStatus (tr s) = eConnected)
  then ret tt else
  on_tr (set_valid true) ;;;
  on_tr (setIsConnTimeout false) ;;;
  let* n := on_tr count_call in
  match k_connect n with
  | ConnectDone => setConnected doRequest
  | InProgress => on_tr (set_connStatus eConnecting)
  | ConnectError => on_tr THROW_ERROR
  end.

(** [checkConnectTimeout], the timer's handler. *)
Definition checkConnectTimeout : prog W E unit :=
  let* s := get_st in
  if negb (bool_decide (_connStatus (tr s) = eConnected)) then
    on_tr (setIsConnTimeout true) ;;; on_tr THROW_ERROR
  else ret tt.

(** A new buffer of the client, as [requestFunc] makes one. *)
Definition make_buffer (b : Buffer.t) : M nat := λ x,
  let n := _sendBuffer x in
  let l := fresh (dom (NetWorkBuffer.heap n)) in
  (Ok l, (set_sendBuffer (NetWorkBuffer.mk (<[l := b]> (NetWorkBuffer.heap n)) (NetWorkBuffer._bufferList n)
           (NetWorkBuffer._length n) (NetWorkBuffer._defaultBuff n)) x).2).

(** What happens to a connection: the client asks for it, sends a packet in a new
    buffer or one it has, or closes it; the socket becomes writable; the timer
    expires. *)
Inductive event : Type := Connect | SendNew (b : Buffer.t) | SendOld (l : nat) | Close | Writable | Timer.

Definition handle (e : event) : prog W E unit :=
  match e with
  | Connect => connect
  | SendNew b => let* l := on_tr (make_buffer b) in on_tr (sendRequest l) ;;; ret tt
  | SendOld l =>
    let* s := get_st in
    match NetWorkBuffer.heap (_sendBuffer (tr s)) !! l with
    | Some _ => on_tr (sendRequest l) ;;; ret tt
    | None => ret tt
    end
  | Close => on_tr close
  | Writable => doRequest
  | Timer => checkConnectTimeout
  end.

(** The handlers' exceptions are caught and logged. *)
Fixpoint handle_all (es : list event) : prog W E unit :=
  match es with
  | [] => ret tt
  | e :: es' => try_catch (handle e) (λ _, ret tt) ;;; handle_all es'
  end.
End callbacks.

(** * What a connection sends *)

(** A buffer in the list has something to send; there is one at most. *)
Definition tight (n : NetWorkBuffer.t) : Prop :=
  NetWorkBuffer._bufferList n = [] ∨
  ∃ l b, NetWorkBuffer._bufferList n = [l] ∧ NetWorkBuffer.heap n !! l = Some b ∧ Buffer.content b ≠ [].

Definition pending (x : t) : list Z := NetWorkBuffer.abs (_sendBuffer x).

(** Every buffer of the client can be sent. *)
Definition good_heap (h : gmap nat Buffer.t) : Prop := map_Forall (λ _ b, NetWorkBuffer.good b) h.

Definition buf_inv (n : NetWorkBuffer.t) : Prop :=
  NetWorkBuffer.inv n ∧ tight n ∧ good_heap (NetWorkBuffer.heap n).

(** What the kernel took and what waits are together what was accepted, on this
    connection; of an earlier one the kernel took a part from the front. *)
Record inv (x : t) : Prop := {
  inv_buf : buf_inv (_sendBuffer x);
  inv_stream : wire x ++ pending x = concat (accepted x);
  inv_past : Forall (λ c, c.1 `prefix_of` concat c.2) (past x);
  inv_closed : valid x = false → _connStatus x = eUnconnected;
  inv_fresh : _connStatus x ≠ eConnected → accepted x = []
}.

(** [x'] is [x] after the kernel took some of the pending bytes. *)
Record sends (x x' : t) : Prop := {
  sends_buf : buf_inv (_sendBuffer x');
  sends_valid : valid x' = valid x;
  sends_status : _connStatus x' = _connStatus x;
  sends_auth : _authState x' = _authState x;
  sends_accepted : accepted x' = accepted x;
  sends_past : past x' = past x;
  sends_wire : ∃ bs, wire x' = wire x ++ bs ∧ pending x = bs ++ pending x';
  sends_dom : dom (NetWorkBuffer.heap (_sendBuffer x')) = dom (NetWorkBuffer.heap (_sendBuffer x));
  sends_list : NetWorkBuffer._bufferList (_sendBuffer x') = NetWorkBuffer._bufferList (_sendBuffer x) ∨
    NetWorkBuffer._bufferList (_sendBuffer x') = [];
  sends_others l : l ∉ NetWorkBuffer._bufferList (_sendBuffer x) →
    NetWorkBuffer.heap (_sendBuffer x') !! l = NetWorkBuffer.heap (_sendBuffer x) !! l;
  sends_front l : NetWorkBuffer._bufferList (_sendBuffer x) = [l] →
    NetWorkBuffer.buf_content (NetWorkBuffer.heap (_sendBuffer x')) l = pending x'
}.

Definition closed (x : t) : t := (tcpClose x).2.

Lemma front n : buf_inv n → NetWorkBuffer.abs n ≠ [] →
  ∃ l b, NetWorkBuffer._bufferList n = [l] ∧ NetWorkBuffer.heap n !! l = Some b ∧
    Buffer.content b = NetWorkBuffer.abs n ∧ NetWorkBuffer.good b.
Proof.
  intros (Hi & Ht & Hg) Hne. unfold NetWorkBuffer.abs in *. destruct Ht as [E | (l & b & E & El & Hb)].
  - by rewrite E in Hne.
  - exists l, b. rewrite E, (NetWorkBuffer.contents_cons _ _ _ _ El). cbn. rewrite app_nil_r.
    split_and!; [done.. | by eapply Hg].
Qed.

Lemma send_empty_spec n : buf_inv n → NetWorkBuffer.empty n = bool_decide (NetWorkBuffer.abs n = []).
Proof.
  intros ((_ & _ & _ & El & _) & _). unfold NetWorkBuffer.empty. rewrite El.
  apply eq_true_iff_eq. rewrite Z.eqb_eq, bool_decide_eq_true, <- length_zero_iff_nil. lia.
Qed.

(** The pointer and the bytes behind it. *)
Lemma pointer_spec x l b : buf_inv (_sendBuffer x) → NetWorkBuffer._bufferList (_sendBuffer x) = [l] →
  NetWorkBuffer.heap (_sendBuffer x) !! l = Some b → Buffer.content b = pending x → pending x ≠ [] →
  on_buf NetWorkBuffer.getBufferPointer x = (Ok (Some (l, zlen (pending x))), x) ∧
  pointed (Some (l, zlen (pending x))) x = (Ok (pending x), x).
Proof.
  intros Hb El Eb Ec Hne. destruct (NetWorkBuffer.good_left b) as [Elen _]; [by eapply Hb |].
  assert (Hwf : Buffer.wf b) by (eapply Hb; done).
  split.
  - unfold on_buf, NetWorkBuffer.getBufferPointer, bind, get_st. rewrite (send_empty_spec _ Hb).
    rewrite bool_decide_eq_false_2 by done. rewrite El, (NetWorkBuffer.deref_eq _ _ _ Eb), Elen, Ec.
    by destruct x.
  - pose proof (Buffer.peek_all b Hwf) as Ep. rewrite Elen, Ec in Ep.
    unfold pointed, on_buf. rewrite (NetWorkBuffer.on_same _ _ _ _ _ Eb Ep). by destruct x.
Qed.

(** [moveHeader] after the kernel took [k] bytes. *)
Lemma move_spec n l b k : buf_inv n → NetWorkBuffer._bufferList n = [l] →
  NetWorkBuffer.heap n !! l = Some b → Buffer.content b = NetWorkBuffer.abs n →
  0 < k ≤ zlen (NetWorkBuffer.abs n) →
  ∃ b' ls, NetWorkBuffer.moveHeader k n = (Ok true,
      NetWorkBuffer.mk (<[l := b']> (NetWorkBuffer.heap n)) ls (NetWorkBuffer._length n - k) (NetWorkBuffer._defaultBuff n)) ∧
    buf_inv (NetWorkBuffer.mk (<[l := b']> (NetWorkBuffer.heap n)) ls (NetWorkBuffer._length n - k) (NetWorkBuffer._defaultBuff n)) ∧
    NetWorkBuffer.abs (NetWorkBuffer.mk (<[l := b']> (NetWorkBuffer.heap n)) ls (NetWorkBuffer._length n - k) (NetWorkBuffer._defaultBuff n))
      = drop (Z.to_nat k) (NetWorkBuffer.abs n) ∧
    Buffer.content b' = drop (Z.to_nat k) (NetWorkBuffer.abs n) ∧
    (drop (Z.to_nat k) (NetWorkBuffer.abs n) ≠ [] → ls = [l]) ∧ (ls = [l] ∨ ls = []).
Proof.
  intros (Hi & _ & Hg) El Eb Ec Hk. pose proof (Hg _ _ Eb) as Hb.
  pose proof Hi as (_ & _ & _ & Elen & _). destruct (NetWorkBuffer.good_left b Hb) as [Ebl Hb32].
  destruct (Buffer.addReadIdx_spec k b (proj1 Hb)) as [(_ & b' & E' & Hwf' & Ec' & Hn' & Ecap')|[? _]];
    [rewrite Ec in Hb32; lia | | rewrite Ec in *; lia].
  assert (Hb' : NetWorkBuffer.good b') by (destruct Hb as (? & ? & ?); split_and!; (done || congruence)).
  set (ls := if k <? zlen (NetWorkBuffer.abs n) then [l] else []). exists b', ls. rewrite Ec in *.
  assert (Els : drop (Z.to_nat k) (NetWorkBuffer.abs n) ≠ [] → ls = [l]).
  { intros Hne. unfold ls. destruct (Z.ltb_spec k (zlen (NetWorkBuffer.abs n))); [done |].
    by rewrite drop_ge in Hne by lia. }
  destruct (NetWorkBuffer.inv_front n l [] b b' k ls Hi El Eb Hb') as [Hi' Ha']; [by rewrite Ec; lia | by rewrite Ec | |].
  { unfold ls. destruct (Z.ltb_spec k (zlen (NetWorkBuffer.abs n))); [by left | right; rewrite Ec; split; [done | lia]]. }
  assert (Hg' : good_heap (<[l := b']> (NetWorkBuffer.heap n))) by (by apply map_Forall_insert_2).
  assert (Hls : ls = [l] ∨ ls = []) by (unfold ls; destruct (_ <? _); auto).
  split; [|split_and!; try done].
  - unfold NetWorkBuffer.moveHeader, bind at 1, get_st. rewrite El. cbn [NetWorkBuffer.moveHeader_loop Datatypes.length].
    unfold bind at 1, get_st, NetWorkBuffer.getBufferLength. rewrite Elen, El.
    rewrite (proj2 (Z.ltb_ge _ k)), (proj2 (Z.eqb_neq _ 0)) by lia.
    rewrite (bind_Ok _ _ _ _ _ (NetWorkBuffer.deref_eq _ _ _ Eb)), Ebl. cbv zeta. unfold ls.
    destruct (Z.ltb_spec k (zlen (NetWorkBuffer.abs n))) as [Hlt|Hge].
    + rewrite (bind_Ok _ _ _ _ _ (NetWorkBuffer.on_eq _ _ _ _ _ _ Eb E')), El, Elen. done.
    + rewrite (proj2 (Z.eqb_eq _ k)) by lia.
      rewrite (bind_Ok _ _ _ _ _ (NetWorkBuffer.on_eq _ _ _ _ _ _ Eb E')), El, Elen. done.
  - split; [done | split; [|done]].
    destruct (decide (drop (Z.to_nat k) (NetWorkBuffer.abs n) = [])) as [Ed|Hne].
    + left. cbn. unfold ls. destruct (Z.ltb_spec k (zlen (NetWorkBuffer.abs n))); [|done].
      apply (f_equal Datatypes.length) in Ed. rewrite length_drop in Ed. cbn in Ed. lia.
    + right. exists l, b'. cbn. rewrite lookup_insert_eq, Ec', Els by done. done.
Qed.

(** [::send] of some bytes on an open connection. *)
Definition counted (x : t) : t := (count_call x).2.

Lemma runs_send x bs (Q : Z → t → Prop) (R : tx_error → t → Prop) :
  _connStatus x = eConnected → bs ≠ [] →
  Q (-1) (counted x) →
  (∀ k, 0 < k ≤ zlen bs → Q k (taken (take (Z.to_nat k) bs) (counted x)).2) →
  R TC_Transceiver_Exception (closed (counted x)) →
  runs (send bs) x Q R.
Proof.
  intros Hc Hne HQ Hk HR. unfold send. apply runs_bind, runs_get. rewrite Hc. cbn [negb bool_decide].
  apply runs_bind. eapply runs_Ok; [reflexivity |]. destruct (k_send (calls x) bs) as [k| |] eqn:Ek.
  - apply runs_bind. eapply runs_Ok; [reflexivity |]. apply runs_ret, Hk. by eapply k_sent.
  - by apply runs_ret.
  - apply runs_bind. eapply runs_Ok; [reflexivity |]. by apply runs_throw.
Qed.

Lemma sends_refl x : buf_inv (_sendBuffer x) → sends x x.
Proof.
  intros Hb. split; [done.. | exists []; by rewrite app_nil_r | done | by left | done |].
  intros l El. unfold pending, NetWorkBuffer.abs. rewrite El. cbn. by rewrite app_nil_r.
Qed.

Lemma sends_trans x y z : sends x y → sends y z → sends x z.
Proof.
  intros [? ? ? ? ? ? (bs & Ew & Ep) ? Hl Ho Hf] [? ? ? ? ? ? (bs' & Ew' & Ep') ? Hl' Ho' Hf'].
  assert (Hy : NetWorkBuffer._bufferList (_sendBuffer y) = [] → pending y = []).
  { intros E. unfold pending, NetWorkBuffer.abs. by rewrite E. }
  split; [done | congruence.. | | congruence | | |].
  - exists (bs ++ bs'). by rewrite Ew', Ew, Ep, Ep', !app_assoc.
  - destruct Hl as [E|E]; destruct Hl' as [E'|E']; rewrite ?E', ?E; auto.
  - intros l Hn. rewrite Ho', Ho; [done | done |]. destruct Hl as [-> | ->]; [done | by apply not_elem_of_nil].
  - intros l El. destruct Hl as [E|E]; [apply Hf'; congruence |].
    specialize (Hy E). rewrite Hy in Ep'. symmetry in Ep'. apply app_eq_nil in Ep' as [_ ->].
    unfold NetWorkBuffer.buf_content. rewrite Ho' by (rewrite E; apply not_elem_of_nil).
    specialize (Hf l El). by rewrite Hy in Hf.
Qed.

Definition advanced (x : t) (k : Z) n : t :=
  (set_sendBuffer n (taken (take (Z.to_nat k) (pending x)) (counted x)).2).2.

(** One round of either loop, when there is something to send: the kernel takes
    nothing, or some bytes, or fails. *)
Lemma runs_round x : buf_inv (_sendBuffer x) → pending x ≠ [] → _connStatus x = eConnected →
  ∃ l, on_buf NetWorkBuffer.getBufferPointer x = (Ok (Some (l, zlen (pending x))), x) ∧
    ∀ A (Q : A → t → Prop) (R : tx_error → t → Prop) (k : Z → M A),
    runs (k (-1)) (counted x) Q R →
    (∀ n m, 0 < n ≤ zlen (pending x) → sends x (advanced x n m) →
       pending (advanced x n m) = drop (Z.to_nat n) (pending x) →
       on_buf (NetWorkBuffer.moveHeader n) (taken (take (Z.to_nat n) (pending x)) (counted x)).2 = (Ok true, advanced x n m) →
       runs (k n) (taken (take (Z.to_nat n) (pending x)) (counted x)).2 Q R) →
    R TC_Transceiver_Exception (closed (counted x)) →
    runs (let* bs := pointed (Some (l, zlen (pending x))) in let* iRet := send bs in k iRet) x Q R.
Proof.
  intros Hb Hne Hc. destruct (front _ Hb Hne) as (l & b & El & Eb & Ec & _).
  destruct (pointer_spec x l b Hb El Eb Ec Hne) as [Ep Ebs]. exists l. split; [done |].
  intros A Q R k HQ Hk HR. apply runs_bind. eapply runs_Ok; [exact Ebs |]. apply runs_bind, runs_send; [done.. | | done].
  intros n Hn. destruct (move_spec _ l b n Hb El Eb Ec Hn) as (b' & ls & Em & Hb' & Ea & Ec' & _ & Hls).
  set (m := NetWorkBuffer.mk _ _ _ _) in *. apply (Hk n m Hn).
  - split; try done; cbn.
    + exists (take (Z.to_nat n) (pending x)). split; [done |].
      etransitivity; [symmetry; apply (take_drop (Z.to_nat n)) |]. f_equal. symmetry. exact Ea.
    + rewrite dom_insert_L. apply elem_of_dom_2 in Eb. set_solver.
    + by rewrite El.
    + intros l' Hl'. rewrite lookup_insert_ne; [done |]. intros <-. rewrite El in Hl'. set_solver.
    + intros l' El'. assert (l' = l) as -> by congruence. unfold NetWorkBuffer.buf_content.
      rewrite lookup_insert_eq, Ec'. symmetry. exact Ea.
  - exact Ea.
  - unfold on_buf. change (_sendBuffer (taken _ _).2) with (_sendBuffer x). rewrite Em. done.
Qed.
Lemma sends_counted x : buf_inv (_sendBuffer x) → sends x (counted x).
Proof. intros Hb. destruct (sends_refl x Hb). by split. Qed.

(** A connection the kernel broke while some bytes were left. *)
Definition broken (x : t) (e : tx_error) (x' : t) : Prop :=
  ∃ y, sends x y ∧ pending y ≠ [] ∧ x' = closed y.

Lemma broken_sends x y e z : sends x y → broken y e z → broken x e z.
Proof. intros H (w & Hw & ? & ->). exists w. split_and!; [by eapply sends_trans | done | done]. Qed.

(** Applies [runs_round] to the loop's own continuation. *)
Ltac round H :=
  cbv beta;
  lazymatch goal with
  | |- runs (bind _ (fun bs => bind _ (@?k bs))) _ _ _ =>
    let k' := eval cbv beta in (k []) in apply (H _ _ _ k')
  end.

Lemma send_loop_spec fuel x :
  buf_inv (_sendBuffer x) → pending x ≠ [] → _connStatus x = eConnected → valid x = true →
  (length (pending x) < fuel)%nat →
  runs (send_loop fuel) x
    (λ r x', sends x x' ∧ (r = eRetOk ∧ pending x' = [] ∨ r = eRetFull ∧ pending x' ≠ [])) (broken x).
Proof.
  revert x. induction fuel as [|fuel IH]; intros x Hb Hne Hc Hv Hf; [lia |]. cbn [send_loop].
  destruct (runs_round x Hb Hne Hc) as (l & E & H). apply runs_bind. eapply runs_Ok; [exact E |]. round H.
  - apply runs_bind, runs_get. change (isValid (counted x)) with (valid x). rewrite Hv. apply runs_ret.
    split; [by apply sends_counted | by right].
  - intros n m Hn Hs Ep Em. cbn beta. rewrite (proj2 (Z.ltb_ge n 0)) by lia.
    apply runs_bind. eapply runs_Ok; [exact Em |]. apply runs_bind, runs_get.
    rewrite send_empty_spec by apply Hs. change (NetWorkBuffer.abs _) with (pending (advanced x n m)).
    case_bool_decide as He; [by apply runs_ret; split; [|left] |].
    assert (Hlen : (length (pending (advanced x n m)) < length (pending x))%nat) by (rewrite Ep, length_drop; lia).
    specialize (IH (advanced x n m) (sends_buf _ _ Hs) He). unfold runs in *.
    specialize (IH Hc Hv ltac:(lia)). destruct (send_loop fuel (advanced x n m)) as [[r|e| | |] x']; try done.
    + destruct IH as [Hs' Hr]. split; [by eapply sends_trans | done].
    + by eapply broken_sends.
  - exists (counted x). split_and!; [by apply sends_counted | done | done].
Qed.

Lemma request_loop_spec fuel x :
  buf_inv (_sendBuffer x) → (pending x ≠ [] → _connStatus x = eConnected) → (length (pending x) < fuel)%nat →
  runs (request_loop fuel) x (λ r x', sends x x' ∧ (r = true ↔ pending x' = [])) (broken x).
Proof.
  revert x. induction fuel as [|fuel IH]; intros x Hb Hc Hf; [lia |]. cbn [request_loop].
  apply runs_bind, runs_get. rewrite send_empty_spec by done.
  change (NetWorkBuffer.abs _) with (pending x). case_bool_decide as He.
  { apply runs_ret. split; [by apply sends_refl | done]. }
  specialize (Hc He). destruct (runs_round x Hb He Hc) as (l & E & H).
  apply runs_bind. eapply runs_Ok; [exact E |]. apply runs_bind, runs_assert; [|round H].
  { cbn. apply negb_true_iff, Z.eqb_neq. destruct (pending x); [done | cbn; lia]. }
  - apply runs_ret. split; [by apply sends_counted | done].
  - intros n m Hn Hs Ep Em. cbn beta. rewrite (proj2 (Z.leb_gt n 0)) by lia.
    apply runs_bind. eapply runs_Ok; [exact Em |].
    assert (Hlen : (length (pending (advanced x n m)) < length (pending x))%nat) by (rewrite Ep, length_drop; lia).
    specialize (IH (advanced x n m) (sends_buf _ _ Hs) (λ _, Hc) ltac:(lia)). unfold runs in *.
    destruct (request_loop fuel (advanced x n m)) as [[r|e| | |] x']; try done.
    + destruct IH as [Hs' Hr]. split; [by eapply sends_trans | done].
    + by eapply broken_sends.
  - exists (counted x). split_and!; [by apply sends_counted | done | done].
Qed.

Lemma flush_spec x : buf_inv (_sendBuffer x) → (pending x ≠ [] → _connStatus x = eConnected) →
  runs flush x (λ r x', sends x x' ∧ (r = true ↔ pending x' = [])) (broken x).
Proof.
  intros Hb Hc. unfold flush. apply runs_bind, runs_get. apply request_loop_spec; [done.. |].
  unfold NetWorkBuffer.getBufferLength. pose proof Hb as ((_ & _ & _ & -> & _) & _). unfold pending. lia.
Qed.
Lemma sends_inv x x' : inv x → sends x x' → inv x'.
Proof.
  intros [Hb Hst Hp Hc Hf] [Hb' Ev Es _ Ea Ep (bs & Ew & Epd) _ _ _ _].
  split; rewrite ?Ev, ?Es, ?Ea, ?Ep; try done. by rewrite Ew, <- app_assoc, <- Epd.
Qed.

Lemma buf_inv_clear n : buf_inv n → buf_inv (NetWorkBuffer.clearBuffers n).2.
Proof.
  intros ((_ & _ & Hd & _ & _) & _ & Hg). split_and!; [|by left | done].
  split_and!; cbn; [constructor | constructor | exact Hd | done | done].
Qed.

Lemma closed_inv x : inv x → inv (closed x).
Proof.
  intros Hx. pose proof Hx as [Hb Hst Hp Hc Hf]. unfold closed, tcpClose, modify; cbn [snd]. unfold isValid.
  destruct (valid x); [|done]. split; cbn; [by apply buf_inv_clear | done | | done | done].
  apply Forall_app; split; [done |]. repeat constructor. cbn. exists (pending x). by rewrite Hst.
Qed.

Lemma inv_valid x : inv x → _connStatus x = eConnected → valid x = true.
Proof. intros [] Hc. destruct (valid x); [done |]. by rewrite inv_closed0 in Hc. Qed.

Lemma inv_idle x : inv x → _connStatus x ≠ eConnected → wire x = [] ∧ pending x = [].
Proof. intros [] Hc. rewrite inv_fresh0 in inv_stream0 by done. by apply app_eq_nil. Qed.

(** A buffer of the client joins an empty send list. *)
Lemma add_spec x l b : inv x → pending x = [] → _connStatus x = eConnected →
  NetWorkBuffer.heap (_sendBuffer x) !! l = Some b → Buffer.content b ≠ [] →
  ∃ x', (on_buf (NetWorkBuffer.addBuffer_shared l) ;;; accept (Buffer.content b)) x = (Ok tt, x') ∧ inv x' ∧
    pending x' = Buffer.content b ∧ NetWorkBuffer._bufferList (_sendBuffer x') = [l] ∧
    NetWorkBuffer.heap (_sendBuffer x') = NetWorkBuffer.heap (_sendBuffer x) ∧
    accepted x' = accepted x ++ [Buffer.content b] ∧ past x' = past x ∧ wire x' = wire x ∧
    _connStatus x' = eConnected ∧ _authState x' = _authState x.
Proof.
  intros Hx Ep Hc Eb Hne. pose proof Hx as [(Hi & Ht & Hg) Hst Hp Hcl Hf].
  assert (El : NetWorkBuffer._bufferList (_sendBuffer x) = []).
  { destruct Ht as [?|(l' & b' & El & Eb' & Hne')]; [done |]. destruct Hne'.
    unfold pending, NetWorkBuffer.abs in Ep. rewrite El, (NetWorkBuffer.contents_cons _ _ _ _ Eb') in Ep.
    by apply app_eq_nil in Ep as [? _]. }
  pose proof (Hg _ _ Eb) as Hb. destruct (NetWorkBuffer.good_left b Hb) as [Elen Hb32].
  destruct (NetWorkBuffer.inv_push (_sendBuffer x) l b (NetWorkBuffer._defaultBuff (_sendBuffer x)) Hi) as [Hi' Ha'];
    [rewrite El; apply not_elem_of_nil | done | by left | unfold pending in Ep; rewrite Ep; cbn; lia |].
  unfold pending in Ep. rewrite insert_id, El, Ep in * by done. cbn [app] in *. set (n := NetWorkBuffer.mk _ _ _ _) in *.
  assert (Eadd : NetWorkBuffer.addBuffer_shared l (_sendBuffer x) = (Ok tt, n)).
  { unfold NetWorkBuffer.addBuffer_shared.
    rewrite (bind_Ok _ _ _ _ _ (NetWorkBuffer.empty_eq _ _ _ Eb (proj1 Hb))).
    rewrite bool_decide_eq_false_2 by done. cbv beta iota.
    unfold bind, get_st, NetWorkBuffer.set_list, NetWorkBuffer.deref, NetWorkBuffer.set_length, modify.
    cbn [NetWorkBuffer.heap NetWorkBuffer._bufferList NetWorkBuffer._length NetWorkBuffer._defaultBuff].
    rewrite Eb, Elen, El. pose proof Hi as (_ & _ & _ & -> & _). rewrite Ep.
    rewrite wrapU_id by (unfold in_U; cbn; lia). unfold n. pose proof Hi as (_ & _ & _ & -> & _). by rewrite Ep. }
  eexists. split; [unfold on_buf, bind; rewrite Eadd; reflexivity |]. cbn. split_and!; try done.
  split; cbn; [split_and!; [done | right; by exists l, b | done] | | done | done | by rewrite Hc].
  transitivity (wire x ++ NetWorkBuffer.abs n); [done |]. rewrite Ha', concat_app, <- Hst. unfold pending. rewrite Ep. cbn. by rewrite !app_nil_r.
Qed.
Definition buf (x : t) (l : nat) : list Z := NetWorkBuffer.buf_content (NetWorkBuffer.heap (_sendBuffer x)) l.

(** How [sendRequest] ends: the buffer was empty; it was accepted, and all of it
    or a part has been sent; it was refused, and nothing has changed. *)
Definition send_outcome (x : t) (l : nat) (r : ReturnStatus) (x' : t) : Prop :=
  match r with
  | eRetOk => buf x l = [] ∧ x' = x ∨
      accepted x' = accepted x ++ [buf x l] ∧ pending x' = [] ∧ past x' = past x
  | eRetFull => accepted x' = accepted x ++ [buf x l] ∧ pending x' ≠ [] ∧ past x' = past x ∧ buf x' l = pending x'
  | eRetNotSend => buf x l ≠ [] ∧ x' = x ∧
      (pending x ≠ [] ∨ hasConnected x = false ∨ AUTH = true ∧ _authState x ≠ eAuthSucc)
  | eRetError => False
  end.

(** Or by an exception: the connection is closed, and of the buffer only what was
    not sent is left. *)
Definition send_failed (x : t) (l : nat) (x' : t) : Prop :=
  ∃ sent rest, buf x l = sent ++ rest ∧ rest ≠ [] ∧ buf x' l = rest ∧ isValid x' = false ∧
    past x' = past x ++ [(wire x ++ sent, accepted x ++ [buf x l])].

Abbreviation same_dom x x' :=
  (dom (NetWorkBuffer.heap (_sendBuffer x')) = dom (NetWorkBuffer.heap (_sendBuffer x))).

(** The loop, once the buffer is in the list. *)
Lemma send_accepted x l b : inv x → pending x = [] → _connStatus x = eConnected →
  NetWorkBuffer.heap (_sendBuffer x) !! l = Some b → Buffer.content b ≠ [] →
  runs (on_buf (NetWorkBuffer.addBuffer_shared l) ;;; accept (buf x l) ;;;
        let* x := get_st in send_loop (S (Z.to_nat (NetWorkBuffer.getBufferLength (_sendBuffer x))))) x
    (λ r x', inv x' ∧ same_dom x x' ∧ send_outcome x l r x')
    (λ _ x', inv x' ∧ same_dom x x' ∧ send_failed x l x').
Proof.
  intros Hx Hp Hc Eb Hne.
  assert (Ebuf : buf x l = Buffer.content b) by (unfold buf, NetWorkBuffer.buf_content; by rewrite Eb).
  destruct (add_spec x l b Hx Hp Hc Eb Hne) as (x1 & E1 & Hx1 & Ep1 & El1 & Eh1 & Ea1 & Ept1 & Ew1 & Ec1 & _).
  rewrite <- Ebuf in *. unfold runs. rewrite <- bind_assoc, (bind_Ok _ _ _ _ _ E1).
  pose proof (inv_valid _ Hx1 Ec1) as Hv1. pose proof (inv_buf _ Hx1) as ((_ & _ & _ & Elen & _) & _).
  pose proof (send_loop_spec (S (Z.to_nat (NetWorkBuffer.getBufferLength (_sendBuffer x1)))) x1 (inv_buf _ Hx1)) as Hloop.
  rewrite Ep1 in Hloop. specialize (Hloop Hne Ec1 Hv1). unfold NetWorkBuffer.getBufferLength in Hloop.
  rewrite Elen in Hloop. unfold pending in Ep1. rewrite Ep1 in Hloop. specialize (Hloop ltac:(lia)).
  unfold runs, bind, get_st, NetWorkBuffer.getBufferLength in *. rewrite Elen, Ep1.
  destruct (send_loop _ x1) as [[r|e| | |] x2]; try done.
  - destruct Hloop as [Hs Hr]. split; [by eapply sends_inv |]. split; [rewrite (sends_dom _ _ Hs); by rewrite Eh1 |].
    pose proof (sends_accepted _ _ Hs) as Ea2. pose proof (sends_past _ _ Hs) as Epa2.
    destruct Hr as [[-> Ep2]|[-> Ep2]]; cbn; [right | pose proof (sends_front _ _ Hs l El1)]; by rewrite Ea2, Epa2, Ea1, Ept1.
  - destruct Hloop as (y & Hs & Hpy & ->). pose proof (sends_inv _ _ Hx1 Hs) as Hy.
    pose proof (sends_valid _ _ Hs) as Hvy. rewrite Hv1 in Hvy.
    assert (Ecl : closed y = mk false eUnconnected eAuthInit (_isConnTimeout y)
      (NetWorkBuffer.clearBuffers (_sendBuffer y)).2 (calls y) [] [] (past y ++ [(wire y, accepted y)])).
    { unfold closed, tcpClose, modify, isValid; cbn [snd]. by rewrite Hvy. }
    split; [by apply closed_inv |]. rewrite Ecl. split; [cbn; rewrite (sends_dom _ _ Hs); by rewrite Eh1 |].
    destruct (sends_wire _ _ Hs) as (sent & Ew & Epd). exists sent, (pending y).
    pose proof (sends_front _ _ Hs l El1) as Ef. unfold pending at 1 in Epd. rewrite Ep1 in Epd.
    split; [done |]. split; [done |]. split; [exact Ef |]. split; [done |]. cbn.
    by rewrite (sends_past _ _ Hs), (sends_accepted _ _ Hs), Ew, Ept1, Ea1, Ew1.
Qed.

Lemma sendRequest_spec x l : inv x → is_Some (NetWorkBuffer.heap (_sendBuffer x) !! l) →
  runs (sendRequest l) x
    (λ r x', inv x' ∧ same_dom x x' ∧ send_outcome x l r x')
    (λ _ x', inv x' ∧ same_dom x x' ∧ send_failed x l x').
Proof.
  intros Hx [b Eb]. pose proof Hx as [Hbuf _ _ Hcl _]. pose proof Hbuf as (Hi & _ & Hg).
  assert (Ebuf : buf x l = Buffer.content b) by (unfold buf, NetWorkBuffer.buf_content; by rewrite Eb).
  assert (Ee : on_buf (NetWorkBuffer.on l Buffer.empty) x = (Ok (bool_decide (buf x l = [])), x)).
  { unfold on_buf. rewrite (NetWorkBuffer.empty_eq _ _ _ Eb), Ebuf by (eapply Hg; done). by destruct x. }
  assert (Href : buf x l ≠ [] → (pending x ≠ [] ∨ hasConnected x = false ∨ AUTH = true ∧ _authState x ≠ eAuthSucc) →
    inv x ∧ same_dom x x ∧ send_outcome x l eRetNotSend x) by (intros; by cbn).
  unfold sendRequest. apply runs_bind. eapply runs_Ok; [exact Ee |]. case_bool_decide as He.
  { apply runs_ret. split; [done |]. split; [done | by left]. }
  apply runs_bind, runs_get. rewrite send_empty_spec by done. change (NetWorkBuffer.abs _) with (pending x).
  case_bool_decide as Hp; cbn [negb]; [|apply runs_ret, Href; [done | by left]].
  case_bool_decide as Hc; cbn [negb].
  2: { apply runs_ret, Href; [done |]. right. left. unfold hasConnected.
       by rewrite (bool_decide_eq_false_2 _ Hc), andb_false_r. }
  destruct (AUTH && _) eqn:Ha; [|by apply (send_accepted x l b); [.. | rewrite <- Ebuf]].
  apply andb_true_iff in Ha as [Ha Ha'%negb_true_iff]. apply bool_decide_eq_false in Ha'.
  apply runs_ret, Href; [done |]. by right; right.
Qed.

(** ** With callbacks *)
Section with_callbacks.
Context {W E : Type} (tr : W → t) (set_tr : t → W → W) (exn : E).
Context (onConnectCallback onRequestCallback : prog W E unit) (onClientSendAuthCallback : prog W E nat).

(** What the callbacks may do: use the transceiver through its operations, but not
    before it is authenticated; make the authentication packet. *)
Record callbacks_ok : Prop := {
  cb_lens x w : tr (set_tr x w) = x;
  cb_connect w : inv (tr w) → runs onConnectCallback w
    (λ _ w', inv (tr w') ∧ (AUTH = true → tr w' = tr w)) (λ _ w', inv (tr w'));
  cb_request w : inv (tr w) → runs onRequestCallback w (λ _ w', inv (tr w')) (λ _ w', inv (tr w'));
  cb_auth w : inv (tr w) → runs onClientSendAuthCallback w
    (λ l w', inv (tr w') ∧ _connStatus (tr w') = _connStatus (tr w) ∧ pending (tr w') = pending (tr w) ∧
       buf (tr w') l ≠ []) (λ _ w', inv (tr w'))
}.
Context (Hcb : callbacks_ok).

Abbreviation keeps m w := (runs m w (λ _ w', inv (tr w')) (λ _ w', inv (tr w'))).

Lemma runs_on_tr {A} (m : M A) w (Q : A → W → Prop) (R : E → W → Prop) :
  runs m (tr w) (λ a x, Q a (set_tr x w)) (λ _ x, R exn (set_tr x w)) → runs (on_tr tr set_tr exn m) w Q R.
Proof. unfold runs, on_tr. by destruct (m (tr w)) as [[] x]. Qed.

Abbreviation on_tr := (on_tr tr set_tr exn).

Lemma keeps_throw w : inv (tr w) → keeps (on_tr (@THROW_ERROR unit)) w.
Proof.
  intros Hw. apply runs_on_tr. unfold THROW_ERROR. apply runs_bind. eapply runs_Ok; [reflexivity |].
  apply runs_throw. rewrite (cb_lens Hcb). by apply closed_inv.
Qed.

Lemma pending_connected x : inv x → pending x ≠ [] → _connStatus x = eConnected.
Proof. intros Hx Hp. destruct (decide (_connStatus x = eConnected)); [done |]. by destruct (inv_idle x Hx). Qed.

(** [flush], then the callback. *)
Abbreviation drain := (let* drained := on_tr flush in
  if (drained : bool) then
    let* s := get_st in if NetWorkBuffer.empty (_sendBuffer (tr s)) then onRequestCallback else ret tt
  else ret tt).

Lemma broken_inv x e x' : inv x → broken x e x' → inv x'.
Proof. intros Hx (y & Hs & _ & ->). by eapply closed_inv, sends_inv. Qed.

Lemma keeps_drain w : inv (tr w) → keeps drain w.
Proof.
  intros Hw. apply runs_bind, runs_on_tr.
  eapply runs_weaken; [apply flush_spec; [apply Hw | by apply pending_connected] | |].
  - intros r x' [Hs _]. pose proof (sends_inv _ _ Hw Hs) as Hx'. rewrite <- (cb_lens Hcb x' w) in Hx'.
    destruct r; [|by apply runs_ret]. apply runs_bind, runs_get.
    destruct (NetWorkBuffer.empty _); [by apply (cb_request Hcb) | by apply runs_ret].
  - intros e x' Hb. rewrite (cb_lens Hcb). by eapply broken_inv.
Qed.

Lemma keeps_auth w (doReq : prog W E unit) : inv (tr w) →
  (AUTH = true → _connStatus (tr w) = eConnected ∧ pending (tr w) = []) →
  (∀ w', inv (tr w') → _connStatus (tr w') = eConnected → keeps doReq w') →
  keeps (doAuthReq tr set_tr exn onRequestCallback onClientSendAuthCallback doReq) w.
Proof.
  intros Hw Ha Hreq. unfold doAuthReq. destruct AUTH; cbn [negb].
  - destruct (Ha eq_refl) as [Hc Hp]. apply runs_bind.
    eapply runs_weaken; [by apply (cb_auth Hcb) | | done]. cbn beta. intros l w1 (Hw1 & Hc1 & Hp1 & Hne).
    rewrite Hc in Hc1. rewrite Hp in Hp1. apply runs_bind, runs_on_tr.
    unfold buf, NetWorkBuffer.buf_content in Hne.
    destruct (NetWorkBuffer.heap (_sendBuffer (tr w1)) !! l) as [b|] eqn:Eb; [|done].
    destruct (add_spec (tr w1) l b Hw1 Hp1 Hc1 Eb Hne) as (x' & E1 & Hx' & _ & _ & Eh & _ & _ & _ & Hc' & _).
    apply bind_Ok_inv in E1 as ([] & x1 & E1 & E2). injection E2 as <-. cbn in Eh, Hc'.
    apply runs_bind. eapply runs_Ok; [exact E1 |]. apply runs_bind, runs_get. eapply runs_Ok; [reflexivity |].
    rewrite Eh. unfold NetWorkBuffer.buf_content. rewrite Eb. cbn.
    apply Hreq; by rewrite (cb_lens Hcb).
  - apply runs_bind, runs_on_tr. eapply runs_Ok; [reflexivity |]. cbn. apply (cb_request Hcb).
    rewrite (cb_lens Hcb). destruct Hw. by split.
Qed.

Lemma keeps_setConnected w doReq : inv (tr w) → valid (tr w) = true → accepted (tr w) = [] →
  (∀ w', inv (tr w') → _connStatus (tr w') = eConnected → keeps doReq w') →
  keeps (setConnected tr set_tr exn onConnectCallback onRequestCallback onClientSendAuthCallback doReq) w.
Proof.
  intros Hw Hv Ha Hreq. unfold setConnected. apply runs_bind, runs_on_tr. eapply runs_Ok; [reflexivity |]. cbn.
  set (x := (set_connStatus eConnected (tr w)).2 : t).
  assert (Hx : inv x) by (destruct Hw; split; try done; cbn; intros; congruence).
  assert (Hpx : pending x = []).
  { pose proof (inv_stream _ Hw) as E0. rewrite Ha in E0. by apply app_eq_nil in E0 as [_ ?]. }
  change (mk _ _ _ _ _ _ _ _ _) with x.
  apply runs_bind. eapply runs_weaken; [apply (cb_connect Hcb); by rewrite (cb_lens Hcb) | | done].
  cbn beta. intros _ w' [Hw' Hsame]. rewrite (cb_lens Hcb) in Hsame.
  apply keeps_auth; [done | intros Hau; by rewrite (Hsame Hau) | done].
Qed.

Lemma inv_counted x : inv x → inv (counted x).
Proof. intros Hx. eapply sends_inv; [exact Hx | apply sends_counted, Hx]. Qed.

Lemma keeps_checkConnect w doReq : inv (tr w) →
  (∀ w', inv (tr w') → _connStatus (tr w') = eConnected → keeps doReq w') →
  keeps (checkConnect tr set_tr exn onConnectCallback onRequestCallback onClientSendAuthCallback doReq) w.
Proof.
  intros Hw Hreq. unfold checkConnect. apply runs_bind, runs_get.
  destruct (isConnecting (tr w)) eqn:Hc; [|by apply runs_ret].
  apply andb_true_iff in Hc as [Hv Hc%bool_decide_eq_true].
  apply runs_bind, runs_on_tr. eapply runs_Ok; [reflexivity |]. cbn.
  change (mk _ _ _ _ _ _ _ _ _) with (counted (tr w)). pose proof (inv_counted _ Hw) as Hx.
  destruct (k_so_error _); [apply keeps_throw; by rewrite (cb_lens Hcb) |].
  apply keeps_setConnected; rewrite ?(cb_lens Hcb); [done | done | | done].
  apply (inv_fresh _ Hx). cbn. congruence.
Qed.

(** Two levels are enough: the inner call finds the connection made. *)
Lemma keeps_doRequest_connected w fuel : inv (tr w) → _connStatus (tr w) = eConnected →
  keeps (doRequest_rec tr set_tr exn onConnectCallback onRequestCallback onClientSendAuthCallback (S fuel)) w.
Proof.
  intros Hw Hc. cbn [doRequest_rec]. apply runs_bind, runs_get.
  destruct (isValid (tr w)); [cbn [negb] | by apply runs_ret]. apply runs_bind.
  unfold checkConnect at 1. apply runs_bind, runs_get. unfold isConnecting. rewrite Hc, andb_false_r.
  apply runs_ret. by apply keeps_drain.
Qed.

Lemma keeps_doRequest w : inv (tr w) →
  keeps (doRequest tr set_tr exn onConnectCallback onRequestCallback onClientSendAuthCallback) w.
Proof.
  intros Hw. unfold doRequest. cbn [doRequest_rec]. apply runs_bind, runs_get.
  destruct (isValid (tr w)); [cbn [negb] | by apply runs_ret]. apply runs_bind.
  eapply runs_weaken; [apply keeps_checkConnect; [done | intros w' ? ?; exact (keeps_doRequest_connected w' 0 ltac:(done) ltac:(done))] | | done].
  cbn beta. intros _ w' Hw'. by apply keeps_drain.
Qed.

(** The connection as [connect] opens it. *)
Definition opened (x : t) : t :=
  mk true eUnconnected (_authState x) false (_sendBuffer x) (S (calls x)) (wire x) (accepted x) (past x).

Lemma keeps_connect w : inv (tr w) →
  keeps (connect tr set_tr exn onConnectCallback onRequestCallback onClientSendAuthCallback) w.
Proof.
  intros Hw. unfold connect. apply runs_bind, runs_get.
  destruct (isValid (tr w)) eqn:Hv; [by apply runs_ret |].
  pose proof (inv_closed _ Hw Hv) as Hc. rewrite Hc. cbn [bool_decide orb].
  do 2 (rewrite bool_decide_eq_false_2 by done). cbn [orb].
  pose proof (inv_fresh _ Hw ltac:(congruence)) as Ha.
  assert (Hx : inv (opened (tr w))) by (destruct Hw; split; try done; cbn; congruence).
  apply runs_bind, runs_on_tr. eapply runs_Ok; [reflexivity |].
  apply runs_bind, runs_on_tr. eapply runs_Ok; [reflexivity |].
  apply runs_bind, runs_on_tr. eapply runs_Ok; [reflexivity |]. rewrite !(cb_lens Hcb).
  match goal with |- runs _ (set_tr ?y ?v) _ _ => set (w1 := set_tr y v) end.
  assert (E1 : tr w1 = opened (tr w)).
  { subst w1. rewrite (cb_lens Hcb). unfold opened. by rewrite <- Hc. }
  clearbody w1. rewrite <- E1 in Hx. destruct (k_connect _).
  - apply keeps_setConnected; [done | by rewrite E1 | by rewrite E1 |].
    intros w' ? ?. by apply (keeps_doRequest_connected w' 1).
  - apply runs_on_tr. eapply runs_Ok; [reflexivity |]. rewrite (cb_lens Hcb).
    rewrite E1 in *. destruct Hx. by split.
  - by apply keeps_throw.
Qed.

Lemma make_buffer_spec x b : inv x → NetWorkBuffer.good b →
  ∃ l x', make_buffer b x = (Ok l, x') ∧ inv x' ∧ NetWorkBuffer.heap (_sendBuffer x') !! l = Some b ∧
    pending x' = pending x ∧ _connStatus x' = _connStatus x ∧ _authState x' = _authState x ∧
    accepted x' = accepted x ∧ past x' = past x ∧ wire x' = wire x ∧ valid x' = valid x.
Proof.
  intros Hx Hb. pose proof Hx as [(Hi & Ht & Hg) Hst Hp Hc Hf].
  pose proof (NetWorkBuffer.last_fresh _ Hi) as [Hl Hn]. eexists _, _. split; [reflexivity |].
  pose proof (NetWorkBuffer.inv_other _ _ b Hi Hl Hb) as [Hi' Ha']. cbn.
  split; [|by rewrite lookup_insert_eq]. split; cbn; try done.
  - split_and!; [done | | by apply map_Forall_insert_2].
    destruct Ht as [?|(l' & b' & El & Eb' & Hne)]; [by left | right]. exists l', b'. split; [done |].
    split; [|done]. cbn. rewrite lookup_insert_ne; [done | congruence].
  - rewrite <- Hst. by f_equal.
Qed.

Definition event_ok (e : event) : Prop :=
  match e with SendNew b => NetWorkBuffer.good b | _ => True end.

Lemma keeps_send w l : inv (tr w) → is_Some (NetWorkBuffer.heap (_sendBuffer (tr w)) !! l) →
  keeps (on_tr (sendRequest l) ;;; ret tt) w.
Proof.
  intros Hw Hl. apply runs_bind, runs_on_tr.
  eapply runs_weaken; [by apply sendRequest_spec | |]; cbn beta.
  - intros r x' (Hx' & _). apply runs_ret. by rewrite (cb_lens Hcb).
  - intros e x' (Hx' & _). by rewrite (cb_lens Hcb).
Qed.

Abbreviation handler := (handle tr set_tr exn onConnectCallback onRequestCallback onClientSendAuthCallback).
Abbreviation handlers := (handle_all tr set_tr exn onConnectCallback onRequestCallback onClientSendAuthCallback).

Lemma keeps_handle w e : inv (tr w) → event_ok e → keeps (handler e) w.
Proof.
  intros Hw He. destruct e as [|b|l| | |]; cbn [handle].
  - by apply keeps_connect.
  - apply runs_bind, runs_on_tr.
    destruct (make_buffer_spec (tr w) b Hw He) as (l & x' & Em & Hx' & El & _).
    eapply runs_Ok; [exact Em |]. apply keeps_send; rewrite (cb_lens Hcb); [done | by exists b].
  - apply runs_bind, runs_get. destruct (NetWorkBuffer.heap _ !! l) as [b|] eqn:El; [|by apply runs_ret].
    apply keeps_send; [done | by exists b].
  - apply runs_on_tr. unfold close. apply runs_bind, runs_get. destruct (isValid _).
    + eapply runs_Ok; [reflexivity |]. rewrite (cb_lens Hcb). by apply closed_inv.
    + apply runs_ret. by rewrite (cb_lens Hcb).
  - by apply keeps_doRequest.
  - unfold checkConnectTimeout. apply runs_bind, runs_get. destruct (negb _); [|by apply runs_ret].
    apply runs_bind, runs_on_tr. eapply runs_Ok; [reflexivity |]. apply keeps_throw. rewrite (cb_lens Hcb).
    destruct Hw. by split.
Qed.

Lemma handle_all_inv es w : inv (tr w) → Forall event_ok es →
  ∃ w', handlers es w = (Ok tt, w') ∧ inv (tr w').
Proof.
  intros Hw Hes. revert w Hw. induction Hes as [|e es He Hes IH]; intros w Hw; [by exists w |].
  cbn [handle_all]. pose proof (keeps_handle w e Hw He) as H. unfold runs in H. unfold bind, try_catch.
  destruct (handler e w) as [[[]|x| | |] w1]; try done; by apply IH.
Qed.
End with_callbacks.
End kernel.
End Sender.
