(* ===== verification/Base64.v ===== *)
(** [TC_Base64] from [src/util/src/tc_base64.cpp]: the loops with their reads and
    writes, the size of the output buffers, and the round trip. *)
From stdpp Require Import prelude list.
From Stdlib Require Import ZArith Lia.
From S2P Require Import Prelude Bytes.

(** [lia] solves quotients and remainders by constants. *)
#[local] Ltac Zify.zify_post_hook ::= Z.to_euclidean_division_equations.

Module Base64.
Definition codes (lo n : Z) : list Z := map (λ i, lo + Z.of_nat i) (seq 0 (Z.to_nat n)).

(** [EnBase64Tab]. *)
Definition EnBase64Tab : list Z := codes 65 26 ++ codes 97 26 ++ codes 48 10 ++ [43; 47].

(** [DeBase64Tab], 256 entries. *)
Definition DeBase64Tab : list Z :=
  replicate 43 0 ++ [62] ++ replicate 3 0 ++ [63] ++ codes 52 10 ++ replicate 7 0 ++ codes 0 26 ++
  replicate 6 0 ++ codes 26 26 ++ replicate 133 0.

(** What [pSrc] still points at, what has been written behind [pDst], and how much
    room is left there. *)
Record st := mk { src : list Z; dst : list Z; room : Z }.
Abbreviation M A := (prog st Empty_set A).

Definition peekc : M Z := λ s, match src s with c :: _ => (Ok c, s) | [] => (OutOfBounds, s) end.
Definition getc : M Z := λ s,
  match src s with c :: cs => (Ok c, mk cs (dst s) (room s)) | [] => (OutOfBounds, s) end.
Definition putc (c : Z) : M unit := λ s,
  if 0 <? room s then (Ok tt, mk (src s) (dst s ++ [wrapU 8 c]) (room s - 1)) else (OutOfBounds, s).

(** A table indexed by a non-negative number, and by [int] of a [char]. *)
Definition look (tab : list Z) (i : Z) : M Z := λ s,
  match (if 0 <=? i then tab !! Z.to_nat i else None) with Some v => (Ok v, s) | None => (OutOfBounds, s) end.
Definition en (i : Z) : M unit := let* c := look EnBase64Tab i in putc c.
Definition de (c : Z) : M Z := look DeBase64Tab (wrapS 8 c).

(** The loop over whole groups: the line length and the output length. *)
Fixpoint encode_loop (nDiv : nat) (bChangeLine : bool) (nLineLen nDstLen : Z) : M (Z * Z) :=
  match nDiv with
  | O => ret (nLineLen, nDstLen)
  | S nDiv' =>
    let* c1 := getc in let* c2 := getc in let* c3 := getc in
    en (Z.shiftr c1 2) ;;;
    en (Z.land (Z.lor (Z.shiftl c1 4) (Z.shiftr c2 4)) 63) ;;;
    en (Z.land (Z.lor (Z.shiftl c2 2) (Z.shiftr c3 6)) 63) ;;;
    en (Z.land c3 63) ;;;
    let nLineLen := nLineLen + 4 in
    let nDstLen := nDstLen + 4 in
    if bChangeLine && (72 <? nLineLen)
    then putc 13 ;;; putc 10 ;;; encode_loop nDiv' bChangeLine 0 (nDstLen + 2)
    else encode_loop nDiv' bChangeLine nLineLen nDstLen
  end.

(** [encode(pSrc, nSrcLen, pDst, bChangeLine)]. *)
Definition encode (nSrcLen : Z) (bChangeLine : bool) : M Z :=
  let nDiv := nSrcLen / 3 in
  let nMod := nSrcLen mod 3 in
  let* (_, nDstLen) := encode_loop (Z.to_nat nDiv) bChangeLine 0 0 in
  let* nDstLen :=
    (if nMod =? 1 then
       let* c1 := getc in
       en (Z.shiftr (Z.land c1 252) 2) ;;; en (Z.shiftl (Z.land c1 3) 4) ;;; putc 61 ;;; putc 61 ;;; ret (nDstLen + 4)
     else if nMod =? 2 then
       let* c1 := getc in let* c2 := getc in
       en (Z.shiftr (Z.land c1 252) 2) ;;;
       en (Z.lor (Z.shiftl (Z.land c1 3) 4) (Z.shiftr (Z.land c2 240) 4)) ;;;
       en (Z.shiftl (Z.land c2 15) 2) ;;; putc 61 ;;; ret (nDstLen + 4)
     else ret nDstLen) in
  putc 0 ;;; ret nDstLen.

(** The loop of [decode]; [i] counts the characters read. *)
Fixpoint decode_loop (fuel : nat) (nSrcLen i nDstLen : Z) : M Z :=
  match fuel with
  | O => λ s, (NoFuel, s)
  | S fuel' =>
    if nSrcLen <=? i then ret nDstLen else
    let* c := peekc in
    if negb (c =? 13) && negb (c =? 10) then
      if nSrcLen <=? wrapU 64 (i + 2) then ret nDstLen else
      let* a := getc in let* va := de a in
      let* b := getc in let* vb := de b in
      let nValue := Z.shiftl va 18 + Z.shiftl vb 12 in
      putc (Z.shiftr (Z.land nValue 16711680) 16) ;;;
      let nDstLen := nDstLen + 1 in
      let i := i + 2 in
      let* c := peekc in
      if negb (c =? 61) then
        let* d := getc in let* vd := de d in
        let nValue := nValue + Z.shiftl vd 6 in
        putc (Z.shiftr (Z.land nValue 65280) 8) ;;;
        let nDstLen := nDstLen + 1 in
        let i := i + 1 in
        if nSrcLen <=? i then ret nDstLen else
        let* c := peekc in
        if negb (c =? 61) then
          let* e := getc in let* ve := de e in
          let nValue := nValue + ve in
          putc (Z.land nValue 255) ;;;
          let nDstLen := nDstLen + 1 in
          let i := i + 1 in
          if nSrcLen <=? i then ret nDstLen else decode_loop fuel' nSrcLen i nDstLen
        else decode_loop fuel' nSrcLen i nDstLen
      else decode_loop fuel' nSrcLen i nDstLen
    else getc ;;; decode_loop fuel' nSrcLen (i + 1) nDstLen
  end.

(** [decode(pSrc, nSrcLen, pDst)]. *)
Definition decode (nSrcLen : Z) : M Z :=
  let* nDstLen := decode_loop (S (Z.to_nat nSrcLen)) nSrcLen 0 0 in
  putc 0 ;;; ret nDstLen.

(** *** The [string] overloads *)

(** [n * 1.4]: the product of [n] and the double nearest to 1.4, which is
    [6305039478318694 / 2^52], rounded to 53 bits, half to even, and truncated by
    the cast to [int]. *)
Definition round_shift (p k : Z) : Z :=
  if k =? 0 then p else
  let q := p / 2 ^ k in
  let r := p mod 2 ^ k in
  let h := 2 ^ (k - 1) in
  (if (r <? h) || (r =? h) && Z.even q then q else q + 1) * 2 ^ k.

Definition times_1_4 (n : Z) : Z :=
  let p := n * 6305039478318694 in
  wrapS 32 (round_shift p (Z.max 0 (Z.log2 p - 52)) / 2 ^ 52).

(** A buffer of [room] characters, filled, and the string of its first ones. *)
Definition filled (m : M Z) (data : list Z) (room : Z) : outcome Empty_set (list Z) :=
  match m (mk data [] room) with
  | (Ok n, s) => Ok (take (Z.to_nat n) (dst s))
  | (Throw e, _) => Throw e
  | (OutOfBounds, _) => OutOfBounds
  | (AssertFailed, _) => AssertFailed
  | (NoFuel, _) => NoFuel
  end.

Definition encode_string (data : list Z) (bChangeLine : bool) : outcome Empty_set (list Z) :=
  if decide (data = []) then Ok [] else
  filled (encode (wrapS 32 (zlen data)) bChangeLine) data (times_1_4 (zlen data) + 6).

Definition decode_string (data : list Z) : outcome Empty_set (list Z) :=
  if decide (data = []) then Ok [] else filled (decode (zlen data)) data (zlen data).

(** ** Bytes and sextets *)

Lemma in_codes n c : 0 ≤ c < n → c ∈ codes 0 n.
Proof.
  intros Hc. unfold codes. apply list_elem_of_In, in_map_iff. exists (Z.to_nat c).
  rewrite in_seq. lia.
Qed.

Lemma all_codes (P : Z → bool) n : forallb P (codes 0 n) = true → ∀ c, 0 ≤ c < n → P c = true.
Proof. rewrite forallb_forall. intros H c Hc. apply H, list_elem_of_In, in_codes, Hc. Qed.

Definition enc_char (v : Z) : Z := nth (Z.to_nat v) EnBase64Tab 0.

(** Every sextet has a character, 7 bits wide and not one of the special ones, that
    decodes to it. *)
Definition char_ok (v : Z) : bool :=
  let c := enc_char v in
  bool_decide (EnBase64Tab !! Z.to_nat v = Some c) && bool_decide (DeBase64Tab !! Z.to_nat c = Some v) &&
  (0 <=? c) && (c <? 128) && negb (c =? 13) && negb (c =? 10) && negb (c =? 61).

Lemma enc_char_ok v : 0 ≤ v < 64 →
  EnBase64Tab !! Z.to_nat v = Some (enc_char v) ∧ DeBase64Tab !! Z.to_nat (enc_char v) = Some v ∧
  0 ≤ enc_char v < 128 ∧ enc_char v ≠ 13 ∧ enc_char v ≠ 10 ∧ enc_char v ≠ 61.
Proof.
  intros Hv. assert (H : char_ok v = true) by (revert v Hv; apply all_codes; vm_compute; reflexivity).
  unfold char_ok in H. rewrite !andb_true_iff, !bool_decide_eq_true, !negb_true_iff, Z.leb_le, Z.ltb_lt, !Z.eqb_neq in H.
  tauto.
Qed.

(** The four sextets of three bytes. *)
Definition sextets (c1 c2 c3 : Z) : list Z := [c1 / 4; c1 mod 4 * 16 + c2 / 16; c2 mod 16 * 4 + c3 / 64; c3 mod 64].

Definition bits_ok (c1 c2 : Z) : bool :=
  (Z.shiftr c1 2 =? c1 / 4) && (Z.land (Z.lor (Z.shiftl c1 4) (Z.shiftr c2 4)) 63 =? c1 mod 4 * 16 + c2 / 16) &&
  (Z.land (Z.lor (Z.shiftl c1 2) (Z.shiftr c2 6)) 63 =? c1 mod 16 * 4 + c2 / 64) && (Z.land c1 63 =? c1 mod 64) &&
  (Z.shiftr (Z.land c1 252) 2 =? c1 / 4) && (Z.shiftl (Z.land c1 3) 4 =? c1 mod 4 * 16 + 0 / 16) &&
  (Z.lor (Z.shiftl (Z.land c1 3) 4) (Z.shiftr (Z.land c2 240) 4) =? c1 mod 4 * 16 + c2 / 16) &&
  (Z.shiftl (Z.land c1 15) 2 =? c1 mod 16 * 4 + 0 / 64).

Lemma bits_spec c1 c2 : 0 ≤ c1 < 256 → 0 ≤ c2 < 256 → bits_ok c1 c2 = true.
Proof.
  intros H1 H2. revert c2 H2. apply all_codes. revert c1 H1. apply (all_codes (λ c1, forallb (bits_ok c1) (codes 0 256))).
  vm_compute. reflexivity.
Qed.

Ltac bits H := unfold bits_ok in H; rewrite !andb_true_iff, !Z.eqb_eq in H; destruct_and! H.

(** *** Memory *)

Lemma putc_eq c cs d r : 0 < r → 0 ≤ c < 256 → putc c (mk cs d r) = (Ok tt, mk cs (d ++ [c]) (r - 1)).
Proof.
  intros Hr Hc. unfold putc; cbn. rewrite (proj2 (Z.ltb_lt _ _)) by done.
  by rewrite wrapU_id by (unfold in_U; lia).
Qed.

Lemma en_eq v cs d r : 0 < r → 0 ≤ v < 64 → en v (mk cs d r) = (Ok tt, mk cs (d ++ [enc_char v]) (r - 1)).
Proof.
  intros Hr Hv. destruct (enc_char_ok v Hv) as (E & _ & Hc & _). unfold en, look, bind.
  rewrite (proj2 (Z.leb_le _ _)), E by lia. apply putc_eq; lia.
Qed.

Lemma de_eq v s : 0 ≤ v < 64 → de (enc_char v) s = (Ok v, s).
Proof.
  intros Hv. destruct (enc_char_ok v Hv) as (_ & E & Hc & _). unfold de, look.
  rewrite wrapS_id by (unfold in_S; lia). by rewrite (proj2 (Z.leb_le _ _)), E by lia.
Qed.

(** ** What [encode] writes *)

Fixpoint enc (bl : bool) (line : Z) (l : list Z) : list Z :=
  match l with
  | c1 :: c2 :: c3 :: l' =>
    map enc_char (sextets c1 c2 c3) ++
    if bl && (72 <? line + 4) then [13; 10] ++ enc bl 0 l' else enc bl (line + 4) l'
  | [c1; c2] => map enc_char (take 3 (sextets c1 c2 0)) ++ [61]
  | [c1] => map enc_char (take 2 (sextets c1 0 0)) ++ [61; 61]
  | [] => []
  end.

Definition byte (c : Z) : Prop := 0 ≤ c < 256.

(** Induction by groups of three. *)
Lemma groups_ind (P : list Z → Prop) :
  P [] → (∀ a, P [a]) → (∀ a b, P [a; b]) → (∀ a b c l, P l → P (a :: b :: c :: l)) → ∀ l, P l.
Proof.
  intros H0 H1 H2 H3 l. induction l as [l IH] using (induction_ltof1 _ (@length Z)).
  destruct l as [|a [|b [|c l]]]; try done. apply H3, IH. unfold ltof. cbn. lia.
Qed.

(** The part of [encode] behind the loop. *)
Definition encode_rest (nMod : Z) (nDstLen : Z) : M Z :=
  let* nDstLen :=
    (if nMod =? 1 then
       let* c1 := getc in
       en (Z.shiftr (Z.land c1 252) 2) ;;; en (Z.shiftl (Z.land c1 3) 4) ;;; putc 61 ;;; putc 61 ;;; ret (nDstLen + 4)
     else if nMod =? 2 then
       let* c1 := getc in let* c2 := getc in
       en (Z.shiftr (Z.land c1 252) 2) ;;;
       en (Z.lor (Z.shiftl (Z.land c1 3) 4) (Z.shiftr (Z.land c2 240) 4)) ;;;
       en (Z.shiftl (Z.land c2 15) 2) ;;; putc 61 ;;; ret (nDstLen + 4)
     else ret nDstLen) in
  putc 0 ;;; ret nDstLen.

(** Steps of the programs on concrete states. *)
Ltac step := rewrite ?bind_assoc; first
  [ erewrite bind_Ok by (apply en_eq; lia) | erewrite bind_Ok by (apply putc_eq; lia)
  | erewrite bind_Ok by (apply de_eq; lia) | erewrite bind_Ok by reflexivity ]; cbn [src dst room].

Lemma state_eq (a b : Z) x d e r r' : a = b → d = e → r = r' →
  (Ok a, mk x d r) = (Ok b, mk x e r') :> outcome Empty_set Z * st.
Proof. by intros -> -> ->. Qed.

Ltac finish := unfold ret; apply state_eq; [cbn; lia | rewrite <- ?app_assoc; reflexivity | cbn; lia].

Lemma encode_rest_1 a d r k : byte a → 5 ≤ r →
  encode_rest 1 k (mk [a] d r) = (Ok (k + 4), mk [] (d ++ enc false 0 [a] ++ [0]) (r - 5)).
Proof.
  unfold byte. intros Ha Hr. assert (H : bits_ok a 0 = true) by (apply bits_spec; lia). bits H.
  unfold encode_rest. cbn [Z.eqb Pos.eqb]. rewrite !bind_assoc. step. rewrite H4, H3. do 6 step. finish.
Qed.

Lemma encode_rest_2 a b d r k : byte a → byte b → 5 ≤ r →
  encode_rest 2 k (mk [a; b] d r) = (Ok (k + 4), mk [] (d ++ enc false 0 [a; b] ++ [0]) (r - 5)).
Proof.
  unfold byte. intros Ha Hb Hr. assert (H : bits_ok a b = true) by (apply bits_spec; lia). bits H.
  assert (H' : bits_ok b 0 = true) by (apply bits_spec; lia). bits H'.
  unfold encode_rest. cbn [Z.eqb Pos.eqb]. rewrite !bind_assoc. do 2 step. rewrite H4, H2, H8. do 6 step. finish.
Qed.

Lemma encode_group nDiv bl line k a b c l d r : byte a → byte b → byte c → (if bl && (72 <? line + 4) then 6 else 4) ≤ r →
  encode_loop (S nDiv) bl line k (mk (a :: b :: c :: l) d r) =
  let g := map enc_char (sextets a b c) in
  if bl && (72 <? line + 4)
  then encode_loop nDiv bl 0 (k + 6) (mk l (d ++ g ++ [13; 10]) (r - 6))
  else encode_loop nDiv bl (line + 4) (k + 4) (mk l (d ++ g) (r - 4)).
Proof.
  unfold byte. intros Ha Hb Hc Hr. assert (Hr4 : 4 ≤ r) by (destruct (bl && _); lia).
  assert (H : bits_ok a b = true) by (apply bits_spec; lia). bits H.
  assert (H' : bits_ok b c = true) by (apply bits_spec; lia). bits H'.
  assert (H'' : bits_ok c 0 = true) by (apply bits_spec; lia). bits H''.
  cbn [encode_loop]. do 3 step. rewrite H0, H7, H14, H21. do 4 step.
  assert (Ed : (((d ++ [enc_char (a / 4)]) ++ [enc_char (a mod 4 * 16 + b / 16)]) ++
    [enc_char (b mod 16 * 4 + c / 64)]) ++ [enc_char (c mod 64)] = d ++ map enc_char (sextets a b c))
    by (rewrite <- !app_assoc; reflexivity).
  rewrite Ed. destruct (bl && _); [do 2 step |]; cbv zeta; f_equal; [lia | f_equal | f_equal]; try lia.
  by rewrite <- !app_assoc.
Qed.

Lemma encode_groups bl l : Forall byte l → ∀ line d r k,
  zlen (enc bl line l) < r →
  (let* (_, n) := encode_loop (Z.to_nat (zlen l / 3)) bl line k in encode_rest (zlen l mod 3) n) (mk l d r) =
  (Ok (k + zlen (enc bl line l)), mk [] (d ++ enc bl line l ++ [0]) (r - zlen (enc bl line l) - 1)).
Proof.
  induction l as [|a|a b|a b c l IH] using groups_ind; intros Hl line d r k Hr; rewrite ?Forall_cons in Hl.
  - step. unfold encode_rest. change (zlen [] mod 3) with 0. cbn [Z.eqb]. cbn in Hr. do 2 step. finish.
  - step. change (zlen [a] mod 3) with 1. cbn in Hr. rewrite encode_rest_1 by (tauto || lia). finish.
  - step. change (zlen [a; b] mod 3) with 2. cbn in Hr. rewrite encode_rest_2 by (tauto || lia). finish.
  - destruct Hl as (Ha & Hb & Hc & Hl). specialize (IH Hl).
    replace (zlen (a :: b :: c :: l) / 3) with (zlen l / 3 + 1) by (cbn [length]; lia).
    replace (zlen (a :: b :: c :: l) mod 3) with (zlen l mod 3) by (cbn [length]; lia).
    replace (Z.to_nat (zlen l / 3 + 1)) with (S (Z.to_nat (zlen l / 3))) by lia.
    assert (Hlen : zlen (enc bl line (a :: b :: c :: l)) =
      if bl && (72 <? line + 4) then 6 + zlen (enc bl 0 l) else 4 + zlen (enc bl (line + 4) l)).
    { cbn [enc]. rewrite length_app. destruct (bl && _); rewrite ?length_app; cbn [length map sextets]; lia. }
    rewrite Hlen in *. unfold bind at 1. rewrite encode_group by (done || (destruct (bl && _); lia)).
    cbv zeta. cbn [enc]. destruct (bl && _).
    + etransitivity; [apply (IH 0); lia |]. finish.
    + etransitivity; [apply (IH (line + 4)); lia |]. finish.
Qed.

Lemma encode_spec bl l r : Forall byte l → zlen (enc bl 0 l) < r →
  encode (zlen l) bl (mk l [] r) = (Ok (zlen (enc bl 0 l)), mk [] (enc bl 0 l ++ [0]) (r - zlen (enc bl 0 l) - 1)).
Proof. intros Hl Hr. exact (encode_groups bl l Hl 0 [] r 0 Hr). Qed.

(** ** What [decode] makes of it *)

Lemma mask_byte v k : 0 ≤ k → Z.shiftr (Z.land v (Z.shiftl 255 k)) k = v / 2 ^ k mod 256.
Proof.
  intros Hk. rewrite Z.shiftr_land, Z.shiftr_shiftl_l, Z.sub_diag, Z.shiftl_0_r by lia.
  change 255 with (Z.ones 8). rewrite Z.land_ones, Z.shiftr_div_pow2 by lia. done.
Qed.

Lemma masks v1 v2 v3 v4 :
  Z.shiftr (Z.land (Z.shiftl v1 18 + Z.shiftl v2 12) 16711680) 16 = (v1 * 4 + v2 / 16) mod 256 ∧
  Z.shiftr (Z.land (Z.shiftl v1 18 + Z.shiftl v2 12 + Z.shiftl v3 6) 65280) 8 = (v1 * 1024 + v2 * 16 + v3 / 4) mod 256 ∧
  Z.land (Z.shiftl v1 18 + Z.shiftl v2 12 + Z.shiftl v3 6 + v4) 255 = (v3 * 64 + v4) mod 256.
Proof.
  change 16711680 with (Z.shiftl 255 16). change 65280 with (Z.shiftl 255 8). rewrite !mask_byte by lia.
  pose proof (mask_byte (Z.shiftl v1 18 + Z.shiftl v2 12 + Z.shiftl v3 6 + v4) 0 ltac:(lia)) as E.
  rewrite Z.shiftr_0_r, Z.shiftl_0_r, Z.pow_0_r, Z.div_1_r in E. rewrite E, !Z.shiftl_mul_pow2 by lia. lia.
Qed.

Ltac char v := destruct (enc_char_ok v) as (_ & _ & _ & ? & ? & ?); [lia |].

Lemma decode_group f n i k v1 v2 v3 v4 rest d r :
  0 ≤ v1 < 64 → 0 ≤ v2 < 64 → 0 ≤ v3 < 64 → 0 ≤ v4 < 64 → 0 ≤ i → i + 4 ≤ n < 2 ^ 62 → 3 ≤ r →
  decode_loop (S (S f)) n i k (mk (map enc_char [v1; v2; v3; v4] ++ rest) d r) =
  decode_loop (S f) n (i + 4) (k + 3)
    (mk rest (d ++ [(v1 * 4 + v2 / 16) mod 256; (v1 * 1024 + v2 * 16 + v3 / 4) mod 256; (v3 * 64 + v4) mod 256]) (r - 3)).
Proof.
  intros H1 H2 H3 H4 Hi Hn Hr. destruct (masks v1 v2 v3 v4) as (E1 & E2 & E3).
  char v1. char v3. char v4.
  assert (Hend : ∀ s, n ≤ i + 4 → decode_loop (S f) n (i + 4) (k + 3) s = ret (k + 3) s).
  { intros s Hs. cbn [decode_loop]. by rewrite (proj2 (Z.leb_le _ _)). }
  remember (S f) as F. cbn [decode_loop map app].
  rewrite (proj2 (Z.leb_gt _ _)) by lia. step.
  rewrite !(proj2 (Z.eqb_neq _ _)) by done. cbn [negb andb].
  rewrite wrapU_id, (proj2 (Z.leb_gt _ _)) by (unfold in_U; lia).
  do 4 step. rewrite E1. do 2 step.
  rewrite (proj2 (Z.eqb_neq _ _)) by done. cbn [negb]. do 2 step. rewrite E2. step.
  rewrite (proj2 (Z.leb_gt _ _)) by lia. step. rewrite (proj2 (Z.eqb_neq _ _)) by done. cbn [negb].
  do 2 step. rewrite E3. step. rewrite <- !app_assoc. cbn [app].
  replace (i + 2 + 1 + 1) with (i + 4) by lia. replace (k + 1 + 1 + 1) with (k + 3) by lia.
  replace (r - 1 - 1 - 1) with (r - 3) by lia.
  destruct (Z.leb_spec n (i + 4)); [by rewrite Hend | done].
Qed.

(** Line breaks are skipped; the padding ends the loop. *)
Lemma decode_newline f n i k c rest d r : c = 13 ∨ c = 10 → i < n →
  decode_loop (S f) n i k (mk (c :: rest) d r) = decode_loop f n (i + 1) k (mk rest d r).
Proof.
  intros Hc Hi. cbn [decode_loop]. rewrite (proj2 (Z.leb_gt _ _)) by lia. step.
  replace (negb (c =? 13) && negb (c =? 10)) with false by (by destruct Hc as [-> | ->]).
  step. done.
Qed.

Lemma decode_end f n i k rest d r : 0 ≤ i < 2 ^ 62 → n ≤ i + 2 → n < 2 ^ 62 →
  decode_loop (S f) n i k (mk (61 :: rest) d r) = (Ok k, mk (61 :: rest) d r).
Proof.
  intros Hi Hn Hn'. cbn [decode_loop]. destruct (Z.leb_spec n i); [done |]. step. cbn [Z.eqb Pos.eqb negb andb].
  rewrite wrapU_id, (proj2 (Z.leb_le _ _)) by (unfold in_U; lia). done.
Qed.

Lemma decode_pad2 f i k v1 v2 d r : 0 ≤ v1 < 64 → 0 ≤ v2 < 64 → 0 ≤ i < 2 ^ 61 → 1 ≤ r →
  decode_loop (S (S f)) (i + 4) i k (mk (map enc_char [v1; v2] ++ [61; 61]) d r) =
  (Ok (k + 1), mk [61; 61] (d ++ [(v1 * 4 + v2 / 16) mod 256]) (r - 1)).
Proof.
  intros H1 H2 Hi Hr. destruct (masks v1 v2 0 0) as (E1 & _). char v1.
  rewrite <- (decode_end f (i + 4) (i + 2) (k + 1) [61]) by lia.
  remember (S f) as F. cbn [decode_loop map app].
  rewrite (proj2 (Z.leb_gt _ _)) by lia. step. rewrite !(proj2 (Z.eqb_neq _ _)) by done. cbn [negb andb].
  rewrite wrapU_id, (proj2 (Z.leb_gt _ _)) by (unfold in_U; lia). do 4 step. rewrite E1. do 2 step. done.
Qed.

Lemma decode_pad1 f i k v1 v2 v3 d r : 0 ≤ v1 < 64 → 0 ≤ v2 < 64 → 0 ≤ v3 < 64 → 0 ≤ i < 2 ^ 61 → 2 ≤ r →
  decode_loop (S (S f)) (i + 4) i k (mk (map enc_char [v1; v2; v3] ++ [61]) d r) =
  (Ok (k + 2), mk [61] (d ++ [(v1 * 4 + v2 / 16) mod 256; (v1 * 1024 + v2 * 16 + v3 / 4) mod 256]) (r - 2)).
Proof.
  intros H1 H2 H3 Hi Hr. destruct (masks v1 v2 v3 0) as (E1 & E2 & _). char v1. char v3.
  rewrite <- (decode_end f (i + 4) (i + 3) (k + 2) []) by lia.
  remember (S f) as F. cbn [decode_loop map app].
  rewrite (proj2 (Z.leb_gt _ _)) by lia. step. rewrite !(proj2 (Z.eqb_neq _ _)) by done. cbn [negb andb].
  rewrite wrapU_id, (proj2 (Z.leb_gt _ _)) by (unfold in_U; lia). do 4 step. rewrite E1. do 2 step.
  rewrite (proj2 (Z.eqb_neq _ _)) by done. cbn [negb]. do 2 step. rewrite E2. step.
  rewrite (proj2 (Z.leb_gt _ _)) by lia. step. cbn [Z.eqb Pos.eqb negb].
  replace (i + 2 + 1) with (i + 3) by lia. replace (k + 1 + 1) with (k + 2) by lia.
  replace (r - 1 - 1) with (r - 2) by lia. by rewrite <- !app_assoc.
Qed.

(** Sextets are bytes again. *)
Lemma sextets_range a b c v : byte a → byte b → byte c → v ∈ sextets a b c → 0 ≤ v < 64.
Proof. unfold byte, sextets. rewrite !elem_of_cons, elem_of_nil. lia. Qed.

Lemma enc_longer bl line l : zlen l ≤ zlen (enc bl line l).
Proof.
  revert line. induction l as [|a|a b|a b c l IH] using groups_ind; intros line; [cbn; lia.. |].
  cbn [enc]. rewrite length_app. destruct (bl && _); [specialize (IH 0) | specialize (IH (line + 4))];
    rewrite ?length_app; cbn [length map sextets]; lia.
Qed.

Lemma decode_groups bl l : Forall byte l → ∀ line f n i k d r,
  0 ≤ i → n = i + zlen (enc bl line l) → n < 2 ^ 61 → zlen l ≤ r → (length (enc bl line l) < f)%nat →
  ∃ rest, decode_loop f n i k (mk (enc bl line l) d r) = (Ok (k + zlen l), mk rest (d ++ l) (r - zlen l)).
Proof.
  induction l as [|a|a b|a b c l IH] using groups_ind; intros Hl line f n i k d r Hi En Hn Hr Hf;
    rewrite ?Forall_cons in Hl; unfold byte in *.
  - exists []. destruct f as [|f]; [lia |]. cbn in *. rewrite (proj2 (Z.leb_le _ _)) by lia. rewrite app_nil_r.
    unfold ret. apply state_eq; [lia | done | lia].
  - destruct f as [|[|f]]; [lia | cbn in Hf; lia |]. subst n. exists [61; 61]. cbn [enc take sextets map] in *.
    etransitivity; [apply decode_pad2; cbn in *; lia |].
    replace ((a / 4 * 4 + (a mod 4 * 16 + 0 / 16) / 16) mod 256) with a by lia. done.
  - destruct f as [|[|f]]; [lia | cbn in Hf; lia |]. subst n. exists [61]. cbn [enc take sextets map] in *.
    etransitivity; [apply decode_pad1; cbn in *; lia |].
    replace ((a / 4 * 4 + (a mod 4 * 16 + b / 16) / 16) mod 256) with a by lia.
    replace ((a / 4 * 1024 + (a mod 4 * 16 + b / 16) * 16 + (b mod 16 * 4 + 0 / 64) / 4) mod 256) with b by lia. done.
  - destruct Hl as (Ha & Hb & Hc & Hl). destruct f as [|[|f]]; [lia | cbn in Hf; lia |].
    cbn [enc] in *. rewrite !length_app in *. cbn [sextets map length] in *.
    assert (Hg : ∀ X, decode_loop (S (S f)) n i k (mk (map enc_char (sextets a b c) ++ X) d r) =
      decode_loop (S f) n (i + 4) (k + 3) (mk X (d ++ [a; b; c]) (r - 3))).
    { intros X. etransitivity; [apply decode_group; lia |].
      replace ((a / 4 * 4 + (a mod 4 * 16 + b / 16) / 16) mod 256) with a by lia.
      replace ((a / 4 * 1024 + (a mod 4 * 16 + b / 16) * 16 + (b mod 16 * 4 + c / 64) / 4) mod 256) with b by lia.
      by replace (((b mod 16 * 4 + c / 64) * 64 + c mod 64) mod 256) with c by lia. }
    pose proof (enc_longer bl 0 l). pose proof (enc_longer bl (line + 4) l).
    destruct (bl && _); cbn [app] in *; cbn [length] in *.
    + destruct f as [|f]; [lia |].
      destruct (IH Hl 0 f n (i + 6) (k + 3) (d ++ [a; b; c]) (r - 3)) as [rest E]; [lia.. |].
      exists rest. etransitivity; [apply (Hg (13 :: 10 :: enc bl 0 l)) |].
      rewrite (decode_newline (S f)), decode_newline by (tauto || lia).
      replace (i + 4 + 1 + 1) with (i + 6) by lia. rewrite E, <- app_assoc. apply state_eq; [lia | done | lia].
    + destruct (IH Hl (line + 4) (S f) n (i + 4) (k + 3) (d ++ [a; b; c]) (r - 3)) as [rest E]; [lia.. |].
      exists rest. etransitivity; [apply (Hg (enc bl (line + 4) l)) |].
      rewrite E, <- app_assoc. apply state_eq; [lia | done | lia].
Qed.

(** ** Buffer sizes *)

Lemma enc_bound bl l : ∀ line, 0 ≤ line → line mod 4 = 0 →
  38 * zlen (enc bl line l) ≤ 152 * ((zlen l + 2) / 3) + 4 * (zlen l / 3) + line.
Proof.
  induction l as [|a|a b|a b c l IH] using groups_ind; intros line Hl H4; [cbn; lia.. |].
  cbn [enc]. rewrite length_app. cbn [length map sextets].
  destruct (Z.ltb_spec 72 (line + 4)).
  - destruct bl; cbn [andb]; rewrite ?length_app; cbn [length].
    + specialize (IH 0 ltac:(lia) ltac:(lia)). lia.
    + specialize (IH (line + 4) ltac:(lia) ltac:(lia)). lia.
  - rewrite andb_false_r. specialize (IH (line + 4) ltac:(lia) ltac:(lia)). lia.
Qed.

Lemma enc_length l : ∀ line, zlen (enc false line l) = 4 * ((zlen l + 2) / 3).
Proof.
  induction l as [|a|a b|a b c l IH] using groups_ind; intros line; [done.. |].
  cbn [enc andb]. rewrite length_app. cbn [length map sextets]. specialize (IH (line + 4)). lia.
Qed.

Lemma round_shift_near p k : 0 ≤ p → 0 ≤ k → p - 2 ^ k ≤ round_shift p k ≤ p + 2 ^ k.
Proof.
  intros Hp Hk. unfold round_shift. pose proof (Z.pow_pos_nonneg 2 k ltac:(lia) Hk) as H2.
  destruct (k =? 0); [lia |]. pose proof (Z.div_mod p (2 ^ k) ltac:(lia)) as E.
  pose proof (Z.mod_pos_bound p (2 ^ k) ltac:(lia)). set (q := p / 2 ^ k) in *. set (m := p mod 2 ^ k) in *.
  clearbody q m. destruct (_ || _); nia.
Qed.

Lemma times_1_4_near n : 0 ≤ n < 2 ^ 29 →
  n * 6305039478318692 < (times_1_4 n + 1) * 2 ^ 52 ∧ times_1_4 n ≤ 2 * n.
Proof.
  intros Hn. unfold times_1_4. set (p := n * 6305039478318694). set (k := Z.max 0 (Z.log2 p - 52)).
  pose proof (round_shift_near p k ltac:(lia) ltac:(lia)) as Hr.
  assert (Hk : k = 0 ∨ 2 ^ k * 2 ^ 52 ≤ p).
  { destruct (Z.max_spec 0 (Z.log2 p - 52)) as [[Hlt E]|[_ E]]; [right | by left].
    fold k in E. rewrite <- Z.pow_add_r, E by lia. replace (Z.log2 p - 52 + 52) with (Z.log2 p) by lia.
    apply Z.log2_spec. destruct (decide (p = 0)) as [E0|]; [rewrite E0 in Hlt; cbn in Hlt; lia | lia]. }
  assert (H2 : n = 0 ∧ round_shift p k = 0 ∨ 2 ^ k ≤ 2 * n).
  { destruct (decide (n = 0)) as [-> |]; [left; split; reflexivity | right].
    destruct Hk as [Ek|Hk]; [rewrite Ek; change (2 ^ 0) with 1; lia | unfold p in Hk; lia]. }
  set (R := round_shift p k) in *. clearbody R. unfold p in Hr. rewrite wrapS_id by (unfold in_S; lia). lia.
Qed.

Lemma encode_fits bl l : zlen l < 2 ^ 29 → zlen (enc bl 0 l) < times_1_4 (zlen l) + 6.
Proof.
  intros Hl. pose proof (enc_bound bl l 0 ltac:(lia) eq_refl). pose proof (times_1_4_near (zlen l) ltac:(lia)). lia.
Qed.

Lemma encode_string_spec bl l : Forall byte l → zlen l < 2 ^ 29 → encode_string l bl = Ok (enc bl 0 l).
Proof.
  intros Hl Hn. unfold encode_string. destruct (decide (l = [])) as [-> |]; [done |]. unfold filled.
  rewrite wrapS_id by (unfold in_S; lia). rewrite encode_spec by (done || by apply encode_fits).
  rewrite Nat2Z.id. cbn [dst]. by rewrite take_app_length.
Qed.

Lemma enc_much_longer bl l : l ≠ [] → zlen l < zlen (enc bl 0 l).
Proof.
  intros Hne. destruct l as [|a [|b [|c l]]]; [done | cbn; lia.. |]. cbn [enc]. rewrite length_app. cbn [length map sextets].
  pose proof (enc_longer bl 0 l). pose proof (enc_longer bl (0 + 4) l).
  destruct (bl && _); rewrite ?length_app; cbn [length]; lia.
Qed.

Lemma decode_string_spec bl l : Forall byte l → zlen l < 2 ^ 29 → decode_string (enc bl 0 l) = Ok l.
Proof.
  intros Hl Hn. unfold decode_string. destruct (decide (l = [])) as [-> |Hne]; [done |].
  pose proof (enc_much_longer bl l Hne) as Hlong. pose proof (enc_bound bl l 0 ltac:(lia) eq_refl).
  destruct (decide (enc bl 0 l = [])) as [E|_]; [rewrite E in Hlong; cbn in Hlong; lia |]. unfold filled, decode.
  destruct (decode_groups bl l Hl 0 (S (Z.to_nat (zlen (enc bl 0 l)))) (zlen (enc bl 0 l)) 0 0 [] (zlen (enc bl 0 l)))
    as [rest E]; [lia.. |].
  rewrite (bind_Ok _ _ _ _ _ E). erewrite bind_Ok by (apply putc_eq; lia).
  unfold ret. cbn [dst app]. by rewrite Z.add_0_l, Nat2Z.id, take_app_length.
Qed.

(** ** Any string of 7-bit characters *)

Definition ascii (c : Z) : Prop := 0 ≤ c < 128.

Section safe.
Abbreviation safe m s Q := (runs m s Q (λ _ _, False)).

Lemma safe_de c s (Q : Z → st → Prop) : ascii c → (∀ v, Q v s) → safe (de c) s Q.
Proof.
  unfold ascii. intros Hc HQ. unfold runs, de, look. rewrite wrapS_id by (unfold in_S; lia).
  rewrite (proj2 (Z.leb_le _ _)) by lia. destruct (DeBase64Tab !! Z.to_nat c) as [v|] eqn:E; [apply HQ |].
  apply lookup_ge_None in E. assert (length DeBase64Tab = 256%nat) by reflexivity. lia.
Qed.

Lemma safe_getc c cs d r (Q : Z → st → Prop) : Q c (mk cs d r) → safe getc (mk (c :: cs) d r) Q.
Proof. done. Qed.

Lemma safe_putc c cs d r (Q : unit → st → Prop) : 0 < r → (∀ c', Q tt (mk cs (d ++ [c']) (r - 1))) → safe (putc c) (mk cs d r) Q.
Proof. intros Hr HQ. unfold runs, putc; cbn. rewrite (proj2 (Z.ltb_lt _ _)) by done. apply HQ. Qed.

(** What has been written since, and that there is room for the terminator. *)
Definition within (d : list Z) (r k k' : Z) (s : st) : Prop :=
  ∃ out, dst s = d ++ out ∧ k' = k + zlen out ∧ room s = r - zlen out ∧ 0 < room s.

Lemma within_app d r k bs k' s k1 r1 : k1 = k + zlen bs → r1 = r - zlen bs →
  within (d ++ bs) r1 k1 k' s → within d r k k' s.
Proof.
  intros -> -> (out & Ed & Ek & Er & Hr). exists (bs ++ out). rewrite length_app, <- app_assoc in *.
  split_and!; (done || lia).
Qed.

Lemma within_now d r k bs k' s r' : 0 < r' → k' = k + zlen bs → r' = r - zlen bs → within d r k k' (mk s (d ++ bs) r').
Proof. intros. exists bs. split_and!; (done || lia). Qed.

Lemma within_none d r k s : 0 < r → within d r k k (mk s d r).
Proof. intros. exists []. rewrite app_nil_r. cbn. split_and!; (done || lia). Qed.

(** Three characters in four make bytes. *)
Lemma decode_safe f : ∀ n i k s d r, Forall ascii s → 0 ≤ i → n = i + zlen s → n < 2 ^ 61 →
  3 * zlen s < 4 * r → (length s < f)%nat → safe (decode_loop f n i k) (mk s d r) (within d r k).
Proof.
  induction f as [|f IH]; intros n i k s d r Hs Hi En Hn Hr Hf; [lia |]. cbn [decode_loop].
  destruct s as [|c s].
  { cbn in En, Hr. rewrite (proj2 (Z.leb_le _ _)) by lia. apply runs_ret, within_none; lia. }
  cbn [length] in *. rewrite (proj2 (Z.leb_gt _ _)) by lia. apply Forall_cons in Hs as [Hc Hs].
  apply runs_bind. eapply runs_Ok; [reflexivity |].
  destruct (_ && _).
  2: { apply runs_bind, safe_getc. apply IH; (done || lia). }
  rewrite wrapU_id by (unfold in_U; lia).
  destruct (Z.leb_spec n (i + 2)); [apply runs_ret, within_none; lia |].
  destruct s as [|b [|e s]]; cbn [length] in *; [lia.. |]. rewrite !Forall_cons in Hs. destruct Hs as (Hb & He & Hs).
  apply runs_bind, safe_getc, runs_bind, safe_de; [done | intros va]. apply runs_bind, safe_getc, runs_bind, safe_de; [done | intros vb].
  apply runs_bind, safe_putc; [lia | intros o1]. apply runs_bind. eapply runs_Ok; [reflexivity |].
  destruct (negb _).
  2: { eapply runs_weaken_post; [apply IH; [by constructor | cbn [length]; lia..] |]. intros k' s'. apply (within_app _ _ _ [o1]); cbn; lia. }
  apply runs_bind, safe_getc, runs_bind, safe_de; [done | intros ve]. apply runs_bind, safe_putc; [lia | intros o2].
  destruct (Z.leb_spec n (i + 2 + 1)).
  { apply runs_ret. rewrite <- app_assoc. apply (within_now _ _ _ [o1; o2]); cbn; lia. }
  destruct s as [|g s]; cbn [length] in *; [lia |]. apply Forall_cons in Hs as [Hg Hs].
  apply runs_bind. eapply runs_Ok; [reflexivity |]. rewrite <- app_assoc. destruct (negb _).
  2: { eapply runs_weaken_post; [apply IH; [by constructor | cbn [length]; lia..] |]. intros k' s'.
       apply (within_app _ _ _ [o1; o2]); cbn; lia. }
  apply runs_bind, safe_getc, runs_bind, safe_de; [done | intros vg]. apply runs_bind, safe_putc; [lia | intros o3].
  rewrite <- app_assoc. destruct (Z.leb_spec n (i + 2 + 1 + 1)).
  { apply runs_ret. apply (within_now _ _ _ [o1; o2; o3]); cbn; lia. }
  eapply runs_weaken_post; [apply IH; try done; lia |]. intros k' s'. apply (within_app _ _ _ [o1; o2; o3]); cbn; lia.
Qed.
End safe.

Lemma decode_string_safe s : Forall ascii s → zlen s < 2 ^ 61 →
  ∃ out, decode_string s = Ok out ∧ zlen out ≤ zlen s.
Proof.
  intros Hs Hn. unfold decode_string. destruct (decide (s = [])) as [-> |Hne]; [by exists [] |].
  assert (Hpos : 0 < zlen s) by (destruct s; [done | cbn; lia]). unfold filled, decode.
  pose proof (decode_safe (S (Z.to_nat (zlen s))) (zlen s) 0 0 s [] (zlen s) Hs) as H. unfold runs in H.
  specialize (H ltac:(lia) ltac:(lia) Hn ltac:(lia) ltac:(lia)). unfold bind.
  destruct (decode_loop _ _ _ _ _) as [[k| | | |] s']; try done. destruct H as (out & Ed & Ek & Er & Hr).
  unfold putc. rewrite (proj2 (Z.ltb_lt _ _)) by done. unfold ret. cbn [dst]. rewrite Ed, Ek. cbn [app].
  exists out. rewrite Z.add_0_l, Nat2Z.id, take_app_length. split; [done | lia].
Qed.

(** A character with its top bit set indexes the table with a negative number. *)
Lemma decode_string_high a b c s : 128 ≤ a < 256 → zlen s < 2 ^ 61 →
  decode_string (a :: b :: c :: s) = OutOfBounds.
Proof.
  intros Ha Hs. unfold decode_string, filled, decode. cbn [decide list_eq_dec].
  destruct (decide _) as [E|_]; [done |]. set (n := zlen (a :: b :: c :: s)). unfold bind at 1.
  assert (E : decode_loop (S (Z.to_nat n)) n 0 0 (mk (a :: b :: c :: s) [] n) = (OutOfBounds, mk (b :: c :: s) [] n)).
  { cbn [decode_loop]. assert (3 ≤ n) by (unfold n; cbn [length]; lia). rewrite (proj2 (Z.leb_gt _ _)) by lia. step.
    rewrite !(proj2 (Z.eqb_neq _ _)) by lia. cbn [negb andb].
    rewrite wrapU_id, (proj2 (Z.leb_gt _ _)) by (unfold in_U; lia). step. unfold bind at 1, de, look.
    replace (0 <=? wrapS 8 a) with false; [done |]. symmetry. apply Z.leb_gt. unfold wrapS.
    rewrite wrapU_id by (unfold in_U; lia). rewrite (proj2 (Z.ltb_ge _ _)) by lia. lia. }
  by rewrite E.
Qed.
End Base64.

Example base64_abc : Base64.encode_string [77; 97; 110; 77] true = Ok [84; 87; 70; 117; 84; 81; 61; 61].
Proof. vm_compute. reflexivity. Qed.

(** C25: round trip.  A string of less than half a gigabyte is encoded within the
    buffer of [n * 1.4 + 6] characters the code allocates, with or without line
    breaks, and decoding the result gives the string back. *)
Theorem base64_roundtrip (data : list Z) (bChangeLine : bool) :
  Forall Base64.byte data → zlen data < 2 ^ 29 →
  ∃ s, Base64.encode_string data bChangeLine = Ok s ∧ Base64.decode_string s = Ok data ∧
    (bChangeLine = false → zlen s = 4 * ((zlen data + 2) / 3)).
Proof.
  intros Hd Hn. exists (Base64.enc bChangeLine 0 data).
  split; [by apply Base64.encode_string_spec |]. split; [by apply Base64.decode_string_spec |].
  intros ->. apply Base64.enc_length.
Qed.

(** [decode] stays inside its buffers for any string of 7-bit characters, well
    formed or not; a first character of 8 bits makes it read in front of its table. *)
Theorem base64_decode_bounds :
  (∀ s, Forall Base64.ascii s → zlen s < 2 ^ 61 → ∃ out, Base64.decode_string s = Ok out ∧ zlen out ≤ zlen s) ∧
  (∀ a b c s, 128 ≤ a < 256 → zlen s < 2 ^ 61 → Base64.decode_string (a :: b :: c :: s) = OutOfBounds).
Proof. split; [exact Base64.decode_string_safe | exact Base64.decode_string_high]. Qed.

Lemma base64_roundtrip_witness :
  let data := map (λ i, Z.of_nat i) (seq 0 100) in
  Forall Base64.byte data ∧ zlen data < 2 ^ 29 ∧
  ∃ s, Base64.encode_string data true = Ok s ∧ Base64.decode_string s = Ok data ∧
    (true = false → zlen s = 4 * ((zlen data + 2) / 3)).
Proof.
  intros data. assert (Hd : Forall Base64.byte data).
  { apply Forall_forall. intros x Hx. apply list_elem_of_In, in_map_iff in Hx as (i & <- & Hi%in_seq).
    unfold Base64.byte. lia. }
  assert (Hn : zlen data < 2 ^ 29) by (vm_compute; reflexivity).
  split; [exact Hd | split; [exact Hn | exact (base64_roundtrip data true Hd Hn)]].
Defined.
