(* ===== verification/Md5.v ===== *)
(** [TC_MD5] from [src/util/src/tc_md5.cpp], in the 64-bit registers the code
    computes with, and RFC 1321 on 32-bit words.  The two agree on any input, however
    it is cut into calls of [md5update]. *)
From stdpp Require Import prelude list.
From Stdlib Require Import ZArith Lia.
From S2P Require Import Prelude Bytes.

Module MD5.
(** Four registers: [state[4]] of the context, and [A], [B], [C], [D] of [md5_process],
    which are [unsigned long]. *)
Record regs := Regs { rA : Z; rB : Z; rC : Z; rD : Z }.

(** [MD5_CTX]. *)
Record MD5_CTX := mk { state : regs; count0 : Z; count1 : Z; buffer : list Z }.
Abbreviation M A := (prog MD5_CTX Empty_set A).

Definition set_state (s : regs) (c : MD5_CTX) : MD5_CTX := mk s (count0 c) (count1 c) (buffer c).
Definition set_count0 (n : Z) (c : MD5_CTX) : MD5_CTX := mk (state c) n (count1 c) (buffer c).
Definition set_count1 (n : Z) (c : MD5_CTX) : MD5_CTX := mk (state c) (count0 c) n (buffer c).
Definition set_buffer (b : list Z) (c : MD5_CTX) : MD5_CTX := mk (state c) (count0 c) (count1 c) b.

(** [PADDING]. *)
Definition PADDING : list Z := 0x80 :: replicate 63 0.

(** The macros [GET_ULONG_LE] and [PUT_ULONG_LE]; [b] holds the 4 bytes from [i] on. *)
Definition GET_ULONG_LE (b : list Z) (i : nat) : Z :=
  Z.lor (Z.lor (Z.lor (nth i b 0) (Z.shiftl (nth (i + 1) b 0) 8)) (Z.shiftl (nth (i + 2) b 0) 16))
        (Z.shiftl (nth (i + 3) b 0) 24).
Definition PUT_ULONG_LE (n : Z) : list Z :=
  [wrapU 8 n; wrapU 8 (Z.shiftr n 8); wrapU 8 (Z.shiftr n 16); wrapU 8 (Z.shiftr n 24)].

(** [md5init]. *)
Definition md5init : M unit := modify (λ c,
  mk (Regs 0x67452301 0xefcdab89 0x98badcfe 0x10325476) 0 0 (buffer c)).

(** *** [md5_process] *)

(** The four definitions of the macro [F]. *)
Definition F1 (x y z : Z) : Z := Z.lxor z (Z.land x (Z.lxor y z)).
Definition F2 (x y z : Z) : Z := Z.lxor y (Z.land z (Z.lxor x y)).
Definition F3 (x y z : Z) : Z := Z.lxor (Z.lxor x y) z.
Definition F4 (x y z : Z) : Z := Z.lxor y (Z.lor x (wrapU 64 (Z.lnot z))).

(** The macros [S] and [P] on [unsigned long]. *)
Definition S (x n : Z) : Z :=
  Z.lor (wrapU 64 (Z.shiftl x n)) (Z.shiftr (Z.land x 0xFFFFFFFF) (32 - n)).
Definition P (F : Z → Z → Z → Z) (X : list Z) (a b c d : Z) (k : nat) (s t : Z) : Z :=
  let a := wrapU 64 (a + wrapU 64 (wrapU 64 (F b c d + nth k X 0) + t)) in
  wrapU 64 (S a s + b).

(** One line of [md5_process]: the order of the registers, then [k], [s] and [t]. *)
Inductive line : Type :=
  | ABCD (k : nat) (s t : Z) | DABC (k : nat) (s t : Z) | CDAB (k : nat) (s t : Z) | BCDA (k : nat) (s t : Z).

Definition do_line (F : Z → Z → Z → Z) (X : list Z) (r : regs) (l : line) : regs :=
  let 'Regs A B C D := r in
  match l with
  | ABCD k s t => Regs (P F X A B C D k s t) B C D
  | DABC k s t => Regs A B C (P F X D A B C k s t)
  | CDAB k s t => Regs A B (P F X C D A B k s t) D
  | BCDA k s t => Regs A (P F X B C D A k s t) C D
  end.

Definition round1 : list line :=
  [ABCD 0 7 0xD76AA478; DABC 1 12 0xE8C7B756; CDAB 2 17 0x242070DB; BCDA 3 22 0xC1BDCEEE;
   ABCD 4 7 0xF57C0FAF; DABC 5 12 0x4787C62A; CDAB 6 17 0xA8304613; BCDA 7 22 0xFD469501;
   ABCD 8 7 0x698098D8; DABC 9 12 0x8B44F7AF; CDAB 10 17 0xFFFF5BB1; BCDA 11 22 0x895CD7BE;
   ABCD 12 7 0x6B901122; DABC 13 12 0xFD987193; CDAB 14 17 0xA679438E; BCDA 15 22 0x49B40821].
Definition round2 : list line :=
  [ABCD 1 5 0xF61E2562; DABC 6 9 0xC040B340; CDAB 11 14 0x265E5A51; BCDA 0 20 0xE9B6C7AA;
   ABCD 5 5 0xD62F105D; DABC 10 9 0x02441453; CDAB 15 14 0xD8A1E681; BCDA 4 20 0xE7D3FBC8;
   ABCD 9 5 0x21E1CDE6; DABC 14 9 0xC33707D6; CDAB 3 14 0xF4D50D87; BCDA 8 20 0x455A14ED;
   ABCD 13 5 0xA9E3E905; DABC 2 9 0xFCEFA3F8; CDAB 7 14 0x676F02D9; BCDA 12 20 0x8D2A4C8A].
Definition round3 : list line :=
  [ABCD 5 4 0xFFFA3942; DABC 8 11 0x8771F681; CDAB 11 16 0x6D9D6122; BCDA 14 23 0xFDE5380C;
   ABCD 1 4 0xA4BEEA44; DABC 4 11 0x4BDECFA9; CDAB 7 16 0xF6BB4B60; BCDA 10 23 0xBEBFBC70;
   ABCD 13 4 0x289B7EC6; DABC 0 11 0xEAA127FA; CDAB 3 16 0xD4EF3085; BCDA 6 23 0x04881D05;
   ABCD 9 4 0xD9D4D039; DABC 12 11 0xE6DB99E5; CDAB 15 16 0x1FA27CF8; BCDA 2 23 0xC4AC5665].
Definition round4 : list line :=
  [ABCD 0 6 0xF4292244; DABC 7 10 0x432AFF97; CDAB 14 15 0xAB9423A7; BCDA 5 21 0xFC93A039;
   ABCD 12 6 0x655B59C3; DABC 3 10 0x8F0CCC92; CDAB 10 15 0xFFEFF47D; BCDA 1 21 0x85845DD1;
   ABCD 8 6 0x6FA87E4F; DABC 15 10 0xFE2CE6E0; CDAB 6 15 0xA3014314; BCDA 13 21 0x4E0811A1;
   ABCD 4 6 0xF7537E82; DABC 11 10 0xBD3AF235; CDAB 2 15 0x2AD7D2BB; BCDA 9 21 0xEB86D391].

Definition add_state (s r : regs) : regs :=
  Regs (wrapU 32 (rA s + rA r)) (wrapU 32 (rB s + rB r)) (wrapU 32 (rC s + rC r)) (wrapU 32 (rD s + rD r)).

Definition rounds (X : list Z) (r : regs) : regs :=
  fold_left (do_line F4 X) round4 (fold_left (do_line F3 X) round3
    (fold_left (do_line F2 X) round2 (fold_left (do_line F1 X) round1 r))).

Definition md5_process (data : list Z) : M unit := modify (λ c,
  let X := map (λ i, GET_ULONG_LE data (4 * i)) (seq 0 16) in
  set_state (add_state (state c) (rounds X (state c))) c).

(** *** [md5update] *)

(** The [n] bytes at [input + off]. *)
Definition bytes_at (input : list Z) (off n : Z) : M (list Z) := λ c,
  match mem_read input off n with Some d => (Ok d, c) | None => (OutOfBounds, c) end.

(** [memcpy(ctx->buffer + left, input + off, n)]. *)
Definition copy_in (left : Z) (input : list Z) (off n : Z) : M unit :=
  let* d := bytes_at input off n in
  let* c := get_st in
  if left + n <=? zlen (buffer c)
  then modify (set_buffer (take (Z.to_nat left) (buffer c) ++ d ++ drop (Z.to_nat (left + n)) (buffer c)))
  else out_of_bounds.

(** [while( ilen >= 64 )]: the offset in [input] and what is left of [ilen]. *)
Fixpoint process_loop (fuel : nat) (input : list Z) (off ilen : Z) : M (Z * Z) :=
  match fuel with
  | O => λ c, (NoFuel, c)
  | Datatypes.S fuel' =>
    if 64 <=? ilen
    then let* d := bytes_at input off 64 in md5_process d ;;; process_loop fuel' input (off + 64) (ilen - 64)
    else ret (off, ilen)
  end.

Definition md5update (input : list Z) (ilen : Z) : M unit :=
  if ilen <=? 0 then ret tt else
  let* c := get_st in
  let left := Z.land (count0 c) 0x3F in
  let fill := wrapU 32 (64 - left) in
  let count := Z.land (wrapU 32 (count0 c + ilen)) 0xFFFFFFFF in
  modify (set_count0 count) ;;;
  (if count <? ilen then modify (λ c, set_count1 (wrapU 32 (count1 c + 1)) c) else ret tt) ;;;
  let* (left, off, ilen) :=
    (if negb (left =? 0) && (fill <=? ilen) then
       copy_in left input 0 fill ;;;
       let* c := get_st in md5_process (buffer c) ;;;
       ret (0, fill, ilen - fill)
     else ret (left, 0, ilen)) in
  let* (off, ilen) := process_loop (Datatypes.S (Z.to_nat (ilen / 64))) input off ilen in
  if 0 <? ilen then copy_in left input off ilen else ret tt.

(** [md5final]. *)
Definition md5final : M (list Z) :=
  let* c := get_st in
  let high := Z.lor (Z.shiftr (count0 c) 29) (wrapU 32 (Z.shiftl (count1 c) 3)) in
  let low := wrapU 32 (Z.shiftl (count0 c) 3) in
  let msglen := PUT_ULONG_LE low ++ PUT_ULONG_LE high in
  let last := Z.land (count0 c) 0x3F in
  let padn := if last <? 56 then 56 - last else 120 - last in
  md5update PADDING padn ;;;
  md5update msglen 8 ;;;
  let* c := get_st in
  ret (PUT_ULONG_LE (rA (state c)) ++ PUT_ULONG_LE (rB (state c)) ++
       PUT_ULONG_LE (rC (state c)) ++ PUT_ULONG_LE (rD (state c))).

(** A context on the stack, with whatever is there. *)
Definition on_stack {A} (garbage : MD5_CTX) (m : M A) : outcome Empty_set A := (m garbage).1.

(** [md5bin]: the length is cast to [unsigned int]. *)
Definition md5bin (garbage : MD5_CTX) (buffer : list Z) : outcome Empty_set (list Z) :=
  on_stack garbage (md5init ;;; md5update buffer (wrapU 32 (zlen buffer)) ;;; md5final).

(** [bin2str] with an empty separator: [%02x]. *)
Definition hex_digit (d : Z) : Z := if d <? 10 then 48 + d else 97 + (d - 10).
Definition bin2str (buf : list Z) : list Z := flat_map (λ b, [hex_digit (b / 16); hex_digit (b mod 16)]) buf.

Definition md5str (garbage : MD5_CTX) (buffer : list Z) : outcome Empty_set (list Z) :=
  match md5bin garbage buffer with Ok s => Ok (bin2str s) | Throw e => Throw e
  | OutOfBounds => OutOfBounds | AssertFailed => AssertFailed | NoFuel => NoFuel end.

(** [md5file] of a file that is there: [reads] are the contents of [buf] after each
    successful [fread]. *)
Fixpoint update_reads (reads : list (list Z)) : M unit :=
  match reads with
  | [] => ret tt
  | buf :: reads' => md5update buf (wrapU 32 (wrapS 32 (zlen buf))) ;;; update_reads reads'
  end.
Definition md5file (garbage : MD5_CTX) (reads : list (list Z)) : outcome Empty_set (list Z) :=
  on_stack garbage (md5init ;;; update_reads reads ;;; let* d := md5final in ret (bin2str d)).
End MD5.

(** * RFC 1321 *)

Module RFC1321.
Import MD5(regs, Regs, rA, rB, rC, rD).
(** The auxiliary functions, on 32-bit words. *)
Definition not32 (x : Z) : Z := Z.lxor x 0xFFFFFFFF.
Definition F (x y z : Z) : Z := Z.lor (Z.land x y) (Z.land (not32 x) z).
Definition G (x y z : Z) : Z := Z.lor (Z.land x z) (Z.land y (not32 z)).
Definition H (x y z : Z) : Z := Z.lxor x (Z.lxor y z).
Definition I (x y z : Z) : Z := Z.lxor y (Z.lor x (not32 z)).

Definition rotl (x s : Z) : Z := wrapU 32 (Z.lor (Z.shiftl x s) (Z.shiftr x (32 - s))).

(** [T[i] = floor (2^32 * |sin i|)]. *)
Definition T : list Z :=
  [0xd76aa478; 0xe8c7b756; 0x242070db; 0xc1bdceee; 0xf57c0faf; 0x4787c62a; 0xa8304613; 0xfd469501;
   0x698098d8; 0x8b44f7af; 0xffff5bb1; 0x895cd7be; 0x6b901122; 0xfd987193; 0xa679438e; 0x49b40821;
   0xf61e2562; 0xc040b340; 0x265e5a51; 0xe9b6c7aa; 0xd62f105d; 0x02441453; 0xd8a1e681; 0xe7d3fbc8;
   0x21e1cde6; 0xc33707d6; 0xf4d50d87; 0x455a14ed; 0xa9e3e905; 0xfcefa3f8; 0x676f02d9; 0x8d2a4c8a;
   0xfffa3942; 0x8771f681; 0x6d9d6122; 0xfde5380c; 0xa4beea44; 0x4bdecfa9; 0xf6bb4b60; 0xbebfbc70;
   0x289b7ec6; 0xeaa127fa; 0xd4ef3085; 0x04881d05; 0xd9d4d039; 0xe6db99e5; 0x1fa27cf8; 0xc4ac5665;
   0xf4292244; 0x432aff97; 0xab9423a7; 0xfc93a039; 0x655b59c3; 0x8f0ccc92; 0xffeff47d; 0x85845dd1;
   0x6fa87e4f; 0xfe2ce6e0; 0xa3014314; 0x4e0811a1; 0xf7537e82; 0xbd3af235; 0x2ad7d2bb; 0xeb86d391].

(** The parameters of the 64 operations: function, word, rotation and constant. *)
Definition params (i : nat) : (Z → Z → Z → Z) * nat * Z * Z :=
  let f := match (i / 16)%nat with 0%nat => F | 1%nat => G | 2%nat => H | _ => I end in
  let k := match (i / 16)%nat with 0%nat => i | 1%nat => (5 * i + 1) mod 16 | 2%nat => (3 * i + 5) mod 16 | _ => (7 * i) mod 16 end%nat in
  let s := nth (4 * (i / 16) + i mod 4) [7; 12; 17; 22; 5; 9; 14; 20; 4; 11; 16; 23; 6; 10; 15; 21] 0 in
  (f, k, s, nth i T 0).

(** [a = b + ((a + f(b,c,d) + X[k] + T[i]) <<< s)], and the registers move on by one. *)
Definition op (X : list Z) (q : Z * Z * Z * Z) (p : (Z → Z → Z → Z) * nat * Z * Z) : Z * Z * Z * Z :=
  let '(a, b, c, d) := q in
  let '(f, k, s, t) := p in
  (d, wrapU 32 (b + rotl (wrapU 32 (a + f b c d + nth k X 0 + t)) s), b, c).

Definition words (block : list Z) : list Z := map (λ i, le_val (take 4 (drop (4 * i) block))) (seq 0 16).

Definition compress (h : regs) (block : list Z) : regs :=
  let '(a, b, c, d) := fold_left (op (words block)) (map params (seq 0 64)) (rA h, rB h, rC h, rD h) in
  Regs (wrapU 32 (rA h + a)) (wrapU 32 (rB h + b)) (wrapU 32 (rC h + c)) (wrapU 32 (rD h + d)).

(** The first [n] blocks of [m]. *)
Fixpoint blocks (n : nat) (h : regs) (m : list Z) : regs :=
  match n with O => h | S n' => blocks n' (compress h (take 64 m)) (drop 64 m) end.

Definition init : regs := Regs 0x67452301 0xefcdab89 0x98badcfe 0x10325476.

(** A one bit, zeros up to 56 bytes modulo 64, and the number of bits modulo 2^64. *)
Definition pad (m : list Z) : list Z :=
  m ++ 0x80 :: replicate (Z.to_nat ((55 - zlen m) mod 64)) 0 ++ le_bytes 8 (8 * zlen m).

Definition output (h : regs) : list Z :=
  le_bytes 4 (rA h) ++ le_bytes 4 (rB h) ++ le_bytes 4 (rC h) ++ le_bytes 4 (rD h).

Definition digest (m : list Z) : list Z := output (blocks (length (pad m) / 64) init (pad m)).
End RFC1321.

Example rfc1321_abc : MD5.bin2str (RFC1321.digest [97; 98; 99]) =
  [57; 48; 48; 49; 53; 48; 57; 56; 51; 99; 100; 50; 52; 102; 98; 48; 100; 54; 57; 54; 51; 102; 55; 100; 50; 56; 101; 49; 55; 102; 55; 50].
Proof. vm_compute. reflexivity. Qed.

(** * The registers of 64 bits hold the words of 32 *)

Module Registers.
Import MD5.

Abbreviation lo := (wrapU 32).

Lemma lo_land_ones x : lo x = Z.land x (Z.ones 32).
Proof. unfold wrapU. by rewrite Z.land_ones. Qed.

Lemma lo_lo x : lo (lo x) = lo x.
Proof. apply wrapU_id, wrapU_range. lia. Qed.
Lemma lo_64 x : lo (wrapU 64 x) = lo x.
Proof. bitwise. destruct (Z.ltb_spec n 32), (Z.ltb_spec n 64); try done; lia. Qed.
Lemma lo_add x y : lo (x + y) = lo (lo x + lo y).
Proof. unfold wrapU. by rewrite Zplus_mod. Qed.
Lemma lo_add_l x y : lo (lo x + y) = lo (x + y).
Proof. by rewrite lo_add, lo_lo, <- lo_add. Qed.
Lemma lo_add_r x y : lo (x + lo y) = lo (x + y).
Proof. by rewrite lo_add, lo_lo, <- lo_add. Qed.

Lemma lo_add_64 x y : lo (x + wrapU 64 y) = lo (x + y).
Proof. by rewrite lo_add, lo_64, <- lo_add. Qed.
Lemma lo_sum a u x t : lo (a + wrapU 64 (wrapU 64 (u + x) + t)) = lo (lo a + lo u + x + t).
Proof.
  rewrite lo_add_64. replace (a + (wrapU 64 (u + x) + t)) with (a + t + wrapU 64 (u + x)) by lia.
  rewrite lo_add_64, <- !Z.add_assoc, lo_add_l, !(Z.add_comm a), <- !Z.add_assoc, lo_add_l. f_equal. lia.
Qed.

Lemma ones_testbit n : 0 ≤ n → Z.testbit 0xFFFFFFFF n = (n <? 32).
Proof. intros. change 0xFFFFFFFF with (Z.ones 32). by rewrite Z.testbit_ones_nonneg by lia. Qed.

Ltac bool_case :=
  repeat match goal with
  | |- context [?n <? ?w] => destruct (Z.ltb_spec n w)
  | |- context [Z.testbit ?x ?n] => destruct (Z.testbit x n)
  end; try done; lia.

Lemma lo_F1 x y z : lo (F1 x y z) = RFC1321.F (lo x) (lo y) (lo z).
Proof. unfold F1, RFC1321.F, RFC1321.not32. bitwise. rewrite ones_testbit by done. bool_case. Qed.
Lemma lo_F2 x y z : lo (F2 x y z) = RFC1321.G (lo x) (lo y) (lo z).
Proof. unfold F2, RFC1321.G, RFC1321.not32. bitwise. rewrite ones_testbit by done. bool_case. Qed.
Lemma lo_F3 x y z : lo (F3 x y z) = RFC1321.H (lo x) (lo y) (lo z).
Proof. unfold F3, RFC1321.H. bitwise. bool_case. Qed.
Lemma lo_F4 x y z : lo (F4 x y z) = RFC1321.I (lo x) (lo y) (lo z).
Proof. unfold F4, RFC1321.I, RFC1321.not32. bitwise. rewrite ones_testbit by done. bool_case. Qed.

Lemma lo_lor_r x y : lo (Z.lor x (lo y)) = lo (Z.lor x y).
Proof. bitwise. bool_case. Qed.
Lemma lo_mul k x : lo (k * lo x) = lo (k * x).
Proof. unfold wrapU. apply Zmult_mod_idemp_r. Qed.

(** The rotation works on a register with bits above the word. *)
Lemma lo_S x s : 0 < s < 32 → lo (S x s) = RFC1321.rotl (lo x) s.
Proof.
  intros Hs. unfold S, RFC1321.rotl. bitwise.
  rewrite !Z.shiftl_spec, !Z.shiftr_spec, Z.land_spec, ones_testbit by lia.
  destruct (Z.leb_spec s n).
  - rewrite testbit_wrapU by lia. rewrite (testbit_wrapU 32 x (n + _)) by lia. bool_case.
  - rewrite !(Z.testbit_neg_r _ (n - s)) by lia. rewrite (testbit_wrapU 32 x (n + _)) by lia. bool_case.
Qed.

(** The number of a line in its group of four, and its operation. *)
Definition ord (l : line) : nat :=
  match l with ABCD _ _ _ => 0 | DABC _ _ _ => 1 | CDAB _ _ _ => 2 | BCDA _ _ _ => 3 end.
Definition args (l : line) : nat * Z * Z :=
  match l with ABCD k s t | DABC k s t | CDAB k s t | BCDA k s t => (k, s, t) end.
Definition op_of (f : Z → Z → Z → Z) (l : line) : (Z → Z → Z → Z) * nat * Z * Z :=
  let '(k, s, t) := args l in (f, k, s, t).

(** The registers as line [o] of a group names them, and the words they hold. *)
Definition view (o : nat) (r : regs) : Z * Z * Z * Z :=
  let 'Regs A B C D := r in
  match o with
  | 0%nat => (lo A, lo B, lo C, lo D) | 1%nat => (lo D, lo A, lo B, lo C)
  | 2%nat => (lo C, lo D, lo A, lo B) | _ => (lo B, lo C, lo D, lo A)
  end.

(** The lines go round the registers. *)
Fixpoint ends (o : nat) (ls : list line) : option nat :=
  match ls with
  | [] => Some o
  | l :: ls' => if bool_decide (ord l = o) then ends ((o + 1) mod 4) ls' else None
  end.

Section round.
Context (F f : Z → Z → Z → Z) (X : list Z).
Context (HF : ∀ x y z, lo (F x y z) = f (lo x) (lo y) (lo z)).

Lemma lo_P a b c d k s t : 0 < s < 32 →
  lo (P F X a b c d k s t) = lo (lo b + RFC1321.rotl (lo (lo a + f (lo b) (lo c) (lo d) + nth k X 0 + t)) s).
Proof.
  intros Hs. unfold P. cbv zeta. rewrite lo_64, (Z.add_comm (S _ _)), lo_add, lo_S by done. rewrite lo_64.
  do 3 f_equal. rewrite <- HF. apply lo_sum.
Qed.

Lemma line_view l r : 0 < (args l).1.2 < 32 →
  view ((ord l + 1) mod 4) (do_line F X r l) = RFC1321.op X (view (ord l) r) (op_of f l).
Proof. destruct r as [A B C D], l; cbn; intros Hs; by rewrite lo_P. Qed.

Lemma round_view ls o o' r : ends o ls = Some o' → Forall (λ l, 0 < (args l).1.2 < 32) ls →
  view o' (fold_left (do_line F X) ls r) = fold_left (RFC1321.op X) (map (op_of f) ls) (view o r).
Proof.
  intros He Hs. revert o r He. induction Hs as [|l ls Hl Hs IH]; intros o r; cbn [ends fold_left map]; [by intros [= ->] |].
  case_bool_decide as Ho; [|done]. intros He. rewrite (IH _ _ He), <- Ho, line_view by done. done.
Qed.
End round.

Lemma rotations : Forall (λ l, 0 < (args l).1.2 < 32) (round1 ++ round2 ++ round3 ++ round4).
Proof. repeat constructor. Qed.

Lemma table : map RFC1321.params (seq 0 64) =
  map (op_of RFC1321.F) round1 ++ map (op_of RFC1321.G) round2 ++
  map (op_of RFC1321.H) round3 ++ map (op_of RFC1321.I) round4.
Proof. reflexivity. Qed.

Lemma rounds_view X r :
  view 0 (rounds X r) = fold_left (RFC1321.op X) (map RFC1321.params (seq 0 64)) (view 0 r).
Proof.
  pose proof rotations as Hr. rewrite !Forall_app in Hr. destruct Hr as (H1 & H2 & H3 & H4).
  unfold rounds. rewrite table, !fold_left_app.
  rewrite (round_view F4 _ X lo_F4 round4 0 0), (round_view F3 _ X lo_F3 round3 0 0),
    (round_view F2 _ X lo_F2 round2 0 0), (round_view F1 _ X lo_F1 round1 0 0); done.
Qed.
End Registers.

(** * Blocks *)

Module Stream.
Import MD5 Registers.

Lemma GET_eq b i : bytes_ok b → (i + 4 ≤ length b)%nat → GET_ULONG_LE b i = le_val (take 4 (drop i b)).
Proof.
  intros Hb Hi. assert (Hd : bytes_ok (drop i b)) by (by apply Forall_drop).
  assert (Hl : (4 ≤ length (drop i b))%nat) by (rewrite length_drop; lia).
  unfold GET_ULONG_LE. rewrite <- (take_drop i b) at 1 2 3 4.
  rewrite !app_nth2 by (rewrite length_take; lia). rewrite length_take, Nat.min_l by lia.
  replace (i - i)%nat with 0%nat by lia. replace (i + 1 - i)%nat with 1%nat by lia.
  replace (i + 2 - i)%nat with 2%nat by lia. replace (i + 3 - i)%nat with 3%nat by lia.
  destruct (drop i b) as [|c0 [|c1 [|c2 [|c3 l]]]]; cbn in Hl; try lia. rewrite !Forall_cons in Hd. unfold is_byte in Hd.
  cbn [nth take le_val]. 
  rewrite (lor_shiftl c0), (lor_shiftl (c0 + _)), (lor_shiftl (c0 + _ + _)) by lia.
  rewrite take_0. cbn [le_val]. lia.
Qed.

Lemma PUT_eq n : PUT_ULONG_LE n = le_bytes 4 n.
Proof.
  unfold PUT_ULONG_LE. rewrite !Z.shiftr_div_pow2 by lia. cbn [le_bytes].
  by rewrite !Z.div_div by lia.
Qed.

Definition words_ok (h : regs) : Prop := in_U 32 (rA h) ∧ in_U 32 (rB h) ∧ in_U 32 (rC h) ∧ in_U 32 (rD h).

Lemma view_words h : words_ok h → view 0 h = (rA h, rB h, rC h, rD h).
Proof. destruct h as [A B C D]. unfold words_ok. cbn. intros (? & ? & ? & ?). by rewrite !wrapU_id. Qed.

(** One block, in the code and in the specification. *)
Lemma process_compress h b : words_ok h → bytes_ok b → length b = 64%nat →
  add_state h (rounds (map (λ i, GET_ULONG_LE b (4 * i)) (seq 0 16)) h) = RFC1321.compress h b.
Proof.
  intros Hh Hb Hl. assert (EX : map (λ i, GET_ULONG_LE b (4 * i)) (seq 0 16) = RFC1321.words b).
  { unfold RFC1321.words. apply map_ext_in. intros i Hi%in_seq. apply GET_eq; [done | lia]. }
  rewrite EX. unfold RFC1321.compress. rewrite <- (view_words h Hh), <- rounds_view.
  destruct (rounds _ h) as [A B C D]. cbn. unfold add_state. cbn. by rewrite !lo_add_r.
Qed.

Lemma compress_words h b : words_ok (RFC1321.compress h b).
Proof.
  unfold RFC1321.compress. destruct (fold_left _ _ _) as [[[a b'] c] d].
  unfold words_ok. cbn [rA rB rC rD]. auto with bytes lia.
Qed.

Lemma blocks_words n h m : words_ok h → words_ok (RFC1321.blocks n h m).
Proof. revert h m. induction n as [|n IH]; intros h m Hh; [done |]. apply IH, compress_words. Qed.

Lemma blocks_app n k h m :
  RFC1321.blocks (n + k) h m = RFC1321.blocks k (RFC1321.blocks n h m) (drop (64 * n) m).
Proof.
  revert h m. induction n as [|n IH]; intros h m; [done |]. cbn [Nat.add RFC1321.blocks]. rewrite IH, drop_drop.
  do 2 f_equal. lia.
Qed.

Lemma blocks_prefix n h m m' : (64 * n ≤ length m)%nat → RFC1321.blocks n h (m ++ m') = RFC1321.blocks n h m.
Proof.
  revert h m. induction n as [|n IH]; intros h m Hn; [done |]. cbn [RFC1321.blocks].
  rewrite take_app_le, drop_app_le by lia. apply IH. rewrite length_drop. lia.
Qed.

(** The registers after the whole blocks [B]. *)
Definition after (B : list Z) (h : regs) : Prop :=
  ∃ n, length B = (64 * n)%nat ∧ h = RFC1321.blocks n RFC1321.init B.

Lemma after_words B h : after B h → words_ok h.
Proof. intros (n & _ & ->). apply blocks_words. repeat split; cbn; lia. Qed.

Lemma after_nil : after [] RFC1321.init.
Proof. by exists 0%nat. Qed.

Lemma after_snoc B h b : after B h → length b = 64%nat → after (B ++ b) (RFC1321.compress h b).
Proof.
  intros (n & Hn & ->) Hb. exists (n + 1)%nat. rewrite length_app. split; [lia |].
  rewrite blocks_app, <- Hn, drop_app_length, blocks_prefix by lia. cbn [RFC1321.blocks].
  by rewrite take_ge by lia.
Qed.

Lemma after_all B h : after B h → h = RFC1321.blocks (length B / 64) RFC1321.init B.
Proof. intros (n & Hn & ->). by rewrite Hn, Nat.mul_comm, Nat.div_mul. Qed.

Lemma md5_process_eq c B b : after B (state c) → bytes_ok b → length b = 64%nat →
  ∃ h, md5_process b c = (Ok tt, set_state h c) ∧ after (B ++ b) h.
Proof.
  intros Ha Hb Hl. exists (RFC1321.compress (state c) b). split; [|by apply after_snoc].
  unfold md5_process, modify. cbv beta zeta. by rewrite (process_compress _ _ (after_words _ _ Ha) Hb Hl).
Qed.

Lemma bytes_at_eq input off n d c : mem_read input off n = Some d → bytes_at input off n c = (Ok d, c).
Proof. unfold bytes_at. by intros ->. Qed.

(** What is read in two parts. *)
Lemma mem_read_split l off n d k : mem_read l off n = Some d → 0 ≤ k ≤ n →
  mem_read l off k = Some (take (Z.to_nat k) d) ∧ mem_read l (off + k) (n - k) = Some (drop (Z.to_nat k) d).
Proof.
  intros E Hk. pose proof (mem_read_length _ _ _ _ E) as (Hd & Ho & Hn). unfold mem_read in *.
  rewrite !(proj2 (Z.leb_le _ _)) in * by lia. cbn [andb] in *. injection E as <-. split; f_equal.
  - rewrite take_take. f_equal. lia.
  - rewrite skipn_firstn_comm, drop_drop. f_equal; [lia | f_equal; lia].
Qed.

Lemma process_loop_eq input fuel : ∀ c B off ilen d, after B (state c) → mem_read input off ilen = Some d → bytes_ok d →
  (Z.to_nat (ilen / 64) < fuel)%nat →
  ∃ h off' ilen' q r, process_loop fuel input off ilen c = (Ok (off', ilen'), set_state h c) ∧ after (B ++ q) h ∧
    d = q ++ r ∧ ilen' = zlen r ∧ zlen r < 64 ∧ mem_read input off' ilen' = Some r.
Proof.
  induction fuel as [|fuel IH]; intros c B off ilen d Ha Hd Hok Hf; [lia |]. cbn [process_loop].
  pose proof (mem_read_length _ _ _ _ Hd) as (Hlen & _ & _).
  destruct (Z.leb_spec 64 ilen) as [Hge|Hlt].
  - destruct (mem_read_split _ _ _ _ 64 Hd ltac:(lia)) as [H1 H2].
    rewrite (bind_Ok _ _ _ _ _ (bytes_at_eq _ _ _ _ c H1)).
    destruct (md5_process_eq c B (take (Z.to_nat 64) d)) as (h & E & Ha'); [done | by apply Forall_take | rewrite length_take; lia |].
    rewrite (bind_Ok _ _ _ _ _ E).
    destruct (IH (set_state h c) _ _ _ _ Ha' H2) as (h' & off' & ilen' & q & r & -> & Ha'' & Hq & Hr1 & Hr2 & Hr3);
      [by apply Forall_drop | |].
    + assert (ilen / 64 = (ilen - 64) / 64 + 1) by (rewrite <- Z.div_add by lia; f_equal; lia).
      pose proof (Z.div_pos (ilen - 64) 64). lia.
    + exists h', off', ilen', (take (Z.to_nat 64) d ++ q), r. rewrite (assoc_L app). split_and!; try done.
      by rewrite <- (assoc_L app), <- Hq, take_drop.
  - exists (state c), off, ilen, [], d. rewrite app_nil_r. destruct c. split_and!; done || lia.
Qed.

(** The lengths in [count]. *)
Definition counts (c : MD5_CTX) (n : Z) : Prop := count0 c = wrapU 32 n ∧ count1 c = wrapU 32 (n / 2 ^ 32).

(** The context after the bytes [bs]: whole blocks [B] in the registers, the rest [r]
    in the buffer. *)
Definition holds (c : MD5_CTX) (bs : list Z) : Prop :=
  counts c (zlen bs) ∧ length (buffer c) = 64%nat ∧ bytes_ok bs ∧
  ∃ B r, bs = B ++ r ∧ after B (state c) ∧ (length r < 64)%nat ∧ take (length r) (buffer c) = r.

Lemma land_63 x : Z.land x 0x3F = x mod 64.
Proof. change 0x3F with (Z.ones 6). by rewrite Z.land_ones. Qed.
Lemma land_32 x : Z.land x 0xFFFFFFFF = wrapU 32 x.
Proof. change 0xFFFFFFFF with (Z.ones 32). by rewrite Z.land_ones. Qed.

Lemma left_eq c bs B r : counts c (zlen bs) → bs = B ++ r → after B (state c) → (length r < 64)%nat →
  Z.land (count0 c) 0x3F = zlen r.
Proof.
  intros [-> _] -> (n & Hn & _) Hr. rewrite land_63, length_app, Hn. unfold wrapU.
  pose proof (Z.mod_mod_divide (Z.of_nat (64 * n + length r)) (2 ^ 32) 64 ltac:(by exists (2 ^ 26))) as ->.
  rewrite Nat2Z.inj_add, Nat2Z.inj_mul, Z.add_comm, Z.mul_comm, Z.mod_add by lia. apply Z.mod_small. lia.
Qed.

(** The carry into the second word. *)
Lemma carry n m : 0 ≤ n → 0 ≤ m < 2 ^ 32 →
  (if wrapU 32 (n + m) <? m then wrapU 32 (wrapU 32 (n / 2 ^ 32) + 1) else wrapU 32 (n / 2 ^ 32)) =
  wrapU 32 ((n + m) / 2 ^ 32).
Proof.
  intros Hn Hm. rewrite lo_add_l. pose proof (Z.div_mod n (2 ^ 32) ltac:(lia)) as E.
  pose proof (Z.mod_pos_bound n (2 ^ 32) ltac:(lia)) as Hr.
  set (q := n / 2 ^ 32) in *. set (r := n mod 2 ^ 32) in *.
  destruct (Z.lt_ge_cases (r + m) (2 ^ 32)) as [Hs|Hs].
  - assert (Eq : wrapU 32 (n + m) = r + m) by (unfold wrapU; symmetry; apply (Z.mod_unique_pos _ _ q); lia).
    rewrite Eq, (proj2 (Z.ltb_ge _ _)) by lia. f_equal. apply (Z.div_unique_pos _ _ _ (r + m)); lia.
  - assert (Eq : wrapU 32 (n + m) = r + m - 2 ^ 32) by (unfold wrapU; symmetry; apply (Z.mod_unique_pos _ _ (q + 1)); lia).
    rewrite Eq, (proj2 (Z.ltb_lt _ _)) by lia. f_equal. apply (Z.div_unique_pos _ _ _ (r + m - 2 ^ 32)); lia.
Qed.

Lemma copy_in_eq left input off n d c : mem_read input off n = Some d → length (buffer c) = 64%nat → 0 ≤ left → left + n ≤ 64 →
  copy_in left input off n c =
    (Ok tt, set_buffer (take (Z.to_nat left) (buffer c) ++ d ++ drop (Z.to_nat (left + n)) (buffer c)) c).
Proof.
  intros Hd Hb Hl Hn. unfold copy_in. rewrite (bind_Ok _ _ _ _ _ (bytes_at_eq _ _ _ _ c Hd)). unfold bind, get_st.
  by rewrite Hb, (proj2 (Z.leb_le _ _)) by lia.
Qed.

(** The new counts. *)
Definition with_counts (c : MD5_CTX) (n : Z) : MD5_CTX := set_count1 (wrapU 32 (n / 2 ^ 32)) (set_count0 (wrapU 32 n) c).

Lemma md5update_counts (c : MD5_CTX) n m {A} (k : unit → M A) : counts c n → 0 ≤ n → 0 ≤ m < 2 ^ 32 →
  (modify (set_count0 (Z.land (wrapU 32 (count0 c + m)) 0xFFFFFFFF)) ;;;
   let* u := (if Z.land (wrapU 32 (count0 c + m)) 0xFFFFFFFF <? m
              then modify (λ c, set_count1 (wrapU 32 (count1 c + 1)) c) else ret tt) in k u) c =
  k tt (with_counts c (n + m)).
Proof.
  intros [E0 E1] Hn Hm. rewrite land_32, lo_lo, E0, lo_add_l. unfold bind at 1, modify at 1. unfold bind.
  pose proof (carry n m Hn Hm) as Ec. rewrite <- E1 in Ec. unfold with_counts. rewrite <- Ec.
  by destruct (wrapU 32 (n + m) <? m), c.
Qed.

(** The registers hold [B], the buffer starts with [r]. *)
Definition split_at (c : MD5_CTX) (B r : list Z) : Prop :=
  after B (state c) ∧ length (buffer c) = 64%nat ∧ bytes_ok r ∧ (length r < 64)%nat ∧ take (length r) (buffer c) = r.

(** A partial block is completed and processed, if there is enough for it. *)
Lemma fill_eq input c B r d : split_at c B r → mem_read input 0 (zlen d) = Some d → bytes_ok d → zlen d < 2 ^ 32 →
  ∃ c' B' r' off d',
    (if negb (zlen r =? 0) && (wrapU 32 (64 - zlen r) <=? zlen d) then
       copy_in (zlen r) input 0 (wrapU 32 (64 - zlen r)) ;;;
       let* c := get_st in md5_process (buffer c) ;;;
       ret (0, wrapU 32 (64 - zlen r), zlen d - wrapU 32 (64 - zlen r))
     else ret (zlen r, 0, zlen d)) c = (Ok (zlen r', off, zlen d'), c') ∧
    split_at c' B' r' ∧ B' ++ r' ++ d' = B ++ r ++ d ∧ mem_read input off (zlen d') = Some d' ∧
    (r' = [] ∨ zlen r' + zlen d' < 64) ∧ count0 c' = count0 c ∧ count1 c' = count1 c.
Proof.
  intros (Ha & Hb & Hr & Hlr & Et) Hd Hok Hlen. rewrite wrapU_id by (unfold in_U; lia).
  destruct (Z.eqb_spec (zlen r) 0) as [Er|Er]; [|destruct (Z.leb_spec (64 - zlen r) (zlen d)) as [Hf|Hf]]; cbn [negb andb].
  - assert (r = []) as -> by (by destruct r). exists c, B, [], 0, d. split_and!; try done; by left.
  - destruct (mem_read_split _ _ _ _ (64 - zlen r) Hd ltac:(lia)) as [H1 H2].
    set (q := take (Z.to_nat (64 - zlen r)) d) in *. set (d' := drop (Z.to_nat (64 - zlen r)) d) in *.
    assert (Hq : length q = (64 - length r)%nat) by (unfold q; rewrite length_take; lia).
    assert (Hd' : zlen d' = zlen d - (64 - zlen r)) by (unfold d'; rewrite length_drop, Nat2Z.inj_sub, Z2Nat.id; lia).
    rewrite (bind_Ok _ _ _ _ _ (copy_in_eq (zlen r) input 0 (64 - zlen r) q c H1 Hb ltac:(lia) ltac:(lia))).
    rewrite (drop_ge (buffer c)) by (rewrite Hb, Zplus_minus; cbn; lia).
    rewrite app_nil_r, Nat2Z.id, Et.
    unfold bind at 1, get_st. cbn [buffer set_buffer].
    destruct (md5_process_eq (set_buffer (r ++ q) c) B (r ++ q)) as (h & E & Ha'); [done | | rewrite length_app; lia |].
    { apply Forall_app. split; [done | by apply Forall_take]. }
    rewrite (bind_Ok _ _ _ _ _ E).
    exists (set_state h (set_buffer (r ++ q) c)), (B ++ r ++ q), [], (0 + (64 - zlen r)), d'.
    
    split_and!; try done; try (by left); try (by rewrite Hd').
    + split_and!; [done | cbn; rewrite length_app; lia | done | cbn; lia | done].
    + rewrite app_nil_l, <- !(assoc_L app). unfold q, d'. by rewrite take_drop.
  - exists c, B, r, 0, d. split_and!; try done. right. lia.
Qed.

Lemma take_overwrite {A} (l r d : list A) : take (length r) l = r → (length r + length d ≤ length l)%nat →
  take (length (r ++ d)) (take (length r) l ++ d ++ drop (length r + length d) l) = r ++ d.
Proof. intros -> _. by rewrite (assoc_L app), take_app_length. Qed.

(** The loop and the copy of what is left. *)
Lemma rest_eq input c B r off d : split_at c B r → mem_read input off (zlen d) = Some d → bytes_ok d →
  (r = [] ∨ zlen r + zlen d < 64) →
  ∃ c' B' r', (let* (off, ilen) := process_loop (Datatypes.S (Z.to_nat (zlen d / 64))) input off (zlen d) in
    if 0 <? ilen then copy_in (zlen r) input off ilen else ret tt) c = (Ok tt, c') ∧
  split_at c' B' r' ∧ B' ++ r' = B ++ r ++ d ∧ count0 c' = count0 c ∧ count1 c' = count1 c.
Proof.
  intros (Ha & Hb & Hr & Hlr & Et) Hd Hok Hcase.
  destruct (process_loop_eq input (Datatypes.S (Z.to_nat (zlen d / 64))) c B off (zlen d) d) as
    (h & off' & ilen' & q & r2 & E & Ha' & -> & -> & Hr2 & Hm); [done..| lia |].
  rewrite (bind_Ok _ _ _ _ _ E). rewrite Forall_app in Hok. destruct Hok as [Hq Hok2].
  assert (Eq : r = [] ∨ q = []).
  { destruct Hcase as [|Hc]; [by left | right]. destruct Ha as (n & Hn & _), Ha' as (n' & Hn' & _).
    rewrite length_app in Hn', Hc. apply nil_length_inv. lia. }
  assert (Ecat : (B ++ q) ++ r ++ r2 = B ++ r ++ q ++ r2).
  { destruct Eq as [-> | ->]; cbn; by rewrite ?app_nil_r, <- ?(assoc_L app). }
  assert (Hlen : (length (r ++ r2) < 64)%nat).
  { rewrite length_app. destruct Hcase as [->|Hc]; [cbn; lia |]. rewrite length_app in Hc. lia. }
  destruct (Z.ltb_spec 0 (zlen r2)) as [Hpos|Hz].
  - rewrite length_app in Hlen. rewrite (copy_in_eq _ _ _ _ _ _ Hm) by (done || lia).
    eexists _, (B ++ q), (r ++ r2). split; [reflexivity |]. split; [|done].
    split_and!; cbn [state buffer set_state set_buffer]; [done | | by apply Forall_app | by rewrite length_app |].
    + rewrite !length_app, length_take, length_drop. lia.
    + replace (Z.to_nat (zlen r)) with (length r) by lia.
      replace (Z.to_nat (zlen r + zlen r2)) with (length r + length r2)%nat by lia.
      apply take_overwrite; [done | lia].
  - assert (r2 = []) as -> by (apply nil_length_inv; lia). rewrite !app_nil_r in *.
    eexists _, (B ++ q), r. split; [reflexivity |]. by split_and!.
Qed.

Lemma md5update_eq input ilen c bs d : holds c bs → mem_read input 0 ilen = Some d → bytes_ok d → ilen < 2 ^ 32 →
  ∃ c', md5update input ilen c = (Ok tt, c') ∧ holds c' (bs ++ d).
Proof.
  intros (Hc & Hb & Hok & B & r & -> & Ha & Hlr & Et) Hd Hokd Hlen.
  pose proof (mem_read_length _ _ _ _ Hd) as (Hl & _ & _). subst ilen. unfold md5update.
  destruct (Z.leb_spec (zlen d) 0).
  - assert (d = []) as -> by (apply nil_length_inv; lia). exists c. rewrite app_nil_r. split; [done |].
    split_and!; eauto 10.
  - unfold bind at 1, get_st at 1. rewrite (left_eq c _ B r) by done.
    rewrite (md5update_counts c (zlen (B ++ r))) by (done || lia).
    set (c0 := with_counts c _). apply Forall_app in Hok as [HokB Hokr].
    destruct (fill_eq input c0 B r d) as (c1 & B1 & r1 & off & d1 & E1 & Hs1 & Hcat & Hm & Hcase & Ec0 & Ec1); [by split_and! | done..|].
    rewrite (bind_Ok _ _ _ _ _ E1).
    assert (Hok1 : bytes_ok (B1 ++ r1 ++ d1)) by (rewrite Hcat, !Forall_app; by split_and!).
    rewrite !Forall_app in Hok1.
    destruct (rest_eq input c1 B1 r1 off d1) as (c2 & B2 & r2 & E2 & Hs2 & Hcat2 & Ec2 & Ec3); [done | done | apply Hok1 | done |].
    exists c2. split; [exact E2 |]. destruct Hs2 as (Ha2 & Hb2 & Hr2 & Hlr2 & Et2).
    assert (Ebs : (B ++ r) ++ d = B2 ++ r2) by (by rewrite <- (assoc_L app), Hcat2, Hcat).
    split_and!; [| done | by rewrite !Forall_app |].
    + split; [rewrite Ec2, Ec0 | rewrite Ec3, Ec1]; rewrite (length_app _ d), Nat2Z.inj_add; done.
    + exists B2, r2. by split_and!.
Qed.

Lemma md5init_holds g : length (buffer g) = 64%nat → ∃ c, md5init g = (Ok tt, c) ∧ holds c [].
Proof.
  intros Hb. eexists. split; [reflexivity |]. split; [done |]. split; [done |]. split; [done |].
  exists [], []. split_and!; [done | apply after_nil | cbn; lia | done].
Qed.

(** The eight bytes of the length. *)
Lemma msglen_eq c n : counts c n → 0 ≤ n →
  PUT_ULONG_LE (wrapU 32 (Z.shiftl (count0 c) 3)) ++
  PUT_ULONG_LE (Z.lor (Z.shiftr (count0 c) 29) (wrapU 32 (Z.shiftl (count1 c) 3))) = le_bytes 8 (8 * n).
Proof.
  intros [-> ->] Hn. rewrite !PUT_eq. rewrite (le_bytes_app 4 4), (Z.shiftr_div_pow2 (8 * n)) by lia. change (8 * Z.of_nat 4) with 32.
  pose proof (Z.div_mod n (2 ^ 32) ltac:(lia)) as E. pose proof (wrapU_range 32 n ltac:(lia)) as Hr.
  unfold in_U in Hr. change (n mod 2 ^ 32) with (wrapU 32 n) in E.
  set (r := wrapU 32 n) in *. set (q := n / 2 ^ 32) in *. f_equal.
  - rewrite (le_bytes_wrapU 4). rewrite <- (le_bytes_wrapU 4 (8 * n)), <- (le_bytes_wrapU 4). f_equal.
    change (8 * Z.of_nat 4) with 32. rewrite Z.shiftl_mul_pow2 by lia. unfold wrapU.
    rewrite E. replace (8 * (2 ^ 32 * q + r)) with (r * 2 ^ 3 + 8 * q * 2 ^ 32) by lia. by rewrite Z.mod_add by lia.
  - assert (Ed : 8 * n / 2 ^ 32 = r / 2 ^ 29 + 8 * q).
    { rewrite E. replace (8 * (2 ^ 32 * q + r)) with (8 * r + 8 * q * 2 ^ 32) by lia. rewrite Z.div_add by lia.
      f_equal. change (2 ^ 32) with (8 * 2 ^ 29). by rewrite Z.div_mul_cancel_l by lia. }
    rewrite <- (le_bytes_wrapU 4), <- (le_bytes_wrapU 4 (8 * n / 2 ^ 32)). f_equal. change (8 * Z.of_nat 4) with 32.
    assert (Hd : 0 ≤ r / 2 ^ 29 < 2 ^ 3) by (split; [apply Z.div_pos | apply Z.div_lt_upper_bound]; lia).
    rewrite Ed, Z.shiftr_div_pow2, lo_lor_r, lor_shiftl by lia. rewrite lo_add, lo_mul, <- lo_add. done.
Qed.

Lemma length_pad m : ∃ n, length (RFC1321.pad m) = (64 * n)%nat.
Proof.
  exists (Z.to_nat ((zlen m + 72) / 64)). unfold RFC1321.pad. rewrite length_app. cbn [length].
  rewrite length_app, length_replicate, length_le_bytes.
  pose proof (Z.div_mod (zlen m + 72) 64 ltac:(lia)). pose proof (Z.mod_pos_bound (55 - zlen m) 64 ltac:(lia)).
  pose proof (Z.mod_pos_bound (zlen m + 72) 64 ltac:(lia)).
  assert ((zlen m + 72) mod 64 = 63 - (55 - zlen m) mod 64).
  { replace (zlen m + 72) with (63 - (55 - zlen m) + 1 * 64) by lia. rewrite Z.mod_add by lia.
    symmetry. apply (Z.mod_unique_pos _ _ (- ((55 - zlen m) / 64))); [lia |].
    pose proof (Z.div_mod (55 - zlen m) 64 ltac:(lia)). lia. }
  lia.
Qed.

Lemma padding_read k : 0 ≤ k < 64 → mem_read PADDING 0 (k + 1) = Some (0x80 :: replicate (Z.to_nat k) 0).
Proof.
  intros Hk. unfold mem_read. change (zlen PADDING) with 64. rewrite !(proj2 (Z.leb_le _ _)) by lia. cbn [andb].
  replace (Z.to_nat (k + 1)) with (Datatypes.S (Z.to_nat k)) by lia. unfold PADDING. change (Z.to_nat 0) with 0%nat. rewrite drop_0.
  cbn [take]. rewrite take_replicate. do 3 f_equal. lia.
Qed.

Lemma padn_eq n : (if n mod 64 <? 56 then 56 - n mod 64 else 120 - n mod 64) = (55 - n) mod 64 + 1.
Proof.
  pose proof (Z.mod_pos_bound n 64 ltac:(lia)). pose proof (Z.div_mod n 64 ltac:(lia)).
  destruct (Z.ltb_spec (n mod 64) 56).
  - rewrite <- (Z.mod_unique_pos (55 - n) 64 (- (n / 64)) (55 - n mod 64)); lia.
  - rewrite <- (Z.mod_unique_pos (55 - n) 64 (- (n / 64) - 1) (119 - n mod 64)); lia.
Qed.

Lemma md5final_eq c bs : holds c bs → ∃ c', md5final c = (Ok (RFC1321.digest bs), c').
Proof.
  intros Hh. pose proof Hh as (Hc & _ & Hok & _). unfold md5final. unfold bind at 1, get_st at 1.
  rewrite (msglen_eq c (zlen bs)) by (done || lia).
  assert (El : Z.land (count0 c) 0x3F = zlen bs mod 64).
  { rewrite (proj1 Hc), land_63. unfold wrapU. apply Z.mod_mod_divide. by exists (2 ^ 26). }
  rewrite El, padn_eq. pose proof (Z.mod_pos_bound (55 - zlen bs) 64 ltac:(lia)) as Hm.
  destruct (md5update_eq PADDING _ c bs _ Hh (padding_read _ Hm)) as (c1 & E1 & H1); [| lia |].
  { apply Forall_cons. split; [unfold is_byte; lia | apply Forall_replicate; unfold is_byte; lia]. }
  rewrite (bind_Ok _ _ _ _ _ E1).
  destruct (md5update_eq (le_bytes 8 (8 * zlen bs)) 8 c1 _ (le_bytes 8 (8 * zlen bs)) H1) as (c2 & E2 & H2);
    [reflexivity | apply le_bytes_ok | lia |].
  rewrite (bind_Ok _ _ _ _ _ E2). unfold bind, get_st, ret. exists c2. rewrite !PUT_eq.
  destruct H2 as (_ & _ & _ & B & r & Ebs & Ha & Hr & _). rewrite <- (assoc_L app) in Ebs. cbn [app] in Ebs.
  fold (RFC1321.pad bs) in Ebs. destruct (length_pad bs) as [n Hn]. pose proof Ha as (k & Hk & _).
  rewrite Ebs, length_app in Hn. assert (r = []) as -> by (apply nil_length_inv; lia). rewrite app_nil_r in Ebs.
  rewrite (after_all _ _ Ha), <- Ebs. done.
Qed.

Lemma update_reads_eq reads : ∀ c bs, Forall (λ b, bytes_ok b ∧ zlen b < 2 ^ 31) reads → holds c bs →
  ∃ c', update_reads reads c = (Ok tt, c') ∧ holds c' (bs ++ concat reads).
Proof.
  induction reads as [|b reads IH]; intros c bs Hr Hh; cbn [update_reads concat].
  { exists c. by rewrite app_nil_r. }
  apply Forall_cons in Hr as [[Hok Hb] Hr]. rewrite wrapS_id, wrapU_id by (unfold in_U, in_S; lia).
  destruct (md5update_eq b (zlen b) c bs b Hh) as (c' & E & Hh'); [| done | lia |].
  { pose proof (mem_read_app [] b []) as Hm. by rewrite app_nil_l, app_nil_r in Hm. }
  rewrite (bind_Ok _ _ _ _ _ E), (assoc_L app). by apply IH.
Qed.

Lemma md5bin_eq garbage bs : length (buffer garbage) = 64%nat → bytes_ok bs → zlen bs < 2 ^ 32 →
  md5bin garbage bs = Ok (RFC1321.digest bs).
Proof.
  intros Hg Hok Hlen. destruct (md5init_holds _ Hg) as (c0 & E0 & H0).
  unfold md5bin, on_stack. rewrite (bind_Ok _ _ _ _ _ E0), wrapU_id by (unfold in_U; lia).
  destruct (md5update_eq bs (zlen bs) c0 [] bs H0) as (c1 & E1 & H1); [| done | done |].
  { pose proof (mem_read_app [] bs []) as Hm. by rewrite app_nil_l, app_nil_r in Hm. }
  rewrite (bind_Ok _ _ _ _ _ E1). by destruct (md5final_eq c1 _ H1) as [c2 ->].
Qed.
End Stream.

(** C27: equivalence.  The digest is the one of RFC 1321, in memory, for any string of
    less than 2^32 bytes and any file however [fread] delivers it; the contents of the
    context on the stack do not matter. *)
Theorem md5_is_rfc1321 (garbage : MD5.MD5_CTX) (bs : list Z) (reads : list (list Z)) :
  length (MD5.buffer garbage) = 64%nat → bytes_ok bs → zlen bs < 2 ^ 32 →
  Forall (λ b, bytes_ok b ∧ zlen b < 2 ^ 31) reads →
  MD5.md5bin garbage bs = Ok (RFC1321.digest bs) ∧
  MD5.md5file garbage reads = Ok (MD5.bin2str (RFC1321.digest (concat reads))).
Proof.
  intros Hg Hok Hlen Hr. split; [by apply Stream.md5bin_eq |].
  destruct (Stream.md5init_holds _ Hg) as (c0 & E0 & H0).
  unfold MD5.md5file, MD5.on_stack. rewrite (bind_Ok _ _ _ _ _ E0).
  destruct (Stream.update_reads_eq reads c0 [] Hr H0) as (c1 & E1 & H1). rewrite (bind_Ok _ _ _ _ _ E1).
  destruct (Stream.md5final_eq c1 _ H1) as [c2 E2]. by rewrite (bind_Ok _ _ _ _ _ E2).
Qed.

Definition stack_garbage : MD5.MD5_CTX := MD5.mk (MD5.Regs 1 2 3 4) 5 6 (replicate 64 7).

Lemma md5_is_rfc1321_witness :
  MD5.md5bin stack_garbage [97; 98; 99] = Ok (RFC1321.digest [97; 98; 99]) ∧
  MD5.md5file stack_garbage [[97]; [98; 99]] = Ok (MD5.bin2str (RFC1321.digest (concat [[97]; [98; 99]]))).
Proof. apply md5_is_rfc1321; [done | | done |]; repeat constructor; cbn; lia. Defined.
