(* ===== verification/Tea.v ===== *)
(** [TC_Tea] from [src/util/src/tc_tea.cpp]: the cipher on blocks of eight bytes, the
    chained mode with its padding, salt and zeros, and the vectors around them. *)
From stdpp Require Import prelude list.
From Stdlib Require Import ZArith Lia.
From S2P Require Import Prelude Bytes.

Module Tea.
Definition DELTA : Z := 0x9e3779b9.
Definition ROUNDS : nat := 16.
Definition LOG_ROUNDS : Z := 4.
Definition SALT_LEN : Z := 2.
Definition ZERO_LEN : Z := 7.

(** *** One block *)

(** [ntohl] of the [WORD32] at [p + off]. *)
Definition load (p : list Z) (off : Z) : option Z := (λ b, ntohl (le_val b)) <$> mem_read p off 4.

(** [((z << 4) + a) ^ (z + sum) ^ ((z >> 5) + b)] on [WORD32]. *)
Definition mix (z sum a b : Z) : Z :=
  Z.lxor (Z.lxor (wrapU 32 (wrapU 32 (Z.shiftl z 4) + a)) (wrapU 32 (z + sum))) (wrapU 32 (Z.shiftr z 5 + b)).

(** [k[4]]. *)
Record keys := Keys { k0 : Z; k1 : Z; k2 : Z; k3 : Z }.
Definition load_keys (pKey : list Z) : option keys :=
  a ← load pKey 0; b ← load pKey 4; c ← load pKey 8; d ← load pKey 12; Some (Keys a b c d).

(** The two loops. *)
Fixpoint encrypt_rounds (n : nat) (k : keys) (sum y z : Z) : Z * Z :=
  match n with
  | O => (y, z)
  | S n' =>
    let sum := wrapU 32 (sum + DELTA) in
    let y := wrapU 32 (y + mix z sum (k0 k) (k1 k)) in
    let z := wrapU 32 (z + mix y sum (k2 k) (k3 k)) in
    encrypt_rounds n' k sum y z
  end.

Fixpoint decrypt_rounds (n : nat) (k : keys) (sum y z : Z) : Z * Z :=
  match n with
  | O => (y, z)
  | S n' =>
    let z := wrapU 32 (z - mix y sum (k2 k) (k3 k)) in
    let y := wrapU 32 (y - mix z sum (k0 k) (k1 k)) in
    decrypt_rounds n' k (wrapU 32 (sum - DELTA)) y z
  end.

(** [htonl] of both halves. *)
Definition store (yz : Z * Z) : list Z := le_bytes 4 (htonl yz.1) ++ le_bytes 4 (htonl yz.2).

Definition TeaEncryptECB (pInBuf pKey : list Z) : option (list Z) :=
  y ← load pInBuf 0; z ← load pInBuf 4; k ← load_keys pKey;
  Some (store (encrypt_rounds ROUNDS k 0 y z)).

Definition TeaDecryptECB (pInBuf pKey : list Z) : option (list Z) :=
  y ← load pInBuf 0; z ← load pInBuf 4; k ← load_keys pKey;
  Some (store (decrypt_rounds ROUNDS k (wrapU 32 (Z.shiftl DELTA LOG_ROUNDS)) y z)).

(** A byte-wise [^=]. *)
Definition xor8 (a b : list Z) : list Z := zip_with Z.lxor a b.

(** *** Encryption *)

(** The length of the padding and of the output. *)
Definition nPadlen (nInBufLen : Z) : Z :=
  let n := Z.rem (nInBufLen + 1 + SALT_LEN + ZERO_LEN) 8 in if n =? 0 then 0 else 8 - n.
Definition oi_symmetry_encrypt2_len (nInBufLen : Z) : Z :=
  wrapS 32 (nInBufLen + 1 + SALT_LEN + ZERO_LEN + nPadlen nInBufLen).

Module Enc.
(** The locals of [oi_symmetry_encrypt2]; [iv_crypt] points at [iv_plain] ([None]) or
    into the output.  [out] is the memory at the [pOutBuf] of the caller, [pIn] and
    [pOut] are offsets, [nrand] counts the calls of [rand]. *)
Record st := mk {
  src_buf : list Z; src_i : Z; iv_plain : list Z; iv_crypt : option Z;
  out : list Z; pOut : Z; pIn : Z; nrand : nat
}.
Abbreviation M A := (prog st Empty_set A).

Section encrypt.
Context (rand : nat → Z) (pInBuf pKey : list Z).

Definition some_or_oob {A} (o : option A) : M A := λ s, match o with Some a => (Ok a, s) | None => (OutOfBounds, s) end.

(** [(char)rand()] and [*(pInBuf++)]. *)
Definition next_rand : M Z := λ s,
  (Ok (wrapU 8 (rand (nrand s))), mk (src_buf s) (src_i s) (iv_plain s) (iv_crypt s) (out s) (pOut s) (pIn s) (S (nrand s))).
Definition next_in : M Z := λ s,
  match mem_read pInBuf (pIn s) 1 with
  | Some [b] => (Ok b, mk (src_buf s) (src_i s) (iv_plain s) (iv_crypt s) (out s) (pOut s) (pIn s + 1) (nrand s))
  | _ => (OutOfBounds, s)
  end.

(** [src_buf[src_i++] = v]. *)
Definition put (v : Z) : M unit := λ s,
  if (0 <=? src_i s) && (src_i s <? zlen (src_buf s))
  then (Ok tt, mk (<[Z.to_nat (src_i s) := v]> (src_buf s)) (src_i s + 1) (iv_plain s) (iv_crypt s) (out s) (pOut s) (pIn s) (nrand s))
  else (OutOfBounds, s).

(** [src_i == 8]: chain, encrypt, write eight bytes, start the next block. *)
Definition flush : M unit := λ s,
  match (match iv_crypt s with None => Some (iv_plain s) | Some p => mem_read (out s) p 8 end) with
  | None => (OutOfBounds, s)
  | Some iv =>
    let src := xor8 (src_buf s) iv in
    match TeaEncryptECB src pKey, mem_read (out s) (pOut s) 8 with
    | Some c, Some _ =>
      (Ok tt, mk src 0 src (Some (pOut s))
        (take (Z.to_nat (pOut s)) (out s) ++ xor8 c (iv_plain s) ++ drop (Z.to_nat (pOut s + 8)) (out s))
        (pOut s + 8) (pIn s) (nrand s))
    | _, _ => (OutOfBounds, s)
    end
  end.

(** The three loops: [n] more bytes from [next]. *)
Fixpoint feed (fuel : nat) (next : M Z) (n : Z) : M unit :=
  match fuel with
  | O => λ s, (NoFuel, s)
  | S fuel' =>
    if n =? 0 then ret tt else
    let* s := get_st in
    let* n := (if src_i s <? 8 then let* v := next in put v ;;; ret (n - 1) else ret n) in
    let* s := get_st in
    (if src_i s =? 8 then flush else ret tt) ;;;
    feed fuel' next n
  end.

(** [while (nPadlen--)]. *)
Fixpoint padding (n : nat) : M unit :=
  match n with O => ret tt | S n' => let* v := next_rand in put v ;;; padding n' end.

(** [oi_symmetry_encrypt2]: the length of the output. *)
Definition oi_symmetry_encrypt2 (nInBufLen : Z) : M Z :=
  let* r := next_rand in
  put (Z.lor (Z.land r 0xf8) (nPadlen nInBufLen)) ;;;
  padding (Z.to_nat (nPadlen nInBufLen)) ;;;
  feed (S (S (Z.to_nat SALT_LEN))) next_rand SALT_LEN ;;;
  feed (S (S (Z.to_nat nInBufLen))) next_in nInBufLen ;;;
  feed (S (S (Z.to_nat ZERO_LEN))) (ret 0) ZERO_LEN ;;;
  let* s := get_st in ret (pOut s).
End encrypt.
End Enc.

(** *** Decryption *)

Module Dec.
(** The locals of [oi_symmetry_decrypt2]; [iv_pre_crypt] points at [zero_buf] ([None])
    or into the input, as [iv_cur_crypt] does.  [out] is the memory at [pOutBuf]. *)
Record st := mk {
  dest_buf : list Z; dest_i : Z; iv_pre_crypt : option Z; iv_cur_crypt : Z;
  pIn : Z; nBufPos : Z; out : list Z; pOut : Z
}.

(** [return false] in the middle. *)
Inductive early : Type := return_false.
Abbreviation M A := (prog st early A).

Section decrypt.
Context (pInBuf pKey : list Z) (nInBufLen : Z).

Definition set_dest_buf (b : list Z) (s : st) : st :=
  mk b (dest_i s) (iv_pre_crypt s) (iv_cur_crypt s) (pIn s) (nBufPos s) (out s) (pOut s).
Definition set_dest_i (i : Z) (s : st) : st :=
  mk (dest_buf s) i (iv_pre_crypt s) (iv_cur_crypt s) (pIn s) (nBufPos s) (out s) (pOut s).
Definition shift_iv (s : st) : st :=
  mk (dest_buf s) (dest_i s) (Some (iv_cur_crypt s)) (pIn s) (pIn s) (nBufPos s) (out s) (pOut s).
Definition advance (s : st) : st :=
  mk (dest_buf s) 0 (iv_pre_crypt s) (iv_cur_crypt s) (pIn s + 8) (nBufPos s + 8) (out s) (pOut s).
Definition write_out (b : Z) (s : st) : st :=
  mk (dest_buf s) (dest_i s) (iv_pre_crypt s) (iv_cur_crypt s) (pIn s) (nBufPos s) (<[Z.to_nat (pOut s) := b]> (out s)) (pOut s + 1).

(** One byte of memory. *)
Definition byte_at (l : list Z) (i : Z) : M Z := λ s,
  match mem_read l i 1 with Some [b] => (Ok b, s) | _ => (OutOfBounds, s) end.

(** The loop over [j]. *)
Fixpoint xor_in (n : nat) (j : Z) : M unit :=
  match n with
  | O => ret tt
  | S n' =>
    let* s := get_st in
    if nInBufLen <=? nBufPos s + j then throw return_false else
    let* d := byte_at (dest_buf s) j in
    let* c := byte_at pInBuf (pIn s + j) in
    modify (set_dest_buf (<[Z.to_nat j := Z.lxor d c]> (dest_buf s))) ;;;
    xor_in n' (j + 1)
  end.

(** [dest_i == 8]: the next block. *)
Definition next_block : M unit :=
  modify shift_iv ;;;
  xor_in 8 0 ;;;
  let* s := get_st in
  match TeaDecryptECB (dest_buf s) pKey with
  | Some b => modify (set_dest_buf b) ;;; modify advance
  | None => out_of_bounds
  end.

(** [dest_buf[dest_i] ^ iv_pre_crypt[dest_i]]. *)
Definition plain_byte : M Z :=
  let* s := get_st in
  let* d := byte_at (dest_buf s) (dest_i s) in
  let* v := match iv_pre_crypt s with
            | None => byte_at (replicate 8 0) (dest_i s)
            | Some p => byte_at pInBuf (p + dest_i s)
            end in
  ret (Z.lxor d v).

Definition inc_dest_i : M unit := modify (λ s, set_dest_i (dest_i s + 1) s).

(** The three bodies: skip a byte, copy it, check that it is zero. *)
Definition skip_byte : M unit := inc_dest_i.
Definition copy_byte : M unit :=
  let* b := plain_byte in
  let* s := get_st in
  (if pOut s <? zlen (out s) then modify (write_out b) else out_of_bounds) ;;; inc_dest_i.
Definition zero_byte : M unit :=
  let* b := plain_byte in if negb (b =? 0) then throw return_false else inc_dest_i.

(** The three loops. *)
Fixpoint drain (fuel : nat) (use : M unit) (n : Z) : M unit :=
  match fuel with
  | O => λ s, (NoFuel, s)
  | S fuel' =>
    if n =? 0 then ret tt else
    let* s := get_st in
    if dest_i s <? 8 then use ;;; drain fuel' use (n - 1)
    else if dest_i s =? 8 then next_block ;;; drain fuel' use n
    else drain fuel' use n
  end.

(** Fuel for [n] bytes: each may take the next block first. *)
Definition twice (n : Z) : nat := S (2 * Z.to_nat n).

(** Behind the first block. *)
Definition body (nPadLen nPlainLen : Z) : M unit :=
  modify (set_dest_i (1 + nPadLen)) ;;;
  drain (twice SALT_LEN) skip_byte SALT_LEN ;;;
  drain (twice nPlainLen) copy_byte nPlainLen ;;;
  drain (twice ZERO_LEN) zero_byte ZERO_LEN.

(** [oi_symmetry_decrypt2] into the memory [mem], with [*pOutBufLen]: the memory
    afterwards and the length of the plain text, [None] for [return false]. *)
Definition oi_symmetry_decrypt2 (mem : list Z) (pOutBufLen : Z) : outcome early (list Z * option Z) :=
  if negb (Z.rem nInBufLen 8 =? 0) || (nInBufLen <? 16) then Ok (mem, None) else
  match TeaDecryptECB (take 8 pInBuf) pKey with
  | None => OutOfBounds
  | Some dest =>
    let nPadLen := Z.land (nth 0 dest 0) 7 in
    let i := nInBufLen - 1 - nPadLen - SALT_LEN - ZERO_LEN in
    if (pOutBufLen <? wrapU 64 i) || (i <? 0) then Ok (mem, None) else
    match body nPadLen i (mk dest 1 None 0 8 8 mem 0) with
    | (Ok _, s) => Ok (out s, Some i)
    | (Throw return_false, s) => Ok (out s, None)
    | (OutOfBounds, _) => OutOfBounds
    | (AssertFailed, _) => AssertFailed
    | (NoFuel, _) => NoFuel
    end
  end.
End decrypt.
End Dec.

(** *** [vector<char>] *)

(** The memory of the vector, as long as its capacity, and its size. *)
Record vec := Vec { vmem : list Z; vsize : Z }.
Definition capacity (v : vec) : Z := zlen (vmem v).
Definition vdata (v : vec) : list Z := take (Z.to_nat (vsize v)) (vmem v).

Section vectors.
(** The memory a vector that has to grow gets behind the [n] elements it needs. *)
Context (spare : vec → Z → list Z).

(** [v.resize(n)]. *)
Definition resize (n : Z) (v : vec) : vec :=
  if n <=? vsize v then Vec (vmem v) n
  else if n <=? capacity v
  then Vec (vdata v ++ replicate (Z.to_nat (n - vsize v)) 0 ++ drop (Z.to_nat n) (vmem v)) n
  else Vec (vdata v ++ replicate (Z.to_nat (n - vsize v)) 0 ++ spare v n) n.

(** [TC_Tea::encrypt]; [garbage] is what is in [src_buf]. *)
Definition encrypt (rand : nat → Z) (garbage key sIn : list Z) (iLength : Z) (buffer : vec) : outcome Empty_set vec :=
  let outlen := wrapU 64 (oi_symmetry_encrypt2_len (wrapS 32 iLength)) in
  let buffer := if capacity buffer <? outlen * 2 then resize (outlen * 2) buffer else buffer in
  match Enc.oi_symmetry_encrypt2 rand sIn key (wrapS 32 iLength)
          (Enc.mk garbage 0 (replicate 8 0) None (vmem buffer) 0 0 0) with
  | (Ok n, s) => Ok (resize n (Vec (Enc.out s) (vsize buffer)))
  | (Throw e, _) => Throw e
  | (OutOfBounds, _) => OutOfBounds
  | (AssertFailed, _) => AssertFailed
  | (NoFuel, _) => NoFuel
  end.

(** [TC_Tea::decrypt]: the vector and the result. *)
Definition decrypt (key sIn : list Z) (iLength : Z) (buffer : vec) : outcome Dec.early (vec * bool) :=
  let outlen := iLength in
  let buffer := if capacity buffer <? outlen * 2 then resize (outlen * 2) buffer else buffer in
  let buffer := resize (outlen * 2) buffer in
  match Dec.oi_symmetry_decrypt2 sIn key (wrapS 32 iLength) (vmem buffer) outlen with
  | Ok (m, Some n) => Ok (resize n (Vec m (vsize buffer)), true)
  | Ok (m, None) => Ok (Vec m (vsize buffer), false)
  | Throw e => Throw e
  | OutOfBounds => OutOfBounds
  | AssertFailed => AssertFailed
  | NoFuel => NoFuel
  end.
End vectors.
End Tea.

(** * The block cipher *)

Module Ecb.
Import Tea.

Definition enc1 (k : keys) (sum : Z) (yz : Z * Z) : Z * Z :=
  let y := wrapU 32 (yz.1 + mix yz.2 sum (k0 k) (k1 k)) in (y, wrapU 32 (yz.2 + mix y sum (k2 k) (k3 k))).
Definition dec1 (k : keys) (sum : Z) (yz : Z * Z) : Z * Z :=
  let z := wrapU 32 (yz.2 - mix yz.1 sum (k2 k) (k3 k)) in (wrapU 32 (yz.1 - mix z sum (k0 k) (k1 k)), z).

Lemma wrapU_add_sub w x m : wrapU w (wrapU w (x + m) - m) = wrapU w x.
Proof. unfold wrapU. rewrite Zminus_mod_idemp_l. f_equal. lia. Qed.

Lemma dec1_enc1 k sum yz : in_U 32 yz.1 → in_U 32 yz.2 → dec1 k sum (enc1 k sum yz) = yz.
Proof.
  destruct yz as [y z]. cbn. intros Hy Hz. unfold dec1, enc1. cbn.
  by rewrite wrapU_add_sub, (wrapU_id 32 z), wrapU_add_sub, wrapU_id.
Qed.

Lemma enc1_range k sum yz : in_U 32 (enc1 k sum yz).1 ∧ in_U 32 (enc1 k sum yz).2.
Proof. split; apply wrapU_range; lia. Qed.

Lemma wrapU_sub_l w x y : wrapU w (wrapU w x - y) = wrapU w (x - y).
Proof. unfold wrapU. by rewrite Zminus_mod_idemp_l. Qed.
Lemma wrapU_add_l w x y : wrapU w (wrapU w x + y) = wrapU w (x + y).
Proof. unfold wrapU. by rewrite Zplus_mod_idemp_l. Qed.

(** The rounds on pairs, and the last of [n + 1] rounds. *)
Lemma decrypt_rounds_step k n sum yz :
  decrypt_rounds (S n) k sum yz.1 yz.2 =
  decrypt_rounds n k (wrapU 32 (sum - DELTA)) (dec1 k sum yz).1 (dec1 k sum yz).2.
Proof. done. Qed.

Lemma decrypt_rounds_snoc k n : ∀ sum yz, in_U 32 sum →
  decrypt_rounds (S n) k sum yz.1 yz.2 =
  dec1 k (wrapU 32 (sum - Z.of_nat n * DELTA)) (decrypt_rounds n k sum yz.1 yz.2).
Proof.
  induction n as [|n IH]; intros sum yz Hs; rewrite decrypt_rounds_step.
  - cbn [decrypt_rounds]. rewrite Z.sub_0_r, wrapU_id by done. by destruct yz.
  - rewrite IH by (apply wrapU_range; lia). rewrite wrapU_sub_l, <- decrypt_rounds_step. do 2 f_equal. lia.
Qed.

Lemma rounds_inverse k n : ∀ sum yz, in_U 32 yz.1 → in_U 32 yz.2 →
  let w := encrypt_rounds n k sum yz.1 yz.2 in
  decrypt_rounds n k (wrapU 32 (sum + Z.of_nat n * DELTA)) w.1 w.2 = yz.
Proof.
  induction n as [|n IH]; intros sum yz Hy Hz; cbn zeta; [by destruct yz |].
  change (encrypt_rounds (S n) k sum yz.1 yz.2) with
    (encrypt_rounds n k (wrapU 32 (sum + DELTA)) (enc1 k (wrapU 32 (sum + DELTA)) yz).1 (enc1 k (wrapU 32 (sum + DELTA)) yz).2).
  rewrite decrypt_rounds_snoc by (apply wrapU_range; lia).
  replace (sum + Z.of_nat (S n) * DELTA) with (sum + DELTA + Z.of_nat n * DELTA) by lia.
  rewrite <- (wrapU_add_l 32 (sum + DELTA)) at 2. rewrite IH by apply enc1_range.
  rewrite wrapU_add_sub, dec1_enc1 by done. done.
Qed.

Lemma rounds_range k n : ∀ sum yz, in_U 32 yz.1 → in_U 32 yz.2 →
  in_U 32 (encrypt_rounds n k sum yz.1 yz.2).1 ∧ in_U 32 (encrypt_rounds n k sum yz.1 yz.2).2.
Proof. induction n as [|n IH]; intros sum yz Hy Hz; [done |]. apply (IH _ (enc1 k _ yz)); apply enc1_range. Qed.

(** The word at [off], and the block of two words. *)
Definition word (b : list Z) (off : nat) : Z := ntohl (le_val (take 4 (drop off b))).

Lemma load_word b off : 0 ≤ off → off + 4 ≤ zlen b → load b off = Some (word b (Z.to_nat off)).
Proof. intros. unfold load, mem_read. by rewrite !(proj2 (Z.leb_le _ _)) by lia. Qed.

Lemma word_range b off : in_U 32 (word b off).
Proof. apply (bswap_range 4). Qed.

Lemma word_htonl l v r : in_U 32 v → word (l ++ le_bytes 4 (htonl v) ++ r) (length l) = v.
Proof.
  intros Hv. unfold word. rewrite drop_app_length, take_app_length' by (by rewrite length_le_bytes).
  rewrite le_val_le_bytes. rewrite wrapU_id by apply (bswap_range 4). unfold ntohl, htonl.
  rewrite (bswap_involutive 4). by apply wrapU_id.
Qed.

Lemma word_store w : in_U 32 w.1 → in_U 32 w.2 → word (store w) 0 = w.1 ∧ word (store w) 4 = w.2.
Proof.
  intros Hy Hz. split; [exact (word_htonl [] w.1 _ Hy) |].
  pose proof (word_htonl (le_bytes 4 (htonl w.1)) w.2 [] Hz) as E. by rewrite app_nil_r in E.
Qed.

Lemma store_words b : length b = 8%nat → bytes_ok b → store (word b 0, word b 4) = b.
Proof.
  intros Hl Hb. unfold store. cbn [fst snd]. unfold word, htonl, ntohl.
  assert (Hw : ∀ l, length l = 4%nat → bytes_ok l → le_bytes 4 (bswap 4 (bswap 4 (le_val l))) = l).
  { intros l Hl4 Hl'. rewrite bswap_involutive, (le_bytes_wrapU 4). rewrite <- Hl4. by apply le_bytes_le_val. }
  rewrite !Hw by (try (by apply Forall_take, Forall_drop); rewrite length_take, length_drop, Hl; done).
  rewrite drop_0, (take_ge (drop 4 b)) by (rewrite length_drop, Hl; lia). apply take_drop.
Qed.

Lemma length_store yz : length (store yz) = 8%nat.
Proof. unfold store. by rewrite length_app, !length_le_bytes. Qed.
Lemma store_ok yz : bytes_ok (store yz).
Proof. unfold store. apply Forall_app. split; apply le_bytes_ok. Qed.

Definition enc8 (k : keys) (b : list Z) : list Z := store (encrypt_rounds ROUNDS k 0 (word b 0) (word b 4)).
Definition dec8 (k : keys) (b : list Z) : list Z :=
  store (decrypt_rounds ROUNDS k (wrapU 32 (Z.shiftl DELTA LOG_ROUNDS)) (word b 0) (word b 4)).

Lemma dec8_enc8 k b : length b = 8%nat → bytes_ok b → dec8 k (enc8 k b) = b.
Proof.
  intros Hl Hb. set (yz := (word b 0, word b 4)).
  destruct (rounds_range k ROUNDS 0 yz (word_range b 0) (word_range b 4)) as [Hy Hz].
  pose proof (rounds_inverse k ROUNDS 0 yz (word_range b 0) (word_range b 4)) as Hinv.
  unfold dec8, enc8. cbv zeta in Hinv. change (0 + Z.of_nat ROUNDS * DELTA) with (Z.shiftl DELTA LOG_ROUNDS) in Hinv.
  change (word b 0) with yz.1. change (word b 4) with yz.2.
  revert Hy Hz Hinv. generalize (encrypt_rounds ROUNDS k 0 yz.1 yz.2) as w. intros w Hy Hz Hinv.
  destruct (word_store w Hy Hz) as [-> ->]. rewrite Hinv. by apply store_words.
Qed.

Lemma load_keys_ok pKey : length pKey = 16%nat → is_Some (load_keys pKey).
Proof.
  intros Hl. unfold load_keys. rewrite (load_word pKey 0), (load_word pKey 4), (load_word pKey 8), (load_word pKey 12) by lia.
  cbn. eauto.
Qed.

Lemma TeaEncryptECB_eq b pKey k : length b = 8%nat → load_keys pKey = Some k → TeaEncryptECB b pKey = Some (enc8 k b).
Proof. intros Hl Hk. unfold TeaEncryptECB. by rewrite (load_word b 0), (load_word b 4), Hk by lia. Qed.
Lemma TeaDecryptECB_eq b pKey k : length b = 8%nat → load_keys pKey = Some k → TeaDecryptECB b pKey = Some (dec8 k b).
Proof. intros Hl Hk. unfold TeaDecryptECB. by rewrite (load_word b 0), (load_word b 4), Hk by lia. Qed.

(** *** Byte-wise xor *)

Lemma length_xor8 a b : length a = 8%nat → length b = 8%nat → length (xor8 a b) = 8%nat.
Proof. intros Ha Hb. unfold xor8. rewrite length_zip_with. lia. Qed.
Lemma xor8_ok a b : bytes_ok a → bytes_ok b → bytes_ok (xor8 a b).
Proof.
  intros Ha. revert b. induction Ha as [|x a Hx Ha IH]; intros [|y b] Hb; try done. apply Forall_cons in Hb as [Hy Hb].
  apply Forall_cons. split; [by apply (lxor_range 8) | by apply IH].
Qed.
Lemma xor8_twice a b : length a = length b → xor8 (xor8 a b) b = a.
Proof.
  revert b. induction a as [|x a IH]; intros [|y b]; try done. cbn. intros [= Hl]. unfold xor8 in IH.
  by rewrite IH, Z.lxor_assoc, Z.lxor_nilpotent, Z.lxor_0_r.
Qed.
Lemma xor8_comm a b : xor8 a b = xor8 b a.
Proof. revert b. induction a as [|x a IH]; intros [|y b]; cbn; [done..|]. by rewrite Z.lxor_comm, <- IH. Qed.
End Ecb.

(** * The chained mode *)

Module Chain.
Import Tea Ecb.

(** After some blocks: the last plain text after chaining, the last cipher text, and
    all of the cipher text. *)
Definition step (k : keys) (a : list Z * list Z * list Z) (P : list Z) : list Z * list Z * list Z :=
  let '(x, c, os) := a in
  let x' := xor8 P c in
  let c' := xor8 (enc8 k x') x in
  (x', c', os ++ c').
Definition run (k : keys) (B : list (list Z)) : list Z * list Z * list Z :=
  fold_left (step k) B (replicate 8 0, replicate 8 0, []).
Definition X (k : keys) (B : list (list Z)) : list Z := (run k B).1.1.
Definition C (k : keys) (B : list (list Z)) : list Z := (run k B).1.2.
Definition cipher (k : keys) (B : list (list Z)) : list Z := (run k B).2.

Definition blocks_ok (B : list (list Z)) : Prop := Forall (λ P, length P = 8%nat ∧ bytes_ok P) B.

Section chain.
Context (k : keys).

Lemma run_snoc B P : run k (B ++ [P]) = step k (run k B) P.
Proof. unfold run. by rewrite fold_left_app. Qed.
Lemma X_snoc B P : X k (B ++ [P]) = xor8 P (C k B).
Proof. unfold X, C. rewrite run_snoc. by destruct (run k B) as [[x c] os]. Qed.
Lemma C_snoc B P : C k (B ++ [P]) = xor8 (enc8 k (X k (B ++ [P]))) (X k B).
Proof. unfold X, C. rewrite !run_snoc. by destruct (run k B) as [[x c] os]. Qed.
Lemma cipher_snoc B P : cipher k (B ++ [P]) = cipher k B ++ C k (B ++ [P]).
Proof. unfold cipher, C. rewrite !run_snoc. by destruct (run k B) as [[x c] os]. Qed.

Lemma XC_ok B : blocks_ok B →
  (length (X k B) = 8%nat ∧ bytes_ok (X k B)) ∧ (length (C k B) = 8%nat ∧ bytes_ok (C k B)).
Proof.
  induction B as [|P B IH] using rev_ind; intros HB; [by repeat constructor |].
  apply Forall_app in HB as [HB [[HP HPok] _]%Forall_cons]. destruct (IH HB) as [[HX HXok] [HC HCok]].
  assert (HX' : length (X k (B ++ [P])) = 8%nat ∧ bytes_ok (X k (B ++ [P]))).
  { rewrite X_snoc. split; [by apply length_xor8 | by apply xor8_ok]. }
  split; [done |]. rewrite C_snoc. split; [apply length_xor8; [apply length_store | done] | apply xor8_ok; [apply store_ok | done]].
Qed.

Lemma length_cipher B : blocks_ok B → length (cipher k B) = (8 * length B)%nat.
Proof.
  induction B as [|P B IH] using rev_ind; intros HB; [done |]. pose proof HB as [HB1 _]%Forall_app.
  rewrite cipher_snoc, !length_app, IH by done. destruct (XC_ok _ HB) as [_ [-> _]]. cbn. lia.
Qed.

Lemma cipher_ok B : blocks_ok B → bytes_ok (cipher k B).
Proof.
  induction B as [|P B IH] using rev_ind; intros HB; [constructor |]. pose proof HB as [HB1 _]%Forall_app.
  rewrite cipher_snoc. apply Forall_app. split; [by apply IH |]. apply (XC_ok _ HB).
Qed.

Lemma cipher_app B B' : ∃ r, cipher k (B ++ B') = cipher k B ++ r.
Proof.
  induction B' as [|P B' [r IH]] using rev_ind; [exists []; by rewrite !app_nil_r |].
  rewrite (assoc_L app), cipher_snoc, IH. eexists. by rewrite <- (assoc_L app).
Qed.

(** The cipher text of block [P] behind [B]. *)
Lemma cipher_read B P B' : blocks_ok (B ++ P :: B') →
  mem_read (cipher k (B ++ P :: B')) (8 * zlen B) 8 = Some (C k (B ++ [P])).
Proof.
  intros HB. replace (B ++ P :: B') with ((B ++ [P]) ++ B') in * by (by rewrite <- (assoc_L app)).
  destruct (cipher_app (B ++ [P]) B') as [r ->]. rewrite cipher_snoc, <- (assoc_L app).
  apply Forall_app in HB as [HB _]. destruct (XC_ok _ HB) as [_ [Hl _]].
  pose proof (mem_read_app (cipher k B) (C k (B ++ [P])) r) as E. rewrite Hl in E.
  apply Forall_app in HB as [HB _]. rewrite (length_cipher _ HB) in E. rewrite <- E. f_equal; lia.
Qed.

(** Decryption of a block from the one before. *)
Lemma chain_decrypt B P : blocks_ok (B ++ [P]) → dec8 k (xor8 (X k B) (C k (B ++ [P]))) = X k (B ++ [P]).
Proof.
  intros HB. pose proof HB as [HB1 _]%Forall_app. destruct (XC_ok _ HB) as [[HX HXok] _], (XC_ok _ HB1) as [[HX1 HX1ok] _].
  rewrite C_snoc, xor8_comm, xor8_twice, dec8_enc8; [done..|]. rewrite HX1. apply length_store.
Qed.

Lemma chain_plain B P : blocks_ok (B ++ [P]) → xor8 (X k (B ++ [P])) (C k B) = P.
Proof.
  intros HB. rewrite X_snoc, xor8_twice; [done |]. apply Forall_app in HB as [HB [[-> _] _]%Forall_cons].
  by destruct (XC_ok _ HB) as [_ [-> _]].
Qed.
End chain.
End Chain.

(** * What encryption leaves in the output *)

Module EncSpec.
Import Tea Ecb Chain Enc.

Section enc.
Context (rand : nat → Z) (pInBuf pKey : list Z) (k : keys).
Context (Hkey : load_keys pKey = Some k).

(** After [P] was fed: whole blocks [B] in the output, the rest in [src_buf]. *)
Definition fed (s : st) (P : list Z) : Prop :=
  ∃ B r, P = concat B ++ r ∧ blocks_ok B ∧ bytes_ok r ∧ src_i s = zlen r ∧ zlen r ≤ 8 ∧
    length (src_buf s) = 8%nat ∧ take (length r) (src_buf s) = r ∧
    iv_plain s = X k B ∧ pOut s = 8 * zlen B ∧ take (8 * length B) (out s) = cipher k B ∧ pOut s ≤ zlen (out s) ∧
    match iv_crypt s with
    | None => B = []
    | Some p => 0 ≤ p ∧ p + 8 = pOut s ∧ mem_read (out s) p 8 = Some (C k B)
    end.

(** What only [next_rand] and [next_in] change. *)
Definition cursor (s : st) : Z * nat := (pIn s, nrand s).
Definition set_cursor (c : Z * nat) (s : st) : st :=
  mk (src_buf s) (src_i s) (iv_plain s) (iv_crypt s) (out s) (pOut s) c.1 c.2.

(** [next] delivers [L] from cursor [c] on, and leaves it at [c']. *)
Inductive gives (next : M Z) : list Z → Z * nat → Z * nat → Prop :=
  | gives_nil c : gives next [] c c
  | gives_cons v L c c1 c' : (∀ s, cursor s = c → next s = (Ok v, set_cursor c1 s)) →
      gives next L c1 c' → gives next (v :: L) c c'.

Lemma concat_blocks B : blocks_ok B → zlen (concat B) = 8 * zlen B.
Proof. induction 1 as [|P B [HP _] HB IH]; [done |]. cbn [concat length]. rewrite length_app. lia. Qed.

Lemma fed_length s P : fed s P → zlen P = pOut s + src_i s.
Proof.
  intros (B & r & -> & HB & _ & -> & _ & _ & _ & _ & -> & _). rewrite length_app, Nat2Z.inj_add, concat_blocks; done.
Qed.

Lemma put_fed s P v : fed s P → is_byte v → src_i s < 8 →
  ∃ s', put v s = (Ok tt, s') ∧ fed s' (P ++ [v]) ∧ src_i s' = src_i s + 1 ∧
    cursor s' = cursor s ∧ length (out s') = length (out s).
Proof.
  intros (B & r & -> & HB & Hr & Hi & Hr8 & Hsb & Etake & HX & HpO & Hc & Hle & Hiv) Hv Hlt.
  unfold put. rewrite Hsb, (proj2 (Z.leb_le _ _)), (proj2 (Z.ltb_lt _ _)) by lia. cbn [andb].
  eexists. split; [reflexivity |]. split; [|done]. exists B, (r ++ [v]).
  split; [by rewrite (assoc_L app) |]. split; [done |]. split; [by apply Forall_app; split; [|constructor] |].
  cbn [src_i src_buf iv_plain iv_crypt out pOut]. rewrite length_app, Nat2Z.inj_add. cbn [length].
  split_and!; try done; [lia | lia | by rewrite length_insert |].
  rewrite Hi, Nat2Z.id. rewrite <- (take_drop (length r) (src_buf s)), Etake.
  destruct (drop (length r) (src_buf s)) as [|w l] eqn:Ed.
  { apply (f_equal length) in Ed. rewrite length_drop in Ed. cbn in Ed. lia. }
  rewrite insert_app_r_alt, Nat.sub_diag by lia. by rewrite take_app_add.
Qed.

Lemma flush_fed s P : fed s P → src_i s = 8 → pOut s + 8 ≤ zlen (out s) →
  ∃ s', flush pKey s = (Ok tt, s') ∧ fed s' P ∧ src_i s' = 0 ∧ cursor s' = cursor s ∧ length (out s') = length (out s).
Proof.
  intros (B & r & -> & HB & Hr & Hi & Hr8 & Hsb & Etake & HX & HpO & Hc & Hle & Hiv) Hlt Hroom.
  assert (Esrc : src_buf s = r) by (rewrite <- Etake, take_ge by lia; done).
  assert (HBr : blocks_ok (B ++ [r])) by (apply Forall_app; split; [done | repeat constructor; [lia | done]]).
  destruct (XC_ok k _ HB) as [[HXl HXok] [HCl HCok]].
  assert (Eiv : match iv_crypt s with None => Some (iv_plain s) | Some p => mem_read (out s) p 8 end = Some (C k B)).
  { destruct (iv_crypt s) as [p|]; [by apply Hiv | by rewrite HX, Hiv]. }
  unfold flush. rewrite Eiv, Esrc, HX.
  rewrite <- X_snoc. rewrite (TeaEncryptECB_eq _ _ k) by (done || apply (XC_ok k _ HBr)).
  destruct (mem_read_Some (out s) (pOut s) 8) as [w Ew]; [lia..|]. rewrite Ew.
  rewrite <- C_snoc. pose proof (XC_ok k _ HBr) as [_ [HC' _]].
  assert (Elen : length (take (Z.to_nat (pOut s)) (out s)) = (8 * length B)%nat) by (rewrite length_take; lia).
  eexists. split; [reflexivity |]. split; [|split; [done |]; split; [done |]].
  - exists (B ++ [r]), []. rewrite concat_app, app_nil_r. cbn [concat src_i src_buf iv_plain iv_crypt out pOut length].
    rewrite app_nil_r, length_app, Nat2Z.inj_add, cipher_snoc. cbn [length].
    assert (Eout : take (8 * (length B + 1)) (take (Z.to_nat (pOut s)) (out s) ++ C k (B ++ [r]) ++ drop (Z.to_nat (pOut s + 8)) (out s)) =
      cipher k B ++ C k (B ++ [r])).
    { rewrite (assoc_L app), take_app_length' by (rewrite length_app; lia). f_equal. rewrite <- Hc. f_equal. lia. }
    split_and!; try done; try lia; [by apply (XC_ok k _ HBr) | rewrite !length_app, HC', length_drop; lia |].
    pose proof (mem_read_app (take (Z.to_nat (pOut s)) (out s)) (C k (B ++ [r])) (drop (Z.to_nat (pOut s + 8)) (out s))) as E.
    rewrite Elen, HC' in E. rewrite <- E. f_equal; lia.
  - cbn [out]. rewrite !length_app, HC', length_drop. lia.
Qed.

(** [if (src_i == 8)]. *)
Lemma settle_fed s P : fed s P → 8 * (zlen P / 8) ≤ zlen (out s) →
  ∃ s', (if src_i s =? 8 then flush pKey else ret tt) s = (Ok tt, s') ∧ fed s' P ∧ src_i s' < 8 ∧
    cursor s' = cursor s ∧ length (out s') = length (out s).
Proof.
  intros HP Hroom. pose proof (fed_length _ _ HP) as HlenP.
  pose proof HP as (B & r & _ & _ & _ & Hi & Hr8 & _ & _ & _ & HpO & _).
  destruct (Z.eqb_spec (src_i s) 8) as [H8|H8]; [|exists s; split_and!; done || lia].
  destruct (flush_fed s _ HP H8) as (s' & E & HP' & Hi' & Hc & Ho); [|exists s'; split_and!; done || lia].
  rewrite HlenP, HpO, H8 in Hroom. replace (8 * zlen B + 8) with ((zlen B + 1) * 8) in Hroom by lia.
  rewrite Z.div_mul in Hroom by lia. lia.
Qed.

(** The loop. *)
Lemma feed_fed next fuel : ∀ L c' s P, gives next L (cursor s) c' → fed s P → bytes_ok L →
  (length L + (if Z.eqb (src_i s) 8 then 1 else 0) < fuel)%nat → 8 * ((zlen P + zlen L) / 8) ≤ zlen (out s) →
  ∃ s', feed pKey fuel next (zlen L) s = (Ok tt, s') ∧ fed s' (P ++ L) ∧ cursor s' = c' ∧
    length (out s') = length (out s) ∧ (src_i s < 8 ∨ L ≠ [] → src_i s' < 8).
Proof.
  induction fuel as [|fuel IH]; intros L c' s P Hg HP HL Hf Hroom; [lia |]. cbn [feed].
  destruct L as [|v L].
  { inversion Hg; subst. exists s. rewrite app_nil_r. split_and!; try done. by intros [?|?]. }
  pose proof HP as (B & r & _ & _ & _ & Hi & Hr8 & _). cbn [length] in *.
  rewrite (proj2 (Z.eqb_neq _ 0)) by lia. unfold bind at 1, get_st at 1.
  destruct (Z.ltb_spec (src_i s) 8) as [Hlt|Hge].
  - rewrite (proj2 (Z.eqb_neq _ 8)) in Hf by lia. inversion Hg as [|? ? ? c1 ? Hn Hg']; subst.
    apply Forall_cons in HL as [Hv HL]. rewrite !bind_assoc, (bind_Ok _ _ _ _ _ (Hn s eq_refl)), bind_assoc.
    destruct (put_fed (set_cursor c1 s) P v) as (s1 & E1 & HP1 & Hi1 & Hc1 & Ho1); [done..|].
    rewrite (bind_Ok _ _ _ _ _ E1), bind_ret_l. unfold bind at 1, get_st at 1.
    assert (Hlen : zlen (P ++ [v]) + zlen L = zlen P + Z.of_nat (S (length L))) by (rewrite length_app; cbn; lia).
    destruct (settle_fed s1 _ HP1) as (s2 & E2 & HP2 & Hi2 & Hc2 & Ho2).
    { rewrite Ho1. cbn [set_cursor out]. etrans; [|exact Hroom]. apply Z.mul_le_mono_nonneg_l, Z.div_le_mono; lia. }
    rewrite (bind_Ok _ _ _ _ _ E2). replace (Z.of_nat (S (length L)) - 1) with (zlen L) by lia.
    destruct (IH L c' s2 (P ++ [v])) as (s3 & -> & HP3 & Hc3 & Ho3 & Hi3); [ | done | done | | |].
    + by rewrite Hc2, Hc1; destruct c1.
    + rewrite (proj2 (Z.eqb_neq _ 8)) by lia. lia.
    + by rewrite Ho2, Ho1, Hlen.
    + exists s3. rewrite <- (assoc_L app) in HP3. split_and!; try done; [by rewrite Ho3, Ho2, Ho1 | intros _; apply Hi3; by left].
  - rewrite (proj2 (Z.eqb_eq _ 8)) in Hf by lia. rewrite bind_ret_l. unfold bind at 1, get_st at 1.
    destruct (settle_fed s _ HP) as (s2 & E2 & HP2 & Hi2 & Hc2 & Ho2).
    { etrans; [|exact Hroom]. apply Z.mul_le_mono_nonneg_l, Z.div_le_mono; lia. }
    rewrite (bind_Ok _ _ _ _ _ E2). rewrite <- Hc2 in Hg.
    destruct (IH (v :: L) c' s2 P Hg HP2 HL) as (s3 & E3 & HP3 & Hc3 & Ho3 & Hi3); [|by rewrite Ho2 |].
    + rewrite (proj2 (Z.eqb_neq _ 8)) by lia. cbn [length]. lia.
    + exists s3. split_and!; try done; [by rewrite Ho3, Ho2 | intros _; apply Hi3; by left].
Qed.

(** *** The three sources *)

Definition rands (n from : nat) : list Z := map (λ i, wrapU 8 (rand i)) (seq from n).

Lemma rands_ok n from : bytes_ok (rands n from).
Proof. apply Forall_forall. intros x (i & -> & _)%list_elem_of_fmap. by apply (wrapU_range 8). Qed.

Lemma gives_rand n c : gives (next_rand rand) (rands n c.2) c (c.1, (c.2 + n)%nat).
Proof.
  revert c. induction n as [|n IH]; intros [p q]; cbn [rands seq map fst snd]; [rewrite Nat.add_0_r; constructor |].
  apply (gives_cons _ _ _ (p, q) (p, S q)); [by intros s [= <- <-] |].
  replace (q + S n)%nat with (S q + n)%nat by lia. apply (IH (p, S q)).
Qed.

Lemma gives_in pre L post q : pInBuf = pre ++ L ++ post → gives (next_in pInBuf) L (zlen pre, q) (zlen (pre ++ L), q).
Proof.
  revert pre. induction L as [|v L IH]; intros pre E; [rewrite app_nil_r; constructor |].
  apply (gives_cons _ _ _ (zlen pre, q) (zlen (pre ++ [v]), q)).
  - intros s [= Ep Eq]. unfold next_in. pose proof (mem_read_app pre [v] (L ++ post)) as Hm.
    rewrite Ep, E. change ((v :: L) ++ post) with ([v] ++ L ++ post). change (zlen [v]) with 1 in Hm. rewrite Hm.
    unfold set_cursor. cbn [fst snd]. rewrite length_app, Nat2Z.inj_add, <- Ep, <- Eq. done.
  - replace (pre ++ v :: L) with ((pre ++ [v]) ++ L) by (by rewrite <- (assoc_L app)).
    apply IH. by rewrite <- !(assoc_L app).
Qed.

Lemma gives_zero n c : gives (ret 0) (replicate n 0) c c.
Proof.
  induction n as [|n IH]; [constructor |]. apply (gives_cons _ _ _ c c); [|exact IH].
  intros s <-. unfold ret. by destruct s.
Qed.

(** The padding does not fill the block. *)
Lemma padding_fed n : ∀ s P, fed s P → src_i s + Z.of_nat n ≤ 8 →
  ∃ s', padding rand n s = (Ok tt, s') ∧ fed s' (P ++ rands n (nrand s)) ∧ cursor s' = (pIn s, nrand s + n)%nat ∧
    length (out s') = length (out s).
Proof.
  induction n as [|n IH]; intros s P HP Hi; cbn [padding].
  { exists s. rewrite app_nil_r. split_and!; try done. unfold cursor. by rewrite Nat.add_0_r. }
  unfold bind at 1, next_rand at 1.
  destruct (put_fed (set_cursor (pIn s, S (nrand s)) s) P (wrapU 8 (rand (nrand s)))) as (s1 & E1 & HP1 & Hi1 & Hc1 & Ho1);
    [done | by apply (wrapU_range 8) | cbn; lia |].
  rewrite (bind_Ok _ _ _ _ _ E1). cbn in Hi1. injection Hc1 as Hp1 Hn1.
  destruct (IH s1 _ HP1) as (s2 & -> & HP2 & Hc2 & Ho2); [lia |].
  exists s2. rewrite <- (assoc_L app), Hn1 in HP2. split_and!; [done | exact HP2 | | by rewrite Ho2, Ho1].
  rewrite Hc2, Hp1, Hn1. f_equal. lia.
Qed.

(** *** The plain text with padding, salt and zeros *)

Lemma nPadlen_spec n : 0 ≤ n → 0 ≤ nPadlen n < 8 ∧ ∃ m, n + 10 + nPadlen n = 8 * m.
Proof.
  intros Hn. unfold nPadlen, SALT_LEN, ZERO_LEN. rewrite Z.rem_mod_nonneg by lia.
  pose proof (Z.div_mod (n + 1 + 2 + 7) 8 ltac:(lia)). pose proof (Z.mod_pos_bound (n + 1 + 2 + 7) 8 ltac:(lia)).
  destruct (Z.eqb_spec ((n + 1 + 2 + 7) mod 8) 0); (split; [lia |]).
  - exists ((n + 1 + 2 + 7) / 8). lia.
  - exists ((n + 1 + 2 + 7) / 8 + 1). lia.
Qed.

Definition first_byte (n : Z) : Z := Z.lor (Z.land (wrapU 8 (rand 0)) 0xf8) (nPadlen n).
Definition padded (bs : list Z) : list Z :=
  let np := Z.to_nat (nPadlen (zlen bs)) in
  first_byte (zlen bs) :: rands np 1 ++ rands 2 (1 + np) ++ bs ++ replicate 7 0.

Lemma length_padded bs : zlen (padded bs) = zlen bs + 10 + nPadlen (zlen bs).
Proof.
  pose proof (nPadlen_spec (zlen bs) ltac:(lia)) as [Hp _]. unfold padded, rands. cbn [length].
  rewrite !length_app, !length_map, !length_seq, length_replicate. lia.
Qed.

Lemma first_byte_spec n : 0 ≤ n → is_byte (first_byte n) ∧ Z.land (first_byte n) 7 = nPadlen n.
Proof.
  intros Hn. destruct (nPadlen_spec n Hn) as [Hp _]. unfold first_byte, is_byte.
  assert (Ep : nPadlen n = wrapU 3 (nPadlen n)) by (symmetry; apply wrapU_id; unfold in_U; lia).
  assert (H248 : ∀ i, 0 ≤ i → Z.testbit 0xf8 i = (3 <=? i) && (i <? 8)).
  { intros i Hi. destruct (Z.leb_spec 3 i), (Z.ltb_spec i 8); cbn [andb]; [| | |]; try lia.
    - assert (i = 3 ∨ i = 4 ∨ i = 5 ∨ i = 6 ∨ i = 7) as [-> | [-> | [-> | [-> | ->]]]] by lia; done.
    - rewrite Z.bits_above_log2; [done | lia | cbn; lia].
    - assert (i = 0 ∨ i = 1 ∨ i = 2) as [-> | [-> | ->]] by lia; done. }
  split.
  - enough (in_U 8 (Z.lor (Z.land (wrapU 8 (rand 0)) 0xf8) (nPadlen n))) by done.
    replace (Z.lor _ _) with (wrapU 8 (Z.lor (Z.land (wrapU 8 (rand 0)) 0xf8) (nPadlen n))); [by apply wrapU_range |].
    rewrite Ep. bitwise. destruct (Z.ltb_spec n0 8), (Z.ltb_spec n0 3); try done; lia.
  - rewrite Ep at 2. rewrite Ep at 1. change 7 with (Z.ones 3). bitwise. rewrite H248, Z.testbit_ones_nonneg by lia.
    destruct (Z.ltb_spec n0 3), (Z.leb_spec 3 n0); try lia; cbn; by rewrite ?andb_false_r, ?andb_true_r.
Qed.

(** A whole number of blocks leaves nothing in [src_buf]. *)
Lemma fed_whole s P m : fed s P → zlen P = 8 * m → src_i s < 8 →
  ∃ B, concat B = P ∧ blocks_ok B ∧ pOut s = zlen P ∧ zlen (cipher k B) = zlen P ∧ take (length P) (out s) = cipher k B.
Proof.
  intros HP Hm Hi. pose proof (fed_length _ _ HP) as Hl.
  destruct HP as (B & r & -> & HB & _ & Hr & _ & _ & _ & _ & HpO & Hc & _).
  assert (r = []) as -> by (apply nil_length_inv; lia). rewrite app_nil_r in *. cbn in Hr. exists B.
  pose proof (concat_blocks _ HB). rewrite (length_cipher k B HB). split_and!; try done; [lia | lia |].
  rewrite <- Hc. f_equal. lia.
Qed.

Lemma feed_start next fuel L s P c' m : gives next L (cursor s) c' → fed s P → bytes_ok L → zlen P + zlen L ≤ m → m ≤ zlen (out s) →
  fuel = S (S (length L)) →
  ∃ s', feed pKey fuel next (zlen L) s = (Ok tt, s') ∧ fed s' (P ++ L) ∧ cursor s' = c' ∧
    length (out s') = length (out s) ∧ (src_i s < 8 ∨ L ≠ [] → src_i s' < 8).
Proof.
  intros Hg HP HL Hm Ho ->. apply feed_fed; try done.
  - destruct (Z.eqb (src_i s) 8); lia.
  - pose proof (Z.mul_div_le (zlen P + zlen L) 8). lia.
Qed.

Lemma encrypt2_spec garbage mem bs : pInBuf = bs → bytes_ok bs → length garbage = 8%nat → zlen (padded bs) ≤ zlen mem →
  ∃ B s', oi_symmetry_encrypt2 rand pInBuf pKey (zlen bs) (mk garbage 0 (replicate 8 0) None mem 0 0 0) = (Ok (zlen (padded bs)), s') ∧
    concat B = padded bs ∧ blocks_ok B ∧ zlen (cipher k B) = zlen (padded bs) ∧
    take (length (padded bs)) (out s') = cipher k B ∧ length (out s') = length mem.
Proof.
  intros Hin Hbs Hg Hmem. destruct (nPadlen_spec (zlen bs) ltac:(lia)) as [Hp [m Hm]].
  pose proof (length_padded bs) as Hlen. set (np := Z.to_nat (nPadlen (zlen bs))) in *.
  unfold oi_symmetry_encrypt2. unfold bind at 1, next_rand at 1. cbn [nrand].
  set (s0 := mk garbage 0 (replicate 8 0) None mem 0 0 1).
  assert (H0 : fed s0 []).
  { exists [], []. cbn. split_and!; done || lia || constructor. }
  destruct (first_byte_spec (zlen bs) ltac:(lia)) as [Hfb _].
  destruct (put_fed s0 [] (first_byte (zlen bs)) H0 Hfb ltac:(cbn; lia)) as (s1 & E1 & H1 & Hi1 & Hc1 & Ho1).
  injection Hc1 as Hp1 Hn1. change (Enc.src_i s0) with 0 in Hi1.
  fold (first_byte (zlen bs)). rewrite (bind_Ok _ _ _ _ _ E1).
  destruct (padding_fed np s1 _ H1 ltac:(lia)) as (s2 & E2 & H2 & Hc2 & Ho2).
  rewrite (bind_Ok _ _ _ _ _ E2). rewrite Hn1, Hp1 in *. rewrite Ho1 in Ho2. change (out s0) with mem in Ho2.
  assert (Hnp : zlen (rands np 1) = nPadlen (zlen bs)) by (unfold rands; rewrite length_map, length_seq; lia).
  destruct (feed_start (next_rand rand) (S (S (Z.to_nat SALT_LEN))) (rands 2 (1 + np)) s2 _ _ (zlen mem)
    ltac:(rewrite Hc2; apply (gives_rand 2 (0, (1 + np)%nat))) H2 (rands_ok _ _)) as (s3 & E3 & H3 & Hc3 & Ho3 & Hi3).
  { rewrite length_app, Nat2Z.inj_add, Hnp. cbn. lia. } { lia. } { done. }
  change (zlen (rands 2 (1 + np))) with SALT_LEN in E3. rewrite (bind_Ok _ _ _ _ _ E3).
  destruct (feed_start (next_in pInBuf) (S (S (Z.to_nat (zlen bs)))) bs s3 _ _ (zlen mem)
    ltac:(rewrite Hc3; apply (gives_in [] bs [] (1 + np + 2)); by rewrite app_nil_r) H3 Hbs) as (s4 & E4 & H4 & Hc4 & Ho4 & Hi4).
  { rewrite !length_app, !Nat2Z.inj_add, Hnp. cbn. lia. } { lia. } { by rewrite Nat2Z.id. }
  rewrite (bind_Ok _ _ _ _ _ E4).
  destruct (feed_start (ret 0) (S (S (Z.to_nat ZERO_LEN))) (replicate 7 0) s4 _ _ (zlen mem) (gives_zero 7 _) H4) as (s5 & E5 & H5 & Hc5 & Ho5 & Hi5).
  { by repeat constructor. } { rewrite !length_app, !Nat2Z.inj_add, Hnp. cbn. lia. } { lia. } { done. }
  change (zlen (replicate 7 0)) with ZERO_LEN in E5. rewrite (bind_Ok _ _ _ _ _ E5). unfold bind, get_st, ret.
  rewrite app_nil_l, <- !(assoc_L app) in H5. fold (padded bs) in H5.
  destruct (fed_whole s5 (padded bs) m H5 ltac:(lia) ltac:(apply Hi5; by right)) as (B & HB & HBok & HpO & Hcl & Htake).
  exists B, s5. rewrite HpO. split_and!; try done. lia.
Qed.
End enc.
End EncSpec.

(** * What decryption makes of an input *)

Module DecSpec.
Import Tea Ecb Chain Dec.

Lemma mem_read_lookup l off n r i : mem_read l off n = Some r → (i < length r)%nat → r !! i = l !! (Z.to_nat off + i)%nat.
Proof.
  unfold mem_read. destruct (_ && _ && _); [|done]. intros [= <-] Hi. rewrite length_take in Hi.
  rewrite lookup_take_lt by lia. by rewrite lookup_drop.
Qed.

Lemma byte_at_eq l i v s : 0 ≤ i → l !! Z.to_nat i = Some v → byte_at l i s = (Ok v, s).
Proof.
  intros Hi Hv. unfold byte_at. pose proof (lookup_lt_Some _ _ _ Hv) as Hl.
  destruct (mem_read_Some l i 1) as [r Hr]; [lia..|]. rewrite Hr.
  pose proof (mem_read_length _ _ _ _ Hr) as (Hlr & _). destruct r as [|b [|]]; cbn in Hlr; try lia.
  pose proof (mem_read_lookup _ _ _ _ 0 Hr ltac:(cbn; lia)) as E. rewrite Nat.add_0_r, Hv in E. by injection E as ->.
Qed.

Section dec.
Context (pInBuf pKey : list Z) (nInBufLen : Z) (k : keys).
Context (Hkey : load_keys pKey = Some k).

Lemma xor_in_eq n : ∀ d1 d2 c s, length d2 = n → length c = n → dest_buf s = d1 ++ d2 →
  nBufPos s + zlen d1 + zlen d2 ≤ nInBufLen → 0 ≤ pIn s →
  (∀ i, (i < n)%nat → pInBuf !! (Z.to_nat (pIn s) + length d1 + i)%nat = c !! i) →
  xor_in pInBuf nInBufLen n (zlen d1) s = (Ok tt, set_dest_buf (d1 ++ xor8 d2 c) s).
Proof.
  induction n as [|n IH]; intros d1 d2 c s Hd Hc Hs Hpos Hp Hin; cbn [xor_in].
  { apply nil_length_inv in Hd as ->, Hc as ->. unfold ret, xor8. cbn. rewrite <- Hs. by destruct s. }
  destruct d2 as [|x d2], c as [|y c]; try done. injection Hd as Hd. injection Hc as Hc. cbn [length] in Hpos.
  unfold bind at 1, get_st at 1. rewrite (proj2 (Z.leb_gt _ _)) by lia.
  rewrite (bind_Ok _ _ _ _ _ (byte_at_eq (dest_buf s) (zlen d1) x s ltac:(lia) ltac:(by rewrite Hs, Nat2Z.id, list_lookup_middle))).
  assert (Ey : pInBuf !! Z.to_nat (pIn s + zlen d1) = Some y).
  { rewrite Z2Nat.inj_add, Nat2Z.id by lia. specialize (Hin 0%nat ltac:(lia)). by rewrite Nat.add_0_r in Hin. }
  rewrite (bind_Ok _ _ _ _ _ (byte_at_eq pInBuf (pIn s + zlen d1) y s ltac:(lia) Ey)).
  unfold bind, modify. set (s' := set_dest_buf _ s).
  assert (Hs' : dest_buf s' = (d1 ++ [Z.lxor x y]) ++ d2).
  { cbn. rewrite Hs, Nat2Z.id, insert_app_r_alt, Nat.sub_diag by lia. cbn. by rewrite <- (assoc_L app). }
  replace (zlen d1 + 1) with (zlen (d1 ++ [Z.lxor x y])) by (rewrite length_app; cbn; lia).
  rewrite (IH (d1 ++ [Z.lxor x y]) d2 c s' Hd Hc Hs').
  - by rewrite <- (assoc_L app).
  - rewrite length_app. cbn. lia.
  - done.
  - intros i Hi. specialize (Hin (S i) ltac:(lia)). change ((y :: c) !! S i) with (c !! i) in Hin.
    rewrite <- Hin, length_app. f_equal. cbn. lia.
Qed.

(** The next block, if the input has one. *)
Lemma next_block_eq s c : length (dest_buf s) = 8%nat → 0 ≤ pIn s → nBufPos s + 8 ≤ nInBufLen →
  mem_read pInBuf (pIn s) 8 = Some c →
  next_block pInBuf pKey nInBufLen s =
    (Ok tt, mk (dec8 k (xor8 (dest_buf s) c)) 0 (Some (iv_cur_crypt s)) (pIn s) (pIn s + 8) (nBufPos s + 8) (out s) (pOut s)).
Proof.
  intros Hd Hp Hpos Hc. pose proof (mem_read_length _ _ _ _ Hc) as (Hcl & _ & _).
  unfold next_block. unfold bind at 1, modify at 1.
  rewrite (bind_Ok _ _ _ _ _ (xor_in_eq 8 [] (dest_buf s) c (shift_iv s) Hd ltac:(lia) eq_refl ltac:(cbn; lia) Hp
    ltac:(intros i Hi; cbn; rewrite (mem_read_lookup _ _ _ _ i Hc) by lia; f_equal; lia))).
  unfold bind at 1, get_st. cbn [dest_buf set_dest_buf app].
  by rewrite (TeaDecryptECB_eq _ _ k) by first [done | apply length_xor8; [done | lia]].
Qed.

(** Without one it returns. *)
Lemma next_block_end s : nInBufLen ≤ nBufPos s → next_block pInBuf pKey nInBufLen s = (Throw return_false, shift_iv s).
Proof.
  intros Hpos. unfold next_block. unfold bind at 1, modify at 1. apply bind_Throw. cbn [xor_in]. unfold bind, get_st.
  by rewrite (proj2 (Z.leb_le _ _)) by (cbn; lia).
Qed.

(** The rule for the three loops. *)
Lemma drain_rule use (J : Z → st → Prop) (R : early → st → Prop) :
  (∀ n s, J n s → dest_i s ≤ 8) →
  (∀ n s, 0 < n → J n s → dest_i s < 8 → runs use s (λ _ s', J (n - 1) s') R) →
  (∀ n s, 0 < n → J n s → dest_i s = 8 → runs (next_block pInBuf pKey nInBufLen) s (λ _ s', J n s' ∧ dest_i s' < 8) R) →
  ∀ n fuel s, (2 * n < fuel)%nat → J (Z.of_nat n) s →
  runs (drain pInBuf pKey nInBufLen fuel use (Z.of_nat n)) s (λ _ s', J 0 s') R.
Proof.
  intros Hle Huse Hblock. induction n as [|n IH]; intros fuel s Hf HJ; (destruct fuel as [|fuel]; [lia |]); [done |].
  assert (Hbyte : ∀ fuel s, (2 * n < fuel)%nat → J (Z.of_nat (S n)) s → dest_i s < 8 →
    runs (use ;;; drain pInBuf pKey nInBufLen fuel use (Z.of_nat (S n) - 1)) s (λ _ s', J 0 s') R).
  { clear fuel s Hf HJ. intros fuel s Hf HJ Hi. apply runs_bind.
    eapply runs_weaken_post; [apply (Huse (Z.of_nat (S n)) s ltac:(lia) HJ Hi) |]. intros ? s1 HJ1.
    replace (Z.of_nat (S n) - 1) with (Z.of_nat n) in * by lia. by apply IH. }
  cbn [drain]. rewrite (proj2 (Z.eqb_neq _ 0)) by lia. apply runs_bind, runs_get.
  destruct (Z.ltb_spec (dest_i s) 8) as [Hi|Hi]; [apply Hbyte; [lia | done | done] |].
  assert (H8 : dest_i s = 8) by (pose proof (Hle _ _ HJ); lia). rewrite (proj2 (Z.eqb_eq _ 8)) by done.
  apply runs_bind. eapply runs_weaken_post; [apply (Hblock (Z.of_nat (S n)) s ltac:(lia) HJ H8) |]. intros ? s1 [HJ1 Hi1].
  destruct fuel as [|fuel]; [lia |]. cbn [drain]. rewrite (proj2 (Z.eqb_neq _ 0)) by lia. apply runs_bind, runs_get.
  rewrite (proj2 (Z.ltb_lt _ _)) by done. apply Hbyte; [lia | done | done].
Qed.

(** *** Any input *)

(** No access leaves the buffers. *)
Definition safe (s : st) : Prop :=
  length (dest_buf s) = 8%nat ∧ 0 ≤ dest_i s ≤ 8 ∧ nBufPos s = pIn s ∧ pIn s mod 8 = 0 ∧ pIn s ≤ nInBufLen ∧
  0 ≤ iv_cur_crypt s ∧ iv_cur_crypt s + 8 ≤ nInBufLen ∧
  match iv_pre_crypt s with None => True | Some p => 0 ≤ p ∧ p + 8 ≤ nInBufLen end.

Section any.
Context (Hin : 0 ≤ nInBufLen ≤ zlen pInBuf) (Hmod : nInBufLen mod 8 = 0).
Context (size : nat).

(** Safe, with something known about the loop counter and the output position. *)
Definition room (Q : Z → Z → Prop) (n : Z) (s : st) : Prop :=
  safe s ∧ 8 ≤ pIn s ∧ Q n (pOut s) ∧ length (out s) = size.
Definition same_size (_ : early) (s : st) : Prop := length (out s) = size.

Lemma byte_at_runs l i s (Q : Z → st → Prop) R : 0 ≤ i < zlen l → (∀ v, Q v s) → runs (byte_at l i) s Q R.
Proof.
  intros Hi HQ. destruct (lookup_lt_is_Some_2 l (Z.to_nat i)) as [v Hv]; [lia |].
  eapply runs_Ok; [apply byte_at_eq; [lia | exact Hv] | apply HQ].
Qed.

Lemma plain_byte_runs s (Q : Z → st → Prop) R : safe s → dest_i s < 8 → (∀ v, Q v s) → runs (plain_byte pInBuf) s Q R.
Proof.
  intros (Hd & Hi & _ & _ & _ & _ & _ & Hpre) Hlt HQ. unfold plain_byte. apply runs_bind, runs_get.
  apply runs_bind, byte_at_runs; [lia |]. intros d. apply runs_bind.
  destruct (iv_pre_crypt s) as [p|]; (apply byte_at_runs; [cbn; lia |]); intros v; apply runs_ret, HQ.
Qed.

Lemma next_block_room Q n s : room Q n s → dest_i s = 8 →
  runs (next_block pInBuf pKey nInBufLen) s (λ _ s', room Q n s' ∧ dest_i s' < 8) same_size.
Proof.
  intros ((Hd & Hi & Hpos & Hp8 & Hple & Hc0 & Hc & Hpre) & Hp & HQ & Hsize) H8.
  destruct (Z.le_gt_cases nInBufLen (nBufPos s)) as [Hend|Hmore].
  { unfold runs. by rewrite next_block_end. }
  assert (Hlen : pIn s + 8 ≤ nInBufLen).
  { pose proof (Z.div_mod (pIn s) 8 ltac:(lia)). pose proof (Z.div_mod nInBufLen 8 ltac:(lia)). lia. }
  destruct (mem_read_Some pInBuf (pIn s) 8) as [c Hcr]; [lia..|].
  eapply runs_Ok; [apply next_block_eq; [done | lia | lia | exact Hcr] |]. cbn [dest_i]. split; [|lia].
  split; [|cbn [pIn pOut out]; split_and!; done || lia].
  split; [apply length_store |]. cbn [dest_i nBufPos pIn iv_cur_crypt iv_pre_crypt]. split_and!; try lia.
  rewrite <- Z.add_mod_idemp_r by lia. change (8 mod 8) with 0. by rewrite Z.add_0_r.
Qed.

Lemma inc_room (Q : Z → Z → Prop) n s : safe s → 8 ≤ pIn s → length (out s) = size → dest_i s < 8 → Q (n - 1) (pOut s) →
  room Q (n - 1) (set_dest_i (dest_i s + 1) s).
Proof.
  intros (Hd & Hi & Hrest) Hp Hsize Hlt HQ. split; [|done]. split; [done |]. split; [cbn; lia | done].
Qed.

Lemma drain_room use Q n s :
  (∀ n s, 0 < n → room Q n s → dest_i s < 8 → runs use s (λ _ s', room Q (n - 1) s') same_size) →
  0 ≤ n → room Q n s →
  runs (drain pInBuf pKey nInBufLen (twice n) use n) s (λ _ s', room Q 0 s') same_size.
Proof.
  intros Huse Hn Hr. rewrite <- (Z2Nat.id n) in * by done. unfold twice. rewrite Nat2Z.id.
  apply (drain_rule use (room Q) same_size); [| done | | lia | done].
  - by intros ? ? ((_ & [_ ?] & _) & _).
  - intros n' s' _ Hr' H8. by apply next_block_room.
Qed.

Lemma body_safe nPadLen n s : 0 ≤ nPadLen < 8 → 0 ≤ n → 8 ≤ pIn s → safe s → pOut s = 0 → n ≤ zlen (out s) → length (out s) = size →
  runs (body pInBuf pKey nInBufLen nPadLen n) s (λ _ s', length (out s') = size) same_size.
Proof.
  intros Hpad Hn Hp Hs HpO Hfit Hsize. unfold body. apply runs_bind, runs_modify, runs_bind.
  eapply runs_weaken_post; [apply (drain_room skip_byte (λ _ p, p = 0)); [| done |] |].
  { intros m s1 Hm (Hs1 & Hp1 & HQ & Hsz) Hlt. apply runs_modify. by apply inc_room. }
  { split; [|done]. destruct Hs as (Hd & Hi & Hrest). split; [done |]. split; [cbn; lia | done]. }
  intros _ s1 (Hs1 & Hp1 & HQ1 & Hsz1). apply runs_bind.
  eapply runs_weaken_post; [apply (drain_room (copy_byte pInBuf) (λ m p, 0 ≤ p ∧ 0 ≤ m ∧ p + m ≤ Z.of_nat size)); [| done |] |].
  { intros m s2 Hm (Hs2 & Hp2 & HQ & Hsz2) Hlt. unfold copy_byte. apply runs_bind, plain_byte_runs; [done | done |].
    intros v. apply runs_bind, runs_get, runs_bind. rewrite (proj2 (Z.ltb_lt _ _)) by lia. apply runs_modify, runs_modify.
    apply (inc_room _ m (write_out v s2)); cbn; [done | done | by rewrite length_insert | done | lia]. }
  { split_and!; try done; lia. }
  intros _ s2 (Hs2 & Hp2 & HQ2 & Hsz2).
  eapply runs_weaken_post; [apply (drain_room (zero_byte pInBuf) (λ _ _, True)); [| done | by split_and!] |].
  { intros m s3 Hm (Hs3 & Hp3 & HQ & Hsz3) Hlt. unfold zero_byte. apply runs_bind, plain_byte_runs; [done | done |].
    intros v. destruct (v =? 0); cbn [negb]; [|by apply runs_throw]. apply runs_modify. by apply inc_room. }
  by intros _ s3 (_ & _ & _ & ?).
Qed.
End any.
End dec.

(** *** The cipher text of some blocks *)

Section exact.
Context (pKey : list Z) (k : keys) (B : list (list Z)).
Context (Hkey : load_keys pKey = Some k) (HB : blocks_ok B).

Abbreviation input := (cipher k B).
Abbreviation plain := (concat B).
Abbreviation never := (λ (_ : early) (_ : st), False).

(** [dest_i] stands at the byte [p] of the plain text. *)
Definition at_pos (s : st) (p : Z) : Prop :=
  ∃ B1 P B2, B = B1 ++ P :: B2 ∧ p = 8 * zlen B1 + dest_i s ∧ 0 ≤ dest_i s ≤ 8 ∧
    dest_buf s = X k (B1 ++ [P]) ∧ iv_cur_crypt s = 8 * zlen B1 ∧ pIn s = 8 * zlen B1 + 8 ∧ nBufPos s = pIn s ∧
    match iv_pre_crypt s with
    | None => B1 = []
    | Some q => ∃ B0 P0, B1 = B0 ++ [P0] ∧ q = 8 * zlen B0
    end.

Lemma zlen_input : zlen input = 8 * zlen B.
Proof. rewrite length_cipher by done. lia. Qed.

Lemma prefix_ok B1 P B2 : B = B1 ++ P :: B2 → blocks_ok (B1 ++ [P]) ∧ blocks_ok B1.
Proof.
  intros E. rewrite E in HB. apply Forall_app in HB as [H1 [H2 _]%Forall_cons].
  split; [apply Forall_app; split; [done | by constructor] | done].
Qed.

Lemma plain_lookup B1 P B2 d : B = B1 ++ P :: B2 → (d < 8)%nat → plain !! (8 * length B1 + d)%nat = P !! d.
Proof.
  intros E Hd. destruct (prefix_ok _ _ _ E) as [HP HB1]. apply Forall_app in HP as [_ [[HPl _] _]%Forall_cons].
  rewrite E, concat_app. pose proof (EncSpec.concat_blocks B1 HB1) as Hl.
  rewrite lookup_app_r by lia. replace (8 * length B1 + d - length (concat B1))%nat with d by lia.
  cbn [concat]. by rewrite lookup_app_l by lia.
Qed.

Lemma plain_byte_at s p : at_pos s p → dest_i s < 8 →
  ∃ v, plain !! Z.to_nat p = Some v ∧ plain_byte input s = (Ok v, s).
Proof.
  intros (B1 & P & B2 & E & -> & Hi & Hd & Hcur & HpI & Hpos & Hpre) Hlt.
  destruct (prefix_ok _ _ _ E) as [HBP HB1]. destruct (XC_ok k _ HBP) as [[HX _] _], (XC_ok k _ HB1) as [_ [HC _]].
  destruct (lookup_lt_is_Some_2 (X k (B1 ++ [P])) (Z.to_nat (dest_i s))) as [x Ex]; [lia |].
  destruct (lookup_lt_is_Some_2 (C k B1) (Z.to_nat (dest_i s))) as [c Ec]; [lia |].
  exists (Z.lxor x c). split.
  - replace (Z.to_nat (8 * zlen B1 + dest_i s)) with (8 * length B1 + Z.to_nat (dest_i s))%nat by lia.
    rewrite (plain_lookup _ _ _ _ E) by lia. rewrite <- (chain_plain k B1 P HBP). unfold xor8.
    by rewrite lookup_zip_with, Ex, Ec.
  - unfold plain_byte. unfold bind at 1, get_st at 1. rewrite <- Hd in Ex.
    rewrite (bind_Ok _ _ _ _ _ (byte_at_eq _ _ _ s (proj1 Hi) Ex)).
    assert (Em : match iv_pre_crypt s with None => byte_at (replicate 8 0) (dest_i s)
                 | Some q => byte_at input (q + dest_i s) end s = (Ok c, s)).
    { destruct (iv_pre_crypt s) as [q|].
      - destruct Hpre as (B0 & P0 & -> & ->). apply byte_at_eq; [lia |].
        rewrite <- (assoc_L app) in E. cbn [app] in E. assert (HBok := HB). rewrite E in HBok.
        pose proof (cipher_read k B0 P0 (P :: B2) HBok) as Hr. rewrite <- E in Hr.
        pose proof (mem_read_lookup _ _ _ _ (Z.to_nat (dest_i s)) Hr ltac:(lia)) as El.
        rewrite Ec in El. rewrite El. f_equal. lia.
      - subst B1. apply byte_at_eq; [lia | exact Ec]. }
    by rewrite (bind_Ok _ _ _ _ _ Em).
Qed.

Lemma next_block_at s p : at_pos s p → dest_i s = 8 → p < 8 * zlen B →
  ∃ s', next_block input pKey (zlen input) s = (Ok tt, s') ∧ at_pos s' p ∧ dest_i s' < 8 ∧ out s' = out s ∧ pOut s' = pOut s.
Proof.
  intros (B1 & P & B2 & E & -> & Hi & Hd & Hcur & HpI & Hpos & Hpre) H8 Hlt.
  destruct B2 as [|P2 B2]; [rewrite E, length_app in Hlt; cbn in Hlt; lia |].
  destruct (prefix_ok _ _ _ E) as [HBP HB1]. destruct (XC_ok k _ HBP) as [[HX _] _].
  assert (E2 : B = (B1 ++ [P]) ++ P2 :: B2) by (by rewrite <- (assoc_L app)).
  destruct (prefix_ok _ _ _ E2) as [HBP2 _].
  assert (Hr : mem_read input (pIn s) 8 = Some (C k ((B1 ++ [P]) ++ [P2]))).
  { assert (HBok := HB). rewrite E2 in HBok. pose proof (cipher_read k (B1 ++ [P]) P2 B2 HBok) as Hr.
    rewrite <- E2 in Hr. rewrite <- Hr. f_equal. rewrite HpI, length_app. cbn. lia. }
  assert (Hlen : pIn s + 8 ≤ zlen input).
  { rewrite zlen_input, HpI, E2, !length_app. cbn. lia. }
  assert (HpI0 : 0 ≤ pIn s) by lia. assert (Hd8 : length (dest_buf s) = 8%nat) by (by rewrite Hd).
  eexists. split; [apply (next_block_eq _ _ _ k Hkey); [exact Hd8 | exact HpI0 | lia | exact Hr] |].
  split; [|split; [cbn; lia | done]].
  exists (B1 ++ [P]), P2, B2. cbn [dest_buf dest_i iv_pre_crypt iv_cur_crypt pIn nBufPos].
  rewrite Hd, (chain_decrypt k _ _ HBP2), !length_app. cbn [length]. split_and!; try done; try lia. exists B1, P. split; [done | lia].
Qed.

(** A loop over the plain text from [e - n] to [e]. *)
Lemma drain_at use (Q : Z → st → Prop) e n s :
  (∀ n s s', Q n s → out s' = out s → pOut s' = pOut s → Q n s') →
  (∀ n s, 0 < n → at_pos s (e - n) → Q n s → dest_i s < 8 → runs use s (λ _ s', at_pos s' (e - (n - 1)) ∧ Q (n - 1) s') never) →
  e ≤ 8 * zlen B → 0 ≤ n → at_pos s (e - n) → Q n s →
  runs (drain input pKey (zlen input) (twice n) use n) s (λ _ s', at_pos s' e ∧ Q 0 s') never.
Proof.
  intros Hext Huse He Hn Hs HQ. rewrite <- (Z2Nat.id n) in * by done. unfold twice. rewrite Nat2Z.id.
  eapply runs_weaken_post.
  - apply (drain_rule input pKey (zlen input) use (λ n s, at_pos s (e - n) ∧ Q n s) never); [| | | lia | by split].
    + by intros ? ? [(? & ? & ? & _ & _ & [_ ?] & _) _].
    + intros n' s' Hn' [Hs' HQ'] Hi. by apply Huse.
    + intros n' s' Hn' [Hs' HQ'] H8. destruct (next_block_at _ _ Hs' H8 ltac:(lia)) as (s1 & E1 & Hs1 & Hi1 & Ho & Hp).
      eapply runs_Ok; [exact E1 |]. split; [|done]. split; [done |]. by apply (Hext _ s').
  - intros ? s1 [Hs1 HQ1]. by rewrite Z.sub_0_r in Hs1.
Qed.

Lemma inc_at s p : at_pos s p → dest_i s < 8 → at_pos (set_dest_i (dest_i s + 1) s) (p + 1).
Proof.
  intros (B1 & P & B2 & E & -> & Hi & Hrest) Hlt. exists B1, P, B2. cbn [set_dest_i dest_i]. split_and!; try done; lia || apply Hrest.
Qed.

(** The plain text in the middle. *)
Context (pre bs : list Z) (np : Z).
Context (Hplain : plain = pre ++ bs ++ replicate 7 0) (Hpre : zlen pre = 3 + np) (Hnp : 0 ≤ np < 8).

Lemma plain_bytes : zlen pre + zlen bs + 7 = 8 * zlen B.
Proof. rewrite <- (EncSpec.concat_blocks B HB), Hplain, !length_app. cbn. lia. Qed.

Definition copied (mem : list Z) (n : Z) (s : st) : Prop :=
  0 ≤ n ≤ zlen bs ∧ pOut s = zlen bs - n ∧ length (out s) = length mem ∧
  take (Z.to_nat (zlen bs - n)) (out s) = take (Z.to_nat (zlen bs - n)) bs.

Lemma copy_at mem n s : zlen bs ≤ zlen mem → 0 < n → at_pos s (zlen pre + zlen bs - n) → copied mem n s → dest_i s < 8 →
  runs (copy_byte input) s (λ _ s', at_pos s' (zlen pre + zlen bs - (n - 1)) ∧ copied mem (n - 1) s') never.
Proof.
  intros Hmem Hn Hs (Hn' & HpO & Hl & Htake) Hlt. destruct (plain_byte_at s _ Hs Hlt) as (v & Hv & Ev).
  unfold copy_byte. apply runs_bind. eapply runs_Ok; [exact Ev |]. apply runs_bind, runs_get, runs_bind.
  rewrite (proj2 (Z.ltb_lt _ _)) by lia. apply runs_modify, runs_modify. split.
  - replace (zlen pre + zlen bs - (n - 1)) with (zlen pre + zlen bs - n + 1) by lia. by apply (inc_at (write_out v s)).
  - unfold copied. cbn [set_dest_i write_out pOut out]. rewrite length_insert, HpO. split_and!; try lia; try done.
    replace (Z.to_nat (zlen bs - (n - 1))) with (S (Z.to_nat (zlen bs - n))) by lia.
    set (q := Z.to_nat (zlen bs - n)) in *. assert (Hbs : bs !! q = Some v).
    { rewrite Hplain in Hv. rewrite lookup_app_r, lookup_app_l in Hv by lia. rewrite <- Hv. f_equal. lia. }
    rewrite (take_S_r bs q v Hbs). rewrite (take_S_r _ q v) by (apply list_lookup_insert_eq; lia).
    by rewrite take_insert_ge, Htake by lia.
Qed.

Lemma body_at s mem : at_pos (set_dest_i (1 + np) s) (1 + np) → out s = mem → pOut s = 0 → zlen bs ≤ zlen mem →
  runs (body input pKey (zlen input) np (zlen bs)) s (λ _ s', length (out s') = length mem ∧ take (length bs) (out s') = bs) never.
Proof.
  intros Hs Hout HpO Hmem. pose proof plain_bytes as Hlen. unfold body. apply runs_bind, runs_modify, runs_bind.
  eapply runs_weaken_post.
  { apply (drain_at skip_byte (λ _ s', out s' = mem ∧ pOut s' = 0) (zlen pre)); [by intros ? ? ? [-> ->] -> -> | | lia | done | | done].
    - intros n s1 Hn Hs1 HQ Hi. apply runs_modify. split; [|done].
      replace (zlen pre - (n - 1)) with (zlen pre - n + 1) by lia. by apply inc_at.
    - replace (zlen pre - SALT_LEN) with (1 + np) by (unfold SALT_LEN; lia). done. }
  intros ? s1 [Hs1 [Ho1 HpO1]]. apply runs_bind. eapply runs_weaken_post.
  { apply (drain_at (copy_byte input) (copied mem) (zlen pre + zlen bs)); [by intros ? ? ? (? & ? & ? & ?) Ho Hp; unfold copied; rewrite Ho, Hp | | lia | lia | |].
    - intros n s2 Hn Hs2 HQ Hi. by apply copy_at.
    - by rewrite Z.add_simpl_r.
    - unfold copied. rewrite Z.sub_diag, HpO1, Ho1. split_and!; done || lia. }
  intros ? s2 [Hs2 (_ & _ & Hl2 & Ht2)]. rewrite Z.sub_0_r, Nat2Z.id, (take_ge bs) in Ht2 by lia. eapply runs_weaken_post.
  { apply (drain_at (zero_byte input) (λ n s', n ≤ 7 ∧ out s' = out s2) (zlen pre + zlen bs + 7)); [by intros ? ? ? [? ->] -> | | lia | done | | done].
    - intros n s3 Hn Hs3 [Hn7 HQ] Hi. destruct (plain_byte_at s3 _ Hs3 Hi) as (v & Hv & Ev).
      unfold zero_byte. apply runs_bind. eapply runs_Ok; [exact Ev |].
      assert (v = 0) as ->.
      { rewrite Hplain, !lookup_app_r in Hv by lia. by apply lookup_replicate in Hv as [-> _]. }
      cbn [negb Z.eqb]. apply runs_modify. split; [|split; [lia | done]].
      replace (zlen pre + zlen bs + 7 - (n - 1)) with (zlen pre + zlen bs + 7 - n + 1) by lia. by apply inc_at.
    - unfold ZERO_LEN. by rewrite Z.add_simpl_r. }
  intros ? s3 (_ & _ & Ho3). by rewrite Ho3.
Qed.
End exact.
End DecSpec.



(** * The vectors *)

Module TeaSpec.
Import Tea Ecb Chain DecSpec.

Lemma xor8_zero a n : length a = n → xor8 a (replicate n 0) = a.
Proof.
  revert n. induction a as [|x a IH]; intros n <-; [done |]. cbn. unfold xor8 in IH. by rewrite IH, Z.lxor_0_r.
Qed.

(** The first block is its own chained plain text. *)
Lemma first_block k P B2 : blocks_ok (P :: B2) →
  take 8 (cipher k (P :: B2)) = C k [P] ∧ dec8 k (C k [P]) = P ∧ X k [P] = P.
Proof.
  intros HB. pose proof HB as [[HP HPok] HB2]%Forall_cons.
  assert (HP1 : blocks_ok ([] ++ [P])) by (by constructor).
  assert (HX : X k [P] = P) by (change [P] with ([] ++ [P]); rewrite X_snoc; by apply xor8_zero).
  destruct (XC_ok k _ HP1) as [_ [HC _]]. split_and!; [| | done].
  - pose proof (cipher_read k [] P B2 HB) as E. change (8 * zlen []) with 0 in E. cbn [app] in E.
    unfold mem_read in E. destruct (_ && _ && _) in E; [|done]. by injection E.
  - pose proof (chain_decrypt k [] P HP1) as E. change (X k []) with (replicate 8 0) in E.
    rewrite xor8_comm, (xor8_zero _ 8 HC) in E. cbn [app] in E. by rewrite E.
Qed.

(** A vector: its size is within its capacity. *)
Definition vec_ok (v : vec) : Prop := 0 ≤ vsize v ≤ capacity v.

Section vectors.
Context (spare : vec → Z → list Z).

Lemma resize_ok n v : vec_ok v → 0 ≤ n → vec_ok (resize spare n v) ∧ vsize (resize spare n v) = n ∧ n ≤ capacity (resize spare n v).
Proof.
  unfold vec_ok, capacity, resize, vdata. intros Hv Hn. destruct (Z.leb_spec n (vsize v)); [cbn; lia |].
  destruct (Z.leb_spec n (capacity v)) as [Hc|Hc]; unfold capacity in *; cbn [vsize vmem];
    rewrite !length_app, length_take, length_replicate, ?length_drop; lia.
Qed.

(** What is left after growing or not, and what [resize] makes of the size in the end. *)
Lemma resize_down n v : vec_ok v → 0 ≤ n ≤ vsize v → vdata (resize spare n v) = take (Z.to_nat n) (vmem v).
Proof. intros Hv Hn. unfold resize, vdata. by rewrite (proj2 (Z.leb_le _ _)) by lia. Qed.

Lemma resize_zeros n v : vec_ok v → vsize v < n ≤ capacity v →
  vdata (resize spare n v) = take (Z.to_nat (vsize v)) (vmem v) ++ replicate (Z.to_nat (n - vsize v)) 0.
Proof.
  unfold vec_ok, resize. intros Hv Hn. destruct (Z.leb_spec n (vsize v)); [lia |].
  destruct (Z.leb_spec n (capacity v)); [|lia]. unfold vdata. cbn [vmem vsize]. rewrite (assoc_L app).
  apply take_app_length'. unfold capacity in *. rewrite length_app, length_take, length_replicate. lia.
Qed.

Lemma padded_bound rand bs : zlen bs < 2 ^ 31 - 32 →
  wrapU 64 (oi_symmetry_encrypt2_len (wrapS 32 (zlen bs))) = zlen (EncSpec.padded rand bs) ∧ zlen bs + 10 ≤ zlen (EncSpec.padded rand bs) < 2 ^ 31.
Proof.
  intros Hbs. pose proof (EncSpec.length_padded rand bs) as Hl. destruct (EncSpec.nPadlen_spec (zlen bs) ltac:(lia)) as [Hp _].
  unfold oi_symmetry_encrypt2_len. rewrite (wrapS_id 32 (zlen bs)) by (unfold in_S; lia).
  change (zlen bs + 1 + SALT_LEN + ZERO_LEN) with (zlen bs + 1 + 2 + 7).
  rewrite wrapS_id, wrapU_id by (unfold in_S, in_U; lia). lia.
Qed.

(** [encrypt]. *)
Lemma encrypt_spec rand garbage key k bs v : load_keys key = Some k → length garbage = 8%nat → bytes_ok bs → zlen bs < 2 ^ 31 - 32 → vec_ok v →
  let outlen := zlen (EncSpec.padded rand bs) in
  ∃ B v', encrypt spare rand garbage key bs (zlen bs) v = Ok v' ∧
    concat B = EncSpec.padded rand bs ∧ blocks_ok B ∧ zlen (cipher k B) = outlen ∧ zlen (vdata v') = outlen ∧
    (capacity v < outlen * 2 ∨ outlen ≤ vsize v → vdata v' = cipher k B) ∧
    (outlen * 2 ≤ capacity v → vsize v < outlen →
     drop (Z.to_nat (vsize v)) (vdata v') = replicate (Z.to_nat (outlen - vsize v)) 0).
Proof.
  intros Hk Hg Hbs Hlen Hv outlen. destruct (padded_bound rand bs Hlen) as [Eout Hout]. unfold encrypt. rewrite Eout. fold outlen.
  assert (Hlen0 : 0 ≤ outlen * 2) by lia.
  set (v1 := if capacity v <? outlen * 2 then resize spare (outlen * 2) v else v).
  assert (Hv1 : vec_ok v1 ∧ outlen * 2 ≤ capacity v1 ∧ (if capacity v <? outlen * 2 then vsize v1 = outlen * 2 else vsize v1 = vsize v)).
  { unfold v1. destruct (Z.ltb_spec (capacity v) (outlen * 2)); [|done].
    destruct (resize_ok (outlen * 2) v Hv Hlen0) as (? & ? & ?). done. }
  destruct Hv1 as (Hv1 & Hcap1 & Hsize1). rewrite (wrapS_id 32) by (unfold in_S; lia).
  destruct (EncSpec.encrypt2_spec rand bs key k Hk garbage (vmem v1) bs eq_refl Hbs Hg) as (B & s' & E & HB & HBok & Hcl & Htake & Hl).
  { fold outlen. unfold capacity in Hcap1. lia. }
  rewrite E. fold outlen in Hcl |- *. exists B. eexists. split; [reflexivity |].
  set (v2 := Vec (Enc.out s') (vsize v1)).
  assert (Hcap2 : capacity v2 = capacity v1) by (unfold capacity; cbn; lia).
  assert (Hv2 : vec_ok v2) by (unfold vec_ok in *; rewrite Hcap2; done).
  destruct (resize_ok outlen v2 Hv2 ltac:(lia)) as (_ & Hsz & Hc). split_and!; try done.
  - unfold vdata. rewrite length_take, Hsz. unfold capacity in Hc. lia.
  - intros Hcase. rewrite resize_down; [| done |].
    + cbn [vmem v2]. rewrite <- Htake. f_equal. lia.
    + cbn [vsize v2]. destruct (Z.ltb_spec (capacity v) (outlen * 2)); lia.
  - intros Hc2 Hs2. rewrite (proj2 (Z.ltb_ge _ _)) in Hsize1 by done. rewrite resize_zeros; [| done |].
    + cbn [vsize v2]. rewrite Hsize1. apply drop_app_length'.
      rewrite length_take. unfold vec_ok, capacity in *. cbn in *. lia.
    + cbn [vsize v2]. lia.
Qed.

(** The vector [decrypt] writes to. *)
Lemma grown_ok n v : vec_ok v → 0 ≤ n →
  let v1 := resize spare (n * 2) (if capacity v <? n * 2 then resize spare (n * 2) v else v) in
  vec_ok v1 ∧ vsize v1 = n * 2 ∧ n * 2 ≤ capacity v1.
Proof.
  intros Hv Hn. cbv zeta. destruct (capacity v <? n * 2); apply resize_ok; try done; try lia.
  apply resize_ok; done || lia.
Qed.

(** The result of a decryption that is good. *)
Lemma resize_result n m v1 : vec_ok v1 → length m = length (vmem v1) → 0 ≤ n ≤ vsize v1 →
  vdata (resize spare n (Vec m (vsize v1))) = take (Z.to_nat n) m.
Proof.
  intros Hv Hm Hn. rewrite resize_down; [done | | done]. unfold vec_ok, capacity in *. cbn. lia.
Qed.

(** [decrypt] of what [encrypt] makes. *)
Lemma decrypt_spec rand key k bs B v : load_keys key = Some k → blocks_ok B → concat B = EncSpec.padded rand bs →
  zlen bs < 2 ^ 31 - 32 → vec_ok v →
  ∃ v', decrypt spare key (cipher k B) (zlen (cipher k B)) v = Ok (v', true) ∧ vdata v' = bs.
Proof.
  intros Hk HB Hcat Hlen Hv. destruct (padded_bound rand bs Hlen) as [_ Hpb].
  destruct (EncSpec.nPadlen_spec (zlen bs) ltac:(lia)) as [Hp _]. pose proof (EncSpec.length_padded rand bs) as Hpl.
  destruct (EncSpec.first_byte_spec rand (zlen bs) ltac:(lia)) as [_ Hland].
  pose proof (EncSpec.concat_blocks B HB) as HlB. rewrite Hcat in HlB.
  assert (HN : zlen (cipher k B) = 8 * zlen B) by (rewrite length_cipher by done; lia).
  unfold decrypt. rewrite HN. set (N := 8 * zlen B) in *.
  destruct (grown_ok N v Hv ltac:(lia)) as (Hv1 & Hs1 & Hc1). cbv zeta in *. set (v1 := resize spare (N * 2) _) in *.
  destruct B as [|P B2]; [unfold N in HlB; change (zlen []) with 0 in HlB; lia |]. destruct (first_block k P B2 HB) as (E8 & Edec & EX).
  pose proof HB as [[HPl HPok] _]%Forall_cons. destruct (XC_ok k ([] ++ [P]) ltac:(by constructor)) as [_ [HCl _]]. change ([] ++ [P]) with [P] in HCl.
  assert (Hfirst : nth 0 P 0 = EncSpec.first_byte rand (zlen bs)).
  { destruct P as [|b P]; [done |]. cbn in Hcat. by injection Hcat as -> _. }
  rewrite wrapS_id by (unfold in_S; lia). unfold Dec.oi_symmetry_decrypt2.
  rewrite (Z.rem_mod_nonneg N 8) by lia. unfold N at 1. rewrite (Z.mul_comm 8), Z.mod_mul by lia. change (negb (0 =? 0)) with false. cbn [orb].
  rewrite (proj2 (Z.ltb_ge N 16)) by (unfold N; lia).
  rewrite E8, (TeaDecryptECB_eq _ _ k HCl Hk), Edec, Hfirst, Hland.
  replace (N - 1 - nPadlen (zlen bs) - SALT_LEN - ZERO_LEN) with (zlen bs) by (unfold SALT_LEN, ZERO_LEN; lia).
  rewrite wrapU_id by (unfold in_U; lia). rewrite !(proj2 (Z.ltb_ge _ _)) by lia. cbn [orb].
  set (s0 := Dec.mk P 1 None 0 8 8 (vmem v1) 0). set (np := nPadlen (zlen bs)) in *.
  assert (Hpos : at_pos k (P :: B2) (Dec.set_dest_i (1 + np) s0) (1 + np)).
  { exists [], P, B2. cbn. split_and!; done || lia. }
  set (pre := EncSpec.first_byte rand (zlen bs) :: EncSpec.rands rand (Z.to_nat np) 1 ++ EncSpec.rands rand 2 (1 + Z.to_nat np)).
  assert (Hpre : zlen pre = 3 + np).
  { unfold pre, EncSpec.rands. cbn [length]. rewrite length_app, !length_map, !length_seq. lia. }
  pose proof (body_at key k (P :: B2) Hk HB pre bs np ltac:(by rewrite Hcat; unfold pre; cbn [app]; rewrite <- !(assoc_L app)) Hpre Hp
    s0 (vmem v1) Hpos eq_refl eq_refl ltac:(unfold capacity in Hc1; lia)) as Hrun.
  rewrite HN in Hrun. apply runs_value in Hrun as ([] & s' & E & Hl & Htake). fold N in E. rewrite E.
  eexists. split; [reflexivity |]. rewrite resize_result by (done || lia). by rewrite Nat2Z.id.
Qed.

(** [decrypt] of anything. *)
Lemma decrypt_any key k sIn v : load_keys key = Some k → vec_ok v →
  ∃ v' b, decrypt spare key sIn (zlen sIn) v = Ok (v', b) ∧ ((b : bool) = true → zlen (vdata v') + 10 ≤ zlen sIn).
Proof.
  intros Hk Hv. unfold decrypt. destruct (grown_ok (zlen sIn) v Hv ltac:(lia)) as (Hv1 & Hs1 & Hc1).
  cbv zeta in *. set (v1 := resize spare (zlen sIn * 2) _) in *. set (N := wrapS 32 (zlen sIn)).
  assert (HN : N ≤ zlen sIn).
  { unfold N, wrapS, wrapU. cbv zeta. pose proof (Z.mod_le (zlen sIn) (2 ^ 32) ltac:(lia) ltac:(lia)). destruct (_ <? 2 ^ (32 - 1)); lia. }
  unfold Dec.oi_symmetry_decrypt2. destruct (negb (Z.rem N 8 =? 0) || (N <? 16)) eqn:Eg.
  { eexists _, false. by split. }
  apply orb_false_iff in Eg as [Er%negb_false_iff%Z.eqb_eq El%Z.ltb_ge]. rewrite Z.rem_mod_nonneg in Er by lia.
  rewrite (TeaDecryptECB_eq _ _ k) by (done || (rewrite length_take; lia)).
  assert (Hd : length (dec8 k (take 8 sIn)) = 8%nat) by apply length_store.
  revert Hd. generalize (dec8 k (take 8 sIn)) as dest. intros dest Hd. set (np := Z.land (nth 0 dest 0) 7).
  assert (Hnp : 0 ≤ np < 8) by (unfold np; change 7 with (Z.ones 3); rewrite Z.land_ones by lia; apply Z.mod_pos_bound; lia).
  set (i := N - 1 - np - SALT_LEN - ZERO_LEN). destruct ((zlen sIn <? wrapU 64 i) || (i <? 0)) eqn:Ei.
  { eexists _, false. by split. }
  apply orb_false_iff in Ei as [_ Hi%Z.ltb_ge]. assert (Hi2 : i + 10 ≤ zlen sIn) by (unfold i, SALT_LEN, ZERO_LEN; lia).
  set (s0 := Dec.mk dest 1 None 0 8 8 (vmem v1) 0).
  assert (Hsafe : safe N s0) by (unfold safe; cbn; split_and!; done || lia).
  pose proof (body_safe sIn key N k Hk ltac:(lia) Er (length (vmem v1)) np i s0 Hnp Hi ltac:(cbn; lia) Hsafe eq_refl
    ltac:(cbn; unfold capacity in Hc1; lia) eq_refl) as Hrun.
  unfold runs in Hrun. destruct (Dec.body _ _ _ _ _ s0) as [[[]|[]| | |] s'] eqn:E; try done.
  - eexists _, true. split; [reflexivity |]. intros _. rewrite resize_result by (done || lia). rewrite length_take. lia.
  - eexists _, false. by split.
Qed.
End vectors.
End TeaSpec.

(** C28: round trip.  [encrypt] yields its length, and what it yields [decrypt] turns
    back, whatever [rand] gives and whatever is in the vectors; but a vector that
    already has the capacity and not the size loses the cipher text behind its size. *)
Theorem tea_roundtrip (spare : Tea.vec → Z → list Z) (rand : nat → Z) (garbage key bs : list Z) (v w : Tea.vec) :
  length garbage = 8%nat → length key = 16%nat → bytes_ok bs → zlen bs < 2 ^ 31 - 32 → TeaSpec.vec_ok v → TeaSpec.vec_ok w →
  let outlen := Tea.oi_symmetry_encrypt2_len (zlen bs) in
  ∃ c, Tea.encrypt spare rand garbage key bs (zlen bs) v = Ok c ∧ zlen (Tea.vdata c) = outlen ∧
    (Tea.capacity v < outlen * 2 ∨ outlen ≤ Tea.vsize v →
     ∃ p, Tea.decrypt spare key (Tea.vdata c) (zlen (Tea.vdata c)) w = Ok (p, true) ∧ Tea.vdata p = bs) ∧
    (outlen * 2 ≤ Tea.capacity v → Tea.vsize v < outlen →
     drop (Z.to_nat (Tea.vsize v)) (Tea.vdata c) = replicate (Z.to_nat (outlen - Tea.vsize v)) 0).
Proof.
  intros Hg Hkey Hbs Hlen Hv Hw outlen. destruct (Ecb.load_keys_ok key Hkey) as [k Hk].
  destruct (TeaSpec.padded_bound rand bs Hlen) as [Eout Hpb].
  assert (Eo : outlen = zlen (EncSpec.padded rand bs)).
  { rewrite <- Eout. unfold outlen. rewrite (wrapS_id 32) by (unfold in_S; lia). symmetry. apply wrapU_id.
    pose proof (EncSpec.length_padded rand bs). unfold Tea.oi_symmetry_encrypt2_len, Tea.SALT_LEN, Tea.ZERO_LEN.
    destruct (EncSpec.nPadlen_spec (zlen bs) ltac:(lia)) as [? _]. rewrite wrapS_id by (unfold in_S; lia). unfold in_U. lia. }
  destruct (TeaSpec.encrypt_spec spare rand garbage key k bs v Hk Hg Hbs Hlen Hv) as (B & c & E & HB & HBok & Hcl & Hl & H1 & H2).
  rewrite Eo. exists c. split_and!; [exact E | exact Hl | | exact H2].
  intros Hcase. rewrite (H1 Hcase). by apply (TeaSpec.decrypt_spec spare rand).
Qed.

(** C29: safety.  On any input [decrypt] ends without leaving its buffers, and a plain
    text is at least ten bytes shorter than its input. *)
Theorem tea_decrypt_safe (spare : Tea.vec → Z → list Z) (key sIn : list Z) (v : Tea.vec) :
  length key = 16%nat → TeaSpec.vec_ok v →
  ∃ v' b, Tea.decrypt spare key sIn (zlen sIn) v = Ok (v', b) ∧ (b = true → zlen (Tea.vdata v') + 10 ≤ zlen sIn).
Proof. intros Hkey Hv. destruct (Ecb.load_keys_ok key Hkey) as [k Hk]. by apply (TeaSpec.decrypt_any spare key k). Qed.

Definition tea_key : list Z := [1; 2; 3; 4; 5; 6; 7; 8; 9; 10; 11; 12; 13; 14; 15; 16].
Definition tea_spare (_ : Tea.vec) (_ : Z) : list Z := [9].
Definition tea_rand (n : nat) : Z := Z.of_nat n * 77 + 5.

Lemma tea_roundtrip_witness :
  ∃ c, Tea.encrypt tea_spare tea_rand (replicate 8 3) tea_key [104; 105] 2 (Tea.Vec [] 0) = Ok c ∧ zlen (Tea.vdata c) = 16 ∧
    (0 < 32 ∨ 16 ≤ 0 → ∃ p, Tea.decrypt tea_spare tea_key (Tea.vdata c) (zlen (Tea.vdata c)) (Tea.Vec [7] 1) = Ok (p, true) ∧ Tea.vdata p = [104; 105]) ∧
    (32 ≤ 0 → 0 < 16 → drop 0 (Tea.vdata c) = replicate 16 0).
Proof.
  apply (tea_roundtrip tea_spare tea_rand (replicate 8 3) tea_key [104; 105] (Tea.Vec [] 0) (Tea.Vec [7] 1)); [done | done | | done | done | done].
  repeat constructor; cbn; lia.
Defined.

Lemma tea_decrypt_safe_witness :
  ∃ v' b, Tea.decrypt tea_spare tea_key (replicate 24 200) 24 (Tea.Vec [] 0) = Ok (v', b) ∧ (b = true → zlen (Tea.vdata v') + 10 ≤ 24).
Proof. apply (tea_decrypt_safe tea_spare tea_key (replicate 24 200)); done. Defined.

(** A vector that was cleared but keeps its memory: zeros instead of the cipher text. *)
Example tea_cleared_vector :
  match Tea.encrypt tea_spare tea_rand (replicate 8 3) tea_key [104; 105] 2 (Tea.Vec (replicate 32 1) 0) with
  | Ok c => Tea.vdata c | _ => [] end = replicate 16 0.
Proof. vm_compute. reflexivity. Qed.
