(* ===== verification/ConsistentHash.v ===== *)
(** [TC_ConsistentHashNew] from [src/util/src/tc_consistent_hash_new.cpp]: the ring of
    virtual nodes, ordered by their hash codes, and the binary search in it. *)
From stdpp Require Import prelude list sorting.
From Stdlib Require Import ZArith Lia.
From S2P Require Import Prelude Bytes Md5.

(** The two algorithms of [TC_HashAlgFactory]. *)
Inductive TC_HashAlgorithmType : Type := E_TC_CONHASH_KETAMAHASH | E_TC_CONHASH_DEFAULTHASH.

Module ConsistentHash.
(** [node_T_new]. *)
Record node_T_new := mk { iHashCode : Z; sNode : list Z; iIndex : Z }.

(** The list of nodes is the state. *)
Abbreviation M A := (prog (list node_T_new) Empty_set A).

Section ring.
(** What [TC_MD5] finds on the stack, and the algorithm behind [_ptrHashAlg]. *)
Context (stack : MD5.MD5_CTX) (_ptrHashAlg : TC_HashAlgorithmType).

Definition md5bin (key : list Z) : M (list Z) := λ l, (match MD5.md5bin stack key with
  | Ok d => Ok d | Throw e => Throw e | OutOfBounds => OutOfBounds | AssertFailed => AssertFailed | NoFuel => NoFuel
  end, l).

(** The [uint32_t] in the four bytes of a digest from [i] on, the first one lowest:
    by shifts, and by a load. *)
Definition word_at (p : list Z) (i : nat) : Z := MD5.GET_ULONG_LE p i.

(** [TC_KetamaHashAlg::hash] and [TC_DefaultHashAlg::hash]. *)
Definition KetamaHash (sKey : list Z) : M Z := let* p := md5bin sKey in ret (word_at p 0).
Definition DefaultHash (sKey : list Z) : M Z :=
  let* p := md5bin sKey in ret (Z.lxor (Z.lxor (Z.lxor (word_at p 0) (word_at p 4)) (word_at p 8)) (word_at p 12)).

(** The virtual methods of the algorithm. *)
Definition getHashType : TC_HashAlgorithmType := _ptrHashAlg.
Definition hash (sKey : list Z) : M Z :=
  match _ptrHashAlg with E_TC_CONHASH_KETAMAHASH => KetamaHash sKey | E_TC_CONHASH_DEFAULTHASH => DefaultHash sKey end.

(** [TC_Common::tostr<int>] of a number that is not negative. *)
Fixpoint digits (fuel : nat) (j : Z) (acc : list Z) : list Z :=
  match fuel with
  | O => acc
  | S fuel' =>
    let acc := (48 + j mod 10) :: acc in
    if j <? 10 then acc else digits fuel' (j / 10) acc
  end.
Definition tostr (j : Z) : list Z := digits 10 j [].

(** [_vHashList.push_back(stItem)]. *)
Definition push (node : list Z) (index iHashCode : Z) : M unit := modify (λ l, l ++ [mk iHashCode node index]).

(** [for (i = 0; i < 4; i++)] of the Ketama branch. *)
Fixpoint push_words (node : list Z) (index : Z) (p : list Z) (idx : list nat) : M unit :=
  match idx with
  | [] => ret tt
  | i :: idx' => push node index (word_at p (i * 4)) ;;; push_words node index p idx'
  end.

(** One round of the loop of [addNode]. *)
Definition add_virtual (node : list Z) (index j : Z) : M unit :=
  let virtualNode := node ++ [95] ++ tostr j in
  match getHashType with
  | E_TC_CONHASH_KETAMAHASH => let* sMd5 := md5bin virtualNode in push_words node index sMd5 [0; 1; 2; 3]%nat
  | E_TC_CONHASH_DEFAULTHASH => let* iHashCode := hash virtualNode in push node index iHashCode
  end.

Fixpoint addNode_loop (n : nat) (node : list Z) (index j : Z) : M unit :=
  match n with O => ret tt | S n' => add_virtual node index j ;;; addNode_loop n' node index (j + 1) end.

(** [addNode], for an algorithm that is there. *)
Definition addNode (node : list Z) (index weight : Z) : M unit := addNode_loop (Z.to_nat weight) node index 0.

(** [sortNode]: [std::sort] puts the list into some order by code. *)
Definition less_hash (m1 m2 : node_T_new) : Prop := iHashCode m1 < iHashCode m2.
Definition le_hash (m1 m2 : node_T_new) : Prop := iHashCode m1 ≤ iHashCode m2.
Definition sortNode (l l' : list node_T_new) : Prop := l' ≡ₚ l ∧ StronglySorted le_hash l'.

Definition size (l : list node_T_new) : Z := zlen l.
Definition clear : M unit := put_st [].

(** [_vHashList[i]]. *)
Definition at_ (i : Z) : M node_T_new := λ l,
  match (if 0 <=? i then l !! Z.to_nat i else None) with
  | Some n => (Ok n, l)
  | None => (OutOfBounds, l)
  end.

(** The loop of [getIndex] and [getNodeName]. *)
Fixpoint search (fuel : nat) (hashcode low high : Z) : M Z :=
  match fuel with
  | O => λ l, (NoFuel, l)
  | S fuel' =>
    if low <? high - 1 then
      let mid := (low + high) / 2 in
      let* n := at_ mid in
      if hashcode <? iHashCode n then search fuel' hashcode low mid else search fuel' hashcode mid high
    else ret low
  end.

(** The node [getIndex(hashcode, iIndex)] and [getNodeName(hashcode, sNode)] take
    their answer from; [None] when they return -1. *)
Definition find_node (hashcode : Z) : M (option node_T_new) :=
  let* l := get_st in
  if bool_decide (l = []) then ret None else
  let high := wrapS 32 (size l) in
  let* first := at_ 0 in
  let* in_front :=
    (if hashcode <=? iHashCode first then ret true else
     let* last := at_ (high - 1) in ret (iHashCode last <? hashcode)) in
  if (in_front : bool) then ret (Some first) else
  let* low := search (length l) hashcode 0 high in
  let* n := at_ (low + 1) in ret (Some n).

Definition getIndex (hashcode : Z) : M (option Z) :=
  let* n := find_node hashcode in ret (option_map iIndex n).
Definition getNodeName (hashcode : Z) : M (option (list Z)) :=
  let* n := find_node hashcode in ret (option_map sNode n).

(** The overloads on a key. *)
Definition getIndex_key (key : list Z) : M (option Z) :=
  let* l := get_st in
  if bool_decide (l = []) then ret None else
  let* data := md5bin key in let* iCode := hash data in getIndex iCode.
Definition getNodeName_key (key : list Z) : M (option (list Z)) :=
  let* l := get_st in
  if bool_decide (l = []) then ret None else
  let* data := md5bin key in let* iCode := hash data in getNodeName iCode.

(** *** What [addNode] adds *)

Context (Hstack : length (MD5.buffer stack) = 64%nat).

Lemma md5bin_prog key l : bytes_ok key → zlen key < 2 ^ 32 → md5bin key l = (Ok (RFC1321.digest key), l).
Proof. intros Hok Hl. unfold md5bin. by rewrite Stream.md5bin_eq. Qed.

Lemma digits_ok fuel j acc : 0 ≤ j → bytes_ok acc →
  bytes_ok (digits fuel j acc) ∧ (length (digits fuel j acc) ≤ fuel + length acc)%nat.
Proof.
  revert j acc. induction fuel as [|fuel IH]; intros j acc Hj Hacc; cbn [digits]; [by split; [|lia] |].
  assert (Hok : bytes_ok (48 + j mod 10 :: acc)).
  { apply Forall_cons. split; [|done]. unfold is_byte. pose proof (Z.mod_pos_bound j 10). lia. }
  destruct (j <? 10); [split; [done | cbn; lia] |].
  destruct (IH (j / 10) (48 + j mod 10 :: acc)) as [H1 H2]; [apply Z.div_pos; lia | done |].
  split; [done |]. cbn in H2. lia.
Qed.

(** The nodes one algorithm makes of a digest. *)
Definition num_codes : nat := match _ptrHashAlg with E_TC_CONHASH_KETAMAHASH => 4 | E_TC_CONHASH_DEFAULTHASH => 1 end.

Lemma add_virtual_eq node index j l : bytes_ok node → zlen node + 11 < 2 ^ 32 → 0 ≤ j →
  ∃ codes, add_virtual node index j l = (Ok tt, l ++ map (λ c, mk c node index) codes) ∧ length codes = num_codes.
Proof.
  intros Hok Hl Hj. destruct (digits_ok 10 j [] Hj (Forall_nil_2 _)) as [Hdok Hdl]. fold (tostr j) in Hdok, Hdl.
  assert (Hv : bytes_ok (node ++ [95] ++ tostr j)).
  { apply Forall_app. split; [done |]. apply Forall_cons. split; [unfold is_byte; lia | done]. }
  assert (Hlv : zlen (node ++ [95] ++ tostr j) < 2 ^ 32) by (rewrite !length_app; cbn in *; lia).
  unfold add_virtual, getHashType, hash, num_codes. destruct _ptrHashAlg.
  - rewrite (bind_Ok _ _ _ _ _ (md5bin_prog _ l Hv Hlv)). generalize (RFC1321.digest (node ++ [95] ++ tostr j)) as p. intros p.
    exists (map (λ i, word_at p (i * 4)) [0; 1; 2; 3]%nat). split; [|done].
    cbn. unfold bind, push, modify, ret. by rewrite <- !(assoc_L app).
  - unfold DefaultHash. rewrite bind_assoc, (bind_Ok _ _ _ _ _ (md5bin_prog _ l Hv Hlv)), bind_ret_l.
    eexists [_]. split; reflexivity.
Qed.

Lemma addNode_loop_eq n node index : ∀ j l, bytes_ok node → zlen node + 11 < 2 ^ 32 → 0 ≤ j →
  ∃ codes, addNode_loop n node index j l = (Ok tt, l ++ map (λ c, mk c node index) codes) ∧ length codes = (n * num_codes)%nat.
Proof.
  induction n as [|n IH]; intros j l Hok Hl Hj; cbn [addNode_loop]; [exists []; by rewrite app_nil_r |].
  destruct (add_virtual_eq node index j l Hok Hl Hj) as (c1 & E1 & N1). rewrite (bind_Ok _ _ _ _ _ E1).
  destruct (IH (j + 1) (l ++ map (λ c, mk c node index) c1)) as (c2 & -> & N2); [done | done | lia |].
  exists (c1 ++ c2). rewrite map_app, (assoc_L app), length_app. split; [done | cbn; lia].
Qed.
End ring.

(** ** The clockwise neighbour *)

(** The first node at or behind a position of the ring, which starts over at the
    end. *)
Definition successor (hashcode : Z) (l : list node_T_new) : option node_T_new :=
  match list_find (λ n, hashcode ≤ iHashCode n) l with
  | Some (_, n) => Some n
  | None => head l
  end.

Definition code_at (l : list node_T_new) (i : nat) : option Z := iHashCode <$> l !! i.

Lemma sorted_codes l i j a b : StronglySorted le_hash l → (i ≤ j)%nat → l !! i = Some a → l !! j = Some b →
  iHashCode a ≤ iHashCode b.
Proof.
  intros Hs. revert i j. induction Hs as [|n l Hs IH Hn]; intros i j Hij Ha Hb; [done |].
  destruct i as [|i], j as [|j]; cbn in *; simplify_eq; [done | | lia | eapply IH; [|done..]; lia].
  rewrite Forall_forall in Hn. apply Hn. by eapply list_elem_of_lookup_2.
Qed.

Lemma at_eq i l n : 0 ≤ i → l !! Z.to_nat i = Some n → at_ i l = (Ok n, l).
Proof. intros Hi E. unfold at_. by rewrite (proj2 (Z.leb_le _ _)), E. Qed.

(** The search keeps [hashcode] between the codes at [low] and [high]. *)
Lemma search_spec l h : StronglySorted le_hash l → ∀ fuel low high, 0 ≤ low < high → high ≤ zlen l → (Z.to_nat (high - low) ≤ fuel)%nat →
  (∀ n, l !! Z.to_nat low = Some n → iHashCode n ≤ h) → (∀ n, l !! Z.to_nat high = Some n → h < iHashCode n) →
  ∃ r, search fuel h low high l = (Ok r, l) ∧ 0 ≤ r < zlen l ∧
    (∀ n, l !! Z.to_nat r = Some n → iHashCode n ≤ h) ∧ (∀ n, l !! Z.to_nat (r + 1) = Some n → h < iHashCode n).
Proof.
  intros Hs. induction fuel as [|fuel IH]; intros low high Hlh Hsz Hf Hlow Hhigh; [lia |]. cbn [search].
  destruct (Z.ltb_spec low (high - 1)).
  - set (mid := (low + high) / 2). assert (Hm : low < mid < high).
    { unfold mid. pose proof (Z.div_mod (low + high) 2). pose proof (Z.mod_pos_bound (low + high) 2). lia. }
    destruct (lookup_lt_is_Some_2 l (Z.to_nat mid)) as [n En]; [lia |].
    rewrite (bind_Ok _ _ _ _ _ (at_eq mid l n ltac:(lia) En)).
    destruct (Z.ltb_spec h (iHashCode n)); apply IH; try done; try lia; intros n' En'; simplify_eq; lia.
  - exists low. replace high with (low + 1) in Hhigh by lia. split_and!; try done; lia.
Qed.

(** The first node whose code is greater, when the nodes before it are known. *)
Lemma find_first (P : node_T_new → Prop) `{!∀ n, Decision (P n)} l i n :
  l !! i = Some n → P n → (∀ j m, (j < i)%nat → l !! j = Some m → ¬ P m) → list_find P l = Some (i, n).
Proof. intros En HP Hb. apply list_find_Some. split_and!; [done | done |]. intros j m Hm Hj. by eapply Hb. Qed.

(** What the code finds, for any [hashcode]. *)
Lemma find_node_spec l h : StronglySorted le_hash l → zlen l < 2 ^ 31 →
  find_node h l =
  match l, last l with
  | first :: _, Some final =>
    if (h <=? iHashCode first) || (iHashCode final <? h) then (Ok (Some first), l) else
    match list_find (λ n, h < iHashCode n) l with
    | Some (_, n) => (Ok (Some n), l)
    | None => (OutOfBounds, l)
    end
  | _, _ => (Ok None, l)
  end.
Proof.
  intros Hs Hn. destruct l as [|first l0] eqn:El; [done |].
  assert (E0 : l !! 0%nat = Some first) by (by rewrite El). rewrite <- El in *.
  destruct (last l) as [final|] eqn:Elast; [|by rewrite last_None in Elast; rewrite Elast in El].
  rewrite last_lookup in Elast. assert (Hlen : (0 < length l)%nat) by (rewrite El; cbn; lia). clear El.
  unfold find_node. unfold bind at 1, get_st. rewrite bool_decide_eq_false_2 by (by intros ->).
  unfold size. rewrite wrapS_id by (unfold in_S; lia). rewrite (bind_Ok _ _ _ _ _ (at_eq 0 l first ltac:(lia) E0)).
  assert (Efinal : at_ (zlen l - 1) l = (Ok final, l)).
  { apply at_eq; [lia |]. rewrite <- Elast. f_equal. lia. }
  destruct (Z.leb_spec h (iHashCode first)) as [|Hfirst]; [done |]. cbn [orb].
  rewrite bind_assoc, (bind_Ok _ _ _ _ _ Efinal). unfold bind at 1, ret at 1.
  destruct (Z.ltb_spec (iHashCode final) h) as [|Hfinal]; [done |].
  destruct (search_spec l h Hs (length l) 0 (zlen l)) as (r & Er & Hr & Hlow & Hhigh); try lia.
  { intros n Hn'. change (Z.to_nat 0) with 0%nat in Hn'. rewrite E0 in Hn'. injection Hn' as <-. lia. }
  { intros n Hn'. apply lookup_lt_Some in Hn'. lia. }
  rewrite (bind_Ok _ _ _ _ _ Er).
  destruct (lookup_lt_is_Some_2 l (Z.to_nat r)) as [nr Enr]; [lia |]. specialize (Hlow _ Enr).
  destruct (l !! Z.to_nat (r + 1)) as [n|] eqn:En.
  - rewrite (bind_Ok _ _ _ _ _ (at_eq (r + 1) l n ltac:(lia) En)).
    rewrite (find_first _ l (Z.to_nat (r + 1)) n En (Hhigh _ eq_refl)); [done |].
    intros k m Hk Hm. pose proof (sorted_codes l k (Z.to_nat r) m nr Hs ltac:(lia) Hm Enr). lia.
  - rewrite (proj2 (list_find_None _ _)).
    + unfold bind, at_. rewrite (proj2 (Z.leb_le _ _)) by lia. by rewrite En.
    + apply Forall_lookup. intros k m Hm. apply lookup_ge_None in En. apply lookup_lt_Some in Hm as Hk.
      pose proof (sorted_codes l k (Z.to_nat r) m nr Hs ltac:(lia) Hm Enr). lia.
Qed.

Lemma list_find_ext_in {A} (P Q : A → Prop) `{!∀ x, Decision (P x)} `{!∀ x, Decision (Q x)} (l : list A) :
  (∀ x, x ∈ l → P x ↔ Q x) → list_find P l = list_find Q l.
Proof.
  induction l as [|x l IH]; intros HPQ; [done |]. cbn. rewrite IH by (intros; apply HPQ; by apply list_elem_of_further).
  pose proof (HPQ x (list_elem_of_here _ _)). destruct (decide (P x)), (decide (Q x)); tauto.
Qed.

(** [n] is the next node clockwise: the least code from [h] on, or the least of
    all if there is none from [h] on. *)
Definition next_node (h : Z) (l : list node_T_new) (n : node_T_new) : Prop :=
  n ∈ l ∧ if h <=? iHashCode n
          then ∀ m, m ∈ l → h ≤ iHashCode m → iHashCode n ≤ iHashCode m
          else ∀ m, m ∈ l → iHashCode m < h ∧ iHashCode n ≤ iHashCode m.

Lemma successor_next h l : StronglySorted le_hash l → l ≠ [] → ∃ n, successor h l = Some n ∧ next_node h l n.
Proof.
  intros Hs Hne. unfold successor. destruct (list_find _ l) as [[i n]|] eqn:Ef.
  - apply list_find_Some in Ef as (En & Hn & Hb). exists n. split; [done |].
    split; [by eapply list_elem_of_lookup_2 |]. rewrite (proj2 (Z.leb_le _ _)) by done.
    intros m [j Em]%list_elem_of_lookup Hm. destruct (decide (j < i)%nat) as [Hj|Hj]; [by specialize (Hb _ _ Em Hj) |].
    by apply (sorted_codes l i j n m Hs); [lia | |].
  - apply list_find_None in Ef. rewrite Forall_forall in Ef. destruct l as [|n l]; [done |]. exists n. split; [done |].
    split; [apply list_elem_of_here |]. pose proof (Ef n (list_elem_of_here _ _)) as Hn. cbn beta in Hn.
    rewrite (proj2 (Z.leb_gt _ _)) by lia. intros m Hm. pose proof (Ef m Hm) as Hlt. cbn beta in Hlt. split; [lia |].
    apply list_elem_of_lookup in Hm as [j Em]. by apply (sorted_codes (n :: l) 0 j n m Hs); [lia | |].
Qed.

Lemma next_node_unique h l n m : next_node h l n → next_node h l m → iHashCode n = iHashCode m.
Proof.
  intros [Hn Hn'] [Hm Hm'].
  destruct (Z.leb_spec h (iHashCode n)), (Z.leb_spec h (iHashCode m));
    specialize (Hn' m Hm); specialize (Hm' n Hn); lia.
Qed.

Lemma next_node_subset h l l' n : l ⊆ l' → n ∈ l → next_node h l' n → next_node h l n.
Proof.
  intros Hsub Hn [_ Hn']. split; [done |]. destruct (h <=? iHashCode n); intros m Hm; apply Hn'; by apply Hsub.
Qed.
End ConsistentHash.

(** The clockwise neighbour, for a hash that is not a code. *)
Lemma find_successor l h : StronglySorted ConsistentHash.le_hash l → zlen l < 2 ^ 31 →
  Forall (λ n, ConsistentHash.iHashCode n ≠ h) l →
  ConsistentHash.find_node h l = (Ok (ConsistentHash.successor h l), l).
Proof.
  intros Hs Hn Hne. rewrite ConsistentHash.find_node_spec by done. rewrite Forall_forall in Hne.
  unfold ConsistentHash.successor.
  rewrite (ConsistentHash.list_find_ext_in (λ n, h ≤ ConsistentHash.iHashCode n) (λ n, h < ConsistentHash.iHashCode n))
    by (intros n Hn'; specialize (Hne n Hn'); lia).
  destruct l as [|first l0] eqn:El; [done |]. rewrite <- El in *.
  destruct (last l) as [final|] eqn:Elast; [|by rewrite last_None in Elast; rewrite Elast in El].
  assert (Hfinal : final ∈ l) by (apply last_Some_elem_of; done).
  assert (Hfirst : first ∈ l) by (rewrite El; apply list_elem_of_here).
  pose proof (Hne _ Hfinal). pose proof (Hne _ Hfirst).
  destruct (Z.leb_spec h (ConsistentHash.iHashCode first)); cbn [orb].
  { rewrite El. cbn. by rewrite decide_True by lia. }
  destruct (Z.ltb_spec (ConsistentHash.iHashCode final) h) as [Hlt|Hge].
  - rewrite (proj2 (list_find_None _ _)); [by rewrite El |]. apply Forall_lookup. intros k m Hm.
    rewrite last_lookup in Elast. apply lookup_lt_Some in Hm as Hk.
    pose proof (ConsistentHash.sorted_codes l k (pred (length l)) m final Hs ltac:(lia) Hm Elast). lia.
  - destruct (list_find _ l) as [[i n]|] eqn:Ef; [done |]. apply list_find_None in Ef.
    rewrite Forall_forall in Ef. specialize (Ef _ Hfinal). cbn beta in Ef. lia.
Qed.


(** A key of the larger ring is at one of the nodes added or where it was. *)
Lemma keys_move (l extra l' : list ConsistentHash.node_T_new) (h : Z) :
  l ≠ [] → StronglySorted ConsistentHash.le_hash l → ConsistentHash.sortNode (l ++ extra) l' → zlen l' < 2 ^ 31 →
  NoDup (map ConsistentHash.iHashCode l') → Forall (λ n, ConsistentHash.iHashCode n ≠ h) l' →
  ∃ n, ConsistentHash.find_node h l' = (Ok (Some n), l') ∧
    (n ∈ extra ∨ ConsistentHash.find_node h l = (Ok (Some n), l)).
Proof.
  intros Hne Hs [Hperm Hs'] Hn Hnd Hh.
  assert (Hsub : l ⊆ l') by (intros m Hm; rewrite Hperm; apply elem_of_app; by left).
  assert (Hl : zlen l < 2 ^ 31) by (apply Permutation_length in Hperm; rewrite length_app in Hperm; lia).
  assert (Hne' : l' ≠ []) by (intros ->; apply Permutation_nil_l in Hperm; by destruct l).
  rewrite (find_successor l'), (find_successor l) by (done || (rewrite Forall_forall in *; auto)).
  destruct (ConsistentHash.successor_next h l' Hs' Hne') as (n & -> & Hnext). exists n. split; [done |].
  pose proof (proj1 Hnext) as Hin. rewrite Hperm, elem_of_app in Hin. destruct Hin as [Hin|]; [right | by left].
  destruct (ConsistentHash.successor_next h l Hs Hne) as (m & -> & Hm). do 3 f_equal.
  apply (NoDup_map_inj ConsistentHash.iHashCode l'); [done | apply Hsub, Hm | by apply Hsub |].
  eapply ConsistentHash.next_node_unique; [exact Hm |]. by eapply ConsistentHash.next_node_subset.
Qed.

(** Consistency.  [addNode] succeeds; after sorting, a key goes to the new node or
    where it went before. *)
Theorem few_keys_move (stack : MD5.MD5_CTX) (alg : TC_HashAlgorithmType) (l : list ConsistentHash.node_T_new)
    (node : list Z) (index weight : Z) :
  length (MD5.buffer stack) = 64%nat → bytes_ok node → zlen node + 11 < 2 ^ 32 →
  l ≠ [] → StronglySorted ConsistentHash.le_hash l →
  ∃ l1, ConsistentHash.addNode stack alg node index weight l = (Ok tt, l1) ∧
    zlen l1 = zlen l + Z.max 0 weight * Z.of_nat (ConsistentHash.num_codes alg) ∧
    ∀ l2 h, ConsistentHash.sortNode l1 l2 → zlen l2 < 2 ^ 31 → NoDup (map ConsistentHash.iHashCode l2) →
      Forall (λ n, ConsistentHash.iHashCode n ≠ h) l2 →
      ((ConsistentHash.getNodeName h l2).1 = Ok (Some node) ∧ (ConsistentHash.getIndex h l2).1 = Ok (Some index)) ∨
      ((ConsistentHash.getNodeName h l2).1 = (ConsistentHash.getNodeName h l).1 ∧
       (ConsistentHash.getIndex h l2).1 = (ConsistentHash.getIndex h l).1).
Proof.
  intros Hst Hok Hlen Hne Hs.
  destruct (ConsistentHash.addNode_loop_eq stack alg Hst (Z.to_nat weight) node index 0 l) as (codes & E & Hn); [done | done | lia |].
  exists (l ++ map (λ c, ConsistentHash.mk c node index) codes). split; [exact E |].
  split; [rewrite length_app, length_map, Hn; lia |]. intros l2 h Hsort Hsz Hnd Hh.
  destruct (keys_move l _ l2 h Hne Hs Hsort Hsz Hnd Hh) as (n & E2 & Hcase).
  unfold ConsistentHash.getNodeName, ConsistentHash.getIndex. rewrite !(bind_Ok _ _ _ _ _ E2).
  destruct Hcase as [(c & -> & _)%list_elem_of_fmap | E1]; [by left | right].
  by rewrite !(bind_Ok _ _ _ _ _ E1).
Qed.

Definition sample_ring (codes : list Z) : list ConsistentHash.node_T_new :=
  map (λ c, ConsistentHash.mk c [c] c) codes.

Lemma sample_sorted : StronglySorted ConsistentHash.le_hash (sample_ring [10; 20; 30]).
Proof. repeat constructor; unfold ConsistentHash.le_hash; cbn; lia. Defined.


(** Node [[98]] with weight 2 joins a ring of three nodes. *)
Definition sample_added : list ConsistentHash.node_T_new :=
  [ConsistentHash.mk 1776395901 [98] 7; ConsistentHash.mk 610669155 [98] 7].
Definition sample_larger : list ConsistentHash.node_T_new := sample_ring [10; 20; 30] ++ rev sample_added.

Lemma few_keys_move_witness :
  ((ConsistentHash.getNodeName 99 sample_larger).1 = Ok (Some [98]) ∧ (ConsistentHash.getIndex 99 sample_larger).1 = Ok (Some 7)) ∨
  ((ConsistentHash.getNodeName 99 sample_larger).1 = (ConsistentHash.getNodeName 99 (sample_ring [10; 20; 30])).1 ∧
   (ConsistentHash.getIndex 99 sample_larger).1 = (ConsistentHash.getIndex 99 (sample_ring [10; 20; 30])).1).
Proof.
  destruct (few_keys_move stack_garbage E_TC_CONHASH_DEFAULTHASH (sample_ring [10; 20; 30]) [98] 7 2) as (l1 & E & _ & Hkeys);
    [done | repeat constructor; cbn; lia | done | done | exact sample_sorted |].
  assert (El : l1 = sample_ring [10; 20; 30] ++ sample_added) by (vm_compute in E; injection E as <-; reflexivity).
  apply Hkeys; [rewrite El; split | done | | repeat constructor; cbn; lia].
  - apply Permutation_app_head, perm_swap.
  - repeat constructor; unfold ConsistentHash.le_hash; cbn; lia.
  - apply (bool_decide_unpack _). vm_compute. exact I.
Defined.

Example past_the_end : (ConsistentHash.find_node 30 (sample_ring [10; 20; 30])).1 = OutOfBounds.
Proof. vm_compute. reflexivity. Qed.
