(* ===== verification/LoopQueue.v ===== *)
(** [TC_LoopQueue] from [src/util/include/util/tc_loop_queue.h], the queue between
    the threads that make calls and the network thread: a ring of [iSize + 1] slots
    with an index to write at and an index to read from.  Every operation refines
    one of a bounded FIFO; and the queue may be shared by one thread that pushes and
    one that pops, without locks. *)
From stdpp Require Import prelude list.
From Stdlib Require Import ZArith Lia.
From S2P Require Import Prelude Bytes.

Module LoopQueue.
(** Decides a comparison of indices. *)
Ltac index := repeat match goal with
  | |- context [?a <? ?b] => destruct (Z.ltb_spec a b)
  | |- context [?a =? ?b] => destruct (Z.eqb_spec a b)
  | |- context [?a <=? ?b] => destruct (Z.leb_spec a b)
  end; cbn [andb orb negb]; try (reflexivity || lia).

Ltac unwrap := repeat match goal with |- context [wrapU 64 ?z] => rewrite (wrapU_id 64 z) by (unfold in_U; lia) end.

Section queue.
Context {T : Type}.

(** [None] in the memory is a slot [malloc] left unset. *)
Record t := mk {
  _p : list (option T);
  _iCapacity : Z;
  _iCapacitySub : Z;
  _iBegin : Z;
  _iEnd : Z
}.

Abbreviation M A := (prog t Empty_set A).

(** The constructor. *)
Definition new (iSize : Z) : t :=
  mk (replicate (Z.to_nat (wrapU 64 (iSize + 1))) None) (wrapU 64 (iSize + 1)) iSize 0 0.

Definition set_iBegin i : M unit := modify (λ q, mk (_p q) (_iCapacity q) (_iCapacitySub q) i (_iEnd q)).
Definition set_iEnd i : M unit := modify (λ q, mk (_p q) (_iCapacity q) (_iCapacitySub q) (_iBegin q) i).

(** [memcpy] to and from a slot. *)
Definition store (i : Z) (x : T) : M unit := λ q,
  if (0 <=? i) && (i <? zlen (_p q))
  then (Ok tt, mk (<[Z.to_nat i := Some x]> (_p q)) (_iCapacity q) (_iCapacitySub q) (_iBegin q) (_iEnd q))
  else (OutOfBounds, q).
Definition load (i : Z) : M T := λ q,
  match (if 0 <=? i then _p q !! Z.to_nat i else None) with
  | Some (Some x) => (Ok x, q)
  | _ => (OutOfBounds, q)
  end.

Definition next (q : t) (i : Z) : Z := if i =? _iCapacitySub q then 0 else wrapU 64 (i + 1).

Definition size (q : t) : Z :=
  if _iBegin q <? _iEnd q then wrapU 64 (wrapU 64 (_iBegin q + _iCapacity q) - _iEnd q)
  else wrapU 64 (_iBegin q - _iEnd q).
Definition empty (q : t) : bool := _iEnd q =? _iBegin q.
Definition getCapacity (q : t) : Z := _iCapacity q.

(** No room for one more element. *)
Definition full (q : t) (iEnd : Z) : bool :=
  (_iBegin q <? iEnd) && (wrapU 64 (iEnd - _iBegin q) <? 2) ||
  (iEnd <? _iBegin q) && (wrapU 64 (_iCapacity q - 2) <? wrapU 64 (_iBegin q - iEnd)).

(** [push_back(t, bEmpty)]: the result and [bEmpty]. *)
Definition push_back_bEmpty (x : T) : M (bool * bool) :=
  let* q := get_st in
  let iEnd := _iEnd q in
  if full q iEnd then ret (false, false) else
  store (_iBegin q) x ;;;
  let* q := get_st in
  let bEmpty := _iEnd q =? _iBegin q in
  set_iBegin (next q (_iBegin q)) ;;;
  let* q := get_st in
  ret (true, bEmpty || (size q =? 1)).

(** [push_back(t, bEmpty, iBegin, iEnd)] also tells the indices it found. *)
Definition push_back_indices (x : T) : M (bool * bool * Z * Z) :=
  let* q := get_st in
  let* (r, bEmpty) := push_back_bEmpty x in ret (r, bEmpty, _iBegin q, _iEnd q).

Definition push_back (x : T) : M bool := let* (r, _) := push_back_bEmpty x in ret r.

Fixpoint store_all (vt : list T) : M unit :=
  match vt with
  | [] => ret tt
  | x :: vt' =>
    let* q := get_st in
    store (_iBegin q) x ;;; set_iBegin (next q (_iBegin q)) ;;; store_all vt'
  end.

(** [push_back(const queue_type&)]. *)
Definition push_back_all (vt : list T) : M bool :=
  let* q := get_st in
  let iEnd := _iEnd q in
  if (wrapU 64 (_iCapacity q - 1) <? zlen vt) ||
     (_iBegin q <? iEnd) && (wrapU 64 (iEnd - _iBegin q) <? wrapU 64 (zlen vt + 1)) ||
     (iEnd <? _iBegin q) && (wrapU 64 (_iCapacity q - zlen vt - 1) <? wrapU 64 (_iBegin q - iEnd))
  then ret false
  else store_all vt ;;; ret true.

(** [pop_front(t)], [pop_front()] and [get_front(t)]: [None] for [false]. *)
Definition pop_front : M (option T) :=
  let* q := get_st in
  if _iEnd q =? _iBegin q then ret None else
  let* x := load (_iEnd q) in
  set_iEnd (next q (_iEnd q)) ;;; ret (Some x).

Definition pop_front_drop : M bool :=
  let* q := get_st in
  if _iEnd q =? _iBegin q then ret false else set_iEnd (next q (_iEnd q)) ;;; ret true.

Definition get_front : M (option T) :=
  let* q := get_st in
  if _iEnd q =? _iBegin q then ret None else let* x := load (_iEnd q) in ret (Some x).

(** ** The queue a ring stands for *)

(** The [k]-th slot from the read index. *)
Definition slot (q : t) (k : Z) : Z :=
  let i := _iEnd q + k in if i <? _iCapacity q then i else i - _iCapacity q.

(** A ring of [n] usable slots. *)
Definition wf (n : Z) (q : t) : Prop :=
  1 ≤ n < 2 ^ 62 ∧ _iCapacitySub q = n ∧ _iCapacity q = n + 1 ∧ zlen (_p q) = n + 1 ∧
  0 ≤ _iBegin q ≤ n ∧ 0 ≤ _iEnd q ≤ n.

Definition holds (n : Z) (q : t) (l : list T) : Prop :=
  wf n q ∧ zlen l ≤ n ∧ _iBegin q = slot q (zlen l) ∧
  ∀ k x, l !! k = Some x → _p q !! Z.to_nat (slot q (Z.of_nat k)) = Some (Some x).

Lemma new_holds n : 1 ≤ n < 2 ^ 62 → holds n (new n) [].
Proof.
  intros Hn. unfold new. rewrite wrapU_id by (unfold in_U; lia).
  split; [unfold wf; cbn [_p _iCapacity _iCapacitySub _iBegin _iEnd]; rewrite length_replicate; lia |].
  split; [cbn; lia |]. split; [|by intros k x ?].
  unfold slot; cbn [_iEnd _iBegin _iCapacity length Z.of_nat]. destruct (Z.ltb_spec (0 + Z.of_nat 0) (n + 1)); lia.
Qed.

Lemma next_spec n q i : wf n q → 0 ≤ i ≤ n → next q i = if i =? n then 0 else i + 1.
Proof. intros (? & E & _) Hi. unfold next. rewrite E. index; by unwrap. Qed.

Lemma size_spec n q l : holds n q l → size q = zlen l.
Proof.
  intros ((Hn & Es & Ec & Ep & Hb & He) & Hl & Eb & _). unfold size. rewrite Ec.
  unfold slot in Eb. rewrite Ec in Eb. cbv zeta in Eb.
  revert Eb. index; intros Eb; unwrap; lia.
Qed.

Lemma ring_empty_spec n q l : holds n q l → (_iEnd q =? _iBegin q) = bool_decide (l = []).
Proof.
  intros ((Hn & Es & Ec & Ep & Hb & He) & Hl & Eb & _). unfold slot in Eb. rewrite Ec in Eb. cbv zeta in Eb.
  apply eq_true_iff_eq. rewrite Z.eqb_eq, bool_decide_eq_true, <- length_zero_iff_nil.
  revert Eb. index; lia.
Qed.

(** The test for room, when the read index it uses is that of [k] pops ago. *)
Lemma full_spec n q l e k : holds n q l → 0 ≤ e ≤ n → 0 ≤ k → zlen l + k ≤ n →
  _iEnd q = (if e + k <=? n then e + k else e + k - (n + 1)) →
  full q e = (n <=? zlen l + k).
Proof.
  intros ((Hn & Es & Ec & Ep & Hb & He) & Hl & Eb & _) He' Hk Hk' Ee. unfold slot in Eb. cbv zeta in Eb.
  unfold full. rewrite Ec in *. apply eq_true_iff_eq. rewrite orb_true_iff, !andb_true_iff, !Z.ltb_lt, Z.leb_le.
  revert Eb Ee. destruct (Z.leb_spec (e + k) n); index; intros Eb Ee.
  all: split; [intros [[? H']|[? H']] | intros ?]; try (rewrite ?wrapU_id in H' by (unfold in_U; lia)); try lia.
  all: destruct (decide (_iBegin q < e)); [left | right]; unwrap; lia.
Qed.

(** *** The steps of the operations *)

Lemma slot_range n q k : wf n q → 0 ≤ k ≤ n → 0 ≤ slot q k ≤ n.
Proof. intros (Hn & Es & Ec & Ep & Hb & He) Hk. unfold slot. rewrite Ec. index. Qed.

Lemma slot_inj n q j k : wf n q → 0 ≤ j ≤ n → 0 ≤ k ≤ n → slot q j = slot q k → j = k.
Proof. intros (Hn & Es & Ec & Ep & Hb & He) Hj Hk. unfold slot. rewrite Ec. index. Qed.

Lemma slot_0 n q : wf n q → slot q 0 = _iEnd q.
Proof. intros (Hn & Es & Ec & Ep & Hb & He). unfold slot. rewrite Ec. index. Qed.

(** Writing a slot that is not in use. *)
Lemma store_spec n q l x : holds n q l → zlen l < n →
  ∃ q', store (_iBegin q) x q = (Ok tt, q') ∧ holds n q' l ∧ _p q' !! Z.to_nat (_iBegin q') = Some (Some x) ∧
    _iBegin q' = _iBegin q ∧ _iEnd q' = _iEnd q.
Proof.
  intros (Hwf & Hl & Eb & Hp) Hroom. pose proof Hwf as (Hn & Es & Ec & Ep & Hb & He).
  unfold store. rewrite (proj2 (Z.leb_le _ _)), (proj2 (Z.ltb_lt _ _)) by lia. cbn [andb].
  eexists. split; [reflexivity |]. cbn. split_and!; try done.
  - split; [unfold wf; cbn [_p _iCapacity _iCapacitySub _iBegin _iEnd]; rewrite length_insert; lia |]. do 2 (split; [done |]).
    intros k y Hy. cbn. rewrite list_lookup_insert_ne; [by apply Hp |].
    apply lookup_lt_Some in Hy as Hk. intros E'. pose proof (slot_range n q (Z.of_nat k) Hwf ltac:(lia)).
    change (slot _ (Z.of_nat k)) with (slot q (Z.of_nat k)) in E'.
    assert (slot q (zlen l) = slot q (Z.of_nat k)) as E2 by lia.
    apply (slot_inj n q) in E2; (done || lia).
  - rewrite list_lookup_insert_eq; [done | lia].
Qed.

(** Moving the write index over it. *)
Lemma publish_spec n q l x : holds n q l → zlen l < n → _p q !! Z.to_nat (_iBegin q) = Some (Some x) →
  holds n (set_iBegin (next q (_iBegin q)) q).2 (l ++ [x]).
Proof.
  intros (Hwf & Hl & Eb & Hp) Hroom Hx. pose proof Hwf as (Hn & Es & Ec & Ep & Hb & He).
  rewrite (next_spec n) by (done || lia). cbn.
  split; [unfold wf; cbn [_p _iCapacity _iCapacitySub _iBegin _iEnd]; index |]. split; [rewrite length_app; cbn; lia |].
  split.
  - rewrite length_app. unfold slot in *. cbn in *. rewrite Ec in *. revert Eb. index.
  - intros k y. cbn. change (slot _ (Z.of_nat k)) with (slot q (Z.of_nat k)).
    rewrite lookup_app_Some. intros [Hy|[Hk Hy]]; [by apply Hp |].
    apply list_lookup_singleton_Some in Hy as [Hk' ->].
    replace (Z.of_nat k) with (zlen l) by lia. by rewrite <- Eb.
Qed.

Lemma load_spec n q l x : holds n q (x :: l) → load (_iEnd q) q = (Ok x, q).
Proof.
  intros (Hwf & Hl & Eb & Hp). pose proof Hwf as (_ & _ & _ & _ & _ & He). unfold load.
  rewrite (proj2 (Z.leb_le _ _)) by lia. specialize (Hp 0%nat x eq_refl).
  change (Z.of_nat 0) with 0 in Hp. rewrite (slot_0 n) in Hp by done. by rewrite Hp.
Qed.

(** Moving the read index. *)
Lemma advance_spec n q l x : holds n q (x :: l) → holds n (set_iEnd (next q (_iEnd q)) q).2 l.
Proof.
  intros (Hwf & Hl & Eb & Hp). pose proof Hwf as (Hn & Es & Ec & Ep & Hb & He). cbn [length] in *.
  rewrite (next_spec n) by (done || lia). cbn.
  split; [unfold wf; cbn [_p _iCapacity _iCapacitySub _iBegin _iEnd]; index |]. split; [lia |]. split.
  - unfold slot in *. cbn in *. rewrite Ec in *. revert Eb. index.
  - intros k y Hy. apply lookup_lt_Some in Hy as Hk. cbn. specialize (Hp (S k) y Hy).
    replace (slot (mk _ _ _ _ _) (Z.of_nat k)) with (slot q (Z.of_nat (S k))); [done |].
    unfold slot. cbn. rewrite Ec. index.
Qed.

(** *** The operations *)

Lemma full_now n q l : holds n q l → full q (_iEnd q) = (n <=? zlen l).
Proof.
  intros H. pose proof H as ((Hn & Es & Ec & Ep & Hb & He) & Hl & _).
  rewrite (full_spec n q l (_iEnd q) 0 H); [f_equal; lia | lia.. |]. index.
Qed.

Lemma ring_push_spec n q l x : holds n q l →
  ∃ q', push_back_bEmpty x q = (Ok (if n <=? zlen l then (false, false) else (true, bool_decide (l = []))), q') ∧
    holds n q' (if n <=? zlen l then l else l ++ [x]).
Proof.
  intros H. unfold push_back_bEmpty, bind at 1, get_st. rewrite (full_now n q l H).
  destruct (Z.leb_spec n (zlen l)) as [|Hroom]; [by exists q |].
  destruct (store_spec n q l x H Hroom) as (q1 & E1 & H1 & Hx & Eb & Ee).
  rewrite (bind_Ok _ _ _ _ _ E1). unfold bind, get_st, ret, set_iBegin, modify.
  pose proof (publish_spec n q1 l x H1 Hroom Hx) as H2. eexists. split; [|exact H2].
  change (mk _ _ _ _ _) with (set_iBegin (next q1 (_iBegin q1)) q1).2.
  rewrite (size_spec n _ _ H2), (ring_empty_spec n q1 l H1), length_app. do 3 f_equal.
  destruct l as [|y l]; [done |]. rewrite bool_decide_eq_false_2 by done. cbn [orb]. apply Z.eqb_neq. cbn. lia.
Qed.

Lemma store_all_spec n vt q l : holds n q l → zlen l + zlen vt ≤ n →
  ∃ q', store_all vt q = (Ok tt, q') ∧ holds n q' (l ++ vt).
Proof.
  revert q l. induction vt as [|x vt IH]; intros q l H Hl; [exists q; by rewrite app_nil_r |].
  cbn [length] in Hl. cbn [store_all]. unfold bind at 1, get_st.
  destruct (store_spec n q l x H) as (q1 & E1 & H1 & Hx & Eb & Ee); [lia |].
  rewrite (bind_Ok _ _ _ _ _ E1). unfold bind at 1, set_iBegin, modify.
  replace (next q (_iBegin q)) with (next q1 (_iBegin q1)).
  2: { destruct H as [Hw _], H1 as [Hw1 _]. pose proof Hw as (_ & _ & _ & _ & ? & _). pose proof Hw1 as (_ & _ & _ & _ & ? & _).
       rewrite (next_spec n q), (next_spec n q1) by (done || lia). by rewrite Eb. }
  destruct (IH _ _ (publish_spec n q1 l x H1 ltac:(lia) Hx)) as (q2 & E2 & H2); [rewrite length_app; cbn; lia |].
  exists q2. split; [exact E2 |]. by rewrite <- app_assoc in H2.
Qed.

Lemma push_all_spec n q l vt : holds n q l → zlen vt < 2 ^ 62 →
  ∃ q', push_back_all vt q = (Ok (zlen l + zlen vt <=? n), q') ∧
    holds n q' (if zlen l + zlen vt <=? n then l ++ vt else l).
Proof.
  intros H Hvt. pose proof H as ((Hn & Es & Ec & Ep & Hb & He) & Hl & Eb & _).
  unfold push_back_all, bind at 1, get_st. rewrite Ec.
  match goal with |- context [if ?c then ret false else _] => assert (Hc : c = negb (zlen l + zlen vt <=? n)) end.
  { unfold slot in Eb. rewrite Ec in Eb. cbv zeta in Eb. unwrap. revert Eb.
    destruct (Z.ltb_spec (n + 1 - 1) (zlen vt)); [index |].
    destruct (Z.ltb_spec (_iBegin q) (_iEnd q)); [|destruct (Z.ltb_spec (_iEnd q) (_iBegin q))];
      cbn [andb orb]; unwrap; index. }
  rewrite Hc. destruct (Z.leb_spec (zlen l + zlen vt) n); cbn [negb]; [|by exists q].
  destruct (store_all_spec n vt q l H) as (q' & E' & H'); [lia |]. rewrite (bind_Ok _ _ _ _ _ E'). by exists q'.
Qed.

Lemma pop_spec n q l : holds n q l →
  ∃ q', pop_front q = (Ok (head l), q') ∧ holds n q' (tail l) ∧
    pop_front_drop q = (Ok (negb (bool_decide (l = []))), q') ∧ get_front q = (Ok (head l), q).
Proof.
  intros H. unfold pop_front, pop_front_drop, get_front, bind, get_st, ret, set_iEnd, modify.
  rewrite (ring_empty_spec n q l H). destruct l as [|x l]; [by exists q |]. rewrite bool_decide_eq_false_2 by done.
  rewrite (load_spec n q l x H). eexists. split_and!; try done. exact (advance_spec n q l x H).
Qed.
End queue.

(** ** Refinement *)
Section refinement.
Context {T : Type}.

Inductive op : Type :=
  | PushBack (x : T) | PushBackEmpty (x : T) | PushBackIndices (x : T) | PushBackAll (vt : list T)
  | PopFront | PopFrontDrop | GetFront | Empty | Size | GetCapacity.

Inductive result : Type :=
  | RBool (b : bool) | RPush (b bEmpty : bool) | RElem (x : option T) | RSize (n : Z).

Abbreviation M A := (prog (@t T) Empty_set A).

Definition run_op (o : op) : M result :=
  match o with
  | PushBack x => let* b := push_back x in ret (RBool b)
  | PushBackEmpty x => let* (b, e) := push_back_bEmpty x in ret (RPush b e)
  | PushBackIndices x => let* (b, e, _, _) := push_back_indices x in ret (RPush b e)
  | PushBackAll vt => let* b := push_back_all vt in ret (RBool b)
  | PopFront => let* x := pop_front in ret (RElem x)
  | PopFrontDrop => let* b := pop_front_drop in ret (RBool b)
  | GetFront => let* x := get_front in ret (RElem x)
  | Empty => let* q := get_st in ret (RBool (empty q))
  | Size => let* q := get_st in ret (RSize (size q))
  | GetCapacity => let* q := get_st in ret (RSize (getCapacity q))
  end.

(** The same on a FIFO of at most [n] elements. *)
Definition spec_op (n : Z) (o : op) (l : list T) : result * list T :=
  let room k := zlen l + k <=? n in
  match o with
  | PushBack x => (RBool (room 1), if room 1 then l ++ [x] else l)
  | PushBackEmpty x | PushBackIndices x =>
      (if room 1 then RPush true (bool_decide (l = [])) else RPush false false, if room 1 then l ++ [x] else l)
  | PushBackAll vt => (RBool (room (zlen vt)), if room (zlen vt) then l ++ vt else l)
  | PopFront => (RElem (head l), tail l)
  | PopFrontDrop => (RBool (negb (bool_decide (l = []))), tail l)
  | GetFront => (RElem (head l), l)
  | Empty => (RBool (bool_decide (l = [])), l)
  | Size => (RSize (zlen l), l)
  | GetCapacity => (RSize (n + 1), l)
  end.

Fixpoint run_ops (os : list op) : M (list result) :=
  match os with
  | [] => ret []
  | o :: os' => let* r := run_op o in let* rs := run_ops os' in ret (r :: rs)
  end.

Fixpoint spec_ops (n : Z) (os : list op) (l : list T) : list result * list T :=
  match os with
  | [] => ([], l)
  | o :: os' => let '(r, l1) := spec_op n o l in let '(rs, l2) := spec_ops n os' l1 in (r :: rs, l2)
  end.

Definition op_ok (o : op) : Prop := match o with PushBackAll vt => zlen vt < 2 ^ 62 | _ => True end.

Lemma ring_op_refines n o q l : holds n q l → op_ok o →
  ∃ q', run_op o q = (Ok (spec_op n o l).1, q') ∧ holds n q' (spec_op n o l).2.
Proof.
  intros H Hok.
  assert (Hroom : (zlen l + 1 <=? n) = negb (n <=? zlen l)).
  { apply eq_true_iff_eq. rewrite negb_true_iff, Z.leb_le, Z.leb_gt. lia. }
  assert (Hpush : ∀ x, ∃ q', push_back_bEmpty x q =
      (Ok (zlen l + 1 <=? n, if zlen l + 1 <=? n then bool_decide (l = []) else false), q') ∧
      holds n q' (if zlen l + 1 <=? n then l ++ [x] else l)).
  { intros x. destruct (ring_push_spec n q l x H) as (q' & E & H'). exists q'. rewrite E, Hroom. by destruct (n <=? zlen l). }
  pose proof H as ((_ & _ & Ec & _) & _).
  destruct (pop_spec n q l H) as (q' & Ep & Hq' & Ed & Eg).
  destruct o as [x|x|x|vt| | | | | |]; cbn [run_op spec_op fst snd].
  1-3: destruct (Hpush x) as (q1 & E & H1); exists q1; split; [|exact H1].
  - unfold push_back. by rewrite bind_assoc, (bind_Ok _ _ _ _ _ E).
  - rewrite (bind_Ok _ _ _ _ _ E). by destruct (_ <=? n).
  - unfold push_back_indices. rewrite bind_assoc. unfold bind at 1, get_st.
    rewrite bind_assoc, (bind_Ok _ _ _ _ _ E). by destruct (_ <=? n).
  - destruct (push_all_spec n q l vt H Hok) as (q1 & E & H1). exists q1. by rewrite (bind_Ok _ _ _ _ _ E).
  - exists q'. by rewrite (bind_Ok _ _ _ _ _ Ep).
  - exists q'. by rewrite (bind_Ok _ _ _ _ _ Ed).
  - exists q. by rewrite (bind_Ok _ _ _ _ _ Eg).
  - exists q. unfold bind, get_st, empty, ret. by rewrite (ring_empty_spec n q l H).
  - exists q. unfold bind, get_st, ret. by rewrite (size_spec n q l H).
  - exists q. unfold bind, get_st, ret, getCapacity. by rewrite Ec.
Qed.

Lemma run_ops_refines n os q l : holds n q l → Forall op_ok os →
  ∃ q', run_ops os q = (Ok (spec_ops n os l).1, q') ∧ holds n q' (spec_ops n os l).2.
Proof.
  intros H Hok. revert q l H. induction Hok as [|o os Ho Hok IH]; intros q l H; [by exists q |].
  destruct (ring_op_refines n o q l H Ho) as (q1 & E1 & H1). cbn [run_ops spec_ops].
  rewrite (bind_Ok _ _ _ _ _ E1). destruct (spec_op n o l) as [r l1]; cbn [fst snd] in *.
  destruct (IH q1 l1 H1) as (q2 & E2 & H2). rewrite (bind_Ok _ _ _ _ _ E2).
  destruct (spec_ops n os l1) as [rs l2]. by exists q2.
Qed.
End refinement.

(** ** One pushing and one popping thread

    The steps at which [push_back] and [pop_front] touch the shared members, taken
    one at a time and in any order between the two threads; each step is atomic and
    seen by the other thread at once. *)
Section threads.
Context {T : Type}.

(** Where [push_back(x, bEmpty)] stands: it has read [_iEnd]; found room; stored
    the element; compared the indices; moved the write index. *)
Inductive producer : Type :=
  | PIdle | PCheck (x : T) (iEnd : Z) | PStore (x : T) | PStored (x : T) | PNext (x : T) (bEmpty : bool)
  | PSize (bEmpty : bool).

(** [pop_front(t)]: it has found an element; read it. *)
Inductive consumer : Type := CIdle | CLoad | CNext (x : T).

(** The ring, both threads, and what was put in and taken out. *)
Record ring := mkRing {
  queue : @t T; prod : producer; cons : consumer;
  results : list (bool * bool); pushed : list T; popped : list T
}.

Definition start (n : Z) : ring := mkRing (new n) PIdle CIdle [] [] [].

Inductive step : Type := Push (x : T) | Producer | Consumer.

Abbreviation M A := (prog ring Empty_set A).

Definition on_queue {A} (m : prog t Empty_set A) : M A := λ r,
  let '(o, q) := m (queue r) in (o, mkRing q (prod r) (cons r) (results r) (pushed r) (popped r)).
Definition set_prod p : M unit := modify (λ r, mkRing (queue r) p (cons r) (results r) (pushed r) (popped r)).
Definition set_cons c : M unit := modify (λ r, mkRing (queue r) (prod r) c (results r) (pushed r) (popped r)).
Definition returns b e : M unit := modify (λ r,
  mkRing (queue r) PIdle (cons r) (results r ++ [(b, e)]) (pushed r) (popped r)).
Definition add_pushed x : M unit := modify (λ r,
  mkRing (queue r) (prod r) (cons r) (results r) (pushed r ++ [x]) (popped r)).
Definition add_popped x : M unit := modify (λ r,
  mkRing (queue r) (prod r) (cons r) (results r) (pushed r) (popped r ++ [x])).

Definition take_step (a : step) : M unit :=
  let* r := get_st in
  let q := queue r in
  match a with
  | Push x => match prod r with PIdle => set_prod (PCheck x (_iEnd q)) | _ => ret tt end
  | Producer =>
    match prod r with
    | PIdle => ret tt
    | PCheck x iEnd => if full q iEnd then returns false false else set_prod (PStore x)
    | PStore x => on_queue (store (_iBegin q) x) ;;; set_prod (PStored x)
    | PStored x => set_prod (PNext x (_iEnd q =? _iBegin q))
    | PNext x bEmpty => on_queue (set_iBegin (next q (_iBegin q))) ;;; add_pushed x ;;; set_prod (PSize bEmpty)
    | PSize bEmpty => returns true (bEmpty || (size q =? 1))
    end
  | Consumer =>
    match cons r with
    | CIdle => if _iEnd q =? _iBegin q then ret tt else set_cons CLoad
    | CLoad => let* x := on_queue (load (_iEnd q)) in set_cons (CNext x)
    | CNext x => on_queue (set_iEnd (next q (_iEnd q))) ;;; add_popped x ;;; set_cons CIdle
    end
  end.

Fixpoint interleave (steps : list step) : M unit :=
  match steps with
  | [] => ret tt
  | a :: steps' => take_step a ;;; interleave steps'
  end.

(** What each thread knows where it stands, of the ring and its content. *)
Definition producer_ok (n : Z) (q : t) (l : list T) (p : producer) : Prop :=
  match p with
  | PCheck x e => ∃ k, 0 ≤ e ≤ n ∧ 0 ≤ k ∧ zlen l + k ≤ n ∧
      _iEnd q = (if e + k <=? n then e + k else e + k - (n + 1))
  | PStore x => zlen l < n
  | PStored x | PNext x _ => zlen l < n ∧ _p q !! Z.to_nat (_iBegin q) = Some (Some x)
  | PIdle | PSize _ => True
  end.

Definition consumer_ok (l : list T) (c : consumer) : Prop :=
  match c with CIdle => True | CLoad => l ≠ [] | CNext x => head l = Some x end.

Definition threads_inv (n : Z) (r : ring) : Prop :=
  ∃ l, holds n (queue r) l ∧ pushed r = popped r ++ l ∧ producer_ok n (queue r) l (prod r) ∧ consumer_ok l (cons r).

Lemma consumer_ok_app l x c : consumer_ok l c → consumer_ok (l ++ [x]) c.
Proof. destruct c; cbn; [done | by destruct l | by destruct l]. Qed.

(** What the producer knows survives a pop. *)
Lemma producer_ok_pop n q x l p : holds n q (x :: l) → producer_ok n q (x :: l) p →
  producer_ok n (set_iEnd (next q (_iEnd q)) q).2 l p.
Proof.
  intros ((Hn & Es & Ec & Ep & Hb & He) & Hl & _) Hp. cbn [length] in *.
  destruct p as [|y e|y|y|y b|b]; cbn in *; try lia; try (split; [lia | apply Hp]).
  destruct Hp as (k & He' & Hk & Hlk & Ee). exists (k + 1). rewrite (next_spec n) by (done || lia).
  split_and!; try lia. rewrite Ee. revert Ee. index.
Qed.

Lemma step_inv n a r : threads_inv n r → ∃ r', take_step a r = (Ok tt, r') ∧ threads_inv n r'.
Proof.
  intros (l & H & Epp & Hp & Hc). pose proof H as (Hwf & Hl & _). pose proof Hwf as (_ & _ & _ & _ & _ & He).
  destruct r as [q p c rs pu po]; cbn [queue prod cons pushed popped] in *. destruct a as [x| |]; unfold take_step, bind at 1, get_st; cbn [queue prod cons].
  - destruct p; (eexists; split; [reflexivity |]); exists l; split_and!; try done.
    cbn. exists 0. split_and!; try lia. index.
  - destruct p as [|y e|y|y|y b|b]; cbn in Hp.
    + eexists. split; [reflexivity |]. by exists l.
    + destruct Hp as (k & ? & ? & ? & ?). rewrite (full_spec n q l e k) by done.
      destruct (Z.leb_spec n (zlen l + k)); (eexists; split; [reflexivity |]); exists l; split_and!; try done. cbn. lia.
    + destruct (store_spec n q l y H Hp) as (q' & E & H' & Hy & _). unfold bind, on_queue; cbn. rewrite E.
      eexists. split; [reflexivity |]. by exists l.
    + eexists. split; [reflexivity |]. by exists l.
    + destruct Hp as [Hroom Hy]. eexists. split; [reflexivity |]. exists (l ++ [y]).
      split_and!; [by apply publish_spec | cbn; by rewrite Epp, app_assoc | done | by apply consumer_ok_app].
    + eexists. split; [reflexivity |]. by exists l.
  - destruct c as [| |x]; cbn in Hc.
    + rewrite (ring_empty_spec n q l H). case_bool_decide; (eexists; split; [reflexivity |]); by exists l.
    + destruct l as [|x l]; [done |]. unfold bind, on_queue; cbn. rewrite (load_spec n q l x H).
      eexists. split; [reflexivity |]. by exists (x :: l).
    + destruct l as [|x' l]; [done |]. injection Hc as ->. eexists. split; [reflexivity |]. exists l.
      split_and!; [by eapply advance_spec | cbn; by rewrite Epp, <- app_assoc | by eapply producer_ok_pop | done].
Qed.

Lemma interleave_inv n steps r : threads_inv n r → ∃ r', interleave steps r = (Ok tt, r') ∧ threads_inv n r'.
Proof.
  revert r. induction steps as [|a steps IH]; intros r H; [by exists r |].
  destruct (step_inv n a r H) as (r1 & E1 & H1). cbn [interleave]. rewrite (bind_Ok _ _ _ _ _ E1). by apply IH.
Qed.

Lemma start_inv n : 1 ≤ n < 2 ^ 62 → threads_inv n (start n).
Proof. intros Hn. exists []. split_and!; [by apply new_holds | done..]. Qed.
End threads.
End LoopQueue.

(** C23: refinement.  Any sequence of operations of a ring made for [n] elements
    gives the results of the same sequence on a FIFO of at most [n], [bEmpty]
    telling that the queue was empty; no slot is read that was not written. *)
Theorem loop_queue_refines {T : Type} (n : Z) (os : list (@LoopQueue.op T)) :
  1 ≤ n < 2 ^ 62 → Forall LoopQueue.op_ok os →
  ∃ q, LoopQueue.run_ops os (LoopQueue.new n) = (Ok (LoopQueue.spec_ops n os []).1, q) ∧
    LoopQueue.holds n q (LoopQueue.spec_ops n os []).2.
Proof. intros Hn Hok. apply LoopQueue.run_ops_refines; [by apply LoopQueue.new_holds | done]. Qed.

(** C24: whichever way the steps of one pushing and one popping thread interleave,
    every access is to a slot that was written, what has been popped is a beginning
    of what has been pushed, and the rest, at most [n] elements, is in the ring. *)
Theorem loop_queue_threads {T : Type} (n : Z) (steps : list (@LoopQueue.step T)) :
  1 ≤ n < 2 ^ 62 →
  ∃ r l, LoopQueue.interleave steps (LoopQueue.start n) = (Ok tt, r) ∧
    LoopQueue.pushed r = LoopQueue.popped r ++ l ∧ zlen l ≤ n ∧ LoopQueue.holds n (LoopQueue.queue r) l.
Proof.
  intros Hn. destruct (LoopQueue.interleave_inv n steps _ (LoopQueue.start_inv n Hn)) as (r & E & l & H & Ep & _).
  exists r, l. split_and!; [done | done | apply H | done].
Qed.

Lemma loop_queue_refines_witness :
  let os := [LoopQueue.PushBack 7; LoopQueue.PushBackAll [8; 9]; LoopQueue.PushBackEmpty 1; LoopQueue.PopFront;
             LoopQueue.PushBackIndices 2; LoopQueue.PopFrontDrop; LoopQueue.GetFront; LoopQueue.Size] in
  Forall LoopQueue.op_ok os ∧
  ∃ q, LoopQueue.run_ops os (LoopQueue.new 3) = (Ok (LoopQueue.spec_ops 3 os []).1, q) ∧
    LoopQueue.holds 3 q (LoopQueue.spec_ops 3 os []).2.
Proof.
  intros os. assert (Hok : Forall LoopQueue.op_ok os) by (repeat constructor; cbn; lia).
  split; [exact Hok | exact (loop_queue_refines 3 os ltac:(lia) Hok)].
Defined.

Lemma loop_queue_threads_witness :
  let steps := LoopQueue.Push 5 :: replicate 5 LoopQueue.Producer ++ [LoopQueue.Push 6; LoopQueue.Consumer;
    LoopQueue.Producer; LoopQueue.Consumer; LoopQueue.Consumer; LoopQueue.Producer; LoopQueue.Producer] in
  ∃ r l, LoopQueue.interleave steps (LoopQueue.start 1) = (Ok tt, r) ∧
    LoopQueue.pushed r = LoopQueue.popped r ++ l ∧ zlen l ≤ 1 ∧ LoopQueue.holds 1 (LoopQueue.queue r) l.
Proof. intros steps. exact (loop_queue_threads 1 steps ltac:(lia)). Defined.
