(* ===== verification/EndpointManager.v ===== *)
(** [EndpointManager] from [src/servant/libservant/EndpointManager.cpp]: the list of
    endpoints of a servant as the registry sends it, and the choice of an adapter for
    each call: round robin, by weight, by hash and by consistent hash. *)
From stdpp Require Import prelude gmap list.
From Stdlib Require Import ZArith Lia.
From S2P Require Import Prelude Bytes TarsInput AdapterProxy Md5 ConsistentHash.

(** ** What the code takes from elsewhere *)

(** [std::sort] on the nodes of a ring. *)
Class RingSort := {
  ring_sort : list ConsistentHash.node_T_new → list ConsistentHash.node_T_new;
  ring_sort_ok l : ConsistentHash.sortNode l (ring_sort l)
}.

(** [isConnTimeout()] of a connection. *)
Class ConnTimeout (X : Type) := tr_isConnTimeout : X → bool.

(** Members that no constructor sets: [_staticWeight] and [_staticWeightChanged] of a
    new adapter, [_first] and [_lastBuildWeightTime] of a new manager. *)
Record uninitialized := mkUninit { u_weight : Z; u_changed : bool; u_first : bool; u_time : Z }.

Inductive EndpointWeightType : Type := E_LOOP | E_STATIC_WEIGHT.
#[export] Instance EndpointWeightType_eq_dec : EqDecision EndpointWeightType.
Proof. solve_decision. Defined.

(** [EndpointInfo], with what the manager uses of it. *)
Record EndpointInfo := mkEndpoint { ep_cmpDesc : list Z; ep_desc : list Z; ep_host : list Z; ep_weight : Z }.

(** ** Containers *)

(** [operator<] of [std::string]. *)
Fixpoint str_lt (a b : list Z) : bool :=
  match a, b with
  | _, [] => false
  | [], _ => true
  | x :: a', y :: b' => if x <? y then true else if y <? x then false else str_lt a' b'
  end.

Module StrMap.
(** [std::map<string, V>], in the order of its keys; of an [unordered_map] the code
    uses nothing that depends on the order. *)
Abbreviation map V := (list (list Z * V)).

Definition find {V} (k : list Z) (m : map V) : option V := snd <$> List.find (λ kv, bool_decide (kv.1 = k)) m.
(** [insert] leaves an entry that is there as it is. *)
Definition insert {V} (k : list Z) (v : V) (m : map V) : map V :=
  if find k m is Some _ then m else map_insert str_lt (k, v) m.
Definition erase {V} (k : list Z) (m : map V) : map V := filter (λ kv, kv.1 ≠ k) m.
(** [m[k] = v]. *)
Definition assign {V} (k : list Z) (v : V) (m : map V) : map V :=
  map_insert str_lt (k, v) (erase k m).
End StrMap.

(** [std::multimap<int, size_t>::insert]: behind the entries with the same key. *)
Fixpoint mm_insert (kv : Z * nat) (m : list (Z * nat)) : list (Z * nat) :=
  match m with
  | [] => [kv]
  | x :: m' => if kv.1 <? x.1 then kv :: m else x :: mm_insert kv m'
  end.

Module Router.
(** ** The table of weighted round robin

    The same code stands in [dispatchEndpointCache] and in
    [updateHashProxyWeighted]. *)

Definition iMinWeightLimit : Z := 10.
Definition iMaxWeightLimit : Z := 100.

(** [iMaxWeight] and [iMinWeight], as [size_t]. *)
Definition max_weight (w0 : Z) (ws : list Z) : Z :=
  fold_left (λ m w, let t := wrapU 64 w in if m <? t then t else m) ws (wrapU 64 w0).
Definition min_weight (w0 : Z) (ws : list Z) : Z :=
  fold_left (λ m w, let t := wrapU 64 w in if t <? m then t else m) ws (wrapU 64 w0).

(** [iMaxR] and [iMaxWeight] for the scaling. *)
Definition scale (iMaxWeight iMinWeight : Z) : Z * Z :=
  if 0 <? iMinWeight then
    let r := iMaxWeight / iMinWeight in
    let r := if r <? iMinWeightLimit then iMinWeightLimit else r in
    let r := if iMaxWeightLimit <? r then iMaxWeightLimit else r in
    (r, iMaxWeight)
  else (1, 1).
(** [int iWeight = (w * iMaxR) / iMaxWeight]. *)
Definition scaled (iMaxR iMaxWeight w : Z) : Z := wrapS 32 (wrapU 64 (wrapU 64 w * iMaxR) / iMaxWeight).

(** The locals of the loops: [iMaxRouterR], [mIdToWeight], [mWeightToId] and the table. *)
Record locals := mk { iMaxRouterR : Z; mIdToWeight : gmap nat Z; mWeightToId : list (Z * nat); table : list nat }.

Definition add_weight (id : nat) (iWeight : Z) (l : locals) : locals :=
  if 0 <? iWeight then
    mk (wrapU 64 (iMaxRouterR l + iWeight))
      (if mIdToWeight l !! id is Some _ then mIdToWeight l else <[id := iWeight]> (mIdToWeight l))
      (mm_insert (iWeight, id) (mWeightToId l)) (table l)
  else mk (iMaxRouterR l) (mIdToWeight l) (mWeightToId l) (table l ++ [id]).
Definition add_weights (ids : list (nat * Z)) (l : locals) : locals := fold_left (λ l iw, add_weight iw.1 iw.2 l) ids l.

(** One round: the entries of [mWeightToId] from the last on. *)
Fixpoint round (bFirst : bool) (entries : list (Z * nat)) (mulTemp : list (Z * nat)) (l : locals) : list (Z * nat) :=
  match entries with
  | [] => mulTemp
  | (c, id) :: entries' =>
    let w := default 0 (mIdToWeight l !! id) in
    let k := if bFirst then wrapS 32 (wrapU 64 (wrapU 64 (wrapU 64 c - iMaxRouterR l) + wrapU 64 w)) else wrapS 32 (c + w) in
    round false entries' (mm_insert (k, id) mulTemp) l
  end.
Definition step (l : locals) : locals :=
  mk (iMaxRouterR l) (mIdToWeight l) (round true (rev (mWeightToId l)) [] l)
    (match rev (mWeightToId l) with [] => table l | (_, id) :: _ => table l ++ [id] end).
Fixpoint steps (n : nat) (l : locals) : locals := match n with O => l | S n' => steps n' (step l) end.

(** The table for the weights [ws] of the indices [ids]. *)
Definition build (ids : list nat) (ws : list Z) : list nat :=
  match ws with
  | [] => []
  | w0 :: ws' =>
    let '(iMaxR, iMaxWeight) := scale (max_weight w0 ws') (min_weight w0 ws') in
    let l := add_weights (zip ids (List.map (scaled iMaxR iMaxWeight) ws)) (mk 0 ∅ [] []) in
    table (steps (Z.to_nat (iMaxRouterR l)) l)
  end.
End Router.

Module EndpointManager.
(** ** State *)

(** An adapter, with what the manager uses of it. *)
Record adapter (X : Type) := mkAdapter {
  a_desc : list Z;                (* endpoint().desc() *)
  a_host : list Z;                (* endpoint().host() *)
  _staticWeight : Z; _staticWeightChanged : bool;
  _activeStateInReg : bool;
  a_breaker : breaker; _trans : X
}.
Arguments mkAdapter {X}.
Arguments a_desc {X} _.
Arguments a_host {X} _.
Arguments _staticWeight {X} _.
Arguments _staticWeightChanged {X} _.
Arguments _activeStateInReg {X} _.
Arguments a_breaker {X} _.
Arguments _trans {X} _.

(** A ring with the adapters it was built for: [_lastConHashWeightProxys] and
    [_consistentHashWeight], or [_lastConHashProxys] and [_consistentHash]. *)
Record ring := mkRing { last_proxys : StrMap.map nat; hash_nodes : list ConsistentHash.node_T_new }.

(** The members for calls by weight. *)
Record weighted := mkWeighted {
  _update : bool; _first : bool; _lastBuildWeightTime : Z;
  _lastSWeightPosition : Z; _staticRouterCache : list nat; _activeWeightProxy : list nat
}.

(** The manager.  An adapter is its index in [_vAllProxys], which grows only. *)
Record t (X : Type) := mk {
  _vAllProxys : list (adapter X);
  _allProxys : StrMap.map nat;
  _activeProxys : list nat;
  _sortActivProxys : StrMap.map nat;
  _indexActiveProxys : StrMap.map nat;
  _regProxys : StrMap.map nat;
  _vRegProxys : list nat;
  _lastRoundPosition : Z;
  weight_state : weighted;
  _hashStaticRouterCache : list nat;
  _lastHashStaticProxys : list nat;
  ring_weight : ring;
  ring_normal : ring;
  rand_calls : nat
}.
Arguments mk {X}.
Arguments _vAllProxys {X} _.
Arguments _allProxys {X} _.
Arguments _activeProxys {X} _.
Arguments _sortActivProxys {X} _.
Arguments _indexActiveProxys {X} _.
Arguments _regProxys {X} _.
Arguments _vRegProxys {X} _.
Arguments _lastRoundPosition {X} _.
Arguments weight_state {X} _.
Arguments _hashStaticRouterCache {X} _.
Arguments _lastHashStaticProxys {X} _.
Arguments ring_weight {X} _.
Arguments ring_normal {X} _.
Arguments rand_calls {X} _.

Section setters.
Context {X : Type}.
Implicit Types s : t X.

Definition set_adapters v s : t X :=
  mk v (_allProxys s) (_activeProxys s) (_sortActivProxys s) (_indexActiveProxys s) (_regProxys s) (_vRegProxys s)
    (_lastRoundPosition s) (weight_state s) (_hashStaticRouterCache s) (_lastHashStaticProxys s) (ring_weight s) (ring_normal s) (rand_calls s).
Definition set_sorted v s : t X :=
  mk (_vAllProxys s) (_allProxys s) (_activeProxys s) v (_indexActiveProxys s) (_regProxys s) (_vRegProxys s)
    (_lastRoundPosition s) (weight_state s) (_hashStaticRouterCache s) (_lastHashStaticProxys s) (ring_weight s) (ring_normal s) (rand_calls s).
Definition set_index v s : t X :=
  mk (_vAllProxys s) (_allProxys s) (_activeProxys s) (_sortActivProxys s) v (_regProxys s) (_vRegProxys s)
    (_lastRoundPosition s) (weight_state s) (_hashStaticRouterCache s) (_lastHashStaticProxys s) (ring_weight s) (ring_normal s) (rand_calls s).
Definition set_vReg v s : t X :=
  mk (_vAllProxys s) (_allProxys s) (_activeProxys s) (_sortActivProxys s) (_indexActiveProxys s) (_regProxys s) v
    (_lastRoundPosition s) (weight_state s) (_hashStaticRouterCache s) (_lastHashStaticProxys s) (ring_weight s) (ring_normal s) (rand_calls s).
Definition set_position v s : t X :=
  mk (_vAllProxys s) (_allProxys s) (_activeProxys s) (_sortActivProxys s) (_indexActiveProxys s) (_regProxys s) (_vRegProxys s)
    v (weight_state s) (_hashStaticRouterCache s) (_lastHashStaticProxys s) (ring_weight s) (ring_normal s) (rand_calls s).
Definition set_weighted v s : t X :=
  mk (_vAllProxys s) (_allProxys s) (_activeProxys s) (_sortActivProxys s) (_indexActiveProxys s) (_regProxys s) (_vRegProxys s)
    (_lastRoundPosition s) v (_hashStaticRouterCache s) (_lastHashStaticProxys s) (ring_weight s) (ring_normal s) (rand_calls s).
Definition set_hashed cache last s : t X :=
  mk (_vAllProxys s) (_allProxys s) (_activeProxys s) (_sortActivProxys s) (_indexActiveProxys s) (_regProxys s) (_vRegProxys s)
    (_lastRoundPosition s) (weight_state s) cache last (ring_weight s) (ring_normal s) (rand_calls s).
Definition set_rand v s : t X :=
  mk (_vAllProxys s) (_allProxys s) (_activeProxys s) (_sortActivProxys s) (_indexActiveProxys s) (_regProxys s) (_vRegProxys s)
    (_lastRoundPosition s) (weight_state s) (_hashStaticRouterCache s) (_lastHashStaticProxys s) (ring_weight s) (ring_normal s) v.
(** The lists [updateEndpoints] makes anew. *)
Definition set_lists all active sorted index reg s : t X :=
  mk (_vAllProxys s) all active sorted index reg (_vRegProxys s)
    (_lastRoundPosition s) (weight_state s) (_hashStaticRouterCache s) (_lastHashStaticProxys s) (ring_weight s) (ring_normal s) (rand_calls s).

(** The ring of calls by weight, or the other one. *)
Definition get_ring (bWeight : bool) s : ring := if bWeight then ring_weight s else ring_normal s.
Definition set_ring (bWeight : bool) v s : t X :=
  mk (_vAllProxys s) (_allProxys s) (_activeProxys s) (_sortActivProxys s) (_indexActiveProxys s) (_regProxys s) (_vRegProxys s)
    (_lastRoundPosition s) (weight_state s) (_hashStaticRouterCache s) (_lastHashStaticProxys s)
    (if bWeight then v else ring_weight s) (if bWeight then ring_normal s else v) (rand_calls s).
End setters.

Section manager.
Context {X B : Type} `{Transceiver X B} `{ConnTimeout X} `{RingSort}.
(** The settings of the breaker, [TNOW], the results of [rand], a new connection, the
    addresses of adapters, what [TC_MD5] and constructors find in memory. *)
Context (info : CheckTimeoutInfo) (now : Z) (rand : nat → Z) (new_trans : EndpointInfo → X).
Context (addr : nat → Z) (stack : MD5.MD5_CTX) (garbage : uninitialized).

Abbreviation M A := (prog (t X) Empty_set A).

(** [v[i]] of a vector. *)
Definition vec_at {A} (v : list A) (i : Z) : M A := λ s,
  match (if 0 <=? i then v !! Z.to_nat i else None) with Some a => (Ok a, s) | None => (OutOfBounds, s) end.

(** ** Adapters *)

Definition with_adapter {A} (p : nat) (f : adapter X → A * adapter X) : M A := λ s,
  match _vAllProxys s !! p with
  | Some a => let '(r, a') := f a in (Ok r, set_adapters (<[p := a']> (_vAllProxys s)) s)
  | None => (OutOfBounds, s)
  end.
Definition get_adapter (p : nat) : M (adapter X) := with_adapter p (λ a, (a, a)).

Definition isActiveInReg (p : nat) : M bool := let* a := get_adapter p in ret (_activeStateInReg a).
Definition isConnExc (p : nat) : M bool := let* a := get_adapter p in ret (_connExc (a_breaker a)).
Definition isConnTimeout (p : nat) : M bool := let* a := get_adapter p in ret (tr_isConnTimeout (_trans a)).
Definition getWeight (p : nat) : M Z := let* a := get_adapter p in ret (_staticWeight a).
Definition set_breaker (bx : breaker * X) (a : adapter X) : adapter X :=
  mkAdapter (a_desc a) (a_host a) (_staticWeight a) (_staticWeightChanged a) (_activeStateInReg a) bx.1 bx.2.
Definition set_changed (v : bool) (a : adapter X) : adapter X :=
  mkAdapter (a_desc a) (a_host a) (_staticWeight a) v (_activeStateInReg a) (a_breaker a) (_trans a).
Definition set_inReg (v : bool) (a : adapter X) : adapter X :=
  mkAdapter (a_desc a) (a_host a) (_staticWeight a) (_staticWeightChanged a) v (a_breaker a) (_trans a).

Definition checkActive (bForceConnect : bool) (p : nat) : M bool := with_adapter p (λ a,
  let '(r, bx) := AdapterProxy.checkActive info now bForceConnect (a_breaker a, _trans a) in (r, set_breaker bx a)).
Definition resetRetryTime (p : nat) : M unit := with_adapter p (λ a,
  (tt, set_breaker (AdapterProxy.resetRetryTime info now false (a_breaker a), _trans a) a)).
Definition setActiveInReg (bActive : bool) (p : nat) : M unit := with_adapter p (λ a, (tt, set_inReg bActive a)).
Definition setWeight (iWeight : Z) (p : nat) : M unit := with_adapter p (λ a,
  (tt, mkAdapter (a_desc a) (a_host a) iWeight (if negb (_staticWeight a =? iWeight) then true else _staticWeightChanged a)
         (_activeStateInReg a) (a_breaker a) (_trans a))).
Definition resetWeightChanged (p : nat) : M unit := with_adapter p (λ a, (tt, set_changed false a)).
(** [checkWeightChanged(true)]. *)
Definition checkWeightChanged (p : nat) : M bool := with_adapter p (λ a, (_staticWeightChanged a, set_changed false a)).

(** [v[(uint32_t)rand() % v.size()]]. *)
Definition random_of (v : list nat) : M nat :=
  let* s := get_st in
  modify (set_rand (S (rand_calls s))) ;;; vec_at v (wrapU 32 (rand (rand_calls s)) mod zlen v).

(** ** [updateEndpoints] *)

Fixpoint for_each {A} (f : A → M unit) (l : list A) : M unit :=
  match l with [] => ret tt | a :: l' => f a ;;; for_each f l' end.

(** The adapter of an endpoint, made if it is not there. *)
Definition find_or_new (e : EndpointInfo) : M nat :=
  let* s := get_st in
  match StrMap.find (ep_cmpDesc e) (_allProxys s) with
  | Some p => ret p
  | None =>
    let p := length (_vAllProxys s) in
    let ap := mkAdapter (ep_desc e) (ep_host e) (u_weight garbage) (u_changed garbage) true breaker_new (new_trans e) in
    put_st (set_lists (StrMap.insert (ep_cmpDesc e) p (_allProxys s)) (_activeProxys s) (_sortActivProxys s)
              (_indexActiveProxys s) (_regProxys s) (set_adapters (_vAllProxys s ++ [ap]) s)) ;;;
    ret p
  end.

(** The bodies of the two loops over the sets. *)
Definition add_active (e : EndpointInfo) : M unit :=
  let* p := find_or_new e in
  setActiveInReg true p ;;;
  let* a := get_adapter p in
  modify (λ s, set_lists (_allProxys s) (_activeProxys s ++ [p])
    (StrMap.insert (a_host a) p (_sortActivProxys s)) (StrMap.insert (a_host a) p (_indexActiveProxys s))
    (StrMap.insert (ep_cmpDesc e) p (_regProxys s)) s) ;;;
  setWeight (ep_weight e) p.
Definition add_inactive (e : EndpointInfo) : M unit :=
  let* p := find_or_new e in
  setActiveInReg false p ;;;
  modify (λ s, set_lists (_allProxys s) (_activeProxys s) (_sortActivProxys s) (_indexActiveProxys s)
    (StrMap.insert (ep_cmpDesc e) p (_regProxys s)) s) ;;;
  setWeight (ep_weight e) p.

Section update.
Context (_direct : bool) (_weightType : EndpointWeightType).

(** The [continue] of the loops. *)
Definition skipped (e : EndpointInfo) : bool :=
  negb _direct && bool_decide (_weightType = E_STATIC_WEIGHT) && (ep_weight e <=? 0).

Definition updateEndpoints (active inactive : list EndpointInfo) : M unit :=
  modify (λ s, set_lists (_allProxys s) [] [] [] [] s) ;;;
  (if bool_decide (active = []) then ret tt
   else let* s := get_st in for_each (λ kp, setActiveInReg false kp.2) (_allProxys s)) ;;;
  for_each (λ e, if skipped e then ret tt else add_active e) active ;;;
  for_each (λ e, if skipped e then ret tt else add_inactive e) inactive ;;;
  modify (λ s, let w := weight_state s in
    set_weighted (mkWeighted true (_first w) (_lastBuildWeightTime w) (_lastSWeightPosition w) (_staticRouterCache w) (_activeWeightProxy w))
      (set_vReg (_regProxys s).*2 s)).
End update.

(** ** Round robin *)

(** What every search does with an adapter: [None] if it is active, and otherwise
    [conn] with the adapter if its connection neither timed out nor failed. *)
Definition try_adapter (bForceConnect : bool) (push : nat → list nat → list nat) (p : nat) (conn : list nat) : M (option (list nat)) :=
  let* ok := checkActive bForceConnect p in
  if (ok : bool) then ret None else
  let* timeout := isConnTimeout p in
  if (timeout : bool) then ret (Some conn) else
  let* exc := isConnExc p in
  ret (Some (if (exc : bool) then conn else push p conn)).
Definition push_back (p : nat) (conn : list nat) : list nat := conn ++ [p].

(** The loop over [_activeProxys]: the adapter found, or [conn]. *)
Fixpoint round_loop (i : nat) (conn : list nat) : M (nat + list nat) :=
  match i with
  | O => ret (inr conn)
  | S i' =>
    modify (λ s, let pos := wrapU 64 (_lastRoundPosition s + 1) in
      set_position (if zlen (_activeProxys s) <=? pos then 0 else pos) s) ;;;
    let* s := get_st in
    let* p := vec_at (_activeProxys s) (_lastRoundPosition s) in
    let* r := try_adapter false push_back p conn in
    match r with None => ret (inl p) | Some conn => round_loop i' conn end
  end.

(** The end of every search: one of [conn], or any adapter of [all]. *)
Definition retry_conn (adapterProxy : nat) : M nat := let* _ := checkActive true adapterProxy in ret adapterProxy.
Definition retry_any (all : list nat) : M nat :=
  let* adapterProxy := random_of all in
  resetRetryTime adapterProxy ;;;
  let* _ := checkActive true adapterProxy in ret adapterProxy.

Definition next_valid : M nat :=
  let* s := get_st in
  let* r := round_loop (length (_activeProxys s)) [] in
  match r with
  | inl p => ret p
  | inr conn =>
    if 0 <? zlen conn then let* p := random_of conn in retry_conn p else retry_any (_activeProxys s)
  end.

Definition getNextValidProxy : M (option nat) :=
  let* s := get_st in
  if bool_decide (_activeProxys s = []) then ret None else let* p := next_valid in ret (Some p).

(** ** Hash *)

(** The loop over the active adapters, and what follows it. *)
Fixpoint rehash_loop (fuel : nat) (hashCode : Z) (thisHash conn : list nat) : M (nat + list nat) :=
  match fuel with
  | O => λ s, (NoFuel, s)
  | S fuel' =>
    let hash := hashCode mod zlen thisHash in
    let* p := vec_at thisHash hash in
    let* r := try_adapter true push_back p conn in
    match r with
    | None => ret (inl p)
    | Some conn =>
      let thisHash := delete (Z.to_nat hash) thisHash in
      if bool_decide (thisHash = []) then ret (inr conn) else rehash_loop fuel' hashCode thisHash conn
    end
  end.
Definition rehash (hashCode : Z) : M (option nat) :=
  let* s := get_st in
  if bool_decide (_activeProxys s = []) then ret None else
  let* r := rehash_loop (length (_activeProxys s)) hashCode (_activeProxys s) [] in
  match r with
  | inl p => ret (Some p)
  | inr conn =>
    if 0 <? zlen conn then
      let* p := vec_at conn (hashCode mod zlen conn) in let* p := retry_conn p in ret (Some p)
    else let* p := retry_any (_activeProxys s) in ret (Some p)
  end.

(** The adapter at the hash, if it is active in the registry and here. *)
Definition hash_or_rehash (hashCode : Z) (p : nat) : M (option nat) :=
  let* inReg := isActiveInReg p in
  let* ok := (if (inReg : bool) then checkActive true p else ret false) in
  if (ok : bool) then ret (Some p) else rehash hashCode.

Definition getHashProxyForNormal (hashCode : Z) : M (option nat) :=
  let* s := get_st in
  if bool_decide (_vRegProxys s = []) then ret None else
  let* p := vec_at (_vRegProxys s) (hashCode mod zlen (_vRegProxys s)) in
  hash_or_rehash hashCode p.

(** *** By weight *)

Fixpoint static_changed (last reg : list nat) : M bool :=
  match last, reg with
  | p :: last', q :: reg' =>
    let* a := get_adapter p in
    let* b := get_adapter q in
    if negb (bool_decide (a_desc a = a_desc b)) then ret true else
    let* changed := checkWeightChanged q in
    if (changed : bool) then ret true else static_changed last' reg'
  | _, _ => ret false
  end.
Definition checkHashStaticWeightChange (bStatic : bool) : M bool :=
  if bStatic then
    let* s := get_st in
    if negb (zlen (_lastHashStaticProxys s) =? zlen (_vRegProxys s)) then ret true
    else static_changed (_lastHashStaticProxys s) (_vRegProxys s)
  else ret false.

(** [vRegProxys] and [vIndex], with the weights. *)
Fixpoint positive_weights (i : nat) (reg : list nat) : M (list (nat * Z)) :=
  match reg with
  | [] => ret []
  | p :: reg' =>
    let* w := getWeight p in
    resetWeightChanged p ;;;
    let* rest := positive_weights (S i) reg' in
    ret (if 0 <? w then (i, w) :: rest else rest)
  end.
Definition updateHashProxyWeighted (bStatic : bool) : M unit :=
  let* s := get_st in
  if zlen (_vRegProxys s) <=? 0 then ret tt else
  (if bStatic then modify (set_hashed [] (_vRegProxys s)) else ret tt) ;;;
  let* iw := positive_weights 0 (_vRegProxys s) in
  if zlen iw <=? 0 then ret tt else
  if bStatic then modify (λ s, set_hashed (_hashStaticRouterCache s ++ Router.build iw.*1 iw.*2) (_lastHashStaticProxys s) s) else ret tt.

(** For [vRouterCache] the caller passes [_hashStaticRouterCache]. *)
Definition getHashProxyForWeight (hashCode : Z) (bStatic : bool) : M (option nat) :=
  let* s := get_st in
  if bool_decide (_vRegProxys s = []) then ret None else
  let* changed := checkHashStaticWeightChange bStatic in
  (if (changed : bool) then updateHashProxyWeighted bStatic else ret tt) ;;;
  let* s := get_st in
  let vRouterCache := _hashStaticRouterCache s in
  if 0 <? zlen vRouterCache then
    let hash := hashCode mod zlen vRouterCache in
    let hash := if zlen vRouterCache <=? hash then hash mod zlen vRouterCache else hash in
    let* iIndex := vec_at vRouterCache hash in
    let iIndex := if zlen (_vRegProxys s) <=? Z.of_nat iIndex then Z.of_nat iIndex mod zlen (_vRegProxys s) else Z.of_nat iIndex in
    let* p := vec_at (_vRegProxys s) iIndex in
    hash_or_rehash hashCode p
  else getHashProxyForNormal hashCode.

(** ** Consistent hash *)

(** A call of the ring. *)
Definition on_ring {A} (bWeight : bool) (m : prog (list ConsistentHash.node_T_new) Empty_set A) : M A := λ s,
  let '(r, l) := m (hash_nodes (get_ring bWeight s)) in
  (r, set_ring bWeight (mkRing (last_proxys (get_ring bWeight s)) l) s).

(** [bStatic] says whether weights count, [bWeight] which ring it is. *)
Fixpoint same_proxys (bStatic : bool) (last sorted : StrMap.map nat) : M bool :=
  match last, sorted with
  | (k, _) :: last', (k', p) :: sorted' =>
    if negb (bool_decide (k = k')) then ret true else
    let* changed := (if bStatic then checkWeightChanged p else ret false) in
    if (changed : bool) then ret true else same_proxys bStatic last' sorted'
  | _, _ => ret false
  end.
Definition checkConHashChange (bStatic bWeight : bool) : M bool :=
  modify (λ s, if negb (zlen (_indexActiveProxys s) =? zlen (_sortActivProxys s))
    then set_sorted (fold_left (λ m kp, StrMap.assign kp.1 kp.2 m) (_indexActiveProxys s) (_sortActivProxys s)) s else s) ;;;
  let* s := get_st in
  let last := last_proxys (get_ring bWeight s) in
  if negb (zlen last =? zlen (_sortActivProxys s)) then ret true else same_proxys bStatic last (_sortActivProxys s).

(** [int iWeight = ...]: the number of rounds for an adapter. *)
Definition ring_weight_of (bStatic : bool) (w : Z) : Z :=
  let iWeight := if bStatic then w else 100 in
  if 0 <? iWeight then let iWeight := iWeight / 4 in if iWeight <=? 0 then 1 else iWeight else 0.
Definition add_to_ring (bStatic bWeight : bool) (kp : list Z * nat) : M unit :=
  let* a := get_adapter kp.2 in
  let iWeight := ring_weight_of bStatic (_staticWeight a) in
  (if 0 <? iWeight then on_ring bWeight (ConsistentHash.addNode stack E_TC_CONHASH_KETAMAHASH (a_host a) 0 iWeight) else ret tt) ;;;
  resetWeightChanged kp.2.
Definition updateConHashProxyWeighted (bStatic bWeight : bool) : M unit :=
  on_ring bWeight ConsistentHash.clear ;;;
  let* s := get_st in
  if bool_decide (_sortActivProxys s = []) then ret tt else
  put_st (set_ring bWeight (mkRing (_sortActivProxys s) (hash_nodes (get_ring bWeight s))) s) ;;;
  for_each (add_to_ring bStatic bWeight) (_sortActivProxys s) ;;;
  on_ring bWeight (modify ring_sort).

(** [getNodeName]: the string stays empty when the ring has no node. *)
Definition node_name (bWeight : bool) (hashCode : Z) : M (list Z) :=
  let* n := on_ring bWeight (ConsistentHash.getNodeName hashCode) in ret (default [] n).

(** The loop of [getConHashProxyForWeight] and [getConHashProxyForNormal]. *)
Fixpoint con_loop (fuel : nat) (hashCode : Z) (bStatic bWeight : bool) : M (option nat) :=
  match fuel with
  | O => λ s, (NoFuel, s)
  | S fuel' =>
    let* s := get_st in
    if 0 <? ConsistentHash.size (hash_nodes (get_ring bWeight s)) then
      let* sNode := node_name bWeight hashCode in
      match StrMap.find sNode (_indexActiveProxys s) with
      | None => updateConHashProxyWeighted bStatic bWeight ;;; con_loop fuel' hashCode bStatic bWeight
      | Some p =>
        let* inReg := isActiveInReg p in
        let* ok := (if (inReg : bool) then checkActive true p else ret false) in
        if (ok : bool) then ret (Some p) else
        let* inReg := isActiveInReg p in
        (if negb inReg then modify (λ s, set_index (StrMap.erase sNode (_indexActiveProxys s)) s) else ret tt) ;;;
        modify (λ s, set_sorted (StrMap.erase sNode (_sortActivProxys s)) s) ;;;
        updateConHashProxyWeighted bStatic bWeight ;;;
        let* s := get_st in
        if bool_decide (_indexActiveProxys s = []) then ret None else con_loop fuel' hashCode bStatic bWeight
      end
    else getHashProxyForNormal hashCode
  end.
(** One round for each adapter, and two more. *)
Definition con_hash (hashCode : Z) (bStatic bWeight : bool) : M (option nat) :=
  let* s := get_st in
  if bool_decide (_vRegProxys s = []) then ret None else
  let* changed := checkConHashChange bStatic bWeight in
  (if (changed : bool) then updateConHashProxyWeighted bStatic bWeight else ret tt) ;;;
  let* s := get_st in con_loop (length (_sortActivProxys s) + 2) hashCode bStatic bWeight.
Definition getConHashProxyForWeight (hashCode : Z) (bStatic : bool) : M (option nat) := con_hash hashCode bStatic true.
Definition getConHashProxyForNormal (hashCode : Z) : M (option nat) := con_hash hashCode false false.

Definition getHashProxy (_weightType : EndpointWeightType) (hashCode : Z) (bConsistentHash : bool) : M (option nat) :=
  match _weightType with
  | E_STATIC_WEIGHT => if bConsistentHash then getConHashProxyForWeight hashCode true else getHashProxyForWeight hashCode true
  | E_LOOP => if bConsistentHash then getConHashProxyForNormal hashCode else getHashProxyForNormal hashCode
  end.

(** ** Weighted round robin *)

(** The weights of some adapters. *)
Fixpoint weights_of (ps : list nat) : M (list Z) :=
  match ps with [] => ret [] | p :: ps' => let* w := getWeight p in let* ws := weights_of ps' in ret (w :: ws) end.
Definition set_table (position : Z) (cache active : list nat) (u : bool) : M unit :=
  modify (λ s, let w := weight_state s in
    set_weighted (mkWeighted u (_first w) (_lastBuildWeightTime w) position cache active) s).

Definition dispatchEndpointCache (vWeight : list Z) : M unit :=
  if zlen vWeight <=? 0 then ret tt else
  let* s := get_st in
  set_table 0 (Router.build (seq 0 (length vWeight)) vWeight) (_activeWeightProxy (weight_state s)) (_update (weight_state s)).
Definition updateStaticWeighted : M unit :=
  let* s := get_st in
  let* vWeight := weights_of (_activeWeightProxy (weight_state s)) in dispatchEndpointCache vWeight.
Definition updateProxyWeighted : M unit :=
  let* s := get_st in
  if zlen (_activeProxys s) <=? 0 then ret tt else
  let* ws := weights_of (_activeProxys s) in
  let vProxy := (filter (λ pw, 0 < pw.2) (zip (_activeProxys s) ws)).*1 in
  if zlen vProxy <=? 0 then ret tt else
  (if _update (weight_state s) then
     set_table (_lastSWeightPosition (weight_state s)) (_staticRouterCache (weight_state s)) vProxy true ;;; updateStaticWeighted
   else ret tt) ;;;
  let* s := get_st in
  let w := weight_state s in set_table (_lastSWeightPosition w) (_staticRouterCache w) (_activeWeightProxy w) false.

(** [set<AdapterProxy*>::insert]: in the order of the addresses. *)
Fixpoint set_push (p : nat) (conn : list nat) : list nat :=
  match conn with
  | [] => [p]
  | q :: conn' => if bool_decide (p = q) then conn else if addr p <? addr q then p :: conn else q :: set_push p conn'
  end.

(** The loop over [_staticRouterCache]. *)
Fixpoint table_loop (i : nat) (conn : list nat) : M (nat + list nat) :=
  match i with
  | O => ret (inr conn)
  | S i' =>
    modify (λ s, let w := weight_state s in
      let pos := wrapU 64 (_lastSWeightPosition w + 1) in
      set_weighted (mkWeighted (_update w) (_first w) (_lastBuildWeightTime w)
        (if zlen (_staticRouterCache w) <=? pos then 0 else pos) (_staticRouterCache w) (_activeWeightProxy w)) s) ;;;
    let* s := get_st in
    let w := weight_state s in
    let* iProxyIndex := vec_at (_staticRouterCache w) (_lastSWeightPosition w) in
    let* p := vec_at (_activeWeightProxy w) (Z.of_nat iProxyIndex) in
    let* r := try_adapter false set_push p conn in
    match r with None => ret (inl p) | Some conn => table_loop i' conn end
  end.

(** [_updateWeightInterval]. *)
Definition updateWeightInterval : Z := 60.
Definition rebuild_weights : M unit :=
  let* s := get_st in
  if _lastBuildWeightTime (weight_state s) <=? now then
    updateProxyWeighted ;;;
    modify (λ s, let w := weight_state s in
      set_weighted (mkWeighted (_update w) false (now + updateWeightInterval + (if _first w then 5 else 0))
        (_lastSWeightPosition w) (_staticRouterCache w) (_activeWeightProxy w)) s)
  else ret tt.

Definition getWeightedForNormal (bStaticWeighted : bool) : M (option nat) :=
  let* s := get_st in
  if bool_decide (_activeProxys s = []) then ret None else
  rebuild_weights ;;;
  let* s := get_st in
  let w := weight_state s in
  let* p :=
    (if (0 <? zlen (_activeWeightProxy w)) && (0 <? zlen (_staticRouterCache w)) then
       let* r := table_loop (length (_staticRouterCache w)) [] in
       match r with
       | inl p => ret p
       | inr conn =>
         if 0 <? zlen conn then let* p := random_of conn in retry_conn p else retry_any (_activeWeightProxy w)
       end
     else next_valid) in
  ret (Some p).
Definition getWeightedProxy (bStaticWeighted : bool) : M (option nat) := getWeightedForNormal bStaticWeighted.

(** What [selectAdapterProxy] does once the endpoints are valid. *)
Definition select (_weightType : EndpointWeightType) (hash : option (Z * bool)) : M (option nat) :=
  match hash with
  | Some (hashCode, conHash) => getHashProxy _weightType hashCode conHash
  | None => if bool_decide (_weightType = E_STATIC_WEIGHT) then getWeightedProxy true else getNextValidProxy
  end.

(** A new manager. *)
Definition new : t X :=
  mk [] [] [] [] [] [] [] 0 (mkWeighted true (u_first garbage) (u_time garbage) 0 [] []) [] [] (mkRing [] []) (mkRing [] []) 0.
End manager.
End EndpointManager.
