(* ===== verification/EndpointQuery.v ===== *)
(** [QueryEpBase] from [src/servant/libservant/EndpointManager.cpp], as the base of an
    [EndpointManager]: when the registry is asked for endpoints, and what is done with
    its answers. *)
From stdpp Require Import prelude gmap list.
From Stdlib Require Import ZArith Lia.
From S2P Require Import Prelude Bytes TarsInput AdapterProxy Md5 ConsistentHash EndpointManager.

Module QueryEp.
(** ** State *)

(** What happens outside of the object. *)
Inductive action : Type :=
  | AsyncQuery                                           (* _queryFPrx->async_find... *)
  | OnNotifyEndpoints (active inactive : list EndpointInfo)  (* _objectProxy->onNotifyEndpoints *)
  | DoInvoke                                             (* _objectProxy->doInvoke *)
  | SetEndPointToCache (bInactive : bool).               (* AppCache *)

(** The members; those for the timing in milliseconds. *)
Record t (X : Type) := mk {
  _valid : bool; _direct : bool; _rootServant : bool; _firstNetThread : bool;
  _weightType : EndpointWeightType;
  _activeEndpoints : list EndpointInfo; _inactiveEndpoints : list EndpointInfo;
  _requestRegistry : bool; _requestTimeout : Z; _refreshTime : Z; _refreshInterval : Z; _failTimes : Z;
  _outterUpdate : option (list EndpointInfo * list EndpointInfo);
  manager : EndpointManager.t X;
  trace : list action
}.
Arguments mk {X}.
Arguments _valid {X} _.
Arguments _direct {X} _.
Arguments _rootServant {X} _.
Arguments _firstNetThread {X} _.
Arguments _weightType {X} _.
Arguments _activeEndpoints {X} _.
Arguments _inactiveEndpoints {X} _.
Arguments _requestRegistry {X} _.
Arguments _requestTimeout {X} _.
Arguments _refreshTime {X} _.
Arguments _refreshInterval {X} _.
Arguments _failTimes {X} _.
Arguments _outterUpdate {X} _.
Arguments manager {X} _.
Arguments trace {X} _.

Definition timeoutInterval : Z := 5 * 1000.
Definition activeEmptyInterval : Z := 10 * 1000.
Definition failInterval : Z := 2 * 1000.
Definition manyFailInterval : Z := 30 * 1000.
Definition failTimesLimit : Z := 3.

Section setters.
Context {X : Type}.
Implicit Types s : t X.

Definition set_valid v s : t X :=
  mk v (_direct s) (_rootServant s) (_firstNetThread s) (_weightType s) (_activeEndpoints s) (_inactiveEndpoints s)
    (_requestRegistry s) (_requestTimeout s) (_refreshTime s) (_refreshInterval s) (_failTimes s) (_outterUpdate s) (manager s) (trace s).
Definition set_weightType v s : t X :=
  mk (_valid s) (_direct s) (_rootServant s) (_firstNetThread s) v (_activeEndpoints s) (_inactiveEndpoints s)
    (_requestRegistry s) (_requestTimeout s) (_refreshTime s) (_refreshInterval s) (_failTimes s) (_outterUpdate s) (manager s) (trace s).
Definition set_endpoints active inactive s : t X :=
  mk (_valid s) (_direct s) (_rootServant s) (_firstNetThread s) (_weightType s) active inactive
    (_requestRegistry s) (_requestTimeout s) (_refreshTime s) (_refreshInterval s) (_failTimes s) (_outterUpdate s) (manager s) (trace s).
Definition set_request requested timeout s : t X :=
  mk (_valid s) (_direct s) (_rootServant s) (_firstNetThread s) (_weightType s) (_activeEndpoints s) (_inactiveEndpoints s)
    requested timeout (_refreshTime s) (_refreshInterval s) (_failTimes s) (_outterUpdate s) (manager s) (trace s).
Definition set_refreshTime v s : t X :=
  mk (_valid s) (_direct s) (_rootServant s) (_firstNetThread s) (_weightType s) (_activeEndpoints s) (_inactiveEndpoints s)
    (_requestRegistry s) (_requestTimeout s) v (_refreshInterval s) (_failTimes s) (_outterUpdate s) (manager s) (trace s).
Definition set_failTimes v s : t X :=
  mk (_valid s) (_direct s) (_rootServant s) (_firstNetThread s) (_weightType s) (_activeEndpoints s) (_inactiveEndpoints s)
    (_requestRegistry s) (_requestTimeout s) (_refreshTime s) (_refreshInterval s) v (_outterUpdate s) (manager s) (trace s).
Definition set_outter v s : t X :=
  mk (_valid s) (_direct s) (_rootServant s) (_firstNetThread s) (_weightType s) (_activeEndpoints s) (_inactiveEndpoints s)
    (_requestRegistry s) (_requestTimeout s) (_refreshTime s) (_refreshInterval s) (_failTimes s) v (manager s) (trace s).
Definition set_direct d root s : t X :=
  mk (_valid s) d root (_firstNetThread s) (_weightType s) (_activeEndpoints s) (_inactiveEndpoints s)
    (_requestRegistry s) (_requestTimeout s) (_refreshTime s) (_refreshInterval s) (_failTimes s) (_outterUpdate s) (manager s) (trace s).
Definition set_manager v s : t X :=
  mk (_valid s) (_direct s) (_rootServant s) (_firstNetThread s) (_weightType s) (_activeEndpoints s) (_inactiveEndpoints s)
    (_requestRegistry s) (_requestTimeout s) (_refreshTime s) (_refreshInterval s) (_failTimes s) (_outterUpdate s) v (trace s).
Definition add_action a s : t X :=
  mk (_valid s) (_direct s) (_rootServant s) (_firstNetThread s) (_weightType s) (_activeEndpoints s) (_inactiveEndpoints s)
    (_requestRegistry s) (_requestTimeout s) (_refreshTime s) (_refreshInterval s) (_failTimes s) (_outterUpdate s) (manager s) (trace s ++ [a]).
End setters.

(** [set<EndpointInfo>], ordered and compared by [cmpDesc]. *)
Definition ep_lt (a b : EndpointInfo) : bool := str_lt (ep_cmpDesc a) (ep_cmpDesc b).
Definition ep_set (l : list EndpointInfo) : list EndpointInfo := fold_left (λ s e, set_insert ep_lt e s) l [].
Definition ep_eq (a b : list EndpointInfo) : bool := bool_decide (map ep_cmpDesc a = map ep_cmpDesc b).

Section query.
Context {X B : Type} `{Transceiver X B} `{ConnTimeout X} `{RingSort}.
(** As in [EndpointManager]; besides, the clock in milliseconds, and whether the
    [n]-th action, a call of the registry's proxy, throws.  The code that an answer or
    a failure comes with is not used. *)
Context (info : CheckTimeoutInfo) (now nowms : Z) (rand : nat → Z) (new_trans : EndpointInfo → X).
Context (addr : nat → Z) (stack : MD5.MD5_CTX) (garbage : uninitialized) (query_throws : nat → bool).

Abbreviation M A := (prog (t X) Empty_set A).

Definition on_manager {A} (m : prog (EndpointManager.t X) Empty_set A) : M A := λ s,
  let '(r, em) := m (manager s) in (r, set_manager em s).
Definition act (a : action) : M unit := modify (add_action a).
Definition doNotify : M unit := act DoInvoke.

(** [EndpointManager::notifyEndpoints]. *)
Definition notifyEndpoints (active inactive : list EndpointInfo) : M unit :=
  let* s := get_st in
  on_manager (EndpointManager.updateEndpoints new_trans garbage (_direct s) (_weightType s) active inactive) ;;;
  act (OnNotifyEndpoints active inactive).

Definition doEndpointsExp (iRet : Z) : M unit :=
  modify (λ s, set_failTimes (wrapS 32 (_failTimes s + 1)) s) ;;;
  modify (λ s, set_request false (_requestTimeout s) s) ;;;
  modify (set_refreshTime (nowms + failInterval)) ;;;
  let* s := get_st in
  if failTimesLimit <? _failTimes s then
    (if negb (_valid s) then modify (set_valid true) ;;; doNotify else ret tt) ;;;
    modify (set_refreshTime (nowms + manyFailInterval))
  else ret tt.

(** [_weightType] for the weight types of the active endpoints. *)
Definition weight_type (types : list Z) : EndpointWeightType :=
  match types with
  | [] => E_LOOP
  | w :: ws => if forallb (λ v, v =? w) ws && (w =? 1) then E_STATIC_WEIGHT else E_LOOP
  end.

(** [doEndpoints], for a manager.  An [EndpointF] is its weight type with the
    [EndpointInfo] made of it. *)
Definition doEndpoints (activeEp inactiveEp : list (Z * EndpointInfo)) (iRet : Z) : M unit :=
  if negb (iRet =? 0) then doEndpointsExp iRet else
  modify (set_failTimes 0) ;;;
  modify (λ s, set_request false (_requestTimeout s) s) ;;;
  if bool_decide (activeEp = []) then modify (set_refreshTime (nowms + activeEmptyInterval)) else
  modify (λ s, set_refreshTime (nowms + _refreshInterval s) s) ;;;
  modify (set_weightType (weight_type (map fst activeEp))) ;;;
  let activeEps := ep_set (map snd activeEp) in
  let inactiveEps := ep_set (map snd inactiveEp) in
  let* s := get_st in
  let bActive := negb (ep_eq activeEps (_activeEndpoints s)) in
  let bInactive := negb (ep_eq inactiveEps (_inactiveEndpoints s)) in
  (if bActive then
     modify (λ s, set_endpoints activeEps (_inactiveEndpoints s) s) ;;;
     (if _firstNetThread s then act (SetEndPointToCache false) else ret tt)
   else ret tt) ;;;
  (if bInactive then
     modify (λ s, set_endpoints (_activeEndpoints s) inactiveEps s) ;;;
     (if _firstNetThread s then act (SetEndPointToCache true) else ret tt)
   else ret tt) ;;;
  let* s := get_st in
  (if bActive || bInactive then notifyEndpoints (_activeEndpoints s) (_inactiveEndpoints s) else ret tt) ;;;
  let* s := get_st in
  if negb (_valid s) then modify (set_valid true) ;;; doNotify else ret tt.

(** ** A new manager *)

(** [refresh-endpoint-interval], as [strto<int>] reads it. *)
Definition refreshInterval (property : Z) : Z := if property <? 5 * 1000 then 5 * 1000 else property.
Definition new (bFirstNetThread : bool) (property : Z) : t X :=
  mk false false true bFirstNetThread E_LOOP [] [] false 0 0 (refreshInterval property) 0 None (EndpointManager.new garbage) [].

(** [setEndpoints]: [None] for the empty string, and otherwise the weight types with
    the endpoints that were parsed. *)
Definition setEndpoints (vEndpoints : option (list (Z * EndpointInfo))) (set : list EndpointInfo) : M (list EndpointInfo) :=
  match vEndpoints with
  | None => ret set
  | Some eps =>
    modify (set_weightType (weight_type (map fst eps))) ;;;
    ret (fold_left (λ s e, set_insert ep_lt e s) (map snd eps) set)
  end.

(** [init]: [direct] for a name with endpoints.  The other endpoints are from the
    cache. *)
Definition init (direct rootServant : bool) (sEndpoints sInactiveEndpoints : option (list (Z * EndpointInfo))) : M unit :=
  modify (λ s, set_direct direct rootServant (set_valid direct s)) ;;;
  let* s := get_st in
  let* active := setEndpoints sEndpoints (_activeEndpoints s) in
  modify (λ s, set_endpoints active (_inactiveEndpoints s) s) ;;;
  let* s := get_st in
  let* inactive := setEndpoints sInactiveEndpoints (_inactiveEndpoints s) in
  modify (λ s, set_endpoints (_activeEndpoints s) inactive s) ;;;
  let* s := get_st in
  (if negb (bool_decide (_activeEndpoints s = [])) then modify (set_valid true) else ret tt) ;;;
  if negb (bool_decide (_activeEndpoints s = [])) || negb (bool_decide (_inactiveEndpoints s = []))
  then notifyEndpoints (_activeEndpoints s) (_inactiveEndpoints s) else ret tt.

(** ** Updates from other threads *)

Definition updateEndpointsOutter (active inactive : list EndpointInfo) : M unit :=
  modify (λ s, set_refreshTime (nowms + _refreshInterval s) s) ;;;
  modify (set_outter (Some (active, inactive))).
Definition onUpdateOutter : M unit :=
  let* s := get_st in
  match _outterUpdate s with
  | Some (active, inactive) =>
    on_manager (EndpointManager.updateEndpoints new_trans garbage (_direct s) (_weightType s) active inactive) ;;;
    modify (set_valid true) ;;;
    modify (set_outter None)
  | None => ret tt
  end.

(** ** [refreshReg] *)

(** [refreshReg(E_DEFAULT, "")] of a manager, whose calls of the registry are
    asynchronous. *)
Definition refreshReg : M unit :=
  onUpdateOutter ;;;
  let* s := get_st in
  if _direct s then ret tt else
  (if _requestRegistry s && (_requestTimeout s <? nowms) then doEndpointsExp 0 else ret tt) ;;;
  let* s := get_st in
  if negb (_requestRegistry s) && (_refreshTime s <=? nowms) then
    modify (set_request true (nowms + timeoutInterval)) ;;;
    if negb (_rootServant s) then ret tt else
    if query_throws (length (trace s)) then doEndpointsExp 0 else act AsyncQuery
  else ret tt.

(** [selectAdapterProxy]: the value returned, and the adapter.  [route] is what follows
    [refreshReg]. *)
Definition route (hash : option (Z * bool)) : M (bool * option nat) :=
  let* s := get_st in
  if negb (_valid s) then ret (true, None) else
  let* p := on_manager (EndpointManager.select info now rand addr stack (_weightType s) hash) in ret (false, p).
Definition selectAdapterProxy (hash : option (Z * bool)) : M (bool * option nat) := refreshReg ;;; route hash.

(** What can happen to a manager: a call to route, an answer of the registry or its
    failure, and an update by another thread. *)
Inductive event : Type :=
  | Select (hash : option (Z * bool))
  | Endpoints (activeEp inactiveEp : list (Z * EndpointInfo)) (iRet : Z)
  | EndpointsExp (iRet : Z)
  | Outter (active inactive : list EndpointInfo).
Definition handle (e : event) : M (bool * option nat) :=
  match e with
  | Select hash => selectAdapterProxy hash
  | Endpoints a i r => doEndpoints a i r ;;; ret (true, None)
  | EndpointsExp r => doEndpointsExp r ;;; ret (true, None)
  | Outter a i => updateEndpointsOutter a i ;;; ret (true, None)
  end.
End query.

(** ** Runs *)

Section runs.
Context {X B : Type} `{Transceiver X B} `{ConnTimeout X} `{RingSort}.
Context (info : CheckTimeoutInfo) (rand : nat → Z) (new_trans : EndpointInfo → X) (addr : nat → Z).
Context (stack : MD5.MD5_CTX) (garbage : uninitialized) (query_throws : nat → bool) (admitted : event → Prop).

(** Between two events connections open and fail, and requests succeed and fail: the
    breakers and transceivers of the adapters change. *)
Definition same_adapter (a a' : EndpointManager.adapter X) : Prop := ∃ bx, a' = EndpointManager.set_breaker bx a.

Inductive step : t X → t X → Prop :=
  | step_event now nowms e r s s' : admitted e →
      handle info now nowms rand new_trans addr stack garbage query_throws e s = (r, s') → step s s'
  | step_adapters L s : Forall2 same_adapter (EndpointManager._vAllProxys (manager s)) L →
      step s (set_manager (EndpointManager.set_adapters L (manager s)) s).
Definition reachable : t X → t X → Prop := rtc step.
End runs.
End QueryEp.
