(* ===== verification/EndpointWeights.v ===== *)
(** [Router]: what the table of weighted round robin holds. *)
From stdpp Require Import prelude gmap list sorting.
From Stdlib Require Import ZArith Lia.
From S2P Require Import Prelude Bytes EndpointManager.

(** ** Sums and counts *)

Fixpoint sum_over (f : nat → Z) (l : list nat) : Z := match l with [] => 0 | i :: l' => f i + sum_over f l' end.
Definition occ (i : nat) (l : list nat) : Z := Z.of_nat (count_occ Nat.eq_dec l i).

Lemma sum_perm f l l' : l ≡ₚ l' → sum_over f l = sum_over f l'.
Proof. induction 1; cbn; lia. Qed.
Lemma sum_ext f g l : (∀ i, i ∈ l → f i = g i) → sum_over f l = sum_over g l.
Proof.
  induction l as [|i l IH]; intros Hfg; [done |]. cbn. rewrite Hfg, IH; [done | | apply list_elem_of_here].
  intros j Hj. apply Hfg. by apply list_elem_of_further.
Qed.
Lemma sum_le f g l : (∀ i, i ∈ l → f i ≤ g i) → sum_over f l ≤ sum_over g l.
Proof.
  induction l as [|i l IH]; intros Hfg; [done |]. cbn. pose proof (Hfg i (list_elem_of_here _ _)).
  specialize (IH (λ j Hj, Hfg j (list_elem_of_further _ _ _ Hj))). lia.
Qed.
Lemma sum_lin a b f g l : sum_over (λ i, a * f i - b * g i) l = a * sum_over f l - b * sum_over g l.
Proof. induction l as [|i l IH]; cbn; [lia |]. rewrite IH. lia. Qed.
Lemma sum_zero l : sum_over (λ _, 0) l = 0.
Proof. induction l; cbn; lia. Qed.
(** One more at [j]. *)
Lemma sum_one f g l j : NoDup l → j ∈ l → g j = f j + 1 → (∀ i, i ≠ j → g i = f i) → sum_over g l = sum_over f l + 1.
Proof.
  intros Hnd Hj Hgj Hg. induction Hnd as [|i l Hi Hnd IH]; [by apply not_elem_of_nil in Hj |]. cbn.
  apply elem_of_cons in Hj as [->|Hj].
  - rewrite Hgj, (sum_ext g f l); [lia |]. intros k Hk. apply Hg. by intros ->.
  - rewrite IH, Hg; [lia | by intros -> | done].
Qed.
Lemma sum_pos f l i : (∀ i, i ∈ l → 0 < f i) → i ∈ l → 0 < sum_over f l.
Proof.
  intros Hf Hi. destruct l as [|j l]; [by apply not_elem_of_nil in Hi |]. cbn. pose proof (Hf j (list_elem_of_here _ _)).
  assert (Hl : sum_over (λ _, 0) l ≤ sum_over f l).
  { apply sum_le. intros k Hk. specialize (Hf k (list_elem_of_further _ _ _ Hk)). lia. }
  rewrite sum_zero in Hl. lia.
Qed.
(** Equal sums of terms that are in order. *)
Lemma sum_tight f g l i : (∀ i, i ∈ l → f i ≤ g i) → sum_over f l = sum_over g l → i ∈ l → f i = g i.
Proof.
  induction l as [|j l IH]; intros Hfg He Hi; [by apply not_elem_of_nil in Hi |]. cbn in He.
  pose proof (Hfg j (list_elem_of_here _ _)) as Hj.
  assert (Hl : ∀ i, i ∈ l → f i ≤ g i) by (intros k Hk; apply Hfg; by apply list_elem_of_further).
  pose proof (sum_le f g l Hl). apply elem_of_cons in Hi as [->|Hi]; [lia |]. apply IH; [done | lia | done].
Qed.

Lemma occ_snoc i l j : occ i (l ++ [j]) = occ i l + (if decide (i = j) then 1 else 0).
Proof.
  unfold occ. rewrite count_occ_app. cbn. destruct (Nat.eq_dec j i), (decide (i = j)); subst; try done; lia.
Qed.
Lemma occ_pos i l : 0 ≤ occ i l.
Proof. unfold occ. lia. Qed.
Lemma occ_notin i l : i ∉ l → occ i l = 0.
Proof. intros Hi. unfold occ. rewrite (proj1 (count_occ_not_In Nat.eq_dec l i)); [done |]. by rewrite <- list_elem_of_In. Qed.

(** ** The multimap *)

Definition le_key (a b : Z * nat) : Prop := a.1 ≤ b.1.

Lemma mm_insert_perm kv m : mm_insert kv m ≡ₚ kv :: m.
Proof.
  induction m as [|x m IH]; [done |]. cbn. destruct (kv.1 <? x.1); [done |]. rewrite IH. apply perm_swap.
Qed.
Lemma mm_insert_sorted kv m : StronglySorted le_key m → StronglySorted le_key (mm_insert kv m).
Proof.
  induction 1 as [|x m Hs IH Hx]; cbn; [repeat constructor |]. destruct (Z.ltb_spec kv.1 x.1).
  - constructor; [by constructor |]. constructor; [unfold le_key; lia |].
    eapply Forall_impl; [exact Hx |]. unfold le_key. intros; lia.
  - constructor; [done |]. rewrite mm_insert_perm. constructor; [unfold le_key; lia | done].
Qed.

(** The last entry has the largest key. *)
Lemma sorted_last m x : StronglySorted le_key m → last m = Some x → Forall (λ y, y.1 ≤ x.1) m.
Proof.
  induction 1 as [|y m Hs IH Hy]; intros Hl; [done |]. destruct m as [|z m].
  - cbn in Hl. injection Hl as ->. repeat constructor; lia.
  - change (last (z :: m) = Some x) in Hl. constructor; [|by apply IH]. rewrite Forall_forall in Hy. apply Hy.
    by apply last_Some_elem_of.
Qed.

(** ** One round *)

(** The key of the first entry, in the conversions between [int] and [size_t]. *)
Lemma first_key c T v : wrapS 32 (wrapU 64 (wrapU 64 (wrapU 64 c - T) + wrapU 64 v)) = wrapS 32 (c - T + v).
Proof.
  rewrite <- (wrapS_wrapU 32 (wrapU 64 _)), <- (wrapS_wrapU 32 (c - T + v)) by lia. f_equal.
  unfold wrapU. rewrite Z.mod_mod_divide by (exists (2 ^ 32); reflexivity).
  assert (Hdiv : ∀ x, (x mod 2 ^ 64) mod 2 ^ 32 = x mod 2 ^ 32) by (intros; apply Z.mod_mod_divide; exists (2 ^ 32); reflexivity).
  by rewrite Zplus_mod, !Hdiv, Zminus_mod, Hdiv, <- Zminus_mod, <- Zplus_mod.
Qed.

Section smooth.
Context (ids : list nat) (w : nat → Z).
Context (Hids : NoDup ids) (Hw : ∀ i, i ∈ ids → 0 < w i ≤ 100) (Hn : zlen ids ≤ 100000).

Definition total : Z := sum_over w ids.

Lemma total_bound : 0 ≤ total ≤ 10000000.
Proof.
  assert (Hb : ∀ l, (∀ i, i ∈ l → 0 < w i ≤ 100) → 0 ≤ sum_over w l ≤ 100 * zlen l).
  { induction l as [|i l IH]; intros Hl; [cbn; lia |]. cbn [sum_over length]. pose proof (Hl i (list_elem_of_here _ _)).
    assert (Hl' : ∀ j, j ∈ l → 0 < w j ≤ 100) by (intros j Hj; apply Hl; by apply list_elem_of_further).
    specialize (IH Hl'). lia. }
  specialize (Hb ids Hw). unfold total. lia.
Qed.

(** The key of [i] after the choices [picks]. *)
Definition key (picks : list nat) (i : nat) : Z := (zlen picks + 1) * w i - total * occ i picks.

(** The state of the loop: the keys; nobody is ahead of its share by one or more. *)
Record loop_inv (zeros picks : list nat) (l : Router.locals) : Prop := {
  inv_total : Router.iMaxRouterR l = total;
  inv_weights : ∀ i, i ∈ ids → Router.mIdToWeight l !! i = Some (w i);
  inv_keys : Router.mWeightToId l ≡ₚ map (λ i, (key picks i, i)) ids;
  inv_sorted : StronglySorted le_key (Router.mWeightToId l);
  inv_table : Router.table l = zeros ++ picks;
  inv_picks : ∀ i, i ∈ picks → i ∈ ids;
  inv_sum : sum_over (λ i, occ i picks) ids = zlen picks;
  inv_ahead : ∀ i, i ∈ ids → total * occ i picks < zlen picks * w i + total;
  inv_most : ∀ i, i ∈ ids → occ i picks ≤ w i
}.

Lemma round_rest l entries : ∀ tmp, Router.round false entries tmp l ≡ₚ
  map (λ e, (wrapS 32 (e.1 + default 0 (Router.mIdToWeight l !! e.2)), e.2)) entries ++ tmp.
Proof.
  induction entries as [|[c id] entries IH]; intros tmp; [done |]. cbn [Router.round map app]. rewrite IH, mm_insert_perm.
  by rewrite Permutation_middle.
Qed.
Lemma round_sorted l entries : ∀ first tmp, StronglySorted le_key tmp → StronglySorted le_key (Router.round first entries tmp l).
Proof. induction entries as [|[c id] entries IH]; intros first tmp Hs; [done |]. cbn [Router.round]. by apply IH, mm_insert_sorted. Qed.

Lemma key_bounds zeros picks l i : loop_inv zeros picks l → zlen picks ≤ total → i ∈ ids → - total ≤ key picks i ≤ 1000000200.
Proof.
  intros Hl Hlt Hi. pose proof (inv_ahead _ _ _ Hl i Hi). pose proof (Hw i Hi). pose proof total_bound. pose proof (occ_pos i picks).
  unfold key. nia.
Qed.

(** The largest key is positive. *)
Lemma key_positive zeros picks l x : loop_inv zeros picks l → last (Router.mWeightToId l) = Some x → 0 < total → 0 < x.1.
Proof.
  intros Hl Hx Ht. pose proof (sorted_last _ _ (inv_sorted _ _ _ Hl) Hx) as Hmax. apply Z.nle_gt. intros Hle.
  assert (Hs : sum_over (key picks) ids ≤ sum_over (λ _, 0) ids).
  { apply sum_le. intros i Hi. rewrite Forall_forall in Hmax. specialize (Hmax (key picks i, i)). cbn in Hmax.
    rewrite Hmax; [done |]. rewrite (inv_keys _ _ _ Hl). apply list_elem_of_fmap. by exists i. }
  unfold key in Hs. rewrite sum_lin, (inv_sum _ _ _ Hl) in Hs. fold total in Hs.
  rewrite sum_zero in Hs. nia.
Qed.

Lemma step_keeps_inv zeros picks l : loop_inv zeros picks l → zlen picks < total →
  ∃ j, loop_inv zeros (picks ++ [j]) (Router.step l).
Proof.
  intros Hl Hlt. pose proof total_bound as Ht. destruct l as [T mw m tb].
  pose proof Hl as [HT Hmw Hk Hs Htb Hp Hsum Hah Hmost]. cbn [Router.iMaxRouterR Router.mIdToWeight Router.mWeightToId Router.table] in *.
  destruct (last m) as [[c j]|] eqn:Elast.
  2: { apply last_None in Elast. subst m. apply Permutation_length in Hk. rewrite length_map in Hk.
       unfold total in *. destruct ids; [cbn in Hlt; lia | done]. }
  assert (Hpos : 0 < c) by (apply (key_positive zeros picks _ (c, j) Hl); [exact Elast | lia]).
  pose proof Elast as Hin. apply last_Some_elem_of in Hin. rewrite Hk in Hin. apply list_elem_of_fmap in Hin as (j' & Ej & Hj).
  injection Ej as Ec <-. pose proof (Hw j Hj) as Hwj. exists j.
  assert (Erev : ∃ m', rev m = (c, j) :: rev m' ∧ m = m' ++ [(c, j)]).
  { apply last_Some in Elast as [m' ->]. exists m'. by rewrite rev_app_distr. }
  destruct Erev as (m' & Erev & Em).
  assert (Hocc : ∀ i, occ i (picks ++ [j]) = occ i picks + (if decide (i = j) then 1 else 0)) by (intros; apply occ_snoc).
  assert (Hlen : zlen (picks ++ [j]) = zlen picks + 1) by (rewrite length_app; cbn; lia).
  pose proof (λ i Hi, key_bounds zeros picks _ i Hl ltac:(lia) Hi) as Hkb.
  assert (Hnew : ∀ i, key (picks ++ [j]) i = key picks i + w i - (if decide (i = j) then total else 0)).
  { intros i. unfold key. rewrite Hlen, Hocc. case_decide; lia. }
  assert (Hahead : total * occ j picks < (zlen picks + 1) * w j) by (unfold key in Ec; lia).
  constructor; cbn [Router.step Router.iMaxRouterR Router.mIdToWeight Router.mWeightToId Router.table].
  - exact HT.
  - exact Hmw.
  - rewrite Erev. cbn [Router.round]. rewrite round_rest. cbn [Router.iMaxRouterR Router.mIdToWeight].
    rewrite Hmw by done. cbn [default mm_insert].
    assert (Ekey : wrapS 32 (wrapU 64 (wrapU 64 (wrapU 64 c - T) + wrapU 64 (w j))) = key (picks ++ [j]) j).
    { rewrite first_key, Hnew, decide_True, <- Ec, HT by done. pose proof (Hkb j Hj). rewrite wrapS_id by (unfold in_S; lia). lia. }
    change (id (w j)) with (w j).
    rewrite Ekey, <- Permutation_rev. destruct (proj1 (elem_of_Permutation _ _) Hj) as [ids' Hids'].
    assert (Hnd : j ∉ ids') by (pose proof Hids as Hnd; rewrite Hids', NoDup_cons in Hnd; tauto).
    assert (Hm' : m' ≡ₚ map (λ i, (key picks i, i)) ids').
    { apply (Permutation_cons_inv (a := (c, j))). rewrite Permutation_cons_append, <- Em, Hk, Hids'. cbn [map]. by rewrite Ec. }
    rewrite Hm', Hids', <- Permutation_cons_append. cbn [map]. f_equiv. rewrite map_map. erewrite map_ext_in; [reflexivity |].
    intros i Hi%list_elem_of_In. assert (Hi' : i ∈ ids) by (rewrite Hids'; by right). cbn [fst snd].
    rewrite (Hmw i Hi'), Hnew, decide_False by (by intros ->). change (default 0 (Some (w i))) with (w i). pose proof (Hkb i Hi'). pose proof (Hw i Hi').
    f_equal. rewrite wrapS_id by (unfold in_S; lia). lia.
  - rewrite Erev. apply round_sorted. constructor.
  - rewrite Erev, Htb. by rewrite (assoc_L app).
  - intros i [Hi | ->%list_elem_of_singleton]%elem_of_app; auto.
  - rewrite Hlen, <- Hsum. apply (sum_one _ _ _ j); [done.. | |].
    + rewrite Hocc. by rewrite decide_True.
    + intros i Hi. rewrite Hocc, decide_False by done. lia.
  - intros i Hi. rewrite Hlen, Hocc. pose proof (Hah i Hi). pose proof (Hw i Hi). case_decide; [subst i; nia | nia].
  - intros i Hi. rewrite Hocc. pose proof (Hmost i Hi). case_decide; [subst i |]; nia.
Qed.

(** Nobody is ahead of its share by one or more. *)
Definition not_ahead (picks : list nat) : Prop := ∀ i, i ∈ ids → total * (occ i picks - 1) < zlen picks * w i.

Lemma steps_inv zeros n : ∀ picks l, loop_inv zeros picks l → zlen picks + Z.of_nat n = total →
  (∀ pre, pre `prefix_of` picks → not_ahead pre) →
  ∃ picks', loop_inv zeros picks' (Router.steps n l) ∧ zlen picks' = total ∧ (∀ pre, pre `prefix_of` picks' → not_ahead pre).
Proof.
  induction n as [|n IH]; intros picks l Hl Hlen Hpre; cbn [Router.steps]; [exists picks; split_and!; [done | lia | done] |].
  destruct (step_keeps_inv zeros picks l Hl) as [j Hj]; [lia |]. apply (IH (picks ++ [j])); [done | rewrite length_app; cbn; lia |].
  intros pre [k Hk]. destruct k as [|x k _] using rev_ind.
  - rewrite app_nil_r in Hk. subst pre. intros i Hi. pose proof (inv_ahead _ _ _ Hj i Hi). lia.
  - rewrite (assoc_L app) in Hk. apply app_inj_tail in Hk as [-> _]. apply Hpre. by exists k.
Qed.

(** Everybody gets exactly its share. *)
Lemma loop_counts zeros picks l i : loop_inv zeros picks l → zlen picks = total → i ∈ ids → occ i picks = w i.
Proof.
  intros Hl Hlen Hi. apply (sum_tight (λ i, occ i picks) w ids); [exact (inv_most _ _ _ Hl) | | done].
  by rewrite (inv_sum _ _ _ Hl).
Qed.
End smooth.

(** ** Before the loop *)

Section before.
Context (w : nat → Z).

(** The indices with a positive share, and the others. *)
Definition positive (ids : list nat) : list nat := filter (λ i, 0 < w i) ids.
Definition zero (ids : list nat) : list nat := filter (λ i, ¬ 0 < w i) ids.

Record added (ids : list nat) (l : Router.locals) : Prop := {
  added_total : Router.iMaxRouterR l = sum_over w (positive ids);
  added_weights : ∀ i, Router.mIdToWeight l !! i = if decide (i ∈ positive ids) then Some (w i) else None;
  added_keys : Router.mWeightToId l ≡ₚ map (λ i, (w i, i)) (positive ids);
  added_sorted : StronglySorted le_key (Router.mWeightToId l);
  added_table : Router.table l = zero ids
}.

Lemma sum_bound ids : (∀ i, w i ≤ 100) → 0 ≤ sum_over w (positive ids) ≤ 100 * zlen ids.
Proof.
  intros Hw. induction ids as [|i ids IH]; [cbn; lia |]. unfold positive in *. rewrite filter_cons. cbn [length].
  specialize (Hw i). case_decide; cbn [sum_over]; lia.
Qed.

Lemma add_weights_snoc iws iw l : Router.add_weights (iws ++ [iw]) l = Router.add_weight iw.1 iw.2 (Router.add_weights iws l).
Proof. unfold Router.add_weights. by rewrite fold_left_app. Qed.

Lemma add_weights_added ids : NoDup ids → (∀ i, w i ≤ 100) → zlen ids ≤ 100000 →
  added ids (Router.add_weights (map (λ i, (i, w i)) ids) (Router.mk 0 ∅ [] [])).
Proof.
  intros Hnd Hw. induction ids as [|i ids IH] using rev_ind; intros Hn; [by repeat constructor |].
  rewrite length_app in Hn. cbn in Hn. apply NoDup_app in Hnd as (Hnd & Hi & _).
  destruct (IH Hnd ltac:(lia)) as [HT Hm Hk Hs Ht]. rewrite map_app. cbn [map]. rewrite add_weights_snoc. cbn [fst snd].
  revert HT Hm Hk Hs Ht. generalize (Router.add_weights (map (λ i, (i, w i)) ids) (Router.mk 0 ∅ [] [])) as l. intros l HT Hm Hk Hs Ht.
  assert (Hfresh : i ∉ positive ids) by (intros [_ Hin]%list_elem_of_filter; apply (Hi i Hin); left).
  pose proof (sum_bound ids Hw). specialize (Hw i).
  assert (Epos : positive (ids ++ [i]) = positive ids ++ (if decide (0 < w i) then [i] else [])) by (unfold positive; by rewrite filter_app).
  assert (Ezero : zero (ids ++ [i]) = zero ids ++ (if decide (¬ 0 < w i) then [i] else [])) by (unfold zero; by rewrite filter_app).
  unfold Router.add_weight. destruct (Z.ltb_spec 0 (w i)).
  - rewrite decide_True in Epos by lia. rewrite decide_False, app_nil_r in Ezero by lia. rewrite Hm, decide_False by done.
    constructor; rewrite ?Epos, ?Ezero; cbn [Router.iMaxRouterR Router.mIdToWeight Router.mWeightToId Router.table].
    + rewrite HT, wrapU_id by (unfold in_U; lia). rewrite (sum_perm w (_ ++ [i]) (i :: positive ids)); [cbn [sum_over]; lia |].
      by rewrite <- Permutation_cons_append.
    + intros j. destruct (decide (i = j)) as [<-|Hne].
      * rewrite lookup_insert_eq, decide_True; [done |]. apply elem_of_app. right. by left.
      * rewrite lookup_insert_ne, Hm by done. apply decide_ext. rewrite elem_of_app, list_elem_of_singleton. intuition congruence.
    + rewrite mm_insert_perm, Hk, map_app. apply Permutation_cons_append.
    + by apply mm_insert_sorted.
    + exact Ht.
  - rewrite decide_False, app_nil_r in Epos by lia. rewrite decide_True in Ezero by lia.
    constructor; rewrite ?Epos, ?Ezero; cbn; [done.. | by rewrite Ht].
Qed.

Lemma added_inv ids l : NoDup ids → added ids l → loop_inv (positive ids) w (zero ids) [] l.
Proof.
  intros Hnd [HT Hm Hk Hs Ht]. constructor; [exact HT | | | exact Hs | by rewrite app_nil_r | | | |].
  - intros i Hi. by rewrite Hm, decide_True.
  - rewrite Hk. erewrite map_ext; [reflexivity |]. intros i. unfold key, occ. cbn [length count_occ]. f_equal. lia.
  - intros i Hi. by apply not_elem_of_nil in Hi.
  - exact (sum_zero (positive ids)).
  - intros i Hi. unfold occ, total. cbn. enough (0 < sum_over w (positive ids)) by lia.
    apply (sum_pos w _ i); [|done]. by intros j [? _]%list_elem_of_filter.
  - intros i Hi. apply list_elem_of_filter in Hi as [Hi _]. unfold occ. cbn [count_occ]. lia.
Qed.
End before.

(** ** The scaling *)

Lemma max_weight_spec ws : ∀ w0, Forall (λ w, 0 ≤ w < 2 ^ 64) (w0 :: ws) →
  Router.max_weight w0 ws ∈ w0 :: ws ∧ Forall (λ w, w ≤ Router.max_weight w0 ws) (w0 :: ws).
Proof.
  unfold Router.max_weight. intros w0 Hall. apply Forall_cons in Hall as [H0 Hws].
  rewrite (wrapU_id 64 w0) by (unfold in_U; lia). revert w0 H0. induction Hws as [|w ws Hw Hws IH]; intros m Hm.
  - cbn. split; [left | repeat constructor; lia].
  - cbn [fold_left]. rewrite (wrapU_id 64 w) by (unfold in_U; lia).
    assert (Em : (if m <? w then w else m) = Z.max m w) by (destruct (Z.ltb_spec m w); lia). rewrite Em.
    destruct (IH (Z.max m w) ltac:(lia)) as [Hin Hle]. apply Forall_cons in Hle as [Hmax Hle]. split.
    + apply elem_of_cons in Hin as [-> | Hin]; [|by right; right]. destruct (Z.max_spec m w) as [[_ ->]|[_ ->]]; [right; left | left].
    + constructor; [lia |]. constructor; [lia | done].
Qed.

Lemma min_weight_spec ws : ∀ w0, Forall (λ w, 0 ≤ w < 2 ^ 64) (w0 :: ws) →
  Router.min_weight w0 ws ∈ w0 :: ws ∧ Forall (λ w, Router.min_weight w0 ws ≤ w) (w0 :: ws).
Proof.
  unfold Router.min_weight. intros w0 Hall. apply Forall_cons in Hall as [H0 Hws].
  rewrite (wrapU_id 64 w0) by (unfold in_U; lia). revert w0 H0. induction Hws as [|w ws Hw Hws IH]; intros m Hm.
  - cbn. split; [left | repeat constructor; lia].
  - cbn [fold_left]. rewrite (wrapU_id 64 w) by (unfold in_U; lia).
    assert (Em : (if w <? m then w else m) = Z.min m w) by (destruct (Z.ltb_spec w m); lia). rewrite Em.
    destruct (IH (Z.min m w) ltac:(lia)) as [Hin Hle]. apply Forall_cons in Hle as [Hmin Hle]. split.
    + apply elem_of_cons in Hin as [-> | Hin]; [|by right; right]. destruct (Z.min_spec m w) as [[_ ->]|[_ ->]]; [left | right; left].
    + constructor; [lia |]. constructor; [lia | done].
Qed.

(** A list of values as a function of the indices. *)
Lemma zip_fun (ids : list nat) : NoDup ids → ∀ vs : list Z, length ids = length vs → Forall (λ v, v ≤ 100) vs →
  ∃ f, zip ids vs = map (λ i, (i, f i)) ids ∧ ∀ i, f i ≤ 100.
Proof.
  induction 1 as [|i ids Hi Hnd IH]; intros [|v vs] Hlen Hvs; try done; [by exists (λ _, 0) |].
  apply Forall_cons in Hvs as [Hv Hvs]. destruct (IH vs ltac:(cbn in Hlen; lia) Hvs) as (f & E & Hf).
  exists (λ j, if decide (j = i) then v else f j). split.
  - cbn. rewrite E, decide_True by done. f_equal. apply map_ext_in. intros j Hj%list_elem_of_In.
    by rewrite decide_False by (by intros ->).
  - intros j. case_decide; [done | apply Hf].
Qed.

(** What an endpoint of weight [w] gets, when the largest weight is [m]. *)
Definition share_of (r m w : Z) : Z := w * r / m.
(** The ratio between the largest and the smallest weight, in its bounds. *)
Definition ratio (wmax wmin : Z) : Z := Z.min 100 (Z.max 10 (wmax / wmin)).

Lemma scale_ratio wmax wmin : 0 < wmin → Router.scale wmax wmin = (ratio wmax wmin, wmax).
Proof.
  intros Hp. unfold Router.scale, ratio, Router.iMinWeightLimit, Router.iMaxWeightLimit. rewrite (proj2 (Z.ltb_lt 0 _)) by done.
  f_equal. destruct (Z.ltb_spec (wmax / wmin) 10); [change (100 <? 10) with false; cbv iota; lia |]. destruct (Z.ltb_spec 100 (wmax / wmin)); lia.
Qed.

Lemma scaled_share r m w : 0 < r ≤ 100 → 0 < w ≤ m → m < 2 ^ 31 → Router.scaled r m w = share_of r m w ∧ 0 ≤ share_of r m w ≤ r.
Proof.
  intros Hr Hw Hm. assert (Hs : 0 ≤ share_of r m w ≤ r).
  { unfold share_of. split; [apply Z.div_pos; nia |]. apply Z.div_le_upper_bound; nia. }
  split; [|done]. unfold Router.scaled. rewrite (wrapU_id 64 w) by (unfold in_U; lia).
  rewrite (wrapU_id 64 (w * r)) by (unfold in_U; nia). change (w * r / m) with (share_of r m w). by rewrite wrapS_id by (unfold in_S; lia).
Qed.

(** ** The table *)

(** [iws] are the endpoints with their shares, [zeros] and [picks] the table: those
    without a share once, then everybody as often as its share, and after any number
    of entries nobody one entry or more ahead of its share of them. *)
Definition fair_table (iws : list (nat * Z)) (zeros picks : list nat) : Prop :=
  zeros = (filter (λ iw, iw.2 = 0) iws).*1 ∧
  (∀ i v, (i, v) ∈ iws → 0 < v → occ i picks = v) ∧
  (∀ i, i ∈ picks → ∃ v, (i, v) ∈ iws ∧ 0 < v) ∧
  (∀ pre i v, pre `prefix_of` picks → (i, v) ∈ iws → 0 < v → zlen picks * (occ i pre - 1) < zlen pre * v).

Lemma zero_map w ids : (∀ i, i ∈ ids → 0 ≤ w i) → zero w ids = (filter (λ iw : nat * Z, iw.2 = 0) (map (λ i, (i, w i)) ids)).*1.
Proof.
  intros Hw. unfold zero. induction ids as [|i ids IH]; [done |]. cbn [map]. rewrite !filter_cons. cbn [snd].
  pose proof (Hw i (list_elem_of_here _ _)). rewrite IH by (intros; apply Hw; by right).
  destruct (decide (¬ 0 < w i)), (decide (w i = 0)); done || lia.
Qed.

Lemma table_of_shares (ids : list nat) (vs : list Z) : NoDup ids → length ids = length vs →
  Forall (λ v, 0 ≤ v ≤ 100) vs → zlen ids ≤ 100000 →
  let l := Router.add_weights (zip ids vs) (Router.mk 0 ∅ [] []) in
  ∃ zeros picks, Router.table (Router.steps (Z.to_nat (Router.iMaxRouterR l)) l) = zeros ++ picks ∧ fair_table (zip ids vs) zeros picks ∧ zlen picks ≤ 10000000.
Proof.
  intros Hnd Hlen Hvs Hn l. destruct (zip_fun ids Hnd vs Hlen) as (w & E & Hw); [eapply Forall_impl; [exact Hvs | cbn; lia] |].
  assert (H0 : ∀ i v, (i, v) ∈ zip ids vs → v = w i ∧ i ∈ ids ∧ 0 ≤ v).
  { intros i v Hin. pose proof Hin as Hin'. rewrite E in Hin'. apply list_elem_of_fmap in Hin' as (j & [= -> ->] & Hj). split_and!; [done.. |].
    apply elem_of_zip_r in Hin. rewrite Forall_forall in Hvs. by apply Hvs. }
  pose proof (add_weights_added w ids Hnd Hw Hn) as Ha. rewrite <- E in Ha. fold l in Ha.
  pose proof (added_inv w ids l Hnd Ha) as Hl. pose proof (added_total _ _ _ Ha) as HT.
  assert (Hpos : ∀ i, i ∈ positive w ids ↔ i ∈ ids ∧ 0 < w i) by (intros; unfold positive; rewrite list_elem_of_filter; tauto).
  assert (Hndp : NoDup (positive w ids)) by by apply NoDup_filter.
  assert (Hwp : ∀ i, i ∈ positive w ids → 0 < w i ≤ 100) by (intros i [? ?]%Hpos; auto).
  assert (Hnp : zlen (positive w ids) ≤ 100000).
  { pose proof (length_filter (λ i, 0 < w i) ids). unfold positive. lia. }
  pose proof (total_bound (positive w ids) w Hwp Hnp). unfold total in *. rewrite <- HT in *.
  destruct (steps_inv (positive w ids) w Hndp Hwp Hnp (zero w ids) (Z.to_nat (Router.iMaxRouterR l)) [] l Hl) as (picks & Hl' & Hlp & Hpre).
  { unfold total. rewrite <- HT. cbn. lia. }
  { intros pre [k Hk]. symmetry in Hk. apply app_eq_nil in Hk as [-> _]. intros i Hi. unfold total, occ. rewrite <- HT. cbn.
    pose proof (sum_pos w _ i (λ j Hj, proj1 (Hwp j Hj)) Hi). lia. }
  exists (zero w ids), picks. split; [exact (inv_table _ _ _ _ _ Hl') |]. split; [|unfold total in Hlp; lia]. split_and!.
  - rewrite E. apply zero_map. intros i Hi. apply (H0 i (w i)). rewrite E. apply list_elem_of_fmap. by exists i.
  - intros i v Hin Hv. destruct (H0 i v Hin) as (-> & Hi & _). eapply loop_counts; [done.. |]. by apply Hpos.
  - intros i Hi. apply (inv_picks _ _ _ _ _ Hl'), Hpos in Hi as [Hi Hp]. exists (w i). split; [|done].
    rewrite E. apply list_elem_of_fmap. by exists i.
  - intros pre i v Hp Hin Hv. destruct (H0 i v Hin) as (-> & Hi & _). rewrite Hlp. apply Hpre; [done |]. by apply Hpos.
Qed.

Lemma build_fair (ids : list nat) (ws : list Z) : NoDup ids → length ids = length ws → ws ≠ [] →
  Forall (λ w, 0 < w < 2 ^ 31) ws → zlen ids ≤ 100000 →
  ∃ wmax wmin zeros picks, wmax ∈ ws ∧ Forall (λ w, w ≤ wmax) ws ∧ wmin ∈ ws ∧ Forall (λ w, wmin ≤ w) ws ∧
    Router.build ids ws = zeros ++ picks ∧ fair_table (zip ids (map (share_of (ratio wmax wmin) wmax) ws)) zeros picks ∧
    zlen picks ≤ 10000000.
Proof.
  intros Hnd Hlen Hne Hws Hn. destruct ws as [|w0 ws]; [done |]. unfold Router.build.
  assert (Hws' : Forall (λ w, 0 ≤ w < 2 ^ 64) (w0 :: ws)) by (eapply Forall_impl; [exact Hws | cbn; lia]).
  destruct (max_weight_spec ws w0 Hws') as [Hmaxin Hmax], (min_weight_spec ws w0 Hws') as [Hminin Hmin].
  set (wmax := Router.max_weight w0 ws) in *. set (wmin := Router.min_weight w0 ws) in *.
  rewrite Forall_forall in Hws, Hmax. pose proof (Hws _ Hminin) as Hminp. pose proof (Hws _ Hmaxin) as Hmaxp.
  rewrite scale_ratio by lia. assert (Hr : 0 < ratio wmax wmin ≤ 100) by (unfold ratio; lia).
  assert (Hsh : ∀ w, w ∈ w0 :: ws → Router.scaled (ratio wmax wmin) wmax w = share_of (ratio wmax wmin) wmax w ∧
    0 ≤ share_of (ratio wmax wmin) wmax w ≤ ratio wmax wmin).
  { intros w Hw. apply scaled_share; [done | | lia]. specialize (Hws _ Hw). specialize (Hmax _ Hw). lia. }
  assert (Ev : List.map (Router.scaled (ratio wmax wmin) wmax) (w0 :: ws) = map (share_of (ratio wmax wmin) wmax) (w0 :: ws)).
  { apply map_ext_in. intros w Hw%list_elem_of_In. by apply Hsh. }
  rewrite Ev. destruct (table_of_shares ids (map (share_of (ratio wmax wmin) wmax) (w0 :: ws))) as (zeros & picks & E & Hfair & Hlp); [done | by rewrite length_map | | done |].
  { apply Forall_map, Forall_forall. intros w Hw. destruct (Hsh w Hw). cbn. lia. }
  exists wmax, wmin, zeros, picks. split_and!; [done | by apply Forall_forall | done..].
Qed.

(** The table holds indices only. *)
Lemma build_range ids ws : NoDup ids → length ids = length ws → ws ≠ [] → Forall (λ w, 0 < w < 2 ^ 31) ws → zlen ids ≤ 100000 →
  ∀ i, i ∈ Router.build ids ws → i ∈ ids.
Proof.
  intros Hnd Hlen Hne Hws Hn i Hi.
  destruct (build_fair ids ws Hnd Hlen Hne Hws Hn) as (? & ? & zeros & picks & _ & _ & _ & _ & E & (Hz & _ & Hp & _) & _).
  rewrite E in Hi. apply elem_of_app in Hi as [Hi|Hi].
  - rewrite Hz in Hi. apply list_elem_of_fmap in Hi as ([j v] & -> & Hj). apply list_elem_of_filter in Hj as [_ Hj].
    by apply elem_of_zip_l in Hj.
  - destruct (Hp i Hi) as (v & Hin & _). by apply elem_of_zip_l in Hin.
Qed.

(** Every index is in the table. *)
Lemma build_complete ids ws : NoDup ids → length ids = length ws → ws ≠ [] → Forall (λ w, 0 < w < 2 ^ 31) ws → zlen ids ≤ 100000 →
  ∀ i, i ∈ ids → i ∈ Router.build ids ws.
Proof.
  intros Hnd Hlen Hne Hws Hn i Hi.
  destruct (build_fair ids ws Hnd Hlen Hne Hws Hn) as (wmax & wmin & zeros & picks & Hmin & Hmax & Hwmin & _ & E & (Hz & Hp & _) & _).
  set (vs := map (share_of (ratio wmax wmin) wmax) ws) in *. assert (Hin : ∃ v, (i, v) ∈ zip ids vs).
  { apply list_elem_of_lookup in Hi as [j Hj]. destruct (lookup_lt_is_Some_2 vs j) as [v Hv].
    { unfold vs. rewrite length_map, <- Hlen. by eapply lookup_lt_Some. }
    exists v. apply list_elem_of_lookup. exists j. rewrite lookup_zip_with, Hj. cbn. by rewrite Hv. }
  destruct Hin as [v Hin]. rewrite E. apply elem_of_app. destruct (Z.ltb_spec 0 v) as [Hv|Hv].
  - right. specialize (Hp i v Hin Hv). destruct (decide (i ∈ picks)) as [|Hni]; [done |]. rewrite occ_notin in Hp by done. lia.
  - left. rewrite Hz. apply list_elem_of_fmap. exists (i, v). split; [done |]. apply list_elem_of_filter. split; [|done]. cbn.
    enough (0 ≤ v) by lia. apply elem_of_zip_r in Hin. apply list_elem_of_fmap in Hin as (w & -> & Hw).
    rewrite Forall_forall in Hws. pose proof (Hws w Hw). pose proof (Hws wmin Hwmin). unfold share_of, ratio.
    rewrite Forall_forall in Hmax. pose proof (Hmax w Hw). apply Z.div_pos; [|lia]. apply Z.mul_nonneg_nonneg; lia.
Qed.

Lemma build_length ids ws : NoDup ids → length ids = length ws → ws ≠ [] → Forall (λ w, 0 < w < 2 ^ 31) ws → zlen ids ≤ 100000 →
  zlen (Router.build ids ws) ≤ 10100000.
Proof.
  intros Hnd Hlen Hne Hws Hn.
  destruct (build_fair ids ws Hnd Hlen Hne Hws Hn) as (wmax & wmin & zeros & picks & _ & _ & _ & _ & E & (Hz & _) & Hl).
  rewrite E, length_app, Hz, length_fmap.
  pose proof (length_filter (λ iw : nat * Z, iw.2 = 0) (zip ids (map (share_of (ratio wmax wmin) wmax) ws))) as Hf.
  rewrite length_zip_with in Hf. lia.
Qed.
