(* ===== verification/EndpointInv.v ===== *)
(** The invariant of an [EndpointManager], and what the searches for an adapter do. *)
From stdpp Require Import prelude gmap list sorting.
From Stdlib Require Import ZArith Lia.
From S2P Require Import Prelude Bytes TarsInput AdapterProxy Md5 ConsistentHash EndpointManager EndpointWeights.
Import EndpointManager.

Section searches.
Context {X B : Type} `{Transceiver X B} `{ConnTimeout X} `{RingSort}.
Context (info : CheckTimeoutInfo) (now : Z) (rand : nat → Z) (addr : nat → Z).
Implicit Types s : t X.
Implicit Types p q : nat.

(** ** What a search leaves alone *)

(** Of an adapter, all but its breaker, its connection and the mark of a new weight. *)
Definition statics (a : adapter X) : list Z * list Z * Z * bool :=
  (a_desc a, a_host a, _staticWeight a, _activeStateInReg a).
(** Of the manager, all but the positions, the calls of [rand] and such. *)
Definition core s :=
  (statics <$> _vAllProxys s, _allProxys s, _activeProxys s, _sortActivProxys s, _indexActiveProxys s, _regProxys s, _vRegProxys s,
   (_update (weight_state s), _first (weight_state s), _lastBuildWeightTime (weight_state s), _staticRouterCache (weight_state s),
    _activeWeightProxy (weight_state s)),
   (_hashStaticRouterCache s, _lastHashStaticProxys s, ring_weight s, ring_normal s)).

(** An adapter that [checkActive] accepts as it is, and one that it accepted. *)
Definition connected s p : Prop := ∃ a, _vAllProxys s !! p = Some a ∧
  _activeStatus (a_breaker a) = true ∧ tr_hasConnected (_trans a) = true.
Definition usable s p : Prop := ∃ a, _vAllProxys s !! p = Some a ∧
  (tr_hasConnected (_trans a) = true ∨ _activeStatus (a_breaker a) = true ∧ tr_isConnecting (_trans a) = true).

Definition ptr_ok s p : Prop := (p < length (_vAllProxys s))%nat.

Record keeps s s' : Prop := {
  keeps_core : core s' = core s;
  keeps_connected p : connected s p → connected s' p
}.

#[export] Instance keeps_preorder : PreOrder keeps.
Proof.
  split; [by intros s; constructor |]. intros s1 s2 s3 [E1 C1] [E2 C2]. constructor; [by rewrite E2 | auto].
Qed.

Lemma keeps_length s s' : keeps s s' → length (_vAllProxys s') = length (_vAllProxys s).
Proof.
  intros [E _]. unfold core in E. assert (Em : statics <$> _vAllProxys s' = statics <$> _vAllProxys s) by congruence.
  apply (f_equal length) in Em. by rewrite !length_fmap in Em.
Qed.
Lemma keeps_ptr s s' p : keeps s s' → ptr_ok s p → ptr_ok s' p.
Proof. intros Hk. unfold ptr_ok. by rewrite (keeps_length _ _ Hk). Qed.
Lemma keeps_active s s' : keeps s s' → _activeProxys s' = _activeProxys s.
Proof. intros [E _]. unfold core in E. congruence. Qed.
Lemma keeps_vReg s s' : keeps s s' → _vRegProxys s' = _vRegProxys s.
Proof. intros [E _]. unfold core in E. congruence. Qed.
Lemma keeps_cache s s' : keeps s s' → _staticRouterCache (weight_state s') = _staticRouterCache (weight_state s) ∧
  _activeWeightProxy (weight_state s') = _activeWeightProxy (weight_state s).
Proof. intros [E _]. unfold core in E. split; congruence. Qed.

(** Changes of one adapter. *)
Lemma with_adapter_ok {A} p (f : adapter X → A * adapter X) s a : _vAllProxys s !! p = Some a →
  with_adapter p f s = (Ok (f a).1, set_adapters (<[p := (f a).2]> (_vAllProxys s)) s).
Proof. intros E. unfold with_adapter. rewrite E. by destruct (f a). Qed.

Lemma get_adapter_ok p s a : _vAllProxys s !! p = Some a → get_adapter p s = (Ok a, s).
Proof.
  intros E. unfold get_adapter. rewrite (with_adapter_ok _ _ _ _ E). cbn. rewrite list_insert_id by done.
  unfold set_adapters. by destruct s.
Qed.

Lemma keeps_set s p a a' : _vAllProxys s !! p = Some a → statics a' = statics a →
  (_activeStatus (a_breaker a) = true → tr_hasConnected (_trans a) = true →
   _activeStatus (a_breaker a') = true ∧ tr_hasConnected (_trans a') = true) →
  keeps s (set_adapters (<[p := a']> (_vAllProxys s)) s).
Proof.
  intros E Es Hc. pose proof (lookup_lt_Some _ _ _ E) as Hlt. constructor.
  - unfold core, set_adapters. cbn. rewrite list_fmap_insert, Es. repeat f_equal. apply list_insert_id. by rewrite list_lookup_fmap, E.
  - intros q (b & Eb & Hs & Ht). unfold connected. cbn. destruct (decide (p = q)) as [<-|Hne].
    + rewrite list_lookup_insert_eq by done. rewrite E in Eb. injection Eb as ->. destruct (Hc Hs Ht). eauto.
    + rewrite list_lookup_insert_ne by done. eauto.
Qed.

Lemma checkActive_connected bForce (b : breaker) (x : X) : _activeStatus b = true → tr_hasConnected x = true →
  AdapterProxy.checkActive info now bForce (b, x) = (true, (b, x)).
Proof.
  intros Hb Hx. unfold AdapterProxy.checkActive. rewrite Hb, (tr_connected_valid x Hx). cbn [negb andb]. rewrite Hb, Hx.
  by destruct bForce.
Qed.
Lemma checkActive_usable bForce (b b' : breaker) (x x' : X) : AdapterProxy.checkActive info now bForce (b, x) = (true, (b', x')) →
  tr_hasConnected x' = true ∨ _activeStatus b' = true ∧ tr_isConnecting x' = true.
Proof.
  unfold AdapterProxy.checkActive. intros E. destruct (negb (_activeStatus b) && _); [done |].
  destruct (if negb (tr_isValid x) then _ else _) as [b1 x1]. injection E as E <- <-.
  destruct bForce; cbn [andb] in E; [|by left]. destruct (_activeStatus b1); [|by left].
  apply orb_true_iff in E as [?|?]; auto.
Qed.

(** Where the next search starts. *)
Definition positions s : Z * Z := (_lastRoundPosition s, _lastSWeightPosition (weight_state s)).

Lemma checkActive_spec bForce p s : ptr_ok s p → ∃ ok s', checkActive info now bForce p s = (Ok ok, s') ∧ keeps s s' ∧
  (ok = true → usable s' p) ∧ (connected s p → ok = true) ∧ positions s' = positions s.
Proof.
  intros [a E]%lookup_lt_is_Some_2. unfold checkActive. rewrite (with_adapter_ok _ _ _ _ E).
  destruct (AdapterProxy.checkActive info now bForce (a_breaker a, _trans a)) as [ok [b x]] eqn:Ec. cbn [fst snd].
  eexists ok, _. split; [done |]. split_and!.
  - apply (keeps_set _ _ a); [done.. |]. intros Hb Hx. rewrite checkActive_connected in Ec by done. injection Ec as <- <- <-. done.
  - intros ->. eexists. cbn. rewrite list_lookup_insert_eq by (by eapply lookup_lt_Some). split; [done |].
    cbn. by eapply checkActive_usable.
  - intros (a' & E' & Hb & Hx). rewrite E in E'. injection E' as <-. rewrite checkActive_connected in Ec by done. congruence.
  - done.
Qed.

Lemma reset_spec p s : ptr_ok s p → ∃ s', resetRetryTime info now p s = (Ok tt, s') ∧ keeps s s'.
Proof.
  intros [a E]%lookup_lt_is_Some_2. unfold resetRetryTime. rewrite (with_adapter_ok _ _ _ _ E). eexists. split; [done |].
  by apply (keeps_set _ _ a).
Qed.

Lemma keeps_rand s n : keeps s (set_rand n s).
Proof. done. Qed.

Lemma vec_at_ok {A} (v : list A) i s : 0 ≤ i < zlen v → ∃ a, vec_at v i s = (Ok a, s) ∧ v !! Z.to_nat i = Some a.
Proof.
  intros Hi. destruct (lookup_lt_is_Some_2 v (Z.to_nat i)) as [a E]; [lia |]. exists a. split; [|done].
  unfold vec_at. by rewrite (proj2 (Z.leb_le _ _)), E by lia.
Qed.
Lemma vec_mod {A} (v : list A) h s : v ≠ [] → ∃ a, vec_at v (h mod zlen v) s = (Ok a, s) ∧ a ∈ v.
Proof.
  intros Hne. assert (0 < zlen v) by (destruct v; [done | cbn; lia]).
  destruct (vec_at_ok v (h mod zlen v) s) as (a & E & Ha); [by apply Z.mod_pos_bound |]. exists a. split; [done |].
  by eapply list_elem_of_lookup_2.
Qed.

(** ** One adapter tried *)

Lemma try_spec bForce push p conn s : ptr_ok s p →
  ∃ r s', try_adapter info now bForce push p conn s = (Ok r, s') ∧ keeps s s' ∧
    match r with
    | None => usable s' p
    | Some conn' => ¬ connected s p ∧ (conn' = conn ∨ conn' = push p conn)
    end ∧ positions s' = positions s.
Proof.
  intros Hp. destruct (checkActive_spec bForce p s Hp) as (ok & s1 & E1 & K1 & Hu & Hc & Hp1). unfold try_adapter.
  rewrite (bind_Ok _ _ _ _ _ E1). destruct ok; [exists None, s1; split_and!; [done | done | by apply Hu | done] |].
  assert (Hnc : ¬ connected s p) by (intros Hcon; by specialize (Hc Hcon)).
  destruct (lookup_lt_is_Some_2 _ _ (keeps_ptr _ _ _ K1 Hp)) as [a Ea].
  assert (E2 : isConnTimeout p s1 = (Ok (tr_isConnTimeout (_trans a)), s1)).
  { unfold isConnTimeout. by rewrite (bind_Ok _ _ _ _ _ (get_adapter_ok _ _ _ Ea)). }
  rewrite (bind_Ok _ _ _ _ _ E2). destruct (tr_isConnTimeout (_trans a)); [exists (Some conn), s1; by auto 6 |].
  assert (E3 : isConnExc p s1 = (Ok (_connExc (a_breaker a)), s1)).
  { unfold isConnExc. by rewrite (bind_Ok _ _ _ _ _ (get_adapter_ok _ _ _ Ea)). }
  rewrite (bind_Ok _ _ _ _ _ E3). eexists _, s1. split; [reflexivity |]. split; [done |]. split; [|done]. split; [done |].
  destruct (_connExc (a_breaker a)); auto.
Qed.

(** ** All adapters tried *)

(** The result of trying [ps] one after the other, with the candidates [conn] before. *)
Definition scanned s s' (ps conn : list nat) (r : nat + list nat) : Prop :=
  keeps s s' ∧
  match r with
  | inl p => p ∈ ps ∧ usable s' p
  | inr conn' => (∀ q, q ∈ ps → ¬ connected s q) ∧ (∀ q, q ∈ conn' → q ∈ conn ∨ q ∈ ps)
  end.
(** [push] adds its argument to the candidates and nothing else. *)
Definition pushes (push : nat → list nat → list nat) : Prop := ∀ p conn q, q ∈ push p conn → q = p ∨ q ∈ conn.

Lemma push_back_pushes : pushes push_back.
Proof. intros p conn q [Hq|Hq]%elem_of_app; [by right |]. apply list_elem_of_singleton in Hq. by left. Qed.
Lemma set_push_pushes : pushes (set_push addr).
Proof.
  intros p conn q. induction conn as [|c conn IH]; cbn; [intros ?%list_elem_of_singleton; by left |].
  case_bool_decide; [by right |]. destruct (_ <? _).
  - intros [->|?]%elem_of_cons; auto.
  - intros [->|Hq]%elem_of_cons; [right; left |]. destruct (IH Hq); [by left | by right; right].
Qed.

Lemma scanned_cons s s1 s' p ps conn conn1 push r : pushes push → keeps s s1 → ¬ connected s p →
  (conn1 = conn ∨ conn1 = push p conn) → scanned s1 s' ps conn1 r → scanned s s' (p :: ps) conn r.
Proof.
  intros Hpush K Hnc Hconn [K' Hr]. split; [by transitivity s1 |]. destruct r as [q|conn'].
  - destruct Hr. by split; [right |].
  - destruct Hr as [Hn Hin]. split.
    + intros q [->|Hq]%elem_of_cons; [done |]. intros Hc. apply (Hn q Hq). by apply (keeps_connected _ _ K).
    + intros q Hq. destruct (Hin q Hq) as [Hq'|Hq']; [|by right; right]. destruct Hconn as [->| ->]; [by left |].
      apply Hpush in Hq' as [->|?]; [right; left | by left].
Qed.

(** The end of a search. *)
Lemma retry_conn_spec p s : ptr_ok s p → ∃ s', retry_conn info now p s = (Ok p, s') ∧ keeps s s'.
Proof.
  intros Hp. destruct (checkActive_spec true p s Hp) as (ok & s1 & E1 & K1 & _). exists s1.
  unfold retry_conn. by rewrite (bind_Ok _ _ _ _ _ E1).
Qed.
Lemma random_spec v s : v ≠ [] → ∃ p s', random_of rand v s = (Ok p, s') ∧ keeps s s' ∧ p ∈ v.
Proof.
  intros Hne. unfold random_of, bind at 1, get_st. unfold bind, modify.
  destruct (vec_mod v (wrapU 32 (rand (rand_calls s))) (set_rand (S (rand_calls s)) s) Hne) as (p & E & Hp).
  eexists p, _. split; [exact E |]. split; [apply keeps_rand | done].
Qed.
Lemma retry_any_spec v s : v ≠ [] → Forall (ptr_ok s) v → ∃ p s', retry_any info now rand v s = (Ok p, s') ∧ keeps s s' ∧ p ∈ v.
Proof.
  intros Hne Hv. destruct (random_spec v s Hne) as (p & s1 & E1 & K1 & Hp). rewrite Forall_forall in Hv.
  pose proof (keeps_ptr _ _ _ K1 (Hv _ Hp)) as Hp1. destruct (reset_spec p s1 Hp1) as (s2 & E2 & K2).
  destruct (checkActive_spec true p s2 (keeps_ptr _ _ _ K2 Hp1)) as (ok & s3 & E3 & K3 & _). exists p, s3.
  unfold retry_any. rewrite (bind_Ok _ _ _ _ _ E1), (bind_Ok _ _ _ _ _ E2), (bind_Ok _ _ _ _ _ E3).
  split_and!; [done | by transitivity s1; [|transitivity s2] | done].
Qed.

(** *** The loop over the active adapters *)

(** A position one further on a list of [n]. *)
Definition next_pos (n pos : Z) : Z := let p := wrapU 64 (pos + 1) in if n <=? p then 0 else p.
Fixpoint upcoming (n pos : Z) (i : nat) : list Z :=
  match i with O => [] | S i' => next_pos n pos :: upcoming n (next_pos n pos) i' end.
Definition at_list (v : list nat) (ks : list Z) : list nat := omap (λ k, v !! Z.to_nat k) ks.

Lemma next_pos_range n pos : 0 < n → 0 ≤ next_pos n pos < n.
Proof.
  intros Hn. unfold next_pos. pose proof (wrapU_range 64 (pos + 1) ltac:(lia)) as Hr. unfold in_U in Hr.
  destruct (Z.leb_spec n (wrapU 64 (pos + 1))); lia.
Qed.
Lemma next_pos_mod n pos : 0 < n < 2 ^ 64 → 0 ≤ pos < n → next_pos n pos = (pos + 1) mod n.
Proof.
  intros Hn Hp. unfold next_pos. destruct (decide (pos + 1 = n)) as [E|Hne].
  - rewrite E, Z.mod_same by lia. rewrite wrapU_id by (unfold in_U; lia). by rewrite (proj2 (Z.leb_le _ _)) by lia.
  - rewrite wrapU_id by (unfold in_U; lia). rewrite (proj2 (Z.leb_gt _ _)) by lia. by rewrite Z.mod_small by lia.
Qed.
Lemma upcoming_mod n i : 0 < n < 2 ^ 64 → ∀ pos k, (k < i)%nat →
  upcoming n pos i !! k = Some ((next_pos n pos + Z.of_nat k) mod n).
Proof.
  intros Hn. induction i as [|i IH]; intros pos k Hk; [lia |]. cbn [upcoming]. pose proof (next_pos_range n pos ltac:(lia)) as Hp.
  destruct k as [|k]; cbn [lookup list_lookup]; [f_equal; rewrite Z.mod_small; lia |].
  rewrite IH by lia. f_equal. rewrite next_pos_mod by done. rewrite Zplus_mod_idemp_l. f_equal. lia.
Qed.

(** A whole turn reaches everything. *)
Lemma turn_covers v pos p : v ≠ [] → zlen v < 2 ^ 64 → p ∈ v → p ∈ at_list v (upcoming (zlen v) pos (length v)).
Proof.
  intros Hne Hn [j Hj]%list_elem_of_lookup. pose proof (lookup_lt_Some _ _ _ Hj) as Hlt.
  set (p0 := next_pos (zlen v) pos). pose proof (Z.mod_pos_bound (Z.of_nat j - p0) (zlen v) ltac:(lia)) as Hm.
  apply list_elem_of_omap. exists (Z.of_nat j). rewrite Nat2Z.id. split; [|done].
  apply list_elem_of_lookup. exists (Z.to_nat ((Z.of_nat j - p0) mod zlen v)). rewrite upcoming_mod by lia. f_equal.
  rewrite Z2Nat.id by lia. fold p0. rewrite Zplus_mod_idemp_r. replace (p0 + (Z.of_nat j - p0)) with (Z.of_nat j) by lia. apply Z.mod_small. lia.
Qed.

Lemma keeps_position s v : keeps s (set_position v s).
Proof. done. Qed.

Lemma round_loop_spec i : ∀ conn s, _activeProxys s ≠ [] → Forall (ptr_ok s) (_activeProxys s) →
  ∃ r s', round_loop info now i conn s = (Ok r, s') ∧
    scanned s s' (at_list (_activeProxys s) (upcoming (zlen (_activeProxys s)) (_lastRoundPosition s) i)) conn r.
Proof.
  induction i as [|i IH]; intros conn s Hne Hok; cbn [round_loop upcoming].
  { exists (inr conn), s. split; [done |]. split; [done |]. split; [by intros q Hq%not_elem_of_nil | by left]. }
  assert (Hn : 0 < zlen (_activeProxys s)) by (destruct (_activeProxys s); [done | cbn; lia]).
  set (s1 := set_position (next_pos (zlen (_activeProxys s)) (_lastRoundPosition s)) s).
  unfold bind at 1, modify. change (set_position _ s) with s1. unfold bind at 1, get_st.
  destruct (vec_at_ok (_activeProxys s1) (_lastRoundPosition s1) s1) as (p & Ev & Hp); [by apply next_pos_range |].
  rewrite (bind_Ok _ _ _ _ _ Ev).
  assert (Hpok : ptr_ok s1 p) by (rewrite Forall_forall in Hok; apply Hok; by eapply list_elem_of_lookup_2).
  destruct (try_spec false push_back p conn s1 Hpok) as (r & s2 & E2 & K2 & Hr & [= Epos _]). rewrite (bind_Ok _ _ _ _ _ E2).
  assert (Eat : at_list (_activeProxys s) (_lastRoundPosition s1 :: upcoming (zlen (_activeProxys s)) (_lastRoundPosition s1) i) =
                p :: at_list (_activeProxys s) (upcoming (zlen (_activeProxys s)) (_lastRoundPosition s1) i)).
  { unfold at_list. cbn [omap list_omap]. change (_activeProxys s1) with (_activeProxys s) in Hp. by rewrite Hp. }
  change (next_pos (zlen (_activeProxys s)) (_lastRoundPosition s)) with (_lastRoundPosition s1). rewrite Eat.
  destruct r as [conn1|].
  - assert (Ea : _activeProxys s2 = _activeProxys s) by exact (keeps_active _ _ K2).
    destruct (IH conn1 s2) as (r & s3 & E3 & S3); [by rewrite Ea | rewrite Ea; eapply Forall_impl; [exact Hok | intros q; apply (keeps_ptr _ _ _ K2)] |].
    rewrite Ea, Epos in S3. exists r, s3. split; [exact E3 |]. destruct Hr as [Hnc Hconn].
    apply (scanned_cons s s2 s3 p _ conn conn1 push_back r); [exact push_back_pushes | by transitivity s1 | exact Hnc | exact Hconn | exact S3].
  - exists (inl p), s2. split; [done |]. split; [by transitivity s1 |]. split; [left | done].
Qed.

(** ** The searches *)

(** [p] was found among [l]; it is usable if any of them is connected. *)
Record found s s' (l : list nat) p : Prop := {
  found_keeps : keeps s s';
  found_in : p ∈ l;
  found_usable q : q ∈ l → connected s q → usable s' p
}.

(** The end of a search that has tried all of [l]. *)
Lemma scan_end s s1 ps l r (choose : list nat → prog (t X) Empty_set nat) :
  scanned s s1 ps [] r → (∀ q, q ∈ l ↔ q ∈ ps) → l ≠ [] → Forall (ptr_ok s) l →
  (∀ conn, conn ≠ [] → ∃ q s2, choose conn s1 = (Ok q, s2) ∧ keeps s1 s2 ∧ q ∈ conn) →
  ∃ p s', (match r with
    | inl p => ret p
    | inr conn => if 0 <? zlen conn then let* p := choose conn in retry_conn info now p else retry_any info now rand l
    end) s1 = (Ok p, s') ∧ found s s' l p.
Proof.
  intros [K1 Hr] Hl Hne Hok Hch. destruct r as [p|conn].
  - destruct Hr as [Hp Hu]. exists p, s1. split; [done |]. by constructor; [| apply Hl |].
  - destruct Hr as [Hnc Hin].
    assert (Hnone : ∀ s' p q, q ∈ l → connected s q → usable s' p) by (intros s' p q Hq%Hl Hc; by specialize (Hnc q Hq)).
    assert (Hok1 : Forall (ptr_ok s1) l) by (eapply Forall_impl; [exact Hok | intros q; apply (keeps_ptr _ _ _ K1)]).
    destruct (Z.ltb_spec 0 (zlen conn)).
    + destruct (Hch conn) as (q & s2 & E2 & K2 & Hq); [by intros -> |]. rewrite (bind_Ok _ _ _ _ _ E2).
      assert (Hql : q ∈ l) by (apply Hl; destruct (Hin q Hq) as [Hx|]; [by apply not_elem_of_nil in Hx | done]).
      rewrite Forall_forall in Hok1. destruct (retry_conn_spec q s2 (keeps_ptr _ _ _ K2 (Hok1 q Hql))) as (s3 & E3 & K3).
      exists q, s3. split; [exact E3 |]. constructor; [by transitivity s1; [|transitivity s2] | done | by apply Hnone].
    + destruct (retry_any_spec l s1 Hne Hok1) as (q & s2 & E2 & K2 & Hq). exists q, s2. split; [exact E2 |].
      constructor; [by transitivity s1 | done | by apply Hnone].
Qed.

Lemma at_list_in v ks p : p ∈ at_list v ks → p ∈ v.
Proof. intros (k & _ & E)%list_elem_of_omap. by eapply list_elem_of_lookup_2. Qed.

Definition lists_ok s : Prop := Forall (ptr_ok s) (_activeProxys s) ∧ Forall (ptr_ok s) (_vRegProxys s) ∧ zlen (_activeProxys s) < 2 ^ 32.

Lemma next_valid_spec s : _activeProxys s ≠ [] → lists_ok s →
  ∃ p s', next_valid info now rand s = (Ok p, s') ∧ found s s' (_activeProxys s) p.
Proof.
  intros Hne (Hok & _ & Hn). unfold next_valid. unfold bind at 1, get_st.
  destruct (round_loop_spec (length (_activeProxys s)) [] s Hne Hok) as (r & s1 & E1 & S1). rewrite (bind_Ok _ _ _ _ _ E1).
  eapply scan_end; [exact S1 | | done | done |].
  - intros q. split; [intros Hq; by apply turn_covers; [| lia |] | apply at_list_in].
  - intros conn Hc. by apply random_spec.
Qed.

Lemma rehash_loop_spec hashCode : ∀ fuel thisHash conn s, thisHash ≠ [] → (length thisHash ≤ fuel)%nat → Forall (ptr_ok s) thisHash →
  ∃ r s', rehash_loop info now fuel hashCode thisHash conn s = (Ok r, s') ∧
    ∃ ps, ps ≡ₚ thisHash ∧ scanned s s' ps conn r.
Proof.
  induction fuel as [|fuel IH]; intros th conn s Hne Hf Hok; [destruct th; [done | cbn in Hf; lia] |]. cbn [rehash_loop].
  assert (Hn : 0 < zlen th) by (destruct th; [done | cbn; lia]). pose proof (Z.mod_pos_bound hashCode (zlen th) Hn) as Hm.
  destruct (vec_at_ok th (hashCode mod zlen th) s Hm) as (p & Ev & Hp). rewrite (bind_Ok _ _ _ _ _ Ev).
  assert (Hperm : th ≡ₚ p :: delete (Z.to_nat (hashCode mod zlen th)) th) by by apply delete_Permutation.
  pose proof Hok as Hok'. rewrite Hperm in Hok'. apply Forall_cons in Hok' as [Hpok Hdok].
  destruct (try_spec true push_back p conn s Hpok) as (r & s1 & E1 & K1 & Hr & _). rewrite (bind_Ok _ _ _ _ _ E1).
  set (th' := delete (Z.to_nat (hashCode mod zlen th)) th) in *. destruct r as [conn1|].
  - destruct Hr as [Hnc Hconn]. case_bool_decide as Hth.
    + exists (inr conn1), s1. split; [done |]. exists [p]. split; [by rewrite Hperm, Hth |].
      apply (scanned_cons s s1 s1 p [] conn conn1 push_back); [exact push_back_pushes | done.. |].
      split; [done |]. split; [by intros q Hq%not_elem_of_nil | by left].
    + assert (Hl' : length th = S (length th')) by (by rewrite Hperm).
      destruct (IH th' conn1 s1 Hth ltac:(lia)) as (r & s2 & E2 & ps & Hps & S2).
      { eapply Forall_impl; [exact Hdok | intros q; apply (keeps_ptr _ _ _ K1)]. }
      exists r, s2. split; [exact E2 |]. exists (p :: ps). split; [by rewrite Hperm, Hps |].
      by apply (scanned_cons s s1 s2 p ps conn conn1 push_back); [exact push_back_pushes | ..].
  - exists (inl p), s1. split; [done |]. exists (p :: th'). split; [done |]. split; [done |]. split; [left | done].
Qed.

(** The adapters and the lists without the rings. *)
Record evolves s s' : Prop := {
  evolves_statics : statics <$> _vAllProxys s' = statics <$> _vAllProxys s;
  evolves_active : _activeProxys s' = _activeProxys s;
  evolves_vReg : _vRegProxys s' = _vRegProxys s;
  evolves_connected p : connected s p → connected s' p
}.

#[export] Instance evolves_preorder : PreOrder evolves.
Proof.
  split; [by intros s; constructor |]. intros s1 s2 s3 [A1 B1 C1 D1] [A2 B2 C2 D2]. constructor; [congruence.. | auto].
Qed.
Lemma keeps_evolves s s' : keeps s s' → evolves s s'.
Proof. intros [E Hc]. unfold core in E. constructor; [congruence.. | done]. Qed.

Lemma evolves_length s s' : evolves s s' → length (_vAllProxys s') = length (_vAllProxys s).
Proof. intros E. pose proof (f_equal length (evolves_statics _ _ E)) as El. by rewrite !length_fmap in El. Qed.
Lemma evolves_ptr s s' p : evolves s s' → ptr_ok s p → ptr_ok s' p.
Proof. intros E. unfold ptr_ok. by rewrite (evolves_length _ _ E). Qed.

(** What a choice by hash returns: an adapter that is usable if a connected one is active. *)
Definition chosen s s' (o : option nat) : Prop :=
  evolves s s' ∧
  match o with
  | None => _activeProxys s = [] ∨ _vRegProxys s = [] ∨ _indexActiveProxys s' = []
  | Some p => (p ∈ _activeProxys s ∨ p ∈ _vRegProxys s) ∧ ∀ q, q ∈ _activeProxys s → connected s q → usable s' p
  end.

Lemma lists_ok_evolves s s' : evolves s s' → lists_ok s → lists_ok s'.
Proof.
  intros K (Ha & Hr & Hn). unfold lists_ok. rewrite (evolves_active _ _ K), (evolves_vReg _ _ K).
  split_and!; [| | done]; eapply Forall_impl; [exact Ha | intros q; apply (evolves_ptr _ _ _ K) | exact Hr | intros q; apply (evolves_ptr _ _ _ K)].
Qed.

Lemma rehash_spec hashCode s : lists_ok s → ∃ o s', rehash info now rand hashCode s = (Ok o, s') ∧ keeps s s' ∧
  match o with None => _activeProxys s = [] | Some p => found s s' (_activeProxys s) p end.
Proof.
  intros (Hok & _ & Hn). unfold rehash. unfold bind at 1, get_st. case_bool_decide as Hne; [by exists None, s |].
  destruct (rehash_loop_spec hashCode (length (_activeProxys s)) (_activeProxys s) [] s Hne ltac:(lia) Hok) as (r & s1 & E1 & ps & Hps & S1).
  rewrite (bind_Ok _ _ _ _ _ E1).
  destruct (scan_end s s1 ps (_activeProxys s) r (λ conn, vec_at conn (hashCode mod zlen conn)) S1) as (p & s2 & E2 & F2); [by intros q; rewrite Hps | done | done | |].
  { intros conn Hc. destruct (vec_mod conn hashCode s1 Hc) as (q & Eq & Hq). by exists q, s1. }
  exists (Some p), s2. split; [|split; [apply (found_keeps _ _ _ _ F2) | exact F2]].
  destruct r as [q|conn]; [unfold ret in *; congruence |]. destruct (0 <? zlen conn).
  - unfold bind in *. destruct (vec_at conn (hashCode mod zlen conn) s1) as [[q| | | |] s3]; try done.
    destruct (retry_conn info now q s3) as [[q'| | | |] s4]; try done. unfold ret. congruence.
  - unfold bind. rewrite E2. done.
Qed.

Lemma found_chosen s s' p : found s s' (_activeProxys s) p → chosen s s' (Some p).
Proof. intros [K Hp Hu]. split; [by apply keeps_evolves |]. split; [by left | exact Hu]. Qed.

Lemma hash_or_rehash_spec hashCode p s : lists_ok s → p ∈ _vRegProxys s →
  ∃ o s', hash_or_rehash info now rand hashCode p s = (Ok o, s') ∧ keeps s s' ∧ chosen s s' o.
Proof.
  intros Hls Hp. pose proof Hls as (Ha & Hr & _). rewrite Forall_forall in Hr. pose proof (Hr p Hp) as Hpok.
  destruct (lookup_lt_is_Some_2 _ _ Hpok) as [a Ea]. unfold hash_or_rehash.
  assert (E0 : isActiveInReg p s = (Ok (_activeStateInReg a), s)).
  { unfold isActiveInReg. by rewrite (bind_Ok _ _ _ _ _ (get_adapter_ok _ _ _ Ea)). }
  rewrite (bind_Ok _ _ _ _ _ E0).
  assert (E1 : ∃ ok s1, (if _activeStateInReg a then checkActive info now true p else ret false) s = (Ok ok, s1) ∧ keeps s s1 ∧ (ok = true → usable s1 p)).
  { destruct (_activeStateInReg a); [|by exists false, s]. destruct (checkActive_spec true p s Hpok) as (ok & s1 & E1 & K1 & Hu & _).
    by exists ok, s1. }
  destruct E1 as (ok & s1 & E1 & K1 & Hu). rewrite (bind_Ok _ _ _ _ _ E1). destruct ok.
  - exists (Some p), s1. split; [done |]. split; [done |]. split; [by apply keeps_evolves |]. split; [by right | auto].
  - destruct (rehash_spec hashCode s1 (lists_ok_evolves _ _ (keeps_evolves _ _ K1) Hls)) as (o & s2 & E2 & K2 & Ho). exists o, s2. split; [exact E2 |].
    split; [by transitivity s1 |]. split; [apply keeps_evolves; by transitivity s1 |]. rewrite (keeps_active _ _ K1) in Ho. destruct o as [q|]; [|by left].
    split; [left; apply (found_in _ _ _ _ Ho) |]. intros q' Hq' Hc. apply (found_usable _ _ _ _ Ho q' Hq'). by apply (keeps_connected _ _ K1).
Qed.

Lemma hash_normal_spec hashCode s : lists_ok s → ∃ o s', getHashProxyForNormal info now rand hashCode s = (Ok o, s') ∧ keeps s s' ∧ chosen s s' o.
Proof.
  intros Hls. unfold getHashProxyForNormal. unfold bind at 1, get_st. case_bool_decide as Hne.
  - exists None, s. split; [done |]. split; [done |]. split; [done | by right; left].
  - destruct (vec_mod (_vRegProxys s) hashCode s Hne) as (p & E & Hp). rewrite (bind_Ok _ _ _ _ _ E). by apply hash_or_rehash_spec.
Qed.
End searches.
