(* ===== verification/EndpointState.v ===== *)
(** The invariant of an [EndpointManager] between calls; rings and updates keep it. *)
From stdpp Require Import prelude gmap list sorting.
From Stdlib Require Import ZArith Lia.
From S2P Require Import Prelude Bytes TarsInput AdapterProxy Md5 ConsistentHash EndpointManager EndpointWeights EndpointInv.
Import EndpointManager.

(** ** Maps *)

Section maps.
Context {V : Type}.
Implicit Types (m : StrMap.map V) (k : list Z) (v : V).

Lemma map_insert_cases (lt : list Z → list Z → bool) (p : list Z * V) m : map_insert lt p m = m ∨ map_insert lt p m ≡ₚ p :: m.
Proof.
  induction m as [|q m IH]; [by right |]. cbn. destruct (lt p.1 q.1); [by right |]. destruct (lt q.1 p.1); [|by left].
  destruct IH as [->|IH]; [by left | right]. rewrite IH. apply perm_swap.
Qed.
Lemma find_in k m v : StrMap.find k m = Some v → (k, v) ∈ m.
Proof.
  unfold StrMap.find. destruct (List.find _ m) as [[k' v']|] eqn:E; [|done]. cbn. intros [= ->].
  apply find_some in E as [Hin Hk]. apply bool_decide_eq_true in Hk. cbn in Hk. subst k'. by apply list_elem_of_In.
Qed.
Lemma find_none k m : StrMap.find k m = None → k ∉ m.*1.
Proof.
  unfold StrMap.find. destruct (List.find _ m) as [|] eqn:E; [done |]. intros _ ([k' v'] & -> & Hin)%list_elem_of_fmap.
  apply list_elem_of_In, (find_none _ _ E) in Hin. by apply bool_decide_eq_false in Hin.
Qed.
Lemma find_key k m : k ∈ m.*1 → ∃ v, StrMap.find k m = Some v ∧ (k, v) ∈ m.
Proof.
  intros Hk. destruct (StrMap.find k m) as [v|] eqn:E; [exists v; split; [done | by apply find_in] |]. by apply find_none in E.
Qed.

Lemma insert_cases k v m : StrMap.insert k v m = m ∨ ((k ∉ m.*1) ∧ (StrMap.insert k v m ≡ₚ (k, v) :: m)).
Proof.
  unfold StrMap.insert. destruct (StrMap.find k m) eqn:E; [by left |]. apply find_none in E.
  destruct (map_insert_cases str_lt (k, v) m) as [->|]; [by left | by right].
Qed.
Lemma insert_in k v m x : x ∈ StrMap.insert k v m → x = (k, v) ∨ x ∈ m.
Proof. destruct (insert_cases k v m) as [->|[_ Hp]]; [by right |]. rewrite Hp. by intros [?|?]%elem_of_cons; [left | right]. Qed.
Lemma insert_nodup k v m : NoDup m.*1 → NoDup (StrMap.insert k v m).*1.
Proof. destruct (insert_cases k v m) as [->|[Hk Hp]]; [done |]. rewrite Hp. cbn. by constructor. Qed.
Lemma insert_length k v m : (length (StrMap.insert k v m) ≤ S (length m))%nat.
Proof. destruct (insert_cases k v m) as [->|[_ Hp]]; [lia |]. rewrite Hp. done. Qed.

Lemma erase_in k m x : x ∈ StrMap.erase k m → x ∈ m ∧ x.1 ≠ k.
Proof. unfold StrMap.erase. rewrite list_elem_of_filter. tauto. Qed.
Lemma erase_nodup k m : NoDup m.*1 → NoDup (StrMap.erase k m).*1.
Proof. apply NoDup_map_filter. Qed.
Lemma erase_shorter k m : k ∈ m.*1 → (length (StrMap.erase k m) < length m)%nat.
Proof.
  intros ([k' v] & -> & Hin)%list_elem_of_fmap. unfold StrMap.erase. apply (length_filter_lt _ _ (k', v)); [done |]. cbn. tauto.
Qed.

Lemma assign_cases k v m : StrMap.assign k v m = StrMap.erase k m ∨ StrMap.assign k v m ≡ₚ (k, v) :: StrMap.erase k m.
Proof. apply map_insert_cases. Qed.
Lemma assign_in k v m x : x ∈ StrMap.assign k v m → x = (k, v) ∨ x ∈ m.
Proof.
  destruct (assign_cases k v m) as [->|Hp]; [intros [? _]%erase_in; by right |]. rewrite Hp.
  intros [?|[? _]%erase_in]%elem_of_cons; [by left | by right].
Qed.
Lemma assign_nodup k v m : NoDup m.*1 → NoDup (StrMap.assign k v m).*1.
Proof.
  intros Hnd. destruct (assign_cases k v m) as [->|Hp]; [by apply erase_nodup |]. rewrite Hp. cbn.
  constructor; [|by apply erase_nodup]. intros (x & Ek & [_ Hne]%erase_in)%list_elem_of_fmap. congruence.
Qed.

Lemma fold_assign_in l : ∀ m x, x ∈ fold_left (λ m kp, StrMap.assign kp.1 kp.2 m) l m → x ∈ l ∨ x ∈ m.
Proof.
  induction l as [|[k v] l IH]; intros m x Hx; [by right |]. destruct (IH _ _ Hx) as [|[->|]%assign_in]; [by left; right | left; left | by right].
Qed.
Lemma fold_assign_nodup l : ∀ m, NoDup m.*1 → NoDup (fold_left (λ m kp, StrMap.assign kp.1 kp.2 m) l m).*1.
Proof. induction l as [|[k v] l IH]; intros m Hm; [done |]. by apply IH, assign_nodup. Qed.

(** Maps with distinct keys, one inside the other. *)
Lemma sub_length m m' : NoDup m.*1 → (∀ x, x ∈ m → x ∈ m') → (length m ≤ length m')%nat.
Proof. intros Hnd Hsub. apply submseteq_length, NoDup_submseteq; [by eapply NoDup_fmap_1 | done]. Qed.
End maps.

(** ** The virtual nodes of a host *)

Section codes.
Context (stack : MD5.MD5_CTX) (Hstack : length (MD5.buffer stack) = 64%nat).
Abbreviation ketama := E_TC_CONHASH_KETAMAHASH.

(** What [addNode] appends does not depend on the ring. *)
Lemma add_virtual_app node index j l : bytes_ok node → zlen node + 11 < 2 ^ 32 → 0 ≤ j →
  ConsistentHash.add_virtual stack ketama node index j l = (Ok tt, l ++ (ConsistentHash.add_virtual stack ketama node index j []).2).
Proof.
  intros Hok Hl Hj. destruct (ConsistentHash.digits_ok stack Hstack 10 j [] Hj (Forall_nil_2 _)) as [Hdok Hdl].
  fold (ConsistentHash.tostr j) in Hdok, Hdl.
  assert (Hv : bytes_ok (node ++ [95] ++ ConsistentHash.tostr j)).
  { apply Forall_app. split; [done |]. apply Forall_cons. split; [unfold is_byte; lia | done]. }
  assert (Hlv : zlen (node ++ [95] ++ ConsistentHash.tostr j) < 2 ^ 32) by (rewrite !length_app; cbn in *; lia).
  unfold ConsistentHash.add_virtual, ConsistentHash.getHashType.
  rewrite !(bind_Ok _ _ _ _ _ (ConsistentHash.md5bin_prog stack Hstack _ _ Hv Hlv)).
  generalize (RFC1321.digest (node ++ [95] ++ ConsistentHash.tostr j)) as p. intros p.
  cbn. unfold bind, ConsistentHash.push, modify, ret. cbn. by rewrite <- !(assoc_L app).
Qed.
Lemma add_loop_app n node index : ∀ j l, bytes_ok node → zlen node + 11 < 2 ^ 32 → 0 ≤ j →
  ConsistentHash.addNode_loop stack ketama n node index j l =
    (Ok tt, l ++ (ConsistentHash.addNode_loop stack ketama n node index j []).2).
Proof.
  induction n as [|n IH]; intros j l Hok Hl Hj; cbn [ConsistentHash.addNode_loop]; [by rewrite app_nil_r |].
  rewrite (bind_Ok _ _ _ _ _ (add_virtual_app node index j l Hok Hl Hj)), (bind_Ok _ _ _ _ _ (add_virtual_app node index j [] Hok Hl Hj)).
  rewrite IH by (done || lia). cbn [app]. rewrite (IH (j + 1) (ConsistentHash.add_virtual stack ketama node index j []).2) by (done || lia).
  cbn [snd]. by rewrite (assoc_L app).
Qed.

(** The nodes of [host] for [iWeight] rounds. *)
Definition nodes_of (host : list Z) (iWeight : Z) : list ConsistentHash.node_T_new :=
  (ConsistentHash.addNode stack ketama host 0 iWeight []).2.

Lemma addNode_nodes host iWeight l : bytes_ok host → zlen host + 11 < 2 ^ 32 → 0 ≤ iWeight →
  ConsistentHash.addNode stack ketama host 0 iWeight l = (Ok tt, l ++ nodes_of host iWeight) ∧
  zlen (nodes_of host iWeight) = 4 * iWeight ∧ ∀ n, n ∈ nodes_of host iWeight → ConsistentHash.sNode n = host.
Proof.
  intros Hok Hl Hw. split; [by apply add_loop_app |].
  destruct (ConsistentHash.addNode_loop_eq stack ketama Hstack (Z.to_nat iWeight) host 0 0 [] Hok Hl ltac:(lia)) as (codes & E & Hn).
  unfold nodes_of, ConsistentHash.addNode. rewrite E. cbn [snd app]. split.
  - rewrite length_map, Hn. unfold ConsistentHash.num_codes. lia.
  - intros n (c & -> & _)%list_elem_of_fmap. done.
Qed.
End codes.

(** ** The invariant *)

Section inv.
Context {X B : Type} `{Transceiver X B} `{ConnTimeout X} `{RingSort}.
Context (info : CheckTimeoutInfo) (now : Z) (rand : nat → Z) (addr : nat → Z) (stack : MD5.MD5_CTX).
(** The hosts that may occur, and bounds for the number of active endpoints and for
    weights. *)
Context (known : list Z → Prop) (N W : Z).
Implicit Types s : t X.
Implicit Types p q : nat.

Definition host_of s p : option (list Z) := a_host <$> _vAllProxys s !! p.
Definition weight_of s p : option Z := _staticWeight <$> _vAllProxys s !! p.

Definition known_code (n : ConsistentHash.node_T_new) : Prop :=
  ∃ host iWeight, known host ∧ 0 ≤ iWeight ≤ W ∧ n ∈ nodes_of stack host iWeight.

(** A ring is sorted and holds nodes of the adapters it was built for. *)
Record ring_ok (r : ring) : Prop := {
  ring_sorted : StronglySorted ConsistentHash.le_hash (hash_nodes r);
  ring_names n : n ∈ hash_nodes r → ConsistentHash.sNode n ∈ (last_proxys r).*1;
  ring_codes n : n ∈ hash_nodes r → known_code n;
  ring_size : zlen (hash_nodes r) ≤ N * W
}.

Record inv s : Prop := {
  inv_active : Forall (ptr_ok s) (_activeProxys s);
  inv_vReg : Forall (ptr_ok s) (_vRegProxys s);
  inv_len : zlen (_activeProxys s) ≤ N;
  inv_all : Forall (λ kp, ptr_ok s kp.2) (_allProxys s);
  inv_index : Forall (λ kp, host_of s kp.2 = Some kp.1 ∧ known kp.1 ∧ kp.2 ∈ _activeProxys s) (_indexActiveProxys s);
  inv_index_nodup : NoDup (_indexActiveProxys s).*1;
  inv_sort_nodup : NoDup (_sortActivProxys s).*1;
  inv_sort x : x ∈ _sortActivProxys s → x ∈ _indexActiveProxys s;
  inv_hosts p h : host_of s p = Some h → known h;
  inv_weights p w : weight_of s p = Some w → w ≤ W;
  inv_table i : i ∈ _staticRouterCache (weight_state s) ↔ (i < length (_activeWeightProxy (weight_state s)))%nat;
  inv_table_len : zlen (_staticRouterCache (weight_state s)) < 2 ^ 32;
  inv_weighted : Forall (ptr_ok s) (_activeWeightProxy (weight_state s));
  inv_lastHash : Forall (ptr_ok s) (_lastHashStaticProxys s);
  inv_rings b : ring_ok (get_ring b s)
}.

Lemma host_of_statics s s' p : statics <$> _vAllProxys s' = statics <$> _vAllProxys s → host_of s' p = host_of s p.
Proof.
  intros E. assert (Eh : ∀ s0, host_of s0 p = (λ st, st.1.1.2) <$> (statics <$> _vAllProxys s0) !! p).
  { intros s0. unfold host_of. rewrite list_lookup_fmap. by destruct (_vAllProxys s0 !! p). }
  by rewrite !Eh, E.
Qed.
Lemma weight_of_statics s s' p : statics <$> _vAllProxys s' = statics <$> _vAllProxys s → weight_of s' p = weight_of s p.
Proof.
  intros E. assert (Eh : ∀ s0, weight_of s0 p = (λ st, st.1.2) <$> (statics <$> _vAllProxys s0) !! p).
  { intros s0. unfold weight_of. rewrite list_lookup_fmap. by destruct (_vAllProxys s0 !! p). }
  by rewrite !Eh, E.
Qed.

(** Only the maps of active adapters and the rings are different. *)
Lemma inv_maps s s' : inv s → evolves s s' → _allProxys s' = _allProxys s →
  _staticRouterCache (weight_state s') = _staticRouterCache (weight_state s) →
  _activeWeightProxy (weight_state s') = _activeWeightProxy (weight_state s) →
  Forall (ptr_ok s) (_lastHashStaticProxys s') →
  (∀ x, x ∈ _indexActiveProxys s' → x ∈ _indexActiveProxys s) → NoDup (_indexActiveProxys s').*1 →
  (∀ x, x ∈ _sortActivProxys s' → x ∈ _indexActiveProxys s') → NoDup (_sortActivProxys s').*1 →
  (∀ b, ring_ok (get_ring b s')) → inv s'.
Proof.
  intros [] Ev Ea Et Ew Hl Hi Hind Hs Hsnd Hr.
  assert (Hp : ∀ l, Forall (ptr_ok s) l → Forall (ptr_ok s') l).
  { intros l Hf. eapply Forall_impl; [exact Hf |]. intros p. by apply evolves_ptr. }
  constructor; rewrite ?(evolves_active _ _ Ev), ?(evolves_vReg _ _ Ev), ?Ea, ?Et, ?Ew; auto.
  - eapply Forall_impl; [done |]. intros [k p]. by apply evolves_ptr.
  - rewrite Forall_forall in *. intros x Hx. rewrite (host_of_statics s s' x.2 (evolves_statics _ _ Ev)). auto.
  - intros p h. rewrite (host_of_statics s s' p (evolves_statics _ _ Ev)). eauto.
  - intros p w. rewrite (weight_of_statics s s' p (evolves_statics _ _ Ev)). eauto.
Qed.

Lemma inv_keeps s s' : keeps s s' → inv s → inv s'.
Proof.
  intros K Hs. pose proof (keeps_evolves _ _ K) as Ev. destruct K as [E _]. unfold core in E.
  assert (E1 : _allProxys s' = _allProxys s) by congruence. assert (E2 : _indexActiveProxys s' = _indexActiveProxys s) by congruence.
  assert (E3 : _sortActivProxys s' = _sortActivProxys s) by congruence.
  assert (E4 : _staticRouterCache (weight_state s') = _staticRouterCache (weight_state s)) by congruence.
  assert (E5 : _activeWeightProxy (weight_state s') = _activeWeightProxy (weight_state s)) by congruence.
  assert (E6 : _lastHashStaticProxys s' = _lastHashStaticProxys s) by congruence.
  assert (E7 : ∀ b, get_ring b s' = get_ring b s) by (intros []; cbn; congruence).
  pose proof Hs as []. apply (inv_maps s s' Hs Ev); rewrite ?E1, ?E2, ?E3, ?E4, ?E5, ?E6; auto. intros b. by rewrite E7.
Qed.

Lemma inv_lists_ok s : N < 2 ^ 32 → inv s → lists_ok s.
Proof. intros HN []. unfold lists_ok. split_and!; [done.. | lia]. Qed.

(** Active adapters with different hosts are different. *)
Lemma index_length s : inv s → zlen (_indexActiveProxys s) ≤ N.
Proof.
  intros Hs. pose proof (inv_len s Hs). enough (length (_indexActiveProxys s).*2 ≤ length (_activeProxys s))%nat by (rewrite length_fmap in *; lia).
  pose proof (inv_index s Hs) as Hi. rewrite Forall_forall in Hi. apply submseteq_length, NoDup_submseteq.
  - pose proof (inv_index_nodup s Hs) as Hnd. apply NoDup_fmap_2_strong; [|by eapply NoDup_fmap_1].
    intros [k p] [k' p'] Hx Hy E. cbn in E. subst p'. destruct (Hi _ Hx) as [E1 _], (Hi _ Hy) as [E2 _]. cbn in *. congruence.
  - intros p (x & -> & Hx)%list_elem_of_fmap. by apply Hi.
Qed.
Lemma sort_length s : inv s → zlen (_sortActivProxys s) ≤ N.
Proof.
  intros Hs. pose proof (index_length s Hs).
  pose proof (sub_length _ _ (inv_sort_nodup s Hs) (inv_sort s Hs)). lia.
Qed.

(** ** Rings *)

Context (Hstack : length (MD5.buffer stack) = 64%nat) (Hknown : ∀ h, known h → bytes_ok h ∧ zlen h + 11 < 2 ^ 32).
Context (HN : 0 ≤ N ≤ 100000) (HW : 100 ≤ W < 2 ^ 31) (HNW : N * W < 2 ^ 31).

(** Of the manager, all but one ring and what [evolves] admits. *)
Record one_ring (b : bool) s s' : Prop := {
  or_evolves : evolves s s';
  or_all : _allProxys s' = _allProxys s;
  or_sort : _sortActivProxys s' = _sortActivProxys s;
  or_index : _indexActiveProxys s' = _indexActiveProxys s;
  or_weighted : weight_state s' = weight_state s;
  or_last : _lastHashStaticProxys s' = _lastHashStaticProxys s;
  or_other : get_ring (negb b) s' = get_ring (negb b) s
}.
#[local] Instance one_ring_preorder b : PreOrder (one_ring b).
Proof.
  split; [by intros s; constructor |]. intros s1 s2 s3 [] []. constructor; [by transitivity s2 | congruence..].
Qed.

Lemma one_ring_set b r s : one_ring b s (set_ring b r s).
Proof. by destruct b. Qed.
Lemma get_set_ring b r s : get_ring b (set_ring b r s) = r.
Proof. by destruct b. Qed.

Lemma inv_one_ring b s s' : inv s → one_ring b s s' → ring_ok (get_ring b s') → inv s'.
Proof.
  intros Hs [Ev Ea Es Ei Ew El Eo] Hr. pose proof Hs as [].
  apply (inv_maps s s' Hs Ev); rewrite ?Ea, ?Es, ?Ei, ?Ew, ?El; auto.
  intros b'. destruct (decide (b' = b)) as [->|Hne]; [done |]. assert (b' = negb b) as -> by (destruct b, b'; done). by rewrite Eo.
Qed.

Lemma changed_keeps s p a v : _vAllProxys s !! p = Some a → keeps s (set_adapters (<[p := set_changed v a]> (_vAllProxys s)) s).
Proof. intros E. by apply (keeps_set _ _ a). Qed.
Lemma checkWeightChanged_spec p s : ptr_ok s p → ∃ r s', checkWeightChanged p s = (Ok r, s') ∧ ∃ L, s' = set_adapters L s ∧ keeps s s'.
Proof.
  intros [a E]%lookup_lt_is_Some_2. unfold checkWeightChanged. rewrite (with_adapter_ok _ _ _ _ E).
  eexists _, _. split; [done |]. eexists. split; [done |]. by apply changed_keeps.
Qed.
Lemma resetWeightChanged_spec p s : ptr_ok s p → ∃ L, resetWeightChanged p s = (Ok tt, set_adapters L s) ∧ keeps s (set_adapters L s).
Proof.
  intros [a E]%lookup_lt_is_Some_2. unfold resetWeightChanged. rewrite (with_adapter_ok _ _ _ _ E).
  eexists. split; [done |]. by apply changed_keeps.
Qed.

Lemma ring_weight_bounds bStatic w : w ≤ W → 0 ≤ ring_weight_of bStatic w ∧ 4 * ring_weight_of bStatic w ≤ W.
Proof.
  intros Hw. unfold ring_weight_of. assert (Hb : (if bStatic then w else 100) ≤ W) by (destruct bStatic; lia).
  generalize dependent (if bStatic then w else 100). intros v Hv. destruct (Z.ltb_spec 0 v); [|lia].
  pose proof (Z.div_mod v 4 ltac:(lia)). pose proof (Z.mod_pos_bound v 4 ltac:(lia)). destruct (Z.leb_spec (v / 4) 0); lia.
Qed.

Lemma add_to_ring_spec bS bW s k p : host_of s p = Some k → known k → (∀ q w, weight_of s q = Some w → w ≤ W) →
  ∃ s' iWeight, add_to_ring stack bS bW (k, p) s = (Ok tt, s') ∧ one_ring bW s s' ∧ 0 ≤ iWeight ∧ 4 * iWeight ≤ W ∧
    get_ring bW s' = mkRing (last_proxys (get_ring bW s)) (hash_nodes (get_ring bW s) ++ nodes_of stack k iWeight).
Proof.
  intros Hh Hk Hw. unfold host_of in Hh. destruct (_vAllProxys s !! p) as [a|] eqn:E; [|done]. injection Hh as Hh.
  destruct (Hknown k Hk) as [Hok Hl]. destruct (ring_weight_bounds bS (_staticWeight a)) as [Hi0 Hi4].
  { apply (Hw p). unfold weight_of. by rewrite E. }
  unfold add_to_ring. cbn [snd]. rewrite (bind_Ok _ _ _ _ _ (get_adapter_ok _ _ _ E)).
  set (iw := ring_weight_of bS (_staticWeight a)) in *. rewrite Hh.
  destruct (addNode_nodes stack Hstack k iw (hash_nodes (get_ring bW s)) Hok Hl Hi0) as (Ea & Hn & _).
  assert (E1 : (if 0 <? iw then on_ring bW (ConsistentHash.addNode stack E_TC_CONHASH_KETAMAHASH k 0 iw) else ret tt) s =
    (Ok tt, set_ring bW (mkRing (last_proxys (get_ring bW s)) (hash_nodes (get_ring bW s) ++ nodes_of stack k iw)) s)).
  { destruct (Z.ltb_spec 0 iw).
    - unfold on_ring. by rewrite Ea.
    - assert (En : nodes_of stack k iw = []) by (apply nil_length_inv; lia). rewrite En, app_nil_r. unfold ret. f_equal.
      destruct s as [? ? ? ? ? ? ? ? ? ? ? [] [] ?]; by destruct bW. }
  rewrite (bind_Ok _ _ _ _ _ E1).
  match goal with |- context [resetWeightChanged p ?s1] => set (s1' := s1) end.
  destruct (resetWeightChanged_spec p s1') as (L & E2 & K2); [apply lookup_lt_Some in E; by destruct bW |].
  exists (set_adapters L s1'), iw. split; [exact E2 |]. split_and!; [| done | done |].
  - transitivity s1'; [by apply one_ring_set |]. by constructor; [apply keeps_evolves |..].
  - subst s1'. by destruct bW.
Qed.

Lemma add_all_spec bS bW kps : ∀ s, Forall (λ kp, host_of s kp.2 = Some kp.1 ∧ known kp.1) kps → (∀ q w, weight_of s q = Some w → w ≤ W) →
  ∃ s' Y, for_each (add_to_ring stack bS bW) kps s = (Ok tt, s') ∧ one_ring bW s s' ∧
    get_ring bW s' = mkRing (last_proxys (get_ring bW s)) (hash_nodes (get_ring bW s) ++ Y) ∧
    (∀ n, n ∈ Y → ConsistentHash.sNode n ∈ kps.*1 ∧ known_code n) ∧ zlen Y ≤ zlen kps * W.
Proof.
  induction kps as [|[k p] kps IH]; intros s Hkps Hw; cbn [for_each].
  { exists s, []. rewrite app_nil_r. split; [done |]. split; [done |]. split; [by destruct (get_ring bW s) |].
    split; [by intros n ?%not_elem_of_nil | cbn; lia]. }
  apply Forall_cons in Hkps as [[Hh Hk] Hkps]. cbn in Hh, Hk.
  destruct (add_to_ring_spec bS bW s k p Hh Hk Hw) as (s1 & iw & E1 & O1 & Hi0 & Hi4 & R1). rewrite (bind_Ok _ _ _ _ _ E1).
  pose proof (evolves_statics _ _ (or_evolves _ _ _ O1)) as Est.
  destruct (IH s1) as (s2 & Y & E2 & O2 & R2 & HY & Hl).
  { eapply Forall_impl; [exact Hkps |]. intros kp. by rewrite (host_of_statics s s1 _ Est). }
  { intros q w. rewrite (weight_of_statics s s1 q Est). apply Hw. }
  destruct (Hknown k Hk) as [Hok Hkl]. destruct (addNode_nodes stack Hstack k iw [] Hok Hkl Hi0) as (_ & Hn & Hname).
  exists s2, (nodes_of stack k iw ++ Y). split; [exact E2 |]. split; [by transitivity s1 |].
  split; [rewrite R2, R1; cbn; by rewrite (assoc_L app) |]. split.
  - intros n [Hin|Hin]%elem_of_app.
    + split; [rewrite (Hname n Hin); left |]. exists k, iw. split_and!; [done | lia | lia | done].
    + destruct (HY n Hin). by split; [right |].
  - rewrite length_app. cbn [length]. lia.
Qed.

Lemma update_ring_spec bS bW s : inv s → ∃ s', updateConHashProxyWeighted stack bS bW s = (Ok tt, s') ∧ one_ring bW s s' ∧ inv s' ∧
  ∀ n, n ∈ hash_nodes (get_ring bW s') → ConsistentHash.sNode n ∈ (_sortActivProxys s).*1.
Proof.
  intros Hs. unfold updateConHashProxyWeighted.
  set (s1 := set_ring bW (mkRing (last_proxys (get_ring bW s)) []) s).
  assert (E1 : on_ring bW ConsistentHash.clear s = (Ok tt, s1)) by done. rewrite (bind_Ok _ _ _ _ _ E1). clear E1.
  assert (O1 : one_ring bW s s1) by apply one_ring_set.
  assert (R1 : get_ring bW s1 = mkRing (last_proxys (get_ring bW s)) []) by apply get_set_ring.
  unfold bind at 1, get_st. rewrite (or_sort _ _ _ O1). case_bool_decide as Hne.
  - exists s1. split; [done |]. split; [done |]. rewrite R1. split; [|by intros n ?%not_elem_of_nil].
    apply (inv_one_ring bW s s1 Hs O1). rewrite R1. constructor; cbn; [constructor | by intros n ?%not_elem_of_nil.. | lia].
  - rewrite R1. cbn [hash_nodes]. set (s2 := set_ring bW (mkRing (_sortActivProxys s) []) s1).
    unfold bind at 1, put_st. fold s2. assert (O2 : one_ring bW s s2) by (transitivity s1; [done | apply one_ring_set]).
    assert (R2 : get_ring bW s2 = mkRing (_sortActivProxys s) []) by apply get_set_ring.
    pose proof (evolves_statics _ _ (or_evolves _ _ _ O2)) as Est.
    destruct (add_all_spec bS bW (_sortActivProxys s) s2) as (s3 & Y & E3 & O3 & R3 & HY & Hl).
    { pose proof (inv_index s Hs) as Hi. rewrite Forall_forall in *. intros x Hx. rewrite (host_of_statics s s2 _ Est).
      destruct (Hi x (inv_sort s Hs x Hx)) as (? & ? & _). done. }
    { intros q w. rewrite (weight_of_statics s s2 q Est). apply (inv_weights s Hs). }
    rewrite (bind_Ok _ _ _ _ _ E3). rewrite R2 in R3. cbn in R3. unfold on_ring, modify. rewrite R3. cbn [hash_nodes last_proxys].
    destruct (ring_sort_ok Y) as [Hperm Hsorted].
    eexists. split; [reflexivity |]. set (s4 := set_ring bW _ s3).
    assert (O4 : one_ring bW s s4) by (transitivity s2; [done | transitivity s3; [done | apply one_ring_set]]).
    assert (R4 : get_ring bW s4 = mkRing (_sortActivProxys s) (ring_sort Y)) by apply get_set_ring.
    split; [done |]. assert (Hnames : ∀ n, n ∈ ring_sort Y → ConsistentHash.sNode n ∈ (_sortActivProxys s).*1 ∧ known_code n).
    { intros n Hn. apply HY. by rewrite <- Hperm. }
    split; [|rewrite R4; intros n Hn; by apply Hnames]. apply (inv_one_ring bW s s4 Hs O4). rewrite R4.
    constructor; cbn [hash_nodes last_proxys]; [done | by intros n [? ?]%Hnames.. |].
    pose proof (sort_length s Hs). apply Permutation_length in Hperm. rewrite Hperm. nia.
Qed.

(** ** Choice by consistent hash *)

Lemma chosen_trans s s1 s' o : evolves s s1 → chosen s1 s' o → chosen s s' o.
Proof.
  intros Ev [Ev' Ho]. split; [by transitivity s1 |]. rewrite (evolves_active _ _ Ev), (evolves_vReg _ _ Ev) in Ho.
  destruct o as [p|]; [|done]. destruct Ho as [Hp Hu]. split; [done |]. intros q Hq Hc. apply (Hu q Hq). by apply (evolves_connected _ _ Ev).
Qed.

Lemma same_proxys_spec bS : ∀ ls sorted s, Forall (λ kp, ptr_ok s kp.2) sorted →
  ∃ r s' L, same_proxys bS ls sorted s = (Ok r, s') ∧ s' = set_adapters L s ∧ keeps s s' ∧
    (r = false → length ls = length sorted → ls.*1 = sorted.*1).
Proof.
  induction ls as [|[k v] ls IH]; intros [|[k' p] sorted] s Hok; cbn [same_proxys];
    try (exists false, s, (_vAllProxys s); split; [done |]; split; [by destruct s |]; split; [done |]; done).
  apply Forall_cons in Hok as [Hp Hok]. cbn in Hp. case_bool_decide as Hk; cbn [negb].
  2: { exists true, s, (_vAllProxys s). split; [done |]. split; [by destruct s |]. done. }
  subst k'. assert (E1 : ∃ c s1 L, (if bS then checkWeightChanged p else ret false) s = (Ok c, s1) ∧ s1 = set_adapters L s ∧ keeps s s1).
  { destruct bS; [|exists false, s, (_vAllProxys s); split; [done |]; split; [by destruct s | done]].
    destruct (checkWeightChanged_spec p s Hp) as (c & s1 & E1 & L & EL & K). by exists c, s1, L. }
  destruct E1 as (c & s1 & L & E1 & EL & K1). rewrite (bind_Ok _ _ _ _ _ E1). destruct c; [by exists true, s1, L |].
  destruct (IH sorted s1) as (r & s2 & L2 & E2 & EL2 & K2 & Hr).
  { eapply Forall_impl; [exact Hok |]. intros kp. by apply keeps_ptr. }
  exists r, s2, L2. split; [exact E2 |]. split; [by rewrite EL2, EL |]. split; [by transitivity s1 |].
  intros -> Hlen. cbn in *. f_equal. apply Hr; [done | lia].
Qed.

Lemma check_ring_spec bS bW s : inv s → ∃ r s', checkConHashChange bS bW s = (Ok r, s') ∧ inv s' ∧ evolves s s' ∧
  (r = false → (last_proxys (get_ring bW s')).*1 = (_sortActivProxys s').*1).
Proof.
  intros Hs. unfold checkConHashChange. unfold bind at 1, modify.
  match goal with |- context [(let* s := get_st in _) ?s1] => set (s1' := s1) end.
  assert (Hs1 : inv s1' ∧ evolves s s1').
  { subst s1'. destruct (negb _); [|done]. set (m := fold_left _ _ _). assert (Ev : evolves s (set_sorted m s)) by done. split; [|done].
    pose proof Hs as []. apply (inv_maps s (set_sorted m s) Hs Ev); auto.
    - cbn. intros x [?|?]%fold_assign_in; auto.
    - cbn. by apply fold_assign_nodup. }
  destruct Hs1 as [Hs1 Ev1]. unfold bind at 1, get_st. set (ls := last_proxys (get_ring bW s1')).
  destruct (Z.eqb_spec (zlen ls) (zlen (_sortActivProxys s1'))) as [El|Hne]; cbn [negb]; [|by exists true, s1'].
  destruct (same_proxys_spec bS ls (_sortActivProxys s1') s1') as (r & s2 & L & E2 & EL & K2 & Hr).
  { pose proof (inv_index s1' Hs1) as Hi. rewrite Forall_forall in *. intros x Hx. destruct (Hi x (inv_sort s1' Hs1 x Hx)) as (_ & _ & Ha).
    pose proof (inv_active s1' Hs1) as Hact. rewrite Forall_forall in Hact. auto. }
  exists r, s2. split; [exact E2 |]. split; [by apply (inv_keeps s1') |]. split; [transitivity s1'; [done | by apply keeps_evolves] |].
  intros ->. rewrite EL. change (get_ring bW (set_adapters L s1')) with (get_ring bW s1'). apply Hr; [done | lia].
Qed.

Section hash_code.
Context (hashCode : Z) (Hcode : ∀ n, known_code n → ConsistentHash.iHashCode n ≠ hashCode).

Lemma set_same_ring b s : set_ring b (mkRing (last_proxys (get_ring b s)) (hash_nodes (get_ring b s))) s = s.
Proof. destruct s as [? ? ? ? ? ? ? ? ? ? ? [] [] ?]. by destruct b. Qed.

Lemma node_name_spec b s : inv s → hash_nodes (get_ring b s) ≠ [] →
  ∃ n, node_name b hashCode s = (Ok (ConsistentHash.sNode n), s) ∧ n ∈ hash_nodes (get_ring b s).
Proof.
  intros Hs Hne. destruct (inv_rings s Hs b) as [Hsort Hnames Hcodes Hsize].
  destruct (ConsistentHash.successor_next hashCode _ Hsort Hne) as (n & En & Hn & _). exists n. split; [|done].
  unfold node_name, on_ring, ConsistentHash.getNodeName. unfold bind at 1.
  rewrite (bind_Ok _ _ _ _ _ (find_successor _ hashCode Hsort ltac:(lia) ltac:(apply Forall_forall; auto))), En. cbn [option_map].
  unfold ret. by rewrite set_same_ring.
Qed.

Lemma isActiveInReg_spec p s : ptr_ok s p → ∃ b, isActiveInReg p s = (Ok b, s).
Proof.
  intros [a E]%lookup_lt_is_Some_2. exists (_activeStateInReg a). unfold isActiveInReg. by rewrite (bind_Ok _ _ _ _ _ (get_adapter_ok _ _ _ E)).
Qed.

Lemma con_loop_spec bS bW fuel : ∀ s, inv s → (length (_sortActivProxys s) < fuel)%nat →
  (∀ n, n ∈ hash_nodes (get_ring bW s) → ConsistentHash.sNode n ∈ (_sortActivProxys s).*1) →
  ∃ o s', con_loop info now rand stack fuel hashCode bS bW s = (Ok o, s') ∧ inv s' ∧ chosen s s' o.
Proof.
  induction fuel as [|fuel IH]; intros s Hs Hf Hnames; [lia |]. cbn [con_loop]. unfold bind at 1, get_st.
  destruct (Z.ltb_spec 0 (ConsistentHash.size (hash_nodes (get_ring bW s)))) as [Hsz|_].
  2: { destruct (hash_normal_spec info now rand hashCode s (inv_lists_ok s ltac:(lia) Hs)) as (o & s' & E & K & Ho).
       exists o, s'. split; [exact E |]. split; [by apply (inv_keeps s) | done]. }
  assert (Hne : hash_nodes (get_ring bW s) ≠ []) by (intros En; by rewrite En in Hsz).
  destruct (node_name_spec bW s Hs Hne) as (n & En & Hn). rewrite (bind_Ok _ _ _ _ _ En).
  pose proof (Hnames n Hn) as Hkey. set (k := ConsistentHash.sNode n) in *.
  assert (Hki : k ∈ (_indexActiveProxys s).*1).
  { apply list_elem_of_fmap in Hkey as (x & -> & Hx). apply list_elem_of_fmap. exists x. split; [done |]. by apply (inv_sort s Hs). }
  destruct (find_key k (_indexActiveProxys s) Hki) as (p & Ep & Hin). rewrite Ep.
  pose proof (inv_index s Hs) as Hi. rewrite Forall_forall in Hi. destruct (Hi _ Hin) as (_ & _ & Hpa). cbn in Hpa.
  pose proof (inv_active s Hs) as Ha. rewrite Forall_forall in Ha. pose proof (Ha p Hpa) as Hp.
  destruct (isActiveInReg_spec p s Hp) as (b & Eb). rewrite (bind_Ok _ _ _ _ _ Eb).
  assert (E1 : ∃ ok s1, (if b then checkActive info now true p else ret false) s = (Ok ok, s1) ∧ keeps s s1 ∧ (ok = true → usable s1 p)).
  { destruct b; [|by exists false, s]. destruct (checkActive_spec info now true p s Hp) as (ok & s1 & E1 & K1 & Hu & _). by exists ok, s1. }
  destruct E1 as (ok & s1 & E1 & K1 & Hu). rewrite (bind_Ok _ _ _ _ _ E1). pose proof (inv_keeps s s1 K1 Hs) as Hs1.
  pose proof (keeps_evolves _ _ K1) as Ev1. destruct ok.
  { exists (Some p), s1. split; [done |]. split; [done |]. split; [done |]. split; [by left | auto]. }
  assert (Hmaps : _sortActivProxys s1 = _sortActivProxys s ∧ _indexActiveProxys s1 = _indexActiveProxys s).
  { destruct K1 as [Ec _]. unfold core in Ec. split; congruence. }
  destruct Hmaps as [Esort Eindex].
  destruct (isActiveInReg_spec p s1 (keeps_ptr _ _ _ K1 Hp)) as (b1 & Eb1). rewrite (bind_Ok _ _ _ _ _ Eb1).
  set (idx := if negb b1 then StrMap.erase k (_indexActiveProxys s1) else _indexActiveProxys s1).
  set (s2 := set_sorted (StrMap.erase k (_sortActivProxys s1)) (set_index idx s1)).
  assert (E2 : (if negb b1 then modify (E := Empty_set) (λ s, set_index (StrMap.erase k (_indexActiveProxys s)) s) else ret tt) s1 = (Ok tt, set_index idx s1)).
  { subst s2 idx. destruct b1; [|done]. cbn [negb]. by destruct s1. }
  rewrite (bind_Ok _ _ _ _ _ E2). unfold bind at 1, modify. change (set_sorted (StrMap.erase k (_sortActivProxys (set_index idx s1))) (set_index idx s1)) with s2.
  assert (Ev2 : evolves s1 s2) by done. assert (Hs2 : inv s2).
  { pose proof Hs1 as []. apply (inv_maps s1 s2 Hs1 Ev2); auto; cbn.
    - subst idx. destruct (negb b1); [|done]. by intros x [? _]%erase_in.
    - subst idx. destruct (negb b1); [by apply erase_nodup | done].
    - intros x [Hx Hxk]%erase_in. subst idx. destruct (negb b1); [|auto]. apply list_elem_of_filter. split; [done | auto].
    - by apply erase_nodup. }
  destruct (update_ring_spec bS bW s2 Hs2) as (s3 & E3 & O3 & Hs3 & Hn3). rewrite (bind_Ok _ _ _ _ _ E3).
  unfold bind at 1, get_st. pose proof (or_evolves _ _ _ O3) as Ev3.
  assert (Ev : evolves s s3) by (transitivity s1; [done |]; by transitivity s2).
  case_bool_decide as Hempty.
  { exists None, s3. split; [done |]. split; [done |]. split; [done |]. by right; right. }
  assert (Hshort : (length (_sortActivProxys s3) < length (_sortActivProxys s))%nat).
  { rewrite (or_sort _ _ _ O3). cbn. rewrite Esort. by apply erase_shorter. }
  destruct (IH s3 Hs3 ltac:(lia)) as (o & s4 & E4 & Hs4 & C4).
  { intros m Hm. rewrite (or_sort _ _ _ O3). by apply Hn3. }
  exists o, s4. split; [exact E4 |]. split; [done |]. by apply (chosen_trans s s3).
Qed.

Lemma con_hash_spec bS bW s : inv s → ∃ o s', con_hash info now rand stack hashCode bS bW s = (Ok o, s') ∧ inv s' ∧ chosen s s' o.
Proof.
  intros Hs. unfold con_hash. unfold bind at 1, get_st. case_bool_decide as Hv.
  { exists None, s. split; [done |]. split; [done |]. split; [done | by right; left]. }
  destruct (check_ring_spec bS bW s Hs) as (r & s1 & E1 & Hs1 & Ev1 & Hr). rewrite (bind_Ok _ _ _ _ _ E1).
  assert (E2 : ∃ s2, (if r then updateConHashProxyWeighted stack bS bW else ret tt) s1 = (Ok tt, s2) ∧ inv s2 ∧ evolves s1 s2 ∧
    ∀ n, n ∈ hash_nodes (get_ring bW s2) → ConsistentHash.sNode n ∈ (_sortActivProxys s2).*1).
  { destruct r.
    - destruct (update_ring_spec bS bW s1 Hs1) as (s2 & E2 & O2 & Hs2 & Hn). exists s2. split; [exact E2 |]. split; [done |].
      split; [apply (or_evolves _ _ _ O2) |]. intros n. rewrite (or_sort _ _ _ O2). apply Hn.
    - exists s1. split; [done |]. split; [done |]. split; [done |]. intros n Hn. rewrite <- Hr by done. by apply (inv_rings s1 Hs1 bW). }
  destruct E2 as (s2 & E2 & Hs2 & Ev2 & Hn2). rewrite (bind_Ok _ _ _ _ _ E2). unfold bind at 1, get_st.
  destruct (con_loop_spec bS bW (length (_sortActivProxys s2) + 2) s2 Hs2 ltac:(lia) Hn2) as (o & s3 & E3 & Hs3 & C3).
  exists o, s3. split; [exact E3 |]. split; [done |]. apply (chosen_trans s s2); [by transitivity s1 | done].
Qed.
End hash_code.

(** ** Choice by hash and weight *)

Lemma static_changed_spec : ∀ ls reg s, Forall (ptr_ok s) ls → Forall (ptr_ok s) reg →
  ∃ r s', static_changed ls reg s = (Ok r, s') ∧ keeps s s'.
Proof.
  induction ls as [|p ls IH]; intros [|q reg] s Hl Hr; cbn [static_changed]; try (by exists false, s).
  apply Forall_cons in Hl as [[a Ea]%lookup_lt_is_Some_2 Hl], Hr as [Hq Hr]. destruct (lookup_lt_is_Some_2 _ _ Hq) as [b Eb].
  rewrite (bind_Ok _ _ _ _ _ (get_adapter_ok _ _ _ Ea)), (bind_Ok _ _ _ _ _ (get_adapter_ok _ _ _ Eb)).
  destruct (negb _); [by exists true, s |].
  destruct (checkWeightChanged_spec q s Hq) as (c & s1 & E1 & L & _ & K1). rewrite (bind_Ok _ _ _ _ _ E1). destruct c; [by exists true, s1 |].
  destruct (IH reg s1) as (r & s2 & E2 & K2); [eapply Forall_impl; [done |]; intros x; by apply keeps_ptr.. |].
  exists r, s2. split; [exact E2 | by transitivity s1].
Qed.

Lemma getWeight_spec p s a : _vAllProxys s !! p = Some a → getWeight p s = (Ok (_staticWeight a), s).
Proof. intros E. unfold getWeight. by rewrite (bind_Ok _ _ _ _ _ (get_adapter_ok _ _ _ E)). Qed.

Lemma positive_weights_spec : ∀ reg i s, Forall (ptr_ok s) reg → (∀ q w, weight_of s q = Some w → w ≤ W) →
  ∃ iw s', positive_weights i reg s = (Ok iw, s') ∧ keeps s s' ∧ NoDup iw.*1 ∧ (length iw ≤ length reg)%nat ∧
    Forall (λ x, (i ≤ x.1)%nat ∧ 0 < x.2 ≤ W) iw.
Proof.
  induction reg as [|p reg IH]; intros i s Hr Hw; cbn [positive_weights].
  { exists [], s. split; [done |]. split; [done |]. split; [constructor | done]. }
  apply Forall_cons in Hr as [Hp Hr]. destruct (lookup_lt_is_Some_2 _ _ Hp) as [a Ea].
  rewrite (bind_Ok _ _ _ _ _ (getWeight_spec p s a Ea)). destruct (resetWeightChanged_spec p s Hp) as (L & E1 & K1).
  rewrite (bind_Ok _ _ _ _ _ E1). set (s1 := set_adapters L s) in *.
  destruct (IH (S i) s1) as (iw & s2 & E2 & K2 & Hnd & Hlen & Hall).
  { eapply Forall_impl; [exact Hr |]. intros x. by apply keeps_ptr. }
  { intros q w. rewrite (weight_of_statics s s1 q (evolves_statics _ _ (keeps_evolves _ _ K1))). apply Hw. }
  rewrite (bind_Ok _ _ _ _ _ E2). eexists _, s2. split; [reflexivity |]. split; [by transitivity s1 |].
  assert (Hall' : Forall (λ x, (i ≤ x.1)%nat ∧ 0 < x.2 ≤ W) iw) by (eapply Forall_impl; [exact Hall |]; cbn; intros ? ?; lia).
  destruct (Z.ltb_spec 0 (_staticWeight a)); [|split_and!; [done | cbn; lia | done]].
  split_and!; [|cbn; lia | constructor; [|done]].
  - cbn. constructor; [|done]. intros (x & -> & Hx)%list_elem_of_fmap. rewrite Forall_forall in Hall. specialize (Hall x Hx). cbn in Hall. lia.
  - cbn. split; [lia |]. split; [lia |]. apply (Hw p). unfold weight_of. by rewrite Ea.
Qed.

Lemma inv_set_hashed s cache ls : inv s → Forall (ptr_ok s) ls → inv (set_hashed cache ls s) ∧ evolves s (set_hashed cache ls s).
Proof. intros Hs Hl. split; [|done]. pose proof Hs as []. by apply (inv_maps s (set_hashed cache ls s) Hs). Qed.

Lemma update_hash_spec s : inv s → ∃ s', updateHashProxyWeighted true s = (Ok tt, s') ∧ inv s' ∧ evolves s s'.
Proof.
  intros Hs. unfold updateHashProxyWeighted. unfold bind at 1, get_st. destruct (Z.leb_spec (zlen (_vRegProxys s)) 0); [by exists s |].
  unfold bind at 1, modify. destruct (inv_set_hashed s [] (_vRegProxys s) Hs (inv_vReg s Hs)) as [Hs1 Ev1].
  set (s1 := set_hashed [] (_vRegProxys s) s) in *.
  destruct (positive_weights_spec (_vRegProxys s) 0 s1 (inv_vReg s1 Hs1) (inv_weights s1 Hs1)) as (iw & s2 & E2 & K2 & _).
  rewrite (bind_Ok _ _ _ _ _ E2). pose proof (inv_keeps s1 s2 K2 Hs1) as Hs2.
  assert (Ev2 : evolves s s2) by (transitivity s1; [done | by apply keeps_evolves]).
  destruct (zlen iw <=? 0); [by exists s2 |].
  eexists. split; [reflexivity |].
  destruct (inv_set_hashed s2 (_hashStaticRouterCache s2 ++ Router.build iw.*1 iw.*2) (_lastHashStaticProxys s2) Hs2 (inv_lastHash s2 Hs2)) as [Hs3 Ev3].
  split; [done | by transitivity s2].
Qed.

Lemma hash_weight_spec hashCode s : inv s → ∃ o s', getHashProxyForWeight info now rand hashCode true s = (Ok o, s') ∧ inv s' ∧ chosen s s' o.
Proof.
  intros Hs. unfold getHashProxyForWeight. unfold bind at 1, get_st. case_bool_decide as Hv.
  { exists None, s. split; [done |]. split; [done |]. split; [done | by right; left]. }
  assert (E1 : ∃ r s1, checkHashStaticWeightChange true s = (Ok r, s1) ∧ keeps s s1).
  { unfold checkHashStaticWeightChange. unfold bind at 1, get_st. destruct (negb _); [by exists true, s |].
    apply static_changed_spec; [apply (inv_lastHash s Hs) | apply (inv_vReg s Hs)]. }
  destruct E1 as (r & s1 & E1 & K1). rewrite (bind_Ok _ _ _ _ _ E1). pose proof (inv_keeps s s1 K1 Hs) as Hs1.
  assert (E2 : ∃ s2, (if r then updateHashProxyWeighted true else ret tt) s1 = (Ok tt, s2) ∧ inv s2 ∧ evolves s1 s2).
  { destruct r; [by apply update_hash_spec | by exists s1]. }
  destruct E2 as (s2 & E2 & Hs2 & Ev2). rewrite (bind_Ok _ _ _ _ _ E2). unfold bind at 1, get_st.
  assert (Ev : evolves s s2) by (transitivity s1; [by apply keeps_evolves | done]).
  assert (Hv2 : _vRegProxys s2 ≠ []) by (by rewrite (evolves_vReg _ _ Ev)).
  pose proof (inv_lists_ok s2 ltac:(lia) Hs2) as Hls.
  assert (Hfin : ∀ o s3, keeps s2 s3 → chosen s2 s3 o → inv s3 ∧ chosen s s3 o).
  { intros o s3 K3 C3. split; [by apply (inv_keeps s2) | by apply (chosen_trans s s2)]. }
  destruct (Z.ltb_spec 0 (zlen (_hashStaticRouterCache s2))) as [Hc|_].
  - pose proof (Z.mod_pos_bound hashCode _ Hc) as Hm. rewrite (proj2 (Z.leb_gt _ _)) by lia.
    destruct (vec_at_ok (_hashStaticRouterCache s2) (hashCode mod zlen (_hashStaticRouterCache s2)) s2 Hm) as (i & Ei & _).
    rewrite (bind_Ok _ _ _ _ _ Ei). assert (Hn : 0 < zlen (_vRegProxys s2)) by (destruct (_vRegProxys s2); [done | cbn; lia]).
    destruct (vec_at_ok (_vRegProxys s2) (if zlen (_vRegProxys s2) <=? Z.of_nat i then Z.of_nat i mod zlen (_vRegProxys s2) else Z.of_nat i) s2) as (p & Ep & Hp).
    { destruct (Z.leb_spec (zlen (_vRegProxys s2)) (Z.of_nat i)); [by apply Z.mod_pos_bound | lia]. }
    rewrite (bind_Ok _ _ _ _ _ Ep).
    destruct (hash_or_rehash_spec info now rand hashCode p s2 Hls) as (o & s3 & E3 & K3 & C3); [by eapply list_elem_of_lookup_2 |].
    exists o, s3. split; [exact E3 |]. by apply Hfin.
  - destruct (hash_normal_spec info now rand hashCode s2 Hls) as (o & s3 & E3 & K3 & C3). exists o, s3. split; [exact E3 |]. by apply Hfin.
Qed.

(** ** Choice by weight *)

Lemma weights_of_spec : ∀ ps s, Forall (ptr_ok s) ps →
  ∃ ws, weights_of ps s = (Ok ws, s) ∧ Forall2 (λ p w, weight_of s p = Some w) ps ws.
Proof.
  induction ps as [|p ps IH]; intros s Hps; cbn [weights_of]; [exists []; by split |].
  apply Forall_cons in Hps as [[a Ea]%lookup_lt_is_Some_2 Hps]. destruct (IH s Hps) as (ws & E & Hws).
  exists (_staticWeight a :: ws). rewrite (bind_Ok _ _ _ _ _ (getWeight_spec p s a Ea)), (bind_Ok _ _ _ _ _ E).
  split; [done |]. constructor; [unfold weight_of; by rewrite Ea | done].
Qed.

(** Only the members for weighted calls are different. *)
Lemma inv_set_weighted s w : inv s → (∀ i, i ∈ _staticRouterCache w ↔ (i < length (_activeWeightProxy w))%nat) →
  zlen (_staticRouterCache w) < 2 ^ 32 →
  Forall (ptr_ok s) (_activeWeightProxy w) → inv (set_weighted w s).
Proof. intros [] Ht Hl Hw. by constructor. Qed.
Lemma evolves_set_weighted s w : evolves s (set_weighted w s).
Proof. done. Qed.

(** The table for adapters of positive weight. *)
Lemma dispatch_inv s aw ws u : inv s → Forall (ptr_ok s) aw → zlen aw ≤ N → length aw = length ws → Forall (λ w, 0 < w ≤ W) ws → aw ≠ [] →
  let w := weight_state s in
  inv (set_weighted (mkWeighted u (_first w) (_lastBuildWeightTime w) 0 (Router.build (seq 0 (length ws)) ws) aw) s).
Proof.
  intros Hs Haw Hn Hlen Hws Hne.
  assert (Hnd : NoDup (seq 0 (length ws))) by apply NoDup_seq. assert (Hls : length (seq 0 (length ws)) = length ws) by apply length_seq.
  assert (Hne' : ws ≠ []) by (intros ->; by destruct aw). assert (Hw' : Forall (λ w, 0 < w < 2 ^ 31) ws) by (eapply Forall_impl; [exact Hws | cbn; lia]).
  apply inv_set_weighted; [done | | | done]; cbn [_staticRouterCache _activeWeightProxy].
  2: { pose proof (build_length _ _ Hnd Hls Hne' Hw' ltac:(lia)). lia. }
  intros i. split.
  - intros Hi. apply (build_range _ _ Hnd Hls Hne' Hw') in Hi; [|lia]. apply elem_of_seq in Hi. lia.
  - intros Hi. apply (build_complete _ _ Hnd Hls Hne' Hw'); [lia |]. apply elem_of_seq. lia.
Qed.

(** The active adapters of positive weight, with their weights. *)
Definition weighted_of s : list (nat * Z) :=
  omap (λ p, weight_of s p ≫= λ w, if decide (0 < w) then Some (p, w) else None) (_activeProxys s).

Lemma weighted_of_in s p w : (p, w) ∈ weighted_of s → p ∈ _activeProxys s ∧ 0 < w ∧ weight_of s p = Some w.
Proof.
  intros (q & Hq & E)%list_elem_of_omap. destruct (weight_of s q) as [w'|] eqn:Ew; [|done]. cbn in E. case_decide; [|done].
  by injection E as -> ->.
Qed.
Lemma weighted_of_length s : (length (weighted_of s) ≤ length (_activeProxys s))%nat.
Proof. unfold weighted_of. induction (_activeProxys s) as [|p l IH]; [done |]. cbn. destruct (_ ≫= _); [by apply le_n_S | by apply le_S]. Qed.

Lemma weighted_filter s ps ws : Forall2 (λ p w, weight_of s p = Some w) ps ws →
  filter (λ pw : nat * Z, 0 < pw.2) (zip ps ws) = omap (λ p, weight_of s p ≫= λ w, if decide (0 < w) then Some (p, w) else None) ps.
Proof.
  induction 1 as [|p w ps ws E _ IH]; [done |]. cbn [zip zip_with omap list_omap]. rewrite E. cbn [mbind option_bind]. rewrite filter_cons.
  cbn [snd]. case_decide; [|done]. by rewrite IH.
Qed.
Lemma weights_of_weighted s s1 : (∀ p, weight_of s1 p = weight_of s p) → inv s → Forall (ptr_ok s1) (weighted_of s).*1 →
  weights_of (weighted_of s).*1 s1 = (Ok (weighted_of s).*2, s1).
Proof.
  intros Hw Hs Hp. destruct (weights_of_spec _ s1 Hp) as (ws & E & Hws). rewrite E. do 2 f_equal.
  assert (Hin : ∀ p w, (p, w) ∈ weighted_of s → weight_of s1 p = Some w) by (intros p w Hpw; rewrite Hw; by apply weighted_of_in).
  clear E Hp. revert ws Hws Hin. induction (weighted_of s) as [|[p w] l IH]; intros ws Hws Hin; cbn in Hws.
  - by apply Forall2_nil_inv_l in Hws as ->.
  - apply Forall2_cons_inv_l in Hws as (w' & ws' & E & Hws & ->). rewrite (Hin p w) in E by left. injection E as ->. cbn. f_equal.
    apply IH; [done |]. intros q v Hq. apply Hin. by right.
Qed.

(** What [updateProxyWeighted] does. *)
Lemma update_weights_run s : inv s → updateProxyWeighted s = (Ok tt,
  if bool_decide (weighted_of s = []) then s else
  let w := weight_state s in
  set_weighted (if _update w
    then mkWeighted false (_first w) (_lastBuildWeightTime w) 0 (Router.build (seq 0 (length (weighted_of s))) (weighted_of s).*2) (weighted_of s).*1
    else mkWeighted false (_first w) (_lastBuildWeightTime w) (_lastSWeightPosition w) (_staticRouterCache w) (_activeWeightProxy w)) s).
Proof.
  intros Hs. unfold updateProxyWeighted. unfold bind at 1, get_st. pose proof (weighted_of_length s) as Hlen.
  destruct (Z.leb_spec (zlen (_activeProxys s)) 0).
  { rewrite bool_decide_true; [done |]. apply nil_length_inv. lia. }
  destruct (weights_of_spec (_activeProxys s) s (inv_active s Hs)) as (ws & E & Hws). rewrite (bind_Ok _ _ _ _ _ E). cbv zeta.
  rewrite (weighted_filter s _ _ Hws). fold (weighted_of s). rewrite length_fmap.
  destruct (Z.leb_spec (zlen (weighted_of s)) 0) as [Hv|Hv].
  { rewrite bool_decide_true; [done |]. apply nil_length_inv. lia. }
  rewrite bool_decide_false by (intros En; rewrite En in Hv; done).
  destruct (_update (weight_state s)); [|reflexivity].
  set (s1' := set_weighted (mkWeighted true (_first (weight_state s)) (_lastBuildWeightTime (weight_state s))
    (_lastSWeightPosition (weight_state s)) (_staticRouterCache (weight_state s)) (weighted_of s).*1) s).
  assert (Ew : weights_of (weighted_of s).*1 s1' = (Ok (weighted_of s).*2, s1')).
  { apply weights_of_weighted; [done | done |]. apply Forall_forall. intros p ([q w] & -> & Hq)%list_elem_of_fmap.
    pose proof (inv_active s Hs) as Ha. rewrite Forall_forall in Ha. apply Ha. by apply weighted_of_in in Hq as [? _]. }
  assert (Eu : updateStaticWeighted s1' = dispatchEndpointCache (weighted_of s).*2 s1').
  { unfold updateStaticWeighted. unfold bind at 1, get_st. change (_activeWeightProxy (weight_state s1')) with (weighted_of s).*1. by rewrite (bind_Ok _ _ _ _ _ Ew). }
  change (updateStaticWeighted s1') with ((set_table (_lastSWeightPosition (weight_state s))
    (_staticRouterCache (weight_state s)) (weighted_of s).*1 true ;;; updateStaticWeighted) s) in Eu.
  unfold dispatchEndpointCache in Eu. rewrite length_fmap, (proj2 (Z.leb_gt _ _)) in Eu by lia. by rewrite (bind_Ok _ _ _ _ _ Eu).
Qed.

Lemma update_weights_spec s : inv s → ∃ s', updateProxyWeighted s = (Ok tt, s') ∧ inv s' ∧ evolves s s'.
Proof.
  intros Hs. rewrite (update_weights_run s Hs). eexists. split; [reflexivity |]. case_bool_decide as Hne; [done |]. cbv zeta.
  split; [|done]. destruct (_update (weight_state s)).
  - rewrite <- (length_fmap snd (weighted_of s)). pose proof (weighted_of_length s). pose proof (inv_len s Hs).
    apply (dispatch_inv s (weighted_of s).*1 (weighted_of s).*2 false); [done | | rewrite length_fmap; lia | by rewrite !length_fmap | | by intros En%fmap_nil_inv].
    + apply Forall_forall. intros p ([q w] & -> & Hq)%list_elem_of_fmap. pose proof (inv_active s Hs) as Ha. rewrite Forall_forall in Ha.
      apply Ha. by apply weighted_of_in in Hq as [? _].
    + apply Forall_forall. intros v ([q w] & -> & Hq)%list_elem_of_fmap. apply weighted_of_in in Hq as (_ & Hpos & Hq).
      split; [done | by apply (inv_weights s Hs q)].
  - apply inv_set_weighted; [done | apply (inv_table s Hs) | apply (inv_table_len s Hs) | apply (inv_weighted s Hs)].
Qed.

Lemma rebuild_spec s : inv s → ∃ s', rebuild_weights now s = (Ok tt, s') ∧ inv s' ∧ evolves s s'.
Proof.
  intros Hs. unfold rebuild_weights. unfold bind at 1, get_st. destruct (_ <=? now); [|by exists s].
  destruct (update_weights_spec s Hs) as (s1 & E1 & Hs1 & Ev1). rewrite (bind_Ok _ _ _ _ _ E1). unfold modify. cbv zeta.
  eexists. split; [reflexivity |]. split; [|by transitivity s1]. apply inv_set_weighted; [done | apply (inv_table s1 Hs1) | apply (inv_table_len s1 Hs1) | apply (inv_weighted s1 Hs1)].
Qed.

(** The adapters of the table. *)
Definition table_ptrs s : list nat := omap (λ i, _activeWeightProxy (weight_state s) !! i) (_staticRouterCache (weight_state s)).

Lemma table_ptrs_lookup s i j p : inv s → _staticRouterCache (weight_state s) !! i = Some j →
  _activeWeightProxy (weight_state s) !! j = Some p → table_ptrs s !! i = Some p.
Proof.
  intros Hs Hi Hp. unfold table_ptrs.
  assert (Hall : ∀ l : list nat, (∀ k, k ∈ l → is_Some (_activeWeightProxy (weight_state s) !! k)) →
    ∀ i : nat, omap (λ k, _activeWeightProxy (weight_state s) !! k) l !! i = l !! i ≫= λ k, _activeWeightProxy (weight_state s) !! k).
  { induction l as [|k l IH]; intros Hl n; [by destruct n |]. destruct (Hl k (list_elem_of_here _ _)) as [q Hq]. cbn. rewrite Hq.
    destruct n as [|n]; [done |]. cbn. apply IH. intros k' Hk'. apply Hl. by right. }
  rewrite Hall, Hi; [done |]. intros k Hk. by apply lookup_lt_is_Some, (inv_table s Hs).
Qed.
Lemma table_ptrs_length s : inv s → length (table_ptrs s) = length (_staticRouterCache (weight_state s)).
Proof.
  intros Hs. unfold table_ptrs. assert (Hl : ∀ k, k ∈ _staticRouterCache (weight_state s) → is_Some (_activeWeightProxy (weight_state s) !! k)).
  { intros k Hk. by apply lookup_lt_is_Some, (inv_table s Hs). }
  induction (_staticRouterCache (weight_state s)) as [|k l IH]; [done |]. cbn. destruct (Hl k (list_elem_of_here _ _)) as [q ->]. cbn.
  f_equal. apply IH. intros k' Hk'. apply Hl. by right.
Qed.
Lemma table_ptrs_in s p : inv s → p ∈ table_ptrs s ↔ p ∈ _activeWeightProxy (weight_state s).
Proof.
  intros Hs. unfold table_ptrs. rewrite list_elem_of_omap. split.
  - intros (i & _ & Hi). by eapply list_elem_of_lookup_2.
  - intros [i Hi]%list_elem_of_lookup. exists i. split; [|done]. apply (inv_table s Hs). by eapply lookup_lt_Some.
Qed.
End inv.
