(* ===== verification/EndpointTheorems.v ===== *)
(** [EndpointManager]: calls by weight, updates of the endpoints, and the properties. *)
From stdpp Require Import prelude gmap list sorting.
From Stdlib Require Import ZArith Lia.
From S2P Require Import Prelude Bytes TarsInput AdapterProxy Md5 ConsistentHash EndpointManager EndpointQuery EndpointWeights EndpointInv EndpointState.
Import EndpointManager.

Section manager.
Context {X B : Type} `{Transceiver X B} `{ConnTimeout X} `{RingSort}.
Context (info : CheckTimeoutInfo) (now : Z) (rand : nat → Z) (addr : nat → Z) (stack : MD5.MD5_CTX).
Context (known : list Z → Prop) (N W : Z).
Context (Hstack : length (MD5.buffer stack) = 64%nat) (Hknown : ∀ h, known h → bytes_ok h ∧ zlen h + 11 < 2 ^ 32).
Context (HN : 0 ≤ N ≤ 100000) (HW : 100 ≤ W < 2 ^ 31) (HNW : N * W < 2 ^ 31).
Implicit Types s : t X.
Abbreviation inv := (inv stack known N W).

(** ** Calls by weight *)

Lemma table_loop_spec i : ∀ conn s, inv s → _staticRouterCache (weight_state s) ≠ [] →
  ∃ r s', table_loop info now addr i conn s = (Ok r, s') ∧
    scanned s s' (at_list (table_ptrs s) (upcoming (zlen (_staticRouterCache (weight_state s))) (_lastSWeightPosition (weight_state s)) i)) conn r.
Proof.
  induction i as [|i IH]; intros conn s Hs Hne; cbn [table_loop upcoming].
  { exists (inr conn), s. split; [done |]. split; [done |]. split; [by intros q Hq%not_elem_of_nil | by left]. }
  set (n := zlen (_staticRouterCache (weight_state s))). assert (Hn : 0 < n).
  { assert (n ≠ 0) by (intros En; apply Hne, nil_length_inv; lia). lia. }
  set (pos := next_pos n (_lastSWeightPosition (weight_state s))). pose proof (next_pos_range n (_lastSWeightPosition (weight_state s)) Hn) as Hpos.
  fold pos in Hpos. unfold bind at 1, modify. cbv zeta. unfold bind at 1, get_st.
  match goal with |- context [bind (vec_at _ _) _ ?s1] => set (s1' := s1) end.
  assert (K1 : keeps s s1') by done.
  change (_staticRouterCache (weight_state s1')) with (_staticRouterCache (weight_state s)).
  change (_activeWeightProxy (weight_state s1')) with (_activeWeightProxy (weight_state s)).
  change (_lastSWeightPosition (weight_state s1')) with pos.
  destruct (vec_at_ok (_staticRouterCache (weight_state s)) pos s1' Hpos) as (j & Ej & Hj). rewrite (bind_Ok _ _ _ _ _ Ej).
  assert (Hjr : (j < length (_activeWeightProxy (weight_state s)))%nat) by (apply (inv_table _ _ _ _ s Hs); by eapply list_elem_of_lookup_2).
  destruct (vec_at_ok (_activeWeightProxy (weight_state s)) (Z.of_nat j) s1' ltac:(lia)) as (p & Ep & Hp). rewrite Nat2Z.id in Hp.
  rewrite (bind_Ok _ _ _ _ _ Ep).
  pose proof (table_ptrs_lookup stack known N W s _ j p Hs Hj Hp) as Hptr.
  assert (Hpok : ptr_ok s1' p).
  { pose proof (inv_weighted _ _ _ _ s Hs) as Hw. rewrite Forall_forall in Hw. apply Hw. by eapply list_elem_of_lookup_2. }
  destruct (try_spec info now false (set_push addr) p conn s1' Hpok) as (r & s2 & E2 & K2 & Hr & Hp2). rewrite (bind_Ok _ _ _ _ _ E2).
  assert (Eat : ∀ ks, at_list (table_ptrs s) (pos :: ks) = p :: at_list (table_ptrs s) ks).
  { intros ks. unfold at_list. cbn [omap list_omap]. by rewrite Hptr. }
  rewrite Eat. assert (K : keeps s s2) by (by transitivity s1'). destruct r as [conn1|].
  - pose proof (inv_keeps stack known N W s s2 K Hs) as Hs2. destruct (keeps_cache s s2 K) as [Ec Ea].
    destruct (IH conn1 s2 Hs2) as (r & s3 & E3 & S3); [by rewrite Ec |].
    assert (Et : table_ptrs s2 = table_ptrs s) by (unfold table_ptrs; by rewrite Ec, Ea).
    assert (Epos : _lastSWeightPosition (weight_state s2) = pos) by (injection Hp2 as _ E; exact E).
    rewrite Et, Ec, Epos in S3. exists r, s3. split; [exact E3 |]. destruct Hr as [Hnc Hconn].
    apply (scanned_cons s s2 s3 p _ conn conn1 (set_push addr) r); [apply set_push_pushes | done | exact Hnc | exact Hconn | exact S3].
  - exists (inl p), s2. split; [done |]. split; [done |]. split; [left | done].
Qed.

(** What a choice by weight returns: one of the weighted adapters, or an active one if
    no table could be made. *)
Definition weighed s s' (o : option nat) : Prop :=
  evolves s s' ∧
  match o with
  | None => _activeProxys s = []
  | Some p => ∃ l, (l = _activeWeightProxy (weight_state s') ∨ l = _activeProxys s) ∧ p ∈ l ∧
      ∀ q, q ∈ l → connected s q → usable s' p
  end.

Lemma weighted_spec b s : inv s → zlen (_activeProxys s) < 2 ^ 32 →
  ∃ o s', getWeightedProxy info now rand addr b s = (Ok o, s') ∧ inv s' ∧ weighed s s' o.
Proof.
  intros Hs Hlen. unfold getWeightedProxy, getWeightedForNormal. unfold bind at 1, get_st. case_bool_decide as Hne.
  { exists None, s. by split. }
  destruct (rebuild_spec now stack known N W Hstack HN HW s Hs) as (s1 & E1 & Hs1 & Ev1).
  rewrite (bind_Ok _ _ _ _ _ E1). unfold bind at 1, get_st.
  pose proof (inv_lists_ok stack known N W s1 ltac:(lia) Hs1) as Hls.
  assert (Hne1 : _activeProxys s1 ≠ []) by (by rewrite (evolves_active _ _ Ev1)).
  assert (Hfin : ∀ l p s2, (l = _activeWeightProxy (weight_state s1) ∨ l = _activeProxys s1) → found s1 s2 l p → inv s2 ∧ weighed s s2 (Some p)).
  { intros l p s2 Hl [K2 Hin Hu]. split; [by apply (inv_keeps stack known N W s1) |].
    split; [transitivity s1; [done | by apply keeps_evolves] |]. exists l. split.
    - destruct (keeps_cache s1 s2 K2) as [_ ->]. by rewrite <- (evolves_active _ _ Ev1).
    - split; [done |]. intros q Hq Hc. apply (Hu q Hq). by apply (evolves_connected _ _ Ev1). }
  destruct ((0 <? zlen (_activeWeightProxy (weight_state s1))) && (0 <? zlen (_staticRouterCache (weight_state s1)))) eqn:Et.
  - apply andb_true_iff in Et as [Ha Ht]. apply Z.ltb_lt in Ha, Ht.
    destruct (table_loop_spec (length (_staticRouterCache (weight_state s1))) [] s1 Hs1) as (r & s2 & E2 & S2); [by intros En; rewrite En in Ht |].
    destruct (scan_end info now rand s1 s2 _ (_activeWeightProxy (weight_state s1)) r (random_of rand) S2) as (p & s3 & E3 & F3).
    + intros q. rewrite <- (table_ptrs_in stack known N W s1 q Hs1). split; [|apply at_list_in]. intros Hq.
      rewrite <- (table_ptrs_length stack known N W s1 Hs1). apply turn_covers; [by intros En; rewrite En in Hq; apply not_elem_of_nil in Hq | | done].
      rewrite (table_ptrs_length stack known N W s1 Hs1). pose proof (inv_table_len _ _ _ _ s1 Hs1). lia.
    + intros En. by rewrite En in Ha.
    + apply (inv_weighted _ _ _ _ s1 Hs1).
    + intros conn Hc. by apply random_spec.
    + exists (Some p), s3. split; [|by apply (Hfin (_activeWeightProxy (weight_state s1))); [left |]].
      rewrite bind_assoc, (bind_Ok _ _ _ _ _ E2). by rewrite (bind_Ok _ _ _ _ _ E3).
  - destruct (next_valid_spec info now rand s1 Hne1 Hls) as (p & s2 & E2 & F2). rewrite (bind_Ok _ _ _ _ _ E2).
    exists (Some p), s2. split; [done |]. by apply (Hfin (_activeProxys s1)); [right |].
Qed.

(** ** Updates *)

Context (new_trans : EndpointInfo → X) (garbage : uninitialized).

(** The adapters after some were made and others given a weight. *)
Record adapters_ok s (L : list (adapter X)) : Prop := {
  ao_host p : ptr_ok s p → a_host <$> L !! p = host_of s p;
  ao_length : (length (_vAllProxys s) ≤ length L)%nat;
  ao_hosts p h : a_host <$> L !! p = Some h → known h;
  ao_weights p w : _staticWeight <$> L !! p = Some w → w ≤ W
}.

Lemma adapters_same s : inv s → adapters_ok s (_vAllProxys s).
Proof. intros Hs. constructor; [done | lia | apply (inv_hosts _ _ _ _ s Hs) | apply (inv_weights _ _ _ _ s Hs)]. Qed.

Lemma adapters_set s p a a' : inv s → _vAllProxys s !! p = Some a → a_host a' = a_host a → _staticWeight a' ≤ W →
  adapters_ok s (<[p := a']> (_vAllProxys s)).
Proof.
  intros Hs E Eh Hw. pose proof (lookup_lt_Some _ _ _ E) as Hlt.
  assert (Hh : ∀ q, a_host <$> <[p := a']> (_vAllProxys s) !! q = host_of s q).
  { intros q. unfold host_of. destruct (decide (p = q)) as [<-|Hne]; [|by rewrite list_lookup_insert_ne].
    rewrite list_lookup_insert_eq, E by done. cbn. by rewrite Eh. }
  constructor.
  - auto.
  - by rewrite length_insert.
  - intros q h. rewrite Hh. apply (inv_hosts _ _ _ _ s Hs).
  - intros q w. destruct (decide (p = q)) as [<-|Hne].
    + rewrite list_lookup_insert_eq by done. cbn. by intros [= <-].
    + rewrite list_lookup_insert_ne by done. apply (inv_weights _ _ _ _ s Hs).
Qed.

Lemma adapters_new s a : inv s → known (a_host a) → _staticWeight a ≤ W → adapters_ok s (_vAllProxys s ++ [a]).
Proof.
  intros Hs Hk Hw. constructor.
  - intros p Hp. unfold host_of. by rewrite lookup_app_l by exact Hp.
  - rewrite length_app. lia.
  - intros p h Hp. destruct (decide (p < length (_vAllProxys s))%nat) as [Hl|Hl].
    + rewrite lookup_app_l in Hp by done. by apply (inv_hosts _ _ _ _ s Hs p).
    + rewrite lookup_app_r in Hp by lia. destruct (p - length (_vAllProxys s))%nat as [|[]]; cbn in Hp; [by injection Hp as <- | done..].
  - intros p w Hp. destruct (decide (p < length (_vAllProxys s))%nat) as [Hl|Hl].
    + rewrite lookup_app_l in Hp by done. by apply (inv_weights _ _ _ _ s Hs p).
    + rewrite lookup_app_r in Hp by lia. destruct (p - length (_vAllProxys s))%nat as [|[]]; cbn in Hp; [by injection Hp as <- | done..].
Qed.

(** The invariant while the lists are made anew: as many endpoints as [k] may follow. *)
Record updating (k : Z) s : Prop := {
  up_inv : inv s;
  up_maps : _sortActivProxys s = _indexActiveProxys s;
  up_reg : Forall (λ kp, ptr_ok s kp.2) (_regProxys s);
  up_len : zlen (_activeProxys s) + k ≤ N;
  up_pos : 0 ≤ k
}.

Lemma updating_set k k' s L all active sorted maps reg : updating k s → adapters_ok s L → sorted = maps →
  Forall (λ kp : list Z * nat, (kp.2 < length L)%nat) all → Forall (λ p, (p < length L)%nat) active → 0 ≤ k' → zlen active + k' ≤ N →
  Forall (λ kp : list Z * nat, a_host <$> L !! kp.2 = Some kp.1 ∧ kp.2 ∈ active) maps → NoDup maps.*1 →
  Forall (λ kp : list Z * nat, (kp.2 < length L)%nat) reg →
  updating k' (set_lists all active sorted maps reg (set_adapters L s)).
Proof.
  intros [Hs Em Hr Hk Hpos] [Ah Al Aho Aw] -> Hall Hact Hk' Hlen Hmaps Hnd Hreg. pose proof Hs as [].
  assert (Hp : ∀ l, Forall (ptr_ok s) l → Forall (λ p, (p < length L)%nat) l).
  { intros l Hf. eapply Forall_impl; [exact Hf |]. unfold ptr_ok. intros; lia. }
  constructor; [constructor | done | done | cbn; lia | done]; cbn; auto; try lia.
  eapply Forall_impl; [exact Hmaps |]. intros [q p] [Hh Hin]. split; [exact Hh |]. split; [by apply (Aho p) | done].
Qed.

Lemma find_all_ok k s e p : updating k s → StrMap.find (ep_cmpDesc e) (_allProxys s) = Some p → ptr_ok s p.
Proof.
  intros [Hs _ _ _ _] Ep. pose proof (inv_all _ _ _ _ s Hs) as Ha. rewrite Forall_forall in Ha. apply find_in in Ep. apply (Ha _ Ep).
Qed.

(** [find_or_new], [setActiveInReg] and [setWeight] on one adapter. *)
Lemma insert_ok {V} (P : list Z * V → Prop) k v m : Forall P m → P (k, v) → Forall P (StrMap.insert k v m).
Proof. rewrite !Forall_forall. intros Hm Hk x [->|Hx]%insert_in; auto. Qed.

(** What the loops make of an adapter. *)
Definition refreshed (bActive : bool) (iWeight : Z) (a : adapter X) : adapter X :=
  mkAdapter (a_desc a) (a_host a) iWeight (if negb (_staticWeight a =? iWeight) then true else _staticWeightChanged a)
    bActive (a_breaker a) (_trans a).

Lemma adapter_there s p a : _vAllProxys s !! p = Some a → ∀ a', <[p := a']> (_vAllProxys s) !! p = Some a'.
Proof. intros Hp%lookup_lt_Some a'. by apply list_lookup_insert_eq. Qed.

(** The adapter of an endpoint, with what follows [find_or_new]: the state before, but
    for the adapters. *)
Lemma find_or_new_spec k s e b w : updating k s → known (ep_host e) → w ≤ W →
  ∃ p a all L, find_or_new new_trans garbage e s = (Ok p, set_lists all (_activeProxys s) (_sortActivProxys s)
      (_indexActiveProxys s) (_regProxys s) (set_adapters L s)) ∧
    L !! p = Some a ∧ adapters_ok s (<[p := refreshed b w a]> L) ∧ Forall (λ kp : list Z * nat, (kp.2 < length L)%nat) all.
Proof.
  intros Hu Hk Hw. pose proof Hu as [Hs _ _ _ _]. unfold find_or_new. unfold bind at 1, get_st.
  pose proof (inv_all _ _ _ _ s Hs) as Ha.
  destruct (StrMap.find (ep_cmpDesc e) (_allProxys s)) as [p|] eqn:Ep.
  - pose proof (find_all_ok k s e p Hu Ep) as Hp. destruct (lookup_lt_is_Some_2 _ _ Hp) as [a Ea].
    exists p, a, (_allProxys s), (_vAllProxys s). split; [by destruct s |]. split; [done |]. split; [|done].
    by apply (adapters_set s p a).
  - eexists _, _, _, _. split; [reflexivity |]. split; [by apply list_lookup_middle |]. split.
    + rewrite insert_app_r_alt, Nat.sub_diag by done. by apply adapters_new.
    + rewrite length_app. apply insert_ok; [|cbn; lia]. eapply Forall_impl; [exact Ha |]. unfold ptr_ok. intros; lia.
Qed.

Lemma index_kept s L : inv s → adapters_ok s L →
  Forall (λ kp : list Z * nat, a_host <$> L !! kp.2 = Some kp.1 ∧ kp.2 ∈ _activeProxys s) (_indexActiveProxys s).
Proof.
  intros Hs Hao. pose proof (inv_index _ _ _ _ s Hs) as Hi. pose proof (inv_active _ _ _ _ s Hs) as Ha.
  rewrite Forall_forall in Ha. rewrite Forall_forall in Hi. rewrite Forall_forall.
  intros x Hx. destruct (Hi x Hx) as (Hxh & _ & Hxa). split; [|done]. by rewrite (ao_host _ _ Hao _ (Ha _ Hxa)).
Qed.

(** An active endpoint takes its place in the lists. *)
Lemma activate_ok k s L all p h key : updating k s → 0 < k → adapters_ok s L → a_host <$> L !! p = Some h →
  Forall (λ kp : list Z * nat, (kp.2 < length L)%nat) all →
  updating (k - 1) (set_lists all (_activeProxys s ++ [p]) (StrMap.insert h p (_sortActivProxys s))
    (StrMap.insert h p (_indexActiveProxys s)) (StrMap.insert key p (_regProxys s)) (set_adapters L s)).
Proof.
  intros Hu Hk Hao Hh Hall. pose proof Hu as [Hs Em Hr Hl Hpos]. rewrite Em. pose proof (ao_length _ _ Hao) as Hlen.
  assert (Hpl : (p < length L)%nat) by (destruct (L !! p) eqn:E; [by eapply lookup_lt_Some | done]).
  assert (Hup : ∀ l, Forall (ptr_ok s) l → Forall (λ p, (p < length L)%nat) l) by (intros l Hf; eapply Forall_impl; [exact Hf |]; unfold ptr_ok; intros; lia).
  assert (Hn : zlen (_activeProxys s ++ [p]) = zlen (_activeProxys s) + 1) by (rewrite length_app; cbn; lia).
  apply (updating_set k); [done.. | | | | | |].
  - apply Forall_app. split; [apply Hup, (inv_active _ _ _ _ s Hs) | by repeat constructor].
  - lia.
  - lia.
  - apply insert_ok; [|by split; [|apply elem_of_app; right; left]]. eapply Forall_impl; [by apply (index_kept s L) |].
    intros x [Hxh Hxa]. split; [done | apply elem_of_app; by left].
  - apply insert_nodup, (inv_index_nodup _ _ _ _ s Hs).
  - apply insert_ok; [|done]. eapply Forall_impl; [exact Hr |]. unfold ptr_ok. intros; lia.
Qed.

Lemma add_active_spec k s e : updating k s → 0 < k → known (ep_host e) → ep_weight e ≤ W →
  ∃ s', add_active new_trans garbage e s = (Ok tt, s') ∧ updating (k - 1) s'.
Proof.
  intros Hu Hk Hkn Hw. unfold add_active.
  destruct (find_or_new_spec k s e true (ep_weight e) Hu Hkn Hw) as (p & a & all & L & E & Ea & Hao & Hall).
  rewrite (bind_Ok _ _ _ _ _ E). match goal with |- context [setActiveInReg true p] => set (s0 := set_lists _ _ _ _ _ _) end.
  unfold setActiveInReg. rewrite (bind_Ok _ _ _ _ _ (with_adapter_ok p _ s0 a Ea)). cbn [fst snd].
  match goal with |- context [get_adapter p] => set (s1 := set_adapters _ s0) end.
  assert (Ea1 : _vAllProxys s1 !! p = Some (set_inReg true a)) by (by apply (adapter_there s0 p a)).
  rewrite (bind_Ok _ _ _ _ _ (get_adapter_ok _ _ _ Ea1)). unfold bind at 1, modify. unfold setWeight.
  match goal with |- context [with_adapter p ?f ?s2] => set (s2' := s2); rewrite (with_adapter_ok p f s2' (set_inReg true a) Ea1) end. cbn [fst snd].
  eexists. split; [reflexivity |].
  assert (EL : ∀ a2, <[p := a2]> (_vAllProxys s2') = <[p := a2]> L) by (intros a2; apply list_insert_insert_eq).
  rewrite EL. change (a_host (set_inReg true a)) with (a_host a).
  apply (activate_ok k s (<[p := refreshed true (ep_weight e) a]> L) all p (a_host a) (ep_cmpDesc e) Hu Hk Hao).
  - rewrite list_lookup_insert_eq; [done |]. by eapply lookup_lt_Some.
  - rewrite length_insert. exact Hall.
Qed.

Lemma add_inactive_spec k s e : updating k s → known (ep_host e) → ep_weight e ≤ W →
  ∃ s', add_inactive new_trans garbage e s = (Ok tt, s') ∧ updating k s'.
Proof.
  intros Hu Hkn Hw. pose proof Hu as [Hs Em Hr Hl Hpos]. unfold add_inactive.
  destruct (find_or_new_spec k s e false (ep_weight e) Hu Hkn Hw) as (p & a & all & L & E & Ea & Hao & Hall).
  rewrite (bind_Ok _ _ _ _ _ E). match goal with |- context [setActiveInReg false p] => set (s0 := set_lists _ _ _ _ _ _) end.
  unfold setActiveInReg. rewrite (bind_Ok _ _ _ _ _ (with_adapter_ok p _ s0 a Ea)). cbn [fst snd].
  unfold bind at 1, modify. unfold setWeight. pose proof (adapter_there s0 p a Ea (set_inReg false a)) as Ea1.
  match goal with |- context [with_adapter p ?f ?s2] => set (s2' := s2); rewrite (with_adapter_ok p f s2' (set_inReg false a) Ea1) end. cbn [fst snd].
  eexists. split; [reflexivity |].
  assert (EL : ∀ a2, <[p := a2]> (_vAllProxys s2') = <[p := a2]> L) by (intros a2; apply list_insert_insert_eq).
  rewrite EL. pose proof (ao_length _ _ Hao) as Hlen. pose proof (lookup_lt_Some _ _ _ Ea) as Hpl.
  apply (updating_set k k s (<[p := refreshed false (ep_weight e) a]> L) all (_activeProxys s) (_sortActivProxys s) (_indexActiveProxys s)
    (StrMap.insert (ep_cmpDesc e) p (_regProxys s)) Hu Hao Em).
  - rewrite length_insert. exact Hall.
  - eapply Forall_impl; [apply (inv_active _ _ _ _ s Hs) |]. unfold ptr_ok. intros; lia.
  - done.
  - done.
  - by apply index_kept.
  - apply (inv_index_nodup _ _ _ _ s Hs).
  - rewrite length_insert in *. apply insert_ok; [|done]. eapply Forall_impl; [exact Hr |]. unfold ptr_ok. intros; lia.
Qed.

Lemma inactive_all_spec k kps : ∀ s, updating k s → Forall (λ kp : list Z * nat, ptr_ok s kp.2) kps →
  ∃ s', for_each (λ kp, setActiveInReg false kp.2) kps s = (Ok tt, s') ∧ updating k s'.
Proof.
  induction kps as [|[key p] kps IH]; intros s Hu Hf; cbn [for_each]; [by exists s |].
  apply Forall_cons in Hf as [Hp Hf]. destruct (lookup_lt_is_Some_2 _ _ Hp) as [a Ea].
  unfold setActiveInReg at 1. rewrite (bind_Ok _ _ _ _ _ (with_adapter_ok p _ s a Ea)). cbn [fst snd]. apply IH.
  - pose proof Hu as [Hs Em Hr Hl Hpos].
    pose proof (adapters_set s p a (set_inReg false a) Hs Ea eq_refl ltac:(apply (inv_weights _ _ _ _ s Hs p); unfold weight_of; cbn in Ea; by rewrite Ea)) as Hao.
    enough (E : updating k (set_lists (_allProxys s) (_activeProxys s) (_sortActivProxys s) (_indexActiveProxys s) (_regProxys s)
      (set_adapters (<[p := set_inReg false a]> (_vAllProxys s)) s))) by (by destruct s).
    apply (updating_set k k s _ _ _ _ _ _ Hu Hao Em); rewrite ?length_insert; try done; try (apply Hs). by apply index_kept.
  - eapply Forall_impl; [exact Hf |]. intros [key' q]. unfold ptr_ok. cbn. by rewrite length_insert.
Qed.

(** Both loops over the endpoints. *)
Definition endpoint_ok (e : EndpointInfo) : Prop := known (ep_host e) ∧ ep_weight e ≤ W.

Lemma add_actives_spec (skip : EndpointInfo → bool) es : ∀ k s, updating k s → Forall endpoint_ok es → zlen es ≤ k →
  ∃ s', for_each (λ e, if skip e then ret tt else add_active new_trans garbage e) es s = (Ok tt, s') ∧ updating (k - zlen es) s'.
Proof.
  induction es as [|e es IH]; intros k s Hu Hf Hk; cbn [for_each length] in *.
  { exists s. split; [done |]. by replace (k - Z.of_nat 0) with k by lia. }
  apply Forall_cons in Hf as [[Hkn Hw] Hf].
  assert (∃ s1, (if skip e then ret tt else add_active new_trans garbage e) s = (Ok tt, s1) ∧ updating (k - 1) s1) as (s1 & E1 & U1).
  { destruct (skip e); [|by apply add_active_spec; [| lia |..]]. exists s. split; [done |]. destruct Hu. constructor; try done; lia. }
  rewrite (bind_Ok _ _ _ _ _ E1). destruct (IH (k - 1) s1 U1 Hf ltac:(lia)) as (s2 & E2 & U2). exists s2. split; [done |].
  by replace (k - Z.of_nat (S (length es))) with (k - 1 - zlen es) by lia.
Qed.

Lemma add_inactives_spec (skip : EndpointInfo → bool) es : ∀ k s, updating k s → Forall endpoint_ok es →
  ∃ s', for_each (λ e, if skip e then ret tt else add_inactive new_trans garbage e) es s = (Ok tt, s') ∧ updating k s'.
Proof.
  induction es as [|e es IH]; intros k s Hu Hf; cbn [for_each]; [by exists s |].
  apply Forall_cons in Hf as [[Hkn Hw] Hf].
  assert (∃ s1, (if skip e then ret tt else add_inactive new_trans garbage e) s = (Ok tt, s1) ∧ updating k s1) as (s1 & E1 & U1).
  { destruct (skip e); [by exists s | by apply add_inactive_spec]. }
  rewrite (bind_Ok _ _ _ _ _ E1). by apply IH.
Qed.

(** The lists are emptied. *)
Lemma updating_start s : inv s → updating N (set_lists (_allProxys s) [] [] [] [] s).
Proof. intros Hs. pose proof Hs as []. constructor; [constructor | done | done | cbn; lia | lia]; cbn; auto; try done; try lia; constructor. Qed.

Lemma update_spec direct wt active inactive s : inv s → Forall endpoint_ok active → Forall endpoint_ok inactive → zlen active ≤ N →
  ∃ s', updateEndpoints new_trans garbage direct wt active inactive s = (Ok tt, s') ∧ inv s'.
Proof.
  intros Hs Ha Hi Hn. unfold updateEndpoints. unfold bind at 1, modify. pose proof (updating_start s Hs) as U0.
  set (s0 := set_lists _ _ _ _ _ _) in *.
  assert (∃ s1, (if bool_decide (active = []) then ret tt else let* s := get_st in for_each (λ kp, setActiveInReg false kp.2) (_allProxys s)) s0 = (Ok tt, s1)
    ∧ updating N s1) as (s1 & E1 & U1).
  { case_bool_decide; [by exists s0 |]. unfold bind, get_st. apply inactive_all_spec; [done |]. pose proof (up_inv _ _ U0) as []. done. }
  rewrite (bind_Ok _ _ _ _ _ E1).
  destruct (add_actives_spec (skipped direct wt) active N s1 U1 Ha Hn) as (s2 & E2 & U2). rewrite (bind_Ok _ _ _ _ _ E2).
  destruct (add_inactives_spec (skipped direct wt) inactive _ s2 U2 Hi) as (s3 & E3 & U3). rewrite (bind_Ok _ _ _ _ _ E3).
  eexists. split; [reflexivity |]. destruct U3 as [[] _ Hr _ _]. constructor; cbn; auto.
  apply Forall_fmap. eapply Forall_impl; [exact Hr |]. by intros [].
Qed.

Lemma new_inv : inv (new garbage : t X).
Proof.
  assert (Hno : ∀ {A} (x : A), ¬ x ∈ []) by (intros A x; apply not_elem_of_nil).
  constructor; cbn; try constructor; try done; try lia; try (intros Hx; by apply not_elem_of_nil in Hx).
  all: destruct b; cbn; try constructor; try lia; intros ? Hx; by apply not_elem_of_nil in Hx.
Qed.

(** ** Every choice *)

(** Which lists the adapter comes from, and that it is usable when one of the list the
    search goes over was connected. *)
Definition routed (wt : EndpointWeightType) (hash : option (Z * bool)) s s' (o : option nat) : Prop :=
  match hash, wt with None, E_STATIC_WEIGHT => weighed s s' o | _, _ => chosen s s' o end.

(** No virtual node has the code of a call by consistent hash: else the ring reads past
    its end ([past_the_end] in [ConsistentHash]). *)
Definition hash_ok (hash : option (Z * bool)) : Prop :=
  match hash with
  | Some (hashCode, true) => ∀ n, known_code stack known W n → ConsistentHash.iHashCode n ≠ hashCode
  | _ => True
  end.

Lemma select_spec wt hash s : inv s → hash_ok hash →
  ∃ o s', select info now rand addr stack wt hash s = (Ok o, s') ∧ inv s' ∧ routed wt hash s s' o.
Proof.
  intros Hs Hh. pose proof (inv_lists_ok stack known N W s ltac:(lia) Hs) as Hl. unfold select.
  assert (Hn : ∀ code, ∃ o s', getHashProxyForNormal info now rand code s = (Ok o, s') ∧ inv s' ∧ chosen s s' o).
  { intros code. destruct (hash_normal_spec info now rand code s Hl) as (o & s' & E & K & Hc). exists o, s'.
    split; [exact E |]. split; [by apply (inv_keeps stack known N W s) | done]. }
  destruct hash as [[code con]|].
  - unfold getHashProxy, getConHashProxyForWeight, getConHashProxyForNormal. destruct wt, con; cbn.
    + by apply (con_hash_spec info now rand stack known N W Hstack Hknown HN HW HNW).
    + apply Hn.
    + by apply (con_hash_spec info now rand stack known N W Hstack Hknown HN HW HNW).
    + by apply (hash_weight_spec info now rand stack known N W Hstack HN).
  - destruct wt; cbn -[bool_decide].
    + rewrite bool_decide_false by done. unfold getNextValidProxy. unfold bind at 1, get_st. case_bool_decide as Hne.
      { exists None, s. split; [done |]. split; [done |]. split; [done | by left]. }
      destruct (next_valid_spec info now rand s Hne Hl) as (p & s' & E & F). rewrite (bind_Ok _ _ _ _ _ E). exists (Some p), s'.
      split; [done |]. split; [by apply (inv_keeps stack known N W s); [apply F |] | by apply found_chosen].
    + rewrite bool_decide_true by done. apply weighted_spec; [done | apply Hl].
Qed.
End manager.
