(* ===== verification/EndpointRuns.v ===== *)
(** Runs of an [EndpointManager] with its queries of the registry: the invariant along
    every sequence of events, and the properties of the component. *)
From stdpp Require Import prelude gmap list sorting relations.
From Stdlib Require Import ZArith Lia.
From S2P Require Import Prelude Bytes TarsInput AdapterProxy Md5 ConsistentHash EndpointManager EndpointQuery EndpointWeights EndpointInv EndpointState EndpointTheorems AdapterTheorems.
Import EndpointManager.

(** ** Sets of endpoints *)

Lemma set_insert_in {K} (lt : K → K → bool) x l y : y ∈ set_insert lt x l → y = x ∨ y ∈ l.
Proof.
  induction l as [|z l IH]; cbn; [intros ->%list_elem_of_singleton; by left |].
  destruct (lt x z); [by intros [?|?]%elem_of_cons; [left | right] |].
  destruct (lt z x); [|by right]. intros [->|Hy]%elem_of_cons; [right; left |]. destruct (IH Hy); [by left | right; by right].
Qed.
Lemma set_insert_length {K} (lt : K → K → bool) x l : (length (set_insert lt x l) ≤ S (length l))%nat.
Proof. induction l as [|z l IH]; cbn; [done |]. destruct (lt x z); [done |]. destruct (lt z x); cbn; lia. Qed.

Lemma insert_all_spec {K} (lt : K → K → bool) (P : K → Prop) l : ∀ s, Forall P l → Forall P s →
  Forall P (fold_left (λ s e, set_insert lt e s) l s) ∧ (length (fold_left (λ s e, set_insert lt e s) l s) ≤ length l + length s)%nat.
Proof.
  induction l as [|x l IH]; intros s Hl Hs; cbn; [by split |]. apply Forall_cons in Hl as [Hx Hl].
  destruct (IH (set_insert lt x s)) as [IH1 IH2]; [done | |].
  - rewrite Forall_forall in *. intros y [->|Hy]%set_insert_in; auto.
  - pose proof (set_insert_length lt x s). split; [done | lia].
Qed.

Section runs.
Context {X B : Type} `{Transceiver X B} `{ConnTimeout X} `{RingSort}.
Context (info : CheckTimeoutInfo) (rand : nat → Z) (new_trans : EndpointInfo → X) (addr : nat → Z).
Context (stack : MD5.MD5_CTX) (garbage : uninitialized) (query_throws : nat → bool).
Context (known : list Z → Prop) (N W : Z).
Context (Hstack : length (MD5.buffer stack) = 64%nat) (Hknown : ∀ h, known h → bytes_ok h ∧ zlen h + 11 < 2 ^ 32).
Context (HN : 0 ≤ N ≤ 100000) (HW : 100 ≤ W < 2 ^ 31) (HNW : N * W < 2 ^ 31).
Implicit Types s : QueryEp.t X.

Definition lists_known (active inactive : list EndpointInfo) : Prop :=
  Forall (endpoint_ok known W) active ∧ Forall (endpoint_ok known W) inactive ∧ zlen active ≤ N.
(** Events with known hosts and weights, no more than [N] active endpoints, and no call
    that has the code of a virtual node. *)
Definition admitted (e : QueryEp.event) : Prop :=
  match e with
  | QueryEp.Select hash => hash_ok stack known W hash
  | QueryEp.Endpoints a i _ => lists_known (map snd a) (map snd i)
  | QueryEp.EndpointsExp _ => True
  | QueryEp.Outter a i => lists_known a i
  end.

Record query_inv s : Prop := {
  qi_manager : inv stack known N W (QueryEp.manager s);
  qi_lists : lists_known (QueryEp._activeEndpoints s) (QueryEp._inactiveEndpoints s);
  qi_outter a i : QueryEp._outterUpdate s = Some (a, i) → lists_known a i
}.

(** [m] returns, from any state with the invariant to one with it. *)
Definition safe {A} (m : prog (QueryEp.t X) Empty_set A) : Prop :=
  ∀ s, query_inv s → ∃ a s', m s = (Ok a, s') ∧ query_inv s'.

Lemma kept_ret {A} (a : A) : safe (ret a).
Proof. intros s Hs. by exists a, s. Qed.
Lemma kept_bind {A C} (m : prog (QueryEp.t X) Empty_set A) (f : A → prog (QueryEp.t X) Empty_set C) :
  safe m → (∀ a, safe (f a)) → safe (bind m f).
Proof.
  intros Hm Hf s Hs. destruct (Hm s Hs) as (a & s1 & E & Hs1). destruct (Hf a s1 Hs1) as (c & s2 & E2 & Hs2).
  exists c, s2. by rewrite (bind_Ok _ _ _ _ _ E).
Qed.
Lemma safe_get {C} (f : QueryEp.t X → prog (QueryEp.t X) Empty_set C) : (∀ s0, query_inv s0 → safe (f s0)) → safe (bind get_st f).
Proof. intros Hf s Hs. unfold bind, get_st. by apply Hf. Qed.
Lemma safe_modify f : (∀ s, query_inv s → query_inv (f s)) → safe (modify f).
Proof. intros Hf s Hs. exists tt, (f s). split; [done | auto]. Qed.

(** Members that the invariant does not mention. *)
Ltac other_member := by apply safe_modify; intros ? []; constructor.

Lemma safe_update direct wt a i : lists_known a i → safe (QueryEp.on_manager (updateEndpoints new_trans garbage direct wt a i)).
Proof.
  intros (Ha & Hi & Hn) s [Hm Hl Ho].
  destruct (update_spec stack known N W Hstack HN new_trans garbage direct wt a i _ Hm Ha Hi Hn) as (m' & E & Hm').
  exists tt, (QueryEp.set_manager m' s). unfold QueryEp.on_manager. rewrite E. split; [done | by constructor].
Qed.

Lemma safe_notify a i : lists_known a i → safe (QueryEp.notifyEndpoints new_trans garbage a i).
Proof.
  intros Hl. apply safe_get. intros s _. apply kept_bind; [by apply safe_update |]. intros _. other_member.
Qed.

Lemma safe_exp nowms iRet : safe (QueryEp.doEndpointsExp nowms iRet).
Proof.
  unfold QueryEp.doEndpointsExp. apply kept_bind; [other_member |]. intros _. apply kept_bind; [other_member |]. intros _.
  apply kept_bind; [other_member |]. intros _. apply safe_get. intros s _. destruct (_ <? _); [|apply kept_ret].
  apply kept_bind; [|intros _; other_member]. destruct (negb _); [|apply kept_ret]. apply kept_bind; [other_member |]. intros _. other_member.
Qed.

Lemma ep_set_known l (n : Z) : Forall (endpoint_ok known W) l → zlen l ≤ n →
  Forall (endpoint_ok known W) (QueryEp.ep_set l) ∧ zlen (QueryEp.ep_set l) ≤ n.
Proof. intros Hl Hn. destruct (insert_all_spec QueryEp.ep_lt (endpoint_ok known W) l [] Hl (Forall_nil_2 _)) as [H1' H2']. cbn in *. split; [done | unfold QueryEp.ep_set; lia]. Qed.

Lemma safe_doEndpoints nowms a i iRet : lists_known (map snd a) (map snd i) → safe (QueryEp.doEndpoints nowms new_trans garbage a i iRet).
Proof.
  intros (Ha & Hi & Hn). unfold QueryEp.doEndpoints. destruct (negb _); [apply safe_exp |].
  apply kept_bind; [other_member |]. intros _. apply kept_bind; [other_member |]. intros _. case_bool_decide; [other_member |].
  apply kept_bind; [other_member |]. intros _. apply kept_bind; [other_member |]. intros _.
  destruct (ep_set_known _ N Ha Hn) as [Ha' Hn']. destruct (ep_set_known _ _ Hi (Z.le_refl _)) as [Hi' _].
  apply safe_get. intros s0 _. apply kept_bind; [|intros _; apply kept_bind].
  - destruct (negb _); [|apply kept_ret]. apply kept_bind; [|intros _; destruct (QueryEp._firstNetThread s0); [other_member | apply kept_ret]].
    apply safe_modify. intros s1 [Hm (_ & Hl & _) Ho]. by constructor.
  - destruct (negb _); [|apply kept_ret]. apply kept_bind; [|intros _; destruct (QueryEp._firstNetThread s0); [other_member | apply kept_ret]].
    apply safe_modify. intros s1 [Hm (Hl & _ & Hl') Ho]. by constructor.
  - intros _. apply safe_get. intros s1 [_ Hl1 _]. apply kept_bind; [destruct (_ || _); [by apply safe_notify | apply kept_ret] |].
    intros _. apply safe_get. intros s2 _. destruct (negb _); [|apply kept_ret]. apply kept_bind; [other_member |]. intros _. other_member.
Qed.

Lemma safe_outter : safe (QueryEp.onUpdateOutter new_trans garbage).
Proof.
  apply safe_get. intros s0 [_ _ Ho]. destruct (QueryEp._outterUpdate s0) as [[a i]|]; [|apply kept_ret].
  apply kept_bind; [by apply safe_update, Ho |]. intros _. apply kept_bind; [other_member |]. intros _.
  apply safe_modify. by intros s [Hm Hl _].
Qed.

Lemma safe_refresh nowms : safe (QueryEp.refreshReg nowms new_trans garbage query_throws).
Proof.
  apply kept_bind; [apply safe_outter |]. intros _. apply safe_get. intros s _. destruct (QueryEp._direct s); [apply kept_ret |].
  apply kept_bind; [destruct (_ && _); [apply safe_exp | apply kept_ret] |]. intros _. apply safe_get. intros s1 _.
  destruct (_ && _); [|apply kept_ret]. apply kept_bind; [other_member |]. intros _. destruct (negb _); [apply kept_ret |].
  destruct (query_throws _); [apply safe_exp | other_member].
Qed.

Lemma safe_select now nowms hash : hash_ok stack known W hash →
  safe (QueryEp.selectAdapterProxy info now nowms rand new_trans addr stack garbage query_throws hash).
Proof.
  intros Hh. apply kept_bind; [apply safe_refresh |]. intros _. apply safe_get. intros s0 _. destruct (negb _); [apply kept_ret |].
  apply kept_bind; [|intros o; apply kept_ret]. intros s [Hm Hl Ho].
  destruct (select_spec info now rand addr stack known N W Hstack Hknown HN HW HNW (QueryEp._weightType s0) hash _ Hm Hh) as (o & m' & E & Hm' & _).
  exists o, (QueryEp.set_manager m' s). unfold QueryEp.on_manager. rewrite E. split; [done | by constructor].
Qed.

Lemma safe_handle now nowms e : admitted e → safe (QueryEp.handle info now nowms rand new_trans addr stack garbage query_throws e).
Proof.
  destruct e as [hash|a i r|r|a i]; cbn; intros He.
  - by apply safe_select.
  - apply kept_bind; [by apply safe_doEndpoints | intros _; apply kept_ret].
  - apply kept_bind; [apply safe_exp | intros _; apply kept_ret].
  - apply kept_bind; [|intros _; apply kept_ret]. apply kept_bind; [other_member |]. intros _.
    apply safe_modify. intros s [Hm Hl _]. constructor; [done | done |]. cbn. by intros ? ? [= <- <-].
Qed.

(** ** Beginnings and the steps between *)

Lemma new_query_inv first property : query_inv (QueryEp.new garbage first property).
Proof.
  constructor; cbn; [by apply (new_inv stack known N W Hstack HN HW) | | done]. split_and!; [constructor | constructor | cbn; lia].
Qed.

Definition parsed_ok (n : Z) (eps : option (list (Z * EndpointInfo))) : Prop :=
  if eps is Some l then Forall (endpoint_ok known W) (map snd l) ∧ zlen l ≤ n else True.

Lemma setEndpoints_spec eps set s n : query_inv s → parsed_ok n eps → Forall (endpoint_ok known W) set →
  ∃ set' s', QueryEp.setEndpoints eps set s = (Ok set', s') ∧ query_inv s' ∧ Forall (endpoint_ok known W) set' ∧
    (set = [] → 0 ≤ n → zlen set' ≤ n) ∧ (∃ wt, s' = QueryEp.set_weightType wt s).
Proof.
  intros Hs He Hset. destruct eps as [l|]; cbn.
  - eexists _, _. split; [reflexivity |]. destruct He as [Hl Hn].
    destruct (insert_all_spec QueryEp.ep_lt (endpoint_ok known W) (map snd l) set Hl Hset) as [H1' H2']. rewrite length_map in H2'.
    split; [by destruct Hs; constructor |]. split; [done |]. split; [intros ->; cbn in *; lia | by eexists].
  - exists set, s. split; [done |]. split; [done |]. split; [done |]. split; [by intros -> | exists (QueryEp._weightType s); by destruct s].
Qed.

(** [init] of a new manager. *)
Lemma init_spec first property direct root a i : parsed_ok N a → parsed_ok (match i with Some l => zlen l | None => 0 end) i →
  ∃ s, QueryEp.init new_trans garbage direct root a i (QueryEp.new garbage first property) = (Ok tt, s) ∧ query_inv s.
Proof.
  intros Ha Hi. pose proof (new_query_inv first property) as Hs0. unfold QueryEp.init. set (s0 := QueryEp.new garbage first property) in *.
  unfold bind at 1, modify, bind at 1, get_st.
  set (s1 := QueryEp.set_direct direct root (QueryEp.set_valid direct s0)). assert (Hs1 : query_inv s1) by (by destruct Hs0; constructor).
  destruct (setEndpoints_spec a [] s1 N Hs1 Ha (Forall_nil_2 _)) as (set1 & s2 & E1 & Hs2 & Hk1 & Hn1 & wt & Es2).
  change (QueryEp._activeEndpoints s1) with (@nil EndpointInfo). rewrite (bind_Ok _ _ _ _ _ E1). unfold bind at 1, bind at 1.
  set (s3 := QueryEp.set_endpoints set1 (QueryEp._inactiveEndpoints s2) s2).
  assert (Hs3 : query_inv s3).
  { destruct Hs2 as [Hm (_ & Hl2 & _) Ho]. constructor; [done | | done]. split_and!; [done | done | apply Hn1; [done | lia]]. }
  destruct (setEndpoints_spec i (QueryEp._inactiveEndpoints s3) s3 _ Hs3 Hi) as (set2 & s4 & E2 & Hs4 & Hk2 & _ & _); [apply Hs3 |].
  rewrite (bind_Ok _ _ _ _ _ E2).
  set (s5 := QueryEp.set_endpoints (QueryEp._activeEndpoints s4) set2 s4).
  assert (Hs5 : query_inv s5) by (destruct Hs4 as [Hm (Hl1 & _ & Hl2) Ho]; by constructor).
  unfold bind at 1, bind at 1.
  enough (Hend : safe (
    (if negb (bool_decide (QueryEp._activeEndpoints s5 = [])) then modify (QueryEp.set_valid true) else ret tt) ;;;
    if negb (bool_decide (QueryEp._activeEndpoints s5 = [])) || negb (bool_decide (QueryEp._inactiveEndpoints s5 = []))
    then QueryEp.notifyEndpoints new_trans garbage (QueryEp._activeEndpoints s5) (QueryEp._inactiveEndpoints s5) else ret tt)).
  { destruct (Hend s5 Hs5) as ([] & s6 & E6 & Hs6). by exists s6. }
  apply kept_bind; [destruct (negb _); [other_member | apply kept_ret] |]. intros _. destruct (_ || _); [apply safe_notify, Hs5 | apply kept_ret].
Qed.

Lemma inv_same_adapters s L : query_inv s → Forall2 QueryEp.same_adapter (_vAllProxys (QueryEp.manager s)) L →
  query_inv (QueryEp.set_manager (set_adapters L (QueryEp.manager s)) s).
Proof.
  intros [Hm Hl Ho] HL. constructor; [|done..]. cbn. set (m := QueryEp.manager s) in *. set (m' := set_adapters L m).
  assert (Est : statics <$> _vAllProxys m' = statics <$> _vAllProxys m).
  { cbn. induction HL as [|x y l l' [bx ->] _ IH]; [done |]. cbn. by rewrite IH. }
  assert (Elen : length (_vAllProxys m') = length (_vAllProxys m)) by (symmetry; by eapply Forall2_length).
  assert (Hp : ∀ p, ptr_ok m' p ↔ ptr_ok m p) by (intros p; unfold ptr_ok; by rewrite Elen).
  pose proof Hm as []. constructor; try done.
  all: try (eapply Forall_impl; [eassumption |]; intros; by apply Hp).
  - eapply Forall_impl; [eassumption |]. intros x. by rewrite (host_of_statics m m').
  - intros p h. rewrite (host_of_statics m m') by done. eauto.
  - intros p w. rewrite (weight_of_statics m m') by done. eauto.
Qed.

Lemma reachable_inv s s' : query_inv s →
  QueryEp.reachable info rand new_trans addr stack garbage query_throws admitted s s' → query_inv s'.
Proof.
  intros Hs Hr. induction Hr as [|s s1 s2 Hstep _ IH]; [done |]. apply IH.
  destruct Hstep as [now nowms e r s s1 He E|L s HL]; [|by apply inv_same_adapters].
  destruct (safe_handle now nowms e He s Hs) as (? & s1' & E' & Hs1). congruence.
Qed.

(** ** Properties *)


Definition initial (s0 : QueryEp.t X) : Prop := ∃ first property direct root a i,
  parsed_ok N a ∧ parsed_ok (match i with Some l => zlen l | None => 0 end) i ∧
  QueryEp.init new_trans garbage direct root a i (QueryEp.new garbage first property) = (Ok tt, s0).


(** An answer of the registry that lists the endpoints as before, by [cmpDesc],
    changes nothing in the manager, even if their weights are new: [EndpointInfo] is
    compared without the weight. *)
Theorem new_weights_ignored nowms a i s : a ≠ [] →
  QueryEp.ep_eq (QueryEp.ep_set (map snd a)) (QueryEp._activeEndpoints s) = true →
  QueryEp.ep_eq (QueryEp.ep_set (map snd i)) (QueryEp._inactiveEndpoints s) = true →
  ∃ s', QueryEp.doEndpoints nowms new_trans garbage a i 0 s = (Ok tt, s') ∧
    QueryEp.manager s' = QueryEp.manager s ∧ QueryEp._activeEndpoints s' = QueryEp._activeEndpoints s.
Proof.
  intros Hne Ha Hi. unfold QueryEp.doEndpoints. cbn [negb Z.eqb]. unfold bind at 1, modify. unfold bind at 1, modify.
  rewrite bool_decide_false by done. unfold bind at 1, modify. unfold bind at 1, modify. cbv zeta. unfold bind at 1, get_st. cbn [QueryEp._activeEndpoints QueryEp._inactiveEndpoints QueryEp.set_weightType QueryEp.set_refreshTime QueryEp.set_request QueryEp.set_failTimes].
  rewrite Ha, Hi. cbn. case_match; eexists; (split; [reflexivity | done]).
Qed.
End runs.

(** * The properties at work *)

(** [std::sort] by merging. *)
#[export] Instance le_hash_dec : RelDecision ConsistentHash.le_hash.
Proof. intros x y. unfold ConsistentHash.le_hash. apply _. Defined.
#[export] Instance le_hash_total : Total ConsistentHash.le_hash.
Proof. intros x y. unfold ConsistentHash.le_hash. lia. Qed.
#[export] Instance le_hash_trans : Transitive ConsistentHash.le_hash.
Proof. intros x y z. unfold ConsistentHash.le_hash. lia. Qed.
#[export] Program Instance merge_ring : RingSort := { ring_sort := merge_sort ConsistentHash.le_hash }.
Next Obligation. intros l. split; [apply merge_sort_Permutation | by apply StronglySorted_merge_sort; apply _]. Qed.
#[export] Instance script_timeout : ConnTimeout script := λ x, false.

Definition host_a : list Z := [49; 46; 49].
Definition host_b : list Z := [49; 46; 50].
Definition endpoint_a : EndpointInfo := mkEndpoint (host_a ++ [58; 56; 48]) (host_a ++ [58; 56; 48]) host_a 100.
Definition endpoint_b : EndpointInfo := mkEndpoint (host_b ++ [58; 56; 49]) (host_b ++ [58; 56; 49]) host_b 30.
Definition sample_known (h : list Z) : Prop := h = host_a ∨ h = host_b.
Lemma sample_hosts h : sample_known h → bytes_ok h ∧ zlen h + 11 < 2 ^ 32.
Proof. intros [-> | ->]; (split; [|done]); repeat constructor; unfold is_byte; lia. Qed.

Definition sample_garbage : uninitialized := mkUninit (-1) true false (-5).
Definition sample_trans (e : EndpointInfo) : script := mkScript true true 0 [].
(** What the cache knows: both endpoints, by weight. *)
Definition sample_cache : option (list (Z * EndpointInfo)) := Some [(1, endpoint_a); (1, endpoint_b)].
Definition sample_init : outcome Empty_set unit * QueryEp.t script :=
  QueryEp.init sample_trans sample_garbage false true sample_cache None (QueryEp.new sample_garbage true 60).

Lemma sample_parsed : parsed_ok sample_known 100 10 sample_cache.
Proof. split; [|done]. repeat (constructor; [split; [first [by left | by right] | by cbn] |]). constructor. Qed.



(** The weight of [endpoint_a] falls from 100 to 1; its adapter keeps the old one. *)
Lemma new_weights_ignored_witness : ∃ s',
  QueryEp.doEndpoints 5000 sample_trans sample_garbage
    [(1, mkEndpoint (ep_cmpDesc endpoint_a) (ep_desc endpoint_a) host_a 1); (1, endpoint_b)] [] 0 sample_init.2 = (Ok tt, s') ∧
  _staticWeight <$> _vAllProxys (QueryEp.manager s') = [100; 30].
Proof.
  destruct (new_weights_ignored sample_trans sample_garbage 5000
    [(1, mkEndpoint (ep_cmpDesc endpoint_a) (ep_desc endpoint_a) host_a 1); (1, endpoint_b)] [] sample_init.2) as (s' & E & Em & _);
    [done | reflexivity | reflexivity |].
  exists s'. split; [exact E |]. rewrite Em. reflexivity.
Defined.
