(* ===== verification/EndpointTurns.v ===== *)
(** Consecutive calls of an [EndpointManager]: whose turn it is, and how often. *)
From stdpp Require Import prelude gmap list sorting.
From Stdlib Require Import ZArith Lia.
From S2P Require Import Prelude Bytes TarsInput AdapterProxy Md5 ConsistentHash EndpointManager EndpointWeights EndpointInv EndpointState EndpointTheorems AdapterTheorems EndpointQuery EndpointRuns.
Import EndpointManager.

(** [m] run [n] times, with all its results. *)
Fixpoint repeated {S A : Type} (m : prog S Empty_set A) (n : nat) : prog S Empty_set (list A) :=
  match n with O => ret [] | Datatypes.S n' => let* a := m in let* l := repeated m n' in ret (a :: l) end.

(** [ps] goes round [l] from the element at [start] on. *)
Definition in_turn (l : list nat) (start : Z) (ps : list nat) : Prop :=
  ∀ k, (k < length ps)%nat → ps !! k = l !! rotate_nat_add (Z.to_nat start) k (length l).

(** A whole turn reaches everything as often as it is there. *)
Lemma in_turn_rotate l start ps : in_turn l start ps → length ps = length l → ps = rotate (Z.to_nat start) l.
Proof.
  intros Ht Hl. apply list_eq. intros k. destruct (decide (k < length l)%nat) as [Hk|Hk].
  - rewrite Ht by lia. symmetry. by apply lookup_rotate_r.
  - rewrite !lookup_ge_None_2; [done | rewrite length_rotate; lia | lia].
Qed.
Lemma rotate_perm n (l : list nat) : rotate n l ≡ₚ l.
Proof. unfold rotate. rewrite Permutation_app_comm. by rewrite take_drop. Qed.

Section repeat.
Context {S : Type} (m : prog S Empty_set (option nat)) (P : S → Prop) (pos : S → Z) (l : list nat).
Context (Hl : 0 < zlen l < 2 ^ 64).
Context (Hm : ∀ s, P s → ∃ p s', m s = (Ok (Some p), s') ∧ P s' ∧ pos s' = next_pos (zlen l) (pos s) ∧ l !! Z.to_nat (pos s') = Some p).

Lemma repeated_in_turn n : ∀ s, P s → ∃ ps s', repeated m n s = (Ok (Some <$> ps), s') ∧ P s' ∧ length ps = n ∧
  in_turn l (next_pos (zlen l) (pos s)) ps.
Proof.
  induction n as [|n IH]; intros s Hs; cbn [repeated].
  { exists [], s. split_and!; [done | done | done |]. intros k Hk. cbn in Hk. lia. }
  destruct (Hm s Hs) as (p & s1 & E1 & Hs1 & Ep & Hp). rewrite (bind_Ok _ _ _ _ _ E1).
  destruct (IH s1 Hs1) as (ps & s2 & E2 & Hs2 & Hn & Ht). rewrite (bind_Ok _ _ _ _ _ E2).
  exists (p :: ps), s2. split_and!; [done | done | cbn; lia |]. intros k Hk. rewrite <- Ep.
  pose proof (next_pos_range (zlen l) (pos s) ltac:(lia)) as Hr. rewrite <- Ep in Hr. unfold rotate_nat_add. rewrite Z2Nat.id by lia.
  destruct k as [|k].
  - by rewrite Z.add_0_r, Z.mod_small, Hp by lia.
  - change ((p :: ps) !! Datatypes.S k) with (ps !! k). rewrite (Ht k) by (cbn in Hk; lia). f_equal. unfold rotate_nat_add. rewrite next_pos_mod by lia.
    rewrite Z2Nat.id by (apply Z.mod_pos_bound; lia). rewrite Zplus_mod_idemp_l. f_equal. f_equal. lia.
Qed.
End repeat.

Section turns.
Context {X B : Type} `{Transceiver X B} `{ConnTimeout X} `{RingSort}.
Context (info : CheckTimeoutInfo) (now : Z) (rand : nat → Z) (addr : nat → Z) (stack : MD5.MD5_CTX).
Context (known : list Z → Prop) (N W : Z).
Implicit Types s : t X.

(** ** One adapter after the other *)

Lemma try_connected bForce push p conn s : connected s p →
  ∃ s', try_adapter info now bForce push p conn s = (Ok None, s') ∧ keeps s s' ∧ positions s' = positions s.
Proof.
  intros Hc. assert (Hp : ptr_ok s p) by (destruct Hc as (a & E & _); by eapply lookup_lt_Some).
  destruct (try_spec info now bForce push p conn s Hp) as (r & s' & E & K & Hr & Hpos).
  destruct r as [conn'|]; [by destruct Hr | by exists s'].
Qed.

Record all_connected (l : list nat) s : Prop := { ac_lists : Forall (connected s) l; ac_active : _activeProxys s = l }.

Lemma next_in_turn l s : 0 < zlen l → all_connected l s →
  ∃ p s', getNextValidProxy info now rand s = (Ok (Some p), s') ∧ all_connected l s' ∧
    _lastRoundPosition s' = next_pos (zlen l) (_lastRoundPosition s) ∧ l !! Z.to_nat (_lastRoundPosition s') = Some p.
Proof.
  intros Hn [Hc Ea]. unfold getNextValidProxy, next_valid. unfold bind at 1, get_st.
  rewrite bool_decide_false by (rewrite Ea; by intros ->). rewrite bind_assoc. unfold bind at 1, get_st. rewrite Ea.
  set (s1 := set_position (next_pos (zlen l) (_lastRoundPosition s)) s).
  pose proof (next_pos_range (zlen l) (_lastRoundPosition s) Hn) as Hr.
  destruct (vec_at_ok l (_lastRoundPosition s1) s1 Hr) as (p & Ev & Hp).
  assert (Hcp : connected s1 p) by (rewrite Forall_forall in Hc; apply Hc; by eapply list_elem_of_lookup_2).
  destruct (try_connected false push_back p [] s1 Hcp) as (s2 & E2 & K2 & [= Epos _]).
  exists p, s2. split; [|split; [|split; [by rewrite Epos | by rewrite Epos]]].
  - assert (El : round_loop info now (length l) [] s = (Ok (inl p), s2)).
    { assert (∃ i, length l = Datatypes.S i) as [i ->] by (destruct l; [done | by eexists]). cbn [round_loop]. unfold bind at 1, modify. rewrite Ea.
      change (set_position _ s) with s1. unfold bind at 1, get_st. change (_activeProxys s1) with (_activeProxys s). rewrite Ea.
      by rewrite (bind_Ok _ _ _ _ _ Ev), (bind_Ok _ _ _ _ _ E2). }
    by rewrite bind_assoc, (bind_Ok _ _ _ _ _ El).
  - constructor; [|rewrite (keeps_active _ _ K2); exact Ea]. eapply Forall_impl; [exact Hc |]. intros q. apply K2.
Qed.

(** ** By weight *)

Context (Hstack : length (MD5.buffer stack) = 64%nat).
Context (HN : 0 ≤ N ≤ 100000) (HW : 100 ≤ W < 2 ^ 31).
Abbreviation inv := (inv stack known N W).

(** A table that is in force, for adapters that are connected. *)
Record in_force (cache aw : list nat) s : Prop := {
  if_inv : inv s;
  if_cache : _staticRouterCache (weight_state s) = cache;
  if_active : _activeWeightProxy (weight_state s) = aw;
  if_time : now < _lastBuildWeightTime (weight_state s);
  if_nonempty : _activeProxys s ≠ [];
  if_connected : Forall (connected s) aw
}.

Lemma in_force_keeps cache aw s s' : keeps s s' → in_force cache aw s → in_force cache aw s'.
Proof.
  intros K [Hs Hc Ha Ht Hne Hcon]. destruct (keeps_cache s s' K) as [E1 E2]. pose proof (keeps_active s s' K) as E3.
  assert (E4 : _lastBuildWeightTime (weight_state s') = _lastBuildWeightTime (weight_state s)).
  { destruct K as [E _]. unfold core in E. congruence. }
  constructor; [by apply (inv_keeps stack known N W s) | congruence | congruence | by rewrite E4 | by rewrite E3 |].
  eapply Forall_impl; [exact Hcon |]. intros q. apply K.
Qed.

Lemma weighted_in_turn cache aw b s : cache ≠ [] → in_force cache aw s → let l := omap (λ i, aw !! i) cache in
  ∃ p s', getWeightedProxy info now rand addr b s = (Ok (Some p), s') ∧ in_force cache aw s' ∧
    _lastSWeightPosition (weight_state s') = next_pos (zlen l) (_lastSWeightPosition (weight_state s)) ∧
    l !! Z.to_nat (_lastSWeightPosition (weight_state s')) = Some p.
Proof.
  intros Hne Hf l. pose proof Hf as [Hs Ec Ea Ht Hact Hcon].
  assert (El : l = table_ptrs s) by (unfold table_ptrs; by rewrite Ec, Ea).
  assert (Hll : length l = length cache) by (rewrite El, (table_ptrs_length stack known N W s Hs); by rewrite Ec).
  assert (Hn : 0 < zlen cache) by (destruct cache; [done | cbn; lia]). rewrite Hll.
  set (pos := next_pos (zlen cache) (_lastSWeightPosition (weight_state s))).
  pose proof (next_pos_range (zlen cache) (_lastSWeightPosition (weight_state s)) Hn) as Hpos. fold pos in Hpos.
  set (s1 := set_weighted (mkWeighted (_update (weight_state s)) (_first (weight_state s)) (_lastBuildWeightTime (weight_state s))
    pos (_staticRouterCache (weight_state s)) (_activeWeightProxy (weight_state s))) s).
  destruct (vec_at_ok cache pos s1 Hpos) as (j & Ej & Hj).
  assert (Hjr : (j < length aw)%nat).
  { rewrite <- Ea. apply (inv_table _ _ _ _ s Hs). rewrite Ec. by eapply list_elem_of_lookup_2. }
  destruct (vec_at_ok aw (Z.of_nat j) s1 ltac:(lia)) as (p & Ep & Hp). rewrite Nat2Z.id in Hp.
  assert (Hlp : l !! Z.to_nat pos = Some p).
  { rewrite El. apply (table_ptrs_lookup stack known N W s _ j p Hs); [by rewrite Ec | by rewrite Ea]. }
  assert (Hcp : connected s1 p) by (rewrite Forall_forall in Hcon; apply Hcon; by eapply list_elem_of_lookup_2).
  destruct (try_connected false (set_push addr) p [] s1 Hcp) as (s2 & E2 & K2 & [= _ Epos]).
  exists p, s2. split; [|split; [apply (in_force_keeps cache aw s); [by transitivity s1 | done] | split; [done | by rewrite Epos]]].
  assert (Etl : table_loop info now addr (length cache) [] s = (Ok (inl p), s2)).
  { assert (∃ i, length cache = Datatypes.S i) as [i ->] by (destruct cache; [done | by eexists]). cbn [table_loop].
    unfold bind at 1, modify. cbv zeta. rewrite !Ec. change (set_weighted _ s) with (set_weighted (mkWeighted (_update (weight_state s)) (_first (weight_state s)) (_lastBuildWeightTime (weight_state s)) pos cache (_activeWeightProxy (weight_state s))) s).
    rewrite <- Ec at 1. fold s1. unfold bind at 1, get_st. change (_staticRouterCache (weight_state s1)) with (_staticRouterCache (weight_state s)).
    change (_activeWeightProxy (weight_state s1)) with (_activeWeightProxy (weight_state s)). rewrite Ec, Ea.
    by rewrite (bind_Ok _ _ _ _ _ Ej), (bind_Ok _ _ _ _ _ Ep), (bind_Ok _ _ _ _ _ E2). }
  unfold getWeightedProxy, getWeightedForNormal. unfold bind at 1, get_st. rewrite bool_decide_false by done.
  assert (Er : rebuild_weights now s = (Ok tt, s)) by (unfold rebuild_weights; unfold bind at 1, get_st; by rewrite (proj2 (Z.leb_gt _ _)) by lia).
  rewrite (bind_Ok _ _ _ _ _ Er). unfold bind at 1, get_st. rewrite Ec, Ea.
  assert (0 < zlen aw) by lia. rewrite !(proj2 (Z.ltb_lt _ _)) by lia. cbn [andb].
  by rewrite bind_assoc, (bind_Ok _ _ _ _ _ Etl).
Qed.

(** The first call makes the table. *)
Lemma rebuild_run s : inv s → _update (weight_state s) = true → _lastBuildWeightTime (weight_state s) ≤ now →
  weighted_of s ≠ [] → Forall (connected s) (weighted_of s).*1 →
  ∃ s1, in_force (Router.build (seq 0 (length (weighted_of s))) (weighted_of s).*2) (weighted_of s).*1 s1 ∧
    _lastSWeightPosition (weight_state s1) = 0 ∧
    ∀ b, getWeightedProxy info now rand addr b s = getWeightedProxy info now rand addr b s1.
Proof.
  intros Hs Hu Ht Hne Hcon.
  destruct (update_weights_spec stack known N W Hstack HN HW s Hs) as (s1 & E1 & Hs1 & Ev1).
  rewrite (update_weights_run stack known N W Hstack s Hs), (bool_decide_false _ Hne) in E1. cbv zeta in E1. rewrite Hu in E1. injection E1 as E1.
  set (s2 := set_weighted (mkWeighted (_update (weight_state s1)) false (now + updateWeightInterval + (if _first (weight_state s1) then 5 else 0))
    (_lastSWeightPosition (weight_state s1)) (_staticRouterCache (weight_state s1)) (_activeWeightProxy (weight_state s1))) s1).
  assert (Er : rebuild_weights now s = (Ok tt, s2)).
  { unfold rebuild_weights. unfold bind at 1, get_st. rewrite (proj2 (Z.leb_le _ _)) by lia.
    assert (Eu : updateProxyWeighted s = (Ok tt, s1)).
    { rewrite (update_weights_run stack known N W Hstack s Hs), (bool_decide_false _ Hne). cbv zeta. by rewrite Hu, E1. }
    by rewrite (bind_Ok _ _ _ _ _ Eu). }
  assert (Hact : _activeProxys s ≠ []).
  { intros En. apply Hne. unfold weighted_of. by rewrite En. }
  exists s2. split; [|split; [by subst s1 |]].
  - subst s1. constructor; cbn; try done.
    + by apply (inv_set_weighted stack known N W _ _ Hs1); [apply (inv_table _ _ _ _ _ Hs1) | apply (inv_table_len _ _ _ _ _ Hs1) | apply (inv_weighted _ _ _ _ _ Hs1)].
    + unfold updateWeightInterval. destruct (_first _); lia.
  - intros b. assert (Eg : ∃ R, ∀ s0, _activeProxys s0 ≠ [] → rebuild_weights now s0 = (Ok tt, s2) → getWeightedProxy info now rand addr b s0 = R).
    { eexists. intros s0 Hne0 Er0. unfold getWeightedProxy, getWeightedForNormal. unfold bind at 1, get_st.
      rewrite (bool_decide_false _ Hne0), (bind_Ok _ _ _ _ _ Er0). reflexivity. }
    destruct Eg as [R Eg]. rewrite (Eg s Hact Er). symmetry. apply Eg; [by subst s1 |].
    unfold rebuild_weights. unfold bind at 1, get_st. rewrite (proj2 (Z.leb_gt _ _)); [done |].
    unfold s2. cbn. unfold updateWeightInterval. case_match; lia.
Qed.

(** ** Properties *)

(** Round robin is fair: while the active adapters stay connected, consecutive calls
    of [getNextValidProxy] return them in turn, from the one behind the last position,
    and as many calls as there are adapters return each as often as it is listed. *)
Theorem round_robin_in_turn s n : 0 < zlen (_activeProxys s) < 2 ^ 64 → Forall (connected s) (_activeProxys s) →
  ∃ ps s', repeated (getNextValidProxy info now rand) n s = (Ok (Some <$> ps), s') ∧ length ps = n ∧
    in_turn (_activeProxys s) (next_pos (zlen (_activeProxys s)) (_lastRoundPosition s)) ps ∧
    (n = length (_activeProxys s) → ps ≡ₚ _activeProxys s).
Proof.
  intros Hn Hc.
  destruct (repeated_in_turn (getNextValidProxy info now rand) (all_connected (_activeProxys s)) _lastRoundPosition (_activeProxys s) Hn
    (λ s0, next_in_turn (_activeProxys s) s0 (proj1 Hn)) n s) as (ps & s' & E & _ & Hlen & Ht); [by constructor |].
  exists ps, s'. split_and!; [done | done | done |]. intros ->. rewrite (in_turn_rotate _ _ _ Ht Hlen). apply rotate_perm.
Qed.

(** C33: Calls by weight are fair: when the table is made anew ([_update] set, its time
    come) and the active adapters of positive weight are connected, all further calls
    go round a table that holds every adapter whose share comes to 0 once and every
    other one exactly as often as its share [w * r / wmax], and in whose second part
    nobody is a whole call ahead of its share in any prefix ([fair_table]); [r] is the
    ratio of the largest to the smallest weight, kept between 10 and 100. *)
Theorem weighted_in_shares b s : inv s → _update (weight_state s) = true → _lastBuildWeightTime (weight_state s) ≤ now →
  weighted_of s ≠ [] → Forall (connected s) (weighted_of s).*1 →
  let ids := seq 0 (length (weighted_of s)) in let ws := (weighted_of s).*2 in
  ∃ wmax wmin zeros picks, (wmax ∈ ws ∧ Forall (λ w, w ≤ wmax) ws) ∧ (wmin ∈ ws ∧ Forall (λ w, wmin ≤ w) ws) ∧
    fair_table (zip ids (map (share_of (ratio wmax wmin) wmax) ws)) zeros picks ∧
    let l := omap (λ i, (weighted_of s).*1 !! i) (zeros ++ picks) in
    length l = length (zeros ++ picks) ∧
    ∀ n, ∃ ps s', repeated (getWeightedProxy info now rand addr b) n s = (Ok (Some <$> ps), s') ∧ length ps = n ∧
      in_turn l (next_pos (zlen l) 0) ps ∧ (n = length l → ps ≡ₚ l).
Proof.
  intros Hs Hu Ht Hne Hcon ids ws. destruct (rebuild_run s Hs Hu Ht Hne Hcon) as (s1 & Hf & Hpos & Eq).
  pose proof (weighted_of_length s) as Hlw. pose proof (inv_len _ _ _ _ s Hs) as Hlen.
  assert (Hlen0 : 0 < zlen (weighted_of s)) by (destruct (weighted_of s); [done | cbn; lia]).
  destruct (build_fair ids ws) as (wmax & wmin & zeros & picks & Hmax & Hmax' & Hmin & Hmin' & Eb & Hfair & _).
  { apply NoDup_seq. } { unfold ids, ws. by rewrite length_seq, length_fmap. } { by intros En%fmap_nil_inv. }
  { apply Forall_forall. intros v ([q w] & -> & Hq)%list_elem_of_fmap. apply weighted_of_in in Hq as (_ & Hw & Hq).
    pose proof (inv_weights _ _ _ _ s Hs q w Hq). cbn. lia. }
  { unfold ids. rewrite length_seq. lia. }
  exists wmax, wmin, zeros, picks. split_and!; [done.. |]. fold ids ws in Hf. rewrite Eb in Hf. intros l.
  assert (Hl : length l = length (zeros ++ picks)).
  { pose proof (table_ptrs_length stack known N W s1 (if_inv _ _ _ Hf)) as El. unfold table_ptrs in El.
    rewrite (if_cache _ _ _ Hf), (if_active _ _ _ Hf) in El. exact El. }
  assert (Hl0 : zeros ++ picks ≠ []).
  { intros En. pose proof (inv_table _ _ _ _ s1 (if_inv _ _ _ Hf) 0%nat) as Hi. rewrite (if_cache _ _ _ Hf), (if_active _ _ _ Hf), En in Hi.
    rewrite length_fmap in Hi. apply (not_elem_of_nil 0%nat), Hi. lia. }
  assert (Hlr : 0 < zlen l < 2 ^ 64).
  { pose proof (inv_table_len _ _ _ _ s1 (if_inv _ _ _ Hf)) as Hb. rewrite (if_cache _ _ _ Hf) in Hb. rewrite Hl. destruct (zeros ++ picks); [done | cbn in *; lia]. }
  split; [done |]. intros n.
  destruct (repeated_in_turn (getWeightedProxy info now rand addr b) (in_force (zeros ++ picks) (weighted_of s).*1)
    (λ s0, _lastSWeightPosition (weight_state s0)) l Hlr (λ s0, weighted_in_turn _ _ b s0 Hl0) n s1 Hf) as (ps & s' & E & _ & Hn & Hturn).
  rewrite Hpos in Hturn. exists ps. assert (∃ s'', repeated (getWeightedProxy info now rand addr b) n s = (Ok (Some <$> ps), s'')) as (s'' & E').
  { destruct n as [|n]; [exists s; by destruct ps |]. exists s'. cbn [repeated] in *. unfold bind at 1. rewrite Eq. exact E. }
  exists s''. split_and!; [done | done | done |]. intros ->. rewrite (in_turn_rotate _ _ _ Hturn Hn). apply rotate_perm.
Qed.
End turns.

(** * The properties at work *)

Definition sample_manager : t script := QueryEp.manager sample_init.2.

Lemma sample_connected l : forallb (λ p, bool_decide (p < 2)%nat) l = true → Forall (connected sample_manager) l.
Proof.
  intros Hl. apply Forall_forall. intros p Hp. rewrite forallb_forall in Hl. specialize (Hl p ltac:(by apply list_elem_of_In)).
  apply bool_decide_eq_true in Hl. destruct p as [|[|p]]; [eexists; vm_compute; by split.. | lia].
Qed.
Lemma sample_inv : EndpointState.inv stack_garbage sample_known 10 100 sample_manager.
Proof.
  destruct (init_spec sample_trans stack_garbage sample_garbage sample_known 10 100 eq_refl ltac:(lia) ltac:(lia) true 60 false true sample_cache None
    sample_parsed I) as (s & E & [Hm _ _]).
  assert (Es : sample_init.2 = s) by (unfold sample_init; by rewrite E). unfold sample_manager. by rewrite Es.
Qed.

Lemma round_robin_in_turn_witness : ∃ ps s',
  repeated (getNextValidProxy sample_info 1000 (λ _, 0)) 5 sample_manager = (Ok (Some <$> ps), s') ∧ ps = [1; 0; 1; 0; 1]%nat.
Proof.
  destruct (round_robin_in_turn sample_info 1000 (λ _, 0) sample_manager 5) as (ps & s' & E & Hl & Ht & _).
  { by vm_compute. } { by apply sample_connected. }
  exists ps, s'. split; [exact E |]. apply list_eq. intros k. destruct (decide (k < 5)%nat) as [Hk|Hk].
  - rewrite Ht by (rewrite Hl; exact Hk). do 5 (destruct k as [|k]; [reflexivity |]). lia.
  - rewrite !lookup_ge_None_2; [done | cbn; lia | lia].
Defined.

Lemma weighted_in_shares_witness : ∃ wmax wmin zeros picks,
  fair_table (zip [0; 1]%nat (map (share_of (ratio wmax wmin) wmax) [100; 30])) zeros picks ∧ wmax ∈ [100; 30].
Proof.
  destruct (weighted_in_shares sample_info 1000 (λ _, 0) (λ p, Z.of_nat p) stack_garbage sample_known 10 100 eq_refl ltac:(lia) ltac:(lia) true
    sample_manager sample_inv) as (wmax & wmin & zeros & picks & [Hmax _] & _ & Hf & _).
  { reflexivity. } { by vm_compute. } { by vm_compute. } { by apply sample_connected. }
  exists wmax, wmin, zeros, picks. split; [exact Hf | exact Hmax].
Defined.
