(* ===== verification/RequestQueue.v ===== *)
(** The timeout queue [TC_TimeoutQueueNoID] of
    [src/util/include/util/tc_timeout_queue_noid.h]: the messages of an object in the
    order of arrival, and by deadline, with iterators between the two containers. *)
From stdpp Require Import prelude list sorting.
From Stdlib Require Import ZArith Lia.
From S2P Require Import Prelude Bytes EndpointManager EndpointWeights.

Lemma rq_filter_ext_in {A} (P Q : A → Prop) `{!∀ x, Decision (P x)} `{!∀ x, Decision (Q x)} l :
  Forall (λ x, P x ↔ Q x) l → filter P l = filter Q l.
Proof.
  induction 1 as [|x l Hx _ IH]; [done |]. rewrite !filter_cons, IH. destruct (decide (P x)), (decide (Q x)); [done | tauto | tauto | done].
Qed.

Module TimeoutQueueNoID.
Section queue.
Context {T : Type}.

(** [n] names the two nodes one [push] makes, and with them both iterators: the
    [listIter] in the node of [_time] and the [timeIter] in the node of [_list].
    [_time] is in the order of the multimap, [_list] from front to back. *)
Record t := mk { _time : list (Z * nat); _list : list (nat * T); nodes : nat }.

Definition new : t := mk [] [] 0.

Abbreviation M A := (prog t Empty_set A).

Definition set_time l : M unit := modify (λ s, mk l (_list s) (nodes s)).
Definition set_list l : M unit := modify (λ s, mk (_time s) l (nodes s)).

(** [_time.erase(it)] and [_list.erase(it)]. *)
Definition time_erase (n : nat) : M unit :=
  let* s := get_st in
  if decide (n ∈ (_time s).*2) then set_time (filter (λ x, x.2 ≠ n) (_time s)) else out_of_bounds.
Definition list_erase (n : nat) : M unit :=
  let* s := get_st in
  if decide (n ∈ (_list s).*1) then set_list (filter (λ x, x.1 ≠ n) (_list s)) else out_of_bounds.

(** [begin()], [++it] and [( *it).ptr]; [None] is [end()]. *)
Definition begin_ : M (option nat) := let* s := get_st in ret (head (_list s).*1).
Definition node_at (n : nat) (l : list (nat * T)) : option nat := fst <$> list_find (λ x, x.1 = n) l.
Definition next (n : nat) : M (option nat) :=
  let* s := get_st in
  match node_at n (_list s) with Some i => ret ((_list s).*1 !! S i) | None => out_of_bounds end.
Definition deref (n : nat) : M T :=
  let* s := get_st in
  match node_at n (_list s) ≫= λ i, _list s !! i with Some x => ret x.2 | None => out_of_bounds end.

Definition empty (s : t) : bool := match _list s with [] => true | _ => false end.
Definition size (s : t) : Z := zlen (_list s).

(** [front] and [pop]: the oldest message is at the back. *)
Definition front : M (option T) := let* s := get_st in ret (snd <$> last (_list s)).
Definition pop : M (option T) :=
  let* s := get_st in
  match last (_list s) with
  | None => ret None
  | Some (n, ptr) => time_erase n ;;; set_list (removelast (_list s)) ;;; ret (Some ptr)
  end.

(** The deadline becomes a [uint64_t]. *)
Definition push (ptr : T) (timeout : Z) : M bool :=
  let* s := get_st in
  let n := nodes s in
  put_st (mk (mm_insert (wrapU 64 timeout, n) (_time s)) ((n, ptr) :: _list s) (S n)) ;;; ret true.

(** [timeout(T&)]. *)
Definition timeout (iNow : Z) : M (option T) :=
  let* s := get_st in
  match _time s with
  | [] => ret None
  | (d, n) :: _ =>
    if wrapU 64 iNow <? d then ret None else
    let* ptr := deref n in list_erase n ;;; time_erase n ;;; ret (Some ptr)
  end.
(** [timeout()]. *)
Fixpoint timeout_loop (fuel : nat) (iNow : Z) : M unit :=
  match fuel with
  | O => λ s, (NoFuel, s)
  | S fuel' =>
    let* s := get_st in
    match _time s with
    | [] => ret tt
    | (d, n) :: _ => if wrapU 64 iNow <? d then ret tt else list_erase n ;;; time_erase n ;;; timeout_loop fuel' iNow
    end
  end.
Definition timeout_all (iNow : Z) : M unit := let* s := get_st in timeout_loop (S (length (_time s))) iNow.

(** ** The flat queue *)

(** A message with its deadline, and the name of its nodes; the oldest comes first. *)
Record entry := mkEntry { e_ptr : T; e_deadline : Z; e_node : nat }.
Definition times (G : list entry) : list (Z * nat) := fold_left (λ m g, mm_insert (e_deadline g, e_node g) m) G [].
Definition drop_node (n : nat) (G : list entry) : list entry := filter (λ g, e_node g ≠ n) G.

(** The entry with the earliest deadline, the oldest of several. *)
Fixpoint earliest (G : list entry) : option entry :=
  match G with
  | [] => None
  | g :: G' => match earliest G' with Some g' => if e_deadline g' <? e_deadline g then Some g' else Some g | None => Some g end
  end.

Record rep (s : t) (G : list entry) : Prop := {
  rep_list : _list s = (λ g, (e_node g, e_ptr g)) <$> reverse G;
  rep_time : _time s = times G;
  rep_nodup : NoDup (e_node <$> G);
  rep_fresh : Forall (λ g, (e_node g < nodes s)%nat) G
}.

Lemma rq_times_snoc G g : times (G ++ [g]) = mm_insert (e_deadline g, e_node g) (times G).
Proof. unfold times. by rewrite fold_left_app. Qed.
Lemma rq_times_sorted G : StronglySorted le_key (times G).
Proof. induction G as [|g G IH] using rev_ind; [constructor |]. rewrite rq_times_snoc. by apply mm_insert_sorted. Qed.
Lemma rq_times_perm G : times G ≡ₚ (λ g, (e_deadline g, e_node g)) <$> G.
Proof.
  induction G as [|g G IH] using rev_ind; [done |]. rewrite rq_times_snoc, mm_insert_perm, IH, fmap_app. cbn. by rewrite Permutation_cons_append.
Qed.

Lemma mm_insert_front kv m : Forall (λ x, kv.1 < x.1) m → mm_insert kv m = kv :: m.
Proof. destruct m as [|x m]; [done |]. intros [Hx _]%Forall_cons. cbn. by rewrite (proj2 (Z.ltb_lt _ _)). Qed.
Lemma mm_insert_filter (P : Z * nat → Prop) `{!∀ x, Decision (P x)} kv m : StronglySorted le_key m →
  filter P (mm_insert kv m) = if decide (P kv) then mm_insert kv (filter P m) else filter P m.
Proof.
  induction 1 as [|x m Hs IH Hx]; cbn [mm_insert]; [by rewrite filter_cons; case_decide |].
  destruct (Z.ltb_spec kv.1 x.1) as [Hlt|Hge].
  - rewrite (filter_cons P kv). case_decide; [|done]. symmetry. apply mm_insert_front.
    rewrite Forall_forall in *. intros y [_ Hy]%list_elem_of_filter. apply elem_of_cons in Hy as [->|Hy]; [done |].
    specialize (Hx y Hy). unfold le_key in Hx. lia.
  - rewrite !(filter_cons P x), IH. destruct (decide (P x)) as [Hp|Hp]; [|done]. destruct (decide (P kv)); [|done].
    cbn. by rewrite (proj2 (Z.ltb_ge _ _)).
Qed.
Lemma times_drop n G : filter (λ x, x.2 ≠ n) (times G) = times (drop_node n G).
Proof.
  induction G as [|g G IH] using rev_ind; [done |]. rewrite rq_times_snoc, mm_insert_filter by apply rq_times_sorted. rewrite IH.
  unfold drop_node. rewrite filter_app, (filter_cons _ g), filter_nil. cbn [snd]. case_decide; [by rewrite rq_times_snoc | by rewrite app_nil_r].
Qed.

Lemma rq_earliest_snoc G g : earliest (G ++ [g]) =
  Some (match earliest G with Some r => if e_deadline g <? e_deadline r then g else r | None => g end).
Proof.
  induction G as [|r G IH]; [done |]. cbn. rewrite IH. destruct (earliest G) as [r'|].
  - destruct (Z.ltb_spec (e_deadline g) (e_deadline r')); destruct (Z.ltb_spec (e_deadline r') (e_deadline r)); cbn;
      repeat case_match; try done; lia.
  - by destruct (e_deadline g <? e_deadline r).
Qed.
Lemma times_head G : head (times G) = (λ g, (e_deadline g, e_node g)) <$> earliest G.
Proof.
  induction G as [|g G IH] using rev_ind; [done |]. rewrite rq_times_snoc, rq_earliest_snoc. cbn.
  destruct (times G) as [|x m]; destruct (earliest G) as [r|]; try done. cbn in IH. injection IH as ->. cbn.
  by destruct (e_deadline g <? e_deadline r).
Qed.

(** *** The operations on it *)

Lemma rq_rep_new : rep new [].
Proof. constructor; [done | done | constructor | constructor]. Qed.

Lemma empty_spec s G : rep s G → empty s = match G with [] => true | _ => false end.
Proof.
  intros [El _ _ _]. unfold empty. rewrite El. destruct G as [|g G]; [done |]. rewrite reverse_cons, fmap_app.
  by destruct ((λ g, (e_node g, e_ptr g)) <$> reverse G).
Qed.
Lemma rq_size_spec s G : rep s G → size s = zlen G.
Proof. intros [El _ _ _]. unfold size. by rewrite El, length_fmap, length_reverse. Qed.

Lemma rq_push_spec s G x d : rep s G → ∃ s' n, push x d s = (Ok true, s') ∧ rep s' (G ++ [mkEntry x (wrapU 64 d) n]).
Proof.
  intros [El Et Hnd Hf]. unfold push, bind, get_st, put_st, ret. eexists _, (nodes s). split; [reflexivity |]. constructor; cbn.
  - by rewrite reverse_snoc, El.
  - by rewrite rq_times_snoc, Et.
  - rewrite fmap_app. apply NoDup_app. split; [done |]. split; [|apply NoDup_singleton].
    intros n (g & -> & Hg)%list_elem_of_fmap Heq%list_elem_of_singleton. rewrite Forall_forall in Hf. specialize (Hf g Hg). cbn in *. rewrite Heq in Hf. by apply Nat.lt_irrefl in Hf.
  - apply Forall_app. split; [eapply Forall_impl; [exact Hf |]; cbn; lia | by repeat constructor].
Qed.

Lemma rep_drop s G n t0 l0 : rep s G → t0 = times (drop_node n G) → l0 = (λ g, (e_node g, e_ptr g)) <$> reverse (drop_node n G) →
  rep (mk t0 l0 (nodes s)) (drop_node n G).
Proof.
  intros [El Et Hnd Hf] -> ->. constructor; cbn; [done | done | |].
  - by apply NoDup_map_filter.
  - rewrite Forall_forall in *. intros g [_ Hg]%list_elem_of_filter. by apply Hf.
Qed.

Lemma time_erase_spec s G g : rep s G → g ∈ G → time_erase (e_node g) s = (Ok tt, mk (times (drop_node (e_node g) G)) (_list s) (nodes s)).
Proof.
  intros [El Et Hnd Hf] Hg. unfold time_erase, bind, get_st. rewrite decide_True; [by rewrite <- times_drop, <- Et |].
  rewrite Et, rq_times_perm, <- list_fmap_compose. apply list_elem_of_fmap. by exists g.
Qed.
Lemma list_erase_spec s G g t0 : rep s G → g ∈ G →
  list_erase (e_node g) (mk t0 (_list s) (nodes s)) = (Ok tt, mk t0 ((λ g, (e_node g, e_ptr g)) <$> reverse (drop_node (e_node g) G)) (nodes s)).
Proof.
  intros [El Et Hnd Hf] Hg. unfold list_erase, bind, get_st. cbn. rewrite decide_True.
  - unfold set_list, modify. cbn [_list]. rewrite El. enough (E : ∀ L : list entry, filter (λ x, x.1 ≠ e_node g) ((λ g, (e_node g, e_ptr g)) <$> L) =
      (λ g, (e_node g, e_ptr g)) <$> drop_node (e_node g) L).
    { rewrite E. unfold drop_node. by rewrite filter_reverse. }
    unfold drop_node. induction L as [|x L IH]; [done |]. cbn [fmap list_fmap]. rewrite !filter_cons, IH. cbn [fst]. by case_decide.
  - rewrite El, <- list_fmap_compose. apply list_elem_of_fmap. exists g. split; [done |]. by apply elem_of_reverse.
Qed.

Lemma node_at_spec s G g i : rep s G → reverse G !! i = Some g → node_at (e_node g) (_list s) = Some i.
Proof.
  intros [El Et Hnd Hf] Hi. assert (Hnd' : NoDup (e_node <$> reverse G)) by (by rewrite reverse_Permutation).
  unfold node_at. rewrite El. apply fmap_Some. exists (i, (e_node g, e_ptr g)). split; [|done]. apply list_find_Some. split_and!; [|done|].
  - by rewrite list_lookup_fmap, Hi.
  - intros j y Hy Hj En. rewrite list_lookup_fmap in Hy. destruct (reverse G !! j) as [g'|] eqn:Hg'; [|done]. cbn in Hy. injection Hy as <-. cbn in En.
    assert (i = j) as <-; [|lia]. apply (NoDup_lookup _ i j (e_node g) Hnd'); by rewrite list_lookup_fmap, ?Hi, ?Hg'; cbn; rewrite ?En.
Qed.
Lemma deref_spec s G g : rep s G → g ∈ G → deref (e_node g) s = (Ok (e_ptr g), s).
Proof.
  intros Hs Hg. destruct (list_elem_of_lookup_1 (reverse G) g) as [i Hi]; [by apply elem_of_reverse |].
  unfold deref, bind, get_st. rewrite (node_at_spec s G g i Hs Hi). cbn. by rewrite (rep_list _ _ Hs), list_lookup_fmap, Hi.
Qed.
Lemma begin_spec s G : rep s G → begin_ s = (Ok (e_node <$> reverse G !! 0%nat), s).
Proof.
  intros Hs. unfold begin_, bind, get_st, ret. rewrite (rep_list _ _ Hs). by destruct (reverse G).
Qed.
Lemma rq_next_spec s G g i : rep s G → reverse G !! i = Some g → next (e_node g) s = (Ok (e_node <$> reverse G !! S i), s).
Proof.
  intros Hs Hi. unfold next, bind, get_st. rewrite (node_at_spec s G g i Hs Hi). unfold ret.
  by rewrite (rep_list _ _ Hs), <- list_fmap_compose, list_lookup_fmap.
Qed.

Lemma rq_pop_spec s G : rep s G → ∃ s', pop s = (Ok (e_ptr <$> head G), s') ∧ rep s' (tail G).
Proof.
  intros Hs. pose proof Hs as [El Et Hnd Hf]. unfold pop, bind at 1, get_st. destruct G as [|g G].
  { rewrite El. by exists s. }
  rewrite El, reverse_cons, fmap_app. cbn [fmap list_fmap]. rewrite last_snoc.
  rewrite (bind_Ok _ _ _ _ _ (time_erase_spec s (g :: G) g Hs ltac:(left))). eexists. split; [reflexivity |].
  assert (Ed : drop_node (e_node g) (g :: G) = G).
  { unfold drop_node. rewrite filter_cons, decide_False by (intros Hne; by apply Hne). apply filter_all.
    apply Forall_forall. intros x Hx Ex. apply NoDup_cons in Hnd as [Hnin _]. apply Hnin, list_elem_of_fmap. exists x. split; [done | exact Hx]. }
  rewrite removelast_last. pose proof (rep_drop s (g :: G) (e_node g) _ _ Hs eq_refl eq_refl) as Hr. rewrite Ed in *. exact Hr.
Qed.

(** What [timeout] takes. *)
Definition due (now : Z) (G : list entry) : option entry :=
  match earliest G with Some g => if wrapU 64 now <? e_deadline g then None else Some g | None => None end.

Lemma earliest_in G g : earliest G = Some g → g ∈ G.
Proof.
  revert g. induction G as [|x G IH]; intros g; cbn; [done |]. destruct (earliest G) as [g'|]; [|intros [= ->]; left].
  destruct (e_deadline g' <? e_deadline x); intros [= <-]; [right; by apply IH | left].
Qed.

Lemma rq_earliest_le G g x : earliest G = Some g → x ∈ G → e_deadline g ≤ e_deadline x.
Proof.
  revert g. induction G as [|y G IH]; intros g; cbn; [done |]. destruct (earliest G) as [g'|] eqn:Eg.
  - destruct (Z.ltb_spec (e_deadline g') (e_deadline y)); intros [= <-] [->|Hx]%elem_of_cons; [lia | by apply IH | lia |].
    specialize (IH g' eq_refl Hx). lia.
  - intros [= <-] [->|Hx]%elem_of_cons; [lia |]. destruct G as [|z G]; [by apply not_elem_of_nil in Hx |]. cbn in Eg.
    destruct (earliest G); [by case_match | done].
Qed.

Definition not_due (now : Z) (G : list entry) : list entry := filter (λ g, wrapU 64 now < e_deadline g) G.

Lemma rq_due_None now G : due now G = None → not_due now G = G.
Proof.
  unfold due. intros Hd. apply filter_all, Forall_forall. intros x Hx. destruct (earliest G) as [g|] eqn:Eg.
  - pose proof (rq_earliest_le G g x Eg Hx). destruct (Z.ltb_spec (wrapU 64 now) (e_deadline g)); [lia | done].
  - destruct G as [|z G]; [by apply not_elem_of_nil in Hx |]. cbn in Eg. destruct (earliest G); [by case_match | done].
Qed.
Lemma drop_perm G g : NoDup (e_node <$> G) → g ∈ G → G ≡ₚ g :: drop_node (e_node g) G.
Proof.
  intros Hnd Hg. induction G as [|x G IH]; [by apply not_elem_of_nil in Hg |]. apply NoDup_cons in Hnd as [Hx Hnd]. unfold drop_node. rewrite filter_cons.
  apply elem_of_cons in Hg as [->|Hg].
  - rewrite decide_False by (intros Hne; by apply Hne). rewrite filter_all; [done |]. apply Forall_forall. intros y Hy Ey.
    apply Hx, list_elem_of_fmap. exists y. split; [done | exact Hy].
  - rewrite decide_True.
    + rewrite (IH Hnd Hg) at 1. apply perm_swap.
    + intros Ex. apply Hx, list_elem_of_fmap. exists g. split; [done | exact Hg].
Qed.
Lemma rq_due_Some now G g : NoDup (e_node <$> G) → due now G = Some g → g ∈ G ∧ e_deadline g ≤ wrapU 64 now ∧
  not_due now (drop_node (e_node g) G) = not_due now G ∧ G ≡ₚ g :: drop_node (e_node g) G.
Proof.
  unfold due. intros Hnd. destruct (earliest G) as [g'|] eqn:Eg; [|done]. destruct (Z.ltb_spec (wrapU 64 now) (e_deadline g')); [done |]. intros [= ->].
  pose proof (earliest_in G g Eg) as Hg. split_and!; [done | lia | | by apply drop_perm].
  unfold not_due, drop_node. rewrite list_filter_filter. apply rq_filter_ext_in. apply Forall_forall. intros x Hx. split; [tauto |].
  intros Hd. split; [done |]. intros Ex. assert (x = g) as ->; [|lia].
  apply list_elem_of_lookup in Hx as [i Hi], Hg as [j Hj].
  assert (i = j) as ->; [|congruence]. apply (NoDup_lookup _ i j (e_node g) Hnd); by rewrite list_lookup_fmap, ?Hi, ?Hj; cbn; rewrite ?Ex.
Qed.

Lemma rq_timeout_spec s G now : rep s G → ∃ s', timeout now s = (Ok (e_ptr <$> due now G), s') ∧
  rep s' (match due now G with Some g => drop_node (e_node g) G | None => G end).
Proof.
  intros Hs. pose proof Hs as [El Et Hnd Hf]. unfold timeout, due. unfold bind at 1, get_st. pose proof (times_head G) as Eh.
  rewrite Et. destruct (times G) as [|[d n] m] eqn:Em; destruct (earliest G) as [g|] eqn:Eg; try done; [by exists s |].
  cbn in Eh. injection Eh as -> ->. case_match; [by exists s |].
  pose proof (earliest_in G g Eg) as Hg. rewrite (bind_Ok _ _ _ _ _ (deref_spec s G g Hs Hg)).
  pose proof (list_erase_spec s G g (_time s) Hs Hg) as Ee. assert (Es : mk (_time s) (_list s) (nodes s) = s) by (by destruct s).
  rewrite Es in Ee. rewrite (bind_Ok _ _ _ _ _ Ee).
  unfold bind at 1, time_erase. unfold bind at 1, get_st. cbn [_time]. rewrite decide_True.
  - eexists. split; [reflexivity |]. apply (rep_drop s G); [done | by rewrite <- times_drop, Em, <- Et | done].
  - rewrite Et, <- Em, rq_times_perm, <- list_fmap_compose. apply list_elem_of_fmap. by exists g.
Qed.
End queue.
Arguments t : clear implicits.
Arguments entry : clear implicits.
End TimeoutQueueNoID.
