(* ===== verification/ObjectProxy.v ===== *)
(** [ObjectProxy] from [src/servant/libservant/ObjectProxy.cpp]: between a proxy and the
    adapters of its endpoints.  It asks the [EndpointManager] for an adapter and keeps
    the messages that cannot go out yet. *)
From stdpp Require Import prelude gmap list.
From Stdlib Require Import ZArith Lia.
From S2P Require Import Prelude Bytes Packets AdapterProxy RequestQueue.

(** ** What the object calls *)

(** What the manager calls back: [doNotify], for a registry that failed too often, calls
    [doInvoke] of the object, and a connection that is made at once [onConnect]. *)
Inductive callback : Type := OnConnect (p : nat) | DoInvoke.

(** The [EndpointManager] and its adapters, which are numbers.  Its [selectAdapterProxy]
    is [refreshReg], which returns whether it called [doNotify], and the choice of an
    adapter, which returns the result and the adapter with the callbacks. *)
Class Endpoints (E B : Type) := {
  ep_refreshReg : prog E Empty_set (list callback);
  ep_select : option (Z * bool) → prog E Empty_set ((bool * option nat) * list callback);
  ep_connected : nat → prog E Empty_set bool;                  (* trans()->hasConnected() *)
  ep_invoke : nat → nat → ReqMessage B → prog E Empty_set unit;  (* AdapterProxy::invoke *)
  ep_adapters : E → list nat;                                  (* getAdapters *)
  ep_activeAdapters : E → list nat;                            (* getActiveAdapters *)
  ep_doTimeout : nat → prog E Empty_set unit;
  ep_doKeepAlive : nat → prog E Empty_set unit;
  ep_mergeStat : nat → prog E Empty_set unit;
  ep_endpoint : nat → prog E Empty_set (list Z);               (* endpoint(), by cmpDesc *)
  ep_onSetInactive : nat → prog E Empty_set unit
}.

(** A message: with [data._hash], [_hashCode] and [_conHash], [callback] and [adapter]. *)
Record message (B : Type) := mkMessage { msg : ReqMessage B; hash : option (Z * bool); has_callback : bool; adapter : option nat }.
Arguments mkMessage {B}.
Arguments msg {B} _.
Arguments hash {B} _.
Arguments has_callback {B} _.
Arguments adapter {B} _.

(** Where a message goes: to an adapter; to the caller, as failed; or nowhere, with
    nothing but a line in the log. *)
Inductive fate : Type := ToAdapter (p : nat) | Failed (c : completion) | Forgotten.

Record settings := { tars_connect_timeout : Z; TARSADAPTERNULL : Z; TARSINVOKETIMEOUT : Z }.

Module ObjectProxy.
Section object.
Context {E B : Type} `{Endpoints E B} (C : settings).

(** [heap] holds the messages the object may touch, [gone] those that left, with their
    content. *)
Record t := mk {
  _hasInitialize : bool;
  _endpointManger : E;
  _reqTimeoutQueue : TimeoutQueueNoID.t nat;
  heap : gmap nat (message B);
  gone : list (nat * (fate * message B))
}.

Abbreviation M A := (prog t Empty_set A).

Definition set_heap h : M unit := modify (λ s, mk (_hasInitialize s) (_endpointManger s) (_reqTimeoutQueue s) h (gone s)).
(** A call of the manager or of an adapter, and one of the queue. *)
Definition on_endpoints {A} (m : prog E Empty_set A) : M A := λ s,
  let '(r, e) := m (_endpointManger s) in (r, mk (_hasInitialize s) e (_reqTimeoutQueue s) (heap s) (gone s)).
Definition on_queue {A} (m : prog (TimeoutQueueNoID.t nat) Empty_set A) : M A := λ s,
  let '(r, q) := m (_reqTimeoutQueue s) in (r, mk (_hasInitialize s) (_endpointManger s) q (heap s) (gone s)).

Definition deref (i : nat) : M (message B) := λ s,
  match heap s !! i with Some m => (Ok m, s) | None => (OutOfBounds, s) end.
Definition update (i : nat) (f : message B → message B) : M unit :=
  let* m := deref i in let* s := get_st in set_heap (<[i := f m]> (heap s)).
Definition with_adapter (p : nat) (m : message B) : message B := mkMessage (msg m) (hash m) (has_callback m) (Some p).
Definition with_msg (f : ReqMessage B → ReqMessage B) (m : message B) : message B :=
  mkMessage (f (msg m)) (hash m) (has_callback m) (adapter m).

(** The message leaves; from here on the object must not touch it. *)
Definition give (f : fate) (i : nat) : M unit :=
  let* m := deref i in
  modify (λ s, mk (_hasInitialize s) (_endpointManger s) (_reqTimeoutQueue s) (delete i (heap s)) (gone s ++ [(i, (f, m))])).
(** [adapterProxy->invoke(msg)]. *)
Definition adapter_invoke (p i : nat) : M unit :=
  let* m := deref i in give (ToAdapter p) i ;;; on_endpoints (ep_invoke p i (msg m)).

Definition doInvokeException (i : nat) : M unit :=
  let* m := deref i in
  if decide (eType (msg m) = ONE_WAY) then give (Failed Deleted) i else
  update i (with_msg (with_eStatus REQ_EXC)) ;;;
  let* m := deref i in
  if decide (eType (msg m) = SYNC_CALL) then
    if negb (sched (msg m)) then assert_that (pMonitor (msg m)) ;;; give (Failed Notified) i
    else give (Failed Scheduled) i
  else if has_callback m then
    if negb (sched (msg m)) then
      if netThread (msg m) then give (Failed Dispatched) i
      else match adapter m with Some _ => give (Failed Queued) i | None => give Forgotten i end
    else if coro (msg m) then give (Failed Inserted) i else give (Failed Deleted) i
  else give Forgotten i.

Definition fail_with (iRet : Z) (i : nat) : M unit :=
  update i (with_msg (with_iRet iRet)) ;;; doInvokeException i.

(** ** Selection, with what it calls back *)

Section selection.
Context (selectAdapterProxy : option (Z * bool) → M (bool * option nat)).

(** One round of the loop of [prepareConnection]: the adapter for the next one, or
    [None] to return. *)
Definition send_one (adapterProxy i : nat) : M (option nat) :=
  let* m := deref i in
  match adapter m, hash m with
  | None, Some _ =>
    let* r := selectAdapterProxy (hash m) in
    match r.2 with
    | None => fail_with (TARSADAPTERNULL C) i ;;; ret None
    | Some p => update i (with_adapter p) ;;; adapter_invoke p i ;;; ret (Some p)
    end
  | _, _ => update i (with_adapter adapterProxy) ;;; adapter_invoke adapterProxy i ;;; ret (Some adapterProxy)
  end.
Fixpoint prepare_loop (fuel : nat) (adapterProxy : nat) : M unit :=
  match fuel with
  | O => λ s, (NoFuel, s)
  | S fuel' =>
    let* s := get_st in
    if TimeoutQueueNoID.empty (_reqTimeoutQueue s) then ret tt else
    let* i := on_queue TimeoutQueueNoID.pop in
    match i with
    | None => λ s, (AssertFailed, s)
    | Some i =>
      let* r := send_one adapterProxy i in
      match r with None => ret tt | Some p => prepare_loop fuel' p end
    end
  end.
Definition prepareConnection (adapterProxy : nat) : M unit :=
  let* s := get_st in prepare_loop (S (length (TimeoutQueueNoID._list (_reqTimeoutQueue s)))) adapterProxy.

(** [doInvoke]: [it] runs over the list of the queue. *)
Fixpoint doInvoke_loop (fuel : nat) (it : option nat) : M unit :=
  match it with
  | None => ret tt
  | Some n =>
    match fuel with
    | O => λ s, (NoFuel, s)
    | S fuel' =>
      let* i := on_queue (TimeoutQueueNoID.deref n) in
      let* m := deref i in
      let* _ := selectAdapterProxy (hash m) in
      let* it := on_queue (TimeoutQueueNoID.next n) in
      doInvoke_loop fuel' it
    end
  end.
Definition doInvoke : M unit :=
  let* it := on_queue TimeoutQueueNoID.begin_ in
  let* s := get_st in doInvoke_loop (length (TimeoutQueueNoID._list (_reqTimeoutQueue s))) it.
End selection.

Fixpoint for_each {A} (f : A → M unit) (l : list A) : M unit :=
  match l with [] => ret tt | a :: l' => f a ;;; for_each f l' end.

(** [selectAdapterProxy] with its callbacks, whose own selections call back in turn;
    [depth] bounds the nesting. *)
Fixpoint selectAdapterProxy (depth : nat) (h : option (Z * bool)) : M (bool * option nat) :=
  let call_back cb :=
    match depth with
    | O => λ s, (NoFuel, s)
    | S depth' =>
      match cb with
      | OnConnect p => prepareConnection (selectAdapterProxy depth') p
      | DoInvoke => doInvoke (selectAdapterProxy depth')
      end
    end in
  let* cbs := on_endpoints ep_refreshReg in
  for_each call_back cbs ;;;
  let* r := on_endpoints (ep_select h) in
  for_each call_back r.2 ;;;
  ret r.1.

(** ** The operations *)

Section operations.
Context (depth : nat).
Abbreviation select := (selectAdapterProxy depth).

Definition push (i : nat) (deadline : Z) : M unit :=
  let* bRet := on_queue (TimeoutQueueNoID.push i deadline) in assert_that bRet.

Definition invoke (i : nat) : M unit :=
  let* m := deref i in
  let* r := select (hash m) in
  if (r.1 : bool) then push i (RequestPacket.iTimeout (request (msg m)) + iBeginTime (msg m)) else
  match r.2 with
  | None => fail_with (TARSADAPTERNULL C) i
  | Some p =>
    update i (with_adapter p) ;;;
    let* connected := on_endpoints (ep_connected p) in
    if negb connected then push i (tars_connect_timeout C + iBeginTime (msg m))
    else adapter_invoke p i
  end.

Definition onConnect (adapterProxy : nat) : M unit := prepareConnection select adapterProxy.

(** The loop over the queue of [doTimeout]. *)
Fixpoint timeout_loop (fuel : nat) (nowms : Z) : M unit :=
  match fuel with
  | O => λ s, (NoFuel, s)
  | S fuel' =>
    let* reqInfo := on_queue (TimeoutQueueNoID.timeout nowms) in
    match reqInfo with
    | None => ret tt
    | Some i => fail_with (TARSINVOKETIMEOUT C) i ;;; timeout_loop fuel' nowms
    end
  end.
(** [if(!_hasInitialize) return;] *)
Definition if_initialized (m : M unit) : M unit :=
  let* s := get_st in if negb (_hasInitialize s) then ret tt else m.

Definition doTimeout (nowms : Z) : M unit := if_initialized (
  let* s := get_st in
  for_each (λ p, on_endpoints (ep_doTimeout p)) (ep_adapters (_endpointManger s)) ;;;
  let* s := get_st in
  timeout_loop (S (length (TimeoutQueueNoID._list (_reqTimeoutQueue s)))) nowms).
Definition doKeepAlive : M unit := if_initialized (
  let* s := get_st in for_each (λ p, on_endpoints (ep_doKeepAlive p)) (ep_activeAdapters (_endpointManger s))).
Definition mergeStat : M unit := if_initialized (
  let* s := get_st in for_each (λ p, on_endpoints (ep_mergeStat p)) (ep_adapters (_endpointManger s))).
Definition onSetInactive (ep : list Z) : M unit := if_initialized (
  let* s := get_st in
  for_each (λ p, let* ep' := on_endpoints (ep_endpoint p) in
    if bool_decide (ep' = ep) then on_endpoints (ep_onSetInactive p) else ret tt) (ep_adapters (_endpointManger s))).

(** [new], once [initialize] is done. *)
Definition new (e : E) : t := mk true e TimeoutQueueNoID.new ∅ [].

(** What happens to an object: a call with the message it takes over, a connection that
    is made, the registry that answers, and the timers. *)
Inductive event : Type :=
  | Invoke (i : nat) (m : message B)
  | Connected (p : nat)
  | Notify
  | Timeout (nowms : Z)
  | KeepAlive
  | MergeStat
  | SetInactive (ep : list Z).
Definition handle (e : event) : M unit :=
  match e with
  | Invoke i m => (let* s := get_st in set_heap (<[i := m]> (heap s))) ;;; invoke i
  | Connected p => onConnect p
  | Notify => doInvoke select
  | Timeout nowms => doTimeout nowms
  | KeepAlive => doKeepAlive
  | MergeStat => mergeStat
  | SetInactive ep => onSetInactive ep
  end.
End operations.
End object.
Arguments t : clear implicits.
End ObjectProxy.
