(* ===== verification/ObjectTheorems.v ===== *)
(** [ObjectProxy]: what it needs of the [EndpointManager] and its adapters, and, against
    that interface, where its messages go. *)
From stdpp Require Import prelude gmap list sorting.
From Stdlib Require Import ZArith Lia.
From S2P Require Import Prelude Bytes Packets AdapterProxy RequestQueue ObjectProxy.
Import ObjectProxy.
Import TimeoutQueueNoID (rep, due, drop_node, earliest, e_ptr, e_deadline, e_node).

(** ** The interface *)

(** What the manager promises: from a good state every call returns to a good state;
    adapters stay; once the endpoints are valid they stay so, and nothing calls [doInvoke]
    back any more, which [refreshReg] does when it makes them valid.  No connection is
    made at once: [onConnect] is not called from a selection. *)
Class EndpointsSpec (E : Type) := {
  ep_ok : E → Prop;
  ep_valid : E → bool;
  ep_ptr : E → nat → Prop;
  ep_hash_ok : option (Z * bool) → Prop
}.
Definition ep_step {E} `{EndpointsSpec E} (e e' : E) : Prop :=
  ep_ok e' ∧ (ep_valid e = true → ep_valid e' = true) ∧ ∀ p, ep_ptr e p → ep_ptr e' p.
Definition ep_does {E} `{EndpointsSpec E} {A} (m : prog E Empty_set A) (e : E) : Prop :=
  ∃ a e', m e = (Ok a, e') ∧ ep_step e e'.
Class EndpointsLaws (E B : Type) `{Endpoints E B} `{EndpointsSpec E} : Prop := {
  refresh_law e : ep_ok e → ∃ cbs e', ep_refreshReg e = (Ok cbs, e') ∧ ep_step e e' ∧
    (cbs = [] ∨ ep_valid e = false ∧ cbs = [DoInvoke] ∧ ep_valid e' = true);
  select_law h e : ep_ok e → ep_hash_ok h → ∃ r e', ep_select h e = (Ok (r, []), e') ∧ ep_step e e' ∧
    ∀ p, r.2 = Some p → ep_ptr e' p;
  connected_law p e : ep_ok e → ep_ptr e p → ep_does (ep_connected p) e;
  invoke_law p i m e : ep_ok e → ep_ptr e p → ep_does (ep_invoke p i m) e;
  adapters_law e : ep_ok e → Forall (ep_ptr e) (ep_adapters e) ∧ Forall (ep_ptr e) (ep_activeAdapters e);
  doTimeout_law p e : ep_ok e → ep_ptr e p → ep_does (ep_doTimeout p) e;
  doKeepAlive_law p e : ep_ok e → ep_ptr e p → ep_does (ep_doKeepAlive p) e;
  mergeStat_law p e : ep_ok e → ep_ptr e p → ep_does (ep_mergeStat p) e;
  endpoint_law p e : ep_ok e → ep_ptr e p → ep_does (ep_endpoint p) e;
  onSetInactive_law p e : ep_ok e → ep_ptr e p → ep_does (ep_onSetInactive p) e
}.

Section object.
Context {E B : Type} `{EndpointsLaws E B} (C : settings).
Implicit Types s : t E B.
Implicit Types i p : nat.

Lemma step_refl (e : E) : ep_ok e → ep_step e e.
Proof. intros Hok. unfold ep_step. by split_and!. Qed.
Lemma step_trans (e1 e2 e3 : E) : ep_step e1 e2 → ep_step e2 e3 → ep_step e1 e3.
Proof. intros (_ & V1 & P1) (O2 & V2 & P2). split_and!; auto. Qed.

(** ** Ownership

    The messages the object holds: those [held] by a running operation and those in the
    queue.  [issued] lists all it was ever given. *)
Definition message_ok e (m : message B) : Prop :=
  ep_hash_ok (hash m) ∧ (eType (msg m) = SYNC_CALL → sched (msg m) = false → pMonitor (msg m) = true) ∧
  ∀ p, adapter m = Some p → ep_ptr e p.

(** What becomes of a message that failed. *)
Definition failure_fate (m : message B) : fate :=
  match eType (msg m) with
  | ONE_WAY => Failed Deleted
  | SYNC_CALL => if sched (msg m) then Failed Scheduled else Failed Notified
  | ASYNC_CALL =>
    if has_callback m then
      if sched (msg m) then if coro (msg m) then Failed Inserted else Failed Deleted
      else if netThread (msg m) then Failed Dispatched
      else match adapter m with Some _ => Failed Queued | None => Forgotten end
    else Forgotten
  end.
(** A message that is gone: to an adapter, which it then points to, or as it must fail. *)
Definition fate_ok (x : nat * (fate * message B)) : Prop :=
  match x.2.1 with ToAdapter p => adapter x.2.2 = Some p | f => f = failure_fate x.2.2 end.

Record owns (issued held : list nat) s (G : list (TimeoutQueueNoID.entry nat)) : Prop := {
  own_queue : rep (_reqTimeoutQueue s) G;
  own_endpoints : ep_ok (_endpointManger s);
  own_heap i : i ∈ dom (heap s) ↔ i ∈ held ++ (e_ptr <$> G);
  own_messages i m : heap s !! i = Some m → message_ok (_endpointManger s) m;
  own_once : held ++ (e_ptr <$> G) ++ (gone s).*1 ≡ₚ issued;
  own_nodup : NoDup issued;
  own_fates : Forall fate_ok (gone s);
  own_init : _hasInitialize s = true
}.

(** A program that only calls the manager. *)
Record aside s s' : Prop := {
  as_step : ep_step (_endpointManger s) (_endpointManger s');
  as_queue : _reqTimeoutQueue s' = _reqTimeoutQueue s;
  as_heap : heap s' = heap s;
  as_gone : gone s' = gone s;
  as_init : _hasInitialize s' = _hasInitialize s
}.
Lemma aside_trans s1 s2 s3 : aside s1 s2 → aside s2 s3 → aside s1 s3.
Proof. intros [] []. constructor; [by eapply step_trans | congruence..]. Qed.
Lemma aside_refl s : ep_ok (_endpointManger s) → aside s s.
Proof. intros. constructor; [by apply step_refl | done..]. Qed.

Lemma message_ok_step (e e' : E) (m : message B) : ep_step e e' → message_ok e m → message_ok e' m.
Proof. intros (_ & _ & P) (Hh & Hm & Ha). split_and!; auto. Qed.
Lemma owns_aside issued held s s' G : aside s s' → owns issued held s G → owns issued held s' G.
Proof.
  intros [St Eq Eh Eg Ei] []. constructor; rewrite ?Eq, ?Eh, ?Eg, ?Ei; try done; [apply St |].
  intros i m Hm. eapply message_ok_step; [exact St | eauto].
Qed.

Lemma on_endpoints_spec {A} (m : prog E Empty_set A) s : ep_does m (_endpointManger s) →
  ∃ a s', on_endpoints m s = (Ok a, s') ∧ aside s s'.
Proof. intros (a & e' & Em & St). unfold on_endpoints. rewrite Em. eexists _, _. split; [done |]. by constructor. Qed.

(** ** Selection *)

(** Once the callbacks of [refreshReg] have run. *)
Lemma select_after h s (call_back : callback → prog (t E B) Empty_set unit) : ep_ok (_endpointManger s) → ep_hash_ok h →
  ∃ r s', (let* r := on_endpoints (ep_select h) in for_each call_back r.2 ;;; ret r.1) s = (Ok r, s') ∧ aside s s' ∧
    ∀ p, r.2 = Some p → ep_ptr (_endpointManger s') p.
Proof.
  intros Hok Hh. destruct (select_law h _ Hok Hh) as (r & e' & Es & St & Hp).
  exists r, (mk (_hasInitialize s) e' (_reqTimeoutQueue s) (heap s) (gone s)). split; [|by split; [constructor |]].
  unfold bind, on_endpoints. by rewrite Es.
Qed.
Lemma refresh_spec s : ep_ok (_endpointManger s) → ∃ cbs s', on_endpoints ep_refreshReg s = (Ok cbs, s') ∧ aside s s' ∧
  (cbs = [] ∨ ep_valid (_endpointManger s) = false ∧ cbs = [DoInvoke] ∧ ep_valid (_endpointManger s') = true).
Proof.
  intros Hok. destruct (refresh_law _ Hok) as (cbs & e' & Er & St & Hc).
  exists cbs, (mk (_hasInitialize s) e' (_reqTimeoutQueue s) (heap s) (gone s)). unfold on_endpoints. rewrite Er.
  split; [done |]. by split; [constructor |].
Qed.

Lemma select_valid depth h s : ep_ok (_endpointManger s) → ep_hash_ok h → ep_valid (_endpointManger s) = true →
  ∃ r s', selectAdapterProxy C depth h s = (Ok r, s') ∧ aside s s' ∧ ∀ p, r.2 = Some p → ep_ptr (_endpointManger s') p.
Proof.
  intros Hok Hh Hv. destruct (refresh_spec s Hok) as (cbs & s1 & E1 & A1 & Hc).
  assert (cbs = []) as -> by (destruct Hc as [|(Hv' & _)]; [done | congruence]).
  destruct depth as [|depth]; cbn [selectAdapterProxy]; rewrite (bind_Ok _ _ _ _ _ E1); cbn [for_each].
  all: edestruct (select_after h s1) as (r & s2 & E2 & A2 & Hp); [apply A1 | done |].
  all: exists r, s2; split; [exact E2 |]; split; [by eapply aside_trans | done].
Qed.

Definition held_ok s (G : list (TimeoutQueueNoID.entry nat)) : Prop :=
  rep (_reqTimeoutQueue s) G ∧ ep_ok (_endpointManger s) ∧
  Forall (λ g, ∃ m, heap s !! e_ptr g = Some m ∧ ep_hash_ok (hash m)) G.

Lemma held_ok_aside s s' G : aside s s' → held_ok s G → held_ok s' G.
Proof. intros [St Eq Eh _ _] (Hr & Hok & Hm). unfold held_ok. rewrite Eq, Eh. split_and!; [done | apply St | done]. Qed.

(** The loop of [doInvoke] goes over the list of the queue to its end. *)
Lemma doInvoke_loop_spec depth G : ∀ n k s, held_ok s G → ep_valid (_endpointManger s) = true → (n + k = length G)%nat →
  ∃ s', doInvoke_loop (selectAdapterProxy C depth) n (e_node <$> reverse G !! k) s = (Ok tt, s') ∧ aside s s'.
Proof.
  intros n. induction n as [|n IH]; intros k s Hs Hv Hk; pose proof Hs as (Hr & Hok & Hm).
  { exists s. split; [|by apply aside_refl]. rewrite lookup_ge_None_2; [done |]. rewrite length_reverse. lia. }
  destruct (lookup_lt_is_Some_2 (reverse G) k) as [g Hg]; [rewrite length_reverse; lia |]. rewrite Hg. cbn [fmap option_fmap option_map doInvoke_loop].
  assert (HgG : g ∈ G) by (apply elem_of_reverse; by eapply list_elem_of_lookup_2).
  assert (Ed : on_queue (TimeoutQueueNoID.deref (e_node g)) s = (Ok (e_ptr g), s)).
  { unfold on_queue. rewrite (TimeoutQueueNoID.deref_spec _ G g Hr HgG). by destruct s. }
  rewrite (bind_Ok _ _ _ _ _ Ed). rewrite Forall_forall in Hm. destruct (Hm g HgG) as (m & Em & Hh).
  assert (Edm : deref (e_ptr g) s = (Ok m, s)) by (unfold deref; by rewrite Em). rewrite (bind_Ok _ _ _ _ _ Edm).
  destruct (select_valid depth (hash m) s Hok Hh Hv) as (r & s1 & E1 & A1 & _). rewrite (bind_Ok _ _ _ _ _ E1).
  pose proof (held_ok_aside _ _ _ A1 Hs) as Hs1. pose proof Hs1 as (Hr1 & _ & _).
  assert (En : on_queue (TimeoutQueueNoID.next (e_node g)) s1 = (Ok (e_node <$> reverse G !! S k), s1)).
  { unfold on_queue. rewrite (TimeoutQueueNoID.rq_next_spec _ G g k Hr1 Hg). by destruct s1. }
  rewrite (bind_Ok _ _ _ _ _ En). destruct (IH (S k) s1) as (s2 & E2 & A2); [done | by apply (as_step _ _ A1) | lia |].
  exists s2. split; [exact E2 | by eapply aside_trans].
Qed.
Lemma doInvoke_spec depth s G : held_ok s G → ep_valid (_endpointManger s) = true →
  ∃ s', doInvoke (selectAdapterProxy C depth) s = (Ok tt, s') ∧ aside s s'.
Proof.
  intros Hs Hv. pose proof Hs as (Hr & _ & _). unfold doInvoke.
  assert (Eb : on_queue TimeoutQueueNoID.begin_ s = (Ok (e_node <$> reverse G !! 0%nat), s)).
  { unfold on_queue. rewrite (TimeoutQueueNoID.begin_spec _ G Hr). by destruct s. }
  rewrite (bind_Ok _ _ _ _ _ Eb). unfold bind, get_st.
  replace (length (TimeoutQueueNoID._list (_reqTimeoutQueue s))) with (length G).
  - apply doInvoke_loop_spec; [done | done | lia].
  - pose proof (TimeoutQueueNoID.rq_size_spec _ G Hr) as Hsz. unfold TimeoutQueueNoID.size in Hsz. lia.
Qed.

Lemma object_select_spec depth h s G : held_ok s G → ep_hash_ok h →
  ∃ r s', selectAdapterProxy C (S depth) h s = (Ok r, s') ∧ aside s s' ∧ ∀ p, r.2 = Some p → ep_ptr (_endpointManger s') p.
Proof.
  intros Hs Hh. pose proof Hs as (Hr & Hok & Hm). destruct (refresh_spec s Hok) as (cbs & s1 & E1 & A1 & Hc).
  cbn [selectAdapterProxy]. rewrite (bind_Ok _ _ _ _ _ E1).
  assert (∃ s2, for_each (λ cb, match cb with OnConnect p => prepareConnection C (selectAdapterProxy C depth) p
    | DoInvoke => doInvoke (selectAdapterProxy C depth) end) cbs s1 = (Ok tt, s2) ∧ aside s1 s2) as (s2 & E2 & A2).
  { destruct Hc as [-> | (Hv & -> & Hv')]; cbn [for_each]; [exists s1; split; [done | by apply aside_refl, A1] |].
    destruct (doInvoke_spec depth s1 G) as (s2 & E2 & A2); [by apply (held_ok_aside s) | done |]. exists s2. by rewrite (bind_Ok _ _ _ _ _ E2). }
  rewrite (bind_Ok _ _ _ _ _ E2). edestruct (select_after h s2) as (r & s3 & E3 & A3 & Hp); [apply A2 | done |].
  exists r, s3. split; [exact E3 |]. split; [|done]. eapply aside_trans; [|exact A3]. by eapply aside_trans.
Qed.

(** ** Messages leave *)

Lemma owns_held_ok issued held s G : owns issued held s G → held_ok s G.
Proof.
  intros []. split_and!; [done | done |]. apply Forall_forall. intros g Hg.
  assert (is_Some (heap s !! e_ptr g)) as [m Em].
  { apply elem_of_dom, own_heap0, elem_of_app. right. apply list_elem_of_fmap. by exists g. }
  exists m. split; [done |]. by apply (own_messages0 _ _ Em).
Qed.
Lemma deref_ok issued i held s G : owns issued (i :: held) s G →
  ∃ m, heap s !! i = Some m ∧ deref i s = (Ok m, s) ∧ message_ok (_endpointManger s) m.
Proof.
  intros []. assert (is_Some (heap s !! i)) as [m Em] by (apply elem_of_dom, own_heap0; left).
  exists m. unfold deref. rewrite Em. eauto.
Qed.
Lemma owns_fresh issued i held s G : owns issued (i :: held) s G → i ∉ held ++ (e_ptr <$> G).
Proof.
  intros []. rewrite <- own_once0 in own_nodup0. cbn in own_nodup0. apply NoDup_cons in own_nodup0 as [Hi _].
  intros Hin. apply Hi. rewrite (assoc_L (++)). apply elem_of_app. by left.
Qed.

(** The message as it is now. *)
Definition with_message i (m : message B) s : t E B :=
  mk (_hasInitialize s) (_endpointManger s) (_reqTimeoutQueue s) (<[i := m]> (heap s)) (gone s).
Lemma update_ok issued i held s G (f : message B → message B) m : owns issued (i :: held) s G → heap s !! i = Some m →
  update i f s = (Ok tt, with_message i (f m) s).
Proof. intros Hs Em. unfold update, deref, bind. by rewrite Em. Qed.
Lemma owns_with issued i held s G m : owns issued (i :: held) s G → message_ok (_endpointManger s) m →
  owns issued (i :: held) (with_message i m s) G.
Proof.
  intros Hs Hm. pose proof Hs as []. constructor; try done; cbn.
  - intros j. rewrite dom_insert_L, elem_of_union, elem_of_singleton, own_heap0. cbn. rewrite elem_of_cons. tauto.
  - intros j m' [[-> ->]|[Hne Hj]]%lookup_insert_Some; [done | eauto].
Qed.

Definition given f i (m : message B) s : t E B :=
  mk (_hasInitialize s) (_endpointManger s) (_reqTimeoutQueue s) (delete i (heap s)) (gone s ++ [(i, (f, m))]).
Lemma give_ok issued i held s G f m : owns issued (i :: held) s G → heap s !! i = Some m → fate_ok (i, (f, m)) →
  give f i s = (Ok tt, given f i m s) ∧ owns issued held (given f i m s) G.
Proof.
  intros Hs Em Hfate. pose proof (owns_fresh _ _ _ _ _ Hs) as Hf. pose proof Hs as []. split.
  - unfold give, deref, bind. by rewrite Em.
  - constructor; try done; cbn.
    + intros j. rewrite dom_delete_L, elem_of_difference, elem_of_singleton, own_heap0. cbn. rewrite elem_of_cons.
      split; [tauto |]. intros Hj. split; [by right |]. by intros ->.
    + intros j m' [_ Hj]%lookup_delete_Some. eauto.
    + rewrite fmap_app. cbn. rewrite <- own_once0. cbn. rewrite !(assoc_L (++)). rewrite <- Permutation_cons_append. done.
    + apply Forall_app. split; [done |]. by constructor.
Qed.

Definition failed_msg (m : message B) : message B :=
  match eType (msg m) with ONE_WAY => m | _ => with_msg (with_eStatus REQ_EXC) m end.

Lemma exception_ok issued i held s G m : owns issued (i :: held) s G → heap s !! i = Some m →
  ∃ s', doInvokeException i s = (Ok tt, s') ∧ owns issued held s' G ∧ _reqTimeoutQueue s' = _reqTimeoutQueue s ∧
    _endpointManger s' = _endpointManger s ∧ heap s' = delete i (heap s) ∧ gone s' = gone s ++ [(i, (failure_fate m, failed_msg m))].
Proof.
  intros Hs Em. assert (Hm : message_ok (_endpointManger s) m) by (by apply (own_messages _ _ _ _ Hs i)). unfold doInvokeException.
  assert (Ed : deref i s = (Ok m, s)) by (unfold deref; by rewrite Em). rewrite (bind_Ok _ _ _ _ _ Ed).
  unfold failure_fate, failed_msg. case_decide as Ht.
  { rewrite Ht. destruct (give_ok _ _ _ _ _ (Failed Deleted) m Hs Em) as [Eg Hg]; [unfold fate_ok, failure_fate; cbn; by rewrite Ht |]. eexists. split; [exact Eg |]. by split_and!. }
  rewrite (bind_Ok _ _ _ _ _ (update_ok _ _ _ _ _ (with_msg (with_eStatus REQ_EXC)) m Hs Em)).
  set (m1 := with_msg (with_eStatus REQ_EXC) m). assert (Hs1 : owns issued (i :: held) (with_message i m1 s) G) by (by apply owns_with).
  set (s1 := with_message i m1 s) in *. assert (Em1 : heap s1 !! i = Some m1) by apply lookup_insert_eq.
  assert (Ed1 : deref i s1 = (Ok m1, s1)) by (unfold deref; by rewrite Em1). rewrite (bind_Ok _ _ _ _ _ Ed1).
  change (eType (msg m1)) with (eType (msg m)). change (sched (msg m1)) with (sched (msg m)). change (netThread (msg m1)) with (netThread (msg m)).
  change (coro (msg m1)) with (coro (msg m)). change (pMonitor (msg m1)) with (pMonitor (msg m)). change (has_callback m1) with (has_callback m).
  change (adapter m1) with (adapter m).
  assert (Hgive : ∀ f, fate_ok (i, (f, m1)) → ∃ s', give f i s1 = (Ok tt, s') ∧ owns issued held s' G ∧ _reqTimeoutQueue s' = _reqTimeoutQueue s ∧
    _endpointManger s' = _endpointManger s ∧ heap s' = delete i (heap s) ∧ gone s' = gone s ++ [(i, (f, m1))]).
  { intros f Hf. destruct (give_ok _ _ _ _ _ f m1 Hs1 Em1 Hf) as [Eg Hg]. eexists. split; [exact Eg |]. split_and!; try done. apply delete_insert_eq. }
  destruct (eType (msg m)) eqn:Et; [| |done].
  - rewrite decide_True by done. destruct (sched (msg m)) eqn:Es; cbn [negb]; [apply Hgive; unfold fate_ok, failure_fate; cbn; by rewrite Et, Es |].
    destruct Hm as (_ & Hmon & _). rewrite Hmon by done. unfold bind at 1, assert_that. apply Hgive. unfold fate_ok, failure_fate; cbn; by rewrite Et, Es.
  - rewrite decide_False by done.
    destruct (has_callback m) eqn:E1, (sched (msg m)) eqn:E2, (coro (msg m)) eqn:E3, (netThread (msg m)) eqn:E4, (adapter m) eqn:E5;
      apply Hgive; unfold fate_ok, failure_fate; cbn; by rewrite Et, E1, ?E2, ?E3, ?E4, ?E5.
Qed.

Lemma fail_ok issued i held s G m iRet : owns issued (i :: held) s G → heap s !! i = Some m →
  ∃ s', fail_with iRet i s = (Ok tt, s') ∧ owns issued held s' G ∧ _reqTimeoutQueue s' = _reqTimeoutQueue s ∧
    _endpointManger s' = _endpointManger s ∧ heap s' = delete i (heap s) ∧
    gone s' = gone s ++ [(i, (failure_fate m, failed_msg (with_msg (with_iRet iRet) m)))].
Proof.
  intros Hs Em. unfold fail_with. rewrite (bind_Ok _ _ _ _ _ (update_ok _ _ _ _ _ (with_msg (with_iRet iRet)) m Hs Em)).
  assert (Hm : message_ok (_endpointManger s) m) by (by apply (own_messages _ _ _ _ Hs i)).
  destruct (exception_ok issued i held (with_message i (with_msg (with_iRet iRet) m) s) G (with_msg (with_iRet iRet) m)) as (s' & E' & Ho & Hq & He & Hh & Hg).
  - by apply owns_with.
  - apply lookup_insert_eq.
  - exists s'. split_and!; try done. rewrite Hh. apply delete_insert_eq.
Qed.

(** ** The operations *)

Lemma with_adapter_message (e : E) p (m : message B) : message_ok e m → ep_ptr e p → message_ok e (with_adapter p m).
Proof. intros (Hh & Hm & _) Hp. split_and!; [done | done |]. by intros ? [= <-]. Qed.

Lemma adapter_invoke_ok issued i held s G p m : owns issued (i :: held) s G → heap s !! i = Some m → ep_ptr (_endpointManger s) p → adapter m = Some p →
  ∃ s', adapter_invoke p i s = (Ok tt, s') ∧ owns issued held s' G ∧ gone s' = gone s ++ [(i, (ToAdapter p, m))] ∧
    aside (given (ToAdapter p) i m s) s'.
Proof.
  intros Hs Em Hp Ha. unfold adapter_invoke. assert (Ed : deref i s = (Ok m, s)) by (unfold deref; by rewrite Em).
  rewrite (bind_Ok _ _ _ _ _ Ed). destruct (give_ok _ _ _ _ _ (ToAdapter p) m Hs Em Ha) as [Eg Hg]. rewrite (bind_Ok _ _ _ _ _ Eg).
  destruct (on_endpoints_spec (ep_invoke p i (msg m)) (given (ToAdapter p) i m s)) as ([] & s' & E' & A').
  { apply invoke_law; [apply (own_endpoints _ _ _ _ Hs) | exact Hp]. }
  exists s'. split; [exact E' |]. split; [by eapply owns_aside |]. split; [by rewrite (as_gone _ _ A') | done].
Qed.

(** The message goes to the adapter [p]. *)
Lemma send_to_ok issued i held s G p m : owns issued (i :: held) s G → heap s !! i = Some m → ep_ptr (_endpointManger s) p →
  ∃ s', (update i (with_adapter p) ;;; adapter_invoke p i) s = (Ok tt, s') ∧ owns issued held s' G ∧
    gone s' = gone s ++ [(i, (ToAdapter p, with_adapter p m))] ∧ heap s' = delete i (heap s) ∧ ep_ptr (_endpointManger s') p.
Proof.
  intros Hs Em Hp. rewrite (bind_Ok _ _ _ _ _ (update_ok _ _ _ _ _ (with_adapter p) m Hs Em)).
  assert (Hm : message_ok (_endpointManger s) m) by (by apply (own_messages _ _ _ _ Hs i)).
  destruct (adapter_invoke_ok issued i held (with_message i (with_adapter p m) s) G p (with_adapter p m)) as (s' & E' & Hs' & Hg & A').
  - apply owns_with; [done | by apply with_adapter_message].
  - apply lookup_insert_eq.
  - exact Hp.
  - done.
  - exists s'. split_and!; [done | done | done | |by apply (as_step _ _ A')]. rewrite (as_heap _ _ A'). apply delete_insert_eq.
Qed.

Lemma send_one_ok depth issued i held s G p : owns issued (i :: held) s G → ep_ptr (_endpointManger s) p →
  ∃ r s', send_one C (selectAdapterProxy C (S depth)) p i s = (Ok r, s') ∧ owns issued held s' G ∧
    ∀ q, r = Some q → ep_ptr (_endpointManger s') q.
Proof.
  intros Hs Hp. destruct (deref_ok _ _ _ _ _ Hs) as (m & Em & Ed & Hh & Hm & Ha). unfold send_one. rewrite (bind_Ok _ _ _ _ _ Ed).
  assert (Hplain : ∃ r s', (update i (with_adapter p) ;;; adapter_invoke p i ;;; ret (Some p)) s = (Ok r, s') ∧ owns issued held s' G ∧
    ∀ q, r = Some q → ep_ptr (_endpointManger s') q).
  { destruct (send_to_ok _ _ _ _ _ p m Hs Em Hp) as (s' & E' & Hs' & _ & _ & Hp'). exists (Some p), s'.
    split; [|split; [done | by intros q [= <-]]]. rewrite <- bind_assoc. by rewrite (bind_Ok _ _ _ _ _ E'). }
  destruct (adapter m); [exact Hplain |]. destruct (hash m) as [h|] eqn:Eh; [|exact Hplain]. clear Hplain.
  destruct (object_select_spec depth (Some h) s G (owns_held_ok _ _ _ _ Hs) Hh) as (r & s1 & E1 & A1 & Hp1). rewrite (bind_Ok _ _ _ _ _ E1).
  pose proof (owns_aside _ _ _ _ _ A1 Hs) as Hs1. assert (Em1 : heap s1 !! i = Some m) by (by rewrite (as_heap _ _ A1)).
  destruct (r.2) as [q|].
  - destruct (send_to_ok _ _ _ _ _ q m Hs1 Em1 (Hp1 q eq_refl)) as (s2 & E2 & Hs2 & _ & _ & Hp2). exists (Some q), s2.
    split; [|split; [done | by intros q' [= <-]]]. rewrite <- bind_assoc. by rewrite (bind_Ok _ _ _ _ _ E2).
  - destruct (fail_ok _ _ _ _ _ m (TARSADAPTERNULL C) Hs1 Em1) as (s2 & E2 & Hs2 & _). exists None, s2. by rewrite (bind_Ok _ _ _ _ _ E2).
Qed.

(** A program on the queue. *)
Lemma owns_pop issued held s g G : owns issued held s (g :: G) → ∃ s', on_queue TimeoutQueueNoID.pop s = (Ok (Some (e_ptr g)), s') ∧
  owns issued (e_ptr g :: held) s' G ∧ _endpointManger s' = _endpointManger s ∧ gone s' = gone s ∧ heap s' = heap s.
Proof.
  intros []. destruct (TimeoutQueueNoID.rq_pop_spec _ _ own_queue0) as (q & Eq & Hq). unfold on_queue. rewrite Eq. eexists. split; [done |].
  split; [|done]. constructor; try done; cbn in *.
  - intros j. rewrite own_heap0. rewrite elem_of_app, !elem_of_cons, elem_of_app. tauto.
  - rewrite <- own_once0. by rewrite Permutation_middle.
Qed.

Lemma prepare_loop_ok depth issued : ∀ fuel s G p, owns issued [] s G → ep_ptr (_endpointManger s) p → (length G < fuel)%nat →
  ∃ s' G', prepare_loop C (selectAdapterProxy C (S depth)) fuel p s = (Ok tt, s') ∧ owns issued [] s' G' ∧ G' `suffix_of` G.
Proof.
  induction fuel as [|fuel IH]; intros s G p Hs Hp Hf; [lia |]. cbn [prepare_loop]. unfold bind at 1, get_st.
  rewrite (TimeoutQueueNoID.empty_spec _ G (own_queue _ _ _ _ Hs)). destruct G as [|g G]; [by exists s, [] |].
  destruct (owns_pop _ _ _ _ _ Hs) as (s1 & E1 & Hs1 & Ee & _). rewrite (bind_Ok _ _ _ _ _ E1).
  destruct (send_one_ok depth issued (e_ptr g) [] s1 G p Hs1) as (r & s2 & E2 & Hs2 & Hp2); [by rewrite Ee |].
  rewrite (bind_Ok _ _ _ _ _ E2). destruct r as [q|].
  - destruct (IH s2 G q Hs2 (Hp2 q eq_refl) ltac:(cbn in Hf; lia)) as (s3 & G3 & E3 & Hs3 & Hsuf). exists s3, G3. split_and!; [done | done |].
    by apply suffix_cons_r.
  - exists s2, G. split_and!; [done | done |]. by apply suffix_cons_r.
Qed.
Lemma prepare_ok depth issued s G p : owns issued [] s G → ep_ptr (_endpointManger s) p →
  ∃ s' G', prepareConnection C (selectAdapterProxy C (S depth)) p s = (Ok tt, s') ∧ owns issued [] s' G' ∧ G' `suffix_of` G.
Proof.
  intros Hs Hp. unfold prepareConnection, bind, get_st. apply prepare_loop_ok; [done | done |].
  pose proof (TimeoutQueueNoID.rq_size_spec _ G (own_queue _ _ _ _ Hs)) as Hsz. unfold TimeoutQueueNoID.size in Hsz. lia.
Qed.

(** A message for which no adapter is selected again: it goes to the one that connected. *)
Definition any_adapter s (g : TimeoutQueueNoID.entry nat) : Prop :=
  ∃ m, heap s !! e_ptr g = Some m ∧ (hash m = None ∨ adapter m ≠ None).
Definition sent_to p s (g : TimeoutQueueNoID.entry nat) : option (nat * (fate * message B)) :=
  (λ m, (e_ptr g, (ToAdapter p, with_adapter p m))) <$> heap s !! e_ptr g.

Lemma send_one_any select issued i held s G p m : owns issued (i :: held) s G → ep_ptr (_endpointManger s) p →
  heap s !! i = Some m → hash m = None ∨ adapter m ≠ None →
  ∃ s', send_one C select p i s = (Ok (Some p), s') ∧ owns issued held s' G ∧ gone s' = gone s ++ [(i, (ToAdapter p, with_adapter p m))] ∧
    heap s' = delete i (heap s) ∧ ep_ptr (_endpointManger s') p.
Proof.
  intros Hs Hp Em Hm. destruct (send_to_ok _ _ _ _ _ p m Hs Em Hp) as (s' & E' & Hs' & Hg & Hh & Hp').
  exists s'. split; [|by split_and!]. unfold send_one. assert (Ed : deref i s = (Ok m, s)) by (unfold deref; by rewrite Em).
  rewrite (bind_Ok _ _ _ _ _ Ed).
  transitivity ((update i (with_adapter p) ;;; adapter_invoke p i ;;; ret (Some p)) s).
  - destruct (adapter m), (hash m); try done. by destruct Hm.
  - rewrite <- bind_assoc. by rewrite (bind_Ok _ _ _ _ _ E').
Qed.

Lemma prepare_loop_sends select issued p : ∀ fuel s G, owns issued [] s G → ep_ptr (_endpointManger s) p → (length G < fuel)%nat →
  Forall (any_adapter s) G →
  ∃ s', prepare_loop C select fuel p s = (Ok tt, s') ∧ owns issued [] s' [] ∧ gone s' = gone s ++ omap (sent_to p s) G.
Proof.
  induction fuel as [|fuel IH]; intros s G Hs Hp Hf Hall; [lia |]. cbn [prepare_loop]. unfold bind at 1, get_st.
  rewrite (TimeoutQueueNoID.empty_spec _ G (own_queue _ _ _ _ Hs)).
  destruct G as [|g G]; [exists s; split_and!; [done | done | by rewrite app_nil_r] |]. apply Forall_cons in Hall as [(m & Em & Hm) Hall].
  destruct (owns_pop _ _ _ _ _ Hs) as (s1 & E1 & Hs1 & Ee & Eg1 & Eh1). rewrite (bind_Ok _ _ _ _ _ E1).
  destruct (send_one_any select issued (e_ptr g) [] s1 G p m Hs1) as (s2 & E2 & Hs2 & Eg2 & Eh2 & Hp2); [by rewrite Ee | by rewrite Eh1 | done |].
  rewrite (bind_Ok _ _ _ _ _ E2). pose proof (owns_fresh _ _ _ _ _ Hs1) as Hfresh. cbn in Hfresh.
  assert (Hsame : ∀ h, h ∈ G → heap s2 !! e_ptr h = heap s !! e_ptr h).
  { intros h Hh. rewrite Eh2, Eh1. apply lookup_delete_ne. intros Eq. apply Hfresh. rewrite Eq. by apply list_elem_of_fmap_2. }
  destruct (IH s2 G Hs2 Hp2 ltac:(cbn in Hf; lia)) as (s3 & E3 & Hs3 & Eg3).
  { rewrite Forall_forall in *. intros h Hh. destruct (Hall h Hh) as (mh & Emh & Hmh). exists mh. by rewrite Hsame. }
  exists s3. split_and!; [done | done |]. rewrite Eg3, Eg2, Eg1, <- (assoc_L (++)). f_equal. cbn [omap list_omap].
  assert (sent_to p s g = Some (e_ptr g, (ToAdapter p, with_adapter p m))) as -> by (unfold sent_to; by rewrite Em). cbn. f_equal.
  clear -Hsame. induction G as [|h G IHG]; [done |]. cbn.
  assert (sent_to p s2 h = sent_to p s h) as -> by (unfold sent_to; rewrite Hsame by left; done).
  rewrite IHG; [done |]. intros h' Hh'. apply Hsame. by right.
Qed.

Lemma push_ok issued i held s G d : owns issued (i :: held) s G →
  ∃ s' g, push i d s = (Ok tt, s') ∧ owns issued held s' (G ++ [g]) ∧ e_ptr g = i ∧ e_deadline g = wrapU 64 d ∧ gone s' = gone s.
Proof.
  intros []. destruct (TimeoutQueueNoID.rq_push_spec _ _ i d own_queue0) as (q & n & Eq & Hq). unfold push, on_queue, bind. rewrite Eq.
  eexists _, (TimeoutQueueNoID.mkEntry i (wrapU 64 d) n). split; [reflexivity |]. split; [|done]. constructor; try done; cbn.
  - intros j. rewrite own_heap0, fmap_app. cbn. rewrite !elem_of_app, elem_of_cons, list_elem_of_singleton, elem_of_app. tauto.
  - rewrite <- own_once0, fmap_app. cbn. rewrite <- !(assoc_L (++)). cbn. by rewrite !(assoc_L (++)), Permutation_middle.
Qed.

(** What [invoke] does with a message: it waits, or it is gone. *)
Lemma invoke_ok depth issued i s G : owns issued [i] s G →
  ∃ s', invoke C (S depth) i s = (Ok tt, s') ∧
    ((∃ g, e_ptr g = i ∧ owns issued [] s' (G ++ [g]) ∧ gone s' = gone s) ∨
     (∃ f m, owns issued [] s' G ∧ gone s' = gone s ++ [(i, (f, m))])).
Proof.
  intros Hs. destruct (deref_ok _ _ _ _ _ Hs) as (m & Em & Ed & Hm). unfold invoke. rewrite (bind_Ok _ _ _ _ _ Ed).
  destruct (object_select_spec depth (hash m) s G (owns_held_ok _ _ _ _ Hs) (proj1 Hm)) as (r & s1 & E1 & A1 & Hp). rewrite (bind_Ok _ _ _ _ _ E1).
  pose proof (owns_aside _ _ _ _ _ A1 Hs) as Hs1. assert (Em1 : heap s1 !! i = Some m) by (by rewrite (as_heap _ _ A1)). pose proof (as_gone _ _ A1) as Eg1.
  destruct (r.1).
  { destruct (push_ok _ _ _ _ _ (RequestPacket.iTimeout (request (msg m)) + iBeginTime (msg m)) Hs1) as (s2 & g & E2 & Hs2 & Eg & _ & Egn).
    exists s2. split; [exact E2 |]. left. exists g. split_and!; [done | done | congruence]. }
  destruct (r.2) as [p|].
  2: { destruct (fail_ok _ _ _ _ _ m (TARSADAPTERNULL C) Hs1 Em1) as (s2 & E2 & Hs2 & _ & _ & _ & Eg2). exists s2. split; [exact E2 |].
       right. eexists _, _. split; [done |]. rewrite Eg2, Eg1. done. }
  specialize (Hp p eq_refl). rewrite (bind_Ok _ _ _ _ _ (update_ok _ _ _ _ _ (with_adapter p) m Hs1 Em1)).
  assert (Hm1 : message_ok (_endpointManger s1) m) by (by apply (own_messages _ _ _ _ Hs1 i)).
  pose proof (owns_with _ i [] s1 G _ Hs1 (with_adapter_message _ p m Hm1 Hp)) as Hs2. set (s2 := with_message i (with_adapter p m) s1) in *.
  destruct (on_endpoints_spec (ep_connected p) s2) as (c & s3 & E3 & A3); [apply connected_law; [apply (own_endpoints _ _ _ _ Hs2) | done] |].
  rewrite (bind_Ok _ _ _ _ _ E3). pose proof (owns_aside _ _ _ _ _ A3 Hs2) as Hs3. pose proof (as_gone _ _ A3) as Eg3. destruct c; cbn [negb].
  - destruct (adapter_invoke_ok _ _ _ _ _ p (with_adapter p m) Hs3) as (s4 & E4 & Hs4 & Eg4 & _).
    { rewrite (as_heap _ _ A3). apply lookup_insert_eq. } { by apply (as_step _ _ A3). } { done. }
    exists s4. split; [exact E4 |]. right. eexists _, _. split; [done |]. rewrite Eg4, Eg3. cbn. by rewrite Eg1.
  - destruct (push_ok _ _ _ _ _ (tars_connect_timeout C + iBeginTime (msg m)) Hs3) as (s4 & g & E4 & Hs4 & Eg & _ & Egn).
    exists s4. split; [exact E4 |]. left. exists g. split_and!; [done | done |]. rewrite Egn, Eg3. exact Eg1.
Qed.

(** The messages that are due leave, and no others. *)
Lemma owns_timeout issued held s G now : owns issued held s G →
  ∃ s', on_queue (TimeoutQueueNoID.timeout now) s = (Ok (e_ptr <$> due now G), s') ∧ gone s' = gone s ∧ heap s' = heap s ∧
    match due now G with
    | Some g => owns issued (e_ptr g :: held) s' (drop_node (e_node g) G)
    | None => owns issued held s' G
    end.
Proof.
  intros []. destruct (TimeoutQueueNoID.rq_timeout_spec _ _ now own_queue0) as (q & Eq & Hq). unfold on_queue. rewrite Eq. eexists. split; [done |].
  split; [done |]. split; [done |]. destruct (due now G) as [g|] eqn:Eg; [|by constructor].
  destruct (TimeoutQueueNoID.rq_due_Some now G g (TimeoutQueueNoID.rep_nodup _ _ own_queue0) Eg) as (_ & _ & _ & Hperm).
  assert (Hp : e_ptr <$> G ≡ₚ e_ptr g :: (e_ptr <$> drop_node (e_node g) G)) by (rewrite Hperm at 1; done).
  constructor; try done; cbn.
  - intros j. rewrite own_heap0, elem_of_app, Hp, !elem_of_cons, elem_of_app. tauto.
  - rewrite <- own_once0, Hp. by rewrite Permutation_middle.
Qed.

(** Each message that was due has failed, with [TARSINVOKETIMEOUT]. *)
Definition failures now G s s' : Prop := ∃ l, gone s' = gone s ++ l ∧
  l.*1 ≡ₚ e_ptr <$> filter (λ g, ¬ wrapU 64 now < e_deadline g) G ∧
  Forall (λ x : nat * (fate * message B), ∃ m, heap s !! x.1 = Some m ∧ x.2.1 = failure_fate m ∧
    x.2.2 = failed_msg (with_msg (with_iRet (TARSINVOKETIMEOUT C)) m)) l.

Lemma timeout_loop_ok issued now : ∀ fuel s G, owns issued [] s G → (length G < fuel)%nat →
  ∃ s', timeout_loop C fuel now s = (Ok tt, s') ∧ owns issued [] s' (TimeoutQueueNoID.not_due now G) ∧ failures now G s s'.
Proof.
  induction fuel as [|fuel IH]; intros s G Hs Hf; [lia |]. cbn [timeout_loop].
  destruct (owns_timeout _ _ _ _ now Hs) as (s1 & E1 & Eg1 & Eh1 & Hs1). rewrite (bind_Ok _ _ _ _ _ E1).
  pose proof (TimeoutQueueNoID.rep_nodup _ _ (own_queue _ _ _ _ Hs)) as Hnd. destruct (due now G) as [g|] eqn:Ed.
  - cbn [fmap option_fmap option_map]. destruct (TimeoutQueueNoID.rq_due_Some now G g Hnd Ed) as (Hg & Hd & En & Hperm).
    destruct (deref_ok _ _ _ _ _ Hs1) as (m & Em & _). destruct (fail_ok _ _ _ _ _ m (TARSINVOKETIMEOUT C) Hs1 Em) as (s2 & E2 & Hs2 & _ & _ & Eh2 & Eg2).
    rewrite (bind_Ok _ _ _ _ _ E2). destruct (IH s2 _ Hs2) as (s3 & E3 & Hs3 & l & Eg3 & Hl & Hfates).
    { rewrite (Permutation_length Hperm) in Hf. cbn in Hf. lia. }
    rewrite En in Hs3. exists s3. split_and!; [exact E3 | exact Hs3 |]. eexists ((e_ptr g, _) :: l). split; [|split].
    + rewrite Eg3, Eg2, Eg1, <- (assoc_L (++)). reflexivity.
    + cbn. rewrite Hl. rewrite Hperm at 2. rewrite filter_cons, decide_True by lia. done.
    + constructor; [exists m; by rewrite <- Eh1 |]. eapply Forall_impl; [exact Hfates |]. intros x (m' & Hm' & Hx). exists m'. split; [|done].
      rewrite Eh2, Eh1 in Hm'. by apply lookup_delete_Some in Hm' as [_ Hm'].
  - rewrite (TimeoutQueueNoID.rq_due_None now G Ed). exists s1. split_and!; [done | done |]. exists []. split; [by rewrite Eg1, app_nil_r |]. split; [|constructor].
    cbn. pose proof (TimeoutQueueNoID.rq_due_None now G Ed) as Hall. symmetry. rewrite <- Hall. unfold TimeoutQueueNoID.not_due.
    rewrite list_filter_filter. enough (filter (λ g, ¬ wrapU 64 now < e_deadline g ∧ wrapU 64 now < e_deadline g) G = []) as -> by done.
    induction G as [|x G' _]; [done |]. clear. induction (x :: G') as [|y l IHl]; [done |]. rewrite filter_cons, decide_False by tauto. exact IHl.
Qed.

(** Calls of adapters, one after the other. *)
Lemma each_adapter_ok issued held G (f : nat → prog (t E B) Empty_set unit) ps : ∀ s,
  (∀ p s0, owns issued held s0 G → ep_ptr (_endpointManger s0) p → ∃ s1, f p s0 = (Ok tt, s1) ∧ aside s0 s1) →
  owns issued held s G → Forall (ep_ptr (_endpointManger s)) ps →
  ∃ s', for_each f ps s = (Ok tt, s') ∧ aside s s'.
Proof.
  induction ps as [|p ps IH]; intros s Hf Hs Hps; cbn [for_each]; [exists s; split; [done | apply aside_refl, Hs] |].
  apply Forall_cons in Hps as [Hp Hps]. destruct (Hf p s Hs Hp) as (s1 & E1 & A1). rewrite (bind_Ok _ _ _ _ _ E1).
  destruct (IH s1 Hf (owns_aside _ _ _ _ _ A1 Hs)) as (s2 & E2 & A2).
  { eapply Forall_impl; [exact Hps |]. intros q. apply (as_step _ _ A1). }
  exists s2. split; [exact E2 | by eapply aside_trans].
Qed.
Lemma endpoint_call_ok issued held G (m : nat → prog E Empty_set unit) p s :
  (∀ p e, ep_ok e → ep_ptr e p → ep_does (m p) e) → owns issued held s G → ep_ptr (_endpointManger s) p →
  ∃ s1, on_endpoints (m p) s = (Ok tt, s1) ∧ aside s s1.
Proof. intros Hl Hs Hp. destruct (on_endpoints_spec (m p) s) as ([] & s1 & E1 & A1); [apply Hl; [apply Hs | done] |]. by exists s1. Qed.

Lemma if_initialized_ok issued held s G m : owns issued held s G → if_initialized m s = m s.
Proof. intros []. unfold if_initialized, bind, get_st. by rewrite own_init0. Qed.

Lemma each_call_ok issued G s (m : nat → prog E Empty_set unit) (ps : E → list nat) :
  (∀ p e, ep_ok e → ep_ptr e p → ep_does (m p) e) → (∀ e, ep_ok e → Forall (ep_ptr e) (ps e)) → owns issued [] s G →
  ∃ s', for_each (λ p, on_endpoints (m p)) (ps (_endpointManger s)) s = (Ok tt, s') ∧ aside s s'.
Proof.
  intros Hm Hps Hs. apply (each_adapter_ok issued [] G); [|done | apply Hps, Hs]. intros p s0 Hs0 Hp. by apply (endpoint_call_ok issued [] G).
Qed.

Lemma doTimeout_ok issued s G now : owns issued [] s G →
  ∃ s', doTimeout C now s = (Ok tt, s') ∧ owns issued [] s' (TimeoutQueueNoID.not_due now G) ∧ failures now G s s'.
Proof.
  intros Hs. unfold doTimeout. rewrite (if_initialized_ok _ _ _ _ _ Hs). unfold bind at 1, get_st.
  destruct (each_call_ok issued G s ep_doTimeout ep_adapters) as (s1 & E1 & A1); [apply doTimeout_law | intros e He; by apply adapters_law | done |].
  rewrite (bind_Ok _ _ _ _ _ E1). unfold bind at 1, get_st. pose proof (owns_aside _ _ _ _ _ A1 Hs) as Hs1.
  destruct (timeout_loop_ok issued now (S (length (TimeoutQueueNoID._list (_reqTimeoutQueue s1)))) s1 G Hs1) as (s2 & E2 & Hs2 & l & El & Hl).
  - pose proof (TimeoutQueueNoID.rq_size_spec _ G (own_queue _ _ _ _ Hs1)) as Hsz. unfold TimeoutQueueNoID.size in Hsz. lia.
  - exists s2. split_and!; [exact E2 | exact Hs2 |]. exists l. by rewrite El, (as_gone _ _ A1), <- (as_heap _ _ A1).
Qed.

Lemma aside_call_ok issued s G (m : prog (t E B) Empty_set unit) : owns issued [] s G → (∃ s', m s = (Ok tt, s') ∧ aside s s') →
  ∃ s', if_initialized m s = (Ok tt, s') ∧ owns issued [] s' G.
Proof.
  intros Hs (s' & E' & A'). rewrite (if_initialized_ok _ _ _ _ _ Hs). exists s'. split; [done | by eapply owns_aside].
Qed.

(** What may happen in a state: a new message with all it needs, [onConnect] of an
    adapter there is, and [doInvoke] once the endpoints are valid. *)
Definition admitted (issued : list nat) s (e : @event B) : Prop :=
  match e with
  | Invoke i m => (i ∉ issued) ∧ message_ok (_endpointManger s) m
  | Connected p => ep_ptr (_endpointManger s) p
  | Notify => ep_valid (_endpointManger s) = true
  | _ => True
  end.
Definition issue (issued : list nat) (e : @event B) : list nat := match e with Invoke i _ => issued ++ [i] | _ => issued end.

Lemma owns_issue issued s G i m : owns issued [] s G → i ∉ issued → message_ok (_endpointManger s) m →
  owns (issued ++ [i]) [i] (with_message i m s) G.
Proof.
  intros [] Hi Hm. constructor; try done; cbn.
  - intros j. rewrite dom_insert_L, elem_of_union, elem_of_singleton, own_heap0. cbn. rewrite elem_of_cons. tauto.
  - intros j m' [[-> ->]|[Hne Hj]]%lookup_insert_Some; [done | eauto].
  - rewrite <- own_once0. cbn. by rewrite Permutation_cons_append.
  - apply NoDup_app. split_and!; [done | | apply NoDup_singleton]. intros j Hj ->%list_elem_of_singleton. done.
Qed.

Lemma handle_ok depth issued s G e : owns issued [] s G → admitted issued s e →
  ∃ s' G', handle C (S depth) e s = (Ok tt, s') ∧ owns (issue issued e) [] s' G'.
Proof.
  intros Hs He. destruct e as [i m|p| |now| | |ep]; cbn [handle issue].
  - destruct He as [Hi Hm]. unfold bind at 1, bind at 1, get_st, set_heap, modify. cbv beta.
    destruct (invoke_ok depth _ _ _ _ (owns_issue _ _ _ _ _ Hs Hi Hm)) as (s' & E' & Ho). exists s'.
    destruct Ho as [(g & _ & Ho & _)|(f & m' & Ho & _)]; eexists; (split; [exact E' | exact Ho]).
  - destruct (prepare_ok depth issued s G p Hs He) as (s' & G' & E' & Hs' & _). by exists s', G'.
  - destruct (doInvoke_spec (S depth) s G (owns_held_ok _ _ _ _ Hs) He) as (s' & E' & A'). exists s', G. split; [exact E' | by eapply owns_aside].
  - destruct (doTimeout_ok issued s G now Hs) as (s' & E' & Hs' & _). by exists s', (TimeoutQueueNoID.not_due now G).
  - destruct (aside_call_ok issued s G (let* s := get_st in for_each (λ p, on_endpoints (ep_doKeepAlive p)) (ep_activeAdapters (_endpointManger s))) Hs)
      as (s' & E' & Hs'); [|by exists s', G].
    apply (each_call_ok issued G s ep_doKeepAlive ep_activeAdapters doKeepAlive_law); [intros e He'; by apply adapters_law | done].
  - destruct (aside_call_ok issued s G (let* s := get_st in for_each (λ p, on_endpoints (ep_mergeStat p)) (ep_adapters (_endpointManger s))) Hs)
      as (s' & E' & Hs'); [|by exists s', G].
    apply (each_call_ok issued G s ep_mergeStat ep_adapters mergeStat_law); [intros e He'; by apply adapters_law | done].
  - edestruct (aside_call_ok issued s G) as (s' & E' & Hs'); [done | |exists s', G; split; [exact E' | exact Hs']].
    unfold bind at 1, get_st. apply (each_adapter_ok issued [] G); [|done | apply adapters_law, Hs]. intros p s0 Hs0 Hp.
    destruct (on_endpoints_spec (ep_endpoint p) s0) as (d & s1 & E1 & A1); [apply endpoint_law; [apply Hs0 | done] |].
    rewrite (bind_Ok _ _ _ _ _ E1). case_bool_decide; [|by exists s1].
    destruct (endpoint_call_ok issued [] G ep_onSetInactive p s1 onSetInactive_law) as (s2 & E2 & A2); [by eapply owns_aside | by apply A1 |].
    exists s2. split; [exact E2 | by eapply aside_trans].
Qed.

(** ** Runs *)

(** An event, or a change in the manager and the adapters that the object does not see. *)
Inductive step (depth : nat) : list nat * t E B → list nat * t E B → Prop :=
  | step_event issued e r s s' : admitted issued s e → handle C (S depth) e s = (r, s') → step depth (issued, s) (issue issued e, s')
  | step_endpoints issued s e' : ep_step (_endpointManger s) e' →
      step depth (issued, s) (issued, mk (_hasInitialize s) e' (_reqTimeoutQueue s) (heap s) (gone s)).

Lemma new_owns (e : E) : ep_ok e → owns [] [] (new e) [].
Proof.
  intros He. constructor; try done; [apply TimeoutQueueNoID.rq_rep_new | intros i; cbn; set_solver | constructor].
Qed.

Lemma reachable_owns depth (e : E) issued s : ep_ok e → rtc (step depth) ([], new e) (issued, s) → ∃ G, owns issued [] s G.
Proof.
  intros He. enough (Hgen : ∀ x y, rtc (step depth) x y → (∃ G, owns x.1 [] x.2 G) → ∃ G, owns y.1 [] y.2 G).
  { intros Hr. apply (Hgen _ _ Hr). exists []. by apply new_owns. }
  intros x y Hr. induction Hr as [|x y z Hstep _ IH]; [done |]. intros [G Hs]. apply IH.
  destruct Hstep as [issued' ev r s0 s1 Ha Eh|issued' s0 e' St]; cbn in *.
  - destruct (handle_ok depth issued' s0 G ev Hs Ha) as (s1' & G' & Eh' & Hs'). exists G'. congruence.
  - exists G. eapply owns_aside; [|exact Hs]. by constructor.
Qed.
End object.
