(* ===== verification/ObjectRuns.v ===== *)
(** [ObjectProxy] over the [EndpointManager] of [EndpointQuery]: the manager keeps the
    promises of the interface, and the properties of the object. *)
From stdpp Require Import prelude gmap list sorting relations.
From Stdlib Require Import ZArith Lia.
From S2P Require Import Prelude Bytes Packets AdapterProxy Md5 ConsistentHash EndpointManager EndpointQuery EndpointInv EndpointState EndpointTheorems EndpointRuns RequestQueue ObjectProxy ObjectTheorems AdapterTheorems.

(** ** What a query leaves behind *)

(** The adapters only become more. *)
Section grows.
Context {X B : Type} `{Transceiver X B} (new_trans : EndpointInfo → X) (garbage : uninitialized).
Implicit Types s : EndpointManager.t X.

Definition grows {A} (m : prog (EndpointManager.t X) Empty_set A) : Prop :=
  ∀ s, (length (EndpointManager._vAllProxys s) ≤ length (EndpointManager._vAllProxys (m s).2))%nat.

Lemma grows_ret {A} (a : A) : grows (ret a).
Proof. by intros s. Qed.
Lemma grows_bind {A D} (m : prog _ Empty_set A) (f : A → prog _ Empty_set D) : grows m → (∀ a, grows (f a)) → grows (bind m f).
Proof.
  intros Hm Hf s. specialize (Hm s). unfold bind. destruct (m s) as [[a| | | |] s1]; cbn in *; try done.
  specialize (Hf a s1). lia.
Qed.
Lemma grows_modify f : (∀ s, EndpointManager._vAllProxys (f s) = EndpointManager._vAllProxys s) → grows (modify f).
Proof. intros Hf s. cbn. by rewrite Hf. Qed.
Lemma grows_adapter {A} p (f : EndpointManager.adapter X → A * EndpointManager.adapter X) : grows (EndpointManager.with_adapter p f).
Proof.
  intros s. unfold EndpointManager.with_adapter. destruct (EndpointManager._vAllProxys s !! p) as [a|]; [|done].
  destruct (f a). cbn. by rewrite length_insert.
Qed.
Lemma grows_each {A} (f : A → prog _ Empty_set unit) l : (∀ a, grows (f a)) → grows (EndpointManager.for_each f l).
Proof. intros Hf. induction l as [|a l IH]; cbn; [apply grows_ret | by apply grows_bind]. Qed.

Lemma grows_find_or_new e : grows (EndpointManager.find_or_new new_trans garbage e).
Proof.
  intros s. unfold EndpointManager.find_or_new, bind, get_st. destruct (StrMap.find _ _); [done |].
  cbn. rewrite length_app. lia.
Qed.
Lemma grows_update direct wt active inactive : grows (EndpointManager.updateEndpoints new_trans garbage direct wt active inactive).
Proof.
  unfold EndpointManager.updateEndpoints.
  apply grows_bind; [by apply grows_modify |]. intros _. apply grows_bind.
  { case_bool_decide; [apply grows_ret |]. intros s. apply (grows_each _ (EndpointManager._allProxys s)). intros kp. apply grows_adapter. }
  intros _. apply grows_bind; [|intros _; apply grows_bind]; [apply grows_each.. | intros _; by apply grows_modify].
  all: intros e; destruct (EndpointManager.skipped direct wt e); [apply grows_ret |]; unfold EndpointManager.add_active, EndpointManager.add_inactive.
  all: repeat (first [apply grows_bind; [first [apply grows_find_or_new | apply grows_adapter | by apply grows_modify] |]; intros ? | apply grows_adapter]).
Qed.
End grows.

(** What the manager called back between two states. *)
Definition callbacks (l : list QueryEp.action) : list callback :=
  omap (λ a, if a is QueryEp.DoInvoke then Some DoInvoke else None) l.

Section queries.
Context {X B : Type} `{Transceiver X B} (nowms : Z) (new_trans : EndpointInfo → X) (garbage : uninitialized) (query_throws : nat → bool).
Implicit Types q : QueryEp.t X.

(** [_valid] stays; [doNotify] is called at most once, when it is set. *)
Record later q q' : Prop := {
  later_valid : QueryEp._valid q = true → QueryEp._valid q' = true;
  later_calls : ∃ l, QueryEp.trace q' = QueryEp.trace q ++ l ∧
    (callbacks l = [] ∨ QueryEp._valid q = false ∧ callbacks l = [DoInvoke] ∧ QueryEp._valid q' = true);
  later_adapters : (length (EndpointManager._vAllProxys (QueryEp.manager q)) ≤ length (EndpointManager._vAllProxys (QueryEp.manager q')))%nat
}.
Lemma later_trans q1 q2 q3 : later q1 q2 → later q2 q3 → later q1 q3.
Proof.
  intros [V1 (l1 & E1 & C1) L1] [V2 (l2 & E2 & C2) L2]. constructor; [auto | | lia].
  exists (l1 ++ l2). split; [by rewrite E2, E1, (assoc_L (++)) |]. unfold callbacks in *. rewrite omap_app.
  destruct C1 as [-> | (Hv & -> & Hv')].
  - destruct C2 as [-> | (Hv & -> & Hv')]; [by left |]. right. split_and!; [|done..].
    destruct (QueryEp._valid q1); [by rewrite V1 in Hv | done].
  - right. destruct C2 as [-> | (Hv2 & _)]; [split_and!; auto | congruence].
Qed.

Definition laters {A} (m : prog (QueryEp.t X) Empty_set A) : Prop := ∀ q, later q (m q).2.

Lemma later_same q q' : QueryEp._valid q' = QueryEp._valid q → QueryEp.trace q' = QueryEp.trace q → QueryEp.manager q' = QueryEp.manager q → later q q'.
Proof. intros Ev Et Em. constructor; rewrite ?Ev, ?Em; [done | | done]. exists []. split; [by rewrite app_nil_r | by left]. Qed.
Lemma laters_ret {A} (a : A) : laters (ret a).
Proof. intros q. by apply later_same. Qed.
Lemma later_bind {A D} q (m : prog _ Empty_set A) (f : A → prog _ Empty_set D) : later q (m q).2 → (∀ a, laters (f a)) → later q (bind m f q).2.
Proof.
  intros Hm Hf. unfold bind. destruct (m q) as [[a| | | |] q1]; cbn in *; try done.
  eapply later_trans; [exact Hm | apply Hf].
Qed.
Lemma laters_bind {A D} (m : prog _ Empty_set A) (f : A → prog _ Empty_set D) : laters m → (∀ a, laters (f a)) → laters (bind m f).
Proof. intros Hm Hf q. by apply later_bind. Qed.
Lemma laters_get {D} (f : QueryEp.t X → prog _ Empty_set D) : (∀ q0, laters (f q0)) → laters (bind get_st f).
Proof. intros Hf q. apply Hf. Qed.
Lemma laters_act a : callbacks [a] = [] → laters (QueryEp.act a).
Proof. intros Ha q. constructor; cbn; [done | | done]. exists [a]. split; [done | by left]. Qed.
Lemma laters_manager {A} (m : prog (EndpointManager.t X) Empty_set A) : grows m → laters (QueryEp.on_manager m).
Proof.
  intros Hm q. specialize (Hm (QueryEp.manager q)). unfold QueryEp.on_manager. destruct (m _) as [r em].
  constructor; cbn in *; [done | | done]. exists []. split; [by rewrite app_nil_r | by left].
Qed.
(** [if(!_valid) {_valid = true; doNotify();}] *)
Lemma later_notify q : later q ((if negb (QueryEp._valid q) then modify (QueryEp.set_valid true) ;;; QueryEp.doNotify else ret tt : prog _ Empty_set unit) q).2.
Proof.
  destruct (QueryEp._valid q) eqn:Ev; [by apply later_same |].
  constructor; cbn; [done | | done]. exists [QueryEp.DoInvoke]. split; [done | by right].
Qed.
Ltac other_members := intros ?; by apply later_same.

Lemma laters_exp iRet : laters (QueryEp.doEndpointsExp nowms iRet : prog (QueryEp.t X) Empty_set unit).
Proof.
  unfold QueryEp.doEndpointsExp. do 3 (apply laters_bind; [other_members | intros _]).
  intros q. unfold bind at 1, get_st. destruct (_ <? _); [|by apply later_same].
  apply later_bind; [apply later_notify | intros _; other_members].
Qed.
Lemma laters_outter : laters (QueryEp.onUpdateOutter new_trans garbage).
Proof.
  apply laters_get. intros q0. destruct (QueryEp._outterUpdate q0) as [[a i]|]; [|apply laters_ret].
  apply laters_bind; [apply laters_manager, grows_update |]. intros _. apply laters_bind; [|intros _; other_members].
  intros q. constructor; cbn; [done | | done]. exists []. split; [by rewrite app_nil_r | by left].
Qed.
Lemma laters_refresh : laters (QueryEp.refreshReg nowms new_trans garbage query_throws).
Proof.
  apply laters_bind; [apply laters_outter |]. intros _. apply laters_get. intros q0. destruct (QueryEp._direct q0); [apply laters_ret |].
  apply laters_bind; [destruct (_ && _); [apply laters_exp | apply laters_ret] |]. intros _. apply laters_get. intros q1.
  destruct (_ && _); [|apply laters_ret]. apply laters_bind; [other_members |]. intros _. destruct (negb _); [apply laters_ret |].
  destruct (query_throws _); [apply laters_exp | by apply laters_act].
Qed.
End queries.

(** ** The manager as the object sees it *)

(** The clock, in seconds and milliseconds, with the manager. *)
Record managed (X : Type) := mkManaged { m_now : Z; m_nowms : Z; query : QueryEp.t X }.
Arguments mkManaged {X}.
Arguments m_now {X} _.
Arguments m_nowms {X} _.
Arguments query {X} _.

(** What surrounds them: the arguments of the manager, and what [invoke], [doTimeout]
    and [doKeepAlive] of an adapter do to its breaker and its connection. *)
Record surroundings (X B : Type) := mkSurroundings {
  sr_info : CheckTimeoutInfo; sr_rand : nat → Z; sr_new_trans : EndpointInfo → X; sr_addr : nat → Z;
  sr_stack : MD5.MD5_CTX; sr_garbage : uninitialized; sr_query_throws : nat → bool;
  sr_invoke : nat → nat → ReqMessage B → breaker * X → breaker * X;
  sr_doTimeout : nat → breaker * X → breaker * X;
  sr_doKeepAlive : nat → breaker * X → breaker * X
}.
Arguments mkSurroundings {X B}.
Arguments sr_info {X B} _.
Arguments sr_rand {X B} _.
Arguments sr_new_trans {X B} _.
Arguments sr_addr {X B} _.
Arguments sr_stack {X B} _.
Arguments sr_garbage {X B} _.
Arguments sr_query_throws {X B} _.
Arguments sr_invoke {X B} _.
Arguments sr_doTimeout {X B} _.
Arguments sr_doKeepAlive {X B} _.

Section managed.
Context {X B : Type} `{Transceiver X B} `{ConnTimeout X} `{RingSort} (R : surroundings X B).

Abbreviation M A := (prog (managed X) Empty_set A).
Definition on_query {A} (m : prog (QueryEp.t X) Empty_set A) : M A := λ e,
  let '(r, q) := m (query e) in (r, mkManaged (m_now e) (m_nowms e) q).
Definition on_adapter {A} (p : nat) (f : EndpointManager.adapter X → A * EndpointManager.adapter X) : M A :=
  on_query (QueryEp.on_manager (EndpointManager.with_adapter p f)).
Definition on_breaker (p : nat) (f : breaker * X → breaker * X) : M unit :=
  on_adapter p (λ a, (tt, EndpointManager.set_breaker (f (EndpointManager.a_breaker a, EndpointManager._trans a)) a)).

Definition managed_refreshReg : M (list callback) :=
  let* e := get_st in
  on_query (QueryEp.refreshReg (m_nowms e) (sr_new_trans R) (sr_garbage R) (sr_query_throws R)) ;;;
  let* e' := get_st in ret (callbacks (drop (length (QueryEp.trace (query e))) (QueryEp.trace (query e')))).
Definition managed_select (h : option (Z * bool)) : M ((bool * option nat) * list callback) :=
  let* e := get_st in
  let* r := on_query (QueryEp.route (sr_info R) (m_now e) (sr_rand R) (sr_addr R) (sr_stack R) h) in ret (r, []).
(** The endpoint an adapter was made for. *)
Definition managed_endpoint (p : nat) : M (list Z) :=
  let* e := get_st in
  ret (default [] (fst <$> List.find (λ kp, bool_decide (kp.2 = p)) (EndpointManager._allProxys (QueryEp.manager (query e))))).

#[local] Instance managed_endpoints : Endpoints (managed X) B := {
  ep_refreshReg := managed_refreshReg;
  ep_select := managed_select;
  ep_connected p := on_adapter p (λ a, (tr_hasConnected (EndpointManager._trans a), a));
  ep_invoke p i m := on_breaker p (sr_invoke R p i m);
  ep_adapters e := seq 0 (length (EndpointManager._vAllProxys (QueryEp.manager (query e))));
  ep_activeAdapters e := EndpointManager._activeProxys (QueryEp.manager (query e));
  ep_doTimeout p := on_breaker p (sr_doTimeout R p);
  ep_doKeepAlive p := on_breaker p (sr_doKeepAlive R p);
  ep_mergeStat p := ret tt;
  ep_endpoint := managed_endpoint;
  ep_onSetInactive p := let* e := get_st in on_breaker p (onSetInactive (sr_info R) (m_now e))
}.

Context (known : list Z → Prop) (N W : Z).
Context (Hstack : length (MD5.buffer (sr_stack R)) = 64%nat) (Hknown : ∀ h, known h → bytes_ok h ∧ zlen h + 11 < 2 ^ 32).
Context (HN : 0 ≤ N ≤ 100000) (HW : 100 ≤ W < 2 ^ 31) (HNW : N * W < 2 ^ 31).

#[local] Instance managed_spec : EndpointsSpec (managed X) := {
  ep_ok e := query_inv (sr_stack R) known N W (query e);
  ep_valid e := QueryEp._valid (query e);
  ep_ptr e p := ptr_ok (QueryEp.manager (query e)) p;
  ep_hash_ok := hash_ok (sr_stack R) known W
}.

Lemma later_step e q : query_inv (sr_stack R) known N W q → later (query e) q → ep_step e (mkManaged (m_now e) (m_nowms e) q).
Proof. intros Hq [Hv _ Hl]. split_and!; [done | exact Hv |]. intros p. cbn. unfold ptr_ok. lia. Qed.

Lemma on_adapter_does {A} p (f : EndpointManager.adapter X → A * EndpointManager.adapter X) e :
  (∀ a, QueryEp.same_adapter a (f a).2) → ep_ok e → ep_ptr e p → ep_does (on_adapter p f) e.
Proof.
  intros Hf He Hp. cbn in He, Hp. destruct (lookup_lt_is_Some_2 _ _ Hp) as [a Ha]. specialize (Hf a).
  unfold ep_does, on_adapter, on_query, QueryEp.on_manager, EndpointManager.with_adapter. rewrite Ha. destruct (f a) as [r a'].
  eexists _, _. split; [reflexivity |]. apply later_step.
  - apply (inv_same_adapters (sr_stack R) known N W); [done |].
    apply Forall2_same_length_lookup. rewrite length_insert. split; [done |]. intros i x y Hx Hy.
    destruct (decide (i = p)) as [->|Hne].
    + rewrite list_lookup_insert_eq in Hy by (by eapply lookup_lt_Some). by simplify_eq.
    + rewrite list_lookup_insert_ne in Hy by done. assert (x = y) as -> by congruence. exists (EndpointManager.a_breaker y, EndpointManager._trans y). by destruct y.
  - constructor; cbn; [done | exists []; split; [by rewrite app_nil_r | by left] | by rewrite length_insert].
Qed.
Lemma on_breaker_does p f e : ep_ok e → ep_ptr e p → ep_does (on_breaker p f) e.
Proof. apply on_adapter_does. intros a. by eexists. Qed.

Lemma refresh_does e : ep_ok e → ∃ cbs e', ep_refreshReg e = (Ok cbs, e') ∧ ep_step e e' ∧
  (cbs = [] ∨ ep_valid e = false ∧ cbs = [DoInvoke] ∧ ep_valid e' = true).
Proof.
  intros He. cbn in He. destruct (safe_refresh (sr_new_trans R) (sr_stack R) (sr_garbage R) (sr_query_throws R) known N W Hstack HN (m_nowms e) _ He) as ([] & q & E & Hq).
  pose proof (laters_refresh (m_nowms e) (sr_new_trans R) (sr_garbage R) (sr_query_throws R) (query e)) as Hl. rewrite E in Hl. cbn in Hl.
  destruct (later_calls _ _ Hl) as (l & El & Hc). exists (callbacks l), (mkManaged (m_now e) (m_nowms e) q).
  split; [|split; [by apply later_step | done]].
  cbn. unfold managed_refreshReg, bind, get_st, on_query. rewrite E. cbn. by rewrite El, drop_app_length.
Qed.

Lemma routed_adapter wt h m m' p : inv (sr_stack R) known N W m → inv (sr_stack R) known N W m' → routed wt h m m' (Some p) → ptr_ok m' p.
Proof.
  intros Hm Hm'. pose proof (inv_active _ _ _ _ _ Hm) as Ha. pose proof (inv_vReg _ _ _ _ _ Hm) as Hr. pose proof (inv_weighted _ _ _ _ _ Hm') as Hw.
  rewrite Forall_forall in Ha, Hr, Hw.
  assert (Hch : chosen m m' (Some p) → ptr_ok m' p) by (intros (Ev & [Hp|Hp] & _); apply (evolves_ptr _ _ _ Ev); auto).
  unfold routed. destruct h; [exact Hch |]. destruct wt; [exact Hch |]. intros (Ev & l & [-> | ->] & Hp & _); [by apply Hw | apply (evolves_ptr _ _ _ Ev); auto].
Qed.
Lemma select_does h e : ep_ok e → ep_hash_ok h → ∃ r e', ep_select h e = (Ok (r, []), e') ∧ ep_step e e' ∧ ∀ p, r.2 = Some p → ep_ptr e' p.
Proof.
  intros He Hh. cbn in He, Hh. destruct e as [now nowms q]. cbn in He. cbn. unfold managed_select, QueryEp.route, bind, get_st, on_query. cbn.
  destruct (QueryEp._valid q) eqn:Ev; cbn; [|eexists _, _; split; [reflexivity | split; [|done]]; by apply (step_refl (mkManaged now nowms q))].
  destruct He as [Hm Hl Ho].
  destruct (select_spec (sr_info R) now (sr_rand R) (sr_addr R) (sr_stack R) known N W Hstack Hknown HN HW HNW (QueryEp._weightType q) h _ Hm Hh) as (o & m' & E & Hm' & Hr).
  unfold QueryEp.on_manager. rewrite E. eexists _, _. split; [reflexivity |]. split.
  - split_and!; [by constructor | done |]. intros p. cbn. apply evolves_ptr. unfold routed in Hr. destruct h, (QueryEp._weightType q); apply Hr.
  - cbn. intros p ->. exact (routed_adapter _ _ _ _ _ Hm Hm' Hr).
Qed.

Lemma managed_laws : EndpointsLaws (managed X) B.
Proof.
  constructor.
  - exact refresh_does.
  - intros h e. apply select_does.
  - intros p e. apply on_adapter_does. intros a. exists (EndpointManager.a_breaker a, EndpointManager._trans a). by destruct a.
  - intros p i m e. apply on_breaker_does.
  - intros e [Hm _ _]. split; [|apply Hm]. apply Forall_forall. intros p [_ Hp]%elem_of_seq. exact Hp.
  - intros p e. apply on_breaker_does.
  - intros p e. apply on_breaker_does.
  - intros p e He _. exists tt, e. split; [done | by apply step_refl].
  - intros p e He _. eexists _, e. split; [reflexivity | by apply step_refl].
  - intros p e He Hp. unfold ep_does. cbn. unfold bind, get_st. by apply on_breaker_does.
Qed.
End managed.

(** ** Properties *)

Import ObjectProxy.
Import TimeoutQueueNoID (rep, e_ptr, e_deadline).

Section properties.
Context {E B : Type} `{EndpointsLaws E B} (C : settings) (depth : nat).
Implicit Types s : t E B.


(** C34: [doTimeout] fails the messages whose deadline has come, each with
    [TARSINVOKETIMEOUT] and in the way its type demands, and leaves the others in the
    queue, in their order. *)
Theorem object_timeouts (e : E) issued s now : ep_ok e → rtc (step C depth) ([], new e) (issued, s) →
  ∃ G s', rep (_reqTimeoutQueue s) G ∧ doTimeout C now s = (Ok tt, s') ∧
    rep (_reqTimeoutQueue s') (filter (λ g, wrapU 64 now < e_deadline g) G) ∧ failures C now G s s'.
Proof.
  intros He Hr. destruct (reachable_owns C depth e issued s He Hr) as [G Hs].
  destruct (doTimeout_ok C issued s G now Hs) as (s' & E' & Hs' & Hf). exists G, s'.
  split_and!; [apply Hs | done | apply Hs' | done].
Qed.

(** C35: When an adapter connects, every message that waits goes to it, the oldest first,
    and none waits any more, if none of them has its adapter chosen by hash.  (The
    adapter a message was queued for, which need not be this one, is not looked at.) *)
Theorem connected_sends_all (e : E) issued s p : ep_ok e → rtc (step C depth) ([], new e) (issued, s) →
  ep_ptr (_endpointManger s) p → map_Forall (λ _ (m : message B), hash m = None ∨ adapter m ≠ None) (heap s) →
  ∃ s', onConnect C (S depth) p s = (Ok tt, s') ∧ TimeoutQueueNoID._list (_reqTimeoutQueue s') = [] ∧
    gone s' = gone s ++ omap (λ x : nat * nat, (λ m, (x.2, (ToAdapter p, with_adapter p m))) <$> heap s !! x.2)
      (reverse (TimeoutQueueNoID._list (_reqTimeoutQueue s))).
Proof.
  intros He Hr Hp Hall. destruct (reachable_owns C depth e issued s He Hr) as [G Hs].
  pose proof (TimeoutQueueNoID.rep_list _ _ (own_queue _ _ _ _ Hs)) as El.
  destruct (prepare_loop_sends C (selectAdapterProxy C (S depth)) issued p (S (length (TimeoutQueueNoID._list (_reqTimeoutQueue s)))) s G Hs Hp) as (s' & E' & Hs' & Eg).
  - rewrite El, length_fmap, length_reverse. lia.
  - apply Forall_forall. intros g Hg. assert (is_Some (heap s !! e_ptr g)) as [m Em].
    { apply elem_of_dom, (own_heap _ _ _ _ Hs). cbn. by apply list_elem_of_fmap_2. }
    exists m. split; [done | by apply (Hall _ _ Em)].
  - exists s'. split; [exact E' |]. split; [by rewrite (TimeoutQueueNoID.rep_list _ _ (own_queue _ _ _ _ Hs')) |]. rewrite Eg. f_equal.
    rewrite El. rewrite <- fmap_reverse, reverse_involutive. clear. induction G as [|g G IH]; [done |]. cbn. rewrite IH. done.
Qed.
End properties.

(** ** A connection that is made at once *)

Section prompt.
Context {E B : Type} `{Endpoints E B} (C : settings) (depth : nat).
Implicit Types s : t E B.

Lemma deref_run i s m : heap s !! i = Some m → deref i s = (Ok m, s).
Proof. intros Em. unfold deref. by rewrite Em. Qed.
Lemma send_one_run sel p i s m e3 : heap s !! i = Some m → hash m = None → ep_invoke p i (msg m) (_endpointManger s) = (Ok tt, e3) →
  send_one C sel p i s = (Ok (Some p), mk (_hasInitialize s) e3 (_reqTimeoutQueue s) (delete i (<[i := with_adapter p m]> (heap s)))
    (gone s ++ [(i, (ToAdapter p, with_adapter p m))])).
Proof.
  intros Em Hh Ei. unfold send_one. rewrite (bind_Ok _ _ _ _ _ (deref_run i s m Em)), Hh.
  set (s1 := with_message i (with_adapter p m) s). assert (Ed : deref i s1 = (Ok (with_adapter p m), s1)) by (apply deref_run, lookup_insert_eq).
  assert (Eu : update i (with_adapter p) s = (Ok tt, s1)) by (unfold update; by rewrite (bind_Ok _ _ _ _ _ (deref_run i s m Em))).
  assert (Ea : adapter_invoke p i s1 = (Ok tt, mk (_hasInitialize s) e3 (_reqTimeoutQueue s) (delete i (heap s1)) (gone s ++ [(i, (ToAdapter p, with_adapter p m))]))).
  { unfold adapter_invoke, give. rewrite (bind_Ok _ _ _ _ _ Ed). unfold bind at 1. rewrite (bind_Ok _ _ _ _ _ Ed). cbn.
    unfold on_endpoints. cbn. change (msg (with_adapter p m)) with (msg m). by rewrite Ei. }
  destruct (adapter m); by rewrite (bind_Ok _ _ _ _ _ Eu), (bind_Ok _ _ _ _ _ Ea).
Qed.

(** C36: The iterator of [doInvoke] does not survive a connection that is made at once (to a
    local socket, say): the selection for the message it points to calls [onConnect],
    which sends the message and erases its node, and the [++it] that follows reads the
    node that was freed. *)
Theorem prompt_connection_invalidates s g m (e1 e2 e3 : E) r p :
  rep (_reqTimeoutQueue s) [g] → heap s !! e_ptr g = Some m → hash m = None →
  ep_refreshReg (_endpointManger s) = (Ok [], e1) → ep_select None e1 = (Ok (r, [OnConnect p]), e2) →
  ep_invoke p (e_ptr g) (msg m) e2 = (Ok tt, e3) →
  (handle C (S depth) Notify s).1 = OutOfBounds.
Proof.
  intros Hr Em Hh Er Es Ei. pose proof (TimeoutQueueNoID.rep_list _ _ Hr) as El. pose proof (TimeoutQueueNoID.rep_time _ _ Hr) as Et. cbn in El, Et.
  destruct s as [ini e [tm lst nds] hp gn], g as [i d n]. cbn in El, Et, Em, Er, Ei. subst tm lst. set (q := TimeoutQueueNoID.mk [(d, n)] [(n, i)] nds).
  set (q' := TimeoutQueueNoID.mk (T := nat) [] [] nds).
  assert (Epop : ∀ e0, on_queue TimeoutQueueNoID.pop (mk ini e0 q hp gn : t E B) = (Ok (Some i), mk ini e0 q' hp gn)).
  { intros e0. unfold on_queue, TimeoutQueueNoID.pop, TimeoutQueueNoID.time_erase. unfold bind, get_st, q. cbn.
    rewrite decide_True by (by left). cbn. rewrite decide_False by (by intros Hn; apply Hn). done. }
  assert (Eprep : ∀ sel, prepareConnection C sel p (mk ini e2 q hp gn) =
    (Ok tt, mk ini e3 q' (delete i (<[i := with_adapter p m]> hp)) (gn ++ [(i, (ToAdapter p, with_adapter p m))]))).
  { intros sel. unfold prepareConnection, bind at 1, get_st. cbn [prepare_loop]. unfold bind at 1, get_st. cbn -[on_queue].
    rewrite (bind_Ok _ _ _ _ _ (Epop e2)), (bind_Ok _ _ _ _ _ (send_one_run sel p i (mk ini e2 q' hp gn) m e3 Em Hh Ei)). done. }
  assert (Esel : ∃ s', selectAdapterProxy C (S depth) None (mk ini e q hp gn) = (Ok r, s') ∧ _reqTimeoutQueue s' = q').
  { eexists. cbn [selectAdapterProxy]. unfold on_endpoints. unfold bind at 1. cbn -[prepareConnection]. rewrite Er. cbn -[prepareConnection].
    unfold bind at 1 2. cbn -[prepareConnection]. rewrite Es. cbn -[prepareConnection]. unfold bind. rewrite Eprep. done. }
  destruct Esel as (s' & Esel & Eq'). unfold handle. set (sel := selectAdapterProxy C (S depth)) in *. unfold doInvoke.
  assert (Eb : on_queue TimeoutQueueNoID.begin_ (mk ini e q hp gn : t E B) = (Ok (Some n), mk ini e q hp gn)) by done.
  rewrite (bind_Ok _ _ _ _ _ Eb). unfold bind at 1, get_st. cbn [doInvoke_loop length _reqTimeoutQueue TimeoutQueueNoID._list q].
  assert (Ed : on_queue (TimeoutQueueNoID.deref n) (mk ini e q hp gn : t E B) = (Ok i, mk ini e q hp gn)).
  { unfold on_queue, TimeoutQueueNoID.deref, bind, get_st, TimeoutQueueNoID.node_at. cbn. by rewrite decide_True. }
  rewrite (bind_Ok _ _ _ _ _ Ed). assert (Em' : deref i (mk ini e q hp gn) = (Ok m, mk ini e q hp gn)) by (unfold deref; cbn; by rewrite Em).
  rewrite (bind_Ok _ _ _ _ _ Em'), Hh, (bind_Ok _ _ _ _ _ Esel). unfold bind, on_queue. rewrite Eq'. done.
Qed.
End prompt.

(** * The properties at work *)

(** A manager with two endpoints of its own, both still connecting. *)
Definition sample_surroundings : surroundings script nat :=
  mkSurroundings sample_info (λ _, 0) (λ _, mkScript true false 0 []) (λ p, Z.of_nat p) stack_garbage sample_garbage (λ _, false)
    (λ _ _ _ bx, bx) (λ _ bx, bx) (λ _ bx, bx).
#[local] Instance sample_endpoints : Endpoints (managed script) nat := managed_endpoints sample_surroundings.
#[local] Instance sample_spec : EndpointsSpec (managed script) := managed_spec sample_surroundings sample_known 10 100.
#[local] Instance sample_laws : EndpointsLaws (managed script) nat :=
  managed_laws sample_surroundings sample_known 10 100 eq_refl sample_hosts ltac:(lia) ltac:(lia) ltac:(lia).

Definition sample_direct : outcome Empty_set unit * QueryEp.t script :=
  QueryEp.init (sr_new_trans sample_surroundings) sample_garbage true true (Some [(0, endpoint_a); (0, endpoint_b)]) None
    (QueryEp.new sample_garbage true 60).
Definition sample_managed : managed script := mkManaged 1 1000 sample_direct.2.
Lemma sample_managed_ok : ep_ok sample_managed.
Proof.
  destruct (init_spec (sr_new_trans sample_surroundings) stack_garbage sample_garbage sample_known 10 100 eq_refl ltac:(lia) ltac:(lia) true 60 true true
    (Some [(0, endpoint_a); (0, endpoint_b)]) None) as (s & E & Hs); [|done|].
  - split; [|done]. repeat (constructor; [split; [first [by left | by right] | by cbn] |]). constructor.
  - change (query_inv stack_garbage sample_known 10 100 sample_direct.2).
    assert (sample_direct.2 = s) as -> by (unfold sample_direct; by rewrite E). exact Hs.
Qed.

Definition sample_settings : settings := {| tars_connect_timeout := 1500; TARSADAPTERNULL := -10; TARSINVOKETIMEOUT := -9 |}.
Definition sample_message (ty : CallType) : message nat := mkMessage (sample_msg ty) None true None.
(** Two calls, and timers before any deadline. *)
Definition sample_events : list event :=
  [Invoke 0 (sample_message ASYNC_CALL); Invoke 1 (sample_message SYNC_CALL); MergeStat; Timeout 2000].
Definition run (evs : list (@event nat)) (s : t (managed script) nat) : t (managed script) nat :=
  fold_left (λ s e, (handle sample_settings 1 e s).2) evs s.
Fixpoint all_admitted (issued : list nat) (s : t (managed script) nat) (evs : list (@event nat)) : Prop :=
  match evs with
  | [] => True
  | e :: evs' => admitted issued s e ∧ all_admitted (issue issued e) (handle sample_settings 1 e s).2 evs'
  end.
Lemma run_reachable evs : ∀ issued s, all_admitted issued s evs → rtc (step sample_settings 0) (issued, s) (fold_left issue evs issued, run evs s).
Proof.
  induction evs as [|e evs IH]; intros issued s Hevs; [apply rtc_refl |]. destruct Hevs as [He Hevs]. eapply rtc_l; [|by apply IH].
  eapply step_event; [exact He | apply surjective_pairing].
Qed.
Definition sample_object : t (managed script) nat := run sample_events (new sample_managed).
Lemma sample_object_reachable : rtc (step sample_settings 0) ([], new sample_managed) ([0%nat; 1%nat], sample_object).
Proof.
  apply (run_reachable sample_events [] (new sample_managed)). cbn [all_admitted sample_events admitted].
  split_and!; try done; by apply (bool_decide_unpack _); vm_compute.
Qed.
Example sample_waits : (TimeoutQueueNoID._list (_reqTimeoutQueue sample_object)).*2 = [1%nat; 0%nat].
Proof. vm_compute. reflexivity. Qed.


(** Both messages wait until 2500, for a connection. *)
Lemma object_timeouts_witness :
  (∃ G s', rep (_reqTimeoutQueue sample_object) G ∧ doTimeout sample_settings 2500 sample_object = (Ok tt, s') ∧
    rep (_reqTimeoutQueue s') (filter (λ g, wrapU 64 2500 < e_deadline g) G) ∧ failures sample_settings 2500 G sample_object s') ∧
  (λ x : nat * (fate * message nat), (x.1, x.2.1, ResponsePacket.iRet (response (msg x.2.2)))) <$> gone (doTimeout sample_settings 2500 sample_object).2 =
    [(0%nat, Failed Dispatched, -9); (1%nat, Failed Notified, -9)] ∧
  gone (doTimeout sample_settings 2499 sample_object).2 = [].
Proof.
  split; [|split; vm_compute; reflexivity].
  exact (object_timeouts sample_settings 0 sample_managed [0%nat; 1%nat] sample_object 2500 sample_managed_ok sample_object_reachable).
Defined.

(** Both messages wait for the second adapter; the first one connects and gets them. *)
Lemma connected_sends_all_witness :
  (∃ s', onConnect sample_settings 1 0 sample_object = (Ok tt, s') ∧ (λ x : nat * (fate * message nat), (x.1, x.2.1)) <$> gone s' =
    [(0%nat, ToAdapter 0); (1%nat, ToAdapter 0)]) ∧
  (λ i, heap sample_object !! i ≫= adapter) <$> [0%nat; 1%nat] = [Some 1%nat; Some 1%nat].
Proof.
  split; [|by vm_compute].
  destruct (connected_sends_all sample_settings 0 sample_managed [0%nat; 1%nat] sample_object 0 sample_managed_ok sample_object_reachable) as (s' & E & _ & Eg).
  - apply (bool_decide_unpack (0 < 2)%nat). vm_compute. exact I.
  - apply (bool_decide_unpack _). vm_compute. exact I.
  - exists s'. split; [exact E |]. rewrite Eg. vm_compute. reflexivity.
Defined.

(** A manager with one adapter on a local socket: before the registry has answered, then
    not connected, then connected. *)
Inductive local_state : Type := NotValid | Closed | Open.
#[local] Instance local_endpoints : Endpoints local_state nat := {
  ep_refreshReg := ret [];
  ep_select _ := λ e, match e with
    | NotValid => (Ok ((true, None), []), e)
    | Closed => (Ok ((false, Some 0%nat), [OnConnect 0]), Open)
    | Open => (Ok ((false, Some 0%nat), []), e)
    end;
  ep_connected _ := λ e, (Ok (if e is Open then true else false), e);
  ep_invoke _ _ _ := ret tt;
  ep_adapters _ := [0%nat]; ep_activeAdapters _ := [0%nat];
  ep_doTimeout _ := ret tt; ep_doKeepAlive _ := ret tt; ep_mergeStat _ := ret tt; ep_endpoint _ := ret []; ep_onSetInactive _ := ret tt
}.
(** A call waits for the registry, which then answers. *)
Definition local_object : t local_state nat :=
  let s := (handle sample_settings 1 (Invoke 0 (sample_message ASYNC_CALL)) (new NotValid)).2 in
  mk (_hasInitialize s) Closed (_reqTimeoutQueue s) (heap s) (gone s).

Lemma prompt_connection_invalidates_witness : (handle sample_settings 1 Notify local_object).1 = OutOfBounds.
Proof.
  apply (prompt_connection_invalidates sample_settings 0 local_object (TimeoutQueueNoID.mkEntry 0%nat 4000 0) (sample_message ASYNC_CALL)
    Closed Open Open (false, Some 0%nat) 0); [|reflexivity..].
  constructor; [reflexivity | reflexivity | apply NoDup_singleton |]. apply Forall_singleton. vm_compute. repeat constructor.
Defined.
