(* ===== verification/MemChunk.v ===== *)
(** The allocators of [src/util/src/tc_mem_chunk.cpp], which live in shared memory:
    [TC_MemChunk], blocks of one size in a free list; [TC_MemChunkAllocator], one such
    chunk with a head; [TC_MemMultiChunkAllocator], chunks of growing block sizes, and
    further areas behind the first. *)
From stdpp Require Import prelude gmap list.
From Stdlib Require Import ZArith Lia Floats.SpecFloat.
From S2P Require Import Prelude Bytes AdapterProxy.

(** ** One size *)

Module MemChunk.
(** [tagChunkHead], and the address behind it.  [words] is the first [size_t] of each
    block: the number of the next free block, or what the owner of the block has put
    there. *)
Record t := mk {
  _pData : Z;
  _iBlockSize : Z; _iBlockCount : Z; _firstAvailableBlock : Z; _blockAvailable : Z;
  words : gmap Z Z
}.
Abbreviation M A := (prog t Empty_set A).

Definition getHeadSize : Z := 32.
Definition calcMemSize (iBlockSize iBlockCount : Z) : Z := iBlockSize * iBlockCount + getHeadSize.
Definition calcBlockCount (iMemSize iBlockSize : Z) : Z :=
  if iMemSize <=? getHeadSize then 0 else Z.min ((iMemSize - getHeadSize) / iBlockSize) (2 ^ 64 - 1).

Definition set_free first available ws (c : t) : t := mk (_pData c) (_iBlockSize c) (_iBlockCount c) first available ws.

(** The loop of [create] and [rebuild]. *)
Definition linked (iBlockCount : Z) : gmap Z Z := list_to_map ((λ i, (i, i + 1)) <$> seqZ 0 iBlockCount).
Definition create (pAddr iBlockSize iBlockCount : Z) : t := mk (pAddr + getHeadSize) iBlockSize iBlockCount 0 iBlockCount (linked iBlockCount).
Definition rebuild : M unit := modify (λ c, set_free 0 (_iBlockCount c) (linked (_iBlockCount c)) c).

Definition isBlockAvailable (c : t) : bool := 0 <? _blockAvailable c.
Definition block_addr (i : Z) (c : t) : Z := _pData c + i * _iBlockSize c.

(** The first bytes of the block are cleared: [sizeof] of the member [_iBlockSize]. *)
Definition allocate : M (option Z) :=
  let* c := get_st in
  if negb (isBlockAvailable c) then ret None else
  let i := _firstAvailableBlock c in
  match words c !! i with
  | None => out_of_bounds
  | Some next =>
    put_st (set_free next (wrapU 64 (_blockAvailable c - 1)) (<[i := 0]> (words c)) c) ;;; ret (Some (block_addr i c))
  end.
Definition allocate2 : M (option (Z * Z)) :=
  let* c := get_st in
  let iIndex := wrapU 64 (_firstAvailableBlock c + 1) in
  let* p := allocate in ret ((λ p, (p, iIndex)) <$> p).

Definition deallocate (pAddr : Z) : M unit :=
  let* c := get_st in
  assert_that (_pData c <=? pAddr) ;;;
  assert_that ((pAddr - _pData c) mod _iBlockSize c =? 0) ;;;
  let i := (pAddr - _pData c) / _iBlockSize c in
  if decide (is_Some (words c !! i)) then
    put_st (set_free i (wrapU 64 (_blockAvailable c + 1)) (<[i := _firstAvailableBlock c]> (words c)) c)
  else out_of_bounds.
Definition getAbsolute (iIndex : Z) : M Z :=
  let* c := get_st in
  assert_that ((0 <? iIndex) && (iIndex <=? _iBlockCount c)) ;;; ret (block_addr (iIndex - 1) c).
Definition getRelative (pAddr : Z) : M Z :=
  let* c := get_st in
  assert_that ((_pData c <=? pAddr) && (pAddr <=? _pData c + _iBlockSize c * _iBlockCount c)) ;;;
  assert_that ((pAddr - _pData c) mod _iBlockSize c =? 0) ;;;
  ret (1 + (pAddr - _pData c) / _iBlockSize c).
Definition deallocate2 (iIndex : Z) : M unit :=
  let* pAddr := getAbsolute iIndex in deallocate pAddr.

(** The owner of a block writes to it. *)
Definition scribble (i v : Z) (c : t) : t := set_free (_firstAvailableBlock c) (_blockAvailable c) (<[i := v]> (words c)) c.
End MemChunk.

(** ** A chunk with its size *)

Module MemChunkAllocator.
Record t := mk { _pHead : Z; _iSize : Z; _iBlockSize : Z; _chunk : MemChunk.t }.
Abbreviation M A := (prog t Empty_set A).

Definition getHeadSize : Z := 16.
(** [create], with [initChunk]. *)
Definition create (pAddr iSize iBlockSize : Z) {S} : prog S Empty_set t :=
  assert_that (getHeadSize <? iSize) ;;;
  let iChunkCapacity := iSize - getHeadSize in
  assert_that (MemChunk.getHeadSize <? iChunkCapacity) ;;;
  let iBlockCount := (iChunkCapacity - MemChunk.getHeadSize) / iBlockSize in
  assert_that (0 <? iBlockCount) ;;;
  assert_that (8 <? iBlockSize) ;;;
  ret (mk pAddr iSize iBlockSize (MemChunk.create (pAddr + getHeadSize) iBlockSize iBlockCount)).
(** [connect] reads the same head. *)
Definition connect (a : t) {S} : prog S Empty_set unit :=
  assert_that (getHeadSize <? _iSize a) ;;;
  assert_that (MemChunk.getHeadSize <? _iSize a - getHeadSize).

Definition on_chunk {A} (m : prog MemChunk.t Empty_set A) : M A := λ a,
  let '(r, c) := m (_chunk a) in (r, mk (_pHead a) (_iSize a) (_iBlockSize a) c).
Definition allocate : M (option Z) := on_chunk MemChunk.allocate.
Definition allocate2 : M (option (Z * Z)) := on_chunk MemChunk.allocate2.
Definition deallocate (pAddr : Z) : M unit :=
  let* a := get_st in assert_that (_pHead a + getHeadSize <=? pAddr) ;;; on_chunk (MemChunk.deallocate pAddr).
Definition deallocate2 (iIndex : Z) : M unit := on_chunk (MemChunk.deallocate2 iIndex).
Definition getAbsolute (iIndex : Z) : M Z := on_chunk (MemChunk.getAbsolute iIndex).
Definition getRelative (pAddr : Z) : M Z := on_chunk (MemChunk.getRelative pAddr).
Definition rebuild : M unit := on_chunk MemChunk.rebuild.
Definition getCapacity (a : t) : Z := MemChunk._iBlockSize (_chunk a) * MemChunk._iBlockCount (_chunk a).
End MemChunkAllocator.

(** ** Growing sizes, and further areas *)

(** [(size_t)(n * f)] in single precision. *)
Definition truncate_float (x : spec_float) : Z :=
  match x with S754_finite s m e => (if s then Z.opp else id) (Z.shiftl (Zpos m) e) | _ => 0 end.
Definition mul_factor (n : Z) (f : spec_float) : Z := truncate_float (SFmul 24 128 (float_of n) f).

Module MemMultiChunkAllocator.
(** An area: [tagChunkAllocatorHead] with its address, and the members of the object.
    An allocator is the list of its own area and those of its [_nallocator]s. *)
Record segment := mk {
  _pHead : Z;
  _iSize : Z; _iTotalSize : Z; _iMinBlockSize : Z; _iMaxBlockSize : Z; _fFactor : spec_float; _iNext : Z;
  _vBlockSize : list Z; _iBlockCount : Z; _allocator : list MemChunkAllocator.t; _iAllIndex : Z
}.
Definition t : Type := list segment.

Definition getHeadSize : Z := 44.
Definition set_allocator l (s : segment) : segment :=
  mk (_pHead s) (_iSize s) (_iTotalSize s) (_iMinBlockSize s) (_iMaxBlockSize s) (_fFactor s) (_iNext s) (_vBlockSize s) (_iBlockCount s) l (_iAllIndex s).
Definition set_sizes total next (s : segment) : segment :=
  mk (_pHead s) (_iSize s) total (_iMinBlockSize s) (_iMaxBlockSize s) (_fFactor s) next (_vBlockSize s) (_iBlockCount s) (_allocator s) (_iAllIndex s).

Section state.
Context {St : Type}.

(** [calc]: the block sizes, and how many blocks of each. *)
Fixpoint calc_loop (fuel : nat) (iMin iMax : Z) (f : spec_float) (n : Z) : prog St Empty_set (list Z) :=
  if n <? iMax then
    match fuel with
    | O => λ s, (NoFuel, s)
    | S fuel' =>
      let n' := if iMin <? iMax then Z.max (mul_factor n f) (n + 1) else n in
      let* v := calc_loop fuel' iMin iMax f n' in ret (n :: v)
    end
  else ret [].
Definition calc (iSize iMin iMax : Z) (f : spec_float) : prog St Empty_set (list Z * Z) :=
  let* v := calc_loop (Z.to_nat (iMax - iMin)) iMin iMax f iMin in
  let vBlockSize := v ++ [iMax] in
  let heads := getHeadSize + MemChunkAllocator.getHeadSize * zlen vBlockSize + MemChunk.getHeadSize * zlen vBlockSize in
  assert_that (heads <? iSize) ;;;
  let iBlockCount := (iSize - heads) / foldr Z.add 0 vBlockSize in
  assert_that (1 <=? iBlockCount) ;;;
  ret (vBlockSize, iBlockCount).

(** The loop of [create], over the block sizes. *)
Fixpoint create_chunks (pChunkBegin iBlockCount : Z) (v : list Z) : prog St Empty_set (list MemChunkAllocator.t) :=
  match v with
  | [] => ret []
  | n :: v' =>
    let iAllocSize := MemChunkAllocator.getHeadSize + MemChunk.calcMemSize n iBlockCount in
    let* p := MemChunkAllocator.create pChunkBegin iAllocSize n in
    let* ps := create_chunks (pChunkBegin + iAllocSize) iBlockCount v' in ret (p :: ps)
  end.
(** The assertion on [fFactor] compares floats, which here are numbers. *)
Definition create (pAddr iSize iMinBlockSize iMaxBlockSize : Z) (fFactor : spec_float) : prog St Empty_set segment :=
  assert_that (iMinBlockSize <=? iMaxBlockSize) ;;;
  assert_that (SFleb (float_of 1) fFactor) ;;;
  let* c := calc iSize iMinBlockSize iMaxBlockSize fFactor in
  let* ps := create_chunks (pAddr + getHeadSize) c.2 c.1 in
  ret (mk pAddr iSize iSize iMinBlockSize iMaxBlockSize fFactor 0 c.1 c.2 ps (zlen ps * c.2)).
End state.

Abbreviation M A := (prog t Empty_set A).

Definition out_of_areas {A} : M A := λ s, (AssertFailed, s).
(** A program on the first area, and one on the others ([_nallocator]). *)
Definition on_first {A} (m : prog segment Empty_set A) : M A := λ s,
  match s with
  | [] => (OutOfBounds, s)
  | g :: gs => let '(r, g') := m g in (r, g' :: gs)
  end.
Definition on_next {A} (m : M A) : M A := λ s,
  match s with
  | [] => (OutOfBounds, s)
  | g :: gs => let '(r, gs') := m gs in (r, g :: gs')
  end.

(** [_allocator[i]] *)
Definition on_allocator {A} (i : nat) (m : prog MemChunkAllocator.t Empty_set A) : prog segment Empty_set A := λ g,
  match _allocator g !! i with
  | None => (OutOfBounds, g)
  | Some a => let '(r, a') := m a in (r, set_allocator (<[i := a']> (_allocator g)) g)
  end.

(** The two loops of [allocate2], upwards and downwards. *)
Fixpoint allocate_loop (fits : Z → bool) (idx : list nat) : prog segment Empty_set (option (Z * Z * Z)) :=
  match idx with
  | [] => ret None
  | i :: idx' =>
    let* a := on_allocator i get_st in
    if fits (MemChunkAllocator._iBlockSize a) then
      let* p := on_allocator i MemChunkAllocator.allocate2 in
      match p with
      | Some (p, n) =>
        let* g := get_st in
        match _vBlockSize g !! i with
        | Some iAllocSize => ret (Some (p, iAllocSize, wrapU 64 (Z.of_nat i * _iBlockCount g + n)))
        | None => out_of_bounds
        end
      | None => allocate_loop fits idx'
      end
    else allocate_loop fits idx'
  end.
Definition allocate_here (iNeedSize : Z) : prog segment Empty_set (option (Z * Z * Z)) :=
  let* g := get_st in
  let idx := seq 0 (length (_allocator g)) in
  let* p := allocate_loop (λ n, iNeedSize <=? n) idx in
  match p with
  | Some _ => ret p
  | None => allocate_loop (λ n, n <? iNeedSize) (reverse idx)
  end.
(** The address, [iAllocSize] and [iIndex]. *)
Fixpoint allocate2_areas (areas : t) (iNeedSize : Z) : M (option (Z * Z * Z)) :=
  match areas with
  | [] => ret None
  | g :: gs =>
    let* p := on_first (allocate_here iNeedSize) in
    match p with
    | Some _ => ret p
    | None =>
      match gs with
      | [] => ret None
      | _ =>
        let* p := on_next (allocate2_areas gs iNeedSize) in
        ret ((λ p, (p.1, wrapU 64 (p.2 + _iAllIndex g))) <$> p)
      end
    end
  end.
Definition allocate2 (iNeedSize : Z) : M (option (Z * Z * Z)) := λ s, allocate2_areas s iNeedSize s.
Definition allocate (iNeedSize : Z) : M (option (Z * Z)) := let* p := allocate2 iNeedSize in ret (fst <$> p).

(** Which chunk of an area an address is in. *)
Fixpoint chunk_of (pAddr pChunkBegin : Z) (l : list MemChunkAllocator.t) : option nat :=
  match l with
  | [] => None
  | a :: l' =>
    let pChunkEnd := pChunkBegin + MemChunkAllocator._iSize a in
    if pAddr <? pChunkEnd then Some O else S <$> chunk_of pAddr pChunkEnd l'
  end.
Fixpoint deallocate_areas (areas : t) (pAddr : Z) : M unit :=
  match areas with
  | [] => out_of_areas
  | g :: gs =>
    if pAddr <? _pHead g + _iSize g then
      match chunk_of pAddr (_pHead g + getHeadSize) (_allocator g) with
      | Some i => on_first (on_allocator i (MemChunkAllocator.deallocate pAddr))
      | None => out_of_areas
      end
    else match gs with [] => out_of_areas | _ => on_next (deallocate_areas gs pAddr) end
  end.
Definition deallocate (pAddr : Z) : M unit := λ s, deallocate_areas s pAddr s.

(** [deallocate2] counts the index down, from chunk to chunk and from area to area. *)
Fixpoint deallocate2_chunks (idx : list nat) (iIndex : Z) : prog segment Empty_set (option Z) :=
  match idx with
  | [] => ret (Some iIndex)
  | i :: idx' =>
    let* g := get_st in
    if iIndex <=? _iBlockCount g then on_allocator i (MemChunkAllocator.deallocate2 iIndex) ;;; ret None
    else deallocate2_chunks idx' (wrapU 64 (iIndex - _iBlockCount g))
  end.
Fixpoint deallocate2_areas (areas : t) (iIndex : Z) : M unit :=
  match areas with
  | [] => out_of_areas
  | g :: gs =>
    let* r := on_first (deallocate2_chunks (seq 0 (length (_allocator g))) iIndex) in
    match r with
    | None => ret tt
    | Some iIndex => match gs with [] => out_of_areas | _ => on_next (deallocate2_areas gs iIndex) end
    end
  end.
Definition deallocate2 (iIndex : Z) : M unit := λ s, deallocate2_areas s iIndex s.

(** [None] is [NULL]. *)
Fixpoint getAbsolute_areas (areas : t) (iIndex : Z) : M (option Z) :=
  match areas with
  | [] => out_of_areas
  | g :: gs =>
    if iIndex =? 0 then ret None else
    if iIndex <=? _iAllIndex g then
      let i := (iIndex - 1) / _iBlockCount g in
      let* p := on_first (on_allocator (Z.to_nat i) (MemChunkAllocator.getAbsolute (wrapU 64 (iIndex - i * _iBlockCount g)))) in ret (Some p)
    else
      match gs with [] => out_of_areas | _ => on_next (getAbsolute_areas gs (iIndex - _iAllIndex g)) end
  end.
Definition getAbsolute (iIndex : Z) : M (option Z) := λ s, getAbsolute_areas s iIndex s.

Fixpoint relative_chunk (pAddr : Z) (l : list MemChunkAllocator.t) : option nat :=
  match l with
  | [] => None
  | a :: l' => if pAddr <? MemChunkAllocator._pHead a + MemChunkAllocator._iSize a then Some O else S <$> relative_chunk pAddr l'
  end.
Fixpoint getRelative_areas (areas : t) (pAddr : option Z) : M Z :=
  match areas, pAddr with
  | _, None => ret 0
  | [], _ => out_of_areas
  | g :: gs, Some p =>
    if p <? _pHead g + _iSize g then
      match relative_chunk p (_allocator g) with
      | Some i => let* n := on_first (on_allocator i (MemChunkAllocator.getRelative p)) in ret (Z.of_nat i * _iBlockCount g + n)
      | None => out_of_areas
      end
    else match gs with [] => ret 0 | _ => let* n := on_next (getRelative_areas gs pAddr) in ret (wrapU 64 (_iAllIndex g + n)) end
  end.
Definition getRelative (pAddr : option Z) : M Z := λ s, getRelative_areas s pAddr s.

(** [rebuild], [getCapacity], [allBlockChunkCount]. *)
Fixpoint rebuild_chunks (idx : list nat) : prog segment Empty_set unit :=
  match idx with [] => ret tt | i :: idx' => on_allocator i MemChunkAllocator.rebuild ;;; rebuild_chunks idx' end.
Fixpoint rebuild_areas (areas : t) : M unit :=
  match areas with
  | [] => ret tt
  | g :: gs => on_first (rebuild_chunks (seq 0 (length (_allocator g)))) ;;; on_next (rebuild_areas gs)
  end.
Definition rebuild : M unit := λ s, rebuild_areas s s.
Definition getCapacity (s : t) : Z := foldr Z.add 0 ((λ g, foldr Z.add 0 (MemChunkAllocator.getCapacity <$> _allocator g)) <$> s).
Definition allBlockChunkCount (s : t) : Z := foldr Z.add 0 ((λ g, _iBlockCount g * zlen (_vBlockSize g)) <$> s).

(** [connect] computes the members of the objects from the heads; the chunks are where
    [create] put them. *)
Fixpoint connect_chunks (l : list MemChunkAllocator.t) : M unit :=
  match l with [] => ret tt | a :: l' => MemChunkAllocator.connect a ;;; connect_chunks l' end.
Fixpoint connect_areas (areas : t) : M unit :=
  match areas with
  | [] => ret tt
  | g :: gs =>
    let* c := on_first (calc (_iSize g) (_iMinBlockSize g) (_iMaxBlockSize g) (_fFactor g)) in
    connect_chunks (_allocator g) ;;;
    on_first (put_st (mk (_pHead g) (_iSize g) (_iTotalSize g) (_iMinBlockSize g) (_iMaxBlockSize g) (_fFactor g) (_iNext g)
      c.1 c.2 (_allocator g) (zlen (_allocator g) * c.2))) ;;;
    if _iNext g =? 0 then ret tt else assert_that (_iNext g =? _iSize g) ;;; on_next (connect_areas gs)
  end.
Definition connect : M unit := λ s, connect_areas s s.

(** [append]: the new area is linked behind the last one, and the first one knows the
    size of all. *)
Definition link_last (pAppendAddr : Z) (s : t) : t :=
  match reverse s with
  | [] => []
  | g :: gs => reverse (set_sizes (_iTotalSize g) (pAppendAddr - _pHead g) g :: gs)
  end.
Definition append (iSize : Z) : M unit :=
  connect ;;;
  let* s := get_st in
  match s with
  | [] => out_of_bounds
  | g :: _ =>
    assert_that (_iTotalSize g <? iSize) ;;;
    let pAppendAddr := _pHead g + _iTotalSize g in
    let* p := create pAppendAddr (iSize - _iTotalSize g) (_iMinBlockSize g) (_iMaxBlockSize g) (_fFactor g) in
    let s := link_last pAppendAddr s in
    match s with
    | [] => out_of_bounds
    | g :: gs =>
      assert_that (_iNext g =? _iSize g) ;;;
      put_st (set_sizes iSize (_iNext g) g :: gs ++ [p])
    end
  end.
End MemMultiChunkAllocator.

(** An area of a kilobyte, with blocks of 16 to 40 bytes. *)
Definition sample_area : outcome Empty_set MemMultiChunkAllocator.segment :=
  (MemMultiChunkAllocator.create 1000 1024 16 40 (S754_finite false 12582912 (-23)) tt).1.
Example sample_sizes : match sample_area with
  | Ok g => (MemMultiChunkAllocator._vBlockSize g, MemMultiChunkAllocator._iBlockCount g, MemChunkAllocator._pHead <$> MemMultiChunkAllocator._allocator g)
  | _ => ([], 0, []) end = ([16; 24; 36; 40], 6, [1044; 1188; 1380; 1644]).
Proof. vm_compute. reflexivity. Qed.
