(* ===== verification/MemChunkSpec.v ===== *)
(** The allocators of [MemChunk] as a set of free blocks, and the interface they offer to
    what is built on them. *)
From stdpp Require Import prelude gmap list sorting relations.
From Stdlib Require Import ZArith Lia Floats.SpecFloat.
From S2P Require Import Prelude Bytes AdapterProxy MemChunk.

(** ** The interface

    An allocator owns [free] blocks and has lent the [used] ones; both map the address of a
    block to its size.  A block is the same wherever it goes: what is lent comes back. *)
Class Allocator (Al : Type) := {
  al_allocate : Z → prog Al Empty_set (option (Z * Z));
  al_deallocate : Z → prog Al Empty_set unit;
  al_owns : Al → gmap Z Z → gmap Z Z → Prop
}.
(** Blocks that do not overlap. *)
Definition apart (blocks : gmap Z Z) : Prop := ∀ p q n m, p ≠ q → blocks !! p = Some n → blocks !! q = Some m → p + n ≤ q ∨ q + m ≤ p.
Class AllocatorLaws (Al : Type) `{Allocator Al} : Prop := {
  al_disjoint a free used : al_owns a free used → free ##ₘ used ∧ apart (free ∪ used);
  al_allocate_law n a free used : al_owns a free used →
    (free = ∅ ∧ al_allocate n a = (Ok None, a)) ∨
    ∃ p size a', al_allocate n a = (Ok (Some (p, size)), a') ∧ free !! p = Some size ∧ al_owns a' (delete p free) (<[p := size]> used);
  al_deallocate_law p size a free used : al_owns a free used → used !! p = Some size →
    ∃ a', al_deallocate p a = (Ok tt, a') ∧ al_owns a' (<[p := size]> free) (delete p used)
}.

(** ** One chunk *)

Module ChunkSpec.
Import MemChunk.

(** The free blocks in the order of the list. *)
Fixpoint chain (ws : gmap Z Z) (first : Z) (F : list Z) : Prop :=
  match F with [] => True | i :: F' => first = i ∧ ∃ next, ws !! i = Some next ∧ chain ws next F' end.
Record chunk_ok (c : t) (F : list Z) : Prop := {
  ck_size : 8 < _iBlockSize c;
  ck_count : 0 ≤ _iBlockCount c < 2 ^ 64 - 1;
  ck_words i : is_Some (words c !! i) ↔ 0 ≤ i < _iBlockCount c;
  ck_chain : chain (words c) (_firstAvailableBlock c) F;
  ck_nodup : NoDup F;
  ck_available : _blockAvailable c = zlen F
}.
(** What no operation changes. *)
Definition same_place (c c' : t) : Prop := _pData c' = _pData c ∧ _iBlockSize c' = _iBlockSize c ∧ _iBlockCount c' = _iBlockCount c.

Lemma chain_in ws F : ∀ first i, chain ws first F → i ∈ F → is_Some (ws !! i).
Proof.
  induction F as [|j F IH]; intros first i Hc Hi; [by apply not_elem_of_nil in Hi |]. destruct Hc as (-> & next & Ej & Hc).
  apply elem_of_cons in Hi as [->|Hi]; [by rewrite Ej | eauto].
Qed.
Lemma chain_insert ws F i v : ∀ first, i ∉ F → chain ws first F → chain (<[i := v]> ws) first F.
Proof.
  induction F as [|j F IH]; intros first Hi Hc; [done |]. destruct Hc as (-> & next & Ej & Hc).
  apply not_elem_of_cons in Hi as [Hne Hi]. split; [done |]. exists next. rewrite lookup_insert_ne by done. eauto.
Qed.
Lemma free_in_range c F i : chunk_ok c F → i ∈ F → 0 ≤ i < _iBlockCount c.
Proof. intros Hc Hi. apply (ck_words _ _ Hc). eapply chain_in; [apply Hc | done]. Qed.
Lemma free_count c F : chunk_ok c F → zlen F ≤ _iBlockCount c.
Proof.
  intros Hc. pose proof (ck_count _ _ Hc). assert (F ⊆ seqZ 0 (_iBlockCount c)) as Hsub.
  { intros i Hi. apply elem_of_seqZ. pose proof (free_in_range _ _ _ Hc Hi). lia. }
  apply NoDup_submseteq in Hsub; [|apply Hc]. apply submseteq_length in Hsub. rewrite length_seqZ in Hsub. lia.
Qed.

Lemma linked_lookup n i : linked n !! i = if decide (0 ≤ i < n) then Some (i + 1) else None.
Proof.
  unfold linked. destruct (decide (0 ≤ i < n)) as [Hi|Hi].
  - apply elem_of_list_to_map_1.
    + rewrite <- list_fmap_compose. cbn. rewrite list_fmap_id. apply NoDup_seqZ.
    + apply list_elem_of_fmap. exists i. split; [done |]. apply elem_of_seqZ. lia.
  - apply not_elem_of_list_to_map_1. rewrite <- list_fmap_compose. cbn. rewrite list_fmap_id. intros Hin%elem_of_seqZ. lia.
Qed.
Lemma linked_chain n k : ∀ first, first + Z.of_nat k = n → 0 ≤ first → chain (linked n) first (seqZ first (Z.of_nat k)).
Proof.
  induction k as [|k IH]; intros first Hn Hf; [done |]. rewrite seqZ_cons by lia. split; [done |]. exists (first + 1).
  rewrite linked_lookup, decide_True by lia. split; [done |]. replace (Z.succ first) with (first + 1) by lia.
  replace (Z.pred (Z.of_nat (S k))) with (Z.of_nat k) by lia. apply IH; lia.
Qed.
Lemma linked_ok c : 8 < _iBlockSize c → 0 ≤ _iBlockCount c < 2 ^ 64 - 1 →
  chunk_ok (set_free 0 (_iBlockCount c) (linked (_iBlockCount c)) c) (seqZ 0 (_iBlockCount c)).
Proof.
  intros Hs Hc. constructor; cbn; try done.
  - intros i. rewrite linked_lookup. case_decide; split; first [done | by eexists | by intros []].
  - rewrite <- (Z2Nat.id (_iBlockCount c)) at 2 by lia. apply linked_chain; lia.
  - apply NoDup_seqZ.
  - rewrite length_seqZ. lia.
Qed.
Lemma create_ok pAddr size count : 8 < size → 0 ≤ count < 2 ^ 64 - 1 → chunk_ok (create pAddr size count) (seqZ 0 count).
Proof. intros Hs Hc. exact (linked_ok (mk (pAddr + getHeadSize) size count 0 count (linked count)) Hs Hc). Qed.

Lemma allocate_some c i F : chunk_ok c (i :: F) → ∃ c', allocate c = (Ok (Some (block_addr i c)), c') ∧ chunk_ok c' F ∧ same_place c c' ∧ _firstAvailableBlock c = i.
Proof.
  intros Hc. pose proof (free_count _ _ Hc) as Hn. pose proof Hc as [Hs Hcount Hw (Ef & next & Ei & Hch) Hnd Ha]. apply NoDup_cons in Hnd as [Hi Hnd].
  cbn in Ha, Hn. unfold allocate, bind, get_st. assert (isBlockAvailable c = true) as -> by (apply Z.ltb_lt; lia). cbn. rewrite Ef, Ei. cbn.
  eexists. split; [reflexivity |]. split; [|by split_and!]. constructor; cbn; try done.
  - intros j. rewrite <- Hw. destruct (decide (j = i)) as [->|Hne]; [rewrite lookup_insert_eq, Ei; split; by eexists | by rewrite lookup_insert_ne].
  - by apply chain_insert.
  - rewrite Ha, wrapU_id; [lia | unfold in_U; lia].
Qed.
Lemma allocate_none c : chunk_ok c [] → allocate c = (Ok None, c).
Proof. intros []. unfold allocate, bind, get_st. assert (isBlockAvailable c = false) as -> by (apply Z.ltb_ge; by rewrite ck_available0). done. Qed.

Lemma block_addr_index c i : 8 < _iBlockSize c → (block_addr i c - _pData c) / _iBlockSize c = i ∧ (block_addr i c - _pData c) mod _iBlockSize c = 0.
Proof. intros Hs. unfold block_addr. replace (_pData c + i * _iBlockSize c - _pData c) with (i * _iBlockSize c) by lia. by rewrite Z.div_mul, Z.mod_mul by lia. Qed.

Lemma deallocate_ok c i F : chunk_ok c F → i ∉ F → 0 ≤ i < _iBlockCount c →
  ∃ c', deallocate (block_addr i c) c = (Ok tt, c') ∧ chunk_ok c' (i :: F) ∧ same_place c c'.
Proof.
  intros Hc Hi Hr. pose proof Hc as []. destruct (block_addr_index c i ck_size0) as [Ed Em]. unfold deallocate, bind at 1, get_st.
  rewrite (proj2 (Z.leb_le _ _)) by (unfold block_addr; nia). rewrite Em, Ed. cbn. unfold bind. cbn. rewrite decide_True by by apply ck_words0. cbn.
  eexists. split; [reflexivity |]. split; [|done].
  assert (Hlen : zlen (i :: F) ≤ _iBlockCount c).
  { assert ((i :: F) ⊆ seqZ 0 (_iBlockCount c)) as Hsub.
    { intros j [->|Hj]%elem_of_cons; apply elem_of_seqZ; [lia |]. pose proof (free_in_range _ _ _ Hc Hj). lia. }
    apply NoDup_submseteq in Hsub; [|by apply NoDup_cons]. apply submseteq_length in Hsub. rewrite length_seqZ in Hsub. lia. }
  constructor; cbn; try done.
  - intros j. rewrite <- ck_words0. destruct (decide (j = i)) as [->|Hne]; [rewrite lookup_insert_eq | by rewrite lookup_insert_ne].
    split; [intros _; by apply ck_words0 | by eexists].
  - split; [done |]. exists (_firstAvailableBlock c). rewrite lookup_insert_eq. split; [done | by apply chain_insert].
  - by apply NoDup_cons.
  - rewrite ck_available0, wrapU_id; [lia | unfold in_U; cbn in Hlen; lia].
Qed.
(** The owner of a block may write to it. *)
Lemma scribble_ok c i v F : chunk_ok c F → i ∉ F → 0 ≤ i < _iBlockCount c → chunk_ok (scribble i v c) F.
Proof.
  intros [] Hi Hr. constructor; cbn; try done; [|by apply chain_insert].
  intros j. rewrite <- ck_words0. destruct (decide (j = i)) as [->|Hne]; [rewrite lookup_insert_eq | by rewrite lookup_insert_ne].
  split; [intros _; by apply ck_words0 | by eexists].
Qed.

Lemma getAbsolute_ok c i : 1 ≤ i ≤ _iBlockCount c → getAbsolute i c = (Ok (block_addr (i - 1) c), c).
Proof. intros Hi. unfold getAbsolute, bind, get_st. rewrite (proj2 (Z.ltb_lt 0 i)), (proj2 (Z.leb_le _ _)) by lia. done. Qed.
Lemma getRelative_ok c i : 8 < _iBlockSize c → 0 ≤ i < _iBlockCount c → getRelative (block_addr i c) c = (Ok (1 + i), c).
Proof.
  intros Hs Hi. destruct (block_addr_index c i Hs) as [Ed Em]. unfold getRelative, bind, get_st. rewrite Em, Ed.
  rewrite !(proj2 (Z.leb_le _ _)) by (unfold block_addr; nia). done.
Qed.
End ChunkSpec.

(** ** Areas *)

Module AreaSpec.
Import MemMultiChunkAllocator.
Import ChunkSpec.

(** Where the [k]-th chunk of an area begins. *)
Definition chunk_size (count n : Z) : Z := 48 + n * count.
Definition chunk_begin (g : segment) (k : nat) : Z := _pHead g + 44 + foldr Z.add 0 (chunk_size (_iBlockCount g) <$> take k (_vBlockSize g)).

Record alloc_ok (g : segment) (k : nat) (a : MemChunkAllocator.t) (n : Z) (F : list Z) : Prop := {
  ao_head : MemChunkAllocator._pHead a = chunk_begin g k;
  ao_mem : MemChunkAllocator._iSize a = chunk_size (_iBlockCount g) n;
  ao_block : MemChunkAllocator._iBlockSize a = n;
  ao_data : MemChunk._pData (MemChunkAllocator._chunk a) = chunk_begin g k + 48;
  ao_size : MemChunk._iBlockSize (MemChunkAllocator._chunk a) = n;
  ao_count : MemChunk._iBlockCount (MemChunkAllocator._chunk a) = _iBlockCount g;
  ao_chunk : chunk_ok (MemChunkAllocator._chunk a) F
}.
Record seg_ok (g : segment) (Fs : list (list Z)) : Prop := {
  so_sizes : length (_vBlockSize g) = length (_allocator g);
  so_lists : length Fs = length (_allocator g);
  so_alloc k a n F : _allocator g !! k = Some a → _vBlockSize g !! k = Some n → Fs !! k = Some F → alloc_ok g k a n F;
  so_pos : Forall (λ n, 8 < n) (_vBlockSize g);
  so_count : 1 ≤ _iBlockCount g;
  so_end : chunk_begin g (length (_vBlockSize g)) ≤ _pHead g + _iSize g;
  so_index : _iAllIndex g = zlen (_allocator g) * _iBlockCount g
}.
(** Two states of the same area. *)
Definition same_area (g g' : segment) : Prop :=
  _pHead g' = _pHead g ∧ _iSize g' = _iSize g ∧ _vBlockSize g' = _vBlockSize g ∧ _iBlockCount g' = _iBlockCount g ∧ _iAllIndex g' = _iAllIndex g.

(** A block of an area: its address and size, and whether it is free. *)
Definition seg_block (g : segment) (Fs : list (list Z)) (p n : Z) (b : bool) : Prop :=
  ∃ k F i, _vBlockSize g !! k = Some n ∧ Fs !! k = Some F ∧ 0 ≤ i < _iBlockCount g ∧ p = chunk_begin g k + 48 + i * n ∧ b = bool_decide (i ∈ F).

Lemma chunk_begin_S g k n : _vBlockSize g !! k = Some n → chunk_begin g (S k) = chunk_begin g k + chunk_size (_iBlockCount g) n.
Proof.
  intros Hk. unfold chunk_begin. rewrite (take_S_r _ _ _ Hk), fmap_app, foldr_app. cbn.
  generalize (chunk_size (_iBlockCount g) n). intros z. generalize (chunk_size (_iBlockCount g) <$> take k (_vBlockSize g)). intros l.
  enough (∀ z, foldr Z.add z l = foldr Z.add 0 l + z) as -> by lia. clear. intros z. induction l as [|x l IH]; cbn; lia.
Qed.
Lemma chunk_begin_le g Fs j k : seg_ok g Fs → (j ≤ k ≤ length (_vBlockSize g))%nat → chunk_begin g j ≤ chunk_begin g k.
Proof.
  intros Hg [Hjk Hk]. induction Hjk as [|k Hjk IH]; [lia |]. destruct (lookup_lt_is_Some_2 (_vBlockSize g) k) as [n Hn]; [lia |].
  rewrite (chunk_begin_S _ _ _ Hn). pose proof (so_pos _ _ Hg) as Hp. rewrite Forall_lookup in Hp. specialize (Hp _ _ Hn).
  pose proof (so_count _ _ Hg). unfold chunk_size. specialize (IH ltac:(lia)). nia.
Qed.
Lemma chunk_begin_lt g Fs j k n : seg_ok g Fs → _vBlockSize g !! j = Some n → (j < k ≤ length (_vBlockSize g))%nat →
  chunk_begin g j + chunk_size (_iBlockCount g) n ≤ chunk_begin g k.
Proof. intros Hg Hj Hk. rewrite <- (chunk_begin_S _ _ _ Hj). eapply chunk_begin_le; [done | lia]. Qed.
Lemma chunk_begin_head g Fs k : seg_ok g Fs → (k ≤ length (_vBlockSize g))%nat → _pHead g + 44 ≤ chunk_begin g k.
Proof. intros Hg Hk. pose proof (chunk_begin_le g Fs 0 k Hg ltac:(lia)) as Hle. assert (chunk_begin g 0 = _pHead g + 44) by (unfold chunk_begin; rewrite take_0; simpl; lia). lia. Qed.

(** The block [i] of the [k]-th chunk, and where it is. *)
Record block_at (g : segment) (k : nat) (i n : Z) (p : Z) : Prop := {
  ba_size : _vBlockSize g !! k = Some n;
  ba_index : 0 ≤ i < _iBlockCount g;
  ba_addr : p = chunk_begin g k + 48 + i * n
}.
Lemma block_range g Fs k i n p : seg_ok g Fs → block_at g k i n p →
  8 < n ∧ chunk_begin g k + 48 ≤ p ∧ p + n ≤ chunk_begin g (S k) ∧ _pHead g + 44 < p ∧ p + n ≤ _pHead g + _iSize g.
Proof.
  intros Hg [Hn Hi ->]. pose proof (so_pos _ _ Hg) as Hp. rewrite Forall_lookup in Hp. specialize (Hp _ _ Hn).
  pose proof (lookup_lt_Some _ _ _ Hn) as Hk. pose proof (chunk_begin_head g Fs k Hg ltac:(lia)).
  pose proof (chunk_begin_le g Fs (S k) (length (_vBlockSize g)) Hg ltac:(lia)). pose proof (so_end _ _ Hg).
  rewrite (chunk_begin_S _ _ _ Hn) in *. unfold chunk_size in *. assert (0 ≤ i * n) by (apply Z.mul_nonneg_nonneg; lia). assert (0 ≤ (_iBlockCount g - 1 - i) * n) by (apply Z.mul_nonneg_nonneg; lia). split_and!; lia.
Qed.
Lemma blocks_apart g Fs k i n p k' i' n' p' : seg_ok g Fs → block_at g k i n p → block_at g k' i' n' p' →
  (k = k' ∧ i = i') ∨ p + n ≤ p' ∨ p' + n' ≤ p.
Proof.
  intros Hg Hb Hb'. pose proof (block_range _ _ _ _ _ _ Hg Hb) as (H1 & H2 & H3 & _). pose proof (block_range _ _ _ _ _ _ Hg Hb') as (H1' & H2' & H3' & _).
  destruct Hb as [Hn Hi Hp], Hb' as [Hn' Hi' Hp']. pose proof (lookup_lt_Some _ _ _ Hn). pose proof (lookup_lt_Some _ _ _ Hn').
  destruct (decide (k = k')) as [<-|Hne].
  - assert (n' = n) as -> by congruence. destruct (decide (i = i')) as [<-|Hne]; [by left |]. right. subst p p'.
    assert (0 ≤ (i' - i - 1) * n ∨ 0 ≤ (i - i' - 1) * n) as [?|?] by (destruct (decide (i < i')); [left | right]; apply Z.mul_nonneg_nonneg; lia); [left | right]; lia.
  - right. destruct (decide (k < k')%nat).
    + left. pose proof (chunk_begin_le g Fs (S k) k' Hg ltac:(lia)). lia.
    + right. pose proof (chunk_begin_le g Fs (S k') k Hg ltac:(lia)). lia.
Qed.
Lemma seg_block_at g Fs p n b : seg_block g Fs p n b ↔ ∃ k F i, Fs !! k = Some F ∧ block_at g k i n p ∧ b = bool_decide (i ∈ F).
Proof.
  split; [intros (k & F & i & Hn & HF & Hi & Hp & Hb) | intros (k & F & i & HF & [Hn Hi Hp] & Hb)]; exists k, F, i; split_and!; try done; first [by constructor | lia].
Qed.

(** One block changes hands. *)
Definition flips (P P' : Z → Z → bool → Prop) (p n : Z) (b : bool) : Prop :=
  P p n (negb b) ∧ ∀ q m c, P' q m c ↔ (q, m, c) = (p, n, b) ∨ (q ≠ p ∧ P q m c).

Lemma flip_block g g' Fs k F F' i n b : seg_ok g Fs → same_area g g' → Fs !! k = Some F → block_at g k i n (chunk_begin g k + 48 + i * n) →
  (∀ j, j ≠ i → j ∈ F' ↔ j ∈ F) → (b = true ∧ (i ∈ F') ∧ (i ∉ F)) ∨ (b = false ∧ (i ∉ F') ∧ (i ∈ F)) →
  flips (seg_block g Fs) (seg_block g' (<[k := F']> Fs)) (chunk_begin g k + 48 + i * n) n b.
Proof.
  intros Hg (Eh & Es & Ev & Ec & Ei) Hk Hb Hsame Hflip. assert (Ecb : ∀ j, chunk_begin g' j = chunk_begin g j) by (intros j; unfold chunk_begin; by rewrite Eh, Ev, Ec).
  split.
  { apply seg_block_at. exists k, F, i. split; [done |]. split; [done |].
    destruct Hflip as [(-> & _ & Hi)|(-> & _ & Hi)]; symmetry; [by apply bool_decide_false | by apply bool_decide_true]. }
  intros q m c. split.
  - intros (k' & F1 & j & Hn & HF & Hj & Eq & Eb). rewrite Ev in Hn. rewrite Ec in Hj. rewrite Ecb in Eq. assert (Hb' : block_at g k' j m q) by done.
    destruct (blocks_apart g Fs _ _ _ _ _ _ _ _ Hg Hb Hb') as [[<- <-]|Hap].
    + left. destruct Hb as [Hn1 _ _]. assert (m = n) as -> by congruence. rewrite list_lookup_insert_eq in HF by (by eapply lookup_lt_Some). injection HF as <-. rewrite Eq, Eb.
      destruct Hflip as [(-> & Hi & _)|(-> & Hi & _)]; [by rewrite bool_decide_true | by rewrite bool_decide_false].
    + right. pose proof (block_range _ _ _ _ _ _ Hg Hb) as (? & _). pose proof (block_range _ _ _ _ _ _ Hg Hb') as (? & _). split; [lia |].
      apply seg_block_at. destruct (decide (k' = k)) as [->|Hne].
      * rewrite list_lookup_insert_eq in HF by (by eapply lookup_lt_Some). simplify_eq. exists k, F, j. split_and!; [done | done |].
        apply bool_decide_ext. apply Hsame. intros ->. destruct Hb as [Hn1 _ _]. assert (m = n) as -> by congruence. lia.
      * rewrite list_lookup_insert_ne in HF by done. by exists k', F1, j.
  - intros [[= -> -> ->] | [Hne (k' & F1 & j & HF & Hb' & ->)%seg_block_at]].
    + destruct Hb as [Hn Hi _]. exists k, F', i. rewrite Ev, Ec, Ecb. split; [done |]. split; [apply list_lookup_insert_eq; by eapply lookup_lt_Some |].
      split; [done |]. split; [done |]. destruct Hflip as [(-> & Hi' & _)|(-> & Hi' & _)]; [by rewrite bool_decide_true | by rewrite bool_decide_false].
    + destruct Hb' as [Hn' Hj ->]. destruct (decide (k' = k)) as [->|Hk'].
      * simplify_eq. exists k, F', j. rewrite Ev, Ec, Ecb. split; [done |]. split; [apply list_lookup_insert_eq; by eapply lookup_lt_Some |].
        split; [done |]. split; [done |].
        apply bool_decide_ext. symmetry. apply Hsame. intros ->. destruct Hb as [Hn1 _ _]. assert (m = n) as -> by congruence. lia.
      * exists k', F1, j. rewrite Ev, Ec, Ecb. split; [done |]. split; [by rewrite list_lookup_insert_ne | done].
Qed.

(** *** The operations on an area *)

Definition with_alloc (k : nat) (a : MemChunkAllocator.t) (g : segment) : segment := set_allocator (<[k := a]> (_allocator g)) g.
Lemma with_alloc_area k a g : same_area g (with_alloc k a g).
Proof. done. Qed.
Lemma with_alloc_id k a g : _allocator g !! k = Some a → with_alloc k a g = g.
Proof. intros Ha. unfold with_alloc. rewrite list_insert_id by done. by destruct g. Qed.
Lemma seg_ok_insert g Fs k a n F : seg_ok g Fs → _vBlockSize g !! k = Some n → alloc_ok g k a n F → seg_ok (with_alloc k a g) (<[k := F]> Fs).
Proof.
  intros [] Hn Ha. constructor; cbn; try done; rewrite ?length_insert; try done.
  intros k' a' n' F' Ha' Hn' HF'. destruct (decide (k' = k)) as [->|Hne].
  - rewrite list_lookup_insert_eq in Ha' by (rewrite <- so_sizes0; by eapply lookup_lt_Some).
    rewrite list_lookup_insert_eq in HF' by (rewrite so_lists0, <- so_sizes0; by eapply lookup_lt_Some). simplify_eq. by destruct Ha; constructor.
  - rewrite list_lookup_insert_ne in Ha' by done. rewrite list_lookup_insert_ne in HF' by done. destruct (so_alloc0 k' a' n' F'); [done..|]. by constructor.
Qed.
Lemma on_allocator_eq {A} k (m : prog MemChunkAllocator.t Empty_set A) g a r a' : _allocator g !! k = Some a → m a = (r, a') →
  on_allocator k m g = (r, with_alloc k a' g).
Proof. intros Ha Em. unfold on_allocator. by rewrite Ha, Em. Qed.

(** Everything about the [k]-th chunk. *)
Lemma seg_chunk g Fs k : seg_ok g Fs → (k < length (_allocator g))%nat →
  ∃ a n F, _allocator g !! k = Some a ∧ _vBlockSize g !! k = Some n ∧ Fs !! k = Some F ∧ alloc_ok g k a n F.
Proof.
  intros [] Hk. destruct (lookup_lt_is_Some_2 (_allocator g) k Hk) as [a Ha]. destruct (lookup_lt_is_Some_2 (_vBlockSize g) k) as [n Hn]; [lia |].
  destruct (lookup_lt_is_Some_2 Fs k) as [F HF]; [lia |]. exists a, n, F. split_and!; auto.
Qed.
Lemma alloc_block_addr g k a n F i : alloc_ok g k a n F → MemChunk.block_addr i (MemChunkAllocator._chunk a) = chunk_begin g k + 48 + i * n.
Proof. intros []. unfold MemChunk.block_addr. by rewrite ao_data0, ao_size0. Qed.
Lemma alloc_block g k a n F i : _vBlockSize g !! k = Some n → alloc_ok g k a n F → i ∈ F → block_at g k i n (chunk_begin g k + 48 + i * n).
Proof. intros Hn [] Hi. constructor; [done | | done]. rewrite <- ao_count0. by eapply free_in_range. Qed.
Lemma alloc_ok_chunk g k a n F c' F' : alloc_ok g k a n F → same_place (MemChunkAllocator._chunk a) c' → chunk_ok c' F' →
  alloc_ok g k (MemChunkAllocator.mk (MemChunkAllocator._pHead a) (MemChunkAllocator._iSize a) (MemChunkAllocator._iBlockSize a) c') n F'.
Proof. intros [] (Ed & Es & Ec) Hc. constructor; cbn; congruence. Qed.

Definition full (g : segment) (Fs : list (list Z)) (fits : Z → bool) (k : nat) : Prop :=
  ∀ n F, _vBlockSize g !! k = Some n → Fs !! k = Some F → fits n = true → F = [].
(** What one of the loops of [allocate2] has found: a block of the first chunk that fits
    and is not full. *)
Definition found_block (fits : Z → bool) (idx : list nat) g Fs (p n ix : Z) (g' : segment) (Fs' : list (list Z)) : Prop :=
  seg_ok g' Fs' ∧ same_area g g' ∧ flips (seg_block g Fs) (seg_block g' Fs') p n false ∧
  ∃ pre k post i, idx = pre ++ k :: post ∧ fits n = true ∧ Forall (full g Fs fits) pre ∧ block_at g k i n p ∧ ix = wrapU 64 (Z.of_nat k * _iBlockCount g + (i + 1)).

Lemma allocate_loop_spec fits g Fs : seg_ok g Fs → ∀ idx, Forall (λ k, (k < length (_allocator g))%nat) idx →
  (allocate_loop fits idx g = (Ok None, g) ∧ Forall (full g Fs fits) idx) ∨
  ∃ p n ix g' Fs', allocate_loop fits idx g = (Ok (Some (p, n, ix)), g') ∧ found_block fits idx g Fs p n ix g' Fs'.
Proof.
  intros Hg idx. induction idx as [|k idx IH]; intros Hk; [by left |]. apply Forall_cons in Hk as [Hk Hidx]. cbn [allocate_loop].
  destruct (seg_chunk g Fs k Hg Hk) as (a & n & F & Ha & Hn & HF & Hok). pose proof (with_alloc_id _ _ _ Ha) as Eid.
  rewrite (bind_Ok _ _ _ _ _ (on_allocator_eq k get_st g a (Ok a) a Ha eq_refl)), Eid, (ao_block _ _ _ _ _ Hok).
  assert (Hskip : full g Fs fits k → (allocate_loop fits idx g = (Ok None, g) ∧ Forall (full g Fs fits) (k :: idx)) ∨
    ∃ p n ix g' Fs', allocate_loop fits idx g = (Ok (Some (p, n, ix)), g') ∧ found_block fits (k :: idx) g Fs p n ix g' Fs').
  { intros Hfull. destruct (IH Hidx) as [[E Hall]|(p & m & ix & g' & Fs' & E & Hg' & Hsame & Hfl & pre & j & post & i & -> & Hrest & Hpre & Hb)]; [left; by split; [| constructor] |].
    right. exists p, m, ix, g', Fs'. split; [done |]. split; [done |]. split; [done |]. split; [done |]. exists (k :: pre), j, post, i. split_and!; [done | done | by constructor | apply Hb..]. }
  destruct (fits n) eqn:Hfits.
  2: { apply Hskip. intros m F0 Hm _ Hf. congruence. }
  destruct Hok as [O1 O2 O3 O4 O5 O6 O7]. destruct F as [|i F].
  - pose proof (allocate_none _ O7) as En.
    assert (E2 : MemChunkAllocator.allocate2 a = (Ok None, a)).
    { unfold MemChunkAllocator.allocate2, MemChunkAllocator.on_chunk, MemChunk.allocate2, bind, get_st. rewrite En. by destruct a. }
    rewrite (bind_Ok _ _ _ _ _ (on_allocator_eq _ _ _ _ _ _ Ha E2)), Eid. apply Hskip. intros m F0 Hm HF0 _. congruence.
  - destruct (allocate_some _ _ _ O7) as (c' & Ec & Hc' & Hpl & Ef). right.
    assert (Hok : alloc_ok g k a n (i :: F)) by done. pose proof (alloc_block g k a n (i :: F) i Hn Hok ltac:(left)) as Hb.
    set (a' := MemChunkAllocator.mk (MemChunkAllocator._pHead a) (MemChunkAllocator._iSize a) (MemChunkAllocator._iBlockSize a) c').
    assert (E2 : MemChunkAllocator.allocate2 a = (Ok (Some (chunk_begin g k + 48 + i * n, i + 1)), a')).
    { unfold MemChunkAllocator.allocate2, MemChunkAllocator.on_chunk, MemChunk.allocate2, bind, get_st. rewrite Ec, Ef, (alloc_block_addr _ _ _ _ _ _ Hok). cbn.
      rewrite wrapU_id; [done |]. pose proof (ck_count _ _ O7). pose proof (ba_index _ _ _ _ _ Hb). unfold in_U. lia. }
    rewrite (bind_Ok _ _ _ _ _ (on_allocator_eq _ _ _ _ _ _ Ha E2)). unfold bind, get_st. cbn [_vBlockSize with_alloc set_allocator]. rewrite Hn.
    eexists _, _, _, (with_alloc k a' g), (<[k := F]> Fs). split; [reflexivity |]. split; [|split; [done | split]].
    + apply (seg_ok_insert g Fs k a' n F Hg Hn). by apply (alloc_ok_chunk g k a n (i :: F)).
    + apply (flip_block g _ Fs k (i :: F) F i n false); [done | done | done | done | |].
      * intros j Hj. rewrite elem_of_cons. naive_solver.
      * right. pose proof (ck_nodup _ _ O7) as Hnd. apply NoDup_cons in Hnd as [Hi _]. split_and!; [done | done | left].
    + exists [], k, idx, i. split_and!; [done | done | by constructor | done..].
Qed.

Lemma allocate_here_spec need g Fs : seg_ok g Fs →
  (allocate_here need g = (Ok None, g) ∧ ∀ p n, ¬ seg_block g Fs p n true) ∨
  ∃ p n ix g' Fs', allocate_here need g = (Ok (Some (p, n, ix)), g') ∧ seg_ok g' Fs' ∧ same_area g g' ∧ flips (seg_block g Fs) (seg_block g' Fs') p n false.
Proof.
  intros Hg. set (idx := seq 0 (length (_allocator g))).
  change (allocate_here need g) with ((let* p := allocate_loop (λ n, need <=? n) idx in
    match p with Some _ => ret p | None => allocate_loop (λ n, n <? need) (reverse idx) end) g).
  assert (Hidx : Forall (λ k, (k < length (_allocator g))%nat) idx) by (apply Forall_forall; intros k [_ Hk]%elem_of_seq; exact Hk).
  destruct (allocate_loop_spec (λ n, need <=? n) g Fs Hg idx Hidx) as [[E Hup]|(p & n & ix & g' & Fs' & E & Hg' & Hs & Hf & _)].
  2: { right. exists p, n, ix, g', Fs'. by rewrite (bind_Ok _ _ _ _ _ E). }
  rewrite (bind_Ok _ _ _ _ _ E).
  destruct (allocate_loop_spec (λ n, n <? need) g Fs Hg (reverse idx)) as [[E2 Hdown]|(p & n & ix & g' & Fs' & E2 & Hg' & Hs & Hf & _)]; [by apply Forall_reverse | |].
  2: { right. by exists p, n, ix, g', Fs'. }
  left. split; [exact E2 |]. intros p n (k & F & i & Hn & HF & Hi & _ & Hb). symmetry in Hb. apply bool_decide_eq_true in Hb.
  rewrite Forall_forall in Hup, Hdown. assert (Hk : k ∈ idx).
  { apply elem_of_seq. split; [lia |]. rewrite <- (so_sizes _ _ Hg). by eapply lookup_lt_Some. }
  assert (F = []) as ->; [|by apply not_elem_of_nil in Hb]. destruct (Z.le_gt_cases need n).
  - apply (Hup k Hk n F Hn HF). by apply Z.leb_le.
  - apply (Hdown k (proj2 (elem_of_reverse _ _) Hk) n F Hn HF). by apply Z.ltb_lt.
Qed.

Lemma chunk_of_spec g Fs p k i n : seg_ok g Fs → block_at g k i n p → chunk_of p (_pHead g + getHeadSize) (_allocator g) = Some k.
Proof.
  intros Hg Hb. pose proof (block_range _ _ _ _ _ _ Hg Hb) as (_ & Hlo & Hhi & _). pose proof (lookup_lt_Some _ _ _ (ba_size _ _ _ _ _ Hb)) as Hk.
  enough (Hgen : ∀ d l j, drop j (_allocator g) = l → (j + d = k)%nat → chunk_of p (chunk_begin g j) l = Some d).
  { rewrite <- (Hgen k (_allocator g) 0%nat); [|by rewrite drop_0 | lia]. f_equal. unfold chunk_begin. rewrite take_0. cbn. unfold getHeadSize. lia. }
  assert (Hnext : ∀ j a, _allocator g !! j = Some a → chunk_begin g j + MemChunkAllocator._iSize a = chunk_begin g (S j)).
  { intros j a Ha. destruct (seg_chunk g Fs j Hg) as (a' & m & F & Ha' & Hm & _ & Hok); [by eapply lookup_lt_Some |].
    rewrite (chunk_begin_S _ _ _ Hm). assert (a' = a) as -> by congruence. by rewrite (ao_mem _ _ _ _ _ Hok). }
  pose proof (so_sizes _ _ Hg) as Hlen. induction d as [|d IH]; intros l j El Ej.
  - destruct (lookup_lt_is_Some_2 (_allocator g) j) as [a Ha]; [lia |]. rewrite (drop_S _ _ _ Ha) in El. subst l. cbn. rewrite (Hnext _ _ Ha).
    replace j with k by lia. rewrite (proj2 (Z.ltb_lt _ _)); [done |]. pose proof (block_range _ _ _ _ _ _ Hg Hb). lia.
  - destruct (lookup_lt_is_Some_2 (_allocator g) j) as [a Ha]; [lia |]. rewrite (drop_S _ _ _ Ha) in El. subst l. cbn. rewrite (Hnext _ _ Ha).
    rewrite (proj2 (Z.ltb_ge _ _)); [by rewrite (IH _ (S j)) by (done || lia) |].
    pose proof (chunk_begin_le g Fs (S j) k Hg ltac:(lia)). lia.
Qed.

(** A block that is given back to its area. *)
Lemma deallocate_here_spec g Fs p n : seg_ok g Fs → seg_block g Fs p n false →
  ∃ k g' Fs', chunk_of p (_pHead g + getHeadSize) (_allocator g) = Some k ∧ on_allocator k (MemChunkAllocator.deallocate p) g = (Ok tt, g') ∧
    seg_ok g' Fs' ∧ same_area g g' ∧ flips (seg_block g Fs) (seg_block g' Fs') p n true.
Proof.
  intros Hg (k & F & i & HF & Hb & Hi)%seg_block_at. symmetry in Hi. apply bool_decide_eq_false in Hi. pose proof (chunk_of_spec _ _ _ _ _ _ Hg Hb) as Ek.
  pose proof (block_range _ _ _ _ _ _ Hg Hb) as (Hsz & Hlo & _). pose proof Hb as [Hn Hr Hp]. pose proof (lookup_lt_Some _ _ _ Hn) as Hk.
  destruct (seg_chunk g Fs k Hg) as (a & m & F0 & Ha & Hm & HF0 & Hok); [rewrite <- (so_sizes _ _ Hg); done |]. simplify_eq.
  destruct (deallocate_ok (MemChunkAllocator._chunk a) i F) as (c' & Ec & Hc' & Hpl); [apply Hok | done | by rewrite (ao_count _ _ _ _ _ Hok) |].
  rewrite (alloc_block_addr _ _ _ _ _ _ Hok) in Ec.
  set (a' := MemChunkAllocator.mk (MemChunkAllocator._pHead a) (MemChunkAllocator._iSize a) (MemChunkAllocator._iBlockSize a) c').
  assert (E2 : MemChunkAllocator.deallocate (chunk_begin g k + 48 + i * n) a = (Ok tt, a')).
  { unfold MemChunkAllocator.deallocate, bind, get_st. rewrite (ao_head _ _ _ _ _ Hok). unfold MemChunkAllocator.getHeadSize.
    rewrite (proj2 (Z.leb_le _ _)) by lia. cbn. unfold MemChunkAllocator.on_chunk. by rewrite Ec. }
  exists k, (with_alloc k a' g), (<[k := i :: F]> Fs). split; [done |]. split; [by apply (on_allocator_eq _ _ _ a) |]. split; [|split; [done |]].
  - apply (seg_ok_insert g Fs k a' n _ Hg Hn). by apply (alloc_ok_chunk g k a n F).
  - apply (flip_block g _ Fs k F (i :: F) i n true); [done | done | done | done | |].
    + intros j Hj. rewrite elem_of_cons. naive_solver.
    + left. split_and!; [done | left | done].
Qed.

(** *** All areas *)

Fixpoint areas_ok (s : t) (Fss : list (list (list Z))) : Prop :=
  match s, Fss with
  | [], [] => True
  | g :: gs, Fs :: Fss' => seg_ok g Fs ∧ match gs with g' :: _ => _pHead g + _iSize g ≤ _pHead g' | [] => True end ∧ areas_ok gs Fss'
  | _, _ => False
  end.
Fixpoint area_block (s : t) (Fss : list (list (list Z))) (p n : Z) (b : bool) : Prop :=
  match s, Fss with
  | g :: gs, Fs :: Fss' => seg_block g Fs p n b ∨ area_block gs Fss' p n b
  | _, _ => False
  end.

Lemma seg_block_range g Fs p n b : seg_ok g Fs → seg_block g Fs p n b → 8 < n ∧ _pHead g + 44 < p ∧ p + n ≤ _pHead g + _iSize g.
Proof. intros Hg (k & F & i & _ & Hb & _)%seg_block_at. pose proof (block_range _ _ _ _ _ _ Hg Hb). lia. Qed.
Lemma seg_size g Fs : seg_ok g Fs → 0 ≤ _iSize g.
Proof. intros Hg. pose proof (chunk_begin_head g Fs _ Hg (le_n _)). pose proof (so_end _ _ Hg). lia. Qed.
Lemma area_block_above s : ∀ Fss p n b, areas_ok s Fss → area_block s Fss p n b →
  match s with g :: _ => _pHead g + 44 < p | [] => False end ∧ 8 < n.
Proof.
  induction s as [|g gs IH]; intros [|Fs Fss] p n b Hok Hb; try done. destruct Hok as (Hg & Hl & Hgs).
  destruct Hb as [Hb|Hb]; [pose proof (seg_block_range _ _ _ _ _ Hg Hb); lia |].
  destruct (IH Fss p n b Hgs Hb) as [Hp Hn]. destruct gs as [|g' gs]; [done |]. pose proof (seg_size _ _ Hg). lia.
Qed.
(** The first area comes before the others. *)
Lemma area_block_next g gs Fs Fss p n b : areas_ok (g :: gs) (Fs :: Fss) → area_block gs Fss p n b → _pHead g + _iSize g < p.
Proof. intros (_ & Hl & Hgs) Hb. destruct (area_block_above _ _ _ _ _ Hgs Hb) as [Hp _]. destruct gs; [done | lia]. Qed.

Lemma flips_l (P P' Q : Z → Z → bool → Prop) p n b : flips P P' p n b → (∀ q m c, Q q m c → q ≠ p) →
  flips (λ q m c, P q m c ∨ Q q m c) (λ q m c, P' q m c ∨ Q q m c) p n b.
Proof. intros [H1 H2] HQ. split; [by left |]. intros q m c. rewrite H2. specialize (HQ q m c). naive_solver. Qed.
Lemma flips_r (P Q Q' : Z → Z → bool → Prop) p n b : flips Q Q' p n b → (∀ q m c, P q m c → q ≠ p) →
  flips (λ q m c, P q m c ∨ Q q m c) (λ q m c, P q m c ∨ Q' q m c) p n b.
Proof. intros [H1 H2] HP. split; [by right |]. intros q m c. rewrite H2. specialize (HP q m c). naive_solver. Qed.

Definition same_areas (s s' : t) : Prop := Forall2 same_area s s'.
Lemma areas_ok_cons g gs Fs Fss g' gs' Fs' Fss' : areas_ok (g :: gs) (Fs :: Fss) → same_area g g' → same_areas gs gs' →
  seg_ok g' Fs' → areas_ok gs' Fss' → areas_ok (g' :: gs') (Fs' :: Fss').
Proof.
  intros (_ & Hl & _) (Eh & Es & _) Hgs Hg' Hok'. split; [done |]. split; [|done].
  destruct Hgs as [|x x' gs gs' (Ex & _)]; [done |]. by rewrite Eh, Es, Ex.
Qed.
Lemma same_areas_refl s : same_areas s s.
Proof. unfold same_areas. induction s; by constructor. Qed.

Lemma on_first_eq {A} (m : prog segment Empty_set A) g gs r g' : m g = (r, g') → on_first m (g :: gs) = (r, g' :: gs).
Proof. intros E. unfold on_first. by rewrite E. Qed.
Lemma on_next_eq {A} (m : prog t Empty_set A) g gs r gs' : m gs = (r, gs') → on_next m (g :: gs) = (r, g :: gs').
Proof. intros E. unfold on_next. by rewrite E. Qed.

Lemma allocate2_spec need s : ∀ Fss, areas_ok s Fss →
  (allocate2 need s = (Ok None, s) ∧ ∀ p n, ¬ area_block s Fss p n true) ∨
  ∃ p n ix s' Fss', allocate2 need s = (Ok (Some (p, n, ix)), s') ∧ areas_ok s' Fss' ∧ same_areas s s' ∧
    flips (area_block s Fss) (area_block s' Fss') p n false.
Proof.
  unfold allocate2. induction s as [|g gs IH]; intros [|Fs Fss] Hok; try done; [left; split; [done | intros ? ? []] |].
  pose proof Hok as (Hg & _ & Hgs). cbn [allocate2_areas].
  destruct (allocate_here_spec need g Fs Hg) as [[E Hfull]|(p & n & ix & g' & Fs' & E & Hg' & Hs & Hf)].
  2: { right. exists p, n, ix, (g' :: gs), (Fs' :: Fss). rewrite (bind_Ok _ _ _ _ _ (on_first_eq _ _ _ _ _ E)). split; [done |].
       split; [by apply (areas_ok_cons g gs Fs Fss); [.. | apply same_areas_refl | |] |]. split; [constructor; [done | apply same_areas_refl] |].
       cbn. apply (flips_l _ _ (area_block gs Fss)); [done |]. intros q m c Hq ->. pose proof (area_block_next _ _ _ _ _ _ _ Hok Hq).
       pose proof (seg_block_range _ _ _ _ _ Hg (proj1 Hf)). lia. }
  rewrite (bind_Ok _ _ _ _ _ (on_first_eq _ _ _ _ _ E)).
  destruct (IH Fss Hgs) as [[E2 Hn]|(p & n & ix & gs' & Fss' & E2 & Hok' & Hs & Hf)].
  - left. split; [|intros p n [Hb|Hb]; [by apply (Hfull p n) | by apply (Hn p n)]]. destruct gs; [done |]. by rewrite (bind_Ok _ _ _ _ _ (on_next_eq _ _ _ _ _ E2)).
  - right. exists p, n, (wrapU 64 (ix + _iAllIndex g)), (g :: gs'), (Fs :: Fss').
    split; [destruct gs; [by destruct Hf | by rewrite (bind_Ok _ _ _ _ _ (on_next_eq _ _ _ _ _ E2))] |].
    split; [by apply (areas_ok_cons g gs Fs Fss) |]. split; [by constructor |].
    cbn. apply (flips_r (seg_block g Fs)); [done |]. intros q m c Hq ->. pose proof (area_block_next _ _ _ _ _ _ _ Hok (proj1 Hf)).
    pose proof (seg_block_range _ _ _ _ _ Hg Hq). lia.
Qed.

Lemma deallocate_spec p n s : ∀ Fss, areas_ok s Fss → area_block s Fss p n false →
  ∃ s' Fss', deallocate p s = (Ok tt, s') ∧ areas_ok s' Fss' ∧ same_areas s s' ∧ flips (area_block s Fss) (area_block s' Fss') p n true.
Proof.
  unfold deallocate. induction s as [|g gs IH]; intros [|Fs Fss] Hok Hb; try done. pose proof Hok as (Hg & _ & Hgs). cbn [deallocate_areas].
  destruct Hb as [Hb|Hb].
  - destruct (deallocate_here_spec _ _ _ _ Hg Hb) as (k & g' & Fs' & Ek & E & Hg' & Hs & Hf). pose proof (seg_block_range _ _ _ _ _ Hg Hb) as Hr.
    rewrite (proj2 (Z.ltb_lt _ _)) by lia. rewrite Ek. exists (g' :: gs), (Fs' :: Fss). split; [by apply on_first_eq |].
    split; [by apply (areas_ok_cons g gs Fs Fss); [.. | apply same_areas_refl | |] |]. split; [constructor; [done | apply same_areas_refl] |].
    cbn. apply (flips_l _ _ (area_block gs Fss)); [done |]. intros q m c Hq ->. pose proof (area_block_next _ _ _ _ _ _ _ Hok Hq). lia.
  - pose proof (area_block_next _ _ _ _ _ _ _ Hok Hb) as Hlo. rewrite (proj2 (Z.ltb_ge _ _)) by lia.
    destruct (IH Fss Hgs Hb) as (gs' & Fss' & E & Hok' & Hs & Hf). exists (g :: gs'), (Fs :: Fss').
    split; [destruct gs; [done | by apply on_next_eq] |]. split; [by apply (areas_ok_cons g gs Fs Fss) |]. split; [by constructor |].
    cbn. apply (flips_r (seg_block g Fs)); [done |]. intros q m c Hq ->. pose proof (seg_block_range _ _ _ _ _ Hg Hq). lia.
Qed.

(** Two blocks are the same or do not overlap. *)
Lemma area_blocks_apart s : ∀ Fss p n b q m c, areas_ok s Fss → area_block s Fss p n b → area_block s Fss q m c →
  (p = q ∧ n = m ∧ b = c) ∨ p + n ≤ q ∨ q + m ≤ p.
Proof.
  induction s as [|g gs IH]; intros [|Fs Fss] p n b q m c Hok Hp Hq; try done. pose proof Hok as (Hg & _ & Hgs).
  destruct Hp as [Hp|Hp], Hq as [Hq|Hq].
  - apply seg_block_at in Hp as (k & F & i & HF & Hb & Eb), Hq as (k' & F' & i' & HF' & Hb' & Eb').
    destruct (blocks_apart _ _ _ _ _ _ _ _ _ _ Hg Hb Hb') as [[<- <-]|Hap]; [left | by right]. destruct Hb as [Hn _ ->], Hb' as [Hn' _ ->]. by simplify_eq.
  - right. left. pose proof (area_block_next _ _ _ _ _ _ _ Hok Hq). pose proof (seg_block_range _ _ _ _ _ Hg Hp). lia.
  - right. right. pose proof (area_block_next _ _ _ _ _ _ _ Hok Hp). pose proof (seg_block_range _ _ _ _ _ Hg Hq). lia.
  - by apply (IH Fss).
Qed.
End AreaSpec.

(** ** The allocator keeps its promises *)

Import MemMultiChunkAllocator AreaSpec.

#[export] Instance multi_chunk_allocator : Allocator MemMultiChunkAllocator.t := {
  al_allocate := allocate;
  al_deallocate := deallocate;
  al_owns s free used := ∃ Fss, areas_ok s Fss ∧
    (∀ p n, free !! p = Some n ↔ area_block s Fss p n true) ∧ (∀ p n, used !! p = Some n ↔ area_block s Fss p n false)
}.

Lemma flips_maps (P P' : Z → Z → bool → Prop) p n (b : bool) (gives takes : gmap Z Z) : flips P P' p n b →
  (∀ q m c, P q m c → q = p → m = n ∧ c = negb b) →
  (∀ q m, gives !! q = Some m ↔ P q m (negb b)) → (∀ q m, takes !! q = Some m ↔ P q m b) →
  (∀ q m, delete p gives !! q = Some m ↔ P' q m (negb b)) ∧ (∀ q m, <[p := n]> takes !! q = Some m ↔ P' q m b).
Proof.
  intros [_ Hf] Huniq Hg Ht. split; intros q m; rewrite Hf.
  - rewrite lookup_delete_Some, Hg. split; [intros [Hne HP]; right; split; [congruence | done] |]. intros [[= _ _ Hb]|[Hne HP]]; [by destruct b | by split].
  - rewrite lookup_insert_Some, Ht. split.
    + intros [[<- <-]|[Hne HP]]; [by left | right; split; [congruence | done]].
    + intros [[= <- <-]|[Hne HP]]; [by left | right; split; [congruence | done]].
Qed.

#[export] Instance multi_chunk_laws : AllocatorLaws MemMultiChunkAllocator.t.
Proof.
  constructor.
  - intros s free used (Fss & Hok & Hf & Hu). split.
    + apply map_disjoint_spec. intros p n m Hn%Hf Hm%Hu. destruct (area_blocks_apart _ _ _ _ _ _ _ _ Hok Hn Hm) as [(_ & _ & Hb)|Hap]; [done |].
      pose proof (area_block_above _ _ _ _ _ Hok Hn). pose proof (area_block_above _ _ _ _ _ Hok Hm). lia.
    + intros p q n m Hne Hn Hm. assert (Hblk : ∀ x k, (free ∪ used) !! x = Some k → ∃ b, area_block s Fss x k b).
      { intros x k [Hx|[_ Hx]]%lookup_union_Some_raw; [exists true; by apply Hf | exists false; by apply Hu]. }
      apply Hblk in Hn as [b Hn], Hm as [c Hm]. destruct (area_blocks_apart _ _ _ _ _ _ _ _ Hok Hn Hm) as [(-> & _)|Hap]; done.
  - intros n s free used (Fss & Hok & Hf & Hu). cbn. unfold allocate.
    destruct (allocate2_spec n s Fss Hok) as [[E Hn]|(p & m & ix & s' & Fss' & E & Hok' & _ & Hfl)]; rewrite (bind_Ok _ _ _ _ _ E).
    + left. split; [|done]. apply map_eq. intros p. rewrite lookup_empty. destruct (free !! p) as [m|] eqn:Ep; [|done]. apply Hf in Ep. by destruct (Hn p m).
    + right. exists p, m, s'. split; [done |]. pose proof (proj1 Hfl) as Hp. split; [by apply Hf |]. exists Fss'. split; [done |].
      apply (flips_maps (area_block s Fss) _ p m false free used Hfl); [|done|done]. intros q k c Hq ->.
      destruct (area_blocks_apart _ _ _ _ _ _ _ _ Hok Hp Hq) as [(_ & -> & <-)|Hap]; [done |].
      pose proof (area_block_above _ _ _ _ _ Hok Hp). pose proof (area_block_above _ _ _ _ _ Hok Hq). lia.
  - intros p n s free used (Fss & Hok & Hf & Hu) Hp%Hu. destruct (deallocate_spec p n s Fss Hok Hp) as (s' & Fss' & E & Hok' & _ & Hfl).
    exists s'. split; [done |]. exists Fss'. split; [done |]. apply and_comm.
    apply (flips_maps (area_block s Fss) _ p n true used free Hfl); [|done|done]. intros q k c Hq ->.
    destruct (area_blocks_apart _ _ _ _ _ _ _ _ Hok Hp Hq) as [(_ & -> & <-)|Hap]; [done |].
    pose proof (area_block_above _ _ _ _ _ Hok Hp). pose proof (area_block_above _ _ _ _ _ Hok Hq). lia.
Qed.

(** ** A new allocator *)

Section create.
Context {St : Type}.
Implicit Types s : St.

(** The block sizes grow, so [calc] ends. *)
Lemma calc_loop_spec iMin iMax f s : iMin ≤ iMax → ∀ fuel n, iMax - n ≤ Z.of_nat fuel → iMin ≤ n →
  ∃ v, calc_loop fuel iMin iMax f n s = (Ok v, s) ∧ Forall (λ m, n ≤ m < iMax) v ∧ StronglySorted Z.lt v.
Proof.
  intros Hm fuel. induction fuel as [|fuel IH]; intros n Hf Hn; cbn [calc_loop]; destruct (Z.ltb_spec n iMax) as [Hlt|Hge].
  1: lia. 1, 3: exists []; split_and!; done || constructor.
  rewrite (proj2 (Z.ltb_lt _ _)) by lia. destruct (IH (Z.max (mul_factor n f) (n + 1))) as (v & E & Hv & Hs); [lia.. |].
  exists (n :: v). rewrite (bind_Ok _ _ _ _ _ E). split; [done |]. split; [constructor; [lia |] | constructor; [done |]]; (eapply Forall_impl; [exact Hv | cbn; lia]).
Qed.

Lemma sum_nonneg l : Forall (λ n, 8 < n) l → 0 ≤ foldr Z.add 0 l.
Proof. induction 1; cbn; lia. Qed.
Lemma chunk_sizes count l : foldr Z.add 0 (chunk_size count <$> l) = 48 * zlen l + count * foldr Z.add 0 l.
Proof. induction l as [|n l IH]; cbn; [lia |]. rewrite IH. unfold chunk_size. lia. Qed.

Definition enough (iSize : Z) (v : list Z) : Prop := 44 + 48 * zlen v + foldr Z.add 0 v ≤ iSize.
#[local] Instance enough_dec iSize v : Decision (enough iSize v).
Proof. unfold enough. apply _. Defined.
Lemma calc_spec iSize iMin iMax f s : 8 < iMin → iMin ≤ iMax →
  ∃ v, Forall (λ n, iMin ≤ n ≤ iMax) v ∧ v ≠ [] ∧ StronglySorted Z.lt v ∧
    if decide (enough iSize v) then ∃ count, calc iSize iMin iMax f s = (Ok (v, count), s) ∧ 1 ≤ count ≤ iSize ∧
      44 + foldr Z.add 0 (chunk_size count <$> v) ≤ iSize
    else calc iSize iMin iMax f s = (AssertFailed, s).
Proof.
  intros H8 Hm. destruct (calc_loop_spec iMin iMax f s Hm (Z.to_nat (iMax - iMin)) iMin ltac:(lia) ltac:(lia)) as (v & E & Hv & Hs).
  exists (v ++ [iMax]). assert (Hv' : Forall (λ n, iMin ≤ n ≤ iMax) (v ++ [iMax])).
  { apply Forall_app. split; [eapply Forall_impl; [exact Hv | cbn; lia] | by constructor; [lia |]]. }
  split; [done |]. split; [by destruct v |]. split.
  { apply StronglySorted_app_2; [|done | by repeat constructor]. intros x y Hx ->%list_elem_of_singleton. rewrite Forall_forall in Hv. by apply Hv. }
  unfold calc. rewrite (bind_Ok _ _ _ _ _ E). cbv zeta. set (w := v ++ [iMax]) in *.
  assert (Hsum : 8 < foldr Z.add 0 w).
  { unfold w. rewrite foldr_app. cbn. enough (Hg : ∀ z, 8 < z → 8 < foldr Z.add z v) by (apply Hg; lia).
    intros z Hz. clear -Hz Hv H8. induction Hv; cbn; lia. }
  unfold getHeadSize, MemChunkAllocator.getHeadSize, MemChunk.getHeadSize, enough.
  set (heads := 44 + 16 * zlen w + 32 * zlen w). unfold bind at 1, assert_that at 1. case_decide as He.
  - rewrite (proj2 (Z.ltb_lt _ _)) by lia. assert (Hc : 1 ≤ (iSize - heads) / foldr Z.add 0 w) by (apply Z.div_le_lower_bound; lia).
    unfold bind, assert_that. rewrite (proj2 (Z.leb_le _ _)) by done. eexists. split; [reflexivity |].
    assert (foldr Z.add 0 w * ((iSize - heads) / foldr Z.add 0 w) ≤ iSize - heads) by (apply Z.mul_div_le; lia).
    split; [split; [done | nia] |]. rewrite chunk_sizes. lia.
  - destruct (Z.ltb_spec heads iSize) as [Hlt|Hge]; [|done]. unfold bind, assert_that. rewrite (proj2 (Z.leb_gt _ _)); [done |].
    apply Z.div_lt_upper_bound; lia.
Qed.

(** The chunks of an area one after the other. *)
Definition new_alloc (count b n : Z) : MemChunkAllocator.t :=
  MemChunkAllocator.mk b (chunk_size count n) n (MemChunk.create (b + 16) n count).
Fixpoint new_allocs (count b : Z) (v : list Z) : list MemChunkAllocator.t :=
  match v with [] => [] | n :: v' => new_alloc count b n :: new_allocs count (b + chunk_size count n) v' end.

Lemma create_chunks_spec count v s : 1 ≤ count → Forall (λ n, 8 < n) v → ∀ b, create_chunks b count v s = (Ok (new_allocs count b v), s).
Proof.
  intros Hc Hv. induction Hv as [|n v Hn _ IH]; intros b; cbn [create_chunks new_allocs]; [done |].
  assert (E : MemChunkAllocator.create b (MemChunkAllocator.getHeadSize + MemChunk.calcMemSize n count) n s = (Ok (new_alloc count b n), s)).
  { unfold MemChunkAllocator.create, MemChunkAllocator.getHeadSize, MemChunk.calcMemSize, MemChunk.getHeadSize, bind, assert_that.
    replace ((16 + (n * count + 32) - 16 - 32) / n) with count by (replace (16 + (n * count + 32) - 16 - 32) with (count * n) by lia; by rewrite Z.div_mul by lia).
    rewrite !(proj2 (Z.ltb_lt _ _)) by nia. unfold new_alloc, chunk_size. by replace (16 + (n * count + 32)) with (48 + n * count) by lia. }
  rewrite (bind_Ok _ _ _ _ _ E). replace (b + _) with (b + chunk_size count n) by (unfold chunk_size, MemChunkAllocator.getHeadSize, MemChunk.calcMemSize, MemChunk.getHeadSize; lia).
  by rewrite (bind_Ok _ _ _ _ _ (IH _)).
Qed.
Lemma new_allocs_length count v : ∀ b, length (new_allocs count b v) = length v.
Proof. induction v as [|n v IH]; intros b; cbn; [done | by rewrite IH]. Qed.
Lemma new_allocs_lookup count v : ∀ b k n, v !! k = Some n →
  new_allocs count b v !! k = Some (new_alloc count (b + foldr Z.add 0 (chunk_size count <$> take k v)) n).
Proof.
  induction v as [|m v IH]; intros b [|k] n Hk; cbn in *; try done.
  - simplify_eq. by rewrite Z.add_0_r.
  - rewrite (IH _ _ _ Hk). do 2 f_equal. lia.
Qed.

Definition new_segment (pAddr iSize iMin iMax : Z) (f : spec_float) (v : list Z) (count : Z) : segment :=
  mk pAddr iSize iSize iMin iMax f 0 v count (new_allocs count (pAddr + 44) v) (zlen v * count).
Lemma new_segment_ok pAddr iSize iMin iMax f v count : Forall (λ n, 8 < n) v → 1 ≤ count < 2 ^ 64 - 1 →
  44 + foldr Z.add 0 (chunk_size count <$> v) ≤ iSize →
  seg_ok (new_segment pAddr iSize iMin iMax f v count) (replicate (length v) (seqZ 0 count)).
Proof.
  intros Hv Hc Hsz. constructor; cbn; rewrite ?length_replicate, ?new_allocs_length; try done; [|lia |].
  - intros k a n F Ha Hn HF. rewrite (new_allocs_lookup _ _ _ _ _ Hn) in Ha. apply lookup_replicate in HF as [-> Hk]. injection Ha as <-.
    rewrite Forall_lookup in Hv. specialize (Hv _ _ Hn). constructor; try done; cbn.
    + unfold chunk_begin. cbn. unfold MemChunk.getHeadSize. lia.
    + apply ChunkSpec.create_ok; [done | lia].
  - unfold chunk_begin. cbn. rewrite firstn_all. lia.
Qed.

Lemma create_segment pAddr iSize iMin iMax f s : 8 < iMin → iMin ≤ iMax → SFleb (float_of 1) f = true → iSize < 2 ^ 64 - 1 →
  create pAddr iSize iMin iMax f s = (AssertFailed, s) ∨
  ∃ v count, create pAddr iSize iMin iMax f s = (Ok (new_segment pAddr iSize iMin iMax f v count), s) ∧
    Forall (λ n, iMin ≤ n ≤ iMax) v ∧ v ≠ [] ∧ StronglySorted Z.lt v ∧ seg_ok (new_segment pAddr iSize iMin iMax f v count) (replicate (length v) (seqZ 0 count)).
Proof.
  intros H8 Hm Hf Hsz. destruct (calc_spec iSize iMin iMax f s H8 Hm) as (v & Hv & Hne & Hs & Hc).
  assert (Ecr : create pAddr iSize iMin iMax f s = (let* c := calc iSize iMin iMax f in let* ps := create_chunks (pAddr + getHeadSize) c.2 c.1 in
    ret (mk pAddr iSize iSize iMin iMax f 0 c.1 c.2 ps (zlen ps * c.2))) s).
  { unfold create. unfold bind at 1, assert_that at 1. rewrite (proj2 (Z.leb_le _ _)) by done. unfold bind at 1, assert_that at 1. by rewrite Hf. }
  rewrite Ecr. case_decide as He.
  2: { left. unfold bind. by rewrite Hc. }
  right. destruct Hc as (count & E & Hcount & Hend). rewrite (bind_Ok _ _ _ _ _ E). cbn [fst snd].
  assert (Hv8 : Forall (λ n, 8 < n) v) by (eapply Forall_impl; [exact Hv | cbn; lia]).
  rewrite (bind_Ok _ _ _ _ _ (create_chunks_spec count v s ltac:(lia) Hv8 _)). exists v, count. unfold ret.
  rewrite new_allocs_length. split; [done |]. split; [done |]. split; [done |]. split; [done |]. apply new_segment_ok; [done | lia | done].
Qed.
End create.

(** ** Properties *)

(** The client of an allocator: it asks for blocks and gives back what it was lent. *)
Inductive lends : t * gmap Z Z → t * gmap Z Z → Prop :=
  | lend_block need s s' used p n : allocate need s = (Ok (Some (p, n)), s') → lends (s, used) (s', <[p := n]> used)
  | lend_nothing need s r s' used : allocate need s = (r, s') → (∀ x, r ≠ Ok (Some x)) → lends (s, used) (s', used)
  | give_back p n s r s' used : used !! p = Some n → deallocate p s = (r, s') → lends (s, used) (s', delete p used).

Section runs.
Context (pAddr iSize iMin iMax : Z) (f : spec_float).

Definition area_of (g : segment) : Prop := ∃ s : unit, create pAddr iSize iMin iMax f s = (Ok g, s).
(** All blocks of the area. *)
Definition all_blocks (g : segment) (p n : Z) : Prop := ∃ k i, block_at g k i n p.

Lemma created_ok g : 8 < iMin → iMin ≤ iMax → SFleb (float_of 1) f = true → iSize < 2 ^ 64 - 1 → area_of g →
  ∃ v count, g = new_segment pAddr iSize iMin iMax f v count ∧ StronglySorted Z.lt v ∧ seg_ok g (replicate (length v) (seqZ 0 count)).
Proof.
  intros H8 Hm Hf Hsz [s E]. destruct (create_segment pAddr iSize iMin iMax f s H8 Hm Hf Hsz) as [E'|(v & count & E' & _ & _ & Hs & Hok)]; [congruence |].
  exists v, count. rewrite E in E'. by injection E' as ->.
Qed.

(** The blocks of a state that came from [g]. *)
Lemma same_areas_blocks g s Fss p n : same_areas [g] s → areas_ok s Fss → (∃ b, area_block s Fss p n b) ↔ all_blocks g p n.
Proof.
  intros Hs Hok. unfold same_areas in Hs. inversion Hs as [|? g' ? gs (Eh & Ez & Ev & Ec & _) Hgs]; subst. inversion Hgs; subst. destruct Fss as [|Fs [|]]; try done; [|by destruct Hok as (_ & _ & [])].
  destruct Hok as (Hg & _). assert (Ecb : ∀ k, chunk_begin g' k = chunk_begin g k) by (intros k; unfold chunk_begin; by rewrite Eh, Ev, Ec).
  split.
  - intros (b & [(k & F & i & HF & [Hn Hi Hp] & _)%seg_block_at|[]]). exists k, i. constructor; congruence.
  - intros (k & i & [Hn Hi Hp]). destruct (lookup_lt_is_Some_2 Fs k) as [F HF].
    { rewrite (so_lists _ _ Hg), <- (so_sizes _ _ Hg), Ev. by eapply lookup_lt_Some. }
    exists (bool_decide (i ∈ F)). left. apply seg_block_at. exists k, F, i. split_and!; try done. constructor; congruence.
Qed.

Lemma allocate_areas need s Fss r s' : areas_ok s Fss → allocate need s = (r, s') → ∃ Fss', areas_ok s' Fss' ∧ same_areas s s'.
Proof.
  intros Hok E. unfold allocate in E. destruct (allocate2_spec need s Fss Hok) as [[E2 _]|(p & n & ix & s2 & Fss' & E2 & Hok' & Hs & _)];
    rewrite (bind_Ok _ _ _ _ _ E2) in E; injection E as <- <-; [exists Fss; split; [done | apply same_areas_refl] | by exists Fss'].
Qed.
Lemma same_areas_trans s1 s2 s3 : same_areas s1 s2 → same_areas s2 s3 → same_areas s1 s3.
Proof.
  unfold same_areas. intros H1 H2. revert s3 H2. induction H1 as [|x y l l' (A1 & B1 & C1 & D1 & E1) _ IH]; intros s3 H2; inversion H2 as [|? z ? l2 (A2 & B2 & C2 & D2 & E2) H3]; subst; constructor; [|by apply IH].
  split_and!; congruence.
Qed.

(** What holds of a state and the blocks that are lent in it. *)
Definition lent (g : segment) (s : t) (used : gmap Z Z) : Prop :=
  ∃ Fss, areas_ok s Fss ∧ same_areas [g] s ∧ ∀ p n, used !! p = Some n ↔ area_block s Fss p n false.

Lemma flips_used s Fss s' Fss' p n b (used : gmap Z Z) : areas_ok s Fss → flips (area_block s Fss) (area_block s' Fss') p n b →
  (∀ q m, used !! q = Some m ↔ area_block s Fss q m false) →
  ∀ q m, (if b then delete p used else <[p := n]> used) !! q = Some m ↔ area_block s' Fss' q m false.
Proof.
  intros Hok [Hp Hf] Hu q m. rewrite Hf, <- Hu. destruct b; [rewrite lookup_delete_Some | rewrite lookup_insert_Some].
  - split; [intros [Hne Hq]; right; by split | intros [[= _ _]|[Hne Hq]]; by split].
  - split; [intros [[-> ->]|[Hne Hq]]; [by left | right; by split] | intros [[= -> ->]|[Hne Hq]]; [by left | right; by split]].
Qed.
Lemma lent_step g c c' : lends c c' → lent g c.1 c.2 → lent g c'.1 c'.2.
Proof.
  intros Hl (Fss & Hok & Hs & Hu). destruct Hl as [need s s' used p n E|need s r s' used E Hr|p n s r s' used Hp E]; cbn in *.
  - unfold allocate in E. destruct (allocate2_spec need s Fss Hok) as [[E2 _]|(q & m & ix & s2 & Fss' & E2 & Hok' & Hs' & Hf)]; rewrite (bind_Ok _ _ _ _ _ E2) in E; [done |].
    injection E as -> -> ->. exists Fss'. split; [done |]. split; [by eapply same_areas_trans |]. by apply (flips_used s Fss _ _ p n false).
  - unfold allocate in E. destruct (allocate2_spec need s Fss Hok) as [[E2 _]|(q & m & ix & s2 & Fss' & E2 & _)]; rewrite (bind_Ok _ _ _ _ _ E2) in E; [|by injection E as <- <-; destruct (Hr (q, m))].
    injection E as <- <-. by exists Fss.
  - apply Hu in Hp as Hb. destruct (deallocate_spec p n s Fss Hok Hb) as (s2 & Fss' & E2 & Hok' & Hs' & Hf). rewrite E2 in E. injection E as <- <-.
    exists Fss'. split; [done |]. split; [by eapply same_areas_trans |]. by apply (flips_used s Fss _ _ p n true).
Qed.
Lemma lent_runs g c c' : rtc lends c c' → lent g c.1 c.2 → lent g c'.1 c'.2.
Proof. induction 1; eauto using lent_step. Qed.

Lemma new_blocks_free g (v : list Z) count p n : seg_ok g (replicate (length v) (seqZ 0 count)) → _iBlockCount g = count →
  ¬ area_block [g] [replicate (length v) (seqZ 0 count)] p n false.
Proof.
  intros Hg <- [(k & F & i & HF & [_ Hi _] & Hb)%seg_block_at|[]]. apply lookup_replicate in HF as [-> _]. symmetry in Hb.
  apply bool_decide_eq_false in Hb. apply Hb, elem_of_seqZ. lia.
Qed.

(** What a reached state is like: one area with its sizes in order. *)
Definition area_args : Prop := 8 < iMin ∧ iMin ≤ iMax ∧ SFleb (float_of 1) f = true ∧ iSize < 2 ^ 64 - 1.
Lemma reached g s used : area_args → area_of g → rtc lends ([g], ∅) (s, used) →
  lent g s used ∧ StronglySorted Z.lt (_vBlockSize g) ∧ _pHead g = pAddr ∧ _iSize g = iSize.
Proof.
  intros (H8 & Hm & Hf & Hsz) Hg Hr. destruct (created_ok g H8 Hm Hf Hsz Hg) as (v & count & -> & Hs & Hok). split; [|done].
  apply (lent_runs _ _ _ Hr). cbn. exists [replicate (length v) (seqZ 0 count)]. split; [done |]. split; [apply same_areas_refl |].
  intros p n. rewrite lookup_empty. split; [done |]. intros Hb. by apply (new_blocks_free _ v count p n Hok) in Hb.
Qed.

(** A state with one area, in the terms of that area. *)
Lemma lent_one g s used : lent g s used →
  ∃ g' Fs, s = [g'] ∧ seg_ok g' Fs ∧ same_area g g' ∧ (∀ p n, used !! p = Some n ↔ seg_block g' Fs p n false).
Proof.
  intros (Fss & Hok & Hs & Hu). unfold same_areas in Hs. inversion Hs as [|? g' ? gs Hsame Hgs]; subst. inversion Hgs; subst.
  destruct Fss as [|Fs [|]]; [done | | by destruct Hok as (_ & _ & [])]. exists g', Fs. split; [done |]. split; [apply Hok |]. split; [done |].
  intros p n. rewrite Hu. cbn. naive_solver.
Qed.
Lemma same_area_block g g' k i n p : same_area g g' → block_at g' k i n p ↔ block_at g k i n p.
Proof.
  intros (Eh & _ & Ev & Ec & _). assert (Ecb : chunk_begin g' k = chunk_begin g k) by (unfold chunk_begin; by rewrite Eh, Ev, Ec).
  split; intros []; constructor; congruence.
Qed.
Lemma block_either g g' Fs (used : gmap Z Z) p n : seg_ok g' Fs → same_area g g' → (∀ p n, used !! p = Some n ↔ seg_block g' Fs p n false) →
  all_blocks g p n → used !! p = Some n ∨ seg_block g' Fs p n true.
Proof.
  intros Hg Hs Hu (k & i & Hb). apply (same_area_block _ _ _ _ _ _ Hs) in Hb. destruct (lookup_lt_is_Some_2 Fs k) as [F HF].
  { rewrite (so_lists _ _ Hg), <- (so_sizes _ _ Hg). eapply lookup_lt_Some, Hb. }
  destruct (decide (i ∈ F)) as [Hi|Hi]; [right | left; apply Hu]; apply seg_block_at; exists k, F, i; (split; [done |]; split; [done |]).
  - by rewrite bool_decide_true.
  - by rewrite bool_decide_false.
Qed.
Lemma lent_in_area g s used p n : lent g s used → used !! p = Some n → all_blocks g p n ∧ _pHead g + 44 < p ∧ p + n ≤ _pHead g + _iSize g.
Proof.
  intros (g' & Fs & -> & Hg & Hs & Hu)%lent_one Hp%Hu. pose proof (seg_block_range _ _ _ _ _ Hg Hp) as Hr. pose proof Hs as (Eh & Ez & _). rewrite Eh, Ez in Hr.
  split; [|lia]. apply seg_block_at in Hp as (k & F & i & _ & Hb & _). exists k, i. by apply (same_area_block _ _ _ _ _ _ Hs).
Qed.

(** *** Which block *)

Lemma seq_split_before L pre k post j : seq 0 L = pre ++ k :: post → (j < L)%nat → ((j < k)%nat → j ∈ pre) ∧ ((k < j)%nat → j ∈ post).
Proof.
  intros E Hj. assert (Hlk : ∀ i x, seq 0 L !! i = Some x → x = i) by (intros i x [-> _]%lookup_seq; done).
  assert (Ek : k = length pre) by (apply (Hlk (length pre)); rewrite E; by apply list_lookup_middle).
  assert (Hin : seq 0 L !! j = Some j) by (apply lookup_seq; lia). rewrite E in Hin. split; intros Hjk.
  - rewrite lookup_app_l in Hin by lia. by eapply list_elem_of_lookup_2.
  - rewrite lookup_app_r in Hin by lia. replace (j - length pre)%nat with (S (j - length pre - 1)) in Hin by lia. by eapply list_elem_of_lookup_2.
Qed.
Lemma sizes_order v j k m n : StronglySorted Z.lt v → v !! j = Some m → v !! k = Some n → m < n → (j < k)%nat.
Proof.
  intros Hs. revert j k. induction Hs as [|x v Hs IH Hx]; intros [|j] [|k] Hj Hk Hmn; cbn in *; simplify_eq; try lia.
  - rewrite Forall_lookup in Hx. specialize (Hx _ _ Hj). lia.
  - apply -> Nat.succ_lt_mono. eauto.
Qed.
(** The smallest size that is large enough and has a free block, else the largest. *)
Definition best_fit (need n : Z) (free : Z → Z → Prop) : Prop :=
  ∀ q m, free q m → (need ≤ n → need ≤ m → n ≤ m) ∧ (n < need → m ≤ n).
Lemma allocate_here_fit need g Fs p n ix g' : seg_ok g Fs → StronglySorted Z.lt (_vBlockSize g) → allocate_here need g = (Ok (Some (p, n, ix)), g') →
  best_fit need n (λ q m, seg_block g Fs q m true) ∧
  ∃ k i, block_at g k i n p ∧ ix = wrapU 64 (Z.of_nat k * _iBlockCount g + (i + 1)).
Proof.
  intros Hg Hs E. set (idx := seq 0 (length (_allocator g))) in *.
  change (allocate_here need g) with ((let* p := allocate_loop (λ n, need <=? n) idx in
    match p with Some _ => ret p | None => allocate_loop (λ n, n <? need) (reverse idx) end) g) in E.
  assert (Hidx : Forall (λ k, (k < length (_allocator g))%nat) idx) by (apply Forall_forall; intros k [_ Hk]%elem_of_seq; exact Hk).
  assert (Hfree : ∀ q m, seg_block g Fs q m true → ∃ j F, _vBlockSize g !! j = Some m ∧ Fs !! j = Some F ∧ F ≠ [] ∧ (j < length (_allocator g))%nat).
  { intros q m (j & F & i & Hm & HF & _ & _ & Hi). symmetry in Hi. apply bool_decide_eq_true in Hi. exists j, F. split_and!; [done | done | intros ->; by apply not_elem_of_nil in Hi |].
    rewrite <- (so_sizes _ _ Hg). by eapply lookup_lt_Some. }
  destruct (allocate_loop_spec (λ n, need <=? n) g Fs Hg idx Hidx) as [[E1 Hup]|(p1 & n1 & ix1 & g1 & Fs1 & E1 & _ & _ & _ & pre & k & post & i & Ei & Hn & Hpre & Hb & Hix)];
    rewrite (bind_Ok _ _ _ _ _ E1) in E.
  - destruct (allocate_loop_spec (λ n, n <? need) g Fs Hg (reverse idx)) as [[E2 _]|(p2 & n2 & ix2 & g2 & Fs2 & E2 & _ & _ & _ & pre & k & post & i & Ei & Hn & Hpre & Hb & Hix)]; [by apply Forall_reverse | by rewrite E2 in E |].
    rewrite E2 in E. injection E as -> -> -> ->. cbn in Hn. apply Z.ltb_lt in Hn. split; [|by exists k, i].
    intros q m (j & F & Hm & HF & Hne & Hj)%Hfree. split; [lia |]. intros _. rewrite Forall_forall in Hup, Hpre. destruct (Z.le_gt_cases m n) as [?|Hmn]; [done |]. exfalso.
    destruct (Z.le_gt_cases need m).
    + apply Hne, (Hup j) with m; [apply elem_of_seq; lia | done | done | by apply Z.leb_le].
    + apply Hne, (Hpre j) with m; [| done | done | by apply Z.ltb_lt].
      apply (f_equal reverse) in Ei. rewrite reverse_involutive, reverse_app, reverse_cons, <- app_assoc in Ei. cbn in Ei.
      apply elem_of_reverse. apply (seq_split_before _ _ _ _ j Ei Hj). by apply (sizes_order _ _ _ n m Hs (ba_size _ _ _ _ _ Hb) Hm).
  - injection E as -> -> -> ->. cbn in Hn. apply Z.leb_le in Hn. split; [|by exists k, i].
    intros q m (j & F & Hm & HF & Hne & Hj)%Hfree. split; [|lia]. intros _ Hle. rewrite Forall_forall in Hpre. destruct (Z.le_gt_cases n m) as [?|Hmn]; [done |].
    exfalso. apply Hne, (Hpre j) with m; [| done | done | by apply Z.leb_le]. apply (seq_split_before _ _ _ _ j Ei Hj). by apply (sizes_order _ _ _ m n Hs Hm (ba_size _ _ _ _ _ Hb)).
Qed.
Lemma allocate_one need g p n s' : allocate need [g] = (Ok (Some (p, n)), s') →
  ∃ ix g', allocate_here need g = (Ok (Some (p, n, ix)), g') ∧ s' = [g'] ∧ allocate2 need [g] = (Ok (Some (p, n, ix)), s').
Proof.
  unfold allocate, bind. destruct (allocate2 need [g]) as [[[[[q m] ix]|]| | | |] s2] eqn:E; intros E1; try done. injection E1 as -> -> ->.
  unfold allocate2, allocate2_areas, bind, on_first in E. destruct (allocate_here need g) as [[[[[q m] jx]|]| | | |] g2] eqn:E2; try done.
  injection E as -> -> -> <-. by exists ix, g2.
Qed.

(** *** Numbers of blocks *)

(** How many blocks an area has: they fit in it. *)
Lemma index_range g Fs k i n p : seg_ok g Fs → block_at g k i n p → 0 ≤ _pHead g → _iSize g < 2 ^ 64 →
  0 < Z.of_nat k * _iBlockCount g + (i + 1) ≤ _iAllIndex g ∧ _iAllIndex g < 2 ^ 64.
Proof.
  intros Hg [Hn Hi _] H0 Hsz. pose proof (so_index _ _ Hg) as Ea. pose proof (so_sizes _ _ Hg) as El. apply lookup_lt_Some in Hn. pose proof (so_count _ _ Hg).
  assert (Hlen : ∀ j, (j ≤ length (_vBlockSize g))%nat → Z.of_nat j * _iBlockCount g ≤ chunk_begin g j - _pHead g).
  { induction j as [|j IH]; intros Hj; [pose proof (chunk_begin_head g Fs 0 Hg ltac:(lia)); lia |]. destruct (lookup_lt_is_Some_2 (_vBlockSize g) j) as [m Hm]; [lia |].
    rewrite (chunk_begin_S _ _ _ Hm). pose proof (so_pos _ _ Hg) as Hp. rewrite Forall_lookup in Hp. specialize (Hp _ _ Hm). specialize (IH ltac:(lia)). unfold chunk_size. nia. }
  specialize (Hlen _ (le_n _)). pose proof (so_end _ _ Hg). rewrite Ea. split; [nia | lia].
Qed.

Lemma relative_chunk_spec g Fs p k i n : seg_ok g Fs → block_at g k i n p → relative_chunk p (_allocator g) = Some k.
Proof.
  intros Hg Hb. pose proof (block_range _ _ _ _ _ _ Hg Hb) as (Hn8 & Hlo & Hhi & _). pose proof (lookup_lt_Some _ _ _ (ba_size _ _ _ _ _ Hb)) as Hk. pose proof (so_sizes _ _ Hg) as Hlen.
  assert (Hnext : ∀ j a, _allocator g !! j = Some a → MemChunkAllocator._pHead a + MemChunkAllocator._iSize a = chunk_begin g (S j)).
  { intros j a Ha. destruct (seg_chunk g Fs j Hg) as (a' & m & F & Ha' & Hm & _ & Hok); [by eapply lookup_lt_Some |].
    rewrite (chunk_begin_S _ _ _ Hm). assert (a' = a) as -> by congruence. by rewrite (ao_mem _ _ _ _ _ Hok), (ao_head _ _ _ _ _ Hok). }
  enough (Hgen : ∀ d l j, drop j (_allocator g) = l → (j + d = k)%nat → relative_chunk p l = Some d) by (apply (Hgen k (_allocator g) 0%nat); [by rewrite drop_0 | lia]).
  induction d as [|d IH]; intros l j El Ej; (destruct (lookup_lt_is_Some_2 (_allocator g) j) as [a Ha]; [lia |]); rewrite (drop_S _ _ _ Ha) in El; subst l; cbn; rewrite (Hnext _ _ Ha).
  - replace j with k by lia. by rewrite (proj2 (Z.ltb_lt _ _)) by lia.
  - rewrite (proj2 (Z.ltb_ge _ _)); [by rewrite (IH _ (S j)) by (done || lia) |]. pose proof (chunk_begin_le g Fs (S j) k Hg ltac:(lia)). lia.
Qed.
(** The [i]-th block of the [k]-th chunk has the number [k * _iBlockCount + i + 1]. *)
Lemma index_address g Fs k i n p : seg_ok g Fs → block_at g k i n p → 0 ≤ _pHead g → _iSize g < 2 ^ 64 →
  let ix := Z.of_nat k * _iBlockCount g + (i + 1) in
  getAbsolute ix [g] = (Ok (Some p), [g]) ∧ getRelative (Some p) [g] = (Ok ix, [g]).
Proof.
  intros Hg Hb H0 Hsz ix. pose proof (index_range _ _ _ _ _ _ Hg Hb H0 Hsz) as [Hix Hall]. pose proof (block_range _ _ _ _ _ _ Hg Hb) as (Hn8 & Hlo & Hhi & Hin & Hend).
  pose proof Hb as [Hn Hi Hp]. destruct (seg_chunk g Fs k Hg) as (a & m & F & Ha & Hm & HF & Hok); [rewrite <- (so_sizes _ _ Hg); by eapply lookup_lt_Some |]. simplify_eq.
  pose proof (ao_count _ _ _ _ _ Hok) as Ec. pose proof (ao_size _ _ _ _ _ Hok) as Es. split.
  - assert (Ek : (ix - 1) / _iBlockCount g = Z.of_nat k) by (symmetry; apply (Z.div_unique_pos _ _ _ i); unfold ix; lia).
    unfold getAbsolute. cbn [getAbsolute_areas]. rewrite (proj2 (Z.eqb_neq _ _)), (proj2 (Z.leb_le _ _)), Ek, Nat2Z.id by lia.
    assert (Ei : ix - Z.of_nat k * _iBlockCount g = i + 1) by (unfold ix; lia). assert (0 ≤ Z.of_nat k * _iBlockCount g) by (apply Z.mul_nonneg_nonneg; lia).
    rewrite Ei, wrapU_id by (unfold in_U; unfold ix in *; lia).
    assert (Eg : MemChunkAllocator.getAbsolute (i + 1) a = (Ok (chunk_begin g k + 48 + i * n), a)).
    { unfold MemChunkAllocator.getAbsolute, MemChunkAllocator.on_chunk. rewrite ChunkSpec.getAbsolute_ok by lia. replace (i + 1 - 1) with i by lia.
      rewrite (alloc_block_addr _ _ _ _ _ _ Hok). by destruct a. }
    pose proof (on_allocator_eq _ _ _ _ _ _ Ha Eg) as Ea. rewrite (with_alloc_id _ _ _ Ha) in Ea. by rewrite (bind_Ok _ _ _ _ _ (on_first_eq _ _ _ _ _ Ea)).
  - unfold getRelative. cbn [getRelative_areas]. rewrite (proj2 (Z.ltb_lt _ _)) by lia. rewrite (relative_chunk_spec _ _ _ _ _ _ Hg Hb).
    assert (Eg : MemChunkAllocator.getRelative (chunk_begin g k + 48 + i * n) a = (Ok (1 + i), a)).
    { unfold MemChunkAllocator.getRelative, MemChunkAllocator.on_chunk. rewrite <- (alloc_block_addr _ _ _ _ _ _ Hok), ChunkSpec.getRelative_ok by lia. by destruct a. }
    pose proof (on_allocator_eq _ _ _ _ _ _ Ha Eg) as Ea. rewrite (with_alloc_id _ _ _ Ha) in Ea. rewrite (bind_Ok _ _ _ _ _ (on_first_eq _ _ _ _ _ Ea)).
    unfold ret. do 2 f_equal. lia.
Qed.

(** C37: whatever blocks a client of a new allocator asks for and gives back, the blocks it
    has at any time do not overlap and lie in the area behind its head; giving back a block
    it has succeeds, and asking for one yields a block it does not have, or [NULL] only
    when it has all. *)
Theorem allocator_safe g s used : area_args → area_of g → rtc lends ([g], ∅) (s, used) →
  apart used ∧
  (∀ p n, used !! p = Some n → pAddr + getHeadSize < p ∧ p + n ≤ pAddr + iSize ∧ ∃ s', deallocate p s = (Ok tt, s')) ∧
  (∀ need, (allocate need s = (Ok None, s) ∧ ∀ p n, all_blocks g p n → used !! p = Some n) ∨
    ∃ p n s', allocate need s = (Ok (Some (p, n)), s') ∧ used !! p = None ∧ apart (<[p := n]> used)).
Proof.
  intros Hargs Hg Hr. destruct (reached _ _ _ Hargs Hg Hr) as (Hl & _ & Eh & Ez). pose proof (al_disjoint s) as Hd. pose proof Hl as (Fss & Hok & Hs & Hu).
  assert (Hap : ∀ c, rtc lends ([g], ∅) c → apart c.2).
  { intros [s0 u0] Hr0. destruct (reached _ _ _ Hargs Hg Hr0) as ((Fss0 & Hok0 & _ & Hu0) & _). intros p q n m Hne Hp%Hu0 Hq%Hu0.
    by destruct (area_blocks_apart _ _ _ _ _ _ _ _ Hok0 Hp Hq) as [[]|]. }
  split; [by apply (Hap (s, used)) |]. split.
  - intros p n Hp. pose proof (lent_in_area _ _ _ _ _ Hl Hp) as (_ & H1 & H2). rewrite Eh in H1. rewrite Eh, Ez in H2. split; [exact H1 |]. split; [exact H2 |].
    apply Hu in Hp. destruct (deallocate_spec p n s Fss Hok Hp) as (s' & _ & E & _). by exists s'.
  - intros need. destruct (allocate2_spec need s Fss Hok) as [[E Hn]|(p & n & ix & s' & Fss' & E & Hok' & _ & [Hp Hf])].
    + left. split; [unfold allocate; by rewrite (bind_Ok _ _ _ _ _ E) |]. intros p n Hb. apply (same_areas_blocks g s Fss p n Hs Hok) in Hb as [[] Hb]; [by destruct (Hn p n) | by apply Hu].
    + right. exists p, n, s'. assert (E' : allocate need s = (Ok (Some (p, n)), s')) by (unfold allocate; by rewrite (bind_Ok _ _ _ _ _ E)). split; [done |]. split.
      * destruct (used !! p) as [m|] eqn:Em; [|done]. apply Hu in Em. pose proof (area_block_above _ _ _ _ _ Hok Em). pose proof (area_block_above _ _ _ _ _ Hok Hp).
        destruct (area_blocks_apart _ _ _ _ _ _ _ _ Hok Hp Em) as [[_ [_ [=]]]|]; lia.
      * refine (Hap (s', <[p := n]> used) _). eapply rtc_r; [done |]. by apply (lend_block need).
Qed.

(** In every state a new allocator can get into, the block it chooses has the smallest
    size that is large enough among the blocks that are free, and the largest size there is
    when none is large enough. *)
Theorem allocator_best_fit g s used need p n s' : area_args → area_of g → rtc lends ([g], ∅) (s, used) → allocate need s = (Ok (Some (p, n)), s') →
  best_fit need n (λ q m, all_blocks g q m ∧ used !! q = None).
Proof.
  intros Hargs Hg Hr E. destruct (reached _ _ _ Hargs Hg Hr) as (Hl & Hsorted & _). apply lent_one in Hl as (g' & Fs & -> & Hok & Hs & Hu).
  apply allocate_one in E as (ix & g2 & E & -> & _). pose proof Hs as (_ & _ & Ev & _). destruct (allocate_here_fit _ _ _ _ _ _ _ Hok ltac:(by rewrite Ev) E) as [Hfit _].
  intros q m [Hb Hq]. apply (Hfit q m). destruct (block_either g g' Fs used q m Hok Hs Hu Hb); [congruence | done].
Qed.

(** The number [allocate2] gives with a block stands for it: [getAbsolute] turns the
    number into the address and [getRelative] the address into the number. *)
Theorem allocator_index_roundtrip g s used need p n ix s' : area_args → 0 ≤ pAddr → area_of g → rtc lends ([g], ∅) (s, used) →
  allocate2 need s = (Ok (Some (p, n, ix)), s') →
  getAbsolute ix s' = (Ok (Some p), s') ∧ getRelative (Some p) s' = (Ok ix, s') ∧ 0 < ix ≤ allBlockChunkCount s'.
Proof.
  intros Hargs H0 Hg Hr E. destruct (reached _ _ _ Hargs Hg Hr) as (Hl & Hsorted & Eh & Ez).
  assert (E1 : allocate need s = (Ok (Some (p, n)), s')) by (unfold allocate; by rewrite (bind_Ok _ _ _ _ _ E)).
  assert (Hl' : lent g s' (<[p := n]> used)) by (apply (reached g s' _ Hargs Hg); eapply rtc_r; [done |]; by apply (lend_block need)).
  apply lent_one in Hl as (g1 & Fs & -> & Hok & Hs & Hu). destruct (allocate_one _ _ _ _ _ E1) as (ix' & g2 & E2 & -> & E3).
  rewrite E in E3. injection E3 as <-. pose proof Hs as (_ & _ & Ev & Ec & _). destruct (allocate_here_fit _ _ _ _ _ _ _ Hok ltac:(by rewrite Ev) E2) as [_ (k & i & Hb & ->)].
  apply lent_one in Hl' as (g3 & Fs3 & [= <-] & Hok2 & Hs2 & _). pose proof Hs2 as (Eh2 & Ez2 & _ & Ec2 & _).
  apply (same_area_block _ _ _ _ _ _ Hs) in Hb. apply (same_area_block _ _ _ _ _ _ Hs2) in Hb. destruct Hargs as (_ & _ & _ & Hsz).
  pose proof (index_range _ _ _ _ _ _ Hok2 Hb ltac:(by rewrite Eh2, Eh) ltac:(rewrite Ez2, Ez; lia)) as [Hix Hall].
  rewrite Ec, <- Ec2, wrapU_id by (unfold in_U; lia). destruct (index_address _ _ _ _ _ _ Hok2 Hb ltac:(by rewrite Eh2, Eh) ltac:(rewrite Ez2, Ez; lia)) as [Ea Er].
  split; [done |]. split; [done |]. unfold allBlockChunkCount. cbn. rewrite (so_index _ _ Hok2) in Hix. pose proof (so_sizes _ _ Hok2). lia.
Qed.
End runs.

(** *** Runs of a small area *)

Definition sample_segment : segment := match sample_area with Ok g => g | _ => mk 0 0 0 0 0 (float_of 0) 0 [] 0 [] 0 end.
Definition after_allocate (need : Z) (s : t) : t := (allocate need s).2.

Lemma sample_args : area_args 1024 16 40 (S754_finite false 12582912 (-23)).
Proof. split_and!; [lia | lia | by vm_compute | lia]. Qed.
Lemma sample_created : area_of 1000 1024 16 40 (S754_finite false 12582912 (-23)) sample_segment.
Proof. exists tt. by vm_compute. Qed.
(** Three blocks are lent and the second comes back. *)
Definition sample_used : gmap Z Z := {[ 1236 := 24; 1092 := 16 ]}.
Definition sample_state : t := (deallocate 1692 (after_allocate 50 (after_allocate 5 (after_allocate 17 [sample_segment])))).2.
Lemma area_run : rtc lends ([sample_segment], ∅) (sample_state, sample_used).
Proof.
  eapply rtc_l; [by apply (lend_block 17 [sample_segment] (after_allocate 17 [sample_segment]) ∅ 1236 24); vm_compute |].
  eapply rtc_l; [by apply (lend_block 5 _ (after_allocate 5 (after_allocate 17 [sample_segment])) _ 1092 16); vm_compute |].
  eapply rtc_l; [by apply (lend_block 50 _ (after_allocate 50 (after_allocate 5 (after_allocate 17 [sample_segment]))) _ 1692 40); vm_compute |].
  eapply rtc_l; [apply (give_back 1692 40 _ (Ok tt) sample_state); by vm_compute |].
  replace (delete 1692 _) with sample_used by by vm_compute. done.
Qed.

Lemma allocator_safe_witness : apart sample_used ∧ (allocate 40 sample_state).1 = Ok (Some (1692, 40)).
Proof.
  split; [|by vm_compute].
  exact (proj1 (allocator_safe 1000 1024 16 40 _ sample_segment sample_state sample_used sample_args sample_created area_run)).
Defined.
Lemma allocator_best_fit_witness : best_fit 20 24 (λ q m, all_blocks sample_segment q m ∧ sample_used !! q = None).
Proof.
  exact (allocator_best_fit 1000 1024 16 40 _ sample_segment sample_state sample_used 20 1260 24 (after_allocate 20 sample_state)
    sample_args sample_created area_run ltac:(by vm_compute)).
Defined.
Lemma allocator_index_roundtrip_witness : (getAbsolute 8 (after_allocate 20 sample_state)).1 = Ok (Some 1260).
Proof.
  rewrite (proj1 (allocator_index_roundtrip 1000 1024 16 40 _ sample_segment sample_state sample_used 20 1260 24 8 (after_allocate 20 sample_state)
    sample_args ltac:(lia) sample_created area_run ltac:(by vm_compute))). done.
Defined.
