(* ===== verification/HashMap.v ===== *)
(** [TC_HashMap] of [src/util/src/tc_hashmap.cpp]: a hash map in shared memory, with the
    lists of its blocks in the order they were set and read, and a journal that makes
    changes of the lists one step. *)
From stdpp Require Import prelude gmap list.
From Stdlib Require Import ZArith Lia Floats.SpecFloat.
From S2P Require Import Prelude Bytes MemChunk MemChunkSpec.

(** ** Packing of strings

    [TC_PackIn] and [TC_PackOut] of [src/util/src/tc_pack.cpp]. *)
Module Pack.
Definition pack (sBuffer : list Z) : list Z :=
  let len := wrapU 32 (zlen sBuffer) in
  (if len <? 255 then [len] else 255 :: be_bytes 4 len) ++ sBuffer.
(** [operator >> (string&)]: the string and what is left, or the exception. *)
Definition unpack (buf : list Z) : option (list Z * list Z) :=
  match buf with
  | [] => None
  | c :: rest =>
    let body (len : Z) (rest : list Z) :=
      if zlen rest <? len then None else Some (take (Z.to_nat len) rest, drop (Z.to_nat len) rest) in
    if c =? 255 then
      if zlen rest <? 4 then None else body (ntohl (le_val (take 4 rest))) (drop 4 rest)
    else body c rest
  end.
End Pack.

(** ** Memory *)

(** The two lists that go through all blocks. *)
Inductive chain := SetList | GetList.
#[export] Instance chain_eq : EqDecision chain.
Proof. solve_decision. Defined.

(** The members in shared memory that the lists and the journal are about: of [tagMapHead],
    [tagHashItem], [tagBlockHead] and [tagChunkHead].  [BUnion] and [CUnion] are
    [_iNextChunk] and [_iDataLen], which share their place. *)
Inductive field :=
  | HHead (c : chain) | HTail (c : chain) | HDirtyTail | HSyncTail | HBackupTail
  | HElementCount | HDirtyCount | HOnlyKeyCount | HUsedChunk | HGetCount | HHitCount
  | IBlockAddr | IListCount
  | BSize | BIndex | BBlockNext | BBlockPrev | BNext (c : chain) | BPrev (c : chain) | BSyncTime | BDirty | BOnlyKey | BNextChunk | BUnion
  | CSize | CNextChunk | CUnion.
#[export] Instance field_eq : EqDecision field.
Proof. solve_decision. Defined.
Definition field_code (f : field) : nat :=
  match f with
  | HHead SetList => 0 | HHead GetList => 1 | HTail SetList => 2 | HTail GetList => 3 | HDirtyTail => 4 | HSyncTail => 5 | HBackupTail => 6
  | HElementCount => 7 | HDirtyCount => 8 | HOnlyKeyCount => 9 | HUsedChunk => 10 | HGetCount => 11 | HHitCount => 12
  | IBlockAddr => 13 | IListCount => 14
  | BSize => 15 | BIndex => 16 | BBlockNext => 17 | BBlockPrev => 18 | BNext SetList => 19 | BNext GetList => 20 | BPrev SetList => 21 | BPrev GetList => 22
  | BSyncTime => 23 | BDirty => 24 | BOnlyKey => 25 | BNextChunk => 26 | BUnion => 27
  | CSize => 28 | CNextChunk => 29 | CUnion => 30
  end.
Definition all_fields : list field :=
  [HHead SetList; HHead GetList; HTail SetList; HTail GetList; HDirtyTail; HSyncTail; HBackupTail; HElementCount; HDirtyCount; HOnlyKeyCount; HUsedChunk;
   HGetCount; HHitCount; IBlockAddr; IListCount; BSize; BIndex; BBlockNext; BBlockPrev; BNext SetList; BNext GetList; BPrev SetList; BPrev GetList;
   BSyncTime; BDirty; BOnlyKey; BNextChunk; BUnion; CSize; CNextChunk; CUnion].
#[export] Program Instance field_countable : Countable field := inj_countable field_code (λ n, all_fields !! n) _.
Next Obligation. by intros [[]|[]| | | | | | | | | | | | | | | |[]|[]| | | | | | | |]. Qed.

(** A member of the object at an address; the head is at 0, an item of the hash table at
    its index. *)
Abbreviation loc := (Z * field)%type.

Module HashMap.
Record BlockData := mk_data { _key : list Z; _value : list Z; _dirty : bool; _synct : Z }.
Definition no_data : BlockData := mk_data [] [] false 0.

Definition RT_OK : Z := 0.
Definition RT_DIRTY_DATA : Z := 1.
Definition RT_NO_DATA : Z := 2.
Definition RT_NEED_SYNC : Z := 3.
Definition RT_NONEED_SYNC : Z := 4.
Definition RT_ERASE_OK : Z := 5.
Definition RT_READONLY : Z := 6.
Definition RT_NO_MEMORY : Z := 7.
Definition RT_ONLY_KEY : Z := 8.
Definition RT_NEED_BACKUP : Z := 9.
Definition RT_DECODE_ERR : Z := -1.
Definition RT_EXCEPTION_ERR : Z := -2.
Definition RT_NOTALL_ERR : Z := -7.

Section HashMap.
Context {Al : Type} {AL : Allocator Al}.
(** [_hashf] *)
Context (hashf : list Z → Z).

(** The members of [tagMapHead] that the journal is not about; the memory; [_cData] of
    the blocks and chunks; [tagModifyHead], of which [_stModifyData] are the first
    [_iNowIndex] entries; the allocator; and the vector the caller passes for what is
    thrown out. *)
Record t := mk {
  _pHead : Z; _hash_size : Z;
  _bReadOnly : bool; _bAutoErase : bool; _cEraseMode : Z; _iEraseCount : Z; _iSyncTime : Z;
  mem : gmap loc Z; _cData : gmap Z (list Z);
  _cModifyStatus : Z; _stModifyData : list (loc * Z);
  _pDataAllocator : Al;
  vtData : list BlockData
}.
Abbreviation M A := (prog t Empty_set A).

Definition set_mem m (s : t) : t := mk (_pHead s) (_hash_size s) (_bReadOnly s) (_bAutoErase s) (_cEraseMode s) (_iEraseCount s) (_iSyncTime s) m (_cData s) (_cModifyStatus s) (_stModifyData s) (_pDataAllocator s) (vtData s).
Definition set_data d (s : t) : t := mk (_pHead s) (_hash_size s) (_bReadOnly s) (_bAutoErase s) (_cEraseMode s) (_iEraseCount s) (_iSyncTime s) (mem s) d (_cModifyStatus s) (_stModifyData s) (_pDataAllocator s) (vtData s).
Definition set_journal st j (s : t) : t := mk (_pHead s) (_hash_size s) (_bReadOnly s) (_bAutoErase s) (_cEraseMode s) (_iEraseCount s) (_iSyncTime s) (mem s) (_cData s) st j (_pDataAllocator s) (vtData s).
Definition set_alloc a (s : t) : t := mk (_pHead s) (_hash_size s) (_bReadOnly s) (_bAutoErase s) (_cEraseMode s) (_iEraseCount s) (_iSyncTime s) (mem s) (_cData s) (_cModifyStatus s) (_stModifyData s) a (vtData s).
Definition set_vt v (s : t) : t := mk (_pHead s) (_hash_size s) (_bReadOnly s) (_bAutoErase s) (_cEraseMode s) (_iEraseCount s) (_iSyncTime s) (mem s) (_cData s) (_cModifyStatus s) (_stModifyData s) (_pDataAllocator s) v.

Definition load (l : loc) : M Z := λ s, match mem s !! l with Some v => (Ok v, s) | None => (OutOfBounds, s) end.
Definition store (l : loc) (v : Z) : M unit := λ s,
  if decide (is_Some (mem s !! l)) then (Ok tt, set_mem (<[l := v]> (mem s)) s) else (OutOfBounds, s).
Definition head_ (f : field) : M Z := load (0, f).

Definition sizeof_tagBlockHead : Z := 75.
Definition sizeof_tagChunkHead : Z := 13.
Definition block_fields : list field :=
  [BSize; BIndex; BBlockNext; BBlockPrev; BNext SetList; BPrev SetList; BNext GetList; BPrev GetList; BSyncTime; BDirty; BOnlyKey; BNextChunk; BUnion].
Definition chunk_fields : list field := [CSize; CNextChunk; CUnion].

(** What the allocator lends is zero: it clears a block when it comes back. *)
Definition take_memory (fs : list field) (iHeadSize a iSize : Z) : M unit := λ s,
  if iSize <? iHeadSize then (OutOfBounds, s)
  else (Ok tt, set_data (<[a := replicate (Z.to_nat (iSize - iHeadSize)) 0]> (_cData s)) (set_mem (foldr (λ f m, <[(a, f) := 0]> m) (mem s) fs) s)).
Definition give_memory (a : Z) : M unit :=
  modify (λ s, set_data (delete a (_cData s)) (set_mem (foldr (λ f m, delete (a, f) m) (mem s) (block_fields ++ chunk_fields)) s)).
Definition on_alloc {A} (m : prog Al Empty_set A) : M A := λ s, let '(r, a) := m (_pDataAllocator s) in (r, set_alloc a s).

(** [memcpy] from and to [_cData]. *)
Definition read_data (a n : Z) : M (list Z) := λ s,
  match _cData s !! a with
  | Some d => match mem_read d 0 n with Some bs => (Ok bs, s) | None => (OutOfBounds, s) end
  | None => (OutOfBounds, s)
  end.
Definition write_data (a : Z) (bs : list Z) : M unit := λ s,
  match _cData s !! a with
  | Some d => if zlen d <? zlen bs then (OutOfBounds, s) else (Ok tt, set_data (<[a := bs ++ drop (length bs) d]> (_cData s)) s)
  | None => (OutOfBounds, s)
  end.
(** [n] bytes of the caller's buffer. *)
Definition slice (pData : list Z) (off n : Z) : M (list Z) :=
  match mem_read pData off n with Some bs => ret bs | None => out_of_bounds end.

(** *** The journal *)

Definition update (l : loc) (v : Z) : M unit :=
  modify (λ s, set_journal 1 (_stModifyData s ++ [(l, v)]) s) ;;;
  let* s := get_st in
  assert_that (zlen (_stModifyData s) <? 20).
Fixpoint apply_journal (j : list (loc * Z)) : M unit :=
  match j with
  | [] => ret tt
  | (l, v) :: j' => store l v ;;; apply_journal j'
  end.
Definition doUpdate (bUpdate : bool) : M unit :=
  (if bUpdate then modify (λ s, set_journal 2 (_stModifyData s) s) else ret tt) ;;;
  let* s := get_st in
  if _cModifyStatus s =? 1 then modify (set_journal 0 [])
  else if _cModifyStatus s =? 2 then apply_journal (_stModifyData s) ;;; modify (set_journal 0 [])
  else ret tt.

Definition count_up (f : field) : M unit := let* n := head_ f in update (0, f) (wrapU 64 (n + 1)).
Definition count_down (f : field) : M unit := let* n := head_ f in update (0, f) (wrapU 64 (n - 1)).
Definition incDirtyCount := count_up HDirtyCount.
Definition delDirtyCount := count_down HDirtyCount.
Definition incElementCount := count_up HElementCount.
Definition delElementCount := count_down HElementCount.
Definition incOnlyKeyCount := count_up HOnlyKeyCount.
Definition delOnlyKeyCount := count_down HOnlyKeyCount.
Definition incGetCount := count_up HGetCount.
Definition incHitCount := count_up HHitCount.
Definition incChunkCount : M unit := let* n := head_ HUsedChunk in store (0, HUsedChunk) (wrapU 64 (n + 1)).
Definition delChunkCount : M unit := let* n := head_ HUsedChunk in store (0, HUsedChunk) (wrapU 64 (n - 1)).
Definition incListCount (index : Z) : M unit := let* n := load (index, IListCount) in update (index, IListCount) (wrapU 32 (n + 1)).
Definition delListCount (index : Z) : M unit := let* n := load (index, IListCount) in update (index, IListCount) (wrapU 32 (n - 1)).

Definition flag (b : bool) : Z := Z.b2z b.
Definition test (l : loc) : M bool := let* v := load l in ret (negb (v =? 0)).

(** *** Blocks: memory *)

Fixpoint deallocateMemBlock (v : list Z) : M unit :=
  match v with
  | [] => ret tt
  | a :: v' =>
    let* s := get_st in
    on_alloc (al_deallocate (_pHead s + a)) ;;; give_memory a ;;; delChunkCount ;;; deallocateMemBlock v'
  end.

(** As many steps as there are blocks and chunks. *)
Definition with_fuel {A} (m : nat → M A) : M A := λ s, m (S (size (_cData s))) s.
Definition no_fuel {A} : M A := λ s, (NoFuel, s).

(** The chunks from one on. *)
Fixpoint chunks_from (fuel : nat) (pChunk : Z) : M (list Z) :=
  match fuel with
  | O => no_fuel
  | S fuel' =>
    let* more := test (pChunk, CNextChunk) in
    if more then
      let* next := load (pChunk, CUnion) in
      let* v := chunks_from fuel' next in ret (pChunk :: v)
    else ret [pChunk]
  end.
(** [deallocate(size_t)] *)
Definition deallocate_chunks (iChunk : Z) : M unit :=
  let* v := with_fuel (λ fuel, chunks_from fuel iChunk) in deallocateMemBlock v.
Definition deallocate (a : Z) : M unit :=
  let* more := test (a, BNextChunk) in
  (if more then let* c := load (a, BUnion) in deallocate_chunks c else ret tt) ;;;
  deallocateMemBlock [a].

Fixpoint getDataLen_loop (fuel : nat) (pChunk n : Z) : M Z :=
  match fuel with
  | O => no_fuel
  | S fuel' =>
    let* more := test (pChunk, CNextChunk) in
    if more then
      let* iSize := load (pChunk, CSize) in
      let* next := load (pChunk, CUnion) in
      getDataLen_loop fuel' next (wrapU 64 (n + (iSize - sizeof_tagChunkHead)))
    else let* len := load (pChunk, CUnion) in ret (wrapU 64 (n + len))
  end.
Definition getDataLen (a : Z) : M Z :=
  let* more := test (a, BNextChunk) in
  if negb more then load (a, BUnion) else
  let* iSize := load (a, BSize) in
  let* c := load (a, BUnion) in
  with_fuel (λ fuel, getDataLen_loop fuel c (wrapU 64 (iSize - sizeof_tagBlockHead))).

(** [get(void*, size_t&)]: the bytes copied to the buffer and the length. *)
Fixpoint get_loop (fuel : nat) (iDataLen iHasLen iLeftLen pChunk : Z) (bs : list Z) : M (Z * Z * list Z) :=
  match fuel with
  | O => no_fuel
  | S fuel' =>
    if iHasLen <? iDataLen then
      let* iSize := load (pChunk, CSize) in
      let iUseSize := wrapU 64 (iSize - sizeof_tagChunkHead) in
      let* more := test (pChunk, CNextChunk) in
      if negb more then
        let* len := load (pChunk, CUnion) in
        let iCopyLen := Z.min len iLeftLen in
        let* d := read_data pChunk iCopyLen in
        ret (if iLeftLen <? len then RT_NOTALL_ERR else RT_OK, iHasLen + iCopyLen, bs ++ d)
      else
        let iCopyLen := Z.min iUseSize iLeftLen in
        let* d := read_data pChunk iCopyLen in
        if iLeftLen <? iUseSize then ret (RT_NOTALL_ERR, iHasLen + iCopyLen, bs ++ d) else
        let* next := load (pChunk, CUnion) in
        get_loop fuel' iDataLen (iHasLen + iCopyLen) (iLeftLen - iCopyLen) next (bs ++ d)
    else ret (RT_OK, iDataLen, bs)
  end.
Definition get_buffer (a iDataLen : Z) : M (Z * Z * list Z) :=
  let* more := test (a, BNextChunk) in
  if negb more then
    let* len := load (a, BUnion) in
    let* d := read_data a (Z.min len iDataLen) in ret (RT_OK, len, d)
  else
    let* iSize := load (a, BSize) in
    let iUseSize := wrapU 64 (iSize - sizeof_tagBlockHead) in
    let iCopyLen := Z.min iUseSize iDataLen in
    let* d := read_data a iCopyLen in
    if iDataLen <? iUseSize then ret (RT_NOTALL_ERR, iDataLen, d) else
    let* c := load (a, BUnion) in
    with_fuel (λ fuel, get_loop fuel iDataLen iCopyLen (iDataLen - iCopyLen) c d).
(** [get(string&)]; [assign] reads the bytes of the buffer that were written. *)
Definition get_string (a : Z) : M (Z * list Z) :=
  let* iLen := getDataLen a in
  let* r := get_buffer a iLen in
  let '(ret_, iGetLen, bs) := r in
  if ret_ =? RT_OK then let* str := slice bs 0 iGetLen in ret (ret_, str) else ret (ret_, []).

Definition getBlockData (a : Z) (data : BlockData) : M (Z * BlockData) :=
  let* d := test (a, BDirty) in
  let* t := load (a, BSyncTime) in
  let data := mk_data (_key data) (_value data) d t in
  let* r := get_string a in
  if negb (r.1 =? RT_OK) then ret (r.1, data) else
  match Pack.unpack r.2 with
  | None => ret (RT_DECODE_ERR, data)
  | Some (k, rest) =>
    let data := mk_data k (_value data) d t in
    let* only := test (a, BOnlyKey) in
    if only then ret (RT_ONLY_KEY, data) else
    match Pack.unpack rest with
    | None => ret (RT_DECODE_ERR, data)
    | Some (v, _) => ret (RT_OK, mk_data k v d t)
    end
  end.

Definition setDirty_block (a : Z) (b : bool) : M unit :=
  let* d := test (a, BDirty) in
  if negb (Bool.eqb d b) then
    (if b then incDirtyCount else delDirtyCount) ;;;
    update (a, BDirty) (flag b) ;;; doUpdate true
  else ret tt.

(** *** Blocks: lists *)

(** The part of [makeNew] that hooks a block in front of the set list or the get list. *)
Definition push_front (c : chain) (a : Z) : M unit :=
  let* h := head_ (HHead c) in
  if h =? 0 then
    let* t := head_ (HTail c) in
    assert_that (t =? 0) ;;;
    update (0, HHead c) a ;;; update (0, HTail c) a
  else
    let* t := head_ (HTail c) in
    assert_that (negb (t =? 0)) ;;;
    update (a, BNext c) h ;;; update (h, BPrev c) a ;;; update (0, HHead c) a.
(** And the hash bucket. *)
Definition push_bucket (index a : Z) : M unit :=
  let* b := load (index, IBlockAddr) in
  if b =? 0 then
    update (index, IBlockAddr) a ;;; update (a, BBlockNext) 0 ;;; update (a, BBlockPrev) 0
  else
    update (b, BBlockPrev) a ;;; update (a, BBlockNext) b ;;; update (index, IBlockAddr) a ;;; update (a, BBlockPrev) 0.

Definition makeNew (a index iAllocSize : Z) : M unit :=
  store (a, BSize) (wrapU 32 iAllocSize) ;;; store (a, BIndex) (wrapU 32 index) ;;;
  store (a, BNext SetList) 0 ;;; store (a, BPrev SetList) 0 ;;; store (a, BNext GetList) 0 ;;; store (a, BPrev GetList) 0 ;;;
  store (a, BSyncTime) 0 ;;; store (a, BBlockNext) 0 ;;; store (a, BBlockPrev) 0 ;;;
  store (a, BNextChunk) (flag false) ;;; store (a, BUnion) 0 ;;; store (a, BDirty) (flag true) ;;; store (a, BOnlyKey) (flag false) ;;;
  incDirtyCount ;;; incElementCount ;;; incListCount (wrapU 32 index) ;;;
  push_bucket index a ;;; push_front SetList a ;;; push_front GetList a ;;;
  doUpdate true.

(** A tail pointer of [tagMapHead] moves off a block that goes. *)
Definition move_tail (f : field) (c : chain) (a : Z) : M unit :=
  let* x := head_ f in
  if x =? a then let* p := load (a, BPrev c) in update (0, f) p else ret tt.
(** The parts of [erase] for the set list and the get list. *)
Definition unlink (c : chain) (a : Z) : M unit :=
  let* h := head_ (HHead c) in
  let* t := head_ (HTail c) in
  if negb (h =? a) then
    if t =? a then
      let* n := load (a, BNext c) in assert_that (n =? 0) ;;;
      let* p := load (a, BPrev c) in
      update (0, HTail c) p ;;; update (p, BNext c) 0
    else
      let* n := load (a, BNext c) in assert_that (negb (n =? 0)) ;;;
      let* p := load (a, BPrev c) in
      update (p, BNext c) n ;;; update (n, BPrev c) p
  else
    if t =? a then
      let* n := load (a, BNext c) in assert_that (n =? 0) ;;;
      let* p := load (a, BPrev c) in assert_that (p =? 0) ;;;
      update (0, HHead c) 0 ;;; update (0, HTail c) 0
    else
      let* n := load (a, BNext c) in assert_that (negb (n =? 0)) ;;;
      update (0, HHead c) n ;;; update (n, BPrev c) 0.
(** And for the hash bucket. *)
Definition unlink_bucket (a : Z) : M unit :=
  let* p := load (a, BBlockPrev) in
  let* n := load (a, BBlockNext) in
  (if negb (p =? 0) then update (p, BBlockNext) n else ret tt) ;;;
  (if negb (n =? 0) then update (n, BBlockPrev) p else ret tt) ;;;
  let* index := load (a, BIndex) in
  delListCount index ;;;
  if p =? 0 then
    let* b := load (index, IBlockAddr) in
    assert_that (b =? a) ;;; update (index, IBlockAddr) n
  else ret tt.

Definition erase_block (a : Z) : M unit :=
  move_tail HDirtyTail SetList a ;;; move_tail HSyncTail SetList a ;;; move_tail HBackupTail GetList a ;;;
  unlink SetList a ;;; unlink GetList a ;;; unlink_bucket a ;;;
  let* d := test (a, BDirty) in
  (if d then delDirtyCount else ret tt) ;;;
  let* only := test (a, BOnlyKey) in
  (if only then delOnlyKeyCount else ret tt) ;;;
  delElementCount ;;;
  doUpdate true ;;;
  deallocate a.

(** What [refreshSetList] and [refreshGetList] do with a block that is not in front. *)
Definition move_front (c : chain) (a iPrev iNext : Z) : M unit :=
  let* h := head_ (HHead c) in
  update (a, BNext c) h ;;; update (h, BPrev c) a ;;; update (0, HHead c) a ;;; update (a, BPrev c) 0 ;;;
  update (iPrev, BNext c) iNext ;;;
  if negb (iNext =? 0) then update (iNext, BPrev c) iPrev
  else
    let* t := head_ (HTail c) in
    assert_that (t =? a) ;;; update (0, HTail c) iPrev.
Definition refreshGetList (a : Z) : M unit :=
  let* h := head_ (HHead GetList) in
  let* t := head_ (HTail GetList) in
  assert_that (negb (h =? 0)) ;;; assert_that (negb (t =? 0)) ;;;
  if h =? a then ret tt else
  let* iPrev := load (a, BPrev GetList) in
  let* iNext := load (a, BNext GetList) in
  assert_that (negb (iPrev =? 0)) ;;;
  let* b := head_ HBackupTail in
  (if b =? a then update (0, HBackupTail) iPrev else ret tt) ;;;
  move_front GetList a iPrev iNext ;;;
  doUpdate true.
Definition refreshSetList (a : Z) : M unit :=
  let* h := head_ (HHead SetList) in
  let* t := head_ (HTail SetList) in
  assert_that (negb (h =? 0)) ;;; assert_that (negb (t =? 0)) ;;;
  let* y := head_ HSyncTail in
  (if (y =? a) && negb (h =? a) then let* p := load (a, BPrev SetList) in update (0, HSyncTail) p else ret tt) ;;;
  let* d := head_ HDirtyTail in
  (if (d =? a) && negb (h =? a) then let* p := load (a, BPrev SetList) in update (0, HDirtyTail) p
   else if d =? 0 then update (0, HDirtyTail) a else ret tt) ;;;
  if h =? a then doUpdate true ;;; refreshGetList a else
  let* iPrev := load (a, BPrev SetList) in
  let* iNext := load (a, BNext SetList) in
  assert_that (negb (iPrev =? 0)) ;;;
  move_front SetList a iPrev iNext ;;;
  doUpdate true ;;; refreshGetList a.

(** *** Throwing blocks out *)

Definition order_of (s : t) : chain := if _cEraseMode s =? 1 then SetList else GetList.
Fixpoint eraseExcept_loop (fuel : nat) (iNowAddr d : Z) : M Z :=
  match fuel with
  | O => no_fuel
  | S fuel' =>
    if d =? 0 then ret d else
    let* s := get_st in
    let c := order_of s in
    let* iAddr := head_ (HTail c) in
    if iAddr =? 0 then ret d else
    let* iAddr := (if iNowAddr =? iAddr then load (iAddr, BPrev c) else ret iAddr) in
    if iAddr =? 0 then ret d else
    let* r := getBlockData iAddr no_data in
    let* d := (if r.1 =? RT_OK then modify (λ s, set_vt (vtData s ++ [r.2]) s) ;;; ret (d - 1)
               else if r.1 =? RT_NO_DATA then ret (d - 1) else ret d) in
    erase_block iAddr ;;;
    eraseExcept_loop fuel' iNowAddr d
  end.
Definition eraseExcept (iNowAddr : Z) : M Z :=
  let* s := get_st in
  if negb (_bAutoErase s) then ret 0 else
  let n := if _iEraseCount s =? 0 then 10 else _iEraseCount s in
  let* d := with_fuel (λ fuel, eraseExcept_loop fuel iNowAddr n) in
  ret (n - d).

(** [goto begin]: what an allocation needs is made free. *)
Fixpoint allocate_or_erase (fuel : nat) (iAddr iAllocSize : Z) : M (option (Z * Z)) :=
  match fuel with
  | O => no_fuel
  | S fuel' =>
    let* p := on_alloc (al_allocate iAllocSize) in
    match p with
    | Some p => ret (Some p)
    | None =>
      let* n := eraseExcept iAddr in
      if n =? 0 then ret None else allocate_or_erase fuel' iAddr iAllocSize
    end
  end.
Definition allocateMemBlock (index iAllocSize : Z) : M Z :=
  let* p := with_fuel (λ fuel, allocate_or_erase fuel 0 iAllocSize) in
  match p with
  | None => ret 0
  | Some (pAddr, iAllocSize) =>
    let* s := get_st in
    let iAddr := pAddr - _pHead s in
    take_memory block_fields sizeof_tagBlockHead iAddr iAllocSize ;;;
    makeNew iAddr index iAllocSize ;;; incChunkCount ;;; ret iAddr
  end.
(** The address and [iAllocSize]. *)
Definition allocateChunk_mem (iAddr iAllocSize : Z) : M (Z * Z) :=
  let* p := with_fuel (λ fuel, allocate_or_erase fuel iAddr iAllocSize) in
  match p with
  | None => ret (0, iAllocSize)
  | Some (pAddr, iAllocSize) =>
    let* s := get_st in
    let t := pAddr - _pHead s in
    take_memory chunk_fields sizeof_tagChunkHead t iAllocSize ;;; incChunkCount ;;; ret (t, iAllocSize)
  end.

(** *** Blocks: data *)

(** [chunks] is what is allocated so far; the loop asks for what is left. *)
Fixpoint allocateChunk_loop (fuel : nat) (a fn : Z) (chunks : list Z) : M (Z * list Z) :=
  match fuel with
  | O => no_fuel
  | S fuel' =>
    let* r := allocateChunk_mem a fn in
    let '(t, iAllocSize) := r in
    if t =? 0 then deallocateMemBlock chunks ;;; ret (RT_NO_MEMORY, []) else
    store (t, CSize) (wrapU 32 iAllocSize) ;;;
    let chunks := chunks ++ [t] in
    let room := wrapU 64 (iAllocSize - sizeof_tagChunkHead) in
    if fn <=? room then ret (RT_OK, chunks) else allocateChunk_loop fuel' a (wrapU 64 (fn - room)) chunks
  end.
Definition allocateChunk (a fn : Z) : M (Z * list Z) :=
  assert_that (0 <? fn) ;;; allocateChunk_loop (Z.to_nat fn) a fn [].

Fixpoint joinChunk (pChunk : Z) (rest : list Z) : M Z :=
  match rest with
  | [] => update (pChunk, CNextChunk) (flag false) ;;; doUpdate true ;;; ret RT_OK
  | next :: rest' =>
    update (pChunk, CNextChunk) (flag true) ;;; update (pChunk, CUnion) next ;;;
    update (next, CNextChunk) (flag false) ;;; update (next, CUnion) 0 ;;; doUpdate true ;;;
    joinChunk next rest'
  end.
(** New chunks behind a block or a chunk, whose members are [fNext] and [fUnion]. *)
Definition extend (a p : Z) (fNext fUnion : field) (fn : Z) : M Z :=
  let* r := allocateChunk a fn in
  if negb (r.1 =? RT_OK) then ret r.1 else
  match r.2 with
  | [] => out_of_bounds
  | c0 :: rest =>
    update (p, fNext) (flag true) ;;; update (p, fUnion) c0 ;;;
    update (c0, CNextChunk) (flag false) ;;; update (c0, CUnion) 0 ;;; doUpdate true ;;;
    joinChunk c0 rest
  end.
Fixpoint allocate_chunks (fuel : nat) (a fn pChunk : Z) : M Z :=
  match fuel with
  | O => no_fuel
  | S fuel' =>
    let* iSize := load (pChunk, CSize) in
    let room := wrapU 64 (iSize - sizeof_tagChunkHead) in
    let* more := test (pChunk, CNextChunk) in
    if fn <=? room then
      (if more then
         let* iNextChunk := load (pChunk, CUnion) in
         update (pChunk, CNextChunk) (flag false) ;;; doUpdate true ;;; deallocate_chunks iNextChunk
       else ret tt) ;;; ret RT_OK
    else
      let fn := wrapU 64 (fn - room) in
      if more then let* next := load (pChunk, CUnion) in allocate_chunks fuel' a fn next
      else extend a pChunk CNextChunk CUnion fn
  end.
Definition allocate (a iDataLen : Z) : M Z :=
  let* iSize := load (a, BSize) in
  let fn := wrapU 64 (iSize - sizeof_tagBlockHead) in
  let* more := test (a, BNextChunk) in
  if iDataLen <=? fn then
    (if more then
       let* iNextChunk := load (a, BUnion) in
       update (a, BNextChunk) (flag false) ;;; update (a, BUnion) 0 ;;; doUpdate true ;;; deallocate_chunks iNextChunk
     else ret tt) ;;; ret RT_OK
  else
    let fn := wrapU 64 (iDataLen - fn) in
    if more then
      let* c := load (a, BUnion) in with_fuel (λ fuel, allocate_chunks fuel a fn c)
    else extend a a BNextChunk BUnion fn.

Fixpoint set_loop (fuel : nat) (pData : list Z) (iLeftLen iCopyLen pChunk : Z) : M unit :=
  match fuel with
  | O => no_fuel
  | S fuel' =>
    let* iSize := load (pChunk, CSize) in
    let iUseSize := wrapU 64 (iSize - sizeof_tagChunkHead) in
    let* more := test (pChunk, CNextChunk) in
    if negb more then
      assert_that (iLeftLen <=? iUseSize) ;;;
      let* bs := slice pData iCopyLen iLeftLen in
      write_data pChunk bs ;;; store (pChunk, CUnion) iLeftLen
    else
      let* bs := slice pData iCopyLen iUseSize in
      write_data pChunk bs ;;;
      let* next := load (pChunk, CUnion) in
      set_loop fuel' pData (wrapU 64 (iLeftLen - iUseSize)) (iCopyLen + iUseSize) next
  end.
(** The parts of [set(const void*, size_t, bool, ...)] for the flags and the bytes. *)
Definition set_flags (a : Z) (d only bOnlyKey : bool) : M unit :=
  (if bOnlyKey then
     (if d then delDirtyCount else ret tt) ;;; store (a, BDirty) (flag false) ;;;
     (if negb only then incOnlyKeyCount else ret tt)
   else
     (if negb d then incDirtyCount else ret tt) ;;; store (a, BDirty) (flag true) ;;;
     (if only then delOnlyKeyCount else ret tt)) ;;;
  store (a, BOnlyKey) (flag bOnlyKey).
Definition write_bytes (a : Z) (pData : list Z) : M unit :=
  let iDataLen := zlen pData in
  let* iSize := load (a, BSize) in
  let iUseSize := wrapU 64 (iSize - sizeof_tagBlockHead) in
  let* more := test (a, BNextChunk) in
  if negb more then write_data a pData ;;; store (a, BUnion) iDataLen
  else
    let* bs := slice pData 0 iUseSize in
    write_data a bs ;;;
    let* c := load (a, BUnion) in
    with_fuel (λ fuel, set_loop fuel pData (wrapU 64 (iDataLen - iUseSize)) iUseSize c).
Definition set_block (a : Z) (pData : list Z) (bOnlyKey : bool) : M Z :=
  let* r := allocate a (zlen pData) in
  if negb (r =? RT_OK) then ret r else
  let* d := test (a, BDirty) in
  let* only := test (a, BOnlyKey) in
  set_flags a d only bOnlyKey ;;;
  write_bytes a pData ;;;
  doUpdate true ;;; ret RT_OK.

(** *** Items and searches *)

(** [HashMapLockItem::get(string&, string&)], from what the strings were. *)
Definition item_get_kv (a : Z) (k v : list Z) : M (Z * list Z * list Z) :=
  let* r := get_string a in
  if negb (r.1 =? RT_OK) then ret (r.1, k, v) else
  match Pack.unpack r.2 with
  | None => ret (RT_EXCEPTION_ERR, k, v)
  | Some (k, rest) =>
    let* only := test (a, BOnlyKey) in
    if only then ret (RT_ONLY_KEY, k, []) else
    match Pack.unpack rest with
    | None => ret (RT_EXCEPTION_ERR, k, v)
    | Some (v, _) => ret (RT_OK, k, v)
    end
  end.
Definition item_get_k (a : Z) (k : list Z) : M (Z * list Z) :=
  let* r := get_string a in
  if negb (r.1 =? RT_OK) then ret (r.1, k) else
  match Pack.unpack r.2 with
  | None => ret (RT_EXCEPTION_ERR, k)
  | Some (k, _) => ret (RT_OK, k)
  end.
Definition equal_kv (a : Z) (k v : list Z) : M (bool * list Z * Z) :=
  let* r := item_get_kv a [] v in
  let '(ret_, k1, v) := r in
  ret (((ret_ =? RT_OK) || (ret_ =? RT_ONLY_KEY)) && bool_decide (k = k1), v, ret_).
Definition equal_k (a : Z) (k : list Z) : M (bool * Z) :=
  let* r := item_get_k a [] in
  ret ((r.1 =? RT_OK) && bool_decide (k = r.2), r.1).
Definition item_set_kv (a : Z) (k v : list Z) : M Z := set_block a (Pack.pack k ++ Pack.pack v) false.
Definition item_set_k (a : Z) (k : list Z) : M Z := set_block a (Pack.pack k) true.

Definition hashIndex (k : list Z) : M Z :=
  let* s := get_st in if _hash_size s =? 0 then out_of_bounds else ret (hashf k mod _hash_size s).

(** The searches yield an address, 0 for [end()], and [ret]; that of a value also the
    string [v], which every block that is looked at is read into. *)
Fixpoint find_kv_loop (fuel : nat) (k v : list Z) (mb : Z) : M (Z * list Z * Z) :=
  match fuel with
  | O => no_fuel
  | S fuel' =>
    let* r := equal_kv mb k v in
    let '(eq, v, ret_) := r in
    if (eq : bool) then incHitCount ;;; ret (mb, v, ret_) else
    let* next := load (mb, BBlockNext) in
    if next =? 0 then ret (0, v, ret_) else find_kv_loop fuel' k v next
  end.
Definition find_kv (k : list Z) (index : Z) (v : list Z) : M (Z * list Z * Z) :=
  let* b := load (index, IBlockAddr) in
  if b =? 0 then ret (0, v, RT_OK) else with_fuel (λ fuel, find_kv_loop fuel k v b).
Fixpoint find_k_loop (fuel : nat) (k : list Z) (mb : Z) : M (Z * Z) :=
  match fuel with
  | O => no_fuel
  | S fuel' =>
    let* r := equal_k mb k in
    let '(eq, ret_) := r in
    if (eq : bool) then incHitCount ;;; ret (mb, ret_) else
    let* next := load (mb, BBlockNext) in
    if next =? 0 then ret (0, ret_) else find_k_loop fuel' k next
  end.
Definition find_k (k : list Z) (index : Z) : M (Z * Z) :=
  let* b := load (index, IBlockAddr) in
  if b =? 0 then ret (0, RT_OK) else with_fuel (λ fuel, find_k_loop fuel k b).
(** [find(const string&)] *)
Definition find (k : list Z) : M Z :=
  let* index := hashIndex k in doUpdate false ;;; let* r := find_k k index in ret r.1.

(** *** Operations *)

Definition checkDirty (k : list Z) : M Z :=
  doUpdate false ;;; incGetCount ;;;
  let* index := hashIndex k in
  let* it := find_k k index in
  if negb (it.2 =? RT_OK) then ret it.2 else
  if it.1 =? 0 then ret RT_NO_DATA else
  let* only := test (it.1, BOnlyKey) in
  if only then ret RT_ONLY_KEY else
  let* d := test (it.1, BDirty) in
  ret (if d then RT_DIRTY_DATA else RT_OK).

(** What [setDirty], [setDirtyAfterSync] and [setClean] have in common: the block of a key
    with a value. *)
Definition with_value (k : list Z) (m : Z → M unit) : M Z :=
  doUpdate false ;;;
  let* s := get_st in
  if _bReadOnly s then ret RT_READONLY else
  incGetCount ;;;
  let* index := hashIndex k in
  let* it := find_k k index in
  if negb (it.2 =? RT_OK) then ret it.2 else
  if it.1 =? 0 then ret RT_NO_DATA else
  let* only := test (it.1, BOnlyKey) in
  if only then ret RT_ONLY_KEY else
  m it.1 ;;; ret RT_OK.
Definition setDirty (k : list Z) : M Z := with_value k (λ a, setDirty_block a true ;;; refreshSetList a).
Definition setDirtyAfterSync (k : list Z) : M Z :=
  with_value k (λ a,
    setDirty_block a true ;;;
    let* t := head_ HDirtyTail in
    let* p := load (a, BPrev SetList) in
    if t =? p then store (0, HDirtyTail) a else ret tt).
Definition setClean (k : list Z) : M Z := with_value k (λ a, setDirty_block a false ;;; refreshSetList a ;;; doUpdate true).

(** [v] and [iSyncTime] as they are left. *)
Definition get (k v : list Z) (iSyncTime : Z) : M (Z * list Z * Z) :=
  doUpdate false ;;; incGetCount ;;;
  let* index := hashIndex k in
  let* r := find_kv k index v in
  let '(it, v, ret_) := r in
  if negb (ret_ =? RT_OK) && negb (ret_ =? RT_ONLY_KEY) then ret (ret_, v, iSyncTime) else
  if it =? 0 then ret (RT_NO_DATA, v, iSyncTime) else
  let* only := test (it, BOnlyKey) in
  if only then ret (RT_ONLY_KEY, v, iSyncTime) else
  let* iSyncTime := load (it, BSyncTime) in
  let* s := get_st in
  (if negb (_bReadOnly s) then refreshGetList it else ret tt) ;;;
  ret (RT_OK, v, iSyncTime).

(** The block to write to, and whether it is new. *)
Definition find_or_allocate (k : list Z) (need : Z) : M (Z * (Z * bool)) :=
  let* index := hashIndex k in
  let* it := find_k k index in
  if negb (it.2 =? RT_OK) then ret (it.2, (0, false)) else
  if it.1 =? 0 then
    let* iAddr := allocateMemBlock index (sizeof_tagBlockHead + need) in
    if iAddr =? 0 then ret (RT_NO_MEMORY, (0, false)) else ret (RT_OK, (iAddr, true))
  else ret (RT_OK, (it.1, false)).
(** [set(k, v, bDirty, vtData)]; [now] is [time(NULL)]. *)
Definition set (now : Z) (k v : list Z) (bDirty : bool) : M Z :=
  doUpdate false ;;; incGetCount ;;;
  let* s := get_st in
  if _bReadOnly s then ret RT_READONLY else
  let* r := find_or_allocate k (zlen (Pack.pack k ++ Pack.pack v)) in
  let '(ret_, (a, bNewBlock)) := r in
  if negb (ret_ =? RT_OK) then ret ret_ else
  let* ret_ := item_set_kv a k v in
  if negb (ret_ =? RT_OK) then (if (bNewBlock : bool) then erase_block a else ret tt) ;;; ret ret_ else
  (if bNewBlock then store (a, BSyncTime) now else ret tt) ;;;
  setDirty_block a bDirty ;;; refreshSetList a ;;; ret RT_OK.
(** [set(k, vtData)] *)
Definition set_only (now : Z) (k : list Z) : M Z :=
  doUpdate false ;;; incGetCount ;;;
  let* s := get_st in
  if _bReadOnly s then ret RT_READONLY else
  let* r := find_or_allocate k (zlen (Pack.pack k)) in
  let '(ret_, (a, bNewBlock)) := r in
  if negb (ret_ =? RT_OK) then ret ret_ else
  let* ret_ := item_set_k a k in
  if negb (ret_ =? RT_OK) then (if (bNewBlock : bool) then erase_block a else ret tt) ;;; ret ret_ else
  (if bNewBlock then store (a, BSyncTime) now else ret tt) ;;;
  refreshSetList a ;;; ret RT_OK.

Definition del (k : list Z) (data : BlockData) : M (Z * BlockData) :=
  doUpdate false ;;; incGetCount ;;;
  let* s := get_st in
  if _bReadOnly s then ret (RT_READONLY, data) else
  let* index := hashIndex k in
  let* r := find_kv k index (_value data) in
  let '(it, v, ret_) := r in
  let data := mk_data k v (_dirty data) (_synct data) in
  if negb (ret_ =? RT_OK) && negb (ret_ =? RT_ONLY_KEY) then ret (ret_, data) else
  if it =? 0 then ret (RT_NO_DATA, data) else
  let* r := getBlockData it data in
  erase_block it ;;; ret r.

(** [_iUsedChunk * 100. / allBlockChunkCount()] *)
Definition double_of (z : Z) : spec_float := binary_normalize 53 1024 z 0 false.
Definition below_radio (used all radio : Z) : bool :=
  SFltb (SFdiv 53 1024 (SFmul 53 1024 (double_of used) (double_of 100)) (double_of all)) (double_of radio).
(** [allBlockChunkCount()] is an argument. *)
Definition erase (allBlockChunkCount radio : Z) (data : BlockData) (bCheckDirty : bool) : M (Z * BlockData) :=
  doUpdate false ;;;
  let* s := get_st in
  if _bReadOnly s then ret (RT_READONLY, data) else
  let radio := if radio <=? 0 then 1 else radio in
  let radio := if 100 <=? radio then 100 else radio in
  let* a := head_ (HTail GetList) in
  if a =? 0 then ret (RT_OK, data) else
  let* used := head_ HUsedChunk in
  if below_radio used allBlockChunkCount radio then ret (RT_OK, data) else
  let* d := (if bCheckDirty then test (a, BDirty) else ret false) in
  if d then
    let* t := head_ HDirtyTail in
    (if t =? 0 then store (0, HDirtyTail) a else ret tt) ;;;
    let* h := head_ (HHead GetList) in
    if h =? a then ret (RT_OK, data) else
    let* b := head_ HBackupTail in
    (if b =? a then let* p := load (a, BPrev GetList) in update (0, HBackupTail) p else ret tt) ;;;
    let* p := load (a, BPrev GetList) in
    update (0, HTail GetList) p ;;; update (p, BNext GetList) 0 ;;; update (a, BPrev GetList) 0 ;;;
    update (a, BNext GetList) h ;;; update (h, BPrev GetList) a ;;; update (0, HHead GetList) a ;;;
    doUpdate true ;;; ret (RT_DIRTY_DATA, data)
  else
    let* r := getBlockData a data in
    erase_block a ;;;
    ret (if r.1 =? RT_OK then RT_ERASE_OK else r.1, r.2).

(** [sync()] and [sync(time_t, BlockData&)] *)
Definition sync_begin : M unit := doUpdate false ;;; let* t := head_ HDirtyTail in store (0, HSyncTail) t.
Definition dirty_tail_back (a : Z) : M unit :=
  let* t := head_ HDirtyTail in
  if t =? a then let* p := load (a, BPrev SetList) in store (0, HDirtyTail) p else ret tt.
Definition sync (iNowTime : Z) (data : BlockData) : M (Z * BlockData) :=
  doUpdate false ;;;
  let* a := head_ HSyncTail in
  if a =? 0 then ret (RT_OK, data) else
  let* p := load (a, BPrev SetList) in
  store (0, HSyncTail) p ;;;
  let* d := test (a, BDirty) in
  if negb d then dirty_tail_back a ;;; ret (RT_NONEED_SYNC, data) else
  let* r := getBlockData a data in
  if negb (r.1 =? RT_OK) then dirty_tail_back a ;;; ret r else
  let* s := get_st in
  if _iSyncTime s + _synct r.2 <? iNowTime then
    setDirty_block a false ;;; store (a, BSyncTime) iNowTime ;;; dirty_tail_back a ;;; ret (RT_NEED_SYNC, r.2)
  else ret (RT_NONEED_SYNC, r.2).

(** [backup(bool)] and [backup(BlockData&)] *)
Definition backup_begin (bForceFromBegin : bool) : M unit :=
  doUpdate false ;;;
  let* b := head_ HBackupTail in
  if bForceFromBegin || (b =? 0) then let* t := head_ (HTail GetList) in store (0, HBackupTail) t else ret tt.
Definition backup (data : BlockData) : M (Z * BlockData) :=
  doUpdate false ;;;
  let* a := head_ HBackupTail in
  if a =? 0 then ret (RT_OK, data) else
  let* r := getBlockData a data in
  let* p := load (a, BPrev GetList) in
  store (0, HBackupTail) p ;;; doUpdate true ;;;
  ret (if r.1 =? RT_OK then RT_NEED_BACKUP else r.1, r.2).

(** *** Iterators

    The address an iterator is at, 0 at the end. *)
Fixpoint first_used (idx : list Z) : M Z :=
  match idx with
  | [] => ret 0
  | i :: idx' => let* b := load (i, IBlockAddr) in if b =? 0 then first_used idx' else ret b
  end.
Fixpoint getLastBlockHead (fuel : nat) (iHead : Z) : M Z :=
  match fuel with
  | O => no_fuel
  | S fuel' => let* next := load (iHead, BBlockNext) in if next =? 0 then ret iHead else getLastBlockHead fuel' next
  end.
Definition nextItem (a : Z) : M Z :=
  let* index := load (a, BIndex) in
  let* next := load (a, BBlockNext) in
  if negb (next =? 0) then ret next else
  let* s := get_st in first_used (seqZ (index + 1) (_hash_size s - (index + 1))).
Definition nextItem_in (c : chain) (a : Z) : M Z := load (a, BNext c).
Definition prevItem (a : Z) : M Z :=
  let* index := load (a, BIndex) in
  let* prev := load (a, BBlockPrev) in
  if negb (prev =? 0) then ret prev else
  let* b := first_used (reverse (seqZ 0 index)) in
  if b =? 0 then ret 0 else with_fuel (λ fuel, getLastBlockHead fuel b).
Definition prevItem_in (c : chain) (a : Z) : M Z := load (a, BPrev c).
Definition begin_ : M Z := doUpdate false ;;; let* s := get_st in first_used (seqZ 0 (_hash_size s)).
Definition rbegin : M Z :=
  doUpdate false ;;; let* s := get_st in
  let* b := first_used (reverse (seqZ 0 (_hash_size s))) in
  if b =? 0 then ret 0 else with_fuel (λ fuel, getLastBlockHead fuel b).
Definition begin_in (c : chain) : M Z := doUpdate false ;;; head_ (HHead c).
Definition rbegin_in (c : chain) : M Z := doUpdate false ;;; head_ (HTail c).
Definition beginDirty : M Z := doUpdate false ;;; head_ HDirtyTail.

(** The records of a bucket: [HashMapItem::get]. *)
Fixpoint item_data (fuel : nat) (a : Z) : M (list BlockData) :=
  if a =? 0 then ret [] else
  match fuel with
  | O => no_fuel
  | S fuel' =>
    let* r := getBlockData a no_data in
    let* next := load (a, BBlockNext) in
    let* l := item_data fuel' next in
    ret (if r.1 =? RT_OK then r.2 :: l else l)
  end.

(** [recover]: a block that cannot be read is erased, and the bucket begun again. *)
Fixpoint recover_loop (fuel : nat) (i : Z) (bRepair : bool) (a e : Z) : M Z :=
  if a =? 0 then ret e else
  match fuel with
  | O => no_fuel
  | S fuel' =>
    let* r := getBlockData a no_data in
    let bad := negb (r.1 =? RT_OK) && negb (r.1 =? RT_ONLY_KEY) in
    let e := if bad then e + 1 else e in
    if bad && bRepair then
      erase_block a ;;; let* a := load (i, IBlockAddr) in recover_loop fuel' i bRepair a e
    else let* next := load (a, BBlockNext) in recover_loop fuel' i bRepair next e
  end.
Definition recover (i : Z) (bRepair : bool) : M Z :=
  doUpdate false ;;;
  let* s := get_st in
  if _hash_size s <=? i then ret 0 else
  let* a := load (i, IBlockAddr) in
  with_fuel (λ fuel, recover_loop (fuel * fuel) i bRepair a 0).
(** [HashMapItem::setDirty] *)
Fixpoint item_setDirty_loop (fuel : nat) (a : Z) : M unit :=
  if a =? 0 then ret tt else
  match fuel with
  | O => no_fuel
  | S fuel' =>
    let* only := test (a, BOnlyKey) in
    (if negb only then doUpdate false ;;; setDirty_block a true ;;; refreshSetList a else ret tt) ;;;
    let* next := load (a, BBlockNext) in
    item_setDirty_loop fuel' next
  end.
Definition item_setDirty (i : Z) : M Z :=
  let* s := get_st in
  if _bReadOnly s then ret RT_READONLY else
  let* a := load (i, IBlockAddr) in
  with_fuel (λ fuel, item_setDirty_loop fuel a) ;;; ret RT_OK.

(** *** A new map *)

Definition head_fields : list field :=
  [HHead SetList; HHead GetList; HTail SetList; HTail GetList; HDirtyTail; HSyncTail; HBackupTail;
   HElementCount; HDirtyCount; HOnlyKeyCount; HUsedChunk; HGetCount; HHitCount].
(** Members of the head, and the items of the hash table. *)
Definition zero_head (fs : list field) (m : gmap loc Z) : gmap loc Z := foldr (λ f m, <[(0, f) := 0]> m) m fs.
Definition zero_items (n : Z) (m : gmap loc Z) : gmap loc Z :=
  foldr (λ i m, <[(i, IBlockAddr) := 0]> (<[(i, IListCount) := 0]> m)) m (seqZ 0 n).
(** [clear]; the rest of the memory is the allocator's again. *)
Definition clear (rebuild : prog Al Empty_set unit) : M unit :=
  let* s := get_st in
  let only := default 0 (mem s !! (0, HOnlyKeyCount)) in
  put_st (set_data ∅ (set_mem (<[(0, HOnlyKeyCount) := only]> (zero_items (_hash_size s) (zero_head head_fields ∅))) s)) ;;;
  on_alloc rebuild.
End HashMap.

Definition isPrimeNumber (n : Z) : bool := forallb (λ i, negb (n mod i =? 0)) (seqZ 2 (Z.sqrt n - 1)).
Fixpoint getMinPrimeNumber (fuel : nat) (n : Z) : option Z :=
  match fuel with
  | O => None
  | S fuel' => if isPrimeNumber n then Some n else getMinPrimeNumber fuel' (n + 1)
  end.
(** How many hash buckets [create] makes; the sizes of the heads are those of 64 bits. *)
Definition hash_count (fuel : nat) (iSize iMinDataSize iMaxDataSize : Z) (fRadio : spec_float) : option Z :=
  let iBlockSize := (iMinDataSize + iMaxDataSize) / 2 + sizeof_tagBlockHead in
  getMinPrimeNumber fuel ((iSize - 16) / (MemChunk.mul_factor iBlockSize fRadio + 12)).
Definition sizeof_tagMapHead : Z := 189.
Definition sizeof_tagModifyHead : Z := 349.
Definition sizeof_tagHashItem : Z := 12.
(** What [create] leaves as it is in the memory: [_iOnlyKeyCount] and [tagModifyHead]. *)
Record leftover := mk_leftover { old_onlykey : Z; old_status : Z; old_journal : list (loc * Z) }.
(** The head and the items. *)
Definition new {Al} (pAddr n : Z) (old : leftover) (a : Al) : t :=
  mk pAddr n false true 0 10 600
    (<[(0, HOnlyKeyCount) := old_onlykey old]> (zero_items n (zero_head head_fields ∅))) ∅ (old_status old) (old_journal old) a [].
(** [false] is the exception of the map, [true] that of [TC_MemVector]. *)
Definition create (fuel : nat) (pAddr iSize iMinDataSize iMaxDataSize : Z) (fFactor fRadio : spec_float) (old : leftover) :
    outcome bool (t (Al := MemMultiChunkAllocator.t)) :=
  if iSize <? sizeof_tagHashItem + sizeof_tagMapHead + sizeof_tagModifyHead + MemMultiChunkAllocator.getHeadSize + 10 then Throw false else
  if (iMinDataSize =? 0) || (iMaxDataSize =? 0) || SFltb fFactor (double_of 1) then Throw false else
  match hash_count fuel iSize iMinDataSize iMaxDataSize fRadio with
  | None => NoFuel
  | Some n =>
    if n =? 0 then Throw true else
    let pDataAddr := pAddr + sizeof_tagMapHead + sizeof_tagModifyHead + (24 + n * sizeof_tagHashItem) in
    match (MemMultiChunkAllocator.create pDataAddr (wrapU 64 (iSize - (pDataAddr - pAddr)))
      (sizeof_tagBlockHead + iMinDataSize) (sizeof_tagBlockHead + iMaxDataSize) fFactor tt).1 with
    | Ok g => Ok (new pAddr n old [g])
    | Throw e => match e with end
    | OutOfBounds => OutOfBounds
    | AssertFailed => AssertFailed
    | NoFuel => NoFuel
    end
  end.
End HashMap.
