(* ===== verification/HashMapLists.v ===== *)
(** Doubly linked lists in the memory of [HashMap], as functions of the list of their
    blocks, and what the writes of a journal make of them. *)
From stdpp Require Import prelude gmap list.
From Stdlib Require Import ZArith Lia.
From S2P Require Import Prelude Bytes HashMap.

(** ** Neighbours

    What comes first, last, after and before a block; 0 is no block. *)
Definition hd0 (l : list Z) : Z := default 0 (head l).
Fixpoint nxt (l : list Z) (x : Z) : Z :=
  match l with [] => 0 | y :: l' => if decide (y = x) then hd0 l' else nxt l' x end.
Definition lst (l : list Z) : Z := hd0 (reverse l).
Definition prv (l : list Z) (x : Z) : Z := nxt (reverse l) x.

Arguments lst : simpl never.
Arguments prv : simpl never.

Section neighbours.
Implicit Types l : list Z.

Lemma hd0_app l l' : hd0 (l ++ l') = match l with [] => hd0 l' | _ => hd0 l end.
Proof. by destruct l. Qed.
Lemma lst_snoc l x : lst (l ++ [x]) = x.
Proof. unfold lst. by rewrite reverse_app. Qed.
Lemma lst_nil : lst [] = 0.
Proof. done. Qed.
Lemma lst_app l l' : lst (l ++ l') = match l' with [] => lst l | _ => lst l' end.
Proof.
  destruct l' as [|x l']; [by rewrite app_nil_r |]. unfold lst. rewrite reverse_app, hd0_app.
  destruct (reverse (x :: l')) eqn:E; [|done]. apply (f_equal length) in E. by rewrite length_reverse in E.
Qed.
Lemma lst_cons x l : lst (x :: l) = match l with [] => x | _ => lst l end.
Proof. change (x :: l) with ([x] ++ l). rewrite lst_app. by destruct l. Qed.
Lemma hd0_in l : hd0 l = 0 ∨ hd0 l ∈ l.
Proof. destruct l; [by left | right; left]. Qed.
Lemma lst_in l : lst l = 0 ∨ lst l ∈ l.
Proof. unfold lst. destruct (hd0_in (reverse l)) as [?|?]; [by left | right; by apply elem_of_reverse]. Qed.
Lemma hd0_zero l : 0 ∉ l → hd0 l = 0 ↔ l = [].
Proof. destruct l as [|x l]; [done |]. rewrite not_elem_of_cons. cbn. naive_solver. Qed.
Lemma lst_zero l : 0 ∉ l → lst l = 0 ↔ l = [].
Proof.
  intros H. unfold lst. rewrite hd0_zero; [|by rewrite elem_of_reverse]. split; [|by intros ->].
  intros E. apply (f_equal length) in E. rewrite length_reverse in E. by destruct l.
Qed.

Lemma nxt_app_r l l' x : x ∉ l → nxt (l ++ l') x = nxt l' x.
Proof. induction l as [|y l IH]; [done |]. rewrite not_elem_of_cons. intros [Hne Hl]. cbn. rewrite decide_False by done. auto. Qed.
Lemma nxt_mid l a l' : a ∉ l → nxt (l ++ a :: l') a = hd0 l'.
Proof. intros H. rewrite nxt_app_r by done. cbn. by rewrite decide_True. Qed.
Lemma prv_mid l a l' : a ∉ l' → prv (l ++ a :: l') a = lst l.
Proof. intros H. unfold prv. rewrite reverse_app, reverse_cons, <- app_assoc. apply nxt_mid. by rewrite elem_of_reverse. Qed.
Lemma nxt_cons a l x : a ≠ x → nxt (a :: l) x = nxt l x.
Proof. intros H. cbn. by rewrite decide_False. Qed.
Lemma nxt_here a l : nxt (a :: l) a = hd0 l.
Proof. cbn. by rewrite decide_True. Qed.
Lemma nxt_in l x : nxt l x = 0 ∨ nxt l x ∈ l.
Proof.
  induction l as [|y l IH]; cbn; [by left |]. case_decide.
  - destruct (hd0_in l); [by left | right; by right].
  - destruct IH; [by left | right; by right].
Qed.

(** Without [a], its neighbours are each other's. *)
Lemma nxt_remove l a l' x : NoDup (l ++ a :: l') → x ∈ l ++ l' → nxt (l ++ l') x = if decide (l ≠ [] ∧ x = lst l) then hd0 l' else nxt (l ++ a :: l') x.
Proof.
  intros Hnd Hx. apply NoDup_app in Hnd as (Hl & Hd & Hl'). destruct l as [|y l _] using rev_ind.
  - cbn. rewrite decide_False by naive_solver. cbn. rewrite decide_False; [done |]. intros ->. by apply NoDup_cons in Hl' as [? _].
  - rewrite lst_snoc, <- !app_assoc. apply NoDup_app in Hl as (Hl & Hdy & _). destruct (decide (x ∈ l)) as [Hxl|Hxl].
    + rewrite decide_False by (intros [_ ->]; apply (Hdy y Hxl); by left). clear -Hxl.
      induction l as [|z l IH]; [by apply not_elem_of_nil in Hxl |]. cbn. case_decide; [by destruct l |]. apply elem_of_cons in Hxl as [->|Hxl]; [done | auto].
    + rewrite !(nxt_app_r l) by done. destruct (decide (x = y)) as [->|Hne].
      * rewrite decide_True by (split; [by destruct l | done]). apply nxt_here.
      * assert (a ≠ x).
        { intros ->. rewrite !elem_of_app, list_elem_of_singleton in Hx. destruct Hx as [[?|?]|Hx]; [done.. |]. by apply NoDup_cons in Hl' as [? _]. }
        rewrite decide_False by naive_solver. cbn [app]. by rewrite !nxt_cons by congruence.
Qed.
Lemma prv_remove l a l' x : NoDup (l ++ a :: l') → x ∈ l ++ l' → prv (l ++ l') x = if decide (l' ≠ [] ∧ x = hd0 l') then lst l else prv (l ++ a :: l') x.
Proof.
  intros Hnd Hx. unfold prv, lst. rewrite !reverse_app, reverse_cons, <- app_assoc. cbn.
  rewrite (nxt_remove (reverse l') a (reverse l)).
  - assert (E1 : lst (reverse l') = hd0 l') by (unfold lst; by rewrite reverse_involutive).
    rewrite E1. apply decide_ext. split; intros [Hn ->]; (split; [|done]); intros E2; apply Hn; [rewrite E2 |]; [done |].
    apply (f_equal length) in E2. rewrite length_reverse in E2. by destruct l'.
  - assert (E : reverse l' ++ a :: reverse l = reverse (l ++ a :: l')) by (by rewrite reverse_app, reverse_cons, <- app_assoc).
    by rewrite E, reverse_Permutation.
  - rewrite <- reverse_app. by apply elem_of_reverse.
Qed.
Lemma prv_cons a l x : x ∈ l → NoDup (a :: l) → prv (a :: l) x = if decide (x = hd0 l) then a else prv l x.
Proof.
  intros Hx Hnd. pose proof (prv_remove [] a l x Hnd Hx) as E. cbn [app] in E. destruct l as [|y l]; [by apply not_elem_of_nil in Hx |].
  rewrite E. change (hd0 (y :: l)) with y. destruct (decide (x = y)) as [->|Hne].
  - apply NoDup_cons in Hnd as [Hay Hnd]. apply NoDup_cons in Hnd as [Hy _]. change (a :: y :: l) with ([a] ++ y :: l). by rewrite prv_mid.
  - by rewrite decide_False by naive_solver.
Qed.
Lemma prv_here a l : a ∉ l → prv (a :: l) a = 0.
Proof. intros H. change (a :: l) with ([] ++ a :: l). by rewrite prv_mid. Qed.
End neighbours.

(** ** Writes *)

Definition apply_writes (W : list (loc * Z)) (m : gmap loc Z) : gmap loc Z := foldl (λ m w, <[w.1 := w.2]> m) m W.

(** The parts of the memory that change together. *)
Inductive part := PList (c : chain) | PBucket | PHead (f : field) | PEntry | PChunk.
#[export] Instance part_eq : EqDecision part.
Proof. solve_decision. Defined.
Definition part_of (f : field) : part :=
  match f with
  | HHead c | HTail c | BNext c | BPrev c => PList c
  | HDirtyTail | HSyncTail | HBackupTail | HElementCount | HDirtyCount | HOnlyKeyCount | HUsedChunk | HGetCount | HHitCount => PHead f
  | IBlockAddr | IListCount | BBlockNext | BBlockPrev => PBucket
  | BIndex | BSyncTime | BDirty | BOnlyKey => PEntry
  | BSize | BNextChunk | BUnion | CSize | CNextChunk | CUnion => PChunk
  end.
(** Writes to one part only. *)
Definition only (p : part) (W : list (loc * Z)) : Prop := Forall (λ w, part_of w.1.2 = p) W.
Definition at_part (p : part) (W : list (loc * Z)) : list (loc * Z) := filter (λ w, part_of w.1.2 = p) W.

Section writes.
Implicit Types (m : gmap loc Z) (W : list (loc * Z)).

Lemma apply_app W W' m : apply_writes (W ++ W') m = apply_writes W' (apply_writes W m).
Proof. apply foldl_app. Qed.
Lemma apply_is_Some W : ∀ m l, is_Some (m !! l) → is_Some (apply_writes W m !! l).
Proof.
  induction W as [|[l' v] W IH]; intros m l Hl; [done |]. apply (IH (<[l' := v]> m)). destruct (decide (l' = l)) as [->|Hne]; [rewrite lookup_insert_eq; by eexists | by rewrite lookup_insert_ne].
Qed.
Lemma apply_notin W : ∀ m l, Forall (λ w, w.1 ≠ l) W → apply_writes W m !! l = m !! l.
Proof. induction W as [|[l' v] W IH]; intros m l Hl; [done |]. apply Forall_cons in Hl as [Hne Hl]. etrans; [by apply (IH (<[l' := v]> m)) | by apply lookup_insert_ne]. Qed.
(** A part changes by the writes to it. *)
Lemma apply_part W p x f : ∀ m, part_of f = p → apply_writes W m !! (x, f) = apply_writes (at_part p W) m !! (x, f).
Proof.
  intros m Hf. assert (Hgen : ∀ m', m !! (x, f) = m' !! (x, f) → apply_writes W m !! (x, f) = apply_writes (at_part p W) m' !! (x, f)); [|by apply Hgen].
  revert m. induction W as [|[[y g] v] W IH]; intros m m' Hm; [done |]. unfold at_part. rewrite filter_cons. case_decide as Hg; cbn in Hg |- *.
  - apply IH. destruct (decide ((y, g) = (x, f))) as [E|Hne]; [by rewrite E, !lookup_insert_eq | by rewrite !lookup_insert_ne].
  - apply IH. rewrite lookup_insert_ne; [done |]. intros [= <- <-]. by rewrite Hf in Hg.
Qed.
Lemma at_part_app p W W' : at_part p (W ++ W') = at_part p W ++ at_part p W'.
Proof. apply filter_app. Qed.
Lemma at_part_only p W : only p W → at_part p W = W.
Proof. unfold at_part. induction 1 as [|w W Hw _ IH]; [done |]. rewrite filter_cons, decide_True by done. by f_equal. Qed.
Lemma at_part_other p q W : only q W → q ≠ p → at_part p W = [].
Proof. unfold at_part. intros H Hne. induction H as [|w W Hw _ IH]; [done |]. rewrite filter_cons, decide_False by congruence. done. Qed.
End writes.
(** Simplifies the writes to a part of a list of writes. *)
Ltac parts :=
  rewrite ?at_part_app;
  repeat match goal with
  | |- context [at_part ?p ?W] =>
    first [ rewrite (at_part_only p W) by eassumption
          | erewrite (at_part_other p _ W); [| eassumption | discriminate]
          | match goal with H : ∀ p, _ → _ → at_part p W = [] |- _ => rewrite (H p) by discriminate end ]
  end;
  rewrite ?app_nil_l, ?app_nil_r.

(** ** Lists in memory *)

Record dll (c : chain) (m : gmap loc Z) (l : list Z) : Prop := {
  dll_head : m !! (0, HHead c) = Some (hd0 l);
  dll_tail : m !! (0, HTail c) = Some (lst l);
  dll_next x : x ∈ l → m !! (x, BNext c) = Some (nxt l x);
  dll_prev x : x ∈ l → m !! (x, BPrev c) = Some (prv l x)
}.
Record bucket_ok (i : Z) (m : gmap loc Z) (l : list Z) : Prop := {
  bk_head : m !! (i, IBlockAddr) = Some (hd0 l);
  bk_count : m !! (i, IListCount) = Some (wrapU 32 (zlen l));
  bk_next x : x ∈ l → m !! (x, BBlockNext) = Some (nxt l x);
  bk_prev x : x ∈ l → m !! (x, BBlockPrev) = Some (prv l x)
}.

Section dll.
Context (c : chain).
Implicit Types (m : gmap loc Z) (l : list Z).

Lemma dll_ext m m' l : (∀ x f, part_of f = PList c → m' !! (x, f) = m !! (x, f)) → dll c m l → dll c m' l.
Proof. intros E []. constructor; intros; rewrite E; auto. Qed.
Lemma dll_writes W W' m l : dll c (apply_writes W' m) l → at_part (PList c) W = W' → dll c (apply_writes W m) l.
Proof. intros H <-. revert H. apply dll_ext. intros x f Hf. by apply apply_part. Qed.

Definition writes_unlink (l : list Z) (a : Z) (l' : list Z) : list (loc * Z) :=
  match l, l' with
  | [], [] => [((0, HHead c), 0); ((0, HTail c), 0)]
  | [], _ => [((0, HHead c), hd0 l'); ((hd0 l', BPrev c), 0)]
  | _, [] => [((0, HTail c), lst l); ((lst l, BNext c), 0)]
  | _, _ => [((lst l, BNext c), hd0 l'); ((hd0 l', BPrev c), lst l)]
  end.
Lemma writes_unlink_only l a l' : only (PList c) (writes_unlink l a l').
Proof. destruct l, l'; repeat constructor. Qed.
Lemma dll_unlink m l a l' : NoDup (l ++ a :: l') → 0 ∉ l ++ a :: l' → dll c m (l ++ a :: l') → dll c (apply_writes (writes_unlink l a l') m) (l ++ l').
Proof.
  intros Hnd H0 []. pose proof (nxt_remove l a l') as Hn. pose proof (prv_remove l a l') as Hp.
  assert (Hin : ∀ x, x ∈ l ++ l' → x ∈ l ++ a :: l') by (intros x; rewrite !elem_of_app, elem_of_cons; tauto).
  rewrite hd0_app in dll_head0. rewrite lst_app in dll_tail0.
  assert (Hz : ∀ x, x ∈ l ++ l' → x ≠ 0) by (intros x Hx ->; by apply H0, Hin).
  assert (Ht : lst (l ++ l') = match l' with [] => lst l | _ => lst (a :: l') end) by (rewrite lst_app; destruct l' as [|z l']; [done | by rewrite (lst_cons a (z :: l'))]).
  assert (Hh : hd0 (l ++ l') = match l with [] => hd0 l' | _ => hd0 l end) by apply hd0_app.
  destruct l as [|y l], l' as [|z l']; cbn [writes_unlink apply_writes foldl fst snd];
    (constructor; [rewrite Hh; by simplify_map_eq | rewrite Ht; by simplify_map_eq | |]); intros x Hx;
    first [by apply not_elem_of_nil in Hx | rewrite ?lookup_insert, ?Hn, ?Hp by done; repeat case_decide; simplify_eq; naive_solver].
Qed.

Definition writes_push (l : list Z) (a : Z) : list (loc * Z) :=
  match l with
  | [] => [((0, HHead c), a); ((0, HTail c), a)]
  | h :: _ => [((a, BNext c), h); ((h, BPrev c), a); ((0, HHead c), a)]
  end.
Lemma writes_push_only l a : only (PList c) (writes_push l a).
Proof. destruct l; repeat constructor. Qed.
Lemma dll_push m l a : a ∉ l → NoDup l → dll c m l → m !! (a, BNext c) = Some 0 → m !! (a, BPrev c) = Some 0 →
  dll c (apply_writes (writes_push l a) m) (a :: l).
Proof.
  intros Ha Hnd [] Hn Hp. assert (Hnd' : NoDup (a :: l)) by by apply NoDup_cons.
  assert (Hpl : ∀ x, x ∈ l → prv (a :: l) x = if decide (x = hd0 l) then a else prv l x) by (intros; by apply prv_cons).
  assert (Hp0 : prv (a :: l) a = 0) by by apply prv_here. assert (Ht : lst (a :: l) = match l with [] => a | _ => lst l end) by apply lst_cons.
  destruct l as [|h l]; cbn [writes_push apply_writes foldl fst snd]; (constructor; [by simplify_map_eq | rewrite Ht; by simplify_map_eq | |]); intros x Hx.
  - apply list_elem_of_singleton in Hx as ->. rewrite nxt_here. by simplify_map_eq.
  - apply list_elem_of_singleton in Hx as ->. rewrite Hp0. by simplify_map_eq.
  - rewrite !lookup_insert. apply elem_of_cons in Hx as [->|Hx]; [rewrite nxt_here; repeat case_decide; by simplify_eq |].
    rewrite nxt_cons by (intros ->; done). repeat case_decide; simplify_eq; auto.
  - rewrite !lookup_insert. apply elem_of_cons in Hx as [->|Hx]; [rewrite Hp0; repeat case_decide; simplify_eq; try done; by destruct Ha; left |].
    rewrite Hpl by done. change (hd0 (h :: l)) with h. repeat case_decide; simplify_eq; auto.
Qed.

Definition writes_front (l : list Z) (a : Z) (l' : list Z) : list (loc * Z) :=
  [((a, BNext c), hd0 l); ((hd0 l, BPrev c), a); ((0, HHead c), a); ((a, BPrev c), 0); ((lst l, BNext c), hd0 l')] ++
  match l' with [] => [((0, HTail c), lst l)] | _ => [((hd0 l', BPrev c), lst l)] end.
Lemma writes_front_only l a l' : only (PList c) (writes_front l a l').
Proof. destruct l'; repeat constructor. Qed.
Lemma dll_front m l a l' : l ≠ [] → NoDup (l ++ a :: l') → 0 ∉ l ++ a :: l' → dll c m (l ++ a :: l') → dll c (apply_writes (writes_front l a l') m) (a :: l ++ l').
Proof.
  intros Hl Hnd H0 []. pose proof (nxt_remove l a l') as Hn. pose proof (prv_remove l a l') as Hp.
  assert (Hin : ∀ x, x ∈ l ++ l' → x ∈ l ++ a :: l') by (intros x; rewrite !elem_of_app, elem_of_cons; tauto).
  assert (Hz : ∀ x, x ∈ l ++ l' → x ≠ 0) by (intros x Hx ->; by apply H0, Hin).
  assert (Ha : a ∉ l ++ l') by (apply NoDup_app in Hnd as (_ & Hd & Hnd); apply NoDup_cons in Hnd as [? _]; rewrite elem_of_app; intros [?|?]; [by apply (Hd a); [| left] | done]).
  assert (Hlh : hd0 l ∈ l) by (destruct l; [done | left]).
  assert (Hll : lst l ∈ l) by (destruct (lst_in l) as [E|?]; [apply lst_zero in E; [done | rewrite elem_of_app in H0; tauto] | done]).
  assert (Hal : a ≠ hd0 l ∧ a ≠ lst l) by (rewrite elem_of_app in Ha; split; intros ->; tauto).
  assert (Hne : ∀ x, x ∈ l ++ l' → x ≠ a) by (intros x Hx ->; done).
  assert (Hp' : ∀ x, x ∈ l ++ l' → prv (a :: l ++ l') x = if decide (x = hd0 l) then a else prv (l ++ l') x).
  { intros x Hx. rewrite prv_cons; [|done |]. { destruct l; done. } apply NoDup_cons. split; [done |].
    apply NoDup_app in Hnd as (H1 & H2 & H3). apply NoDup_cons in H3 as [_ H3]. apply NoDup_app. split_and!; [done | | done]. intros y Hy Hy'. apply (H2 y Hy). by right. }
  assert (Ht : lst (a :: l ++ l') = match l' with [] => lst l | _ => lst l' end) by (rewrite lst_cons; destruct l; [done | by rewrite lst_app]).
  assert (Hto : lst (l ++ a :: l') = match l' with [] => a | _ => lst l' end) by (rewrite lst_app; apply lst_cons).
  assert (Hlz : l' ≠ [] → hd0 l' ∈ l') by (destruct l'; [done | left]).
  assert (Hp0 : prv (a :: l ++ l') a = 0) by by apply prv_here.
  assert (Hhh : hd0 (l ++ l') = hd0 l) by (destruct l; done). assert (Hho : hd0 (l ++ a :: l') = hd0 l) by (destruct l; done).
  unfold writes_front. rewrite apply_app. unfold apply_writes at 2. cbn [foldl fst snd].
  constructor.
  - destruct l'; cbn; by simplify_map_eq.
  - rewrite Ht. destruct l'; cbn; simplify_map_eq; [done | congruence].
  - intros x Hx. apply elem_of_cons in Hx as [->|Hx].
    + rewrite nxt_here, Hhh. destruct l'; cbn; rewrite !lookup_insert; repeat case_decide; simplify_eq; naive_solver.
    + rewrite nxt_cons by (intros ->; done). rewrite Hn by done. pose proof (Hne x Hx). destruct l' as [|z l']; cbn [apply_writes foldl fst snd]; rewrite !lookup_insert; repeat case_decide; simplify_eq; naive_solver.
  - intros x Hx. apply elem_of_cons in Hx as [->|Hx].
    + rewrite Hp0. destruct l' as [|z l']; cbn [apply_writes foldl fst snd]; rewrite !lookup_insert; repeat case_decide; simplify_eq; try done.
      all: exfalso; rewrite elem_of_app in Ha; naive_solver.
    + rewrite Hp', Hp by done. pose proof (Hne x Hx). destruct l' as [|z l']; cbn [apply_writes foldl fst snd]; rewrite !lookup_insert; repeat case_decide; simplify_eq; auto.
      all: try (exfalso; match goal with H : ¬ (_ ∧ _) |- _ => by apply H end); try (destruct_and?; change (hd0 (z :: l')) with z in *; congruence); try (destruct_and?; congruence).
      exfalso. apply NoDup_app in Hnd as (_ & Hd & _). apply (Hd (hd0 l) Hlh). right. match goal with H : hd0 (z :: l') = hd0 l |- _ => rewrite <- H end. left.
Qed.
End dll.

(** ** Hash buckets *)

Lemma wrapU_plus w x y : 0 ≤ w → wrapU w (wrapU w x + y) = wrapU w (x + y).
Proof. intros _. apply Zplus_mod_idemp_l. Qed.

Section bucket.
Context (i : Z).
Implicit Types (m : gmap loc Z) (l : list Z).

Lemma bucket_ext m m' l : (∀ x f, part_of f = PBucket → m' !! (x, f) = m !! (x, f)) → bucket_ok i m l → bucket_ok i m' l.
Proof. intros E []. constructor; intros; rewrite E; auto. Qed.

Definition writes_bucket_push (l : list Z) (a : Z) : list (loc * Z) :=
  ((i, IListCount), wrapU 32 (wrapU 32 (zlen l) + 1)) ::
  match l with
  | [] => [((i, IBlockAddr), a); ((a, BBlockNext), 0); ((a, BBlockPrev), 0)]
  | h :: _ => [((h, BBlockPrev), a); ((a, BBlockNext), h); ((i, IBlockAddr), a); ((a, BBlockPrev), 0)]
  end.
Definition writes_bucket_unlink (l : list Z) (a : Z) (l' : list Z) : list (loc * Z) :=
  match l with [] => [] | _ => [((lst l, BBlockNext), hd0 l')] end ++
  match l' with [] => [] | _ => [((hd0 l', BBlockPrev), lst l)] end ++
  [((i, IListCount), wrapU 32 (wrapU 32 (zlen (l ++ a :: l')) - 1))] ++
  match l with [] => [((i, IBlockAddr), hd0 l')] | _ => [] end.
(** Where writes to the bucket [l] go. *)
Definition in_bucket (l : list Z) (W : list (loc * Z)) : Prop :=
  Forall (λ w, (w.1.2 = IBlockAddr ∨ w.1.2 = IListCount) ∧ w.1.1 = i ∨ (w.1.2 = BBlockNext ∨ w.1.2 = BBlockPrev) ∧ w.1.1 ∈ l) W.
Lemma in_bucket_only l W : in_bucket l W → only PBucket W.
Proof. intros H. eapply Forall_impl; [exact H |]. intros [[x f] v]. cbn. intros [[[->| ->] _]|[[->| ->] _]]; done. Qed.
Lemma writes_bucket_push_in l a : in_bucket (a :: l) (writes_bucket_push l a).
Proof. unfold in_bucket, writes_bucket_push. destruct l as [|h l]; rewrite !Forall_cons, Forall_nil; cbn; rewrite ?elem_of_cons; split_and!; tauto. Qed.
Lemma writes_bucket_unlink_in l a l' : 0 ∉ l → in_bucket (l ++ a :: l') (writes_bucket_unlink l a l').
Proof.
  intros H0. assert (l ≠ [] → lst l ∈ l) by (intros Hl; destruct (lst_in l) as [E|?]; [by apply lst_zero in E | done]).
  unfold in_bucket, writes_bucket_unlink. repeat (apply Forall_app; split); [destruct l | destruct l' | | destruct l]; rewrite ?Forall_cons, ?Forall_nil; cbn; rewrite ?elem_of_cons, ?elem_of_app, ?elem_of_cons; split_and?; try tauto.
  right. split; [tauto |]. assert (lst (z :: l) ∈ z :: l) as Hin by by apply H. rewrite elem_of_cons in Hin. tauto.
Qed.

Lemma bucket_push m l a : a ∉ l → NoDup l → 0 ∉ l → bucket_ok i m l → bucket_ok i (apply_writes (writes_bucket_push l a) m) (a :: l).
Proof.
  intros Ha Hnd H0 []. assert (Hnd' : NoDup (a :: l)) by by apply NoDup_cons.
  assert (Hpl : ∀ x, x ∈ l → prv (a :: l) x = if decide (x = hd0 l) then a else prv l x) by (intros; by apply prv_cons).
  assert (Hp0 : prv (a :: l) a = 0) by by apply prv_here.
  assert (Hc : wrapU 32 (wrapU 32 (zlen l) + 1) = wrapU 32 (zlen (a :: l))) by (rewrite wrapU_plus by lia; f_equal; cbn; lia).
  unfold writes_bucket_push. rewrite Hc. set (n := wrapU 32 (zlen (a :: l))).
  destruct l as [|h l]; cbn [apply_writes foldl fst snd]; (constructor; [by simplify_map_eq | by simplify_map_eq | |]); intros x Hx.
  - apply list_elem_of_singleton in Hx as ->. rewrite nxt_here. by simplify_map_eq.
  - apply list_elem_of_singleton in Hx as ->. rewrite Hp0. by simplify_map_eq.
  - rewrite !lookup_insert. apply elem_of_cons in Hx as [->|Hx]; [rewrite nxt_here; repeat case_decide; by simplify_eq |].
    rewrite nxt_cons by (intros ->; done). repeat case_decide; simplify_eq; auto.
  - rewrite !lookup_insert. apply elem_of_cons in Hx as [->|Hx]; [rewrite Hp0; repeat case_decide; simplify_eq; try done; by destruct Ha; left |].
    rewrite Hpl by done. change (hd0 (h :: l)) with h. repeat case_decide; simplify_eq; auto. by destruct Ha; left.
Qed.
Lemma bucket_unlink m l a l' : NoDup (l ++ a :: l') → 0 ∉ l ++ a :: l' → bucket_ok i m (l ++ a :: l') →
  bucket_ok i (apply_writes (writes_bucket_unlink l a l') m) (l ++ l').
Proof.
  intros Hnd H0 []. pose proof (nxt_remove l a l') as Hn. pose proof (prv_remove l a l') as Hp.
  assert (Hin : ∀ x, x ∈ l ++ l' → x ∈ l ++ a :: l') by (intros x; rewrite !elem_of_app, elem_of_cons; tauto).
  assert (Hc : wrapU 32 (wrapU 32 (zlen (l ++ a :: l')) - 1) = wrapU 32 (zlen (l ++ l'))).
  { rewrite <- Z.add_opp_r, wrapU_plus by lia. f_equal. rewrite !length_app. cbn. lia. }
  assert (Hh : hd0 (l ++ l') = match l with [] => hd0 l' | _ => hd0 l end) by apply hd0_app.
  rewrite hd0_app in bk_head0.
  unfold writes_bucket_unlink. rewrite Hc. set (n := wrapU 32 (zlen (l ++ l'))) in *. set (L := l ++ l') in *.
  destruct l as [|y l], l' as [|z l']; cbn [app apply_writes foldl fst snd];
    (constructor; [rewrite Hh; by simplify_map_eq | by simplify_map_eq | |]); intros x Hx;
    first [by apply not_elem_of_nil in Hx | rewrite ?lookup_insert, ?Hn, ?Hp by done; repeat case_decide; simplify_eq; naive_solver].
Qed.
(** Other buckets do not change. *)
Lemma bucket_other j m W l l' : in_bucket l W → i ≠ j → (∀ x, x ∈ l' → x ∉ l) → bucket_ok j m l' → bucket_ok j (apply_writes W m) l'.
Proof.
  intros HW Hij Hd []. unfold in_bucket in HW. constructor; intros; rewrite apply_notin; auto; (eapply Forall_impl; [exact HW |]); intros [[y g] v]; cbn; intros Hw [= -> ->].
  1, 2: naive_solver. all: destruct Hw as [[[?|?] _]|[_ Hw]]; [done.. | by apply (Hd x)].
Qed.
End bucket.
