(* ===== verification/HashMapRep.v ===== *)
(** What the memory of a [HashMap] stands for: its blocks, the two orders and the buckets
    they are in, and the bytes they hold. *)
From stdpp Require Import prelude gmap list.
From Stdlib Require Import ZArith Lia.
From S2P Require Import Prelude Bytes MemChunkSpec HashMap HashMapLists.
Import HashMap.HashMap.

(** A block without the links of the lists it is in. *)
Record entry := mk_entry { e_index : Z; e_sync : Z; e_dirty : bool; e_only : bool; e_chunks : list Z; e_data : list Z }.
Record abs := mk_abs { a_order : chain → list Z; a_bucket : Z → list Z; a_ents : gmap Z entry }.

(** ** Memory *)

Definition count_ents (P : entry → bool) (E : gmap Z entry) : Z := Z.of_nat (size (filter (λ ae : Z * entry, P ae.2) E)).
Record ent_ok (m : gmap loc Z) (a : Z) (e : entry) : Prop := {
  en_index : m !! (a, BIndex) = Some (e_index e);
  en_sync : m !! (a, BSyncTime) = Some (e_sync e);
  en_dirty : m !! (a, BDirty) = Some (flag (e_dirty e));
  en_only : m !! (a, BOnlyKey) = Some (flag (e_only e))
}.
Definition tail_ok (m : gmap loc Z) (f : field) (l : list Z) : Prop := ∃ v, m !! (0, f) = Some v ∧ (v = 0 ∨ v ∈ l).
Record lists_ok (m : gmap loc Z) (n : Z) (A : abs) : Prop := {
  lo_dll c : dll c m (a_order A c);
  lo_nodup c : NoDup (a_order A c);
  lo_dom c a : a ∈ a_order A c ↔ is_Some (a_ents A !! a);
  lo_bucket i : 0 ≤ i < n → bucket_ok i m (a_bucket A i);
  lo_bucket_nodup i : 0 ≤ i < n → NoDup (a_bucket A i);
  lo_bucket_dom i a : 0 ≤ i < n → a ∈ a_bucket A i ↔ ∃ e, a_ents A !! a = Some e ∧ e_index e = i;
  lo_index a e : a_ents A !! a = Some e → 0 ≤ e_index e < n;
  lo_ent a e : a_ents A !! a = Some e → ent_ok m a e;
  lo_dirty_tail : tail_ok m HDirtyTail (a_order A SetList);
  lo_sync_tail : tail_ok m HSyncTail (a_order A SetList);
  lo_backup_tail : tail_ok m HBackupTail (a_order A GetList);
  lo_elements : m !! (0, HElementCount) = Some (wrapU 64 (count_ents (λ _, true) (a_ents A)));
  lo_dirty : m !! (0, HDirtyCount) = Some (wrapU 64 (count_ents e_dirty (a_ents A)));
  lo_only : m !! (0, HOnlyKeyCount) = Some (wrapU 64 (count_ents e_only (a_ents A)));
  lo_get : is_Some (m !! (0, HGetCount));
  lo_hit : is_Some (m !! (0, HHitCount))
}.

(** ** Data *)

Definition bytes_at (d : gmap Z (list Z)) (x : Z) : list Z := default [] (d !! x).
(** What is in blocks that are full but for the last one, which holds [len] bytes. *)
Fixpoint content (d : gmap Z (list Z)) (l : list Z) (len : Z) : list Z :=
  match l with
  | [] => []
  | [x] => take (Z.to_nat len) (bytes_at d x)
  | x :: l' => bytes_at d x ++ content d l' len
  end.
(** [iSize] of a block or chunk with a head of [h] bytes. *)
Definition size_ok (m : gmap loc Z) (d : gmap Z (list Z)) (f : field) (h x : Z) : Prop :=
  ∃ b, d !! x = Some b ∧ m !! (x, f) = Some (zlen b + h) ∧ 0 < zlen b < 2 ^ 32.
Fixpoint chunk_cells (fit : bool) (m : gmap loc Z) (d : gmap Z (list Z)) (l : list Z) (len : Z) : Prop :=
  match l with
  | [] => False
  | x :: l' =>
    size_ok m d CSize sizeof_tagChunkHead x ∧
    match l' with
    | [] => m !! (x, CNextChunk) = Some 0 ∧ m !! (x, CUnion) = Some len ∧ (fit → 0 ≤ len ≤ zlen (bytes_at d x))
    | y :: _ => m !! (x, CNextChunk) = Some 1 ∧ m !! (x, CUnion) = Some y ∧ chunk_cells fit m d l' len
    end
  end.
Definition block_cells (fit : bool) (m : gmap loc Z) (d : gmap Z (list Z)) (a : Z) (l : list Z) (len : Z) : Prop :=
  size_ok m d BSize sizeof_tagBlockHead a ∧
  match l with
  | [] => m !! (a, BNextChunk) = Some 0 ∧ m !! (a, BUnion) = Some len ∧ (fit → 0 ≤ len ≤ zlen (bytes_at d a))
  | y :: _ => m !! (a, BNextChunk) = Some 1 ∧ m !! (a, BUnion) = Some y ∧ chunk_cells fit m d l len
  end.
(** The bytes of a block that is being written ([busy]), and how many of them are used,
    are not known. *)
Definition chain_ok (busy : Z) (m : gmap loc Z) (d : gmap Z (list Z)) (a : Z) (e : entry) : Prop :=
  ∃ len, block_cells (bool_decide (a ≠ busy)) m d a (e_chunks e) len ∧ (a ≠ busy → content d (a :: e_chunks e) len = e_data e ∧ zlen (e_data e) < 2 ^ 64).

(** [loose] chunks are lent but not linked yet. *)
Record chains_ok (busy : Z) (loose : list Z) (m : gmap loc Z) (d : gmap Z (list Z)) (E : gmap Z entry) : Prop := {
  co_chain a e : E !! a = Some e → chain_ok busy m d a e;
  co_dom x : is_Some (d !! x) ↔ x ∈ loose ∨ ∃ a e, E !! a = Some e ∧ x ∈ a :: e_chunks e;
  co_nodup a e : E !! a = Some e → NoDup (a :: e_chunks e);
  co_disjoint a e a' e' x : E !! a = Some e → E !! a' = Some e' → x ∈ a :: e_chunks e → x ∈ a' :: e_chunks e' → a = a';
  co_loose_nodup : NoDup loose;
  co_loose a e x : E !! a = Some e → x ∈ a :: e_chunks e → x ∉ loose;
  co_used : m !! (0, HUsedChunk) = Some (wrapU 64 (Z.of_nat (size d)))
}.
Definition pool_ok `{Allocator Al} (base : Z) (d : gmap Z (list Z)) (a : Al) : Prop :=
  ∃ free used, al_owns a free used ∧
    (∀ x, is_Some (d !! x) → is_Some (used !! (base + x))) ∧
    ∀ p n, free !! p = Some n ∨ used !! p = Some n → base < p ∧ sizeof_tagBlockHead < n < 2 ^ 32.

Section rep.
Context {Al : Type} {AL : Allocator Al}.
Abbreviation t := (t (Al := Al)).
Implicit Types (s : t) (A : abs) (W : list (loc * Z)).

Record rep (busy : Z) (loose : list Z) (s : t) (A : abs) : Prop := {
  r_lists : lists_ok (mem s) (_hash_size s) A;
  r_chains : chains_ok busy loose (mem s) (_cData s) (a_ents A);
  r_pool : pool_ok (_pHead s) (_cData s) (_pDataAllocator s);
  r_buckets : 0 < _hash_size s < 2 ^ 32
}.

(** *** The journal *)

Definition push W s : t := set_journal (match W with [] => _cModifyStatus s | _ => 1 end) (_stModifyData s ++ W) s.
Definition commit W s : t := set_journal 0 [] (set_mem (apply_writes W (mem s)) s).
(** There is room for [k] more entries. *)
Definition room (k : Z) s : Prop := zlen (_stModifyData s) + k < 20.
(** Only the counts of reads and hits are waiting to be written. *)
Definition counting s : Prop := Forall (λ w : loc * Z, w.1 = (0, HGetCount) ∨ w.1 = (0, HHitCount)) (_stModifyData s) ∧ zlen (_stModifyData s) ≤ 2.
(** Between two operations. *)
Definition idle s : Prop := (_cModifyStatus s = 0 ∧ _stModifyData s = []) ∨ _cModifyStatus s = 1.

Lemma push_nil s : push [] s = s.
Proof. unfold push. rewrite app_nil_r. by destruct s. Qed.
Lemma push_push W W' s : push W' (push W s) = push (W ++ W') s.
Proof. unfold push, set_journal. cbn. rewrite app_assoc. destruct W, W'; by rewrite ?app_nil_r. Qed.
Lemma load_ok l v s : mem s !! l = Some v → load l s = (Ok v, s).
Proof. unfold load. by intros ->. Qed.
Lemma test_ok l b s : mem s !! l = Some (flag b) → test l s = (Ok b, s).
Proof. intros E. unfold test. rewrite (bind_Ok _ _ _ _ _ (load_ok _ _ _ E)). by destruct b. Qed.
Lemma hm_store_ok l v s : is_Some (mem s !! l) → store l v s = (Ok tt, set_mem (<[l := v]> (mem s)) s).
Proof. intros H. unfold store. by rewrite decide_True. Qed.
Lemma hm_update_ok l v s : room 1 s → update l v s = (Ok tt, push [(l, v)] s).
Proof. intros Hr. unfold update, bind, modify, get_st, assert_that. rewrite (proj2 (Z.ltb_lt _ _)); [done |]. cbn. rewrite length_app. unfold room in Hr. cbn. lia. Qed.
Lemma room_push k W s : room (k + zlen W) s → room k (push W s).
Proof. unfold room. cbn. rewrite length_app. lia. Qed.
Lemma room_le k k' s : k' ≤ k → room k s → room k' s.
Proof. unfold room. lia. Qed.

Lemma apply_journal_ok W : ∀ s, Forall (λ w : loc * Z, is_Some (mem s !! w.1)) W → apply_journal W s = (Ok tt, set_mem (apply_writes W (mem s)) s).
Proof.
  induction W as [|[l v] W IH]; intros s HW; [by destruct s |]. apply Forall_cons in HW as [Hl HW]. cbn [apply_journal].
  rewrite (bind_Ok _ _ _ _ _ (hm_store_ok _ _ _ Hl)), IH; [done |]. eapply Forall_impl; [exact HW |]. intros w Hw. cbn.
  destruct (decide (l = w.1)) as [->|Hne]; [rewrite lookup_insert_eq; by eexists | by rewrite lookup_insert_ne].
Qed.
Lemma doUpdate_true s : Forall (λ w : loc * Z, is_Some (mem s !! w.1)) (_stModifyData s) → doUpdate true s = (Ok tt, commit (_stModifyData s) s).
Proof.
  intros HW. unfold doUpdate, bind at 1, modify at 1. unfold bind at 1, get_st. cbn -[apply_journal].
  unfold bind at 1. rewrite apply_journal_ok by done. done.
Qed.
Lemma doUpdate_false s : idle s → doUpdate false s = (Ok tt, set_journal 0 [] s).
Proof. unfold doUpdate, bind, get_st, ret, modify. intros [[E1 E2]|E]; rewrite ?E1, ?E; cbn; [|done]. f_equal. destruct s. cbn in *. by subst. Qed.
Lemma count_up_ok f n s : mem s !! (0, f) = Some n → room 1 s → count_up f s = (Ok tt, push [((0, f), wrapU 64 (n + 1))] s).
Proof. intros E Hr. unfold count_up, head_. rewrite (bind_Ok _ _ _ _ _ (load_ok _ _ _ E)). by apply hm_update_ok. Qed.
Lemma count_down_ok f n s : mem s !! (0, f) = Some n → room 1 s → count_down f s = (Ok tt, push [((0, f), wrapU 64 (n - 1))] s).
Proof. intros E Hr. unfold count_down, head_. rewrite (bind_Ok _ _ _ _ _ (load_ok _ _ _ E)). by apply hm_update_ok. Qed.

(** *** Reading *)

Lemma hm_bytes_at_eq (d : gmap Z (list Z)) x b : d !! x = Some b → bytes_at d x = b.
Proof. unfold bytes_at. by intros ->. Qed.
Lemma content_cons d x y l len : content d (x :: y :: l) len = bytes_at d x ++ content d (y :: l) len.
Proof. done. Qed.
Lemma take_all_bytes (b : list Z) : take (Z.to_nat (zlen b)) b = b.
Proof. rewrite Nat2Z.id. apply firstn_all. Qed.
Lemma read_data_ok s x b n : _cData s !! x = Some b → 0 ≤ n ≤ zlen b → read_data x n s = (Ok (take (Z.to_nat n) b), s).
Proof. intros Hb Hn. unfold read_data, mem_read. rewrite Hb, !(proj2 (Z.leb_le _ _)) by lia. cbn. done. Qed.

Lemma getDataLen_loop_ok s l len : chunk_cells true (mem s) (_cData s) l len → ∀ fuel n, (length l ≤ fuel)%nat → 0 ≤ n → n + zlen (content (_cData s) l len) < 2 ^ 64 →
  getDataLen_loop fuel (hd0 l) n s = (Ok (n + zlen (content (_cData s) l len)), s).
Proof.
  induction l as [|x l IH]; intros Hl fuel n Hf Hn Hb; [done |]. destruct fuel as [|fuel]; [cbn in Hf; lia |]. cbn [getDataLen_loop]. change (hd0 (x :: l)) with x.
  destruct Hl as ((b & Eb & Esz & Hsz) & Hl). destruct l as [|y l].
  - destruct Hl as (En & Eu & Hlen). specialize (Hlen I). rewrite (bind_Ok _ _ _ _ _ (test_ok _ false _ En)), (bind_Ok _ _ _ _ _ (load_ok _ _ _ Eu)). unfold ret. do 2 f_equal.
    cbn [content] in *. rewrite (hm_bytes_at_eq _ _ _ Eb) in *. rewrite length_take in *. rewrite wrapU_id by (unfold in_U; lia). lia.
  - destruct Hl as (En & Eu & Hl). rewrite (bind_Ok _ _ _ _ _ (test_ok _ true _ En)), (bind_Ok _ _ _ _ _ (load_ok _ _ _ Esz)), (bind_Ok _ _ _ _ _ (load_ok _ _ _ Eu)).
    rewrite content_cons, (hm_bytes_at_eq _ _ _ Eb) in *. rewrite length_app in *. change (hd0 (y :: l)) with y in IH.
    replace (zlen b + sizeof_tagChunkHead - sizeof_tagChunkHead) with (zlen b) by lia. rewrite wrapU_id by (unfold in_U; lia).
    rewrite IH; [do 2 f_equal; lia | done | cbn in Hf |- *; lia | lia | lia].
Qed.
Lemma get_loop_ok s l len : chunk_cells true (mem s) (_cData s) l len → ∀ fuel has bs, (length l ≤ fuel)%nat →
  let left_ := zlen (content (_cData s) l len) in
  get_loop fuel (has + left_) has left_ (hd0 l) bs s = (Ok (RT_OK, has + left_, bs ++ content (_cData s) l len), s).
Proof.
  induction l as [|x l IH]; intros Hl fuel has bs Hf left_; [done |]. destruct fuel as [|fuel]; [cbn in Hf; lia |]. cbn [get_loop]. change (hd0 (x :: l)) with x.
  destruct Hl as ((b & Eb & Esz & Hsz) & Hl). destruct (Z.ltb_spec has (has + left_)) as [Hlt|Hge].
  2: { assert (content (_cData s) (x :: l) len = []) as -> by (apply length_zero_iff_nil; unfold left_ in Hge; lia). by rewrite app_nil_r. }
  rewrite (bind_Ok _ _ _ _ _ (load_ok _ _ _ Esz)). replace (zlen b + sizeof_tagChunkHead - sizeof_tagChunkHead) with (zlen b) by lia. rewrite wrapU_id by (unfold in_U; lia).
  destruct l as [|y l].
  - destruct Hl as (En & Eu & Hlen). specialize (Hlen I). rewrite (bind_Ok _ _ _ _ _ (test_ok _ false _ En)). cbn [negb]. rewrite (bind_Ok _ _ _ _ _ (load_ok _ _ _ Eu)).
    rewrite (hm_bytes_at_eq _ _ _ Eb) in Hlen. assert (Ec : content (_cData s) [x] len = take (Z.to_nat len) b) by (cbn [content]; by rewrite (hm_bytes_at_eq _ _ _ Eb)).
    assert (left_ = len) as Hleft by (unfold left_; rewrite Ec, length_take; lia). clearbody left_. subst left_. rewrite Ec.
    rewrite Z.min_id. rewrite (bind_Ok _ _ _ _ _ (read_data_ok s x b len Eb Hlen)), Z.ltb_irrefl. done.
  - destruct Hl as (En & Eu & Hl). rewrite (bind_Ok _ _ _ _ _ (test_ok _ true _ En)). cbn [negb].
    unfold left_ in *. rewrite content_cons, (hm_bytes_at_eq _ _ _ Eb) in *. rewrite length_app in *. clear left_.
    rewrite Z.min_l by lia. rewrite (bind_Ok _ _ _ _ _ (read_data_ok s x b (zlen b) Eb ltac:(lia))), take_all_bytes.
    rewrite (proj2 (Z.ltb_ge _ _)) by lia. rewrite (bind_Ok _ _ _ _ _ (load_ok _ _ _ Eu)). change (hd0 (y :: l)) with y in IH.
    replace (Z.of_nat (length b + length (content (_cData s) (y :: l) len)) - zlen b) with (zlen (content (_cData s) (y :: l) len)) by lia.
    replace (has + Z.of_nat (length b + length (content (_cData s) (y :: l) len))) with (has + zlen b + zlen (content (_cData s) (y :: l) len)) by lia.
    rewrite IH; [by rewrite app_assoc | done | cbn in Hf |- *; lia].
Qed.

Lemma areas_length (d : gmap Z (list Z)) l : NoDup l → (∀ x, x ∈ l → is_Some (d !! x)) → (length l ≤ size d)%nat.
Proof.
  intros Hnd Hl. rewrite <- size_dom. change (size (dom d)) with (length (elements (dom d))). apply submseteq_length, NoDup_submseteq; [done |].
  intros x Hx. apply elem_of_elements, elem_of_dom. by apply Hl.
Qed.
Lemma chain_length busy loose m d E a e : chains_ok busy loose m d E → E !! a = Some e → (S (length (e_chunks e)) ≤ size d)%nat.
Proof.
  intros Hc He. change (S (length (e_chunks e))) with (length (a :: e_chunks e)). apply areas_length; [by apply (co_nodup _ _ _ _ _ Hc) |].
  intros x Hx. apply (co_dom _ _ _ _ _ Hc). right. by exists a, e.
Qed.

Lemma get_string_ok busy loose s A a e : rep busy loose s A → a_ents A !! a = Some e → a ≠ busy → get_string a s = (Ok (RT_OK, e_data e), s).
Proof.
  intros [_ Hc _ _] He Hne. destruct (co_chain _ _ _ _ _ Hc a e He) as (len & [(b & Eb & Esz & Hsz) Hl] & Hdata). rewrite bool_decide_eq_true_2 in Hl by done. destruct (Hdata Hne) as [Hd Hbound].
  pose proof (chain_length _ _ _ _ _ _ _ Hc He) as Hfuel. rewrite <- Hd in *. clear Hd Hdata.
  unfold get_string, getDataLen, get_buffer. destruct (e_chunks e) as [|y l].
  - destruct Hl as (En & Eu & Hlen). specialize (Hlen I). cbn [content] in *. rewrite (hm_bytes_at_eq _ _ _ Eb) in *.
    unfold bind at 1. rewrite (bind_Ok _ _ _ _ _ (test_ok _ false _ En)). cbn [negb]. rewrite (load_ok _ _ _ Eu).
    unfold bind at 1. rewrite (bind_Ok _ _ _ _ _ (test_ok _ false _ En)). cbn [negb]. rewrite (bind_Ok _ _ _ _ _ (load_ok _ _ _ Eu)), Z.min_id, (bind_Ok _ _ _ _ _ (read_data_ok s a b len Eb Hlen)).
    cbn. unfold bind, slice, mem_read. rewrite length_take. rewrite !(proj2 (Z.leb_le _ _)) by lia. cbn. unfold ret. do 3 f_equal. rewrite drop_0, take_take. f_equal. lia.
  - destruct Hl as (En & Eu & Hl). rewrite content_cons, (hm_bytes_at_eq _ _ _ Eb) in *. rewrite length_app in Hbound. set (rest := content (_cData s) (y :: l) len) in *.
    assert (Esub : wrapU 64 (zlen b + sizeof_tagBlockHead - sizeof_tagBlockHead) = zlen b) by (rewrite wrapU_id; [lia | unfold in_U; lia]).
    unfold bind at 1. rewrite (bind_Ok _ _ _ _ _ (test_ok _ true _ En)). cbn [negb]. rewrite (bind_Ok _ _ _ _ _ (load_ok _ _ _ Esz)), (bind_Ok _ _ _ _ _ (load_ok _ _ _ Eu)), Esub.
    pose proof (getDataLen_loop_ok s (y :: l) len Hl (S (size (_cData s))) (zlen b)) as E1. change (hd0 (y :: l)) with y in E1. fold rest in E1. unfold with_fuel at 1. rewrite E1 by (cbn in *; lia).
    unfold bind at 1. rewrite (bind_Ok _ _ _ _ _ (test_ok _ true _ En)). cbn [negb]. rewrite (bind_Ok _ _ _ _ _ (load_ok _ _ _ Esz)), Esub, Z.min_l by lia.
    rewrite (bind_Ok _ _ _ _ _ (read_data_ok s a b (zlen b) Eb ltac:(lia))), take_all_bytes. rewrite (proj2 (Z.ltb_ge _ _)) by lia.
    rewrite (bind_Ok _ _ _ _ _ (load_ok _ _ _ Eu)). unfold with_fuel. replace (zlen b + zlen rest - zlen b) with (zlen rest) by lia.
    pose proof (get_loop_ok s (y :: l) len Hl (S (size (_cData s))) (zlen b) b) as E2. change (hd0 (y :: l)) with y in E2. fold rest in E2. cbn zeta in E2. rewrite E2 by (cbn in *; lia). cbn. unfold bind, slice, mem_read. rewrite length_app. rewrite !(proj2 (Z.leb_le _ _)) by lia. cbn.
    unfold ret. do 3 f_equal. rewrite drop_0. apply take_ge. rewrite length_app. lia.
Qed.

(** What [getBlockData] makes of a block. *)
Definition record_of (e : entry) (data : BlockData) : Z * BlockData :=
  match Pack.unpack (e_data e) with
  | None => (RT_DECODE_ERR, mk_data (_key data) (_value data) (e_dirty e) (e_sync e))
  | Some (k, rest) =>
    if e_only e then (RT_ONLY_KEY, mk_data k (_value data) (e_dirty e) (e_sync e)) else
    match Pack.unpack rest with
    | None => (RT_DECODE_ERR, mk_data k (_value data) (e_dirty e) (e_sync e))
    | Some (v, _) => (RT_OK, mk_data k v (e_dirty e) (e_sync e))
    end
  end.
Lemma getBlockData_ok busy loose s A a e data : rep busy loose s A → a_ents A !! a = Some e → a ≠ busy → getBlockData a data s = (Ok (record_of e data), s).
Proof.
  intros Hr He Hne. destruct (lo_ent _ _ _ (r_lists _ _ _ _ Hr) a e He) as [_ Es Ed Eo]. unfold getBlockData, record_of.
  rewrite (bind_Ok _ _ _ _ _ (test_ok _ _ _ Ed)), (bind_Ok _ _ _ _ _ (load_ok _ _ _ Es)). cbv zeta.
  rewrite (bind_Ok _ _ _ _ _ (get_string_ok busy loose s A a e Hr He Hne)). cbn [fst snd negb Z.eqb RT_OK].
  destruct (Pack.unpack (e_data e)) as [[k rest]|]; [|done]. rewrite (bind_Ok _ _ _ _ _ (test_ok _ _ _ Eo)). destruct (e_only e); [done |]. by destruct (Pack.unpack rest) as [[v ?]|].
Qed.
End rep.
