(* ===== verification/HashMapBlocks.v ===== *)
(** The operations on one block: what each makes of the orders, the buckets and the
    memory. *)
From stdpp Require Import prelude gmap list.
From Stdlib Require Import ZArith Lia.
From S2P Require Import Prelude Bytes MemChunkSpec HashMap HashMapLists HashMapRep.
Import HashMap.HashMap.

(** ** What depends on which memory *)

Definition listed (A : abs) (x : Z) (f : field) : Prop :=
  match f with
  | BIndex | BBlockNext | BBlockPrev | BNext _ | BPrev _ | BSyncTime | BDirty | BOnlyKey => is_Some (a_ents A !! x)
  | HUsedChunk | BSize | BNextChunk | BUnion | CSize | CNextChunk | CUnion => False
  | _ => True
  end.
Lemma bucket_dom m n A i a : lists_ok m n A → 0 ≤ i < n → a ∈ a_bucket A i → is_Some (a_ents A !! a).
Proof. intros H Hi Ha. apply (lo_bucket_dom _ _ _ H i a Hi) in Ha as (e & -> & _). by eexists. Qed.
Lemma lists_ok_ext m m' n A : (∀ x f, listed A x f → m' !! (x, f) = m !! (x, f)) → lists_ok m n A → lists_ok m' n A.
Proof.
  intros E H. pose proof H as []. constructor; try done; rewrite ?E by done; try done.
  - intros c. destruct (lo_dll c). constructor; intros; (rewrite E; [auto | first [exact I | by apply (lo_dom c)]]).
  - intros i Hi. destruct (lo_bucket i Hi). constructor; intros; (rewrite E; [auto | first [exact I | by apply (bucket_dom m n A i)]]).
  - intros a e He. assert (is_Some (a_ents A !! a)) by (rewrite He; by eexists). destruct (lo_ent a e He). constructor; by rewrite E.
  - destruct lo_dirty_tail as (v & Ev & Hv). exists v. by rewrite E.
  - destruct lo_sync_tail as (v & Ev & Hv). exists v. by rewrite E.
  - destruct lo_backup_tail as (v & Ev & Hv). exists v. by rewrite E.
Qed.

Lemma size_ok_ext m m' d d' f h x : part_of f = PChunk → (∀ f, part_of f = PChunk → m' !! (x, f) = m !! (x, f)) → d' !! x = d !! x →
  size_ok m d f h x → size_ok m' d' f h x.
Proof. intros Hf Em Ed (b & Eb & Es & Hb). exists b. by rewrite Ed, Em. Qed.
Lemma content_ext d d' l len : (∀ x, x ∈ l → d' !! x = d !! x) → content d' l len = content d l len.
Proof.
  induction l as [|x l IH]; intros E; [done |]. assert (bytes_at d' x = bytes_at d x) as Ex by (unfold bytes_at; by rewrite E by left).
  destruct l as [|y l]; [cbn; by rewrite Ex |]. rewrite !content_cons, Ex, IH; [done |]. intros z Hz. apply E. by right.
Qed.
Lemma chunk_cells_ext fit m m' d d' l len : (∀ x f, x ∈ l → part_of f = PChunk → m' !! (x, f) = m !! (x, f)) → (∀ x, x ∈ l → d' !! x = d !! x) →
  chunk_cells fit m d l len → chunk_cells fit m' d' l len.
Proof.
  induction l as [|x l IH]; intros Em Ed; [done |]. intros [Hs Hl]. assert (Hx : ∀ f, part_of f = PChunk → m' !! (x, f) = m !! (x, f)) by (intros; apply Em; [left | done]).
  assert (Edx : d' !! x = d !! x) by (apply Ed; left). assert (Eb : bytes_at d' x = bytes_at d x) by (unfold bytes_at; by rewrite Edx).
  split; [by eapply size_ok_ext |]. destruct l as [|y l]; rewrite !Hx by done; [by rewrite Eb |].
  destruct Hl as (? & ? & Hl). split_and!; [done.. |]. apply IH; [intros; apply Em; [by right | done] | intros; apply Ed; by right | done].
Qed.
Lemma block_cells_ext fit m m' d d' a l len : (∀ x f, x ∈ a :: l → part_of f = PChunk → m' !! (x, f) = m !! (x, f)) → (∀ x, x ∈ a :: l → d' !! x = d !! x) →
  block_cells fit m d a l len → block_cells fit m' d' a l len.
Proof.
  intros Em Ed [Hs Hl]. assert (Hx : ∀ f, part_of f = PChunk → m' !! (a, f) = m !! (a, f)) by (intros; apply Em; [left | done]).
  assert (Edx : d' !! a = d !! a) by (apply Ed; left). assert (Eb : bytes_at d' a = bytes_at d a) by (unfold bytes_at; by rewrite Edx).
  split; [by eapply size_ok_ext |]. destruct l as [|y l]; rewrite !Hx by done; [by rewrite Eb |].
  destruct Hl as (? & ? & Hl). split_and!; [done.. |]. eapply chunk_cells_ext; [| | done]; [intros; apply Em; [by right | done] | intros; apply Ed; by right].
Qed.
Lemma chain_ok_ext busy m m' d d' a e : (∀ x f, x ∈ a :: e_chunks e → part_of f = PChunk → m' !! (x, f) = m !! (x, f)) →
  (∀ x, x ∈ a :: e_chunks e → d' !! x = d !! x) → chain_ok busy m d a e → chain_ok busy m' d' a e.
Proof. intros Em Ed (len & Hc & Hd). exists len. split; [by eapply block_cells_ext |]. intros Hne. rewrite (content_ext d d') by exact Ed. by apply Hd. Qed.

(** What is not memory does not change. *)
Definition same_cfg {Al} (s s' : t (Al := Al)) : Prop :=
  _pHead s' = _pHead s ∧ _hash_size s' = _hash_size s ∧ _bReadOnly s' = _bReadOnly s ∧ _bAutoErase s' = _bAutoErase s ∧
  _cEraseMode s' = _cEraseMode s ∧ _iEraseCount s' = _iEraseCount s ∧ _iSyncTime s' = _iSyncTime s.
#[export] Instance same_cfg_po {Al} : PreOrder (same_cfg (Al := Al)).
Proof. split; [by intros ? | intros s1 s2 s3 (? & ? & ? & ? & ? & ? & ?) (? & ? & ? & ? & ? & ? & ?); split_and!; congruence]. Qed.

(** A member that is not in a list of members. *)
Ltac notin := match goal with |- ¬ ?P => apply (bool_decide_eq_false_1 P); vm_compute; reflexivity end.

Section blocks.
Context {Al : Type} {AL : Allocator Al} {ALL : AllocatorLaws Al}.
Abbreviation t := (t (Al := Al)).
Implicit Types (s : t) (A : abs) (W : list (loc * Z)).

(** *** Giving memory back *)

Lemma lookup_give (x a : Z) (f : field) (fs : list field) (m : gmap loc Z) : foldr (λ f m, delete (a, f) m) m fs !! (x, f) = if decide (x = a ∧ f ∈ fs) then None else m !! (x, f).
Proof.
  induction fs as [|g fs IH]; cbn [foldr]; [rewrite decide_False; [done |]; intros [_ H]; by apply not_elem_of_nil in H |].
  destruct (decide ((a, g) = (x, f))) as [[= -> ->]|Hne].
  - rewrite lookup_delete_eq, decide_True; [done |]. split; [done | left].
  - rewrite lookup_delete_ne, IH by done. apply decide_ext. rewrite elem_of_cons. naive_solver.
Qed.
Lemma give_other s x f a : x ≠ a ∨ f ∉ block_fields ++ chunk_fields → mem (set_data (delete a (_cData s)) (set_mem (foldr (λ f m, delete (a, f) m) (mem s) (block_fields ++ chunk_fields)) s)) !! (x, f) = mem s !! (x, f).
Proof. intros H. cbn [mem set_data set_mem]. rewrite lookup_give, decide_False; [done | tauto]. Qed.

(** A loose area goes back. *)
Lemma deallocate_one busy x L s A : rep busy (x :: L) s A →
  ∃ s', deallocateMemBlock [x] s = (Ok tt, s') ∧ rep busy L s' A ∧ same_cfg s s' ∧ _cModifyStatus s' = _cModifyStatus s ∧ _stModifyData s' = _stModifyData s ∧ vtData s' = vtData s ∧
    _cData s' = delete x (_cData s) ∧ (∀ y f, y ≠ x → f ≠ HUsedChunk → mem s' !! (y, f) = mem s !! (y, f)).
Proof.
  intros [Hl Hc (free & used & Ho & Hu & Hp) Hn]. pose proof Hc as [].
  assert (Hx : is_Some (_cData s !! x)) by (apply co_dom; left; left).
  destruct (Hu x Hx) as [n En]. destruct (al_deallocate_law _ _ _ _ _ Ho En) as (al & Ea & Ho').
  set (s1 := set_alloc al s). set (s2 := set_data (delete x (_cData s1)) (set_mem (foldr (λ f m, delete (x, f) m) (mem s1) (block_fields ++ chunk_fields)) s1)).
  assert (Eused : mem s2 !! (0, HUsedChunk) = Some (wrapU 64 (Z.of_nat (size (_cData s))))).
  { unfold s2. rewrite give_other; [done |]. right. notin. }
  set (s' := set_mem (<[(0, HUsedChunk) := wrapU 64 (wrapU 64 (Z.of_nat (size (_cData s))) - 1)]> (mem s2)) s2).
  assert (Eother : ∀ y f, (y ≠ x ∨ f ∉ block_fields ++ chunk_fields) → f ≠ HUsedChunk → mem s' !! (y, f) = mem s !! (y, f)).
  { intros y f Hy Hf. unfold s'. cbn [mem set_mem]. rewrite lookup_insert_ne by congruence. unfold s2. by apply (give_other s1). }
  assert (Hxe : a_ents A !! x = None).
  { destruct (a_ents A !! x) as [e|] eqn:E; [|done]. exfalso. by apply (co_loose x e x E); left. }
  exists s'. split.
  { cbn [deallocateMemBlock]. unfold bind at 1, get_st. unfold bind at 1, on_alloc. rewrite Ea. fold s1. unfold bind at 1, give_memory, modify. fold s2.
    unfold bind at 1, delChunkCount, head_. rewrite (bind_Ok _ _ _ _ _ (load_ok _ _ _ Eused)), (hm_store_ok _ _ s2) by (rewrite Eused; by eexists). done. }
  split_and!; try done.
  2: { intros y f Hy Hf. apply Eother; [by left | done]. }
  constructor.
  - eapply lists_ok_ext; [|exact Hl]. intros y f Hyf. apply Eother; [|by intros ->].
    destruct (decide (y = x)) as [->|]; [right | by left]. destruct f; cbn in Hyf; try done; try (rewrite Hxe in Hyf; by destruct Hyf); try destruct c; notin.
  - assert (HxL : x ∉ L) by by apply NoDup_cons in co_loose_nodup as [? _].
    assert (Hne : ∀ a e y, a_ents A !! a = Some e → y ∈ a :: e_chunks e → y ≠ x) by (intros a e y He Hy ->; by apply (co_loose a e x He Hy); left).
    constructor; try done.
    + intros a e He. eapply chain_ok_ext; [| | by apply co_chain].
      * intros y f Hy Hf. apply Eother; [left; eauto | by intros ->].
      * intros y Hy. cbn. apply lookup_delete_ne. intros ->. by apply (Hne a e y).
    + intros y. cbn. destruct (decide (y = x)) as [->|Hyx].
      * rewrite lookup_delete_eq. split; [by intros [] |]. intros [?|(a & e & He & Hy)]; [done | by destruct (Hne a e x He Hy)].
      * rewrite lookup_delete_ne by done. rewrite co_dom, elem_of_cons. tauto.
    + by apply NoDup_cons in co_loose_nodup as [_ ?].
    + intros a e y He Hy HyL. apply (co_loose a e y He Hy). by right.
    + cbn [mem _cData s' s2 s1 set_mem set_data]. rewrite lookup_insert_eq. f_equal. rewrite <- Z.add_opp_r, wrapU_plus by lia. f_equal.
      destruct Hx as [b Hb]. cbn. rewrite map_size_delete, Hb. pose proof (map_size_ne_0_lookup_2 (_cData s) x ltac:(by eexists)). lia.
  - exists (<[_pHead s + x := n]> free), (delete (_pHead s + x) used). split; [exact Ho' |]. split.
    + intros y. cbn. destruct (decide (y = x)) as [->|]; [rewrite lookup_delete_eq; by intros [] |]. rewrite !lookup_delete_ne by lia. apply Hu.
    + intros p m. cbn. rewrite lookup_insert_Some, lookup_delete_Some. intros [[[<- <-]|[_ ?]]|[_ ?]]; apply Hp; tauto.
  - done.
Qed.

(** What giving the areas [v] back leaves as it is. *)
Definition gives (v : list Z) (s s' : t) : Prop :=
  same_cfg s s' ∧ _cModifyStatus s' = _cModifyStatus s ∧ _stModifyData s' = _stModifyData s ∧ vtData s' = vtData s ∧
  (∀ y, y ∉ v → _cData s' !! y = _cData s !! y) ∧ (∀ y f, y ∉ v → f ≠ HUsedChunk → mem s' !! (y, f) = mem s !! (y, f)).
Lemma gives_trans v v' s1 s2 s3 : gives v s1 s2 → gives v' s2 s3 → gives (v ++ v') s1 s3.
Proof.
  intros (C & E1 & E2 & E3 & D & M) (C' & E1' & E2' & E3' & D' & M'). split_and!; [by etrans | congruence.. | |];
    [intros y [??]%not_elem_of_app | intros y f [??]%not_elem_of_app ?]; [rewrite D', D | rewrite M', M]; done.
Qed.
Lemma deallocate_cons x v s : deallocateMemBlock (x :: v) s = (deallocateMemBlock [x] ;;; deallocateMemBlock v) s.
Proof.
  cbn [deallocateMemBlock]. unfold bind, get_st, ret. destruct (on_alloc _ s) as [[] ?]; try done. destruct (give_memory x _) as [[] ?]; try done. by destruct (delChunkCount _) as [[] ?].
Qed.
Lemma deallocate_many busy v L : ∀ s A, rep busy (v ++ L) s A → ∃ s', deallocateMemBlock v s = (Ok tt, s') ∧ rep busy L s' A ∧ gives v s s'.
Proof.
  induction v as [|x v IH]; intros s A Hr; [exists s; split_and!; done |]. rewrite deallocate_cons.
  destruct (deallocate_one busy x (v ++ L) s A Hr) as (s1 & E1 & Hr1 & C1 & S1 & J1 & V1 & D1 & M1). destruct (IH s1 A Hr1) as (s2 & E2 & Hr2 & G2).
  exists s2. rewrite (bind_Ok _ _ _ _ _ E1). split; [done |]. split; [done |]. apply (gives_trans [x] v s s1 s2); [|done]. split_and!; try done.
  - intros y Hy. rewrite D1. apply lookup_delete_ne. intros ->. apply Hy. left.
  - intros y f Hy Hf. apply M1; [|done]. intros ->. apply Hy. left.
Qed.
Lemma chunks_from_ok fit s l len : chunk_cells fit (mem s) (_cData s) l len → ∀ fuel, (length l ≤ fuel)%nat → chunks_from fuel (hd0 l) s = (Ok l, s).
Proof.
  induction l as [|x l IH]; intros Hl fuel Hf; [done |]. destruct fuel as [|fuel]; [cbn in Hf; lia |]. cbn [chunks_from]. change (hd0 (x :: l)) with x.
  destruct Hl as (_ & Hl). destruct l as [|y l].
  - destruct Hl as (En & _). by rewrite (bind_Ok _ _ _ _ _ (test_ok _ false _ En)).
  - destruct Hl as (En & Eu & Hl). rewrite (bind_Ok _ _ _ _ _ (test_ok _ true _ En)), (bind_Ok _ _ _ _ _ (load_ok _ _ _ Eu)).
    specialize (IH Hl fuel ltac:(cbn in *; lia)). change (hd0 (y :: l)) with y in IH. by rewrite (bind_Ok _ _ _ _ _ IH).
Qed.
Lemma loose_length busy v L s A : rep busy (v ++ L) s A → (length v ≤ size (_cData s))%nat.
Proof.
  intros Hr. pose proof (r_chains _ _ _ _ Hr) as Hc. apply areas_length.
  - pose proof (co_loose_nodup _ _ _ _ _ Hc) as H. by apply NoDup_app in H as [? _].
  - intros x Hx. apply (co_dom _ _ _ _ _ Hc). left. apply elem_of_app. by left.
Qed.
Lemma deallocate_chunks_ok fit busy v L s A len : rep busy (v ++ L) s A → chunk_cells fit (mem s) (_cData s) v len →
  ∃ s', deallocate_chunks (hd0 v) s = (Ok tt, s') ∧ rep busy L s' A ∧ gives v s s'.
Proof.
  intros Hr Hl. unfold deallocate_chunks, with_fuel. pose proof (loose_length _ _ _ _ _ Hr).
  unfold bind. rewrite (chunks_from_ok fit s v len Hl) by lia. by apply deallocate_many.
Qed.
Lemma hm_deallocate_ok fit busy a v L s A len : rep busy (v ++ a :: L) s A → block_cells fit (mem s) (_cData s) a v len →
  ∃ s', deallocate a s = (Ok tt, s') ∧ rep busy L s' A ∧ gives (a :: v) s s'.
Proof.
  intros Hr [_ Hl]. unfold deallocate. destruct v as [|y v].
  - destruct Hl as (En & _). rewrite (bind_Ok _ _ _ _ _ (test_ok _ false _ En)). exact (deallocate_many busy [a] L s A Hr).
  - destruct Hl as (En & Eu & Hl). rewrite (bind_Ok _ _ _ _ _ (test_ok _ true _ En)). destruct (deallocate_chunks_ok fit busy (y :: v) (a :: L) s A len Hr Hl) as (s1 & E1 & Hr1 & G1).
    change (hd0 (y :: v)) with y in E1. unfold bind at 1. rewrite (bind_Ok _ _ _ _ _ (load_ok _ _ _ Eu)), E1.
    destruct (deallocate_many busy [a] L s1 A Hr1) as (s2 & E2 & Hr2 & G2). exists s2. split; [done |]. split; [done |].
    destruct (gives_trans _ _ _ _ _ G1 G2) as (? & ? & ? & ? & Hd & Hm). split_and!; try done; [intros z Hz; apply Hd | intros z f Hz; apply Hm];
      rewrite elem_of_cons in Hz; rewrite elem_of_app, list_elem_of_singleton; tauto.
Qed.

(** *** Leaving the lists *)

Definition exist (m : gmap loc Z) W : Prop := Forall (λ w : loc * Z, is_Some (m !! w.1)) W.
Lemma apply_part_nil W p m x f : part_of f = p → at_part p W = [] → apply_writes W m !! (x, f) = m !! (x, f).
Proof. intros Hf E. by rewrite (apply_part W p) by done; rewrite E. Qed.

Section one_list.
Context (c : chain) (l : list Z) (a : Z) (l' : list Z).
Hypothesis Hnd : NoDup (l ++ a :: l').
Hypothesis H0 : 0 ∉ l ++ a :: l'.

Lemma mid_not : a ∉ l ∧ a ∉ l' ∧ a ≠ 0 ∧ 0 ∉ l ∧ 0 ∉ l'.
Proof.
  apply NoDup_app in Hnd as (_ & Hd & Hl). apply NoDup_cons in Hl as [Hl _]. rewrite elem_of_app, elem_of_cons in H0.
  split_and!; [intros Ha; apply (Hd a Ha); left | naive_solver..].
Qed.
Lemma mid_lst : l = [] ∨ (lst l ∈ l ∧ lst l ≠ 0 ∧ lst l ≠ a).
Proof.
  destruct mid_not as (H1 & H2 & H3 & H4 & H5). destruct (decide (l = [])) as [|Hl]; [by left |]. right.
  destruct (lst_in l) as [E|Hi]; [by apply lst_zero in E |]. split_and!; [done | intros E; by rewrite E in Hi | intros E; by rewrite E in Hi].
Qed.
Lemma mid_hd : l' = [] ∨ (hd0 l' ∈ l' ∧ hd0 l' ≠ 0 ∧ hd0 l' ≠ a).
Proof.
  destruct mid_not as (H1 & H2 & H3 & H4 & H5). destruct l' as [|z l'']; [by left |]. right. cbn.
  split_and!; [left | intros E; apply H5; rewrite E; left | intros E; apply H2; rewrite E; left].
Qed.
Lemma mid_in x : x ∈ l ∨ x = a ∨ x ∈ l' → x ∈ l ++ a :: l'.
Proof. rewrite elem_of_app, elem_of_cons. tauto. Qed.

Lemma unlink_ok s : dll c (mem s) (l ++ a :: l') → room 2 s → unlink c a s = (Ok tt, push (writes_unlink c l a l') s) ∧ exist (mem s) (writes_unlink c l a l').
Proof.
  intros Hd Hr. destruct mid_not as (Ha & Ha' & Ha0 & _). pose proof Hd as [Eh Et _ _].
  assert (Ein : a ∈ l ++ a :: l') by (apply mid_in; tauto). pose proof (dll_next _ _ _ Hd a Ein) as En. pose proof (dll_prev _ _ _ Hd a Ein) as Ep.
  rewrite nxt_mid in En by done. rewrite prv_mid in Ep by done. rewrite hd0_app in Eh. change (hd0 (a :: l')) with a in Eh. rewrite lst_app, lst_cons in Et.
  assert (Hr1 : room 1 s) by (unfold room in *; lia).
  assert (Hup : ∀ w w', (update w.1 w.2 ;;; update w'.1 w'.2) s = (Ok tt, push [w; w'] s)).
  { intros [lw vw] [lw' vw']. cbn. rewrite (bind_Ok _ _ _ _ _ (hm_update_ok lw vw s Hr1)). rewrite (hm_update_ok lw' vw'); [by rewrite push_push |]. apply room_push. cbn. done. }
  unfold unlink, head_. destruct mid_lst as [El|(Hl1 & Hl2 & Hl3)], mid_hd as [El'|(Hl1' & Hl2' & Hl3')].
  - rewrite El, El' in *. rewrite (bind_Ok _ _ _ _ _ (load_ok _ _ _ Eh)), (bind_Ok _ _ _ _ _ (load_ok _ _ _ Et)). rewrite Z.eqb_refl. cbn [negb].
    rewrite (bind_Ok _ _ _ _ _ (load_ok _ _ _ En)). unfold bind at 1, assert_that at 1. change (hd0 []) with 0. cbn [Z.eqb]. rewrite (bind_Ok _ _ _ _ _ (load_ok _ _ _ Ep)), lst_nil. unfold bind at 1, assert_that at 1. cbn [Z.eqb].
    split; [apply (Hup ((0, HHead c), 0) ((0, HTail c), 0)) |]. repeat constructor; cbn; [rewrite Eh | rewrite Et]; by eexists.
  - rewrite El in *. assert (Et' : mem s !! (0, HTail c) = Some (lst l')) by (destruct l'; [done | exact Et]).
    assert (Hne : lst l' ≠ a) by (destruct (lst_in l') as [E|Hi]; [congruence | intros E; by rewrite E in Hi]).
    rewrite (bind_Ok _ _ _ _ _ (load_ok _ _ _ Eh)), (bind_Ok _ _ _ _ _ (load_ok _ _ _ Et')). rewrite Z.eqb_refl, (proj2 (Z.eqb_neq _ _) Hne). cbn [negb].
    rewrite (bind_Ok _ _ _ _ _ (load_ok _ _ _ En)). unfold bind at 1, assert_that at 1. rewrite (proj2 (Z.eqb_neq _ _) Hl2'). cbn [negb].
    destruct l' as [|z l'']; [done |]. split; [apply (Hup ((0, HHead c), z) ((z, BPrev c), 0)) |].
    repeat constructor; cbn; [rewrite Eh; by eexists |]. rewrite (dll_prev _ _ _ Hd z) by (rewrite elem_of_app, !elem_of_cons; tauto). by eexists.
  - rewrite El' in *. assert (Eh' : mem s !! (0, HHead c) = Some (hd0 l)) by (destruct l; [done | exact Eh]).
    assert (Hne : hd0 l ≠ a) by (destruct (hd0_in l) as [E|Hi]; [congruence | intros E; by rewrite E in Hi]).
    rewrite (bind_Ok _ _ _ _ _ (load_ok _ _ _ Eh')), (bind_Ok _ _ _ _ _ (load_ok _ _ _ Et)), (proj2 (Z.eqb_neq _ _) Hne), Z.eqb_refl. cbn [negb].
    rewrite (bind_Ok _ _ _ _ _ (load_ok _ _ _ En)). unfold bind at 1, assert_that at 1. change (hd0 []) with 0. cbn [Z.eqb]. rewrite (bind_Ok _ _ _ _ _ (load_ok _ _ _ Ep)).
    destruct l as [|y l0]; [done |]. split; [apply (Hup ((0, HTail c), lst (y :: l0)) ((lst (y :: l0), BNext c), 0)) |].
    repeat constructor; cbn; [rewrite Et; by eexists |]. rewrite (dll_next _ _ _ Hd (lst (y :: l0))) by (rewrite elem_of_app, !elem_of_cons; rewrite !elem_of_cons in Hl1; tauto). by eexists.
  - assert (Eh' : mem s !! (0, HHead c) = Some (hd0 l)) by (destruct l; [done | exact Eh]). assert (Et' : mem s !! (0, HTail c) = Some (lst l')) by (destruct l'; [done | exact Et]).
    assert (Hne : hd0 l ≠ a) by (destruct (hd0_in l) as [E|Hi]; [congruence | intros E; by rewrite E in Hi]). assert (Hne' : lst l' ≠ a) by (destruct (lst_in l') as [E|Hi]; [congruence | intros E; by rewrite E in Hi]).
    rewrite (bind_Ok _ _ _ _ _ (load_ok _ _ _ Eh')), (bind_Ok _ _ _ _ _ (load_ok _ _ _ Et')), (proj2 (Z.eqb_neq _ _) Hne), (proj2 (Z.eqb_neq _ _) Hne'). cbn [negb].
    rewrite (bind_Ok _ _ _ _ _ (load_ok _ _ _ En)). unfold bind at 1, assert_that at 1. rewrite (proj2 (Z.eqb_neq _ _) Hl2'). cbn [negb]. rewrite (bind_Ok _ _ _ _ _ (load_ok _ _ _ Ep)).
    destruct l as [|y l0]; [done |]. destruct l' as [|z l'']; [done |]. split; [apply (Hup ((lst (y :: l0), BNext c), z) ((z, BPrev c), lst (y :: l0))) |].
    repeat constructor; cbn; [rewrite (dll_next _ _ _ Hd (lst (y :: l0))) by (rewrite elem_of_app, !elem_of_cons; rewrite !elem_of_cons in Hl1; tauto); by eexists | rewrite (dll_prev _ _ _ Hd z) by (rewrite elem_of_app, !elem_of_cons; tauto); by eexists].
Qed.

Definition writes_tail (f : field) (v : Z) : list (loc * Z) := if v =? a then [((0, f), lst l)] else [].
Lemma writes_tail_only f v : part_of f = PHead f → only (PHead f) (writes_tail f v).
Proof. intros Hf. unfold writes_tail. destruct (v =? a); repeat constructor. done. Qed.
Lemma tail_after m f v : m !! (0, f) = Some v → v = 0 ∨ v ∈ l ++ a :: l' → tail_ok (apply_writes (writes_tail f v) m) f (l ++ l').
Proof.
  intros Ev Hv. unfold writes_tail, tail_ok. destruct (Z.eqb_spec v a) as [->|Hne]; cbn.
  - rewrite lookup_insert_eq. exists (lst l). split; [done |]. destruct mid_lst as [->|(Hl & _)]; [by left | right; apply elem_of_app; by left].
  - exists v. split; [done |]. rewrite elem_of_app, elem_of_cons in Hv. rewrite elem_of_app. naive_solver.
Qed.
Lemma move_tail_ok s f v : dll c (mem s) (l ++ a :: l') → room 1 s → mem s !! (0, f) = Some v →
  move_tail f c a s = (Ok tt, push (writes_tail f v) s) ∧ exist (mem s) (writes_tail f v) ∧ zlen (writes_tail f v) ≤ 1.
Proof.
  intros Hd Hr Ev. assert (Ein : a ∈ l ++ a :: l') by (apply mid_in; tauto). pose proof (dll_prev _ _ _ Hd a Ein) as Ep. rewrite prv_mid in Ep by apply mid_not.
  unfold move_tail, head_, writes_tail. rewrite (bind_Ok _ _ _ _ _ (load_ok _ _ _ Ev)). destruct (v =? a).
  - rewrite (bind_Ok _ _ _ _ _ (load_ok _ _ _ Ep)). split; [by apply hm_update_ok |]. split; [|cbn; lia]. repeat constructor. cbn. rewrite Ev. by eexists.
  - rewrite push_nil. split; [done |]. split; [constructor | cbn; lia].
Qed.

Lemma unlink_bucket_ok s i : bucket_ok i (mem s) (l ++ a :: l') → mem s !! (a, BIndex) = Some i → room 4 s →
  unlink_bucket a s = (Ok tt, push (writes_bucket_unlink i l a l') s) ∧ exist (mem s) (writes_bucket_unlink i l a l') ∧ zlen (writes_bucket_unlink i l a l') ≤ 4.
Proof.
  intros Hb Ei Hr. destruct mid_not as (Ha & Ha' & Ha0 & Hl0 & Hl0'). pose proof Hb as [Eh Ec _ _].
  assert (Ein : a ∈ l ++ a :: l') by (apply mid_in; tauto). pose proof (bk_next _ _ _ Hb a Ein) as En. pose proof (bk_prev _ _ _ Hb a Ein) as Ep.
  rewrite nxt_mid in En by done. rewrite prv_mid in Ep by done. rewrite hd0_app in Eh. change (hd0 (a :: l')) with a in Eh.
  set (W1 := match l with [] => [] | _ => [((lst l, BBlockNext), hd0 l')] end). set (W2 := match l' with [] => [] | _ => [((hd0 l', BBlockPrev), lst l)] end).
  set (n := wrapU 32 (zlen (l ++ a :: l'))) in *.
  assert (E1 : (if negb (lst l =? 0) then update (lst l, BBlockNext) (hd0 l') else ret tt) s = (Ok tt, push W1 s) ∧ exist (mem s) W1 ∧ zlen W1 ≤ 1).
  { unfold W1. destruct mid_lst as [E|(H1 & H2 & _)]; [rewrite E, push_nil; split_and!; [done | constructor | cbn; lia] |].
    rewrite (proj2 (Z.eqb_neq _ _) H2). destruct l as [|y l0]; [done |]. split_and!; [apply hm_update_ok; unfold room in *; lia | | cbn; lia].
    repeat constructor. cbn. rewrite (bk_next _ _ _ Hb (lst (y :: l0))); [by eexists |]. apply elem_of_app. by left. }
  destruct E1 as (E1 & X1 & Z1).
  assert (E2 : (if negb (hd0 l' =? 0) then update (hd0 l', BBlockPrev) (lst l) else ret tt) (push W1 s) = (Ok tt, push (W1 ++ W2) s) ∧ exist (mem s) W2 ∧ zlen W2 ≤ 1).
  { rewrite <- push_push. unfold W2. destruct mid_hd as [E|(H1 & H2 & _)]; [rewrite E; cbn [hd0 head from_option Z.eqb negb]; rewrite push_nil; split_and!; [done | constructor | cbn; lia] |].
    rewrite (proj2 (Z.eqb_neq _ _) H2). destruct l' as [|z l0]; [done |]. split_and!; [apply hm_update_ok, room_push; unfold room in *; lia | | cbn; lia].
    repeat constructor. cbn. rewrite (bk_prev _ _ _ Hb z); [by eexists |]. rewrite elem_of_app, !elem_of_cons. tauto. }
  destruct E2 as (E2 & X2 & Z2).
  assert (E3 : delListCount i (push (W1 ++ W2) s) = (Ok tt, push (W1 ++ W2 ++ [((i, IListCount), wrapU 32 (n - 1))]) s)).
  { unfold delListCount. rewrite (bind_Ok _ _ _ _ _ (load_ok (i, IListCount) n (push (W1 ++ W2) s) Ec)), hm_update_ok; [by rewrite push_push, <- app_assoc |].
    apply room_push. rewrite length_app. unfold room in *. lia. }
  unfold unlink_bucket. rewrite (bind_Ok _ _ _ _ _ (load_ok _ _ _ Ep)), (bind_Ok _ _ _ _ _ (load_ok _ _ _ En)), (bind_Ok _ _ _ _ _ E1), (bind_Ok _ _ _ _ _ E2).
  rewrite (bind_Ok _ _ _ _ _ (load_ok (a, BIndex) i (push (W1 ++ W2) s) Ei)), (bind_Ok _ _ _ _ _ E3).
  assert (X3 : is_Some (mem s !! (i, IListCount))) by (rewrite Ec; by eexists).
  unfold writes_bucket_unlink. fold W1 W2 n. destruct mid_lst as [E|(H1 & H2 & _)].
  - assert ((lst l =? 0) = true) as -> by by rewrite E. assert (Eh' : mem s !! (i, IBlockAddr) = Some a) by (rewrite E in Eh; exact Eh).
    rewrite (bind_Ok _ _ _ _ _ (load_ok (i, IBlockAddr) a (push (W1 ++ W2 ++ [((i, IListCount), wrapU 32 (n - 1))]) s) Eh')). unfold bind at 1, assert_that at 1. rewrite Z.eqb_refl.
    rewrite hm_update_ok by (apply room_push; rewrite !length_app; cbn; unfold room in *; lia). rewrite push_push, <- !app_assoc. cbn [app].
    assert (El : match l with [] => [((i, IBlockAddr), hd0 l')] | _ => [] end = [((i, IBlockAddr), hd0 l')]) by by rewrite E. rewrite El.
    split; [done |]. split; [|rewrite !length_app; cbn; lia]. unfold exist. rewrite !Forall_app. split_and!; [done.. |]. repeat constructor; cbn; [done | rewrite Eh'; by eexists].
  - rewrite (proj2 (Z.eqb_neq _ _) H2). assert (El : match l with [] => [((i, IBlockAddr), hd0 l')] | _ => [] end = []) by by destruct l. rewrite El, app_nil_r.
    split; [done |]. split; [|rewrite !length_app; cbn; lia]. unfold exist. rewrite !Forall_app. split_and!; [done.. |]. repeat constructor; done.
Qed.
End one_list.

Definition del_from (a : Z) (l : list Z) : list Z := filter (λ x, x ≠ a) l.
Definition remove (a : Z) (A : abs) : abs := mk_abs (λ c, del_from a (a_order A c)) (λ i, del_from a (a_bucket A i)) (delete a (a_ents A)).
Lemma del_notin a l : a ∉ l → del_from a l = l.
Proof.
  unfold del_from. induction l as [|x l IH]; [done |]. rewrite not_elem_of_cons, filter_cons. intros [Hne Hl]. rewrite decide_True by done. f_equal. auto.
Qed.
Lemma del_mid a l l' : NoDup (l ++ a :: l') → del_from a (l ++ a :: l') = l ++ l'.
Proof.
  intros Hnd. apply NoDup_app in Hnd as (_ & Hd & Hl). apply NoDup_cons in Hl as [Hl _]. unfold del_from. rewrite filter_app, filter_cons, decide_False by tauto.
  f_equal; apply del_notin; [intros Ha; apply (Hd a Ha); left | done].
Qed.
Lemma elem_of_del x a l : x ∈ del_from a l ↔ x ≠ a ∧ x ∈ l.
Proof. unfold del_from. by rewrite list_elem_of_filter. Qed.

Lemma count_delete P (E : gmap Z entry) a e : E !! a = Some e → count_ents P (delete a E) = count_ents P E - Z.b2z (P e).
Proof.
  intros He. unfold count_ents. rewrite map_filter_delete, map_size_delete. destruct (filter _ E !! a) as [e'|] eqn:Ef.
  - pose proof (map_size_ne_0_lookup_2 (filter (λ ae : Z * entry, P ae.2) E) a ltac:(rewrite Ef; by eexists)) as Hne.
    apply map_lookup_filter_Some in Ef as [Ee HP]. cbn in HP. simplify_eq. apply Is_true_true in HP. rewrite HP. cbn. lia.
  - apply map_lookup_filter_None in Ef as [Ef|Ef]; [congruence |]. specialize (Ef e He). cbn in Ef. apply Is_true_false in Ef. rewrite Ef. cbn. lia.
Qed.
Lemma count_insert P (E : gmap Z entry) a e : E !! a = None → count_ents P (<[a := e]> E) = count_ents P E + Z.b2z (P e).
Proof.
  intros He. unfold count_ents. rewrite map_filter_insert. cbn. destruct (P e) eqn:EP.
  - rewrite decide_True by done. rewrite map_size_insert_None; [cbn; lia |]. apply map_lookup_filter_None. by left.
  - rewrite decide_False by (by intros []). rewrite delete_id by done. cbn. lia.
Qed.
Lemma count_update P (E : gmap Z entry) a e e' : E !! a = Some e → count_ents P (<[a := e']> E) = count_ents P E - Z.b2z (P e) + Z.b2z (P e').
Proof.
  intros He. rewrite <- (count_delete P E a e He), <- (count_insert P (delete a E) a e'); [by rewrite insert_delete_eq | apply lookup_delete_eq].
Qed.

(** The counts that are waiting to be written touch nothing else. *)
Lemma counting_part s : counting s → ∀ p, p ≠ PHead HGetCount → p ≠ PHead HHitCount → at_part p (_stModifyData s) = [].
Proof.
  intros [H _] p Hg Hh. unfold at_part. induction H as [|[l v] W Hw _ IH]; [done |]. rewrite filter_cons, decide_False; [done |]. cbn in *. destruct Hw as [-> | ->]; cbn; congruence.
Qed.
Lemma counting_exist s n A : counting s → lists_ok (mem s) n A → exist (mem s) (_stModifyData s).
Proof. intros [H _] Hl. eapply Forall_impl; [exact H |]. intros w [-> | ->]; [apply (lo_get _ _ _ Hl) | apply (lo_hit _ _ _ Hl)]. Qed.

(** A block of an order and of its bucket, and what is around it. *)
Lemma order_split m n A a c : lists_ok m n A → is_Some (a_ents A !! a) → ∃ l l', a_order A c = l ++ a :: l' ∧ NoDup (l ++ a :: l').
Proof. intros Hl Ha. apply (lo_dom _ _ _ Hl c) in Ha. pose proof (lo_nodup _ _ _ Hl c) as Hnd. apply list_elem_of_split in Ha as (l & l' & E). exists l, l'. by rewrite <- E. Qed.
Lemma bucket_split m n A a e : lists_ok m n A → a_ents A !! a = Some e → ∃ l l', a_bucket A (e_index e) = l ++ a :: l' ∧ NoDup (l ++ a :: l').
Proof.
  intros Hl He. pose proof (lo_index _ _ _ Hl a e He) as Hi. pose proof (lo_bucket_nodup _ _ _ Hl _ Hi) as Hnd.
  assert (Ha : a ∈ a_bucket A (e_index e)) by (apply (lo_bucket_dom _ _ _ Hl _ _ Hi); by exists e). apply list_elem_of_split in Ha as (l & l' & E). exists l, l'. by rewrite <- E.
Qed.

Lemma area_pos busy L s A x : rep busy L s A → is_Some (_cData s !! x) → 0 < x.
Proof. intros [_ _ (free & used & _ & Hu & Hp) _] Hx. destruct (Hu x Hx) as [n En]. specialize (Hp _ _ (or_intror En)). lia. Qed.
Lemma entry_area busy L s A a : rep busy L s A → is_Some (a_ents A !! a) → is_Some (_cData s !! a).
Proof. intros Hr [e He]. apply (co_dom _ _ _ _ _ (r_chains _ _ _ _ Hr)). right. exists a, e. split; [done | left]. Qed.
Lemma entry_pos busy L s A a : rep busy L s A → is_Some (a_ents A !! a) → 0 < a.
Proof. intros Hr Ha. eapply area_pos; [done |]. by eapply entry_area. Qed.
Lemma order_nonzero busy L s A c : rep busy L s A → 0 ∉ a_order A c.
Proof. intros Hr H. apply (lo_dom _ _ _ (r_lists _ _ _ _ Hr)) in H. pose proof (entry_pos _ _ _ _ _ Hr H). lia. Qed.
Lemma bucket_nonzero busy L s A i : rep busy L s A → 0 ≤ i < _hash_size s → 0 ∉ a_bucket A i.
Proof. intros Hr Hi H. apply (bucket_dom _ _ _ _ _ (r_lists _ _ _ _ Hr) Hi) in H. pose proof (entry_pos _ _ _ _ _ Hr H). lia. Qed.

(** A count that goes down by what a removed block had in it. *)
Definition writes_down (f : field) (b : bool) (v : Z) : list (loc * Z) := if b then [((0, f), wrapU 64 (v - 1))] else [].
Lemma writes_down_only (f : field) (b : bool) (v : Z) : part_of f = PHead f → only (PHead f) (writes_down f b v).
Proof. intros Hf. destruct b; repeat constructor; done. Qed.
Lemma count_down_if (f : field) (b : bool) (v : Z) s : mem s !! (0, f) = Some v → room 1 s →
  (if b then count_down f else ret tt) s = (Ok tt, push (writes_down f b v) s) ∧ exist (mem s) (writes_down f b v) ∧ zlen (writes_down f b v) ≤ 1.
Proof.
  intros Ev Hr. destruct b; cbn [writes_down].
  - split; [by apply count_down_ok |]. split; [|cbn; lia]. repeat constructor. cbn. rewrite Ev. by eexists.
  - rewrite push_nil. split; [done |]. split; [constructor | cbn; lia].
Qed.
Lemma writes_down_after f P (E : gmap Z entry) a e m : m !! (0, f) = Some (wrapU 64 (count_ents P E)) → E !! a = Some e →
  apply_writes (writes_down f (P e) (wrapU 64 (count_ents P E))) m !! (0, f) = Some (wrapU 64 (count_ents P (delete a E))).
Proof.
  intros Em He. rewrite (count_delete P E a e He). destruct (P e); cbn.
  - rewrite lookup_insert_eq. f_equal. rewrite <- Z.add_opp_r, wrapU_plus by lia. f_equal.
  - rewrite Em. do 2 f_equal. lia.
Qed.

(** The memory when the writes of [erase] are done. *)
Lemma erase_memory m n A a e l1 l1' l2 l2' b b' vd vs vb J :
  lists_ok m n A → a_ents A !! a = Some e → 0 ∉ a_order A SetList → 0 ∉ a_order A GetList → 0 ∉ a_bucket A (e_index e) →
  a_order A SetList = l1 ++ a :: l1' → a_order A GetList = l2 ++ a :: l2' → a_bucket A (e_index e) = b ++ a :: b' →
  m !! (0, HDirtyTail) = Some vd → m !! (0, HSyncTail) = Some vs → m !! (0, HBackupTail) = Some vb →
  (∀ p, p ≠ PHead HGetCount → p ≠ PHead HHitCount → at_part p J = []) →
  let W := J ++ writes_tail l1 a HDirtyTail vd ++ writes_tail l1 a HSyncTail vs ++ writes_tail l2 a HBackupTail vb ++
    writes_unlink SetList l1 a l1' ++ writes_unlink GetList l2 a l2' ++ writes_bucket_unlink (e_index e) b a b' ++
    writes_down HDirtyCount (e_dirty e) (wrapU 64 (count_ents e_dirty (a_ents A))) ++ writes_down HOnlyKeyCount (e_only e) (wrapU 64 (count_ents e_only (a_ents A))) ++
    [((0, HElementCount), wrapU 64 (wrapU 64 (count_ents (λ _, true) (a_ents A)) - 1))] in
  lists_ok (apply_writes W m) n (remove a A) ∧ at_part PChunk W = [] ∧ at_part (PHead HUsedChunk) W = [].
Proof.
  intros Hl He Z1 Z2 Z3 E1 E2 Eb Ed Es Ebk HJ W. pose proof (lo_nodup _ _ _ Hl SetList) as N1. pose proof (lo_nodup _ _ _ Hl GetList) as N2.
  pose proof (lo_index _ _ _ Hl a e He) as Hi. pose proof (lo_bucket_nodup _ _ _ Hl _ Hi) as N3. rewrite E1 in Z1, N1. rewrite E2 in Z2, N2. rewrite Eb in Z3, N3.
  set (Wd := writes_tail l1 a HDirtyTail vd) in *. set (Ws := writes_tail l1 a HSyncTail vs) in *. set (Wb := writes_tail l2 a HBackupTail vb) in *.
  set (U1 := writes_unlink SetList l1 a l1') in *. set (U2 := writes_unlink GetList l2 a l2') in *. set (B := writes_bucket_unlink (e_index e) b a b') in *.
  set (Cd := writes_down HDirtyCount _ _) in *. set (Co := writes_down HOnlyKeyCount _ _) in *. set (Ce := [((0, HElementCount), _)]) in *.
  assert (OWd : only (PHead HDirtyTail) Wd) by by apply writes_tail_only. assert (OWs : only (PHead HSyncTail) Ws) by by apply writes_tail_only.
  assert (OWb : only (PHead HBackupTail) Wb) by by apply writes_tail_only. assert (OU1 : only (PList SetList) U1) by apply writes_unlink_only.
  assert (OU2 : only (PList GetList) U2) by apply writes_unlink_only.
  assert (IB : in_bucket (e_index e) (b ++ a :: b') B) by (apply writes_bucket_unlink_in; rewrite elem_of_app in Z3; tauto).
  pose proof (in_bucket_only _ _ _ IB) as OB.
  assert (OCd : only (PHead HDirtyCount) Cd) by by apply writes_down_only. assert (OCo : only (PHead HOnlyKeyCount) Co) by by apply writes_down_only.
  assert (OCe : only (PHead HElementCount) Ce) by by repeat constructor.
  assert (EPl : ∀ c, at_part (PList c) W = match c with SetList => U1 | GetList => U2 end) by (intros []; unfold W; by parts).
  assert (EPb : at_part PBucket W = B) by (unfold W; by parts).
  assert (EPe : at_part PEntry W = []) by (unfold W; by parts).
  assert (EP : ∀ f, at_part (PHead f) W = match f with HDirtyTail => Wd | HSyncTail => Ws | HBackupTail => Wb | HDirtyCount => Cd | HOnlyKeyCount => Co | HElementCount => Ce
    | HGetCount | HHitCount => at_part (PHead f) J | _ => [] end) by (intros []; unfold W; by parts).
  split; [|split; [unfold W; by parts | apply (EP HUsedChunk)]].
  assert (Hdel : ∀ x, x ≠ a → is_Some (delete a (a_ents A) !! x) ↔ is_Some (a_ents A !! x)) by (intros x Hx; by rewrite lookup_delete_ne).
  constructor; cbn [a_order a_bucket a_ents remove].
  - intros c. eapply dll_writes; [|apply EPl]. destruct c; [rewrite E1, del_mid | rewrite E2, del_mid]; [| done | | done]; apply dll_unlink; try done; [rewrite <- E1 | rewrite <- E2]; apply (lo_dll _ _ _ Hl).
  - intros c. apply NoDup_filter, (lo_nodup _ _ _ Hl).
  - intros c x. rewrite elem_of_del, (lo_dom _ _ _ Hl c x). destruct (decide (x = a)) as [->|Hx]; [rewrite lookup_delete_eq | rewrite Hdel by done]; [|tauto].
    split; [by intros [] | by intros []].
  - intros i Hi'. eapply bucket_ext; [intros x f Hf; by rewrite (apply_part W PBucket), EPb|]. destruct (decide (e_index e = i)) as [<-|Hne].
    + rewrite Eb, del_mid by done. apply bucket_unlink; [done | done |]. rewrite <- Eb. by apply (lo_bucket _ _ _ Hl).
    + assert (Hai : a ∉ a_bucket A i) by (rewrite (lo_bucket_dom _ _ _ Hl) by done; intros (e' & He' & Hi''); congruence).
      rewrite del_notin by done. apply (bucket_other (e_index e) i m B (b ++ a :: b')); [done | done | | by apply (lo_bucket _ _ _ Hl)].
      intros x Hx. rewrite <- Eb, (lo_bucket_dom _ _ _ Hl) by done. apply (lo_bucket_dom _ _ _ Hl) in Hx as (e1 & H1 & H2); [|done]. intros (e2 & H3 & H4). congruence.
  - intros i Hi'. apply NoDup_filter. by apply (lo_bucket_nodup _ _ _ Hl).
  - intros i x Hi'. rewrite elem_of_del, (lo_bucket_dom _ _ _ Hl) by done. destruct (decide (x = a)) as [->|Hx]; [rewrite lookup_delete_eq; naive_solver | rewrite lookup_delete_ne by done; naive_solver].
  - intros x e' [_ He']%lookup_delete_Some. by apply (lo_index _ _ _ Hl x).
  - intros x e' [_ He']%lookup_delete_Some. destruct (lo_ent _ _ _ Hl x e' He'). constructor; by rewrite (apply_part_nil W PEntry).
  - rewrite E1, del_mid by done. unfold tail_ok. rewrite (apply_part W (PHead HDirtyTail)) by done. rewrite EP. apply (tail_after l1 a l1'); [done | done | done |].
    destruct (lo_dirty_tail _ _ _ Hl) as (v & Ev & Hv). rewrite E1 in Hv. congruence.
  - rewrite E1, del_mid by done. unfold tail_ok. rewrite (apply_part W (PHead HSyncTail)) by done. rewrite EP. apply (tail_after l1 a l1'); [done | done | done |].
    destruct (lo_sync_tail _ _ _ Hl) as (v & Ev & Hv). rewrite E1 in Hv. congruence.
  - rewrite E2, del_mid by done. unfold tail_ok. rewrite (apply_part W (PHead HBackupTail)) by done. rewrite EP. apply (tail_after l2 a l2'); [done | done | done |].
    destruct (lo_backup_tail _ _ _ Hl) as (v & Ev & Hv). rewrite E2 in Hv. congruence.
  - rewrite (apply_part W (PHead HElementCount)) by done. rewrite EP. apply (writes_down_after HElementCount (λ _, true) _ _ e); [apply (lo_elements _ _ _ Hl) | done].
  - rewrite (apply_part W (PHead HDirtyCount)) by done. rewrite EP. apply (writes_down_after HDirtyCount e_dirty); [apply (lo_dirty _ _ _ Hl) | done].
  - rewrite (apply_part W (PHead HOnlyKeyCount)) by done. rewrite EP. apply (writes_down_after HOnlyKeyCount e_only); [apply (lo_only _ _ _ Hl) | done].
  - apply apply_is_Some, (lo_get _ _ _ Hl).
  - apply apply_is_Some, (lo_hit _ _ _ Hl).
Qed.
End blocks.
