(* ===== verification/HashMapErase.v ===== *)
(** Throwing out a block of a [HashMap], and moving one to the front of its lists. *)
From stdpp Require Import prelude gmap list.
From Stdlib Require Import ZArith Lia.
From S2P Require Import Prelude Bytes MemChunkSpec HashMap HashMapLists HashMapRep HashMapBlocks.
Import HashMap.HashMap.

Lemma writes_unlink_length c l a l' : length (writes_unlink c l a l') = 2%nat.
Proof. by destruct l, l'. Qed.
(** The journal has room for what comes next. *)
Ltac room := apply room_push; rewrite ?length_app, ?writes_unlink_length; unfold room in *; cbn [length] in *; lia.

(** What is in it so far. *)
Ltac journal := lazymatch goal with |- context [push ?W _] => W end.

Section erase.
Context {Al : Type} {AL : Allocator Al} {ALL : AllocatorLaws Al}.
Abbreviation t := (t (Al := Al)).
Implicit Types (s : t) (A : abs) (W : list (loc * Z)).

Lemma commit_ok s W : exist (mem s) (_stModifyData s) → exist (mem s) W → doUpdate true (push W s) = (Ok tt, commit (_stModifyData s ++ W) (push W s)).
Proof. intros H1 H2. apply doUpdate_true. cbn. by apply Forall_app. Qed.

(** One step of many that write to the journal. *)
Lemma then_push {B} (m : prog t Empty_set unit) (k : prog t Empty_set B) W0 W s :
  m (push W0 s) = (Ok tt, push W (push W0 s)) → (m ;;; k) (push W0 s) = k (push (W0 ++ W) s).
Proof. intros E. rewrite (bind_Ok _ _ _ _ _ E). by rewrite push_push. Qed.
Lemma exist_app m W W' : exist m W → exist m W' → exist m (W ++ W').
Proof. intros. by apply Forall_app. Qed.
Lemma unlinked busy L s A a e : rep busy L s A → counting s → a_ents A !! a = Some e →
  ∃ W, erase_block a s = (doUpdate true ;;; deallocate a) (push W s) ∧ exist (mem s) W ∧
    lists_ok (apply_writes (_stModifyData s ++ W) (mem s)) (_hash_size s) (remove a A) ∧
    at_part PChunk (_stModifyData s ++ W) = [] ∧ at_part (PHead HUsedChunk) (_stModifyData s ++ W) = [].
Proof.
  intros Hr Hcnt He. pose proof Hr as [Hl Hc Hp Hn]. assert (Hin : is_Some (a_ents A !! a)) by (rewrite He; by eexists).
  destruct (order_split _ _ _ _ SetList Hl Hin) as (l1 & l1' & E1 & N1). destruct (order_split _ _ _ _ GetList Hl Hin) as (l2 & l2' & E2 & N2).
  destruct (bucket_split _ _ _ _ _ Hl He) as (b & b' & Eb & N3).
  pose proof (order_nonzero _ _ _ _ SetList Hr) as Z1. pose proof (order_nonzero _ _ _ _ GetList Hr) as Z2. pose proof (bucket_nonzero _ _ _ _ _ Hr (lo_index _ _ _ Hl a e He)) as Z3.
  destruct (lo_dirty_tail _ _ _ Hl) as (vd & Ed & _). destruct (lo_sync_tail _ _ _ Hl) as (vs & Es & _). destruct (lo_backup_tail _ _ _ Hl) as (vb & Ebk & _).
  pose proof (erase_memory (mem s) (_hash_size s) A a e l1 l1' l2 l2' b b' vd vs vb (_stModifyData s) Hl He Z1 Z2 Z3 E1 E2 Eb Ed Es Ebk (counting_part _ Hcnt)) as Hmem. cbv zeta in Hmem.
  pose proof (lo_dll _ _ _ Hl SetList) as D1. pose proof (lo_dll _ _ _ Hl GetList) as D2. pose proof (lo_bucket _ _ _ Hl _ (lo_index _ _ _ Hl a e He)) as B.
  rewrite E1 in D1, Z1. rewrite E2 in D2, Z2. rewrite Eb in B, Z3. destruct (lo_ent _ _ _ Hl a e He) as [Ei _ Edi Eon].
  assert (R : room 16 s) by (destruct Hcnt; unfold room; lia).
  match type of Hmem with context [apply_writes (_ ++ ?W)] => exists W end. apply and_assoc. split; [|exact Hmem].
  unfold erase_block. rewrite <- (push_nil s) at 1.
  let W := journal in destruct (move_tail_ok SetList l1 a l1' N1 Z1 (push W s) HDirtyTail vd D1 ltac:(room) Ed) as (F1 & X1 & L1). rewrite (then_push _ _ _ _ _ F1), app_nil_l.
  let W := journal in destruct (move_tail_ok SetList l1 a l1' N1 Z1 (push W s) HSyncTail vs D1 ltac:(room) Es) as (F2 & X2 & L2). rewrite (then_push _ _ _ _ _ F2).
  let W := journal in destruct (move_tail_ok GetList l2 a l2' N2 Z2 (push W s) HBackupTail vb D2 ltac:(room) Ebk) as (F3 & X3 & L3). rewrite (then_push _ _ _ _ _ F3).
  let W := journal in destruct (unlink_ok SetList l1 a l1' N1 Z1 (push W s) D1 ltac:(room)) as (F4 & X4). rewrite (then_push _ _ _ _ _ F4).
  let W := journal in destruct (unlink_ok GetList l2 a l2' N2 Z2 (push W s) D2 ltac:(room)) as (F5 & X5). rewrite (then_push _ _ _ _ _ F5).
  let W := journal in destruct (unlink_bucket_ok b a b' N3 Z3 (push W s) (e_index e) B Ei ltac:(room)) as (F6 & X6 & L6). rewrite (then_push _ _ _ _ _ F6).
  rewrite (bind_Ok _ _ _ _ _ (test_ok (a, BDirty) (e_dirty e) (push _ s) Edi)).
  let W := journal in destruct (count_down_if HDirtyCount (e_dirty e) _ (push W s) (lo_dirty _ _ _ Hl) ltac:(room)) as (F7 & X7 & L7). unfold delDirtyCount. rewrite (then_push _ _ _ _ _ F7).
  rewrite (bind_Ok _ _ _ _ _ (test_ok (a, BOnlyKey) (e_only e) (push _ s) Eon)).
  let W := journal in destruct (count_down_if HOnlyKeyCount (e_only e) _ (push W s) (lo_only _ _ _ Hl) ltac:(room)) as (F8 & X8 & L8). unfold delOnlyKeyCount. rewrite (then_push _ _ _ _ _ F8).
  let W := journal in pose proof (count_down_ok HElementCount _ (push W s) (lo_elements _ _ _ Hl) ltac:(room)) as F9. unfold delElementCount. rewrite (then_push _ _ _ _ _ F9).
  rewrite <- !app_assoc. split; [reflexivity |]. do 8 (apply exist_app; [assumption |]). apply Forall_singleton. eexists. apply (lo_elements _ _ _ Hl).
Qed.

Lemma erase_block_ok busy L s A a e : rep busy L s A → counting s → a_ents A !! a = Some e →
  ∃ s', erase_block a s = (Ok tt, s') ∧ rep busy L s' (remove a A) ∧ same_cfg s s' ∧ _cModifyStatus s' = 0 ∧ _stModifyData s' = [] ∧ vtData s' = vtData s ∧
    ∀ y, y ∉ a :: e_chunks e → _cData s' !! y = _cData s !! y ∧ ∀ f, part_of f = PChunk → f ≠ HUsedChunk → mem s' !! (y, f) = mem s !! (y, f).
Proof.
  intros Hr Hcnt He. destruct (unlinked busy L s A a e Hr Hcnt He) as (W & Eq & HW & Hl' & Hch & Hu). pose proof Hr as [Hl Hc Hp Hn].
  pose proof (commit_ok s W (counting_exist _ _ _ Hcnt Hl) HW) as Ec. set (s1 := commit (_stModifyData s ++ W) (push W s)) in *.
  assert (Em : ∀ x f, part_of f = PChunk → mem s1 !! (x, f) = mem s !! (x, f)) by (intros x f Hf; by apply (apply_part_nil _ PChunk)).
  destruct (co_chain _ _ _ _ _ Hc a e He) as (len & Hcells & _).
  assert (Hr1 : rep busy (e_chunks e ++ a :: L) s1 (remove a A)).
  { pose proof Hc as []. assert (Hper : e_chunks e ++ a :: L ≡ₚ (a :: e_chunks e) ++ L) by (symmetry; apply Permutation_middle).
    constructor; try done. constructor; cbn [a_ents remove].
    - intros a' e' [Hne He']%lookup_delete_Some. eapply chain_ok_ext; [| done | by apply co_chain]. intros; by apply Em.
    - intros x. cbn [_cData s1 commit push set_mem set_journal]. rewrite co_dom, Hper, elem_of_app. split.
      + intros [Hx|(a' & e' & He' & Hx)]; [tauto |]. destruct (decide (a' = a)) as [->|Hne]; [simplify_eq; tauto |].
        right. exists a', e'. by rewrite lookup_delete_ne.
      + intros [[Hx|Hx]|(a' & e' & [_ He']%lookup_delete_Some & Hx)]; [right; by exists a, e | by left | right; by exists a', e'].
    - intros a' e' [_ He']%lookup_delete_Some. by apply co_nodup.
    - intros a1 e1 a2 e2 x [_ H1]%lookup_delete_Some [_ H2]%lookup_delete_Some. by apply (co_disjoint _ e1 _ e2).
    - rewrite Hper. apply NoDup_app. split_and!; [by apply co_nodup | | done]. intros x Hx. by apply (co_loose a e).
    - intros a' e' x [Hne He']%lookup_delete_Some Hx. rewrite Hper, elem_of_app. intros [Hx'|Hx']; [apply Hne; by apply (co_disjoint a e a' e' x) | by apply (co_loose a' e' x)].
    - etrans; [by apply (apply_part_nil _ (PHead HUsedChunk)) | exact co_used]. }
  destruct (hm_deallocate_ok _ _ _ _ _ _ _ len Hr1 (block_cells_ext _ _ (mem s1) _ _ _ _ _ ltac:(intros; by apply Em) ltac:(done) Hcells)) as (s' & Ed & Hr' & G).
  exists s'. rewrite Eq, (bind_Ok _ _ _ _ _ Ec). destruct G as (C & S & J & V & D & M). split_and!; try done.
  intros y Hy. split; [by rewrite D | intros f Hf Hf'; by rewrite M, Em].
Qed.
End erase.
