(* ===== verification/HashMapOrder.v ===== *)
(** The operations of a [HashMap] that change its lists and counts only: a block comes to
    the front, becomes dirty or clean. *)
From stdpp Require Import prelude gmap list.
From Stdlib Require Import ZArith Lia.
From S2P Require Import Prelude Bytes MemChunkSpec HashMap HashMapLists HashMapRep HashMapBlocks HashMapErase.
Import HashMap.HashMap.

(** ** The same blocks *)

Definition same_chains (E E' : gmap Z entry) : Prop := ∀ a, (λ e, (e_chunks e, e_data e)) <$> E' !! a = (λ e, (e_chunks e, e_data e)) <$> E !! a.
Lemma same_chains_fwd E E' a e : same_chains E E' → E !! a = Some e → ∃ e', E' !! a = Some e' ∧ e_chunks e' = e_chunks e ∧ e_data e' = e_data e.
Proof. intros H He. specialize (H a). rewrite He in H. destruct (E' !! a) as [e'|]; [|done]. cbn in H. exists e'. by simplify_eq. Qed.
Lemma same_chains_sym E E' : same_chains E E' → same_chains E' E.
Proof. intros H a. by rewrite H. Qed.
Lemma chains_ok_ext busy L m m' d E E' : (∀ x f, part_of f = PChunk → m' !! (x, f) = m !! (x, f)) → m' !! (0, HUsedChunk) = m !! (0, HUsedChunk) →
  same_chains E E' → chains_ok busy L m d E → chains_ok busy L m' d E'.
Proof.
  intros Em Eu HE []. pose proof (same_chains_sym _ _ HE) as HE'. constructor; [| | | | done | | by rewrite Eu].
  - intros a e' He'. destruct (same_chains_fwd _ _ _ _ HE' He') as (e & He & Ec & Ed). destruct (co_chain a e He) as (len & Hb & Hd). exists len. rewrite <- Ec, <- Ed.
    split; [|done]. eapply block_cells_ext; [intros; by apply Em | done | done].
  - intros x. rewrite co_dom. f_equiv. split; intros (a & e & He & Hx); [destruct (same_chains_fwd _ _ _ _ HE He) as (e' & ? & Ec & _) | destruct (same_chains_fwd _ _ _ _ HE' He) as (e' & ? & Ec & _)];
      exists a, e'; by rewrite Ec.
  - intros a e' He'. destruct (same_chains_fwd _ _ _ _ HE' He') as (e & He & <- & _). by apply co_nodup.
  - intros a1 e1 a2 e2 x H1 H2. destruct (same_chains_fwd _ _ _ _ HE' H1) as (e1' & H1' & <- & _), (same_chains_fwd _ _ _ _ HE' H2) as (e2' & H2' & <- & _). by apply (co_disjoint a1 e1' a2 e2').
  - intros a e' x He'. destruct (same_chains_fwd _ _ _ _ HE' He') as (e & He & <- & _). by apply co_loose.
Qed.

(** Two views of the same map. *)
Record abs_eq (A A' : abs) : Prop := { ae_order c : a_order A c = a_order A' c; ae_bucket i : a_bucket A i = a_bucket A' i; ae_ents : a_ents A = a_ents A' }.
#[export] Instance abs_eq_equivalence : Equivalence abs_eq.
Proof. split; [done | intros A A' []; constructor; intros; congruence | intros A1 A2 A3 [] []; constructor; intros; congruence]. Qed.
#[export] Instance lists_ok_proper m n : Proper (abs_eq ==> impl) (lists_ok m n).
Proof.
  intros A A' [Eo Eb Ee] []. constructor; intros; rewrite <- ?Eo, <- ?Eb, <- ?Ee in *; eauto.
Qed.

Section order.
Context {Al : Type} {AL : Allocator Al} {ALL : AllocatorLaws Al}.
Abbreviation t := (t (Al := Al)).
Implicit Types (s : t) (A : abs) (W : list (loc * Z)).

#[export] Instance rep_proper busy L s : Proper (abs_eq ==> impl) (rep busy L s).
Proof. intros A A' E []. pose proof (ae_ents _ _ E) as Ee. constructor; [by rewrite <- E | by rewrite <- Ee | done..]. Qed.

(** A change that leaves the memory of the blocks to whom it belongs. *)
Record quiet s s' : Prop := {
  q_cfg : same_cfg s s';
  q_vt : vtData s' = vtData s;
  q_data : _cData s' = _cData s;
  q_alloc : _pDataAllocator s' = _pDataAllocator s;
  q_mem x f : part_of f = PChunk → mem s' !! (x, f) = mem s !! (x, f);
  q_counting : counting s → counting s';
  q_idle : idle s → idle s'
}.
#[export] Instance quiet_po : PreOrder quiet.
Proof.
  split; [intros s; by constructor | intros s1 s2 s3 [] []]. constructor; [by etrans | congruence.. | | tauto | tauto]. intros. rewrite q_mem1, q_mem0; done.
Qed.
Lemma commit_quiet s W : at_part PChunk (_stModifyData s ++ W) = [] → quiet s (commit (_stModifyData s ++ W) (push W s)).
Proof.
  intros E. constructor; try done; [intros x f Hf; by apply (apply_part_nil _ PChunk) | intros _; by left].
Qed.
Lemma commit_rep busy L s A A' W : rep busy L s A → lists_ok (apply_writes (_stModifyData s ++ W) (mem s)) (_hash_size s) A' → same_chains (a_ents A) (a_ents A') →
  at_part PChunk (_stModifyData s ++ W) = [] → at_part (PHead HUsedChunk) (_stModifyData s ++ W) = [] → rep busy L (commit (_stModifyData s ++ W) (push W s)) A'.
Proof.
  intros [Hl Hc Hp Hn] Hl' HE E1 E2. constructor; [done | | done | done]. eapply chains_ok_ext; [| | done | done]; cbn.
  - intros x f Hf. by apply (apply_part_nil _ PChunk).
  - by apply (apply_part_nil _ (PHead HUsedChunk)).
Qed.

(** The lists in another order. *)
Lemma relist_memory m n A A' W : lists_ok m n A → (∀ i, a_bucket A' i = a_bucket A i) → a_ents A' = a_ents A →
  (∀ c, a_order A' c ≡ₚ a_order A c) → at_part PBucket W = [] → at_part PEntry W = [] →
  at_part (PHead HElementCount) W = [] → at_part (PHead HDirtyCount) W = [] → at_part (PHead HOnlyKeyCount) W = [] →
  (∀ c, dll c (apply_writes (at_part (PList c) W) m) (a_order A' c)) →
  tail_ok (apply_writes W m) HDirtyTail (a_order A SetList) → tail_ok (apply_writes W m) HSyncTail (a_order A SetList) → tail_ok (apply_writes W m) HBackupTail (a_order A GetList) →
  lists_ok (apply_writes W m) n A'.
Proof.
  intros [] Eb Ee Eo HB HE H1 H2 H3 HD T1 T2 T3.
  assert (HT : ∀ f c, tail_ok (apply_writes W m) f (a_order A c) → tail_ok (apply_writes W m) f (a_order A' c)) by (intros f c (v & Ev & Hv); exists v; by rewrite Eo).
  constructor; intros; rewrite ?Eb, ?Ee, ?Eo in *; auto.
  - eapply dll_writes; [apply HD | done].
  - eapply bucket_ext; [|by apply lo_bucket]. intros. by apply (apply_part_nil W PBucket).
  - eauto.
  - destruct (lo_ent a e ltac:(done)). constructor; by rewrite (apply_part_nil W PEntry) by done.
  - by rewrite (apply_part_nil W (PHead HElementCount)).
  - by rewrite (apply_part_nil W (PHead HDirtyCount)).
  - by rewrite (apply_part_nil W (PHead HOnlyKeyCount)).
  - by apply apply_is_Some.
  - by apply apply_is_Some.
Qed.

(** *** To the front *)

Definition to_front (c : chain) (a : Z) (A : abs) : abs :=
  mk_abs (λ c', if decide (c' = c) then a :: del_from a (a_order A c') else a_order A c') (a_bucket A) (a_ents A).
Lemma to_front_order c a A : a_order (to_front c a A) c = a :: del_from a (a_order A c).
Proof. cbn. by rewrite decide_True. Qed.
Lemma to_front_other c c' a A : c' ≠ c → a_order (to_front c a A) c' = a_order A c'.
Proof. intros. cbn. by rewrite decide_False. Qed.
Lemma front_split l a l' : NoDup (l ++ a :: l') → a :: del_from a (l ++ a :: l') = a :: l ++ l'.
Proof. intros H. by rewrite del_mid. Qed.
Lemma front_already c a A : NoDup (a_order A c) → hd0 (a_order A c) = a → a_order A c ≠ [] → abs_eq A (to_front c a A).
Proof.
  intros Hnd Hh Hne. constructor; try done. intros c'. destruct (decide (c' = c)) as [->|Hc]; [|by rewrite to_front_other]. rewrite to_front_order.
  destruct (a_order A c) as [|x l]; [done |]. cbn in Hh. subst x. symmetry. exact (front_split [] a l Hnd).
Qed.
Lemma to_front_perm c a A c' : a ∈ a_order A c → NoDup (a_order A c) → a_order (to_front c a A) c' ≡ₚ a_order A c'.
Proof.
  intros Ha Hnd. destruct (decide (c' = c)) as [->|Hc]; [|by rewrite to_front_other]. rewrite to_front_order. apply list_elem_of_split in Ha as (l & l' & E).
  rewrite E in *. rewrite front_split by done. apply Permutation_middle.
Qed.
Lemma front_dll c m n A a l l' W : lists_ok m n A → a_order A c = l ++ a :: l' → l ≠ [] → 0 ∉ a_order A c →
  (∀ c', c' ≠ c → at_part (PList c') W = []) → at_part (PList c) W = writes_front c l a l' →
  ∀ c', dll c' (apply_writes (at_part (PList c') W) m) (a_order (to_front c a A) c').
Proof.
  intros Hl E Hne H0 Ho Hc c'. pose proof (lo_nodup _ _ _ Hl c) as Hnd. pose proof (lo_dll _ _ _ Hl c) as D. rewrite E in *. destruct (decide (c' = c)) as [->|Hc'].
  - rewrite to_front_order, E, front_split, Hc by done. by apply dll_front.
  - rewrite to_front_other, Ho by done. apply (lo_dll _ _ _ Hl).
Qed.

Section front.
Context (c : chain) (l : list Z) (a : Z) (l' : list Z).
Hypothesis Hnd : NoDup (l ++ a :: l').
Hypothesis H0 : 0 ∉ l ++ a :: l'.
Hypothesis Hne : l ≠ [].

Lemma front_around s : dll c (mem s) (l ++ a :: l') →
  mem s !! (0, HHead c) = Some (hd0 l) ∧ is_Some (mem s !! (0, HTail c)) ∧ lst (l ++ a :: l') ≠ 0 ∧ mem s !! (a, BPrev c) = Some (lst l) ∧ mem s !! (a, BNext c) = Some (hd0 l') ∧
  hd0 l ≠ a ∧ hd0 l ≠ 0 ∧ lst l ≠ 0.
Proof.
  intros [Eh Et En Ep]. assert (Ein : a ∈ l ++ a :: l') by (rewrite elem_of_app, elem_of_cons; tauto). destruct (mid_not l a l' Hnd H0) as (Ha & Ha' & Ha0 & Hl0 & _).
  rewrite (En a Ein), (Ep a Ein), nxt_mid, prv_mid by done. rewrite Eh, Et, hd0_app. destruct (mid_lst l a l' Hnd H0) as [?|(? & ? & ?)]; [done |].
  split_and!; try done; [by destruct l | rewrite lst_zero by done; by destruct l | |]; (destruct (hd0_in l) as [E|Hi]; [by apply hd0_zero in E | intros E; by rewrite E in Hi]).
Qed.
Lemma move_front_ok s : dll c (mem s) (l ++ a :: l') → room 6 s →
  move_front c a (lst l) (hd0 l') s = (Ok tt, push (writes_front c l a l') s) ∧ exist (mem s) (writes_front c l a l').
Proof.
  intros D Hr. destruct (front_around s D) as (Eh & Et & _ & Ep & En & Hha & Hh0 & Hl0). pose proof D as [_ Et' Dn Dp].
  assert (Hh : hd0 l ∈ l) by (destruct l; [done | left]). assert (Hll : lst l ∈ l) by (destruct (lst_in l); done).
  unfold move_front, head_. rewrite (bind_Ok _ _ _ _ _ (load_ok _ _ _ Eh)). rewrite <- (push_nil s) at 1.
  do 5 (let W := journal in erewrite (then_push (update _ _) _ W) by (apply hm_update_ok; room)). cbn [app].
  assert (X : exist (mem s) [((a, BNext c), hd0 l); ((hd0 l, BPrev c), a); ((0, HHead c), a); ((a, BPrev c), 0); ((lst l, BNext c), hd0 l')]).
  { repeat apply Forall_cons_2; try apply Forall_nil_2; cbn; [rewrite En | rewrite (Dp (hd0 l)) by (apply elem_of_app; by left) | rewrite Eh | rewrite Ep | rewrite (Dn (lst l)) by (apply elem_of_app; by left)]; by eexists. }
  destruct (mid_hd l a l' Hnd H0) as [E|(Hz & Hz0 & _)].
  - assert (Etl : mem s !! (0, HTail c) = Some a) by (rewrite Et'; by rewrite E, lst_snoc). unfold writes_front. rewrite E. change (hd0 []) with 0. cbn [Z.eqb negb].
    rewrite (bind_Ok _ _ _ _ _ (load_ok (0, HTail c) a (push _ s) Etl)). unfold bind at 1, assert_that at 1. rewrite Z.eqb_refl. rewrite hm_update_ok by room.
    rewrite push_push. split; [done |]. apply exist_app; [by rewrite E in X |]. apply Forall_singleton. cbn. rewrite Etl. by eexists.
  - unfold writes_front. rewrite (proj2 (Z.eqb_neq _ _) Hz0). cbn [negb]. rewrite hm_update_ok by room. rewrite push_push. destruct l' as [|z l0]; [done |]. split; [done |].
    apply exist_app; [done |]. apply Forall_singleton. cbn. rewrite (Dp z) by (rewrite elem_of_app, !elem_of_cons; tauto). by eexists.
Qed.
End front.

(** A tail pointer in a list of any order. *)
Lemma tail_same W m f l : part_of f = PHead f → at_part (PHead f) W = [] → tail_ok m f l → tail_ok (apply_writes W m) f l.
Proof. intros Hf E (v & Ev & Hv). exists v. split; [|done]. by rewrite (apply_part_nil W (PHead f)). Qed.
Lemma tail_to W m f l v : part_of f = PHead f → at_part (PHead f) W = [((0, f), v)] → v = 0 ∨ v ∈ l → tail_ok (apply_writes W m) f l.
Proof. intros Hf E Hv. exists v. split; [|done]. rewrite (apply_part W (PHead f)) by done. rewrite E. cbn. apply lookup_insert_eq. Qed.

Lemma refreshGetList_ok busy L s A a : rep busy L s A → counting s → is_Some (a_ents A !! a) →
  ∃ s', refreshGetList a s = (Ok tt, s') ∧ rep busy L s' (to_front GetList a A) ∧ quiet s s'.
Proof.
  intros Hr Hcnt Ha. pose proof Hr as [Hl _ _ _]. destruct (order_split _ _ _ _ GetList Hl Ha) as (l & l' & E & Hnd).
  pose proof (order_nonzero _ _ _ _ GetList Hr) as H0. pose proof (lo_dll _ _ _ Hl GetList) as D. rewrite E in H0, D. pose proof D as [Eh Et _ _].
  assert (Hz : hd0 (l ++ a :: l') ≠ 0 ∧ lst (l ++ a :: l') ≠ 0) by (rewrite hd0_zero, lst_zero by done; by destruct l). destruct Hz as [Hz1 Hz2].
  unfold refreshGetList, head_. rewrite (bind_Ok _ _ _ _ _ (load_ok _ _ _ Eh)), (bind_Ok _ _ _ _ _ (load_ok _ _ _ Et)).
  unfold bind at 1, assert_that at 1. rewrite (proj2 (Z.eqb_neq _ _) Hz1). unfold bind at 1, assert_that at 1. rewrite (proj2 (Z.eqb_neq _ _) Hz2). cbn [negb].
  destruct (decide (l = [])) as [->|Hne].
  { cbn [app hd0 head from_option]. rewrite Z.eqb_refl. exists s. split; [done |]. split; [|done]. rewrite <- (front_already GetList a A); [done | by rewrite E | by rewrite E | by rewrite E]. }
  destruct (front_around GetList l a l' Hnd H0 Hne s D) as (_ & _ & _ & Ep & En & Hha & _ & Hl0).
  assert (hd0 (l ++ a :: l') = hd0 l) as -> by by destruct l. rewrite (proj2 (Z.eqb_neq _ _) Hha).
  rewrite (bind_Ok _ _ _ _ _ (load_ok _ _ _ Ep)), (bind_Ok _ _ _ _ _ (load_ok _ _ _ En)). unfold bind at 1, assert_that at 1. rewrite (proj2 (Z.eqb_neq _ _) Hl0). cbn [negb].
  destruct (lo_backup_tail _ _ _ Hl) as (v & Ev & Hv). rewrite (bind_Ok _ _ _ _ _ (load_ok _ _ _ Ev)).
  assert (R : room 10 s) by (destruct Hcnt; unfold room; lia).
  assert (F1 : (if v =? a then update (0, HBackupTail) (lst l) else ret tt) s = (Ok tt, push (writes_tail l a HBackupTail v) s) ∧ exist (mem s) (writes_tail l a HBackupTail v) ∧ zlen (writes_tail l a HBackupTail v) ≤ 1).
  { unfold writes_tail. destruct (v =? a); [|rewrite push_nil; split_and!; [done | constructor | cbn; lia]]. split_and!; [apply hm_update_ok; unfold room in *; lia | | cbn; lia]. apply Forall_singleton. cbn. rewrite Ev. by eexists. }
  destruct F1 as (F1 & X1 & L1). set (Wb := writes_tail l a HBackupTail v) in *. rewrite (bind_Ok _ _ _ _ _ F1).
  destruct (move_front_ok GetList l a l' Hnd H0 Hne (push Wb s) D ltac:(room)) as (F2 & X2). rewrite (bind_Ok _ _ _ _ _ F2), push_push.
  set (Wf := writes_front GetList l a l') in *. rewrite (commit_ok s (Wb ++ Wf)) by (first [by eapply counting_exist | by apply exist_app]).
  assert (OWb : only (PHead HBackupTail) Wb) by by apply writes_tail_only. assert (OWf : only (PList GetList) Wf) by apply writes_front_only. pose proof (counting_part _ Hcnt) as HJ.
  set (W := _stModifyData s ++ Wb ++ Wf). assert (EC : at_part PChunk W = []) by (unfold W; by parts). assert (EU : at_part (PHead HUsedChunk) W = []) by (unfold W; by parts).
  eexists. split; [done |]. split; [|by apply commit_quiet]. apply (commit_rep busy L s A); [done | | done | done | done].
  apply (relist_memory _ _ A); try done; try (unfold W; by parts).
  - intros c. apply to_front_perm; [by apply (lo_dom _ _ _ Hl) | apply (lo_nodup _ _ _ Hl)].
  - apply (front_dll GetList _ (_hash_size s) A a l l'); [done | done | done | by rewrite E | intros [] Hc; [unfold W; by parts | done] | unfold W; by parts].
  - apply tail_same; [done | unfold W; by parts | apply (lo_dirty_tail _ _ _ Hl)].
  - apply tail_same; [done | unfold W; by parts | apply (lo_sync_tail _ _ _ Hl)].
  - unfold tail_ok. rewrite (apply_part W (PHead HBackupTail)) by done. replace (at_part (PHead HBackupTail) W) with Wb by (unfold W; by parts).
    rewrite E in Hv. destruct (tail_after l a l' Hnd H0 (mem s) HBackupTail v Ev Hv) as (v' & Ev' & Hv'). exists v'. split; [done |]. rewrite E. rewrite elem_of_app, elem_of_cons in *. tauto.
Qed.

(** The part of [refreshSetList] that writes. *)
Definition writes_set_tails (l : list Z) (a vs vd : Z) : list (loc * Z) :=
  (if (vs =? a) && bool_decide (l ≠ []) then [((0, HSyncTail), lst l)] else []) ++
  (if (vd =? a) && bool_decide (l ≠ []) then [((0, HDirtyTail), lst l)] else if vd =? 0 then [((0, HDirtyTail), a)] else []).
Lemma set_tails_ok l a l' s (vs vd : Z) : NoDup (l ++ a :: l') → 0 ∉ l ++ a :: l' → dll SetList (mem s) (l ++ a :: l') → room 2 s →
  mem s !! (0, HSyncTail) = Some vs → mem s !! (0, HDirtyTail) = Some vd → vs = 0 ∨ vs ∈ l ++ a :: l' → vd = 0 ∨ vd ∈ l ++ a :: l' →
  let W := writes_set_tails l a vs vd in
  let h := hd0 (l ++ a :: l') in
  (∀ {B} (k : prog t Empty_set B),
    (let* y := head_ HSyncTail in
     (if (y =? a) && negb (h =? a) then let* p := load (a, BPrev SetList) in update (0, HSyncTail) p else ret tt) ;;;
     let* d := head_ HDirtyTail in
     (if (d =? a) && negb (h =? a) then let* p := load (a, BPrev SetList) in update (0, HDirtyTail) p
      else if d =? 0 then update (0, HDirtyTail) a else ret tt) ;;; k) s = k (push W s)) ∧
  exist (mem s) W ∧ zlen W ≤ 2 ∧ (∀ p, p ≠ PHead HSyncTail → p ≠ PHead HDirtyTail → at_part p W = []) ∧
  (∀ J, at_part (PHead HSyncTail) J = [] → at_part (PHead HDirtyTail) J = [] →
    tail_ok (apply_writes (J ++ W) (mem s)) HSyncTail (l ++ a :: l') ∧ tail_ok (apply_writes (J ++ W) (mem s)) HDirtyTail (l ++ a :: l')).
Proof.
  intros Hnd H0 D Hr Es Ed Hs Hd W h. pose proof D as [Eh Et En Ep]. assert (Ein : a ∈ l ++ a :: l') by (rewrite elem_of_app, elem_of_cons; tauto).
  destruct (mid_not l a l' Hnd H0) as (Ha & Ha' & Ha0 & Hl0 & _). specialize (Ep a Ein). rewrite prv_mid in Ep by done.
  assert (Hh : negb (h =? a) = bool_decide (l ≠ [])).
  { destruct l as [|x l0]; [unfold h; cbn; by rewrite Z.eqb_refl |]. rewrite bool_decide_eq_true_2 by done. apply negb_true_iff, Z.eqb_neq. unfold h. cbn. intros ->. apply Ha. left. }
  set (bs := (vs =? a) && bool_decide (l ≠ [])). set (bd := (vd =? a) && bool_decide (l ≠ [])).
  set (Ws := if bs then [((0, HSyncTail), lst l)] else [] : list (loc * Z)).
  set (Wd := if bd then [((0, HDirtyTail), lst l)] else if vd =? 0 then [((0, HDirtyTail), a)] else [] : list (loc * Z)).
  assert (OWs : only (PHead HSyncTail) Ws) by (unfold Ws; destruct bs; by repeat constructor).
  assert (OWd : only (PHead HDirtyTail) Wd) by (unfold Wd; destruct bd; [|destruct (vd =? 0)]; by repeat constructor).
  assert (Hll : lst l = 0 ∨ lst l ∈ l ++ a :: l') by (destruct (lst_in l); [by left | right; apply elem_of_app; by left]).
  change W with (Ws ++ Wd). clear W. split_and!.
  - intros B k. rewrite Hh. unfold head_. rewrite (bind_Ok _ _ _ _ _ (load_ok _ _ _ Es)). rewrite <- (push_nil s) at 1.
    rewrite (then_push _ _ _ Ws s).
    2: { fold bs. unfold Ws. destruct bs; [|by rewrite !push_nil]. rewrite (bind_Ok _ _ _ _ _ (load_ok (a, BPrev SetList) (lst l) (push [] s) Ep)). apply hm_update_ok. room. }
    rewrite (bind_Ok _ _ _ _ _ (load_ok (0, HDirtyTail) vd (push _ s) Ed)). apply then_push. assert (Hlen : (length Ws ≤ 1)%nat) by (unfold Ws; destruct bs; cbn; lia).
    fold bd. unfold Wd. destruct bd; [rewrite (bind_Ok _ _ _ _ _ (load_ok (a, BPrev SetList) (lst l) (push _ s) Ep)); apply hm_update_ok; room |].
    destruct (vd =? 0); [apply hm_update_ok; room | by rewrite !push_nil].
  - apply exist_app; [unfold Ws; destruct bs | unfold Wd; destruct bd; [|destruct (vd =? 0)]]; repeat constructor; cbn; rewrite ?Es, ?Ed; by eexists.
  - unfold Ws, Wd. destruct bs, bd, (vd =? 0); cbn; lia.
  - intros p Hp1 Hp2. rewrite at_part_app, (at_part_other p (PHead HSyncTail)), (at_part_other p (PHead HDirtyTail)) by done. done.
  - intros J J1 J2. split.
    + assert (EW : at_part (PHead HSyncTail) (J ++ Ws ++ Wd) = Ws) by (rewrite at_part_app, J1; by parts). unfold Ws in EW at 2. destruct bs; [by apply (tail_to _ _ _ _ (lst l)) | apply tail_same; [done.. |]; by exists vs].
    + assert (EW : at_part (PHead HDirtyTail) (J ++ Ws ++ Wd) = Wd) by (rewrite at_part_app, J2; by parts). unfold Wd in EW at 2.
      destruct bd; [by apply (tail_to _ _ _ _ (lst l)) |]. destruct (vd =? 0); [apply (tail_to _ _ _ _ a); tauto | apply tail_same; [done.. |]; by exists vd].
Qed.
Lemma refreshSetList_ok busy L s A a : rep busy L s A → counting s → is_Some (a_ents A !! a) →
  ∃ s', refreshSetList a s = (Ok tt, s') ∧ rep busy L s' (to_front GetList a (to_front SetList a A)) ∧ quiet s s'.
Proof.
  intros Hr Hcnt Ha. pose proof Hr as [Hl _ _ _]. destruct (order_split _ _ _ _ SetList Hl Ha) as (l & l' & E & Hnd).
  pose proof (order_nonzero _ _ _ _ SetList Hr) as H0. pose proof (lo_dll _ _ _ Hl SetList) as D. rewrite E in H0, D. pose proof D as [Eh Et _ _].
  assert (Hz : hd0 (l ++ a :: l') ≠ 0 ∧ lst (l ++ a :: l') ≠ 0) by (rewrite hd0_zero, lst_zero by done; by destruct l). destruct Hz as [Hz1 Hz2].
  destruct (lo_sync_tail _ _ _ Hl) as (vs & Es & Hs). destruct (lo_dirty_tail _ _ _ Hl) as (vd & Ed & Hd). rewrite E in Hs, Hd.
  assert (R : room 10 s) by (destruct Hcnt; unfold room; lia).
  destruct (set_tails_ok l a l' s vs vd Hnd H0 D (room_le 10 2 s ltac:(lia) R) Es Ed Hs Hd) as (F1 & X1 & L1 & O1 & T). set (Wt := writes_set_tails l a vs vd) in *.
  pose proof (counting_part _ Hcnt) as HJ.
  assert (Hgo : ∃ s1, refreshSetList a s = refreshGetList a s1 ∧ rep busy L s1 (to_front SetList a A) ∧ quiet s s1).
  { unfold refreshSetList. unfold head_ at 1 2. rewrite (bind_Ok _ _ _ _ _ (load_ok _ _ _ Eh)), (bind_Ok _ _ _ _ _ (load_ok _ _ _ Et)).
    unfold bind at 1, assert_that at 1. rewrite (proj2 (Z.eqb_neq _ _) Hz1). unfold bind at 1, assert_that at 1. rewrite (proj2 (Z.eqb_neq _ _) Hz2). cbn [negb].
    rewrite F1. clear F1. destruct (decide (l = [])) as [->|Hne].
    - cbn [app hd0 head from_option]. rewrite Z.eqb_refl. rewrite (bind_Ok _ _ _ _ _ (commit_ok s Wt (counting_exist _ _ _ Hcnt Hl) X1)). eexists. split; [done |].
      set (W := _stModifyData s ++ Wt). assert (EC : at_part PChunk W = []) by (unfold W; by parts). split; [|by apply commit_quiet].
      assert (Eq : abs_eq A (to_front SetList a A)) by (apply front_already; by rewrite E). rewrite <- Eq. destruct (T (_stModifyData s) (HJ (PHead HSyncTail) ltac:(done) ltac:(done)) (HJ (PHead HDirtyTail) ltac:(done) ltac:(done))) as [T1 T2]. rewrite <- E in T1, T2.
      apply (commit_rep busy L s A); [done | | done | done | unfold W; by parts]. apply (relist_memory _ _ A); try done; try (unfold W; by parts).
      + intros c. fold W. replace (at_part (PList c) W) with ([] : list (loc * Z)) by (unfold W; by parts). apply (lo_dll _ _ _ Hl).
      + apply tail_same; [done | unfold W; by parts | apply (lo_backup_tail _ _ _ Hl)].
    - destruct (front_around SetList l a l' Hnd H0 Hne s D) as (_ & _ & _ & Ep & En & Hha & _ & Hl0).
      assert (hd0 (l ++ a :: l') = hd0 l) as -> by by destruct l. rewrite (proj2 (Z.eqb_neq _ _) Hha).
      rewrite (bind_Ok _ _ _ _ _ (load_ok (a, BPrev SetList) (lst l) (push Wt s) Ep)), (bind_Ok _ _ _ _ _ (load_ok (a, BNext SetList) (hd0 l') (push Wt s) En)).
      unfold bind at 1, assert_that at 1. rewrite (proj2 (Z.eqb_neq _ _) Hl0). cbn [negb].
      destruct (move_front_ok SetList l a l' Hnd H0 Hne (push Wt s) D ltac:(room)) as (F2 & X2). rewrite (bind_Ok _ _ _ _ _ F2), push_push.
      set (Wf := writes_front SetList l a l') in *. rewrite (bind_Ok _ _ _ _ _ (commit_ok s (Wt ++ Wf) (counting_exist _ _ _ Hcnt Hl) (exist_app _ _ _ X1 X2))).
      assert (OWf : only (PList SetList) Wf) by apply writes_front_only.
      set (W := _stModifyData s ++ Wt ++ Wf). assert (EC : at_part PChunk W = []) by (unfold W; by parts).
      eexists. split; [done |]. split; [|by apply commit_quiet].
      destruct (T (_stModifyData s) (HJ (PHead HSyncTail) ltac:(done) ltac:(done)) (HJ (PHead HDirtyTail) ltac:(done) ltac:(done))) as [T1 T2]. rewrite <- E in T1, T2.
      assert (Htail : ∀ f l, part_of f = PHead f → tail_ok (apply_writes (_stModifyData s ++ Wt) (mem s)) f l → tail_ok (apply_writes W (mem s)) f l).
      { intros f l0 Hf HT. unfold W. rewrite app_assoc, apply_app. by apply tail_same; [| apply (at_part_other _ (PList SetList)) |]. }
      apply (commit_rep busy L s A); [done | | done | done | unfold W; by parts]. apply (relist_memory _ _ A); try done; try (unfold W; by parts).
      + intros c. apply to_front_perm; [by apply (lo_dom _ _ _ Hl) | apply (lo_nodup _ _ _ Hl)].
      + apply (front_dll SetList _ (_hash_size s) A a l l'); [done | done | done | by rewrite E | intros [] Hc; [done | unfold W; by parts] | unfold W; by parts].
      + by apply Htail.
      + by apply Htail.
      + apply tail_same; [done | unfold W; by parts | apply (lo_backup_tail _ _ _ Hl)]. }
  destruct Hgo as (s1 & -> & Hr1 & Q1). destruct (refreshGetList_ok busy L s1 _ a Hr1 (q_counting _ _ Q1 Hcnt) Ha) as (s2 & E2 & Hr2 & Q2).
  exists s2. split; [done |]. split; [done | by etrans].
Qed.

(** *** One block *)

Definition set_entry (a : Z) (e : entry) (A : abs) : abs := mk_abs (a_order A) (a_bucket A) (<[a := e]> (a_ents A)).
(** What changes with a block's own members and the counts. *)
Definition own (a : Z) (x : Z) (f : field) : bool :=
  match part_of f with
  | PEntry => bool_decide (x = a)
  | PHead g => match g with HDirtyCount | HOnlyKeyCount | HGetCount | HHitCount => true | _ => false end
  | PChunk => true
  | _ => false
  end.
Lemma entry_memory m m' n A a e e' : lists_ok m n A → a_ents A !! a = Some e → e_index e' = e_index e →
  (∀ x f, own a x f = false → m' !! (x, f) = m !! (x, f)) → ent_ok m' a e' →
  m' !! (0, HDirtyCount) = Some (wrapU 64 (count_ents e_dirty (<[a := e']> (a_ents A)))) →
  m' !! (0, HOnlyKeyCount) = Some (wrapU 64 (count_ents e_only (<[a := e']> (a_ents A)))) →
  is_Some (m' !! (0, HGetCount)) → is_Some (m' !! (0, HHitCount)) → lists_ok m' n (set_entry a e' A).
Proof.
  intros [] He Ei Em Hent Hd Ho Hg Hh.
  assert (HT : ∀ f l, own a 0 f = false → tail_ok m f l → tail_ok m' f l) by (intros f l Hf (v & Ev & Hv); exists v; by rewrite Em).
  assert (Hin : ∀ x, is_Some (<[a := e']> (a_ents A) !! x) ↔ is_Some (a_ents A !! x)).
  { intros x. destruct (decide (x = a)) as [->|]; [rewrite lookup_insert_eq, He; split; by eexists | by rewrite lookup_insert_ne]. }
  constructor; cbn [a_order a_bucket a_ents set_entry]; try done; try (by apply HT).
  - intros c. eapply dll_ext; [|by apply lo_dll]. intros x f Hf. apply Em. unfold own. by rewrite Hf.
  - intros c x. by rewrite lo_dom, Hin.
  - intros i Hi. eapply bucket_ext; [|by apply lo_bucket]. intros x f Hf. apply Em. unfold own. by rewrite Hf.
  - intros i x Hi. rewrite lo_bucket_dom by done. destruct (decide (x = a)) as [->|]; [rewrite lookup_insert_eq | by rewrite lookup_insert_ne]. rewrite He.
    split; intros (y & [= <-] & Hy); (eexists; split; [reflexivity | congruence]).
  - intros x y. destruct (decide (x = a)) as [->|]; [rewrite lookup_insert_eq; intros [= <-]; rewrite Ei; eauto | rewrite lookup_insert_ne by done; eauto].
  - intros x y. destruct (decide (x = a)) as [->|Hx]; [rewrite lookup_insert_eq; by intros [= <-] |]. rewrite lookup_insert_ne by done. intros Hy.
    destruct (lo_ent x y Hy). constructor; (rewrite Em; [done |]); unfold own; cbn; by apply bool_decide_eq_false_2.
  - rewrite Em by done. rewrite lo_elements. do 2 f_equal. rewrite (count_update _ _ _ _ e' He). cbn. lia.
Qed.

Definition dirtied (b : bool) (e : entry) : entry := mk_entry (e_index e) (e_sync e) b (e_only e) (e_chunks e) (e_data e).
Lemma same_chains_insert (E : gmap Z entry) (a : Z) (e e' : entry) : E !! a = Some e → e_chunks e' = e_chunks e → e_data e' = e_data e → same_chains E (<[a := e']> E).
Proof. intros He Ec Ed x. destruct (decide (x = a)) as [->|]; [rewrite lookup_insert_eq, He; cbn; congruence | by rewrite lookup_insert_ne]. Qed.
Lemma set_entry_id a e A : a_ents A !! a = Some e → abs_eq (set_entry a e A) A.
Proof. intros He. constructor; try done. cbn. by rewrite insert_id. Qed.
Lemma count_change (f : field) (P : entry → bool) (E : gmap Z entry) (a : Z) (e e' : entry) (m : gmap loc Z) : E !! a = Some e → m !! (0, f) = Some (wrapU 64 (count_ents P E)) →
  Some (wrapU 64 (wrapU 64 (count_ents P E) + (Z.b2z (P e') - Z.b2z (P e)))) = Some (wrapU 64 (count_ents P (<[a := e']> E))).
Proof. intros He Em. rewrite (count_update _ _ _ _ e' He), wrapU_plus by lia. do 2 f_equal. lia. Qed.

Lemma setDirty_block_ok busy L s A a e b : rep busy L s A → counting s → a_ents A !! a = Some e →
  ∃ s', setDirty_block a b s = (Ok tt, s') ∧ rep busy L s' (set_entry a (dirtied b e) A) ∧ quiet s s'.
Proof.
  intros Hr Hcnt He. pose proof Hr as [Hl _ _ _]. destruct (lo_ent _ _ _ Hl a e He) as [Ei Es Ed Eo]. unfold setDirty_block. rewrite (bind_Ok _ _ _ _ _ (test_ok _ _ _ Ed)).
  destruct (Bool.eqb (e_dirty e) b) eqn:Eb; cbn [negb].
  { apply Bool.eqb_prop in Eb. exists s. split; [done |]. split; [|done]. assert (Edi : dirtied b e = e) by (rewrite <- Eb; by destruct e).
    pose proof (set_entry_id a e A He) as Eq. rewrite Edi. by rewrite Eq. }
  assert (R : room 10 s) by (destruct Hcnt; unfold room; lia).
  set (v := wrapU 64 (wrapU 64 (count_ents e_dirty (a_ents A)) + (Z.b2z b - Z.b2z (e_dirty e)))). set (W := [((0, HDirtyCount), v); ((a, BDirty), flag b)]).
  assert (F1 : (if b then incDirtyCount else delDirtyCount) s = (Ok tt, push [((0, HDirtyCount), v)] s)).
  { unfold v. destruct b, (e_dirty e); try done; cbn [Z.b2z Z.sub Z.opp Z.add]; [apply count_up_ok | apply count_down_ok]; try apply (lo_dirty _ _ _ Hl); unfold room in *; lia. }
  rewrite (bind_Ok _ _ _ _ _ F1). rewrite (bind_Ok _ _ _ _ _ (hm_update_ok (a, BDirty) (flag b) (push [((0, HDirtyCount), v)] s) ltac:(room))), push_push. cbn [app]. fold W.
  assert (X : exist (mem s) W) by (repeat apply Forall_cons_2; try apply Forall_nil_2; cbn; [rewrite (lo_dirty _ _ _ Hl) | rewrite Ed]; by eexists).
  rewrite (commit_ok s W (counting_exist _ _ _ Hcnt Hl) X). pose proof (counting_part _ Hcnt) as HJ.
  assert (EW : ∀ p, p ≠ PHead HDirtyCount → p ≠ PEntry → at_part p W = []).
  { intros p Hp1 Hp2. unfold at_part, W. rewrite !filter_cons. repeat case_decide; cbn in *; congruence. }
  set (V := _stModifyData s ++ W). assert (EC : at_part PChunk V = []) by (unfold V; by parts). eexists. split; [done |]. split; [|by apply commit_quiet].
  assert (EPe : at_part PEntry V = [((a, BDirty), flag b)]) by (unfold V; rewrite at_part_app, HJ by done; done).
  apply (commit_rep busy L s A); [done | | by apply (same_chains_insert _ _ e) | done | unfold V; by parts]. apply (entry_memory (mem s) _ _ A a e); try done.
  - intros x f Hf. unfold own in Hf. fold V. destruct (decide (part_of f = PEntry)) as [Ef|Ef].
    { rewrite Ef in Hf. apply bool_decide_eq_false in Hf. rewrite (apply_part V PEntry), EPe by done. cbn. apply lookup_insert_ne. congruence. }
    apply (apply_part_nil _ (part_of f)); [done |]. unfold V. rewrite at_part_app, HJ, EW; try done; intros Ef'; rewrite Ef' in *; done.
  - constructor; rewrite (apply_part _ PEntry) by done; fold V; rewrite EPe; cbn; first [apply lookup_insert_eq | by rewrite lookup_insert_ne].
  - rewrite (apply_part _ (PHead HDirtyCount)) by done. fold V. assert (at_part (PHead HDirtyCount) V = [((0, HDirtyCount), v)]) as -> by (unfold V; rewrite at_part_app, HJ by done; done).
    cbn. rewrite lookup_insert_eq. exact (count_change HDirtyCount e_dirty (a_ents A) a e (dirtied b e) (mem s) He (lo_dirty _ _ _ Hl)).
  - rewrite (apply_part_nil _ (PHead HOnlyKeyCount)); [|done | fold V; unfold V; by parts]. rewrite (lo_only _ _ _ Hl), (count_update _ _ _ _ (dirtied b e) He). cbn. do 2 f_equal. lia.
  - apply apply_is_Some, (lo_get _ _ _ Hl).
  - apply apply_is_Some, (lo_hit _ _ _ Hl).
Qed.
End order.
