(* ===== verification/HashMapEvict.v ===== *)
(** Memory for a [HashMap]: what is thrown out for it, and new blocks and chunks. *)
From stdpp Require Import prelude gmap list.
From Stdlib Require Import ZArith Lia.
From S2P Require Import Prelude Bytes MemChunkSpec HashMap HashMapLists HashMapRep HashMapBlocks HashMapErase HashMapOrder.
Import HashMap.HashMap.

(** ** What is thrown out *)

(** The block at the back, [keep] left aside. *)
Definition victim (c : chain) (keep : Z) (A : abs) : Z := lst (del_from keep (a_order A c)).
(** The blocks [gone] are thrown out, one after another, if that may be done ([auto]). *)
Inductive evicts (auto : bool) (c : chain) (keep : Z) : abs → list (Z * entry) → abs → Prop :=
  | ev_nil A : evicts auto c keep A [] A
  | ev_cons A a e gone A' : victim c keep A = a → a ≠ 0 → a_ents A !! a = Some e → auto = true → evicts auto c keep (remove a A) gone A' → evicts auto c keep A ((a, e) :: gone) A'.
Lemma evicts_app {b} c keep A gone A' gone' A'' : evicts b c keep A gone A' → evicts b c keep A' gone' A'' → evicts b c keep A (gone ++ gone') A''.
Proof. induction 1; intros H'; [done |]. econstructor; eauto. Qed.
(** The records of those that have a value. *)
Definition readable (gone : list (Z * entry)) : list BlockData :=
  omap (λ ae, let r := record_of ae.2 no_data in if r.1 =? RT_OK then Some r.2 else None) gone.
Lemma readable_app g g' : readable (g ++ g') = readable g ++ readable g'.
Proof. apply omap_app. Qed.
Lemma record_of_result e data : (record_of e data).1 = RT_OK ∨ (record_of e data).1 = RT_ONLY_KEY ∨ (record_of e data).1 = RT_DECODE_ERR.
Proof. unfold record_of. destruct (Pack.unpack _) as [[k rest]|]; [|tauto]. destruct (e_only e); [tauto |]. destruct (Pack.unpack rest) as [[v ?]|]; tauto. Qed.

Lemma lst_split l : l ≠ [] → ∃ l', l = l' ++ [lst l].
Proof. destruct l as [|x l _] using rev_ind; [done |]. intros _. exists l. by rewrite lst_snoc. Qed.
Lemma victim_not_keep c keep A : victim c keep A ≠ 0 → victim c keep A ≠ keep ∧ victim c keep A ∈ a_order A c.
Proof. unfold victim. destruct (lst_in (del_from keep (a_order A c))) as [?|[??]%elem_of_del]; done. Qed.
Lemma del_comm a b l : del_from a (del_from b l) = del_from b (del_from a l).
Proof. unfold del_from. rewrite !list_filter_filter. apply list_filter_iff. tauto. Qed.
Lemma evicts_ents {b} c keep A gone A' x : evicts b c keep A gone A' → a_ents A' !! x = if decide (x ∈ gone.*1) then None else a_ents A !! x.
Proof.
  induction 1 as [A|A a e gone A' Hv Ha He _ _ IH]; [rewrite decide_False by apply not_elem_of_nil; done |]. rewrite IH. cbn [fmap list_fmap fst a_ents remove].
  destruct (decide (x = a)) as [->|Hx].
  - rewrite lookup_delete_eq. destruct (decide (a ∈ a :: _)) as [|Hn]; [by case_decide | by destruct Hn; left].
  - rewrite lookup_delete_ne by done. apply decide_ext. rewrite elem_of_cons. naive_solver.
Qed.
Lemma filter_true {B} (P : B → Prop) `{∀ x, Decision (P x)} (l : list B) : (∀ x, x ∈ l → P x) → filter P l = l.
Proof. induction l as [|x l IH]; intros HP; [done |]. rewrite filter_cons, decide_True by (apply HP; left). f_equal. apply IH. intros y Hy. apply HP. by right. Qed.
(** What stays is the front of the order. *)
Lemma evicts_order {b} c keep A gone A' : evicts b c keep A gone A' → NoDup (a_order A c) →
  del_from keep (a_order A c) = del_from keep (a_order A' c) ++ reverse gone.*1 ∧
  (∀ c', a_order A' c' = filter (λ x, x ∉ gone.*1) (a_order A c')) ∧ (∀ x e, (x, e) ∈ gone → x ≠ keep ∧ a_ents A !! x = Some e).
Proof.
  induction 1 as [A|A a e gone A' Hv Ha He _ _ IH]; intros Hnd.
  - split_and!; [by rewrite app_nil_r | | by intros x e ?%not_elem_of_nil]. intros c'. symmetry. apply filter_true. intros x _. apply not_elem_of_nil.
  - destruct IH as (IH1 & IH2 & IH3); [by apply NoDup_filter |]. pose proof (victim_not_keep c keep A) as Hk. rewrite Hv in Hk. destruct (Hk Ha) as [Hk1 Hk2].
    cbn [fmap list_fmap fst]. split_and!.
    + rewrite reverse_cons, app_assoc, <- IH1. cbn [a_order remove]. rewrite del_comm. unfold victim in Hv. destruct (lst_split (del_from keep (a_order A c))) as [l E]; [intros E; by rewrite E in Hv |].
      rewrite Hv in E. rewrite E. f_equal. assert (Hnd' : NoDup (l ++ [a])) by (rewrite <- E; by apply NoDup_filter).
      rewrite del_mid by done. by rewrite app_nil_r.
    + intros c'. rewrite IH2. cbn [a_order remove]. unfold del_from. rewrite list_filter_filter. apply list_filter_iff. intros x. rewrite elem_of_cons. tauto.
    + intros x y [[= -> ->]|Hx]%elem_of_cons; [done |]. destruct (IH3 x y Hx) as [? Hy]. split; [done |]. cbn in Hy. by apply lookup_delete_Some in Hy as [_ ?].
Qed.

Section evict.
Context {Al : Type} {AL : Allocator Al} {ALL : AllocatorLaws Al}.
Abbreviation t := (t (Al := Al)).
Implicit Types (s : t) (A : abs) (W : list (loc * Z)).

(** The parts of a state that an eviction leaves: blocks [keep] and loose ones keep their
    memory. *)
Record spares (L : list Z) s s' : Prop := {
  sp_cfg : same_cfg s s';
  sp_counting : counting s → counting s';
  sp_idle : idle s → idle s';
  sp_loose y : y ∈ L → _cData s' !! y = _cData s !! y ∧ ∀ f, part_of f = PChunk → mem s' !! (y, f) = mem s !! (y, f)
}.
#[export] Instance spares_po L : PreOrder (spares L).
Proof.
  split; [by intros s | intros s1 s2 s3 [] []]. constructor; [by etrans | tauto.. |]. intros y Hy. destruct (sp_loose0 y Hy) as [Ed Hm], (sp_loose1 y Hy) as [Ed' Hm'].
  split; [by rewrite Ed', Ed |]. intros f Hf. by rewrite Hm', Hm.
Qed.

Lemma victim_loads c keep A : NoDup (a_order A c) → 0 ∉ a_order A c →
  victim c keep A = let x := lst (a_order A c) in if x =? 0 then 0 else if keep =? x then prv (a_order A c) x else x.
Proof.
  intros Hnd H0. unfold victim. destruct (a_order A c) as [|x l _] using rev_ind; [done |]. rewrite lst_snoc. cbv zeta.
  destruct (Z.eqb_spec x 0) as [->|Hx]; [destruct H0; apply elem_of_app; right; left |]. destruct (Z.eqb_spec keep x) as [->|Hk].
  - rewrite del_mid, app_nil_r by done. by rewrite prv_mid by apply not_elem_of_nil.
  - unfold del_from. rewrite filter_app, filter_cons, decide_True by done. apply lst_snoc.
Qed.
(** Areas of the block that is kept. *)
Definition owned (keep : Z) A (K : list Z) : Prop := ∀ y, y ∈ K → ∃ e, a_ents A !! keep = Some e ∧ y ∈ keep :: e_chunks e.
Lemma owned_remove keep A K a : a ≠ keep → owned keep A K → owned keep (remove a A) K.
Proof. intros Hne HK y Hy. destruct (HK y Hy) as (e & He & Hye). exists e. split; [|done]. cbn. by rewrite lookup_delete_ne. Qed.
Lemma owned_evicts {b} c keep A gone A' K : evicts b c keep A gone A' → owned keep A K → owned keep A' K.
Proof.
  induction 1 as [|A a e gone A' Hv Ha He _ _ IH]; intros HK; [done |]. apply IH, owned_remove; [|done].
  pose proof (victim_not_keep c keep A) as Hk. rewrite Hv in Hk. by apply Hk.
Qed.
Lemma eraseExcept_loop_ok keep K L : ∀ fuel s A d, rep 0 L s A → _bAutoErase s = true → owned keep A K → counting s → (size (a_ents A) < fuel)%nat → 0 ≤ d →
  ∃ s' gone A', eraseExcept_loop fuel keep d s = (Ok (d - zlen (readable gone)), s') ∧ evicts (_bAutoErase s) (order_of s) keep A gone A' ∧ rep 0 L s' A' ∧ spares (K ++ L) s s' ∧
    vtData s' = vtData s ++ readable gone ∧ zlen (readable gone) ≤ d ∧ (zlen (readable gone) = d ∨ victim (order_of s) keep A' = 0).
Proof.
  induction fuel as [|fuel IH]; intros s A d Hr Hau HK Hcnt Hf Hd; [lia |]. cbn [eraseExcept_loop]. pose proof Hr as [Hl _ _ _].
  assert (Hstop : d = 0 ∨ victim (order_of s) keep A = 0 → ∃ s' gone A', (Ok d : outcome Empty_set Z, s) = (Ok (d - zlen (readable gone)), s') ∧ evicts (_bAutoErase s) (order_of s) keep A gone A' ∧ rep 0 L s' A' ∧ spares (K ++ L) s s' ∧
    vtData s' = vtData s ++ readable gone ∧ zlen (readable gone) ≤ d ∧ (zlen (readable gone) = d ∨ victim (order_of s) keep A' = 0)).
  { intros H. exists s, [], A. cbn. split_and!; try done; [f_equal; f_equal; lia | constructor | by rewrite app_nil_r | destruct H; [left; lia | by right]]. }
  destruct (Z.eqb_spec d 0) as [->|Hd0]; [apply Hstop; by left |]. unfold bind at 1, get_st. set (c := order_of s) in *.
  pose proof (lo_dll _ _ _ Hl c) as D. pose proof (lo_nodup _ _ _ Hl c) as Hnd. pose proof (order_nonzero _ _ _ _ c Hr) as H0.
  unfold head_. rewrite (bind_Ok _ _ _ _ _ (load_ok _ _ _ (dll_tail _ _ _ D))).
  pose proof (victim_loads c keep A Hnd H0) as Hv. cbv zeta in Hv. destruct (Z.eqb_spec (lst (a_order A c)) 0) as [Hx|Hx]; [apply Hstop; by right |].
  assert (Hin : lst (a_order A c) ∈ a_order A c) by (destruct (lst_in (a_order A c)); done).
  assert (E1 : (if keep =? lst (a_order A c) then load (lst (a_order A c), BPrev c) else ret (lst (a_order A c))) s = (Ok (victim c keep A), s)).
  { rewrite Hv. destruct (keep =? _); [|done]. apply load_ok. by apply (dll_prev _ _ _ D). }
  rewrite (bind_Ok _ _ _ _ _ E1). destruct (Z.eqb_spec (victim c keep A) 0) as [Hz|Hz]; [apply Hstop; by right |].
  destruct (victim_not_keep c keep A Hz) as [Hk Ha]. set (a := victim c keep A) in *. clear E1 Hv. apply (lo_dom _ _ _ Hl) in Ha as [e He].
  rewrite (bind_Ok _ _ _ _ _ (getBlockData_ok 0 L s A a e no_data Hr He Hz)).
  set (r := record_of e no_data). set (one := readable [(a, e)]). assert (Eone : one = if r.1 =? RT_OK then [r.2] else []) by (unfold one, readable; cbn; by destruct (_ =? _)).
  set (s1 := set_vt (vtData s ++ one) s).
  assert (E2 : (if r.1 =? RT_OK then modify (λ s, set_vt (vtData s ++ [r.2]) s) ;;; ret (d - 1) else if r.1 =? RT_NO_DATA then ret (d - 1) else ret d : prog t Empty_set Z) s = (Ok (d - zlen one), s1)).
  { unfold s1. rewrite Eone. destruct (record_of_result e no_data) as [E|[E|E]]; fold r in E; rewrite E; cbn; [done | |]; rewrite app_nil_r; unfold ret; f_equal; [f_equal; lia | by destruct s | f_equal; lia | by destruct s]. }
  rewrite (bind_Ok _ _ _ _ _ E2). assert (Hone : 0 ≤ zlen one ≤ 1) by (rewrite Eone; destruct (_ =? _); cbn; lia).
  assert (Hr1 : rep 0 L s1 A) by (destruct Hr; by constructor).
  destruct (erase_block_ok 0 L s1 A a e Hr1 Hcnt He) as (s2 & E3 & Hr2 & C2 & S2 & J2 & V2 & M2). rewrite (bind_Ok _ _ _ _ _ E3).
  assert (Hcnt2 : counting s2) by (split; rewrite J2; [constructor | cbn; lia]).
  assert (Eaut : _bAutoErase s2 = true) by (destruct C2 as (_ & _ & _ & -> & _); exact Hau).
  destruct (IH s2 (remove a A) (d - zlen one)) as (s' & gone & A' & E4 & Hev & Hr' & Hsp & Hvt & Hle & Hend).
  { done. } { done. } { by apply owned_remove. } { done. } { cbn. rewrite map_size_delete, He. pose proof (map_size_ne_0_lookup_2 (a_ents A) a ltac:(by eexists)). lia. } { lia. }
  assert (Eord : order_of s2 = c) by (unfold c, order_of; destruct C2 as (_ & _ & _ & _ & Em & _); by rewrite Em). rewrite Eord in *. rewrite Eaut in Hev.
  assert (Erd : readable ((a, e) :: gone) = one ++ readable gone) by apply (readable_app [(a, e)]).
  exists s', ((a, e) :: gone), A'. rewrite Erd, length_app. split_and!; try done.
  - rewrite E4. do 2 f_equal. lia.
  - rewrite Hau. by econstructor.
  - etrans; [|done]. constructor; [done | done | by left |]. intros y Hy.
    destruct (M2 y) as [Ed Em]; [|split; [done |]; intros f Hfc; apply Em; [done | by intros ->]].
    intros Hya. apply elem_of_app in Hy as [Hy|Hy]; [|by apply (co_loose _ _ _ _ _ (r_chains _ _ _ _ Hr) a e y)].
    destruct (HK y Hy) as (e' & He' & Hy'). apply Hk. by apply (co_disjoint _ _ _ _ _ (r_chains _ _ _ _ Hr) a e keep e' y).
  - rewrite Hvt, V2. unfold s1. cbn. by rewrite <- app_assoc.
  - lia.
  - destruct Hend; [left; lia | by right].
Qed.
Lemma ents_size L s A : rep 0 L s A → (size (a_ents A) ≤ size (_cData s))%nat.
Proof. intros Hr. rewrite <- !size_dom. apply subseteq_size. intros a Ha%elem_of_dom. apply elem_of_dom. by eapply entry_area. Qed.
(** How an eviction for [keep] ends. *)
Definition evicted (keep : Z) (K L : list Z) s A (gone : list (Z * entry)) s' A' : Prop :=
  evicts (_bAutoErase s) (order_of s) keep A gone A' ∧ rep 0 L s' A' ∧ spares (K ++ L) s s' ∧ vtData s' = vtData s ++ readable gone.
Lemma evicted_none keep K L s A : rep 0 L s A → evicted keep K L s A [] s A.
Proof. intros Hr. split_and!; [constructor | done | done | by rewrite app_nil_r]. Qed.
Lemma order_of_cfg s s' : same_cfg s s' → order_of s' = order_of s.
Proof. intros (_ & _ & _ & _ & E & _). unfold order_of. by rewrite E. Qed.
Lemma auto_of_cfg s s' : same_cfg s s' → _bAutoErase s' = _bAutoErase s.
Proof. by intros (_ & _ & _ & E & _). Qed.
Lemma evicted_trans keep K L s A g s1 A1 g' s2 A2 : evicted keep K L s A g s1 A1 → evicted keep K L s1 A1 g' s2 A2 → evicted keep K L s A (g ++ g') s2 A2.
Proof.
  intros (E & _ & S & V) (E' & R & S' & V'). rewrite (order_of_cfg _ _ (sp_cfg _ _ _ S)), (auto_of_cfg _ _ (sp_cfg _ _ _ S)) in E'.
  split_and!; [by eapply evicts_app | done | by etrans | by rewrite V', V, readable_app, app_assoc].
Qed.
Lemma eraseExcept_ok keep K L s A : rep 0 L s A → owned keep A K → counting s → 0 ≤ _iEraseCount s → ∃ s' gone A', eraseExcept keep s = (Ok (zlen (readable gone)), s') ∧ evicted keep K L s A gone s' A' ∧
  (readable gone = [] → _bAutoErase s = false ∨ victim (order_of s) keep A' = 0) ∧ (readable gone ≠ [] → gone ≠ []).
Proof.
  intros Hr HK Hcnt Hn. unfold eraseExcept. unfold bind at 1, get_st. destruct (_bAutoErase s) eqn:Eauto; cbn [negb].
  2: { exists s, [], A. split_and!; [done | by apply evicted_none | by left | done]. }
  set (n := if _iEraseCount s =? 0 then 10 else _iEraseCount s). assert (0 < n) by (unfold n; destruct (Z.eqb_spec (_iEraseCount s) 0); lia).
  pose proof (ents_size L s A Hr). destruct (eraseExcept_loop_ok keep K L (S (size (_cData s))) s A n Hr Eauto HK Hcnt ltac:(lia) ltac:(lia)) as (s' & gone & A' & E & Hev & Hr' & Hsp & Hvt & Hle & Hend).
  exists s', gone, A'. unfold bind, with_fuel. rewrite E. split_and!; [unfold ret; do 2 f_equal; lia | done | | by intros ? ->].
  intros Enil. rewrite Enil in Hend. destruct Hend as [Hend|]; [cbn in Hend; lia | by right].
Qed.

(** Memory that was lent: a place of [_cData] for it. *)
Definition lent_area (x n : Z) s : Prop :=
  _cData s !! x = None ∧ 0 < x ∧ sizeof_tagBlockHead < n < 2 ^ 32 ∧
  ∃ free used, al_owns (_pDataAllocator s) free used ∧ is_Some (used !! (_pHead s + x)) ∧ (∀ y, is_Some (_cData s !! y) → is_Some (used !! (_pHead s + y))) ∧
    ∀ p m, free !! p = Some m ∨ used !! p = Some m → _pHead s < p ∧ sizeof_tagBlockHead < m < 2 ^ 32.
Lemma al_allocate_ok K L s A n : rep 0 L s A →
  on_alloc (al_allocate n) s = (Ok None, s) ∨
  ∃ p size s', on_alloc (al_allocate n) s = (Ok (Some (p, size)), s') ∧ rep 0 L s' A ∧ spares (K ++ L) s s' ∧ vtData s' = vtData s ∧ lent_area (p - _pHead s') size s'.
Proof.
  intros Hr. pose proof Hr as [Hl Hc (free & used & Ho & Hu & Hp) Hn]. destruct (al_allocate_law n _ _ _ Ho) as [[_ E]|(p & m & al & E & Ef & Ho')].
  - left. unfold on_alloc. rewrite E. by destruct s.
  - right. exists p, m, (set_alloc al s). unfold on_alloc. rewrite E. pose proof (al_disjoint _ _ _ Ho) as [Hd _].
    assert (Hpu : used !! p = None) by (by eapply map_disjoint_Some_l).
    assert (Hsub : ∀ y, is_Some (_cData s !! y) → is_Some (<[p:=m]> used !! (_pHead s + y))).
    { intros y Hy. destruct (decide (p = _pHead s + y)) as [->|]; [rewrite lookup_insert_eq; by eexists | rewrite lookup_insert_ne by done; by apply Hu]. }
    assert (Hsz : ∀ q k, delete p free !! q = Some k ∨ <[p:=m]> used !! q = Some k → _pHead s < q ∧ sizeof_tagBlockHead < k < 2 ^ 32).
    { intros q k. rewrite lookup_delete_Some, lookup_insert_Some. intros [[_ ?]|[[<- <-]|[_ ?]]]; apply Hp; tauto. }
    pose proof (Hp p m (or_introl Ef)). split_and!; try done.
    + constructor; [done | done | by exists (delete p free), (<[p:=m]> used) | done].
    + assert (Ex : _cData s !! (p - _pHead s) = None).
      { destruct (_cData s !! (p - _pHead s)) eqn:Ex; [|done]. destruct (Hu (p - _pHead s)) as [k Ek]; [by rewrite Ex; eexists |].
      replace (_pHead s + (p - _pHead s)) with p in Ek by lia. congruence. }
      split_and!; cbn; try lia; [done |]. exists (delete p free), (<[p:=m]> used). split_and!; try done. cbn. replace (_pHead s + (p - _pHead s)) with p by lia. rewrite lookup_insert_eq. by eexists.
Qed.
Lemma allocate_or_erase_ok keep K L n : ∀ fuel s A, rep 0 L s A → owned keep A K → counting s → 0 ≤ _iEraseCount s → (size (a_ents A) < fuel)%nat →
  ∃ s1 gone A' r s', evicted keep K L s A gone s1 A' ∧ allocate_or_erase fuel keep n s = (Ok r, s') ∧
    match r with
    | Some (p, size) => rep 0 L s' A' ∧ spares (K ++ L) s1 s' ∧ vtData s' = vtData s1 ∧ lent_area (p - _pHead s') size s'
    | None => s' = s1 ∧ (_bAutoErase s = false ∨ victim (order_of s) keep A' = 0)
    end.
Proof.
  induction fuel as [|fuel IH]; intros s A Hr HK Hcnt Hn Hf; [lia |]. cbn [allocate_or_erase].
  destruct (al_allocate_ok K L s A n Hr) as [E|(p & m & s' & E & H)]; rewrite (bind_Ok _ _ _ _ _ E).
  2: { exists s, [], A, (Some (p, m)), s'. split; [by apply evicted_none | done]. }
  destruct (eraseExcept_ok keep K L s A Hr HK Hcnt Hn) as (s1 & gone & A1 & E1 & Hev & Hnone & Hsome). rewrite (bind_Ok _ _ _ _ _ E1).
  destruct (readable gone) as [|r0 rs] eqn:Erd.
  - exists s1, gone, A1, None, s1. split; [done |]. split; [done |]. split; [done |]. by apply Hnone.
  - cbn [length]. rewrite (proj2 (Z.eqb_neq _ _)) by lia. pose proof Hev as (Hevs & Hr1 & Hsp & _). pose proof (sp_cfg _ _ _ Hsp) as C.
    assert (Hsize : (size (a_ents A1) < size (a_ents A))%nat).
    { destruct gone as [|[a e] gone]; [by destruct Hsome |]. inversion Hevs; subst. rewrite <- !size_dom. apply subset_size. split.
      - intros x. rewrite !elem_of_dom, (evicts_ents _ _ _ _ _ _ Hevs). case_decide; [by intros [] | done].
      - intros Hsub. assert (Hin : victim (order_of s) keep A ∈ dom (a_ents A)) by (apply elem_of_dom; by eexists). apply Hsub in Hin. apply elem_of_dom in Hin.
        rewrite (evicts_ents _ _ _ _ _ _ Hevs), decide_True in Hin by left. by destruct Hin. }
    destruct (IH s1 A1 Hr1 (owned_evicts _ _ _ _ _ _ Hevs HK) (sp_counting _ _ _ Hsp Hcnt)) as (s2 & g2 & A2 & r & s' & Hev2 & E2 & H2); [destruct C as (_ & _ & _ & _ & _ & Ec & _); by rewrite Ec | lia |].
    exists s2, (gone ++ g2), A2, r, s'. split; [by eapply evicted_trans |]. split; [done |]. destruct r as [[p m]|]; [done |].
    rewrite (order_of_cfg _ _ C) in H2. destruct C as (_ & _ & _ & Ea & _). by rewrite Ea in H2.
Qed.
End evict.
