(* ===== verification/HashMapNew.v ===== *)
(** New blocks and chunks of a [HashMap]. *)
From stdpp Require Import prelude gmap list.
From Stdlib Require Import ZArith Lia.
From S2P Require Import Prelude Bytes MemChunkSpec HashMap HashMapLists HashMapRep HashMapBlocks HashMapErase HashMapOrder HashMapEvict.
Import HashMap.HashMap.

(** ** A new block *)

Definition add (a : Z) (e : entry) (A : abs) : abs :=
  mk_abs (λ c, a :: a_order A c) (λ i, if decide (i = e_index e) then a :: a_bucket A i else a_bucket A i) (<[a := e]> (a_ents A)).
Definition new_entry (index : Z) : entry := mk_entry index 0 true false [] [].

Lemma count_up_new (P : entry → bool) (E : gmap Z entry) (a : Z) (e : entry) : E !! a = None → P e = true →
  wrapU 64 (wrapU 64 (count_ents P E) + 1) = wrapU 64 (count_ents P (<[a := e]> E)).
Proof. intros He HP. rewrite (count_insert P E a e He), HP, wrapU_plus by lia. done. Qed.

Lemma new_memory m n A a index J : lists_ok m n A → a_ents A !! a = None → 0 ≤ index < n → 0 ∉ a_order A SetList → 0 ∉ a_order A GetList → 0 ∉ a_bucket A index →
  ent_ok m a (new_entry index) → (∀ c, m !! (a, BNext c) = Some 0 ∧ m !! (a, BPrev c) = Some 0) →
  (∀ p, p ≠ PHead HGetCount → p ≠ PHead HHitCount → at_part p J = []) →
  let W := J ++ [((0, HDirtyCount), wrapU 64 (wrapU 64 (count_ents e_dirty (a_ents A)) + 1))] ++
    [((0, HElementCount), wrapU 64 (wrapU 64 (count_ents (λ _, true) (a_ents A)) + 1))] ++
    writes_bucket_push index (a_bucket A index) a ++ writes_push SetList (a_order A SetList) a ++ writes_push GetList (a_order A GetList) a in
  lists_ok (apply_writes W m) n (add a (new_entry index) A) ∧ at_part PChunk W = [] ∧ at_part (PHead HUsedChunk) W = [].
Proof.
  intros Hl Ha Hi Z1 Z2 Z3 Hent Hlinks HJ W. pose proof Hl as [].
  set (Cd := [((0, HDirtyCount), _)]) in *. set (Ce := [((0, HElementCount), _)]) in *. set (B := writes_bucket_push _ _ _) in *.
  set (U1 := writes_push SetList _ _) in *. set (U2 := writes_push GetList _ _) in *.
  assert (OCd : only (PHead HDirtyCount) Cd) by by repeat constructor. assert (OCe : only (PHead HElementCount) Ce) by by repeat constructor.
  assert (IB : in_bucket index (a :: a_bucket A index) B) by apply writes_bucket_push_in. pose proof (in_bucket_only _ _ _ IB) as OB.
  assert (OU1 : only (PList SetList) U1) by apply writes_push_only. assert (OU2 : only (PList GetList) U2) by apply writes_push_only.
  assert (Hno : ∀ c, a ∉ a_order A c) by (intros c; rewrite lo_dom, Ha; by intros []).
  assert (Hnb : ∀ i, 0 ≤ i < n → a ∉ a_bucket A i) by (intros i Hi'; rewrite lo_bucket_dom by done; intros (e & He & _); congruence).
  assert (EPl : ∀ c, at_part (PList c) W = writes_push c (a_order A c) a) by (intros []; unfold W; by parts).
  assert (EPb : at_part PBucket W = B) by (unfold W; by parts).
  assert (EPe : at_part PEntry W = []) by (unfold W; by parts).
  assert (EP : ∀ f, at_part (PHead f) W = match f with HDirtyCount => Cd | HElementCount => Ce | HGetCount | HHitCount => at_part (PHead f) J | _ => [] end) by (intros []; unfold W; by parts).
  assert (HT : ∀ f l, at_part (PHead f) W = [] → part_of f = PHead f → tail_ok m f l → tail_ok (apply_writes W m) f (a :: l)).
  { intros f l Hf Hp (v & Ev & Hv). exists v. rewrite (apply_part_nil W (PHead f)) by done. rewrite elem_of_cons. tauto. }
  assert (Hins : ∀ x, is_Some (<[a := new_entry index]> (a_ents A) !! x) ↔ x = a ∨ is_Some (a_ents A !! x)).
  { intros x. destruct (decide (x = a)) as [->|]; [rewrite lookup_insert_eq; split; [by left | by eexists] | rewrite lookup_insert_ne by done; tauto]. }
  split; [|split; [unfold W; by parts | apply (EP HUsedChunk)]]. constructor; cbn [a_order a_bucket a_ents add].
  - intros c. eapply dll_writes; [|apply EPl]. destruct (Hlinks c). by apply dll_push.
  - intros c. by apply NoDup_cons.
  - intros c x. by rewrite Hins, elem_of_cons, lo_dom.
  - intros i Hi'. eapply bucket_ext; [intros x f Hf; by rewrite (apply_part W PBucket), EPb|]. cbn. case_decide as Ei.
    + subst i. apply bucket_push; auto.
    + apply (bucket_other index i m B (a :: a_bucket A index)); [done | congruence | | by apply lo_bucket].
      intros x Hx [->|Hx']%elem_of_cons; [by apply (Hnb i) |]. apply lo_bucket_dom in Hx as (e1 & ? & ?); [|done]. apply lo_bucket_dom in Hx' as (e2 & ? & ?); [|done]. congruence.
  - intros i Hi'. cbn. case_decide; [|by apply lo_bucket_nodup]. subst i. apply NoDup_cons. auto.
  - intros i x Hi'. cbn. destruct (decide (x = a)) as [->|Hx]; [rewrite lookup_insert_eq | rewrite lookup_insert_ne by done].
    + case_decide as Ei; [subst i | split; [by intros ?%Hnb |]; by intros (e & [= <-] & ?)]. rewrite elem_of_cons. split; [intros _; by eexists | by left].
    + rewrite <- lo_bucket_dom by done. case_decide; [|done]. rewrite elem_of_cons. naive_solver.
  - intros x e. destruct (decide (x = a)) as [->|Hx]; [rewrite lookup_insert_eq; by intros [= <-] | rewrite lookup_insert_ne by done; eauto].
  - intros x e. destruct (decide (x = a)) as [->|Hx]; [rewrite lookup_insert_eq; intros [= <-] | rewrite lookup_insert_ne by done; intros He].
    + destruct Hent. constructor; by rewrite (apply_part_nil W PEntry) by done.
    + destruct (lo_ent x e He). constructor; by rewrite (apply_part_nil W PEntry) by done.
  - apply HT; [apply (EP HDirtyTail) | done | done].
  - apply HT; [apply (EP HSyncTail) | done | done].
  - apply HT; [apply (EP HBackupTail) | done | done].
  - rewrite (apply_part W (PHead HElementCount)), EP by done. cbn. rewrite lookup_insert_eq. f_equal. by apply (count_up_new (λ _, true)).
  - rewrite (apply_part W (PHead HDirtyCount)), EP by done. cbn. rewrite lookup_insert_eq. f_equal. by apply count_up_new.
  - rewrite (apply_part_nil W (PHead HOnlyKeyCount)) by (done || apply (EP HOnlyKeyCount)). rewrite (count_insert _ _ _ _ Ha). cbn. rewrite Z.add_0_r. done.
  - by apply apply_is_Some.
  - by apply apply_is_Some.
Qed.

Section new.
Context {Al : Type} {AL : Allocator Al} {ALL : AllocatorLaws Al}.
Abbreviation t := (t (Al := Al)).
Implicit Types (s : t) (A : abs) (W : list (loc * Z)).

(** Writes that do not go through the journal. *)
Definition put W s : t := set_mem (apply_writes W (mem s)) s.
Lemma put_nil s : put [] s = s.
Proof. by destruct s. Qed.
Lemma then_store {B} (l : loc) (v : Z) (k : prog t Empty_set B) W s : is_Some (mem s !! l) → (store l v ;;; k) (put W s) = k (put (W ++ [(l, v)]) s).
Proof.
  intros Hl. assert (Hl' : is_Some (mem (put W s) !! l)) by by apply apply_is_Some. rewrite (bind_Ok _ _ _ _ _ (hm_store_ok l v _ Hl')).
  unfold put. cbn. by rewrite apply_app.
Qed.

Lemma push_front_ok c l a s : 0 ∉ l → dll c (mem s) l → is_Some (mem s !! (a, BNext c)) → is_Some (mem s !! (a, BPrev c)) → room 3 s →
  push_front c a s = (Ok tt, push (writes_push c l a) s) ∧ exist (mem s) (writes_push c l a).
Proof.
  intros H0 D Hn Hp Hr. pose proof D as [Eh Et _ Dp]. unfold push_front, head_. rewrite (bind_Ok _ _ _ _ _ (load_ok _ _ _ Eh)).
  destruct (Z.eqb_spec (hd0 l) 0) as [Ez|Ez].
  - apply hd0_zero in Ez as ->; [|done]. rewrite (bind_Ok _ _ _ _ _ (load_ok _ _ _ Et)). unfold bind at 1, assert_that at 1. rewrite lst_nil. cbn [Z.eqb writes_push]. rewrite <- (push_nil s) at 1.
    do 1 (let W := journal in erewrite (then_push (update _ _) _ W) by (apply hm_update_ok; room)). let W := journal in rewrite hm_update_ok by room. rewrite push_push. split; [done |].
    repeat constructor; cbn; [rewrite Eh | rewrite Et]; by eexists.
  - assert (Hlz : lst l ≠ 0) by (rewrite lst_zero by done; intros ->; done). rewrite (bind_Ok _ _ _ _ _ (load_ok _ _ _ Et)).
    unfold bind at 1, assert_that at 1. rewrite (proj2 (Z.eqb_neq _ _) Hlz). cbn [negb]. rewrite <- (push_nil s) at 1.
    destruct l as [|h l]; [done |]. change (hd0 (h :: l)) with h in *. cbn [writes_push].
    do 2 (let W := journal in erewrite (then_push (update _ _) _ W) by (apply hm_update_ok; room)). rewrite hm_update_ok by room. rewrite push_push. split; [done |].
    apply Forall_cons_2; [done |]. apply Forall_cons_2; [cbn; rewrite (Dp h) by left; by eexists |]. apply Forall_singleton. cbn. rewrite Eh. by eexists.
Qed.
Lemma push_bucket_ok i l a s : bucket_ok i (mem s) l → 0 ∉ l → is_Some (mem s !! (a, BBlockNext)) → is_Some (mem s !! (a, BBlockPrev)) → room 5 s →
  (incListCount i ;;; push_bucket i a) s = (Ok tt, push (writes_bucket_push i l a) s) ∧ exist (mem s) (writes_bucket_push i l a).
Proof.
  intros [Eh Ec _ Dp] H0 Hn Hp Hr. rewrite <- (push_nil s) at 1. unfold incListCount. unfold bind at 1. rewrite (bind_Ok _ _ _ _ _ (load_ok (i, IListCount) _ (push [] s) Ec)), hm_update_ok, push_push by room.
  cbn [app]. unfold push_bucket. rewrite (bind_Ok _ _ _ _ _ (load_ok (i, IBlockAddr) (hd0 l) (push _ s) Eh)).
  assert (Xc : is_Some (mem s !! (i, IListCount))) by (rewrite Ec; by eexists). assert (Xh : is_Some (mem s !! (i, IBlockAddr))) by (rewrite Eh; by eexists).
  destruct (Z.eqb_spec (hd0 l) 0) as [Ez|Ez].
  - apply hd0_zero in Ez as ->; [|done]. do 2 (let W := journal in erewrite (then_push (update _ _) _ W) by (apply hm_update_ok; room)). rewrite hm_update_ok by room. rewrite push_push.
    split; [done |]. by repeat (apply Forall_cons_2 || apply Forall_nil_2).
  - destruct l as [|h l]; [done |]. change (hd0 (h :: l)) with h in *.
    do 3 (let W := journal in erewrite (then_push (update _ _) _ W) by (apply hm_update_ok; room)). rewrite hm_update_ok by room. rewrite push_push.
    split; [done |]. repeat (apply Forall_cons_2 || apply Forall_nil_2); try done. cbn. rewrite (Dp h) by left. by eexists.
Qed.

(** The members [makeNew] sets. *)
Definition new_cells (a index n : Z) : list (loc * Z) :=
  [((a, BSize), n); ((a, BIndex), index); ((a, BNext SetList), 0); ((a, BPrev SetList), 0); ((a, BNext GetList), 0); ((a, BPrev GetList), 0); ((a, BSyncTime), 0);
   ((a, BBlockNext), 0); ((a, BBlockPrev), 0); ((a, BNextChunk), 0); ((a, BUnion), 0); ((a, BDirty), 1); ((a, BOnlyKey), 0)].
Lemma new_cells_at a index n m f : apply_writes (new_cells a index n) m !! (a, f) =
  match f with
  | BSize => Some n | BIndex => Some index | BDirty => Some 1
  | BNext _ | BPrev _ | BSyncTime | BBlockNext | BBlockPrev | BNextChunk | BUnion | BOnlyKey => Some 0
  | _ => m !! (a, f)
  end.
Proof. destruct f as [[]|[]| | | | | | | | | | | | | | | |[]|[]| | | | | | | |]; cbn; simplify_map_eq; done. Qed.
Lemma new_cells_other a index n m x f : x ≠ a ∨ f ∉ block_fields → apply_writes (new_cells a index n) m !! (x, f) = m !! (x, f).
Proof.
  intros H. apply apply_notin. assert (Hin : ∀ g, g ∈ block_fields → (a, g) ≠ (x, f)) by (intros g Hg [= -> ->]; destruct H; done).
  repeat (apply Forall_cons_2; [apply Hin; apply (bool_decide_eq_true_1 _); vm_compute; reflexivity |]). apply Forall_nil_2.
Qed.
Lemma makeNew_stores a index n s : (∀ f, f ∈ block_fields → is_Some (mem s !! (a, f))) → 0 ≤ index < 2 ^ 32 → 0 ≤ n < 2 ^ 32 →
  makeNew a index n s =
  (incDirtyCount ;;; incElementCount ;;; (incListCount index ;;; push_bucket index a) ;;; push_front SetList a ;;; push_front GetList a ;;; doUpdate true) (put (new_cells a index n) s).
Proof.
  intros Hf Hi Hn. unfold makeNew. rewrite !(wrapU_id 32) by (unfold in_U; lia). rewrite <- (put_nil s) at 1.
  do 13 (rewrite then_store by (apply Hf; apply (bool_decide_eq_true_1 _); vm_compute; reflexivity)). cbn [app].
  unfold bind at 1. symmetry. unfold bind at 1. destruct (incDirtyCount _) as [[] ?]; try done. unfold bind at 1. symmetry. unfold bind at 1. destruct (incElementCount _) as [[] ?]; try done. symmetry. apply bind_assoc.
Qed.
Lemma makeNew_ok a index n s A : lists_ok (mem s) (_hash_size s) A → counting s → a_ents A !! a = None → 0 ≤ index < _hash_size s → _hash_size s ≤ 2 ^ 32 → 0 ≤ n < 2 ^ 32 →
  (∀ f, f ∈ block_fields → is_Some (mem s !! (a, f))) → (∀ c, 0 ∉ a_order A c) → 0 ∉ a_bucket A index →
  ∃ s', makeNew a index n s = (Ok tt, s') ∧ lists_ok (mem s') (_hash_size s) (add a (new_entry index) A) ∧ same_cfg s s' ∧ _cData s' = _cData s ∧ _pDataAllocator s' = _pDataAllocator s ∧
    vtData s' = vtData s ∧ _cModifyStatus s' = 0 ∧ _stModifyData s' = [] ∧
    (∀ x f, part_of f = PChunk ∨ f = HUsedChunk → mem s' !! (x, f) = apply_writes (new_cells a index n) (mem s) !! (x, f)).
Proof.
  intros Hl Hcnt Ha Hi Hsz Hn Hf Z12 Z3. set (s0 := put (new_cells a index n) s).
  assert (Hl0 : lists_ok (mem s0) (_hash_size s) A).
  { eapply lists_ok_ext; [|exact Hl]. intros x f Hxf. apply new_cells_other. destruct (decide (x = a)) as [->|]; [right | by left].
    destruct f; cbn in Hxf; try done; try (rewrite Ha in Hxf; by destruct Hxf); try destruct c; notin. }
  assert (Hcnt0 : counting s0) by done. pose proof Hl0 as [].
  destruct (new_memory (mem s0) (_hash_size s) A a index (_stModifyData s) Hl0 Ha Hi (Z12 _) (Z12 _) Z3) as (Hl' & EC & EU).
  { constructor; apply new_cells_at. } { intros c. split; apply new_cells_at. } { by apply counting_part. }
  eexists. split.
  { rewrite makeNew_stores by (done || lia). fold s0. rewrite <- (push_nil s0) at 1. assert (R : room 17 s0) by (destruct Hcnt; unfold room; cbn; lia).
    unfold incDirtyCount, incElementCount.
    let W := journal in rewrite (then_push _ _ _ _ _ (count_up_ok HDirtyCount _ (push W s0) lo_dirty ltac:(room))).
    let W := journal in rewrite (then_push _ _ _ _ _ (count_up_ok HElementCount _ (push W s0) lo_elements ltac:(room))).
    assert (Hc : ∀ f, match f with BNext _ | BPrev _ | BBlockNext | BBlockPrev => is_Some (mem s0 !! (a, f)) | _ => True end) by (intros f; pose proof (new_cells_at a index n (mem s) f) as E; destruct f; try done; eexists; exact E).
    let W := journal in destruct (push_bucket_ok index (a_bucket A index) a (push W s0) (lo_bucket _ Hi) Z3 (Hc BBlockNext) (Hc BBlockPrev) ltac:(room)) as [F3 X3]. rewrite (then_push _ _ _ _ _ F3).
    assert (L3 : (length (writes_bucket_push index (a_bucket A index) a) ≤ 5)%nat) by (unfold writes_bucket_push; destruct (a_bucket A index); cbn; lia).
    assert (L4 : ∀ c l, (length (writes_push c l a) ≤ 3)%nat) by (intros c []; cbn; lia). pose proof (L4 SetList (a_order A SetList)). pose proof (L4 GetList (a_order A GetList)).
    let W := journal in destruct (push_front_ok SetList (a_order A SetList) a (push W s0) (Z12 _) (lo_dll _) (Hc (BNext SetList)) (Hc (BPrev SetList)) ltac:(room)) as [F4 X4]. rewrite (then_push _ _ _ _ _ F4).
    let W := journal in destruct (push_front_ok GetList (a_order A GetList) a (push W s0) (Z12 _) (lo_dll _) (Hc (BNext GetList)) (Hc (BPrev GetList)) ltac:(room)) as [F5 X5]. rewrite (then_push _ _ _ _ _ F5).
    rewrite commit_ok; [|by eapply counting_exist|].
    2: { rewrite <- !app_assoc. cbn [app]. do 2 (apply Forall_cons_2; [eexists; first [exact lo_dirty | exact lo_elements] |]). apply exist_app; [exact X3 |]. apply exist_app; [exact X4 | exact X5]. }
    rewrite <- !app_assoc. reflexivity. }
  split; [exact Hl' |]. split_and!; try done.
  intros x f [Hp| ->]; [by apply (apply_part_nil _ PChunk) | by apply (apply_part_nil _ (PHead HUsedChunk))].
Qed.

(** *** Lent memory *)

Lemma lookup_take (x a : Z) (f : field) (fs : list field) (m : gmap loc Z) : foldr (λ f m, <[(a, f) := 0]> m) m fs !! (x, f) = if decide (x = a ∧ f ∈ fs) then Some 0 else m !! (x, f).
Proof.
  induction fs as [|g fs IH]; cbn [foldr]; [rewrite decide_False; [done |]; intros [_ H]; by apply not_elem_of_nil in H |].
  destruct (decide ((a, g) = (x, f))) as [[= -> ->]|Hne].
  - rewrite lookup_insert_eq, decide_True; [done |]. split; [done | left].
  - rewrite lookup_insert_ne, IH by done. apply decide_ext. rewrite elem_of_cons. naive_solver.
Qed.
Lemma chains_new (busy : Z) L m m' (d : gmap Z (list Z)) E (x : Z) (b : list Z) : chains_ok busy L m d E → d !! x = None → (∀ y f, y ≠ x → part_of f = PChunk → m' !! (y, f) = m !! (y, f)) →
  m' !! (0, HUsedChunk) = Some (wrapU 64 (wrapU 64 (Z.of_nat (size d)) + 1)) → chains_ok busy (x :: L) m' (<[x := b]> d) E.
Proof.
  intros [] Hx Em Eu. assert (Hne : ∀ a e y, E !! a = Some e → y ∈ a :: e_chunks e → y ≠ x).
  { intros a e y He Hy ->. assert (is_Some (d !! x)) as [? ?]; [|congruence]. apply co_dom. right. by exists a, e. }
  constructor; try done.
  - intros a e He. eapply chain_ok_ext; [| | by apply co_chain]; intros; [apply Em; [by eapply Hne | done] | rewrite lookup_insert_ne; [done |]]. intros ->. by eapply Hne.
  - intros y. destruct (decide (y = x)) as [->|Hy]; [rewrite lookup_insert_eq | rewrite lookup_insert_ne by done; rewrite co_dom, elem_of_cons; naive_solver].
    split; [intros _; left; left | by eexists].
  - apply NoDup_cons. split; [|done]. intros HxL. assert (is_Some (d !! x)) as [? ?]; [|congruence]. apply co_dom. by left.
  - intros a e y He Hy [->|Hy']%elem_of_cons; [by apply (Hne a e x) | by apply (co_loose a e y)].
  - rewrite Eu. f_equal. rewrite map_size_insert_None by done. rewrite wrapU_plus by lia. f_equal. lia.
Qed.
Lemma chains_entry (busy : Z) L m (d : gmap Z (list Z)) E (a : Z) (e : entry) : chains_ok busy (a :: L) m d E → E !! a = None → e_chunks e = [] → chain_ok busy m d a e →
  chains_ok busy L m d (<[a := e]> E).
Proof.
  intros [] Ha Ec Hok. apply NoDup_cons in co_loose_nodup as [HaL HL].
  assert (Hsame : ∀ x y e', <[a := e]> E !! x = Some e' → y ∈ x :: e_chunks e' → x = a ∧ y = a ∧ e' = e ∨ x ≠ a ∧ E !! x = Some e' ∧ y ∉ a :: L).
  { intros x y e' [[<- <-]|[Hne He]]%lookup_insert_Some Hy; [left; rewrite Ec in Hy; by apply list_elem_of_singleton in Hy | right]. split_and!; [done | done |]. by apply (co_loose x e'). }
  constructor; try done.
  - intros x e' [[<- <-]|[_ He]]%lookup_insert_Some; [done | by apply co_chain].
  - intros x. rewrite co_dom, elem_of_cons. split.
    + intros [[->|Hx]|(a' & e' & He & Hx)]; [right; exists a, e; rewrite lookup_insert_eq; split; [done | left] | by left | right]. exists a', e'. rewrite lookup_insert_ne; [done | congruence].
    + intros [Hx|(a' & e' & He & Hx)]; [tauto |]. destruct (Hsame _ _ _ He Hx) as [(-> & -> & ->)|(_ & He' & _)]; [tauto | right; by exists a', e'].
  - intros x e' [[<- <-]|[_ He]]%lookup_insert_Some; [rewrite Ec; apply NoDup_singleton | by apply co_nodup].
  - intros x1 e1 x2 e2 y H1 H2 Hy1 Hy2. destruct (Hsame _ _ _ H1 Hy1) as [(X1 & Y1 & _)|(? & He1 & Hn1)], (Hsame _ _ _ H2 Hy2) as [(X2 & Y2 & _)|(? & He2 & Hn2)];
      [congruence | destruct Hn2; rewrite Y1; left | destruct Hn1; rewrite Y2; left | by apply (co_disjoint x1 e1 x2 e2 y)].
  - intros x e' y He Hy. destruct (Hsame _ _ _ He Hy) as [(_ & -> & _)|(_ & _ & Hn)]; [done | intros HyL; apply Hn; by right].
Qed.

Lemma take_memory_ok fs h x n s : lent_area x n s → 0 ≤ h ≤ sizeof_tagBlockHead →
  take_memory fs h x n s = (Ok tt, set_data (<[x := replicate (Z.to_nat (n - h)) 0]> (_cData s)) (set_mem (foldr (λ f m, <[(x, f) := 0]> m) (mem s) fs) s)).
Proof. intros (_ & _ & Hn & _) Hh. unfold take_memory. by rewrite (proj2 (Z.ltb_ge _ _)) by lia. Qed.
Lemma incChunkCount_ok s v : mem s !! (0, HUsedChunk) = Some v → incChunkCount s = (Ok tt, set_mem (<[(0, HUsedChunk) := wrapU 64 (v + 1)]> (mem s)) s).
Proof. intros E. unfold incChunkCount, head_. rewrite (bind_Ok _ _ _ _ _ (load_ok _ _ _ E)). apply hm_store_ok. rewrite E. by eexists. Qed.
Lemma lent_pool x n s s' (b : list Z) : lent_area x n s → _pHead s' = _pHead s → _cData s' = <[x := b]> (_cData s) → _pDataAllocator s' = _pDataAllocator s →
  pool_ok (_pHead s') (_cData s') (_pDataAllocator s').
Proof.
  intros (_ & _ & _ & free & used & Ho & Hx & Hu & Hp) E1 E2 E3. rewrite E1, E2, E3. exists free, used. split_and!; [done | | done].
  intros y. destruct (decide (y = x)) as [->|]; [done | rewrite lookup_insert_ne by done; apply Hu].
Qed.
(** A chunk that was made and is not linked yet: [n] bytes with its head. *)
Definition raw_chunk s (x n : Z) : Prop :=
  sizeof_tagBlockHead < n < 2 ^ 32 ∧ 0 < x ∧ (∃ b, _cData s !! x = Some b ∧ zlen b = n - sizeof_tagChunkHead) ∧ ∀ f, f ∈ chunk_fields → is_Some (mem s !! (x, f)).

Lemma allocateChunk_mem_ok keep K L n s A : rep 0 L s A → owned keep A K → counting s → 0 ≤ _iEraseCount s →
  ∃ s1 gone A1 x size s', evicted keep K L s A gone s1 A1 ∧ allocateChunk_mem keep n s = (Ok (x, size), s') ∧
    (x = 0 ∧ s' = s1 ∧ (_bAutoErase s = false ∨ victim (order_of s) keep A1 = 0) ∨
     rep 0 (x :: L) s' A1 ∧ spares (K ++ L) s1 s' ∧ vtData s' = vtData s1 ∧ raw_chunk s' x size).
Proof.
  intros Hr HK Hcnt Hn. unfold allocateChunk_mem, with_fuel.
  destruct (allocate_or_erase_ok keep K L n (S (size (_cData s))) s A Hr HK Hcnt Hn) as (s1 & gone & A1 & r & s2 & Hev & E & H); [pose proof (ents_size L s A Hr); lia |].
  unfold bind at 1. rewrite E. destruct r as [[p m]|].
  2: { destruct H as [-> H]. exists s1, gone, A1, 0, n, s1. split; [done |]. split; [done |]. by left. }
  destruct H as (Hr2 & Hsp & Hvt & Hlent). unfold bind at 1, get_st. set (x := p - _pHead s2) in *.
  rewrite (bind_Ok _ _ _ _ _ (take_memory_ok chunk_fields sizeof_tagChunkHead x m s2 Hlent ltac:(unfold sizeof_tagChunkHead, sizeof_tagBlockHead; lia))).
  set (s3 := set_data _ _). pose proof Hr2 as [Hl2 Hc2 _ Hbk2]. pose proof Hlent as (Hx & Hx0 & Hm & _).
  assert (Em3 : ∀ y f, y ≠ x ∨ f ∉ chunk_fields → mem s3 !! (y, f) = mem s2 !! (y, f)).
  { intros y f Hyf. cbn [mem s3 set_data set_mem]. rewrite lookup_take, decide_False; [done | tauto]. }
  assert (Eu : mem s3 !! (0, HUsedChunk) = Some (wrapU 64 (Z.of_nat (size (_cData s2))))) by (rewrite Em3 by (right; notin); apply (co_used _ _ _ _ _ Hc2)).
  rewrite (bind_Ok _ _ _ _ _ (incChunkCount_ok s3 _ Eu)). set (s' := set_mem _ s3).
  assert (Em : ∀ y f, y ≠ x ∨ f ∉ chunk_fields → f ≠ HUsedChunk → mem s' !! (y, f) = mem s2 !! (y, f)).
  { intros y f Hyf Hf. cbn [mem s' set_mem]. rewrite lookup_insert_ne by congruence. by apply Em3. }
  exists s1, gone, A1, x, m, s'. split; [done |]. split; [done |]. right. split; [constructor | split_and!].
  - eapply lists_ok_ext; [|exact Hl2]. intros y f Hyf. apply Em; [|by intros ->]. right. destruct f; cbn in Hyf; try done; try destruct c; notin.
  - apply (chains_new 0 L (mem s2)); [done | done | | cbn [mem s' set_mem]; by rewrite lookup_insert_eq]. intros y f Hy Hf. apply Em; [by left | by intros ->].
  - by apply (lent_pool x m s2 s' (replicate (Z.to_nat (m - sizeof_tagChunkHead)) 0)).
  - done.
  - etrans; [done |]. constructor; try done. intros y Hy. assert (Hyx : y ≠ x).
    { intros ->. assert (is_Some (_cData s2 !! x)) as [? ?]; [|congruence]. apply (co_dom _ _ _ _ _ Hc2). apply elem_of_app in Hy as [Hy|Hy]; [right | by left].
      destruct (owned_evicts _ _ _ _ _ _ (proj1 Hev) HK x Hy) as (e & He & Hxe). by exists keep, e. }
    split; [cbn; by rewrite lookup_insert_ne | intros f Hf; apply Em; [by left | by intros ->]].
  - done.
  - split_and!; [lia.. | |].
    + exists (replicate (Z.to_nat (m - sizeof_tagChunkHead)) 0). cbn. rewrite lookup_insert_eq, length_replicate. split; [done |]. unfold sizeof_tagChunkHead, sizeof_tagBlockHead in *. lia.
    + intros f Hf. cbn [mem s' set_mem]. rewrite lookup_insert_ne by (assert (HUsedChunk ∉ chunk_fields) by notin; congruence). cbn [mem s3 set_data set_mem]. rewrite lookup_take, decide_True by done. by eexists.
Qed.

Lemma allocateMemBlock_ok L index n s A : rep 0 L s A → counting s → 0 ≤ _iEraseCount s → 0 ≤ index < _hash_size s →
  ∃ s1 gone A1 a s', evicted 0 [] L s A gone s1 A1 ∧ allocateMemBlock index n s = (Ok a, s') ∧
    (a = 0 ∧ s' = s1 ∧ (_bAutoErase s = false ∨ victim (order_of s) 0 A1 = 0) ∨
     a_ents A1 !! a = None ∧ 0 < a ∧ rep 0 L s' (add a (new_entry index) A1) ∧ spares L s1 s' ∧ vtData s' = vtData s1).
Proof.
  intros Hr Hcnt Hn Hi. unfold allocateMemBlock, with_fuel.
  destruct (allocate_or_erase_ok 0 [] L n (S (size (_cData s))) s A Hr ltac:(by intros y ?%not_elem_of_nil) Hcnt Hn) as (s1 & gone & A1 & r & s2 & Hev & E & H); [pose proof (ents_size L s A Hr); lia |].
  unfold bind at 1. rewrite E. destruct r as [[p m]|].
  2: { destruct H as [-> H]. exists s1, gone, A1, 0, s1. split; [done |]. split; [done |]. by left. }
  destruct H as (Hr2 & Hsp & Hvt & Hlent). unfold bind at 1, get_st. set (x := p - _pHead s2) in *.
  rewrite (bind_Ok _ _ _ _ _ (take_memory_ok block_fields sizeof_tagBlockHead x m s2 Hlent ltac:(unfold sizeof_tagBlockHead; lia))).
  set (s3 := set_data _ _). pose proof Hr2 as [Hl2 Hc2 _ Hbk2]. pose proof Hlent as (Hx & Hx0 & Hm & _).
  assert (Hcnt2 : counting s2) by (apply (sp_counting _ _ _ Hsp), (sp_counting _ _ _ (proj1 (proj2 (proj2 Hev)))), Hcnt).
  assert (Ehs : _hash_size s2 = _hash_size s).
  { destruct (sp_cfg _ _ _ Hsp) as (_ & -> & _). destruct (sp_cfg _ _ _ (proj1 (proj2 (proj2 Hev)))) as (_ & -> & _). done. }
  assert (Em3 : ∀ y f, y ≠ x ∨ f ∉ block_fields → mem s3 !! (y, f) = mem s2 !! (y, f)).
  { intros y f Hyf. cbn [mem s3 set_data set_mem]. rewrite lookup_take, decide_False; [done | tauto]. }
  assert (Hxe : a_ents A1 !! x = None).
  { destruct (a_ents A1 !! x) as [e|] eqn:Ex; [|done]. assert (is_Some (_cData s2 !! x)) as [? ?]; [|congruence]. apply (entry_area 0 L s2 A1 x Hr2). by rewrite Ex. }
  assert (Hl3 : lists_ok (mem s3) (_hash_size s3) A1).
  { eapply lists_ok_ext; [|exact Hl2]. intros y f Hyf. apply Em3. destruct (decide (y = x)) as [->|]; [right | by left].
    destruct f; cbn in Hyf; try done; try (rewrite Hxe in Hyf; by destruct Hyf); try destruct c; notin. }
  destruct (makeNew_ok x index m s3 A1 Hl3 Hcnt2 Hxe) as (s4 & E4 & Hl4 & C4 & D4 & AL4 & V4 & S4 & J4 & M4).
  { cbn. by rewrite Ehs. } { cbn. lia. } { unfold sizeof_tagBlockHead in Hm. lia. }
  { intros f Hf. cbn [mem s3 set_data set_mem]. rewrite lookup_take, decide_True by done. by eexists. }
  { intros c. by apply (order_nonzero 0 L s2). } { apply (bucket_nonzero 0 L s2); [done | by rewrite Ehs]. }
  rewrite (bind_Ok _ _ _ _ _ E4).
  assert (M4x : ∀ y f, y ≠ x → part_of f = PChunk → mem s4 !! (y, f) = mem s2 !! (y, f)).
  { intros y f Hy Hf. rewrite M4, new_cells_other, Em3 by tauto. done. }
  assert (Eu : mem s4 !! (0, HUsedChunk) = Some (wrapU 64 (Z.of_nat (size (_cData s2))))).
  { rewrite M4, new_cells_other, Em3 by (first [by right | right; notin]). apply (co_used _ _ _ _ _ Hc2). }
  rewrite (bind_Ok _ _ _ _ _ (incChunkCount_ok s4 _ Eu)). set (s' := set_mem _ s4).
  assert (Em : ∀ y f, f ≠ HUsedChunk → mem s' !! (y, f) = mem s4 !! (y, f)) by (intros y f Hf; cbn [mem s' set_mem]; by rewrite lookup_insert_ne by congruence).
  set (b := replicate (Z.to_nat (m - sizeof_tagBlockHead)) 0) in *. assert (Hb : zlen b = m - sizeof_tagBlockHead) by (unfold b; rewrite length_replicate; lia).
  assert (D' : _cData s' = <[x := b]> (_cData s2)) by (cbn; by rewrite D4).
  pose proof C4 as (P4 & H4 & _). change (_pHead s3) with (_pHead s2) in P4. change (_hash_size s3) with (_hash_size s2) in H4.
  exists s1, gone, A1, x, s'. split; [done |]. split; [done |]. right. split; [done |]. split; [done |]. split; [constructor | split].
  - cbn [_hash_size s' set_mem]. rewrite H4. eapply lists_ok_ext; [|exact Hl4]. intros y f Hyf. apply Em. by intros ->.
  - rewrite D'. apply chains_entry; [| done | done |].
    + apply (chains_new 0 L (mem s2)); [done | done | | cbn [mem s' set_mem]; by rewrite lookup_insert_eq]. intros y f Hy Hf. rewrite Em by (by intros ->). by apply M4x.
    + exists 0. assert (Ecell : ∀ f, part_of f = PChunk → mem s' !! (x, f) = apply_writes (new_cells x index m) (mem s3) !! (x, f)) by (intros f Hf; rewrite Em by (by intros ->); by apply M4; left).
      split; [|intros _; split; [done | cbn; lia]]. split.
      * exists b. rewrite lookup_insert_eq, Ecell, new_cells_at by done. unfold sizeof_tagBlockHead in *. split_and!; [done | f_equal; lia | lia..].
      * cbn [e_chunks new_entry]. rewrite !Ecell, !new_cells_at by done. split_and!; try done. lia.
  - apply (lent_pool x m s2 s' b); [done | done | done | cbn; by rewrite AL4].
  - cbn. rewrite H4. done.
  - etrans; [exact Hsp |]. constructor; try done.
    + intros _. split; cbn; rewrite J4; [constructor | cbn; lia].
    + intros _. left. by cbn.
    + intros y Hy. assert (Hyx : y ≠ x) by (intros ->; assert (is_Some (_cData s2 !! x)) as [? ?]; [apply (co_dom _ _ _ _ _ Hc2); by left | congruence]).
      split; [rewrite D'; by rewrite lookup_insert_ne | intros f Hf; rewrite Em by (by intros ->); by apply M4x].
  - cbn. by rewrite V4.
Qed.
End new.
