(* ===== verification/HashMapData.v ===== *)
(** The bytes of a block of a [HashMap]: room is made for them, and they are written. *)
From stdpp Require Import prelude gmap list.
From Stdlib Require Import ZArith Lia.
From S2P Require Import Prelude Bytes MemChunkSpec HashMap HashMapLists HashMapRep HashMapBlocks HashMapErase HashMapOrder HashMapEvict HashMapNew.
Import HashMap.HashMap.

(** ** Room *)

Lemma chains_perm (busy : Z) (L L' : list Z) (m : gmap loc Z) (d : gmap Z (list Z)) (E : gmap Z entry) : L ≡ₚ L' → chains_ok busy L m d E → chains_ok busy L' m d E.
Proof. intros HL []. constructor; try done; [intros x; by rewrite <- HL | by rewrite <- HL | intros a e x ? ?; rewrite <- HL; eauto]. Qed.
(** [n] bytes fill blocks of these sizes, the last one perhaps not to the end. *)
Fixpoint fills (d : gmap Z (list Z)) (l : list Z) (n : Z) : Prop :=
  match l with
  | [] => False
  | [x] => 0 ≤ n ≤ zlen (bytes_at d x)
  | x :: l' => zlen (bytes_at d x) < n ∧ fills d l' (n - zlen (bytes_at d x))
  end.
Lemma fills_ext d d' l : ∀ n, (∀ x, x ∈ l → d' !! x = d !! x) → fills d l n → fills d' l n.
Proof.
  induction l as [|x l IH]; intros n E; [done |]. assert (Ex : bytes_at d' x = bytes_at d x) by (unfold bytes_at; by rewrite E by left).
  destruct l as [|y l]; cbn [fills]; rewrite Ex; [done |]. intros [? Hl]. split; [done |]. apply IH; [|done]. intros z Hz. apply E. by right.
Qed.

Section data.
Context {Al : Type} {AL : Allocator Al} {ALL : AllocatorLaws Al}.
Abbreviation t := (t (Al := Al)).
Implicit Types (s : t) (A : abs) (W : list (loc * Z)).

Lemma rep_perm busy L L' s A : L ≡ₚ L' → rep busy L s A → rep busy L' s A.
Proof. intros HL []. constructor; [done | by eapply chains_perm | done..]. Qed.

(** A chunk with its size. *)
Definition sized s (x : Z) : Prop := size_ok (mem s) (_cData s) CSize sizeof_tagChunkHead x ∧ 0 < x ∧ is_Some (mem s !! (x, CNextChunk)) ∧ is_Some (mem s !! (x, CUnion)).
Lemma sized_spares L s s' x : spares L s s' → x ∈ L → sized s x → sized s' x.
Proof.
  intros Hsp Hx ((b & Eb & Es & Hb) & H0 & Hn & Hu). destruct (sp_loose _ _ _ Hsp x Hx) as [Ed Em].
  split_and!; [exists b; by rewrite Ed, Em | done | by rewrite Em | by rewrite Em].
Qed.
Lemma store_size s x n : raw_chunk s x n → ∃ s', store (x, CSize) (wrapU 32 n) s = (Ok tt, s') ∧ sized s' x ∧ s' = set_mem (<[(x, CSize) := n]> (mem s)) s ∧ zlen (bytes_at (_cData s') x) = n - sizeof_tagChunkHead.
Proof.
  intros (Hn & Hx & (b & Eb & Hb) & Hf). unfold sizeof_tagBlockHead, sizeof_tagChunkHead in *. rewrite wrapU_id by (unfold in_U; lia).
  rewrite hm_store_ok by (apply Hf; left). eexists. split; [done |]. split; [|split; [done | cbn; by rewrite (hm_bytes_at_eq _ _ _ Eb)]]. split_and!; [|done | |].
  - exists b. cbn. rewrite lookup_insert_eq. unfold sizeof_tagChunkHead. split_and!; [done | f_equal; lia | lia..].
  - cbn. rewrite lookup_insert_ne by done. apply Hf. right. left.
  - cbn. rewrite lookup_insert_ne by done. apply Hf. right. right. left.
Qed.
(** Members of a loose area are no one's. *)
Lemma loose_store busy L s A x f v : rep busy L s A → x ∈ L → part_of f = PChunk → rep busy L (set_mem (<[(x, f) := v]> (mem s)) s) A.
Proof.
  intros [Hl Hc Hp Hn] Hx Hf. constructor; [| | done | done]; cbn.
  - eapply lists_ok_ext; [|exact Hl]. intros y g Hy. apply lookup_insert_ne. intros [= <- <-]. destruct f; done.
  - pose proof Hc as []. constructor; try done; [|rewrite lookup_insert_ne; [done |]; intros [= -> ->]; done].
    intros a e He. eapply chain_ok_ext; [| done | by apply co_chain]. intros y g Hy Hg. apply lookup_insert_ne. intros [= <- <-]. by apply (co_loose a e x).
Qed.

(** What was thrown out for [keep]. *)
Definition threw (keep : Z) (K L : list Z) s A (gone : list (Z * entry)) s' A' : Prop :=
  evicts (_bAutoErase s) (order_of s) keep A gone A' ∧ spares (K ++ L) s s' ∧ vtData s' = vtData s ++ readable gone.
Lemma evicted_threw keep K L s A g s' A' : evicted keep K L s A g s' A' → threw keep K L s A g s' A'.
Proof. by intros (? & _ & ? & ?). Qed.
Lemma threw_trans keep K L s A g s1 A1 g' s2 A2 : threw keep K L s A g s1 A1 → threw keep K L s1 A1 g' s2 A2 → threw keep K L s A (g ++ g') s2 A2.
Proof.
  intros (E & S & V) (E' & S' & V'). rewrite (order_of_cfg _ _ (sp_cfg _ _ _ S)), (auto_of_cfg _ _ (sp_cfg _ _ _ S)) in E'.
  split_and!; [by eapply evicts_app | by etrans | by rewrite V', V, readable_app, app_assoc].
Qed.
Lemma spares_sub L L' s s' : (∀ x, x ∈ L' → x ∈ L) → spares L s s' → spares L' s s'.
Proof. intros HL []. constructor; auto. Qed.
Lemma threw_sub keep K L L' s A g s' A' : (∀ x, x ∈ L' → x ∈ L) → threw keep K L s A g s' A' → threw keep K L' s A g s' A'.
Proof. intros HL (E & S & V). split_and!; [done | | done]. eapply spares_sub; [|done]. intros x. rewrite !elem_of_app. naive_solver. Qed.
Lemma threw_then keep K L s A g s1 A1 s2 : threw keep K L s A g s1 A1 → spares (K ++ L) s1 s2 → vtData s2 = vtData s1 → threw keep K L s A g s2 A1.
Proof. intros (E & S & V) S' V'. split_and!; [done | by etrans | congruence]. Qed.
(** Why there is no memory. *)
Definition no_memory (keep : Z) s A' : Prop := _bAutoErase s = false ∨ victim (order_of s) keep A' = 0.
Lemma no_memory_cfg keep s s' A' : same_cfg s s' → no_memory keep s' A' → no_memory keep s A'.
Proof. intros C. unfold no_memory. rewrite (order_of_cfg _ _ C). destruct C as (_ & _ & _ & E & _). by rewrite E. Qed.

Lemma allocateChunk_loop_ok keep K L : ∀ fuel fn chunks s A, rep 0 (chunks ++ L) s A → owned keep A K → counting s → 0 ≤ _iEraseCount s → Forall (sized s) chunks →
  0 < fn < 2 ^ 64 → fn ≤ Z.of_nat fuel →
  ∃ r out s' gone A', allocateChunk_loop fuel keep fn chunks s = (Ok (r, out), s') ∧ threw keep K L s A gone s' A' ∧
    (r = RT_NO_MEMORY ∧ rep 0 L s' A' ∧ no_memory keep s A' ∨
     r = RT_OK ∧ ∃ new, out = chunks ++ new ∧ rep 0 (out ++ L) s' A' ∧ Forall (sized s') out ∧ fills (_cData s') new fn ∧ (∀ y, y ∈ chunks → _cData s' !! y = _cData s !! y)).
Proof.
  induction fuel as [|fuel IH]; intros fn chunks s A Hr HK Hcnt Hec Hsized Hfn Hf; [lia |]. cbn [allocateChunk_loop].
  destruct (allocateChunk_mem_ok keep K (chunks ++ L) fn s A Hr HK Hcnt Hec) as (s1 & gone & A1 & x & m & s2 & Hev & E & H). rewrite (bind_Ok _ _ _ _ _ E).
  pose proof (evicted_threw _ _ _ _ _ _ _ _ Hev) as Hth. destruct Hev as (Hevs & Hr1 & Hsp1 & Hvt1).
  destruct H as [(-> & -> & Hno)|(Hr2 & Hsp2 & Hvt2 & Hraw)].
  { cbn [Z.eqb]. destruct (deallocate_many 0 chunks L s1 A1 Hr1) as (s' & E' & Hr' & G). rewrite (bind_Ok _ _ _ _ _ E').
    exists RT_NO_MEMORY, [], s', gone, A1. split; [done |]. split; [|by left]. destruct G as (C & S & J & V & D & M).
    eapply threw_then; [eapply threw_sub; [|exact Hth]; intros y; rewrite elem_of_app; tauto | | done].
    constructor; [done | by unfold counting; rewrite J | by unfold idle; rewrite S, J |]. intros y Hy.
    assert (Hyn : y ∉ chunks).
    { intros Hyc. apply elem_of_app in Hy as [Hy|Hy].
      - destruct (owned_evicts _ _ _ _ _ _ Hevs HK y Hy) as (e & He & Hye). apply (co_loose _ _ _ _ _ (r_chains _ _ _ _ Hr1) keep e y He Hye). apply elem_of_app. by left.
      - pose proof (co_loose_nodup _ _ _ _ _ (r_chains _ _ _ _ Hr1)) as Hnd. apply NoDup_app in Hnd as (_ & Hnd & _). by apply (Hnd y). }
    split; [by apply D | intros f Hpf; apply M; [done | by intros ->]]. }
  pose proof Hraw as (Hm & Hx0 & (b & Eb & Hb) & _). rewrite (proj2 (Z.eqb_neq _ _)) by lia.
  destruct (store_size s2 x m Hraw) as (s3 & E3 & Hsz3 & Es3 & Hcap). rewrite (bind_Ok _ _ _ _ _ E3).
  assert (Hxc : x ∉ K ++ chunks ++ L).
  { rewrite elem_of_app. intros [Hx|Hx].
    - destruct (owned_evicts _ _ _ _ _ _ Hevs HK x Hx) as (e & He & Hxe). apply (co_loose _ _ _ _ _ (r_chains _ _ _ _ Hr2) keep e x He Hxe). left.
    - pose proof (co_loose_nodup _ _ _ _ _ (r_chains _ _ _ _ Hr2)) as Hnd. by apply NoDup_cons in Hnd as [? _]. }
  assert (Hsp3 : spares (K ++ chunks ++ L) s2 s3).
  { subst s3. constructor; try done. intros y Hy. split; [done |]. intros f Hf'. cbn. rewrite lookup_insert_ne; [done |]. intros [= <- <-]. done. }
  assert (Hr3 : rep 0 ((chunks ++ [x]) ++ L) s3 A1).
  { apply (rep_perm 0 (x :: chunks ++ L)); [rewrite <- app_assoc; apply Permutation_middle |]. subst s3. apply loose_store; [done | left | done]. }
  assert (Hth3 : threw keep K (chunks ++ L) s A gone s3 A1) by (eapply threw_then; [exact Hth | by etrans | subst s3; cbn; congruence]).
  assert (Hsz : Forall (sized s3) (chunks ++ [x])).
  { apply Forall_app. split; [|by apply Forall_singleton]. apply Forall_forall. intros y Hy. rewrite Forall_forall in Hsized. destruct Hth3 as (_ & Hsp & _).
    eapply sized_spares; [exact Hsp | | by apply Hsized]. rewrite !elem_of_app. tauto. }
  assert (Hwr : wrapU 64 (m - sizeof_tagChunkHead) = m - sizeof_tagChunkHead) by (apply wrapU_id; unfold in_U, sizeof_tagChunkHead, sizeof_tagBlockHead in *; lia).
  rewrite Hwr. destruct (Z.leb_spec fn (m - sizeof_tagChunkHead)) as [Hle|Hgt].
  { exists RT_OK, (chunks ++ [x]), s3, gone, A1. split; [done |]. split; [eapply threw_sub; [|exact Hth3]; intros y; rewrite elem_of_app; tauto |].
    right. split; [done |]. exists [x]. cbn [fills]. rewrite Hcap. split_and!; try done; [lia.. |]. destruct Hth3 as (_ & Hsp & _). intros y Hy. apply (sp_loose _ _ _ Hsp). rewrite !elem_of_app. tauto. }
  assert (Hwr' : wrapU 64 (fn - (m - sizeof_tagChunkHead)) = fn - (m - sizeof_tagChunkHead)) by (apply wrapU_id; unfold in_U, sizeof_tagChunkHead, sizeof_tagBlockHead in *; lia).
  rewrite Hwr'. pose proof Hth3 as (_ & Hspa & _). unfold sizeof_tagChunkHead, sizeof_tagBlockHead in *.
  destruct (IH (fn - (m - 13)) (chunks ++ [x]) s3 A1) as (r & out & s' & g' & A' & E' & Hth' & H'); [done | by eapply owned_evicts | by apply (sp_counting _ _ _ Hspa) | | done | lia | lia |].
  { destruct (sp_cfg _ _ _ Hspa) as (_ & _ & _ & _ & _ & Ee & _). by rewrite Ee. }
  exists r, out, s', (gone ++ g'), A'. split; [done |].
  split; [eapply threw_trans; [|exact Hth']; eapply threw_sub; [|exact Hth3]; intros y; rewrite elem_of_app; tauto |].
  destruct H' as [(-> & Hr' & Hno)|(-> & new & -> & Hr' & Hsz' & Hfill & Hkeep)]; [left; split_and!; [done | done | by eapply no_memory_cfg; [apply (sp_cfg _ _ _ Hspa) |]] |].
  right. split; [done |]. exists (x :: new). split_and!; [by rewrite <- app_assoc | done | done | |].
  - assert (Hcap' : zlen (bytes_at (_cData s') x) = m - 13) by (rewrite <- Hcap; unfold bytes_at; rewrite Hkeep; [done |]; apply elem_of_app; right; left).
    destruct new as [|y new]; [done |]. cbn [fills]. rewrite Hcap'. split; [lia | done].
  - intros y Hy. rewrite Hkeep by (apply elem_of_app; by left). apply (sp_loose _ _ _ Hspa). rewrite !elem_of_app. tauto.
Qed.

(** *** Linking chunks *)

Definition linked (l : list Z) (e : entry) : entry := mk_entry (e_index e) (e_sync e) (e_dirty e) (e_only e) l (e_data e).
(** The members of the last block or chunk that say what is next. *)
Definition next_field (l : list Z) : field := match l with [] => BNextChunk | _ => CNextChunk end.
Definition union_field (l : list Z) : field := match l with [] => BUnion | _ => CUnion end.

Lemma chunk_cells_fit (fit : bool) m d l len : chunk_cells fit m d l len → chunk_cells false m d l len.
Proof. induction l as [|x l IH]; [done |]. intros [Hs Hl]. split; [done |]. destruct l as [|y l]; [by destruct Hl as (? & ? & _) |]. destruct Hl as (? & ? & Hl). auto. Qed.
Lemma block_cells_fit (fit : bool) m d a l len : block_cells fit m d a l len → block_cells false m d a l len.
Proof. intros [Hs Hl]. split; [done |]. destruct l as [|y l]; [by destruct Hl as (? & ? & _) |]. destruct Hl as (? & ? & Hl). split_and!; [done.. |]. by eapply chunk_cells_fit. Qed.
Lemma rep_busy b L s A : rep 0 L s A → rep b L s A.
Proof.
  intros Hr. pose proof Hr as [Hl Hc Hp Hn]. constructor; try done. destruct Hc. constructor; try done. intros a e He. destruct (co_chain a e He) as (len & Hcells & Hd).
  assert (a ≠ 0) as Ha by (intros ->; pose proof (entry_pos 0 L s A 0 Hr ltac:(by eexists)); lia). exists len. split; [|auto].
  rewrite bool_decide_eq_true_2 in Hcells by done. destruct (bool_decide (a ≠ b)); [done | by eapply block_cells_fit].
Qed.

Lemma chunk_cells_link m m' d l p x len : chunk_cells false m d (l ++ [p]) len → (∀ y f, y ∈ l → part_of f = PChunk → m' !! (y, f) = m !! (y, f)) →
  m' !! (p, CSize) = m !! (p, CSize) → m' !! (p, CNextChunk) = Some 1 → m' !! (p, CUnion) = Some x → chunk_cells false m' d [x] 0 → chunk_cells false m' d (l ++ [p; x]) 0.
Proof.
  intros Hl Em Es En Eu Hx. induction l as [|y l IH]; cbn [app] in *.
  - destruct Hl as ((b & Eb & Eb' & Hb) & _). split; [|done]. exists b. by rewrite Es.
  - destruct Hl as ((b & Eb & Eb' & Hb) & Hl). split; [exists b; rewrite Em; [done | left | done] |].
    assert (IH' : chunk_cells false m d (l ++ [p]) len → chunk_cells false m' d (l ++ [p; x]) 0) by (intros; apply IH; [done | intros; apply Em; [by right | done]]).
    assert (Ey : m' !! (y, CNextChunk) = m !! (y, CNextChunk) ∧ m' !! (y, CUnion) = m !! (y, CUnion)) by (split; apply Em; (left || done)). destruct Ey as [-> ->].
    destruct l as [|z l]; cbn [app] in *; destruct Hl as (? & ? & Hl); split_and!; auto.
Qed.
Lemma block_cells_link m m' d a l x len : NoDup (a :: l) → block_cells false m d a l len → (∀ y f, y ∈ a :: l → part_of f = PChunk → (y, f) ≠ (lst (a :: l), next_field l) → (y, f) ≠ (lst (a :: l), union_field l) → m' !! (y, f) = m !! (y, f)) →
  m' !! (lst (a :: l), next_field l) = Some 1 → m' !! (lst (a :: l), union_field l) = Some x → chunk_cells false m' d [x] 0 → block_cells false m' d a (l ++ [x]) 0.
Proof.
  intros Hnd [(b & Eb & Es & Hb) Hl] Em En Eu Hx. split; [exists b; rewrite Em; [done | left | done | by destruct l | by destruct l] |]. destruct l as [|y l _] using rev_ind; [done |].
  assert (Elst : lst (a :: l ++ [y]) = y) by (change (a :: l ++ [y]) with ((a :: l) ++ [y]); apply lst_snoc). rewrite Elst in *.
  assert (Hf : next_field (l ++ [y]) = CNextChunk ∧ union_field (l ++ [y]) = CUnion) by by destruct l. destruct Hf as [Hf1 Hf2]. rewrite Hf1, Hf2 in *.
  change (a :: l ++ [y]) with ((a :: l) ++ [y]) in Hnd. apply NoDup_app in Hnd as (_ & Hnd & _).
  assert (Hy : ∀ z, z ∈ a :: l → z ≠ y) by (intros z Hz ->; apply (Hnd y Hz); left).
  assert (Hcells : chunk_cells false m d (l ++ [y]) len → chunk_cells false m' d ((l ++ [y]) ++ [x]) 0).
  { intros Hc. rewrite <- app_assoc. apply (chunk_cells_link m m' d l y x len); try done.
    - intros z f Hz Hf. apply Em; [right; apply elem_of_app; by left | done | |]; intros [= -> ->]; by apply (Hy y); [right |].
    - apply Em; [right; apply elem_of_app; right; left | done..]. }
  assert (Ea : m' !! (a, BNextChunk) = m !! (a, BNextChunk) ∧ m' !! (a, BUnion) = m !! (a, BUnion)) by (split; apply Em; (left || done)). destruct Ea as [Ea1 Ea2].
  destruct l as [|z l]; cbn [app] in *; rewrite Ea1, Ea2; destruct Hl as (? & ? & Hl); auto.
Qed.

Lemma last_in a l : lst (a :: l) ∈ a :: l.
Proof. destruct l as [|y l _] using rev_ind; [left |]. change (a :: l ++ [y]) with ((a :: l) ++ [y]). rewrite lst_snoc. apply elem_of_app. right. left. Qed.
Lemma last_cells (fit : bool) m d a l len : block_cells fit m d a l len → m !! (lst (a :: l), next_field l) = Some 0 ∧ m !! (lst (a :: l), union_field l) = Some len.
Proof.
  intros [_ Hl]. assert (Hc : ∀ l, l ≠ [] → chunk_cells fit m d l len → m !! (lst l, CNextChunk) = Some 0 ∧ m !! (lst l, CUnion) = Some len).
  { clear. intros l. induction l as [|x l IH]; [done |]. intros _ [_ Hl]. destruct l as [|y l]; [by destruct Hl as (? & ? & _) |]. destruct Hl as (_ & _ & Hl). rewrite lst_cons. by apply IH. }
  destruct l as [|y l]; [by destruct Hl as (? & ? & _) |]. destruct Hl as (_ & _ & Hl). rewrite lst_cons. by apply Hc.
Qed.
(** The lists do not depend on the chunks. *)
Lemma lists_ok_chunks m m' n A a e l : lists_ok m n A → a_ents A !! a = Some e → (∀ x f, part_of f ≠ PChunk → f ≠ HGetCount → f ≠ HHitCount → m' !! (x, f) = m !! (x, f)) →
  is_Some (m' !! (0, HGetCount)) → is_Some (m' !! (0, HHitCount)) → lists_ok m' n (set_entry a (linked l e) A).
Proof.
  intros Hl He Em Hg Hh. apply (entry_memory m m' n A a e); try done.
  - intros x f Hf. unfold own in Hf. apply Em; intros E; rewrite E in Hf; done.
  - destruct (lo_ent _ _ _ Hl a e He). constructor; by rewrite Em.
  - rewrite Em, (lo_dirty _ _ _ Hl), (count_update _ _ _ _ (linked l e) He) by done. do 2 f_equal. cbn. lia.
  - rewrite Em, (lo_only _ _ _ Hl), (count_update _ _ _ _ (linked l e) He) by done. do 2 f_equal. cbn. lia.
Qed.
Lemma chains_link a x L m m' d E e : chains_ok a (x :: L) m d E → E !! a = Some e →
  (∀ y f, y ≠ x → part_of f = PChunk → (y, f) ≠ (lst (a :: e_chunks e), next_field (e_chunks e)) → (y, f) ≠ (lst (a :: e_chunks e), union_field (e_chunks e)) → m' !! (y, f) = m !! (y, f)) →
  m' !! (0, HUsedChunk) = m !! (0, HUsedChunk) → m' !! (lst (a :: e_chunks e), next_field (e_chunks e)) = Some 1 → m' !! (lst (a :: e_chunks e), union_field (e_chunks e)) = Some x →
  chunk_cells false m' d [x] 0 → chains_ok a L m' d (<[a := linked (e_chunks e ++ [x]) e]> E).
Proof.
  intros [] He Em Eu En Eun Hx. apply NoDup_cons in co_loose_nodup as [HxL HL].
  assert (Hax : ∀ a' e', E !! a' = Some e' → x ∉ a' :: e_chunks e') by (intros a' e' He' Hx'; apply (co_loose a' e' x He' Hx'); left).
  pose proof (last_in a (e_chunks e)) as Hlast.
  assert (Hmem : ∀ a' e' y, <[a := linked (e_chunks e ++ [x]) e]> E !! a' = Some e' → y ∈ a' :: e_chunks e' → a' = a ∧ y = x ∨ ∃ e0, E !! a' = Some e0 ∧ y ∈ a' :: e_chunks e0).
  { intros a' e' y [[<- <-]|[_ He']]%lookup_insert_Some Hy; [|right; by exists e']. cbn [e_chunks linked] in Hy. rewrite elem_of_cons, elem_of_app, list_elem_of_singleton in Hy.
    destruct (decide (y = x)); [by left | right]. exists e. rewrite elem_of_cons. naive_solver. }
  constructor.
  - intros a' e' [[<- <-]|[Hne He']]%lookup_insert_Some.
    + destruct (co_chain a e He) as (len & Hcells & _). exists 0. cbn [e_chunks linked]. rewrite bool_decide_eq_false_2 in Hcells |- * by (intros Hn; by apply Hn). split; [|by intros ?].
      eapply block_cells_link; [by apply co_nodup | done | | done..]. intros y f Hy Hf H1 H2. apply Em; [|done..]. intros ->. by apply (Hax a e).
    + eapply chain_ok_ext; [| done | by apply co_chain]. intros y f Hy Hf. apply Em; [intros -> ; by apply (Hax a' e') | done | |]; intros [= -> ->]; apply Hne; symmetry; eauto.
  - intros y. rewrite co_dom, elem_of_cons. split.
    + intros [[->|Hy]|(a' & e' & He' & Hy)]; [right | by left | right].
      * exists a, (linked (e_chunks e ++ [x]) e). rewrite lookup_insert_eq. split; [done |]. cbn. rewrite elem_of_cons, elem_of_app, list_elem_of_singleton. tauto.
      * destruct (decide (a' = a)) as [->|Hne]; [|exists a', e'; by rewrite lookup_insert_ne]. simplify_eq. exists a, (linked (e_chunks e ++ [x]) e). rewrite lookup_insert_eq. split; [done |].
        cbn. rewrite elem_of_cons, elem_of_app in *. tauto.
    + intros [Hy|(a' & e' & He' & Hy)]; [tauto |]. destruct (Hmem _ _ _ He' Hy) as [[-> ->]|(e0 & ? & ?)]; [tauto | right; by exists a', e0].
  - intros a' e' [[<- <-]|[_ He']]%lookup_insert_Some; [|by apply co_nodup]. cbn [e_chunks linked]. change (NoDup ((a :: e_chunks e) ++ [x])). apply NoDup_app. split_and!; [by apply co_nodup | | apply NoDup_singleton].
    intros y Hy ->%list_elem_of_singleton. by apply (Hax a e).
  - intros a1 e1 a2 e2 y H1 H2 Hy1 Hy2. destruct (Hmem _ _ _ H1 Hy1) as [[X1 Y1]|(e1' & ? & ?)], (Hmem _ _ _ H2 Hy2) as [[X2 Y2]|(e2' & ? & ?)]; [congruence | | | by apply (co_disjoint a1 e1' a2 e2' y)];
      exfalso; [apply (Hax a2 e2'); [done | by rewrite <- Y1] | apply (Hax a1 e1'); [done | by rewrite <- Y2]].
  - done.
  - intros a' e' y He' Hy. destruct (Hmem _ _ _ He' Hy) as [[-> ->]|(e0 & He0 & Hy0)]; [done |]. intros HyL. apply (co_loose a' e0 y He0 Hy0). by right.
  - by rewrite Eu.
Qed.

(** What linking and writing leave. *)
Record links (L : list Z) s s' : Prop := {
  lk_cfg : same_cfg s s';
  lk_counting : counting s → counting s';
  lk_idle : idle s → idle s';
  lk_vt : vtData s' = vtData s;
  lk_dom x : is_Some (_cData s' !! x) ↔ is_Some (_cData s !! x);
  lk_size x : length (bytes_at (_cData s') x) = length (bytes_at (_cData s) x);
  lk_loose x f : x ∈ L → part_of f = PChunk → mem s' !! (x, f) = mem s !! (x, f);
  lk_data x : x ∈ L → _cData s' !! x = _cData s !! x
}.
#[export] Instance links_po L : PreOrder (links L).
Proof.
  split; [by intros s | intros s1 s2 s3 [] []]. constructor; [by etrans | tauto | tauto | congruence | | congruence | | ].
  - intros x. by rewrite lk_dom1, lk_dom0.
  - intros x f Hx Hf. by rewrite lk_loose1, lk_loose0.
  - intros x Hx. by rewrite lk_data1, lk_data0.
Qed.
Lemma links_sub L L' s s' : (∀ x, x ∈ L' → x ∈ L) → links L s s' → links L' s s'.
Proof. intros HL []. constructor; auto. Qed.
Lemma links_sized L s s' x : links L s s' → x ∈ L → sized s x → sized s' x.
Proof.
  intros H Hx ((b & Eb & Es & Hb) & H0 & Hn & Hu). pose proof (lk_data _ _ _ H x Hx) as Ed. pose proof (λ f, lk_loose _ _ _ H x f Hx) as Em.
  split_and!; [exists b; by rewrite Ed, Em | done | by rewrite Em | by rewrite Em].
Qed.

Lemma link_ok {B} a x L s A e (k : prog t Empty_set B) : rep a (x :: L) s A → counting s → a_ents A !! a = Some e → sized s x →
  let p := lst (a :: e_chunks e) in
  ∃ s', (update (p, next_field (e_chunks e)) (flag true) ;;; update (p, union_field (e_chunks e)) x ;;; update (x, CNextChunk) (flag false) ;;; update (x, CUnion) 0 ;;; doUpdate true ;;; k) s = k s' ∧
    rep a L s' (set_entry a (linked (e_chunks e ++ [x]) e) A) ∧ links L s s' ∧ mem s' !! (x, CNextChunk) = Some 0 ∧ _cData s' = _cData s.
Proof.
  intros Hr Hcnt He (Hsz & Hx0 & Hxn & Hxu) p. pose proof Hr as [Hl Hc Hp Hn]. set (fN := next_field (e_chunks e)). set (fU := union_field (e_chunks e)).
  set (W := [((p, fN), 1); ((p, fU), x); ((x, CNextChunk), 0); ((x, CUnion), 0)]).
  assert (R : room 6 s) by (destruct Hcnt; unfold room; lia). pose proof (counting_part _ Hcnt) as HJ.
  assert (OW : only PChunk W) by (unfold W, fN, fU; destruct (e_chunks e); repeat constructor).
  assert (Hlast : p ∈ a :: e_chunks e) by apply last_in.
  assert (Hpx : p ≠ x) by (intros Epx; rewrite Epx in Hlast; apply (co_loose _ _ _ _ _ Hc a e x He Hlast); left).
  assert (HpL : ∀ y, y ∈ L → y ≠ p ∧ y ≠ x).
  { intros y Hy. split; [intros ->; apply (co_loose _ _ _ _ _ Hc a e p He Hlast); by right |]. pose proof (co_loose_nodup _ _ _ _ _ Hc) as Hnd. apply NoDup_cons in Hnd as [? _]. congruence. }
  assert (Hcell : is_Some (mem s !! (p, fN)) ∧ is_Some (mem s !! (p, fU))).
  { destruct (co_chain _ _ _ _ _ Hc a e He) as (len & Hcells & _). destruct (last_cells _ _ _ _ _ _ Hcells) as [E1 E2]. unfold p, fN, fU. rewrite E1, E2. split; by eexists. }
  destruct Hcell as [XN XU].
  assert (X : exist (mem s) W) by by repeat (apply Forall_cons_2 || apply Forall_nil_2).
  assert (EC : at_part PChunk (_stModifyData s ++ W) = W) by by parts.
  assert (EO : ∀ q, q ≠ PChunk → q ≠ PHead HGetCount → q ≠ PHead HHitCount → at_part q (_stModifyData s ++ W) = []).
  { intros q H1 H2 H3. rewrite at_part_app, HJ, (at_part_other q PChunk) by done. done. }
  assert (HfN : part_of fN = PChunk ∧ part_of fU = PChunk ∧ fN ≠ fU) by (unfold fN, fU; by destruct (e_chunks e)). destruct HfN as (HfN & HfU & HNU).
  assert (Wat : ∀ y f, apply_writes W (mem s) !! (y, f) = if decide (y = x ∧ (f = CNextChunk ∨ f = CUnion)) then Some 0 else
    if decide (y = p ∧ f = fN) then Some 1 else if decide (y = p ∧ f = fU) then Some x else mem s !! (y, f)).
  { intros y f. cbn. rewrite !lookup_insert. repeat case_decide; simplify_eq; naive_solver. }
  eexists. split; [|split; [|split; [|split]]].
  - rewrite <- (push_nil s) at 1. do 4 (let W := journal in erewrite (then_push (update _ _) _ W) by (apply hm_update_ok; room)). cbn [app]. fold W.
    rewrite (bind_Ok _ _ _ _ _ (commit_ok s W (counting_exist _ _ _ Hcnt Hl) X)). done.
  - assert (Em : ∀ y f, part_of f = PChunk → mem (commit (_stModifyData s ++ W) (push W s)) !! (y, f) = apply_writes W (mem s) !! (y, f)).
    { intros y f Hf. cbn. rewrite (apply_part _ PChunk) by done. by rewrite EC. }
    constructor; try done.
    + cbn [mem commit set_mem set_journal push _hash_size]. apply (lists_ok_chunks (mem s)); [done | done | | by apply apply_is_Some, (lo_get _ _ _ Hl) | by apply apply_is_Some, (lo_hit _ _ _ Hl)].
      intros y f H1 H2 H3. apply (apply_part_nil _ (part_of f)); [done |]. apply EO; [done | |]; destruct f; cbn; congruence.
    + cbn [a_ents set_entry]. apply (chains_link a x L (mem s)); try done.
      * intros y f Hy Hf H1 H2. rewrite Em by done. apply apply_notin. repeat (apply Forall_cons_2 || apply Forall_nil_2); cbn; intros [= <- <-]; first [by apply H1 | by apply H2 | by apply Hy].
      * apply (apply_part_nil _ (PHead HUsedChunk)); [done | by apply EO].
      * rewrite Em by done. change (apply_writes W (mem s) !! (p, fN) = Some 1). by rewrite Wat, decide_False, decide_True by tauto.
      * rewrite Em by done. change (apply_writes W (mem s) !! (p, fU) = Some x). by rewrite Wat, decide_False, decide_False, decide_True by naive_solver.
      * destruct Hsz as (b & Eb & Es & Hb). split.
        { exists b. by rewrite Em, Wat, !decide_False by naive_solver. }
        rewrite !Em, !Wat, !decide_True by tauto. split_and!; [done | done | by intros []].
  - constructor; try done; [intros _; by left |]. intros y f Hy Hf. cbn. rewrite (apply_part _ PChunk), EC by done. destruct (HpL y Hy).
    apply apply_notin. repeat (apply Forall_cons_2 || apply Forall_nil_2); cbn; congruence.
  - cbn. rewrite (apply_part _ PChunk), EC, Wat by done. by rewrite decide_True by tauto.
  - done.
Qed.

Lemma linked_lst a l x : lst (a :: l ++ [x]) = x.
Proof. change (a :: l ++ [x]) with ((a :: l) ++ [x]). apply lst_snoc. Qed.
Lemma next_snoc l x : next_field (l ++ [x]) = CNextChunk ∧ union_field (l ++ [x]) = CUnion.
Proof. by destruct l. Qed.
Lemma set_entry_twice a e e' A : abs_eq (set_entry a e' (set_entry a e A)) (set_entry a e' A).
Proof. constructor; try done. cbn. by rewrite insert_insert_eq. Qed.

Lemma joinChunk_ok a L : ∀ rest s A e l c, rep a (rest ++ L) s A → counting s → a_ents A !! a = Some e → e_chunks e = l ++ [c] → Forall (sized s) rest →
  ∃ s', joinChunk c rest s = (Ok RT_OK, s') ∧ rep a L s' (set_entry a (linked (e_chunks e ++ rest) e) A) ∧ links L s s' ∧ _cData s' = _cData s.
Proof.
  induction rest as [|x rest IH]; intros s A e l c Hr Hcnt He Ec Hsz; cbn [joinChunk app].
  - pose proof Hr as [Hl Hc _ _]. destruct (co_chain _ _ _ _ _ Hc a e He) as (len & Hcells & _). destruct (last_cells _ _ _ _ _ _ Hcells) as [En _].
    rewrite Ec in En. rewrite linked_lst in En. destruct (next_snoc l c) as [Ef _]. rewrite Ef in En. set (W := [((c, CNextChunk), 0)]).
    assert (R : room 6 s) by (destruct Hcnt; unfold room; lia). pose proof (counting_part _ Hcnt) as HJ. assert (OW : only PChunk W) by by repeat constructor.
    assert (EC : at_part PChunk (_stModifyData s ++ W) = W) by by parts.
    assert (Em : ∀ y f, part_of f = PChunk → mem (commit (_stModifyData s ++ W) (push W s)) !! (y, f) = mem s !! (y, f)).
    { intros y f Hf. cbn. rewrite (apply_part _ PChunk), EC by done. cbn. destruct (decide ((c, CNextChunk) = (y, f))) as [[= <- <-]|Hne]; [by rewrite lookup_insert_eq, En | by rewrite lookup_insert_ne]. }
    eexists. split; [|split; [|split]].
    + rewrite (bind_Ok _ _ _ _ _ (hm_update_ok (c, CNextChunk) 0 s (room_le 6 1 s ltac:(lia) R))). fold W.
      rewrite (bind_Ok _ _ _ _ _ (commit_ok s W (counting_exist _ _ _ Hcnt Hl) ltac:(apply Forall_singleton; cbn; rewrite En; by eexists))). done.
    + destruct Hr as [_ _ Hp Hn]. constructor; [| | done | done]; cbn [mem commit set_mem set_journal push _hash_size _cData a_ents set_entry].
      * apply (lists_ok_chunks (mem s)); [done | done | | by apply apply_is_Some, (lo_get _ _ _ Hl) | by apply apply_is_Some, (lo_hit _ _ _ Hl)].
        intros y f H1 H2 H3. apply (apply_part_nil _ (part_of f)); [done |]. rewrite at_part_app, HJ, (at_part_other _ PChunk) by (first [done | by apply not_eq_sym | destruct f; cbn; congruence]). done.
      * eapply chains_ok_ext; [exact Em | | apply (same_chains_insert _ _ e); [done | apply app_nil_r | done] | done]. apply (apply_part_nil _ (PHead HUsedChunk)); [done | by parts].
    + constructor; try done; [intros _; by left |]. intros y f Hy Hf. by apply Em.
    + done.
  - apply Forall_cons in Hsz as [Hx Hsz]. destruct (link_ok a x (rest ++ L) s A e (joinChunk x rest) Hr Hcnt He Hx) as (s1 & E1 & Hr1 & Hlk & En & Ed).
    rewrite Ec in E1. rewrite linked_lst in E1. destruct (next_snoc l c) as [Ef1 Ef2]. rewrite Ef1, Ef2 in E1. rewrite E1.
    destruct (IH s1 _ (linked (e_chunks e ++ [x]) e) (e_chunks e) x Hr1 (lk_counting _ _ _ Hlk Hcnt)) as (s' & E2 & Hr2 & Hlk2 & Ed2); [cbn; apply lookup_insert_eq | done | |].
    { apply Forall_forall. intros y Hy. rewrite Forall_forall in Hsz. eapply links_sized; [exact Hlk | apply elem_of_app; by left | by apply Hsz]. }
    exists s'. split; [done |]. split; [|split; [etrans; [|done]; eapply links_sub; [|done]; intros y Hy; apply elem_of_app; by right | congruence]].
    rewrite set_entry_twice in Hr2. cbn [linked e_chunks e_index e_sync e_dirty e_only e_data] in Hr2. by rewrite <- app_assoc in Hr2.
Qed.

(** *** Cutting chunks off *)

Lemma chunk_cells_cut (fit : bool) m d l1 p l2 len : l2 ≠ [] → chunk_cells fit m d (l1 ++ p :: l2) len →
  size_ok m d CSize sizeof_tagChunkHead p ∧ m !! (p, CNextChunk) = Some 1 ∧ m !! (p, CUnion) = Some (hd0 l2) ∧ chunk_cells fit m d l2 len ∧
  ∀ m' len', (∀ y f, y ∈ l1 → part_of f = PChunk → m' !! (y, f) = m !! (y, f)) → m' !! (p, CSize) = m !! (p, CSize) → m' !! (p, CNextChunk) = Some 0 → m' !! (p, CUnion) = Some len' →
    chunk_cells false m' d (l1 ++ [p]) len'.
Proof.
  intros Hne. induction l1 as [|y l1 IH]; cbn [app].
  - intros [Hs Hl]. destruct l2 as [|z l2]; [done |]. destruct Hl as (En & Eu & Hl). split_and!; try done. intros m' len' _ Es En' Eu'.
    destruct Hs as (b & Eb & Es' & Hb). split; [exists b; by rewrite Es | split_and!; [done | done | by intros []]].
  - intros [Hs Hl]. assert (Hl' : chunk_cells fit m d (l1 ++ p :: l2) len) by (destruct l1; by destruct Hl as (? & ? & ?)).
    destruct (IH Hl') as (H1 & H2 & H3 & H4 & H5). split_and!; try done. intros m' len' Em Es En Eu.
    assert (IH' : chunk_cells false m' d (l1 ++ [p]) len') by (apply H5; try done; intros; apply Em; [by right | done]).
    split; [destruct Hs as (b & Eb & Es' & Hb); exists b; rewrite Em; [done | left | done] |].
    assert (Ey : m' !! (y, CNextChunk) = m !! (y, CNextChunk) ∧ m' !! (y, CUnion) = m !! (y, CUnion)) by (split; apply Em; (left || done)). destruct Ey as [-> ->].
    destruct l1 as [|z l1]; cbn [app] in *; destruct Hl as (? & ? & _); by split_and!.
Qed.
Lemma block_cells_cut (fit : bool) m d a l1 l2 len : l2 ≠ [] → NoDup (a :: l1 ++ l2) → block_cells fit m d a (l1 ++ l2) len →
  let p := lst (a :: l1) in
  m !! (p, next_field l1) = Some 1 ∧ m !! (p, union_field l1) = Some (hd0 l2) ∧ chunk_cells fit m d l2 len ∧
  ∀ m' len', (∀ y f, y ∈ a :: l1 → part_of f = PChunk → (y, f) ≠ (p, next_field l1) → (y, f) ≠ (p, union_field l1) → m' !! (y, f) = m !! (y, f)) →
    m' !! (p, next_field l1) = Some 0 → m' !! (p, union_field l1) = Some len' → block_cells false m' d a l1 len'.
Proof.
  intros Hne Hnd [Hs Hl] p. destruct l1 as [|x l1 _] using rev_ind.
  - cbn [app] in Hl. destruct l2 as [|z l2]; [done |]. destruct Hl as (En & Eu & Hl). split_and!; try done. intros m' len' Em En' Eu'.
    destruct Hs as (b & Eb & Es' & Hb). split; [exists b; rewrite Em; [done | left | done | done | done] | split_and!; [done | done | by intros []]].
  - unfold p. rewrite linked_lst. destruct (next_snoc l1 x) as [-> ->]. rewrite <- app_assoc in Hl. cbn [app] in Hl.
    assert (Hl' : chunk_cells fit m d (l1 ++ x :: l2) len ∧ m !! (a, BNextChunk) = Some 1 ∧ m !! (a, BUnion) = Some (hd0 (l1 ++ [x]))) by (destruct l1; by destruct Hl as (? & ? & ?)).
    destruct Hl' as (Hl' & Ea1 & Ea2). destruct (chunk_cells_cut fit m d l1 x l2 len Hne Hl') as (H1 & H2 & H3 & H4 & H5). split_and!; try done. intros m' len' Em En Eu.
    assert (Hx : ∀ y, y ∈ a :: l1 → y ≠ x).
    { intros y Hy ->. assert (Hnd' : NoDup ((a :: l1) ++ x :: l2)) by (by rewrite <- app_assoc in Hnd). apply NoDup_app in Hnd' as (_ & Hd & _). apply (Hd x Hy). left. }
    assert (Hc : chunk_cells false m' d (l1 ++ [x]) len').
    { apply H5; try done; [intros y f Hy Hf; apply Em; [right; apply elem_of_app; by left | done | |]; intros [= -> ->]; by apply (Hx x); [right |] |].
      apply Em; [right; apply elem_of_app; right; left | done..]. }
    split; [destruct Hs as (b & Eb & Es' & Hb); exists b; rewrite Em; [done | left | done | done | done] |].
    assert (Ea : m' !! (a, BNextChunk) = m !! (a, BNextChunk) ∧ m' !! (a, BUnion) = m !! (a, BUnion)) by (split; apply Em; (left || done)). destruct Ea as [Ea3 Ea4].
    destruct l1 as [|z l1]; cbn [app] in *; rewrite Ea3, Ea4; by split_and!.
Qed.
Lemma chains_cut a m m' (d : gmap Z (list Z)) E e l1 l2 len' : chains_ok 0 [] m d E → E !! a = Some e → a ≠ 0 → (∀ x, is_Some (E !! x) → x ≠ 0) → e_chunks e = l1 ++ l2 → l2 ≠ [] →
  (∀ y f, part_of f = PChunk → (y, f) ≠ (lst (a :: l1), next_field l1) → (y, f) ≠ (lst (a :: l1), union_field l1) → m' !! (y, f) = m !! (y, f)) →
  m' !! (0, HUsedChunk) = m !! (0, HUsedChunk) → m' !! (lst (a :: l1), next_field l1) = Some 0 → m' !! (lst (a :: l1), union_field l1) = Some len' →
  chains_ok a l2 m' d (<[a := linked l1 e]> E) ∧ ∃ len, chunk_cells false m' d l2 len.
Proof.
  intros Hc He Ha0 Hpos Ec Hne Em Eu En Eun. pose proof Hc as []. destruct (co_chain a e He) as (len & Hcells & _). pose proof (co_nodup a e He) as Hnd. rewrite Ec in Hcells, Hnd.
  destruct (block_cells_cut _ m d a l1 l2 len Hne Hnd Hcells) as (_ & _ & Hl2 & Hcut). change (a :: l1 ++ l2) with ((a :: l1) ++ l2) in Hnd. apply NoDup_app in Hnd as (Hnd1 & Hd & Hnd2).
  assert (Hp : lst (a :: l1) ∈ a :: l1) by apply last_in.
  assert (Hown : ∀ x, x ∈ a :: e_chunks e ↔ x ∈ a :: l1 ∨ x ∈ l2) by (intros x; rewrite Ec; change (a :: l1 ++ l2) with ((a :: l1) ++ l2); apply elem_of_app).
  split; [constructor | exists len; eapply chunk_cells_ext; [| done | by eapply chunk_cells_fit]].
  - intros x e' [[<- <-]|[Hne' He']]%lookup_insert_Some.
    + exists len'. rewrite bool_decide_eq_false_2 by (intros Hn; by apply Hn). split; [|by intros ?]. apply Hcut; try done. intros; by apply Em.
    + destruct (co_chain x e' He') as (len0 & Hc0 & Hd0). exists len0. rewrite bool_decide_eq_true_2 in Hc0 |- * by (done || apply Hpos; by eexists). split; [|intros _; apply Hd0, Hpos; by eexists].
      eapply block_cells_ext; [| done | done]. intros y f Hy Hf. apply Em; [done | |]; intros [= -> ->]; apply Hne'; symmetry; eapply (co_disjoint x e' a e); try done; apply Hown; by left.
  - intros x. rewrite co_dom. split.
    + intros [Hx|(a' & e' & He' & Hx)]; [by apply not_elem_of_nil in Hx |]. destruct (decide (a' = a)) as [->|Hn]; [|right; exists a', e'; by rewrite lookup_insert_ne].
      simplify_eq. apply Hown in Hx as [Hx|Hx]; [right; exists a, (linked l1 e); by rewrite lookup_insert_eq | by left].
    + intros [Hx|(a' & e' & [[<- <-]|[_ He']]%lookup_insert_Some & Hx)]; right; [exists a, e; split; [done |]; apply Hown; by right | exists a, e; split; [done |]; apply Hown; by left | by exists a', e'].
  - intros x e' [[<- <-]|[_ He']]%lookup_insert_Some; [done | by apply co_nodup].
  - assert (Hsub : ∀ x e', <[a := linked l1 e]> E !! x = Some e' → ∃ e0, E !! x = Some e0 ∧ ∀ y, y ∈ x :: e_chunks e' → y ∈ x :: e_chunks e0).
    { intros x e' [[<- <-]|[_ He']]%lookup_insert_Some; [exists e; split; [done |]; intros y Hy; apply Hown; by left | by exists e']. }
    intros x1 e1 x2 e2 y H1 H2 Hy1 Hy2. destruct (Hsub _ _ H1) as (e1' & ? & ?), (Hsub _ _ H2) as (e2' & ? & ?). apply (co_disjoint x1 e1' x2 e2' y); auto.
  - done.
  - intros x e' y [[<- <-]|[Hne' He']]%lookup_insert_Some Hy Hy2; [by apply (Hd y) |]. apply Hne'. symmetry. apply (co_disjoint x e' a e y); try done. apply Hown. by right.
  - by rewrite Eu.
  - intros y f Hy Hf. apply Em; [done | |]; intros [= -> ->]; by apply (Hd (lst (a :: l1))).
Qed.
End data.
