(* ===== verification/HashMapWrite.v ===== *)
(** A record is written to a block of a [HashMap]. *)
From stdpp Require Import prelude gmap list.
From Stdlib Require Import ZArith Lia.
From S2P Require Import Prelude Bytes MemChunkSpec HashMap HashMapLists HashMapRep HashMapBlocks HashMapErase HashMapOrder HashMapEvict HashMapNew HashMapData.
Import HashMap.HashMap.

Section write.
Context {Al : Type} {AL : Allocator Al} {ALL : AllocatorLaws Al}.
Abbreviation t := (t (Al := Al)).
Implicit Types (s : t) (A : abs) (W : list (loc * Z)).

(** The chunks after [l1] go. *)
Lemma cut_ok a s A e l1 l2 W v : rep 0 [] s A → counting s → a_ents A !! a = Some e → e_chunks e = l1 ++ l2 → l2 ≠ [] → exist (mem s) W → only PChunk W →
  let p := lst (a :: l1) in
  (∀ y f, (y, f) ≠ (p, next_field l1) → (y, f) ≠ (p, union_field l1) → apply_writes W (mem s) !! (y, f) = mem s !! (y, f)) →
  apply_writes W (mem s) !! (p, next_field l1) = Some 0 → apply_writes W (mem s) !! (p, union_field l1) = Some v →
  ∃ s', (doUpdate true ;;; deallocate_chunks (hd0 l2)) (push W s) = (Ok tt, s') ∧ rep a [] s' (set_entry a (linked l1 e) A) ∧ same_cfg s s' ∧
    _cModifyStatus s' = 0 ∧ _stModifyData s' = [] ∧ vtData s' = vtData s ∧ ∀ y, y ∈ a :: l1 → _cData s' !! y = _cData s !! y.
Proof.
  intros Hr Hcnt He Ec Hne X OW p Hsame En Eu. pose proof Hr as [Hl Hc Hp Hn]. pose proof (counting_part _ Hcnt) as HJ.
  assert (EC : at_part PChunk (_stModifyData s ++ W) = W) by by parts.
  rewrite (bind_Ok _ _ _ _ _ (commit_ok s W (counting_exist _ _ _ Hcnt Hl) X)). set (s1 := commit _ _).
  assert (Em : ∀ y f, part_of f = PChunk → mem s1 !! (y, f) = apply_writes W (mem s) !! (y, f)) by (intros y f Hf; cbn; by rewrite (apply_part _ PChunk), EC by done).
  assert (Hpos : ∀ x, is_Some (a_ents A !! x) → x ≠ 0) by (intros x Hx; pose proof (entry_pos 0 [] s A x Hr Hx); lia).
  assert (Hf : part_of (next_field l1) = PChunk ∧ part_of (union_field l1) = PChunk) by by destruct l1. destruct Hf as [Hf1 Hf2].
  destruct (chains_cut a (mem s) (mem s1) (_cData s) (a_ents A) e l1 l2 v Hc He ltac:(apply Hpos; by eexists) Hpos Ec Hne) as (Hc1 & len & Hcells).
  { intros y f Hf H1 H2. rewrite Em by done. by apply Hsame. } { apply (apply_part_nil _ (PHead HUsedChunk)); [done | by parts]. } { by rewrite Em. } { by rewrite Em. }
  assert (Hr1 : rep a (l2 ++ []) s1 (set_entry a (linked l1 e) A)).
  { rewrite app_nil_r. constructor; [| done | done | done]. apply (lists_ok_chunks (mem s)); [done | done | | by apply apply_is_Some, (lo_get _ _ _ Hl) | by apply apply_is_Some, (lo_hit _ _ _ Hl)].
    intros y f H1 H2 H3. apply (apply_part_nil _ (part_of f)); [done |]. rewrite at_part_app, HJ, (at_part_other _ PChunk) by (first [done | by apply not_eq_sym | destruct f; cbn; congruence]). done. }
  destruct (deallocate_chunks_ok false a l2 [] s1 _ len Hr1 Hcells) as (s' & E' & Hr' & (C & S & J & V & D & M)).
  exists s'. split; [done |]. split; [done |]. split_and!; try done. intros y Hy. rewrite D; [done |]. intros Hy2.
  pose proof (co_nodup _ _ _ _ _ Hc a e He) as Hnd. rewrite Ec in Hnd. change (a :: l1 ++ l2) with ((a :: l1) ++ l2) in Hnd. apply NoDup_app in Hnd as (_ & Hnd & _). by apply (Hnd y).
Qed.

(** What making room for [keep] does: blocks are thrown out, [K] keep their bytes. *)
Record made (keep : Z) (K : list Z) s A (gone : list (Z * entry)) s' A' : Prop := {
  md_evicts : evicts (_bAutoErase s) (order_of s) keep A gone A';
  md_cfg : same_cfg s s';
  md_counting : counting s → counting s';
  md_idle : idle s → idle s';
  md_vt : vtData s' = vtData s ++ readable gone;
  md_data y : y ∈ K → _cData s' !! y = _cData s !! y
}.
Lemma made_threw keep K s A g s' A' : threw keep K [] s A g s' A' → made keep K s A g s' A'.
Proof. intros (E & S & V). pose proof S as []. constructor; try done. intros y Hy. apply (sp_loose y). rewrite app_nil_r. done. Qed.
Lemma made_none keep K s A s' : same_cfg s s' → (counting s → counting s') → (idle s → idle s') → vtData s' = vtData s → (∀ y, y ∈ K → _cData s' !! y = _cData s !! y) → made keep K s A [] s' A.
Proof. intros. constructor; try done; [constructor | by rewrite app_nil_r]. Qed.
Lemma made_links keep K L s A g s1 A1 s2 : made keep K s A g s1 A1 → links L s1 s2 → _cData s2 = _cData s1 → made keep K s A g s2 A1.
Proof. intros [] [] Ed. constructor; [done | by etrans | tauto | tauto | congruence |]. intros y Hy. rewrite Ed. auto. Qed.
Lemma kept {b} c keep A g A' e : evicts b c keep A g A' → a_ents A !! keep = Some e → a_ents A' !! keep = Some e.
Proof.
  intros Hev He. destruct (owned_evicts _ _ _ _ _ [keep] Hev) with (y := keep) as (e' & He' & _); [|left|].
  - intros y ->%list_elem_of_singleton. exists e. split; [done | left].
  - rewrite (evicts_ents _ _ _ _ _ _ Hev) in He'. case_decide; [done | by rewrite (evicts_ents _ _ _ _ _ _ Hev), decide_False].
Qed.

(** How making room ends: [l] are the chunks. *)
Definition made_room (a : Z) (n : Z) (fits : list Z) s A e s' (r : Z) (gone : list (Z * entry)) A' (pre : list Z) : Prop :=
  r = RT_NO_MEMORY ∧ rep 0 [] s' A' ∧ no_memory a s A' ∨
  r = RT_OK ∧ ∃ new, rep a [] s' (set_entry a (linked (pre ++ new) e) A') ∧ fills (_cData s') (fits ++ new) n.

Lemma extend_ok a s A e fn : rep 0 [] s A → counting s → 0 ≤ _iEraseCount s → a_ents A !! a = Some e → 0 < fn < 2 ^ 64 →
  ∃ r s' gone A', extend a (lst (a :: e_chunks e)) (next_field (e_chunks e)) (union_field (e_chunks e)) fn s = (Ok r, s') ∧ made a (a :: e_chunks e) s A gone s' A' ∧
    made_room a fn [] s A e s' r gone A' (e_chunks e).
Proof.
  intros Hr Hcnt Hec He Hfn. unfold extend, allocateChunk. unfold bind at 1. unfold bind at 1, assert_that at 1. rewrite (proj2 (Z.ltb_lt _ _)) by lia.
  assert (HK : owned a A (a :: e_chunks e)) by (intros y Hy; by exists e).
  destruct (allocateChunk_loop_ok a (a :: e_chunks e) [] (Z.to_nat fn) fn [] s A) as (r & out & s1 & gone & A1 & E1 & Hth & H); [by rewrite app_nil_r | done | done | done | done | done | lia |].
  rewrite E1. pose proof (made_threw _ _ _ _ _ _ _ Hth) as Hm. destruct H as [(-> & Hr1 & Hno)|(-> & new & -> & Hr1 & Hsz & Hfill & _)]; cbn [fst snd].
  { exists RT_NO_MEMORY, s1, gone, A1. split; [done |]. split; [done | by left]. }
  cbn [app Z.eqb negb RT_OK] in *. rewrite app_nil_r in Hr1. destruct new as [|c0 rest]; [done |]. apply Forall_cons in Hsz as [Hs0 Hsz].
  assert (He1 : a_ents A1 !! a = Some e) by (eapply kept; [apply (md_evicts _ _ _ _ _ _ _ Hm) | done]).
  pose proof (md_counting _ _ _ _ _ _ _ Hm Hcnt) as Hcnt1.
  destruct (link_ok a c0 rest s1 A1 e (joinChunk c0 rest) (rep_busy a _ _ _ Hr1) Hcnt1 He1 Hs0) as (s2 & E2 & Hr2 & Hlk & _ & Ed). rewrite E2.
  destruct (joinChunk_ok a [] rest s2 (set_entry a (linked (e_chunks e ++ [c0]) e) A1) (linked (e_chunks e ++ [c0]) e) (e_chunks e) c0) as (s' & E' & Hr' & Hlk' & Ed').
  { by rewrite app_nil_r. } { by apply (lk_counting _ _ _ Hlk). } { cbn. apply lookup_insert_eq. } { done. }
  { apply Forall_forall. intros y Hy. rewrite Forall_forall in Hsz. eapply links_sized; [exact Hlk | done | by apply Hsz]. }
  exists RT_OK, s', gone, A1. split; [done |].
  assert (Hlk2 : links [] s1 s') by (etrans; [eapply links_sub; [|exact Hlk]; by intros y ?%not_elem_of_nil | done]).
  split; [eapply made_links; [exact Hm | exact Hlk2 | congruence] |]. right. split; [done |]. exists (c0 :: rest). split; [|cbn [app]; eapply fills_ext; [|exact Hfill]; intros; congruence].
  rewrite set_entry_twice in Hr'. cbn [linked e_chunks e_index e_sync e_dirty e_only e_data] in Hr'. by rewrite <- app_assoc in Hr'.
Qed.

Lemma chunk_cells_at (fit : bool) m d pre x post len : chunk_cells fit m d (pre ++ x :: post) len →
  size_ok m d CSize sizeof_tagChunkHead x ∧ m !! (x, CNextChunk) = Some (flag (bool_decide (post ≠ []))) ∧ (post ≠ [] → m !! (x, CUnion) = Some (hd0 post)).
Proof.
  induction pre as [|y pre IH]; cbn [app].
  - intros [Hs Hl]. destruct post as [|z post]; destruct Hl as (? & ? & _); by split_and!.
  - intros [_ Hl]. apply IH. destruct pre; by destruct Hl as (? & ? & ?).
Qed.
Lemma block_cells_at (fit : bool) m d a pre x post len : block_cells fit m d a (pre ++ x :: post) len →
  size_ok m d CSize sizeof_tagChunkHead x ∧ m !! (x, CNextChunk) = Some (flag (bool_decide (post ≠ []))) ∧ (post ≠ [] → m !! (x, CUnion) = Some (hd0 post)).
Proof. intros [_ Hl]. apply (chunk_cells_at fit m d pre x post len). destruct pre; by destruct Hl as (? & ? & ?). Qed.
Lemma made_sub keep K K' s A g s' A' : (∀ y, y ∈ K' → y ∈ K) → made keep K s A g s' A' → made keep K' s A g s' A'.
Proof. intros HK []. constructor; auto. Qed.
Lemma room_more a n x rest s A e s' r gone A' pre : made_room a (n - zlen (bytes_at (_cData s) x)) rest s A e s' r gone A' pre →
  zlen (bytes_at (_cData s) x) < n → _cData s' !! x = _cData s !! x → made_room a n (x :: rest) s A e s' r gone A' pre.
Proof.
  intros [H|(-> & new & Hr & Hf)] Hn Ed; [by left |]. right. split; [done |]. exists new. split; [done |]. cbn [app].
  assert (Eb : bytes_at (_cData s') x = bytes_at (_cData s) x) by (unfold bytes_at; by rewrite Ed). destruct (rest ++ new) as [|y l]; [done |]. cbn [fills]. by rewrite Eb.
Qed.

Lemma allocate_chunks_ok a s A e : rep 0 [] s A → counting s → 0 ≤ _iEraseCount s → a_ents A !! a = Some e → ∀ fuel fn pre x post,
  (length (x :: post) ≤ fuel)%nat → e_chunks e = pre ++ x :: post → 0 < fn < 2 ^ 64 →
  ∃ r s' gone A', allocate_chunks fuel a fn x s = (Ok r, s') ∧ made a (a :: pre ++ [x]) s A gone s' A' ∧ made_room a fn [x] s A e s' r gone A' (pre ++ [x]).
Proof.
  intros Hr Hcnt Hec He. pose proof Hr as [Hl Hc _ _]. destruct (co_chain _ _ _ _ _ Hc a e He) as (len & Hcells & _).
  induction fuel as [|fuel IH]; intros fn pre x post Hf Ec Hfn; [cbn in Hf; lia |]. cbn [allocate_chunks].
  rewrite Ec in Hcells. destruct (block_cells_at _ _ _ _ _ _ _ _ Hcells) as ((b & Eb & Es & Hb) & En & Eu).
  rewrite (bind_Ok _ _ _ _ _ (load_ok _ _ _ Es)), (bind_Ok _ _ _ _ _ (test_ok _ _ _ En)). rewrite <- Ec in Hcells.
  replace (zlen b + sizeof_tagChunkHead - sizeof_tagChunkHead) with (zlen b) by lia. rewrite (wrapU_id 64 (zlen b)) by (unfold in_U; lia).
  pose proof (hm_bytes_at_eq _ _ _ Eb) as Ebx. destruct (Z.leb_spec fn (zlen b)) as [Hle|Hgt].
  - destruct post as [|y post].
    + rewrite bool_decide_eq_false_2 by (intros H; by apply H). exists RT_OK, s, [], A. split; [done |]. split; [by apply made_none |]. right. split; [done |]. exists [].
      split; [|cbn; rewrite Ebx; lia]. assert (Eid : linked ((pre ++ [x]) ++ []) e = e) by (rewrite app_nil_r, <- Ec; by destruct e). rewrite Eid.
      pose proof (set_entry_id a e A He) as Eq. rewrite Eq. by apply rep_busy.
    + rewrite bool_decide_eq_true_2 by done. specialize (Eu ltac:(done)). unfold bind at 1. rewrite (bind_Ok _ _ _ _ _ (load_ok _ _ _ Eu)).
      assert (R : room 2 s) by (destruct Hcnt; unfold room; lia). rewrite (bind_Ok _ _ _ _ _ (hm_update_ok (x, CNextChunk) (flag false) s (room_le 2 1 s ltac:(lia) R))).
      destruct (next_snoc pre x) as [Ef1 Ef2]. pose proof (linked_lst a pre x) as Elst.
      destruct (cut_ok a s A e (pre ++ [x]) (y :: post) [((x, CNextChunk), 0)] y Hr Hcnt He) as (s' & E' & Hr' & C & S & J & V & D); rewrite ?Elst, ?Ef1, ?Ef2.
      { by rewrite <- app_assoc. } { done. } { apply Forall_singleton. cbn. rewrite En. by eexists. } { by repeat constructor. }
      { intros z f H1 H2. cbn. by rewrite lookup_insert_ne. } { cbn. by rewrite lookup_insert_eq. } { cbn. by rewrite lookup_insert_ne. }
      cbn [hd0 head from_option flag Z.b2z] in *. rewrite E'. exists RT_OK, s', [], A. split; [done |].
      split; [apply made_none; try done; [intros _; split; rewrite J; [constructor | cbn; lia] | intros _; by left] |].
      right. split; [done |]. exists []. rewrite app_nil_r. split; [done |]. cbn. unfold bytes_at. rewrite D by (right; apply elem_of_app; right; left). rewrite Eb. cbn. lia.
  - rewrite wrapU_id by (unfold in_U; lia). destruct post as [|y post].
    + rewrite bool_decide_eq_false_2 by (intros H; by apply H). destruct (extend_ok a s A e (fn - zlen b) Hr Hcnt Hec He ltac:(lia)) as (r & s' & gone & A' & E & Hm & Hroom).
      destruct (next_snoc pre x) as [Ef1 Ef2]. rewrite Ec in E, Hm, Hroom. rewrite Ef1, Ef2, linked_lst in E. exists r, s', gone, A'. split; [done |]. split; [done |].
      rewrite <- Ebx in Hroom. apply room_more; [done | by rewrite Ebx |]. apply (md_data _ _ _ _ _ _ _ Hm). right. apply elem_of_app. right. left.
    + rewrite bool_decide_eq_true_2 by done. specialize (Eu ltac:(done)). rewrite (bind_Ok _ _ _ _ _ (load_ok _ _ _ Eu)).
      destruct (IH (fn - zlen b) (pre ++ [x]) y post) as (r & s' & gone & A' & E & Hm & Hroom); [cbn in *; lia | by rewrite <- app_assoc | lia |].
      change (hd0 (y :: post)) with y. exists r, s', gone, A'. split; [done |]. split; [eapply made_sub; [|exact Hm]; intros z; rewrite !elem_of_cons, !elem_of_app; tauto |].
      rewrite <- Ebx in Hroom. assert (Hroom' : made_room a (fn - zlen (bytes_at (_cData s) x)) [y] s A e s' r gone A' ((pre ++ [x]) ++ [y])) by done.
      destruct Hroom' as [H|(-> & new & Hr' & Hfl)]; [by left |]. right. split; [done |]. exists (y :: new). split; [by rewrite <- app_assoc in Hr' |].
      cbn [app fills] in *. assert (Exb : bytes_at (_cData s') x = bytes_at (_cData s) x).
      { unfold bytes_at. rewrite (md_data _ _ _ _ _ _ _ Hm); [done |]. rewrite !elem_of_cons, !elem_of_app, list_elem_of_singleton. tauto. }
      rewrite Exb, Ebx in *. split; [lia | done].
Qed.

Lemma allocate_ok a s A e n : rep 0 [] s A → counting s → 0 ≤ _iEraseCount s → a_ents A !! a = Some e → 0 ≤ n < 2 ^ 64 →
  ∃ r s' gone A', allocate a n s = (Ok r, s') ∧ made a [a] s A gone s' A' ∧ made_room a n [a] s A e s' r gone A' [].
Proof.
  intros Hr Hcnt Hec He Hn. pose proof Hr as [Hl Hc _ _]. destruct (co_chain _ _ _ _ _ Hc a e He) as (len & [(b & Eb & Es & Hb) Hcells] & _).
  pose proof (hm_bytes_at_eq _ _ _ Eb) as Ebx. unfold allocate. rewrite (bind_Ok _ _ _ _ _ (load_ok _ _ _ Es)).
  replace (zlen b + sizeof_tagBlockHead - sizeof_tagBlockHead) with (zlen b) by lia. rewrite (wrapU_id 64 (zlen b)) by (unfold in_U; lia).
  assert (Emore : mem s !! (a, BNextChunk) = Some (flag (bool_decide (e_chunks e ≠ [])))) by (destruct (e_chunks e) as [|y l]; by destruct Hcells as (? & _)).
  rewrite (bind_Ok _ _ _ _ _ (test_ok _ _ _ Emore)). destruct (e_chunks e) as [|y l] eqn:Ec.
  - rewrite bool_decide_eq_false_2 by (intros H; by apply H). destruct (Z.leb_spec n (zlen b)) as [Hle|Hgt].
    + exists RT_OK, s, [], A. split; [done |]. split; [by apply made_none |]. right. split; [done |]. exists [].
      split; [|cbn; rewrite Ebx; lia]. assert (Eid : linked ([] ++ []) e = e) by (cbn; rewrite <- Ec; by destruct e). rewrite Eid.
      pose proof (set_entry_id a e A He) as Eq. rewrite Eq. by apply rep_busy.
    + rewrite wrapU_id by (unfold in_U; lia). destruct (extend_ok a s A e (n - zlen b) Hr Hcnt Hec He ltac:(lia)) as (r & s' & gone & A' & E & Hm & Hroom).
      rewrite Ec in E, Hm, Hroom. exists r, s', gone, A'. split; [done |]. split; [done |].
      rewrite <- Ebx in Hroom. apply room_more; [done | by rewrite Ebx |]. apply (md_data _ _ _ _ _ _ _ Hm). left.
  - rewrite bool_decide_eq_true_2 by done. destruct Hcells as (_ & Eu & _). destruct (Z.leb_spec n (zlen b)) as [Hle|Hgt].
    + unfold bind at 1. rewrite (bind_Ok _ _ _ _ _ (load_ok _ _ _ Eu)). assert (R : room 4 s) by (destruct Hcnt; unfold room; lia).
      destruct (cut_ok a s A e [] (y :: l) [((a, BNextChunk), 0); ((a, BUnion), 0)] 0 Hr Hcnt He) as (s' & E' & Hr' & C & S & J & V & D); rewrite ?(lst_snoc [] a : lst [a] = a).
      { done. } { done. } { repeat (apply Forall_cons_2 || apply Forall_nil_2); cbn; [rewrite Emore | rewrite Eu]; by eexists. } { by repeat constructor. }
      { intros z f H1 H2. cbn. by rewrite !lookup_insert_ne by (intros [= <- <-]; first [by apply H1 | by apply H2]). } { cbn. by rewrite lookup_insert_ne, lookup_insert_eq. } { cbn. by rewrite lookup_insert_eq. }
      assert (E0 : (update (a, BNextChunk) (flag false) ;;; update (a, BUnion) 0 ;;; doUpdate true ;;; deallocate_chunks y) s = (Ok tt, s')).
      { rewrite <- (push_nil s) at 1. do 2 (let W := journal in erewrite (then_push (update _ _) _ W) by (apply hm_update_ok; room)). exact E'. }
      rewrite E0.
      exists RT_OK, s', [], A. split; [done |].
      split; [apply made_none; try done; [intros _; split; rewrite J; [constructor | cbn; lia] | intros _; by left] |].
      right. split; [done |]. exists []. split; [done |]. cbn. unfold bytes_at. rewrite D by left. rewrite Eb. cbn. lia.
    + rewrite wrapU_id by (unfold in_U; lia). rewrite (bind_Ok _ _ _ _ _ (load_ok _ _ _ Eu)). unfold with_fuel.
      pose proof (chain_length _ _ _ _ _ _ _ Hc He) as Hlen. rewrite Ec in Hlen.
      destruct (allocate_chunks_ok a s A e Hr Hcnt Hec He (S (size (_cData s))) (n - zlen b) [] y l) as (r & s' & gone & A' & E & Hm & Hroom); [cbn in *; lia | done | lia |].
      exists r, s', gone, A'. split; [done |]. split; [eapply made_sub; [|exact Hm]; intros z; cbn; rewrite !elem_of_cons; tauto |].
      destruct Hroom as [H|(-> & new & Hr' & Hfl)]; [by left |]. right. split; [done |]. exists (y :: new). split; [done |]. cbn [app fills] in *.
      assert (Exb : bytes_at (_cData s') a = bytes_at (_cData s) a) by (unfold bytes_at; rewrite (md_data _ _ _ _ _ _ _ Hm); [done | left]). rewrite Exb, Ebx. split; [lia | done].
Qed.
End write.
