(* ===== verification/HashMapStore.v ===== *)
(** The bytes of a record are written to the block and chunks that have room for it. *)
From stdpp Require Import prelude gmap list.
From Stdlib Require Import ZArith Lia.
From S2P Require Import Prelude Bytes MemChunkSpec HashMap HashMapLists HashMapRep HashMapBlocks HashMapErase HashMapOrder HashMapEvict HashMapNew HashMapData HashMapWrite.
Import HashMap.HashMap.

(** ** Bytes over blocks *)

Fixpoint spread (d : gmap Z (list Z)) (l : list Z) (bs : list Z) : gmap Z (list Z) :=
  match l with
  | [] => d
  | [x] => <[x := bs ++ drop (length bs) (bytes_at d x)]> d
  | x :: l' => spread (<[x := take (length (bytes_at d x)) bs]> d) l' (drop (length (bytes_at d x)) bs)
  end.
(** How many of them are in the last one. *)
Fixpoint last_len (d : gmap Z (list Z)) (l : list Z) (n : Z) : Z :=
  match l with
  | [] | [_] => n
  | x :: l' => last_len d l' (n - zlen (bytes_at d x))
  end.
Lemma bytes_at_insert (d : gmap Z (list Z)) x y b : bytes_at (<[x := b]> d) y = if decide (x = y) then b else bytes_at d y.
Proof. unfold bytes_at. rewrite lookup_insert. by case_decide. Qed.
Lemma last_len_ext d d' l : ∀ n, (∀ x, x ∈ l → bytes_at d' x = bytes_at d x) → last_len d' l n = last_len d l n.
Proof. induction l as [|x [|y l] IH]; intros n E; [done.. |]. change (last_len d' (x :: y :: l) n) with (last_len d' (y :: l) (n - zlen (bytes_at d' x))). rewrite E by left. apply IH. intros z Hz. apply E. by right. Qed.
Lemma spread_other l : ∀ d bs x, x ∉ l → spread d l bs !! x = d !! x.
Proof.
  induction l as [|y [|z l] IH]; intros d bs x Hx; [done | |].
  - apply not_elem_of_cons in Hx as [Hx _]. cbn. by rewrite lookup_insert_ne.
  - apply not_elem_of_cons in Hx as [Hx Hl]. change (spread d (y :: z :: l) bs) with (spread (<[y := take (length (bytes_at d y)) bs]> d) (z :: l) (drop (length (bytes_at d y)) bs)).
    rewrite IH by done. by rewrite lookup_insert_ne.
Qed.
Lemma spread_length l : ∀ d bs x, NoDup l → fills d l (zlen bs) → length (bytes_at (spread d l bs) x) = length (bytes_at d x).
Proof.
  induction l as [|y [|z l] IH]; intros d bs x Hnd Hf; [done | |].
  - cbn in Hf |- *. rewrite bytes_at_insert. case_decide; [subst | done]. rewrite length_app, length_drop. lia.
  - apply NoDup_cons in Hnd as [Hy Hnd]. destruct Hf as [Hn Hf]. change (spread d (y :: z :: l) bs) with (spread (<[y := take (length (bytes_at d y)) bs]> d) (z :: l) (drop (length (bytes_at d y)) bs)).
    assert (Hc : zlen (drop (length (bytes_at d y)) bs) = zlen bs - zlen (bytes_at d y)) by (rewrite length_drop; lia).
    rewrite IH; [|done |]. { rewrite bytes_at_insert. case_decide; [subst | done]. rewrite length_take. lia. }
    rewrite Hc. eapply fills_ext; [|exact Hf]. intros w Hw. rewrite lookup_insert_ne; [done | by intros ->].
Qed.
Lemma spread_dom l : ∀ d bs x, (∀ y, y ∈ l → is_Some (d !! y)) → is_Some (spread d l bs !! x) ↔ is_Some (d !! x).
Proof.
  induction l as [|y [|z l] IH]; intros d bs x Hl; [done | |].
  - cbn. rewrite lookup_insert. case_decide; [subst | done]. split; [intros _; apply Hl; left | by eexists].
  - change (spread d (y :: z :: l) bs) with (spread (<[y := take (length (bytes_at d y)) bs]> d) (z :: l) (drop (length (bytes_at d y)) bs)). rewrite IH.
    + rewrite lookup_insert. case_decide; [subst | done]. split; [intros _; apply Hl; left | by eexists].
    + intros w Hw. rewrite lookup_insert. case_decide; [by eexists | apply Hl; by right].
Qed.
Lemma content_spread l : ∀ d bs, NoDup l → fills d l (zlen bs) → content (spread d l bs) l (last_len d l (zlen bs)) = bs.
Proof.
  induction l as [|y [|z l] IH]; intros d bs Hnd Hf; [done | |].
  - cbn [content spread last_len]. rewrite bytes_at_insert, decide_True by done. rewrite Nat2Z.id. apply take_app_length.
  - apply NoDup_cons in Hnd as [Hy Hnd]. destruct Hf as [Hn Hf]. change (spread d (y :: z :: l) bs) with (spread (<[y := take (length (bytes_at d y)) bs]> d) (z :: l) (drop (length (bytes_at d y)) bs)).
    assert (Hc : zlen (drop (length (bytes_at d y)) bs) = zlen bs - zlen (bytes_at d y)) by (rewrite length_drop; lia).
    assert (Hd : ∀ w, w ∈ z :: l → <[y := take (length (bytes_at d y)) bs]> d !! w = d !! w) by (intros w Hw; rewrite lookup_insert_ne; [done | by intros ->]).
    rewrite content_cons. assert (Ey : bytes_at (spread (<[y := take (length (bytes_at d y)) bs]> d) (z :: l) (drop (length (bytes_at d y)) bs)) y = take (length (bytes_at d y)) bs).
    { unfold bytes_at at 1. rewrite spread_other by done. by rewrite lookup_insert_eq. }
    rewrite Ey. change (last_len d (y :: z :: l) (zlen bs)) with (last_len d (z :: l) (zlen bs - zlen (bytes_at d y))). rewrite <- Hc.
    rewrite <- (last_len_ext d (<[y := take (length (bytes_at d y)) bs]> d)) by (intros w Hw; unfold bytes_at at 1; by rewrite Hd).
    rewrite IH; [apply take_drop | done |]. rewrite Hc. eapply fills_ext; [|exact Hf]. done.
Qed.
Lemma last_len_bound d l : ∀ n, fills d l n → 0 ≤ last_len d l n ≤ zlen (bytes_at d (lst l)).
Proof. induction l as [|y [|z l] IH]; intros n Hf; [done | exact Hf |]. destruct Hf as [_ Hf]. rewrite lst_cons. apply IH, Hf. Qed.

Section store.
Context {Al : Type} {AL : Allocator Al} {ALL : AllocatorLaws Al}.
Abbreviation t := (t (Al := Al)).
Implicit Types (s : t) (A : abs) (W : list (loc * Z)).

Lemma slice_ok (pData : list Z) off n s : 0 ≤ off → 0 ≤ n → off + n ≤ zlen pData → slice pData off n s = (Ok (take (Z.to_nat n) (drop (Z.to_nat off) pData)), s).
Proof. intros. unfold slice, mem_read. by rewrite !(proj2 (Z.leb_le _ _)) by lia. Qed.
Lemma write_data_ok s x b bs : _cData s !! x = Some b → zlen bs ≤ zlen b → write_data x bs s = (Ok tt, set_data (<[x := bs ++ drop (length bs) b]> (_cData s)) s).
Proof. intros E Hn. unfold write_data. by rewrite E, (proj2 (Z.ltb_ge _ _)) by lia. Qed.

Lemma set_loop_ok (pData : list Z) len l : ∀ s fuel off n, chunk_cells false (mem s) (_cData s) l len → NoDup l → fills (_cData s) l n → 0 ≤ off → zlen pData = off + n → zlen pData < 2 ^ 64 → (length l ≤ fuel)%nat →
  set_loop fuel pData n off (hd0 l) s = (Ok tt, set_mem (<[(lst l, CUnion) := last_len (_cData s) l n]> (mem s)) (set_data (spread (_cData s) l (drop (Z.to_nat off) pData)) s)).
Proof.
  induction l as [|x l IH]; intros s fuel off n Hl Hnd Hf Hoff Hn Hlen Hfuel; [done |]. destruct fuel as [|fuel]; [cbn in Hfuel; lia |]. cbn [set_loop]. change (hd0 (x :: l)) with x.
  destruct Hl as ((b & Eb & Esz & Hsz) & Hl). pose proof (hm_bytes_at_eq _ _ _ Eb) as Ebx. rewrite (bind_Ok _ _ _ _ _ (load_ok _ _ _ Esz)).
  replace (zlen b + sizeof_tagChunkHead - sizeof_tagChunkHead) with (zlen b) by lia. rewrite (wrapU_id 64 (zlen b)) by (unfold in_U; lia). destruct l as [|y l].
  - destruct Hl as (En & Eu & _). cbn [fills] in Hf. rewrite Ebx in Hf. rewrite (bind_Ok _ _ _ _ _ (test_ok _ false _ En)). cbn [negb]. unfold bind at 1, assert_that at 1. rewrite (proj2 (Z.leb_le _ _)) by lia.
    rewrite (bind_Ok _ _ _ _ _ (slice_ok pData off n s Hoff ltac:(lia) ltac:(lia))).
    assert (Et : take (Z.to_nat n) (drop (Z.to_nat off) pData) = drop (Z.to_nat off) pData) by (apply take_ge; rewrite length_drop; lia). rewrite Et.
    rewrite (bind_Ok _ _ _ _ _ (write_data_ok s x b (drop (Z.to_nat off) pData) Eb ltac:(rewrite length_drop; lia))).
    rewrite hm_store_ok by (cbn; rewrite Eu; by eexists). cbn [spread last_len]. rewrite Ebx. change [x] with ([] ++ [x]). by rewrite lst_snoc.
  - destruct Hl as (En & Eu & Hl). destruct Hf as [Hgt Hf]. rewrite Ebx in Hgt, Hf. rewrite (bind_Ok _ _ _ _ _ (test_ok _ true _ En)). cbn [negb].
    assert (Hb : n ≤ zlen pData) by lia. rewrite (bind_Ok _ _ _ _ _ (slice_ok pData off (zlen b) s Hoff ltac:(lia) ltac:(lia))). rewrite Nat2Z.id.
    set (bs := take (length b) (drop (Z.to_nat off) pData)). assert (Hbs : length bs = length b) by (unfold bs; rewrite length_take, length_drop; lia).
    rewrite (bind_Ok _ _ _ _ _ (write_data_ok s x b bs Eb ltac:(lia))). set (s1 := set_data _ s).
    rewrite (bind_Ok _ _ _ _ _ (load_ok (x, CUnion) y s1 Eu)). rewrite wrapU_id by (unfold in_U; lia). apply NoDup_cons in Hnd as [Hx Hnd].
    assert (Hd : ∀ w, w ∈ y :: l → _cData s1 !! w = _cData s !! w) by (intros w Hw; cbn; rewrite lookup_insert_ne; [done | by intros ->]).
    specialize (IH s1 fuel (off + zlen b) (n - zlen b)). change (hd0 (y :: l)) with y in IH. rewrite IH; [| | done | | lia | lia | done | cbn in *; lia].
    + rewrite (lst_cons x (y :: l)). f_equal. change (last_len (_cData s) (x :: y :: l) n) with (last_len (_cData s) (y :: l) (n - zlen (bytes_at (_cData s) x))). rewrite Ebx.
      rewrite (last_len_ext (_cData s) (_cData s1)) by (intros w Hw; unfold bytes_at; by rewrite Hd).
      change (spread (_cData s) (x :: y :: l) (drop (Z.to_nat off) pData)) with
        (spread (<[x := take (length (bytes_at (_cData s) x)) (drop (Z.to_nat off) pData)]> (_cData s)) (y :: l) (drop (length (bytes_at (_cData s) x)) (drop (Z.to_nat off) pData))).
      rewrite Ebx. fold bs. rewrite drop_drop. replace (Z.to_nat off + length b)%nat with (Z.to_nat (off + zlen b)) by lia.
      unfold s1, set_mem, set_data. cbn. rewrite Hbs, drop_all, app_nil_r. done.
    + eapply chunk_cells_ext; [done | exact Hd | exact Hl].
    + eapply fills_ext; [exact Hd | exact Hf].
Qed.

(** A chain whose bytes were written. *)
Lemma chunk_cells_wrote m m' (d d' : gmap Z (list Z)) len v l : chunk_cells false m d l len → (∀ x, length (bytes_at d' x) = length (bytes_at d x)) → (∀ x, is_Some (d !! x) → is_Some (d' !! x)) →
  (∀ x f, x ∈ l → part_of f = PChunk → (x, f) ≠ (lst l, CUnion) → m' !! (x, f) = m !! (x, f)) → m' !! (lst l, CUnion) = Some v → 0 ≤ v ≤ zlen (bytes_at d (lst l)) → NoDup l →
  chunk_cells true m' d' l v.
Proof.
  intros Hl Hlen Hdom. induction l as [|x l IH]; intros Em Ev Hv Hnd; [done |]. destruct Hl as [(b & Eb & Es & Hb) Hl].
  assert (Hsz : size_ok m' d' CSize sizeof_tagChunkHead x).
  { destruct (Hdom x ltac:(by eexists)) as [b' Eb']. exists b'. specialize (Hlen x). rewrite (hm_bytes_at_eq _ _ _ Eb), (hm_bytes_at_eq _ _ _ Eb') in Hlen. rewrite Em by (done || left). rewrite Es. split_and!; [done | f_equal; lia | lia..]. }
  split; [done |]. destruct l as [|y l].
  - change [x] with ([] ++ [x]) in Ev, Hv. rewrite lst_snoc in Ev, Hv. destruct Hl as (En & _). rewrite Em by (done || left). split_and!; [done | done |]. intros _. rewrite Hlen. lia.
  - rewrite (lst_cons x (y :: l)) in Em, Ev, Hv. destruct Hl as (En & Eu & Hl). apply NoDup_cons in Hnd as [Hx Hnd]. pose proof (last_in y l) as Hin.
    rewrite !Em by (first [done | left | intros [= ->]; done]). split_and!; [done | done |]. apply IH; try done. intros z f Hz Hf Hzf. apply Em; [by right | done | done].
Qed.
Lemma block_cells_wrote m m' (d d' : gmap Z (list Z)) len v a l : block_cells false m d a l len → (∀ x, length (bytes_at d' x) = length (bytes_at d x)) → (∀ x, is_Some (d !! x) → is_Some (d' !! x)) →
  (∀ x f, x ∈ a :: l → part_of f = PChunk → (x, f) ≠ (lst (a :: l), union_field l) → m' !! (x, f) = m !! (x, f)) → m' !! (lst (a :: l), union_field l) = Some v →
  0 ≤ v ≤ zlen (bytes_at d (lst (a :: l))) → NoDup (a :: l) → block_cells true m' d' a l v.
Proof.
  intros [(b & Eb & Es & Hb) Hl] Hlen Hdom Em Ev Hv Hnd.
  assert (Hsz : size_ok m' d' BSize sizeof_tagBlockHead a).
  { destruct (Hdom a ltac:(by eexists)) as [b' Eb']. exists b'. pose proof (Hlen a) as Ha. rewrite (hm_bytes_at_eq _ _ _ Eb), (hm_bytes_at_eq _ _ _ Eb') in Ha. rewrite Em; [|left | done | by destruct l]. rewrite Es. split_and!; [done | f_equal; lia | lia..]. }
  split; [done |]. destruct l as [|y l].
  - change [a] with ([] ++ [a]) in Ev, Hv. rewrite lst_snoc in Ev, Hv. destruct Hl as (En & _). rewrite Em by (done || left). split_and!; [done | done |]. intros _. rewrite Hlen. lia.
  - rewrite (lst_cons a (y :: l)) in Em, Ev, Hv. destruct Hl as (En & Eu & Hl). apply NoDup_cons in Hnd as [Hx Hnd].
    rewrite !Em by (first [done | left]). split_and!; [done | done |]. eapply chunk_cells_wrote; try done. intros z f Hz Hf Hzf. apply Em; [by right | done | done].
Qed.

(** *** The flags *)

Definition writes_flag (f : field) (old new : bool) (v : Z) : list (loc * Z) := if Bool.eqb old new then [] else [((0, f), wrapU 64 (v + (Z.b2z new - Z.b2z old)))].
Lemma writes_flag_only f old new v : part_of f = PHead f → only (PHead f) (writes_flag f old new v).
Proof. intros Hf. unfold writes_flag. destruct (Bool.eqb old new); repeat constructor. done. Qed.
Lemma writes_flag_after (f : field) (P : entry → bool) (E : gmap Z entry) (a : Z) (e e' : entry) (m : gmap loc Z) : E !! a = Some e → m !! (0, f) = Some (wrapU 64 (count_ents P E)) →
  apply_writes (writes_flag f (P e) (P e') (wrapU 64 (count_ents P E))) m !! (0, f) = Some (wrapU 64 (count_ents P (<[a := e']> E))).
Proof.
  intros He Em. unfold writes_flag. destruct (Bool.eqb (P e) (P e')) eqn:Eb.
  - apply Bool.eqb_prop in Eb. cbn. rewrite Em, (count_update _ _ _ _ e' He), Eb. do 2 f_equal. lia.
  - cbn. rewrite lookup_insert_eq. by apply (count_change f P E a e e' m).
Qed.
Lemma count_flag_ok (f : field) (old new : bool) v s : mem s !! (0, f) = Some v → room 1 s →
  (if Bool.eqb old new then ret tt else if new then count_up f else count_down f) s = (Ok tt, push (writes_flag f old new v) s).
Proof. intros Ev Hr. unfold writes_flag. destruct old, new; cbn [Bool.eqb Z.b2z Z.sub Z.opp Z.add]; rewrite ?push_nil; try done; [by apply count_down_ok | by apply count_up_ok]. Qed.

Lemma put_push V W s : put V (push W s) = push W (put V s).
Proof. done. Qed.
Lemma store_put l v s : is_Some (mem s !! l) → store l v s = (Ok tt, put [(l, v)] s).
Proof. apply hm_store_ok. Qed.

Lemma set_flags_ok (a : Z) (d o b : bool) (nd no : Z) s : room 2 s → mem s !! (0, HDirtyCount) = Some nd → mem s !! (0, HOnlyKeyCount) = Some no → is_Some (mem s !! (a, BDirty)) → is_Some (mem s !! (a, BOnlyKey)) →
  set_flags a d o b s = (Ok tt, push (writes_flag HDirtyCount d (negb b) nd ++ writes_flag HOnlyKeyCount o b no) (put [((a, BDirty), flag (negb b)); ((a, BOnlyKey), flag b)] s)).
Proof.
  intros Hr Ed Eo Xd Xo. set (Wd := writes_flag HDirtyCount d (negb b) nd). set (Wo := writes_flag HOnlyKeyCount o b no).
  assert (Ld : (length Wd ≤ 1)%nat) by (unfold Wd, writes_flag; destruct (Bool.eqb _ _); cbn; lia).
  pose proof (count_flag_ok HDirtyCount d (negb b) nd s Ed (room_le 2 1 s ltac:(lia) Hr)) as F1. fold Wd in F1.
  set (s2 := put [((a, BDirty), flag (negb b))] (push Wd s)).
  assert (F2 : store (a, BDirty) (flag (negb b)) (push Wd s) = (Ok tt, s2)) by by apply store_put.
  assert (Eo2 : mem s2 !! (0, HOnlyKeyCount) = Some no) by (cbn; by rewrite lookup_insert_ne).
  pose proof (count_flag_ok HOnlyKeyCount o b no s2 Eo2 ltac:(unfold s2; rewrite put_push; apply room_push; unfold room in *; cbn; lia)) as F3. fold Wo in F3.
  assert (F4 : store (a, BOnlyKey) (flag b) (push Wo s2) = (Ok tt, put [((a, BOnlyKey), flag b)] (push Wo s2))) by (apply store_put; cbn; by rewrite lookup_insert_ne).
  rewrite <- (push_push Wd Wo). change (push Wo (push Wd (put [((a, BDirty), flag (negb b)); ((a, BOnlyKey), flag b)] s))) with (put [((a, BOnlyKey), flag b)] (push Wo s2)).
  rewrite <- F4. unfold set_flags, delDirtyCount, incDirtyCount, incOnlyKeyCount, delOnlyKeyCount. unfold bind at 1.
  destruct b, d, o; cbn [negb Bool.eqb] in *; unfold bind; rewrite F1, F2, F3; done.
Qed.

(** *** A record *)

Lemma write_bytes_ok a l len (pData : list Z) s : block_cells false (mem s) (_cData s) a l len → NoDup (a :: l) → fills (_cData s) (a :: l) (zlen pData) → zlen pData < 2 ^ 64 → (length l ≤ size (_cData s))%nat →
  write_bytes a pData s = (Ok tt, set_mem (<[(lst (a :: l), union_field l) := last_len (_cData s) (a :: l) (zlen pData)]> (mem s)) (set_data (spread (_cData s) (a :: l) pData) s)).
Proof.
  intros [(b & Eb & Es & Hb) Hl] Hnd Hf Hlen Hfuel. pose proof (hm_bytes_at_eq _ _ _ Eb) as Ebx. unfold write_bytes. rewrite (bind_Ok _ _ _ _ _ (load_ok _ _ _ Es)).
  replace (zlen b + sizeof_tagBlockHead - sizeof_tagBlockHead) with (zlen b) by lia. rewrite (wrapU_id 64 (zlen b)) by (unfold in_U; lia). destruct l as [|y l].
  - destruct Hl as (En & Eu & _). rewrite (bind_Ok _ _ _ _ _ (test_ok _ false _ En)). cbn [negb fills] in *. rewrite Ebx in Hf.
    rewrite (bind_Ok _ _ _ _ _ (write_data_ok s a b pData Eb ltac:(lia))). rewrite hm_store_ok by (cbn; rewrite Eu; by eexists). cbn [spread last_len union_field]. rewrite Ebx. change [a] with ([] ++ [a]). by rewrite lst_snoc.
  - destruct Hl as (En & Eu & Hl). destruct Hf as [Hgt Hf]. rewrite Ebx in Hgt, Hf. rewrite (bind_Ok _ _ _ _ _ (test_ok _ true _ En)). cbn [negb].
    rewrite (bind_Ok _ _ _ _ _ (slice_ok pData 0 (zlen b) s ltac:(lia) ltac:(lia) ltac:(lia))). rewrite Nat2Z.id, drop_0.
    set (bs := take (length b) pData). assert (Hbs : length bs = length b) by (unfold bs; rewrite length_take; lia).
    rewrite (bind_Ok _ _ _ _ _ (write_data_ok s a b bs Eb ltac:(lia))). set (s1 := set_data _ s). apply NoDup_cons in Hnd as [Hx Hnd].
    rewrite (bind_Ok _ _ _ _ _ (load_ok (a, BUnion) y s1 Eu)). rewrite wrapU_id by (unfold in_U; lia).
    assert (Hd : ∀ w, w ∈ y :: l → _cData s1 !! w = _cData s !! w) by (intros w Hw; cbn; rewrite lookup_insert_ne; [done | by intros ->]).
    assert (Hsize : size (_cData s1) = size (_cData s)) by (cbn; by rewrite map_size_insert_Some by (rewrite Eb; by eexists)).
    unfold with_fuel. pose proof (set_loop_ok pData len (y :: l) s1 (S (size (_cData s1))) (zlen b) (zlen pData - zlen b)) as E. change (hd0 (y :: l)) with y in E. rewrite E; [| | done | | lia | lia | done | cbn in *; lia]; clear E.
    + rewrite (lst_cons a (y :: l)). f_equal. change (last_len (_cData s) (a :: y :: l) (zlen pData)) with (last_len (_cData s) (y :: l) (zlen pData - zlen (bytes_at (_cData s) a))). rewrite Ebx.
      rewrite (last_len_ext (_cData s) (_cData s1)) by (intros w Hw; unfold bytes_at; by rewrite Hd).
      change (spread (_cData s) (a :: y :: l) pData) with (spread (<[a := take (length (bytes_at (_cData s) a)) pData]> (_cData s)) (y :: l) (drop (length (bytes_at (_cData s) a)) pData)).
      rewrite Ebx. fold bs. rewrite Nat2Z.id. unfold s1, set_mem, set_data. cbn. rewrite Hbs, drop_all, app_nil_r. done.
    + eapply chunk_cells_ext; [done | exact Hd | exact Hl].
    + eapply fills_ext; [exact Hd | exact Hf].
Qed.

(** The entry of a block that [pData] was written to. *)
Definition written (bOnlyKey : bool) (l pData : list Z) (e : entry) : entry := mk_entry (e_index e) (e_sync e) (negb bOnlyKey) bOnlyKey l pData.
Lemma chains_wrote a m m' (d : gmap Z (list Z)) E e b (pData : list Z) : chains_ok a [] m d E → E !! a = Some e → a ≠ 0 → (∀ x, is_Some (E !! x) → x ≠ 0) → fills d (a :: e_chunks e) (zlen pData) → zlen pData < 2 ^ 64 →
  (∀ x f, part_of f = PChunk → (x, f) ≠ (lst (a :: e_chunks e), union_field (e_chunks e)) → m' !! (x, f) = m !! (x, f)) → m' !! (0, HUsedChunk) = m !! (0, HUsedChunk) →
  m' !! (lst (a :: e_chunks e), union_field (e_chunks e)) = Some (last_len d (a :: e_chunks e) (zlen pData)) →
  chains_ok 0 [] m' (spread d (a :: e_chunks e) pData) (<[a := written b (e_chunks e) pData e]> E).
Proof.
  intros [] He Ha0 Hpos Hf Hlen Em Eu Ev. pose proof (co_nodup a e He) as Hnd. set (d' := spread d (a :: e_chunks e) pData).
  assert (Hown : ∀ x, x ∈ a :: e_chunks e → is_Some (d !! x)) by (intros x Hx; apply co_dom; right; by exists a, e).
  assert (Hdom : ∀ x, is_Some (d' !! x) ↔ is_Some (d !! x)) by (intros x; by apply spread_dom).
  assert (Hsub : ∀ x e', <[a := written b (e_chunks e) pData e]> E !! x = Some e' → ∃ e0, E !! x = Some e0 ∧ e_chunks e' = e_chunks e0).
  { intros x e' [[<- <-]|[_ He']]%lookup_insert_Some; [by exists e | by exists e']. }
  constructor.
  - intros x e' [[<- <-]|[Hne He']]%lookup_insert_Some.
    + destruct (co_chain a e He) as (len & Hcells & _). rewrite bool_decide_eq_false_2 in Hcells by (intros Hn; by apply Hn).
      exists (last_len d (a :: e_chunks e) (zlen pData)). rewrite bool_decide_eq_true_2 by done. cbn [e_chunks e_data written]. split.
      * eapply block_cells_wrote; [exact Hcells | by intros; apply spread_length | intros x; apply Hdom | | done | by apply last_len_bound | done]. intros x f Hx Hpf Hxf. by apply Em.
      * intros _. split; [|done]. by apply content_spread.
    + destruct (co_chain x e' He') as (len & Hcells & Hd). assert (x ≠ 0) by (apply Hpos; by eexists).
      assert (Hx : ∀ y, y ∈ x :: e_chunks e' → y ∉ a :: e_chunks e) by (intros y Hy Hy'; apply Hne; symmetry; by apply (co_disjoint x e' a e y)).
      exists len. rewrite bool_decide_eq_true_2 in Hcells |- * by done. split.
      * eapply block_cells_ext; [| | exact Hcells]; [intros y f Hy Hpf; apply Em; [done |]; intros [= -> ->]; by apply (Hx _ Hy), last_in | intros y Hy; apply spread_other; by apply Hx].
      * intros _. rewrite (content_ext d d') by (intros y Hy; apply spread_other; by apply Hx). by apply Hd.
  - intros x. rewrite Hdom, co_dom. split; (intros [Hx|(a' & e' & He' & Hx)]; [by apply not_elem_of_nil in Hx | right]).
    + destruct (decide (a' = a)) as [->|]; [exists a, (written b (e_chunks e) pData e); rewrite lookup_insert_eq; simplify_eq; done | exists a', e'; by rewrite lookup_insert_ne].
    + destruct (Hsub _ _ He') as (e0 & He0 & E0). exists a', e0. by rewrite <- E0.
  - intros x e' He'. destruct (Hsub _ _ He') as (e0 & He0 & ->). by apply co_nodup.
  - intros x1 e1 x2 e2 y H1 H2. destruct (Hsub _ _ H1) as (e1' & ? & ->), (Hsub _ _ H2) as (e2' & ? & ->). by apply (co_disjoint x1 e1' x2 e2').
  - done.
  - intros x e' y _ _. apply not_elem_of_nil.
  - rewrite Eu, co_used. do 3 f_equal. rewrite <- !size_dom. assert (dom d' = dom d) as -> by (apply set_eq; intros x; by rewrite !elem_of_dom). done.
Qed.

Lemma spread_pool base (d : gmap Z (list Z)) l bs (al : Al) : (∀ y, y ∈ l → is_Some (d !! y)) → pool_ok base d al → pool_ok base (spread d l bs) al.
Proof. intros Hl (free & used & Ho & Hu & Hp). exists free, used. split_and!; [done | | done]. intros x Hx. apply Hu. by apply spread_dom in Hx. Qed.

(** Flags and bytes, from when there is room. *)
Lemma written_ok a s A e (pData : list Z) b : rep a [] s A → counting s → a_ents A !! a = Some e → (∀ x, is_Some (a_ents A !! x) → x ≠ 0) → fills (_cData s) (a :: e_chunks e) (zlen pData) → zlen pData < 2 ^ 64 →
  ∃ s', (set_flags a (e_dirty e) (e_only e) b ;;; write_bytes a pData ;;; doUpdate true ;;; ret RT_OK) s = (Ok RT_OK, s') ∧ rep 0 [] s' (set_entry a (written b (e_chunks e) pData e) A) ∧
    same_cfg s s' ∧ _cModifyStatus s' = 0 ∧ _stModifyData s' = [] ∧ vtData s' = vtData s.
Proof.
  intros Hr Hcnt He Hpos Hf Hlen. pose proof Hr as [Hl Hc Hp Hn]. destruct (co_chain _ _ _ _ _ Hc a e He) as (len & Hcells & _). pose proof (co_nodup _ _ _ _ _ Hc a e He) as Hnd.
  rewrite bool_decide_eq_false_2 in Hcells by (intros Hx; by apply Hx). destruct (lo_ent _ _ _ Hl a e He) as [Ei Esy Ed Eo]. set (l := e_chunks e) in *. set (e' := written b l pData e).
  assert (R : room 2 s) by (destruct Hcnt; unfold room; lia). pose proof (counting_part _ Hcnt) as HJ.
  rewrite (bind_Ok _ _ _ _ _ (set_flags_ok a (e_dirty e) (e_only e) b _ _ s R (lo_dirty _ _ _ Hl) (lo_only _ _ _ Hl) ltac:(rewrite Ed; by eexists) ltac:(rewrite Eo; by eexists))).
  set (Wd := writes_flag HDirtyCount _ _ _). set (Wo := writes_flag HOnlyKeyCount _ _ _). set (V := [_; _]). set (s1 := push (Wd ++ Wo) (put V s)).
  assert (OWd : only (PHead HDirtyCount) Wd) by by apply writes_flag_only. assert (OWo : only (PHead HOnlyKeyCount) Wo) by by apply writes_flag_only. assert (OV : only PEntry V) by by repeat constructor.
  assert (EV : ∀ x f, part_of f ≠ PEntry → mem s1 !! (x, f) = mem s !! (x, f)) by (intros x f Hx; apply (apply_part_nil V (part_of f)); [done | by rewrite (at_part_other _ PEntry) by congruence]).
  assert (Hcells1 : block_cells false (mem s1) (_cData s1) a l len) by (eapply block_cells_ext; [| done | exact Hcells]; intros x f _ Hx; apply EV; by rewrite Hx).
  rewrite (bind_Ok _ _ _ _ _ (write_bytes_ok a l len pData s1 Hcells1 Hnd Hf Hlen ltac:(pose proof (chain_length _ _ _ _ _ _ _ Hc He) as Hx; fold l in Hx; cbn; lia))).
  set (v := last_len _ _ _). set (s2 := set_mem _ _). set (p := lst (a :: l)) in *.
  assert (Hfu : part_of (union_field l) = PChunk) by by destruct l.
  assert (E2 : ∀ x f, (x, f) ≠ (p, union_field l) → mem s2 !! (x, f) = mem s1 !! (x, f)) by (intros x f Hx; cbn [mem s2 set_mem]; by rewrite lookup_insert_ne by (by apply not_eq_sym)).
  assert (E2' : ∀ x f, part_of f ≠ PChunk → mem s2 !! (x, f) = mem s1 !! (x, f)) by (intros x f Hx; apply E2; intros [= -> ->]; done).
  set (J := _stModifyData s2). assert (EJ : J = _stModifyData s ++ Wd ++ Wo) by done.
  assert (X : exist (mem s2) J).
  { rewrite EJ. assert (Hx : ∀ W, exist (mem s) W → Forall (λ w, w.1.2 ∈ [HGetCount; HHitCount; HDirtyCount; HOnlyKeyCount]) W → exist (mem s2) W).
    { intros W H1 H2. apply Forall_forall. intros [[x f] w] Hw. unfold exist in H1. rewrite Forall_forall in H1, H2. specialize (H1 _ Hw). specialize (H2 _ Hw). cbn in *.
      rewrite E2', EV; [done | |]; intros Hpf; rewrite !elem_of_cons in H2; destruct H2 as [->|[->|[->|[->|H2]]]]; try done; by apply not_elem_of_nil in H2. }
    apply Hx; [apply exist_app; [by eapply counting_exist |]; apply exist_app; unfold Wd, Wo, writes_flag; destruct (Bool.eqb _ _); repeat constructor; cbn; rewrite ?(lo_dirty _ _ _ Hl), ?(lo_only _ _ _ Hl); by eexists |].
    repeat (apply Forall_app; split); [eapply Forall_impl; [apply Hcnt |]; intros w [-> | ->]; cbn; rewrite !elem_of_cons; tauto | |]; unfold Wd, Wo, writes_flag; destruct (Bool.eqb _ _); repeat constructor; cbn; rewrite !elem_of_cons; tauto. }
  rewrite (bind_Ok _ _ _ _ _ (doUpdate_true s2 X)). fold J. eexists. split; [done |]. split; [|by split_and!].
  assert (EP : ∀ q, q ≠ PHead HGetCount → q ≠ PHead HHitCount → q ≠ PHead HDirtyCount → q ≠ PHead HOnlyKeyCount → at_part q J = []).
  { intros q H1 H2 H3 H4. rewrite EJ, !at_part_app, HJ, (at_part_other q (PHead HDirtyCount)), (at_part_other q (PHead HOnlyKeyCount)) by (try done; by apply not_eq_sym). done. }
  assert (Hown : ∀ x, x ∈ a :: l → is_Some (_cData s !! x)) by (intros x Hx; apply (co_dom _ _ _ _ _ Hc); right; by exists a, e).
  assert (Em : ∀ x f, part_of f = PChunk → apply_writes J (mem s2) !! (x, f) = mem s2 !! (x, f)) by (intros x f Hx; apply (apply_part_nil _ PChunk); [done | by apply EP]).
  constructor; cbn [mem commit set_mem set_journal _hash_size _cData s2 s1 push put set_data a_ents set_entry _pHead _pDataAllocator].
  - apply (entry_memory (mem s) _ _ A a e); try done.
    + intros x f Hx. assert (Hpc : part_of f ≠ PChunk) by (intros Hpc; unfold own in Hx; by rewrite Hpc in Hx).
      rewrite (apply_part_nil J (part_of f)); [|done |].
      2: { apply EP; intros Hpf; unfold own in Hx; rewrite Hpf in Hx; done. }
      rewrite E2' by done. destruct (decide (part_of f = PEntry)) as [Hpe|Hpe]; [|by apply EV]. unfold own in Hx. rewrite Hpe in Hx. apply bool_decide_eq_false in Hx.
      cbn. rewrite !lookup_insert_ne by congruence. done.
    + assert (EJe : ∀ f, part_of f = PEntry → apply_writes J (mem s2) !! (a, f) = mem s1 !! (a, f)) by (intros f Hx; rewrite (apply_part_nil J PEntry), E2' by (first [by apply EP | congruence]); done).
      constructor; rewrite EJe by done; cbn; rewrite !lookup_insert; repeat case_decide; simplify_eq; done.
    + rewrite (apply_part J (PHead HDirtyCount)) by done. assert (at_part (PHead HDirtyCount) J = Wd) as -> by (rewrite EJ; by parts).
      apply (writes_flag_after HDirtyCount e_dirty (a_ents A) a e e' (mem s2) He). rewrite E2', EV by done. apply (lo_dirty _ _ _ Hl).
    + rewrite (apply_part J (PHead HOnlyKeyCount)) by done. assert (at_part (PHead HOnlyKeyCount) J = Wo) as -> by (rewrite EJ; by parts).
      apply (writes_flag_after HOnlyKeyCount e_only (a_ents A) a e e' (mem s2) He). rewrite E2', EV by done. apply (lo_only _ _ _ Hl).
    + apply apply_is_Some. rewrite E2', EV by done. apply (lo_get _ _ _ Hl).
    + apply apply_is_Some. rewrite E2', EV by done. apply (lo_hit _ _ _ Hl).
  - apply (chains_wrote a (mem s)); try done.
    + by apply Hpos.
    + intros x f Hx Hxf. rewrite Em, E2 by done. apply EV. by rewrite Hx.
    + rewrite (apply_part_nil J (PHead HUsedChunk)) by (done || by apply EP). rewrite E2', EV by done. done.
    + rewrite Em by done. cbn. by rewrite lookup_insert_eq.
  - by apply spread_pool.
  - done.
Qed.

(** [set] of a block: the record is in the block, or there was no memory and nothing but
    what was thrown out is changed. *)
Lemma set_block_ok a s A e (pData : list Z) b : rep 0 [] s A → counting s → 0 ≤ _iEraseCount s → a_ents A !! a = Some e → zlen pData < 2 ^ 64 →
  ∃ r s' gone A', set_block a pData b s = (Ok r, s') ∧ made a [] s A gone s' A' ∧
    (r = RT_NO_MEMORY ∧ rep 0 [] s' A' ∧ no_memory a s A' ∨ r = RT_OK ∧ ∃ l, rep 0 [] s' (set_entry a (written b l pData e) A')).
Proof.
  intros Hr Hcnt Hec He Hlen. unfold set_block.
  destruct (allocate_ok a s A e (zlen pData) Hr Hcnt Hec He ltac:(lia)) as (r & s1 & gone & A1 & E1 & Hm & H). rewrite (bind_Ok _ _ _ _ _ E1).
  destruct H as [(-> & Hr1 & Hno)|(-> & new & Hr1 & Hf)]; cbn [Z.eqb negb RT_OK RT_NO_MEMORY app] in *.
  { exists RT_NO_MEMORY, s1, gone, A1. split; [done |]. split; [eapply made_sub; [|exact Hm]; by intros y ?%not_elem_of_nil | by left]. }
  pose proof (kept _ _ _ _ _ _ (md_evicts _ _ _ _ _ _ _ Hm) He) as He1. set (A2 := set_entry a (linked new e) A1) in *.
  assert (He2 : a_ents A2 !! a = Some (linked new e)) by (cbn; apply lookup_insert_eq). destruct (lo_ent _ _ _ (r_lists _ _ _ _ Hr1) a _ He2) as [_ _ Ed Eo].
  rewrite (bind_Ok _ _ _ _ _ (test_ok _ _ _ Ed)), (bind_Ok _ _ _ _ _ (test_ok _ _ _ Eo)).
  destruct (written_ok a s1 A2 (linked new e) pData b Hr1 (md_counting _ _ _ _ _ _ _ Hm Hcnt) He2) as (s' & E' & Hr' & C & S & J & V); [|done | done |].
  { intros x Hx. pose proof (entry_pos a [] s1 A2 x Hr1 Hx). lia. }
  exists RT_OK, s', gone, A1. split; [exact E' |]. split.
  - destruct Hm. constructor; [done | by etrans | | intros _; by left | congruence | by intros y ?%not_elem_of_nil]. intros _. split; rewrite J; [constructor | cbn; lia].
  - right. split; [done |]. exists new. unfold A2 in Hr'. by rewrite set_entry_twice in Hr'.
Qed.
End store.
