(* ===== verification/HashMapFind.v ===== *)
(** Keys of a [HashMap]: the records blocks hold, and the searches for them. *)
From stdpp Require Import prelude gmap list.
From Stdlib Require Import ZArith Lia.
From S2P Require Import Prelude Bytes MemChunkSpec HashMap HashMapLists HashMapRep HashMapBlocks HashMapErase HashMapOrder HashMapEvict HashMapNew HashMapData.
Import HashMap.HashMap.

(** ** Packed strings *)

Lemma unpack_pack (s rest : list Z) : zlen s < 2 ^ 32 → Pack.unpack (Pack.pack s ++ rest) = Some (s, rest).
Proof.
  intros Hn. unfold Pack.pack. rewrite wrapU_id by (unfold in_U; lia). destruct (Z.ltb_spec (zlen s) 255) as [Hlt|Hge].
  - cbn [app Pack.unpack]. rewrite (proj2 (Z.eqb_neq _ _)) by lia. rewrite (proj2 (Z.ltb_ge _ _)) by (rewrite length_app; lia).
    rewrite Nat2Z.id, take_app_length, drop_app_length. done.
  - set (h := be_bytes 4 (zlen s)). assert (Hl4 : length h = 4%nat) by (unfold h, be_bytes; rewrite length_rev; apply length_le_bytes).
    assert (Hv : ntohl (le_val h) = zlen s) by (unfold ntohl, h; rewrite bswap_be_bytes; apply wrapU_id; unfold in_U; lia).
    rewrite <- !app_comm_cons, <- !app_assoc. cbn [Pack.unpack]. change (255 =? 255) with true. cbv iota zeta.
    rewrite (proj2 (Z.ltb_ge _ _)) by (rewrite !length_app; lia). replace 4%nat with (length h). rewrite take_app_length, drop_app_length, Hv.
    rewrite (proj2 (Z.ltb_ge _ _)) by (rewrite !length_app; lia). by rewrite Nat2Z.id, take_app_length, drop_app_length.
Qed.
Lemma pack_length (s : list Z) : zlen (Pack.pack s) ≤ zlen s + 5.
Proof. unfold Pack.pack. destruct (_ <? _); rewrite length_app; [cbn; lia |]. cbn [length]. unfold be_bytes. rewrite length_rev, length_le_bytes. lia. Qed.

(** ** Records *)

(** The key of a block, and its value unless it has only a key. *)
Definition decode (e : entry) : option (list Z * option (list Z)) :=
  match Pack.unpack (e_data e) with
  | None => None
  | Some (k, rest) => if e_only e then Some (k, None) else (λ vr, (k, Some vr.1)) <$> Pack.unpack rest
  end.
Definition key_at (A : abs) (a : Z) : option (list Z) := e ← a_ents A !! a; fst <$> decode e.
Section keys.
Context (hashf : list Z → Z).
Record keys_ok (n : Z) (A : abs) : Prop := {
  ko_hash a e : a_ents A !! a = Some e → ∃ k v, decode e = Some (k, v) ∧ e_index e = hashf k mod n;
  ko_inj a a' k : key_at A a = Some k → key_at A a' = Some k → a = a'
}.
End keys.
(** The block of a key among some, 0 if there is none. *)
Fixpoint seek (A : abs) (k : list Z) (l : list Z) : Z :=
  match l with [] => 0 | a :: l' => if decide (key_at A a = Some k) then a else seek A k l' end.
Lemma seek_some A k l : seek A k l ≠ 0 → seek A k l ∈ l ∧ key_at A (seek A k l) = Some k.
Proof. induction l as [|a l IH]; cbn; [done |]. case_decide; [split; [left | done] |]. intros Hs. destruct (IH Hs). split; [by right | done]. Qed.
Lemma seek_none A k l a : 0 ∉ l → seek A k l = 0 → a ∈ l → key_at A a ≠ Some k.
Proof.
  induction l as [|b l IH]; cbn; [by intros _ _ ?%not_elem_of_nil |]. rewrite not_elem_of_cons. intros [Hb Hl]. case_decide; [congruence |]. intros E [->|Ha]%elem_of_cons; [done | by apply IH].
Qed.

Section find.
Context {Al : Type} {AL : Allocator Al} {ALL : AllocatorLaws Al} (hashf : list Z → Z).
Abbreviation t := (t (Al := Al)).
Implicit Types (s : t) (A : abs) (W : list (loc * Z)).


Definition value_code (v : option (list Z)) : Z := match v with Some _ => RT_OK | None => RT_ONLY_KEY end.
Lemma item_get_k_ok L s A a e k k0 v : rep 0 L s A → a_ents A !! a = Some e → decode e = Some (k, v) → item_get_k a k0 s = (Ok (RT_OK, k), s).
Proof.
  intros Hr He Hd. assert (a ≠ 0) by (pose proof (entry_pos 0 L s A a Hr ltac:(by eexists)); lia). unfold item_get_k.
  rewrite (bind_Ok _ _ _ _ _ (get_string_ok 0 L s A a e Hr He ltac:(done))). unfold decode in Hd. cbn. destruct (Pack.unpack (e_data e)) as [[k' rest]|]; [|done].
  destruct (e_only e); [by injection Hd as -> |]. destruct (Pack.unpack rest); [by injection Hd as -> | done].
Qed.
Lemma item_get_kv_ok L s A a e k k0 v v0 : rep 0 L s A → a_ents A !! a = Some e → decode e = Some (k, v) → item_get_kv a k0 v0 s = (Ok (value_code v, k, default [] v), s).
Proof.
  intros Hr He Hd. assert (a ≠ 0) by (pose proof (entry_pos 0 L s A a Hr ltac:(by eexists)); lia). destruct (lo_ent _ _ _ (r_lists _ _ _ _ Hr) a e He) as [_ _ _ Eo]. unfold item_get_kv.
  rewrite (bind_Ok _ _ _ _ _ (get_string_ok 0 L s A a e Hr He ltac:(done))). unfold decode in Hd. cbn [fst snd negb Z.eqb RT_OK]. destruct (Pack.unpack (e_data e)) as [[k' rest]|]; [|done].
  rewrite (bind_Ok _ _ _ _ _ (test_ok _ _ _ Eo)). destruct (e_only e); [by injection Hd as -> <- |]. destruct (Pack.unpack rest) as [[w ?]|]; [by injection Hd as -> <- | done].
Qed.
Lemma equal_k_ok L s A a e k1 k v : rep 0 L s A → a_ents A !! a = Some e → decode e = Some (k1, v) → equal_k a k s = (Ok (bool_decide (k = k1), RT_OK), s).
Proof. intros Hr He Hd. unfold equal_k. by rewrite (bind_Ok _ _ _ _ _ (item_get_k_ok L s A a e k1 [] v Hr He Hd)). Qed.
Lemma equal_kv_ok L s A a e k1 k v v0 : rep 0 L s A → a_ents A !! a = Some e → decode e = Some (k1, v) → equal_kv a k v0 s = (Ok (bool_decide (k = k1), default [] v, value_code v), s).
Proof. intros Hr He Hd. unfold equal_kv. rewrite (bind_Ok _ _ _ _ _ (item_get_kv_ok L s A a e k1 [] v v0 Hr He Hd)). by destruct v. Qed.
Lemma key_at_decode A a e k v : a_ents A !! a = Some e → decode e = Some (k, v) → key_at A a = Some k.
Proof. intros He Hd. unfold key_at. rewrite He. cbn. by rewrite Hd. Qed.
Lemma key_at_inv A a k : key_at A a = Some k → ∃ e v, a_ents A !! a = Some e ∧ decode e = Some (k, v).
Proof. unfold key_at. destruct (a_ents A !! a) as [e|] eqn:He; [|done]. cbn. destruct (decode e) as [[k' v]|] eqn:Hd; [|done]. intros [= ->]. by exists e, v. Qed.

(** How a search ends. *)
Definition found (a : Z) s : t := if a =? 0 then s else push [((0, HHitCount), wrapU 64 (default 0 (mem s !! (0, HHitCount)) + 1))] s.
Lemma incHitCount_ok s a : is_Some (mem s !! (0, HHitCount)) → room 1 s → a ≠ 0 → incHitCount s = (Ok tt, found a s).
Proof. intros [v Ev] Hr Ha. unfold found. rewrite (proj2 (Z.eqb_neq _ _) Ha), Ev. by apply count_up_ok. Qed.

Section bucket.
Context (L : list Z) (s : t) (A : abs) (i : Z) (k : list Z).
Hypothesis Hr : rep 0 L s A.
Hypothesis Hk : keys_ok hashf (_hash_size s) A.
Hypothesis Hi : 0 ≤ i < _hash_size s.
Hypothesis Hroom : room 1 s.

Lemma bucket_entry pre x post : a_bucket A i = pre ++ x :: post → ∃ e k1 v, a_ents A !! x = Some e ∧ decode e = Some (k1, v) ∧ x ≠ 0 ∧ mem s !! (x, BBlockNext) = Some (hd0 post).
Proof.
  intros E. pose proof (r_lists _ _ _ _ Hr) as Hl. assert (Hx : x ∈ a_bucket A i) by (rewrite E, elem_of_app, elem_of_cons; tauto).
  apply (lo_bucket_dom _ _ _ Hl i x Hi) in Hx as Hx'. destruct Hx' as (e & He & _). destruct (ko_hash _ _ _ Hk x e He) as (k1 & v & Hd & _). exists e, k1, v.
  split_and!; [done | done | pose proof (entry_pos 0 L s A x Hr ltac:(by eexists)); lia |]. rewrite (bk_next _ _ _ (lo_bucket _ _ _ Hl i Hi) x Hx), E. f_equal. apply nxt_mid.
  pose proof (lo_bucket_nodup _ _ _ Hl i Hi) as Hnd. rewrite E in Hnd. apply NoDup_app in Hnd as (_ & Hd' & _). intros Hp. apply (Hd' x Hp). left.
Qed.
Lemma find_k_loop_ok : ∀ fuel pre l, a_bucket A i = pre ++ l → l ≠ [] → (length l ≤ fuel)%nat →
  find_k_loop fuel k (hd0 l) s = (Ok (seek A k l, RT_OK), found (seek A k l) s).
Proof.
  induction fuel as [|fuel IH]; intros pre [|x l] E Hne Hf; [done | cbn in Hf; lia | done |]. cbn [find_k_loop hd0 head default from_option seek].
  destruct (bucket_entry pre x l E) as (e & k1 & v & He & Hd & Hx & En). change (default 0 (Some x)) with x. rewrite (bind_Ok _ _ _ _ _ (equal_k_ok L s A x e k1 k v Hr He Hd)).
  rewrite (key_at_decode _ _ _ _ _ He Hd). destruct (decide (k = k1)) as [->|Hn].
  - rewrite bool_decide_eq_true_2, decide_True by done. rewrite (bind_Ok _ _ _ _ _ (incHitCount_ok s x (lo_hit _ _ _ (r_lists _ _ _ _ Hr)) Hroom Hx)). done.
  - rewrite bool_decide_eq_false_2, decide_False by congruence. rewrite (bind_Ok _ _ _ _ _ (load_ok _ _ _ En)). destruct l as [|y l]; [done |].
    destruct (bucket_entry (pre ++ [x]) y l) as (_ & _ & _ & _ & _ & Hy & _); [by rewrite <- app_assoc |]. change (hd0 (y :: l)) with y. rewrite (proj2 (Z.eqb_neq _ _) Hy).
    apply (IH (pre ++ [x]) (y :: l)); [by rewrite <- app_assoc | done | cbn in *; lia].
Qed.
(** The string a search leaves when it finds nothing: that of the last block. *)
Definition last_value (l : list Z) (v0 : list Z) : list Z * Z :=
  match a_ents A !! lst l with Some e => match decode e with Some (_, v) => (default [] v, value_code v) | None => (v0, RT_OK) end | None => (v0, RT_OK) end.
Definition seek_value (l : list Z) (v0 : list Z) : list Z * Z :=
  let a := seek A k l in
  if a =? 0 then last_value l v0 else
  match a_ents A !! a with Some e => match decode e with Some (_, v) => (default [] v, value_code v) | None => (v0, RT_OK) end | None => (v0, RT_OK) end.
Lemma find_kv_loop_ok : ∀ fuel pre l v0, a_bucket A i = pre ++ l → l ≠ [] → (length l ≤ fuel)%nat →
  find_kv_loop fuel k v0 (hd0 l) s = (Ok (seek A k l, (seek_value l v0).1, (seek_value l v0).2), found (seek A k l) s).
Proof.
  induction fuel as [|fuel IH]; intros pre [|x l] v0 E Hne Hf; [done | cbn in Hf; lia | done |]. cbn [find_kv_loop]. change (hd0 (x :: l)) with x.
  destruct (bucket_entry pre x l E) as (e & k1 & v & He & Hd & Hx & En). rewrite (bind_Ok _ _ _ _ _ (equal_kv_ok L s A x e k1 k v v0 Hr He Hd)).
  unfold seek_value. cbn [seek]. rewrite (key_at_decode _ _ _ _ _ He Hd). destruct (decide (k = k1)) as [->|Hn].
  - rewrite bool_decide_eq_true_2, decide_True by done. rewrite (bind_Ok _ _ _ _ _ (incHitCount_ok s x (lo_hit _ _ _ (r_lists _ _ _ _ Hr)) Hroom Hx)).
    rewrite (proj2 (Z.eqb_neq _ _) Hx), He, Hd. done.
  - rewrite bool_decide_eq_false_2, decide_False by congruence. rewrite (bind_Ok _ _ _ _ _ (load_ok _ _ _ En)). destruct l as [|y l].
    + cbn [seek hd0 head from_option Z.eqb]. unfold last_value. change [x] with ([] ++ [x]). by rewrite lst_snoc, He, Hd.
    + destruct (bucket_entry (pre ++ [x]) y l) as (e2 & k2 & v2 & He2 & Hd2 & Hy & _); [by rewrite <- app_assoc |]. change (hd0 (y :: l)) with y. rewrite (proj2 (Z.eqb_neq _ _) Hy).
      etrans; [apply (IH (pre ++ [x]) (y :: l)); [by rewrite <- app_assoc | done | cbn in *; lia] |]. unfold seek_value, last_value. rewrite (lst_cons x (y :: l)).
      assert (Hlst : ∃ e3 k3 v3, a_ents A !! lst (y :: l) = Some e3 ∧ decode e3 = Some (k3, v3)).
      { pose proof (last_in y l) as Hz. set (z := lst (y :: l)) in *. clearbody z. destruct (list_elem_of_split (y :: l) z Hz) as (p & q & Epq). destruct (bucket_entry (pre ++ x :: p) z q) as (e3 & k3 & v3 & ? & ? & _); [rewrite E, Epq; by rewrite <- app_assoc | by exists e3, k3, v3]. }
      destruct Hlst as (e3 & k3 & v3 & He3 & Hd3). rewrite He3, Hd3. destruct (Z.eqb_spec (seek A k (y :: l)) 0) as [|Hs]; [done |].
      destruct (seek_some A k (y :: l) Hs) as [_ Hs2]. destruct (key_at_inv _ _ _ Hs2) as (e4 & v4 & He4 & Hd4). by rewrite He4, Hd4.
Qed.
End bucket.
End find.
