(* ===== verification/HashMapCache.v ===== *)
(** What a [HashMap] promises: a cache of records under their keys, in the order they were
    set and in the order they were read, that throws out from the back. *)
From stdpp Require Import prelude gmap list.
From Stdlib Require Import ZArith Lia.
From S2P Require Import Prelude Bytes MemChunkSpec HashMap HashMapLists HashMapRep HashMapBlocks HashMapErase HashMapOrder HashMapEvict HashMapNew HashMapData HashMapFind.
Import HashMap.HashMap.

(** ** The specification *)

Abbreviation key := (list Z).
Record record := mk_record { r_value : option (list Z); r_dirty : bool; r_sync : Z }.
Record cache := mk_cache { c_recs : gmap key record; c_order : chain → list key }.

Definition without (k : key) (l : list key) : list key := filter (λ x, x ≠ k) l.
Definition touch (c : chain) (k : key) (C : cache) : cache :=
  mk_cache (c_recs C) (λ c', if decide (c' = c) then k :: without k (c_order C c') else c_order C c').
Definition forget (k : key) (C : cache) : cache := mk_cache (delete k (c_recs C)) (λ c, without k (c_order C c)).
Definition put_rec (k : key) (r : record) (C : cache) : cache := mk_cache (<[k := r]> (c_recs C)) (c_order C).
(** A record that was set comes to the front of both orders. *)
Definition fresh (k : key) (r : record) (C : cache) : cache := touch GetList k (touch SetList k (put_rec k r C)).

(** Records are thrown out from the back, all but that of [keep]; none if that may not be
    done. *)
Inductive throws (auto : bool) (c : chain) (keep : key) : cache → list (key * record) → cache → Prop :=
  | th_nil C : throws auto c keep C [] C
  | th_cons C k r gone C' : auto = true → last (without keep (c_order C c)) = Some k → c_recs C !! k = Some r → throws auto c keep (forget k C) gone C' → throws auto c keep C ((k, r) :: gone) C'.
(** What the caller gets of them: those with a value. *)
Definition given (gone : list (key * record)) : list BlockData :=
  omap (λ kr, v ← r_value kr.2; Some (mk_data kr.1 v (r_dirty kr.2) (r_sync kr.2))) gone.
Lemma throws_app {b} c keep C g C1 g' C2 : throws b c keep C g C1 → throws b c keep C1 g' C2 → throws b c keep C (g ++ g') C2.
Proof. induction 1; intros H'; [done |]. econstructor; eauto. Qed.
Lemma given_app g g' : given (g ++ g') = given g ++ given g'.
Proof. apply omap_app. Qed.

(** ** Blocks and records *)

Definition record_at (e : entry) : option (key * record) := (λ kv, (kv.1, mk_record kv.2 (e_dirty e) (e_sync e))) <$> decode e.
Record shows (A : abs) (C : cache) : Prop := {
  sh_recs k r : c_recs C !! k = Some r ↔ ∃ a e, a_ents A !! a = Some e ∧ record_at e = Some (k, r);
  sh_order c : c_order C c = omap (key_at A) (a_order A c);
  sh_inj a a' k : key_at A a = Some k → key_at A a' = Some k → a = a'
}.
(** All blocks but [busy] have a key. *)
Definition keyed (busy : Z) (A : abs) : Prop := ∀ a e, a ≠ busy → a_ents A !! a = Some e → is_Some (decode e).
Lemma key_at_record A a k : key_at A a = Some k ↔ ∃ e r, a_ents A !! a = Some e ∧ record_at e = Some (k, r).
Proof.
  unfold key_at, record_at. split.
  - intros H. destruct (a_ents A !! a) as [e|] eqn:He; [|done]. cbn in H. destruct (decode e) as [[k' v]|] eqn:Hd; [|done]. injection H as ->. exists e, (mk_record v (e_dirty e) (e_sync e)). by rewrite Hd.
  - intros (e & r & -> & Hd). cbn. destruct (decode e) as [[k' v]|]; [|done]. cbn in *. by injection Hd as -> _.
Qed.
Lemma key_of_record e k r : record_at e = Some (k, r) → fst <$> decode e = Some k.
Proof. unfold record_at. destruct (decode e) as [[k' v]|]; [|done]. cbn. by intros [= -> _]. Qed.
Lemma key_at_entry A a e : a_ents A !! a = Some e → key_at A a = fst <$> decode e.
Proof. unfold key_at. by intros ->. Qed.

Section shows.
Implicit Types (A : abs) (C : cache).

Lemma omap_ext_in {B} (f g : Z → option B) (l : list Z) : (∀ x, x ∈ l → f x = g x) → omap f l = omap g l.
Proof. induction l as [|x l IH]; intros E; [done |]. cbn. rewrite E by left. rewrite IH; [done |]. intros y Hy. apply E. by right. Qed.
Lemma omap_here {B} (f : Z → option B) x (l : list Z) : omap f (x :: l) = match f x with Some y => y :: omap f l | None => omap f l end.
Proof. done. Qed.
(** Without a block, or without its key. *)
Lemma omap_without A keep k l : (∀ x, x ∈ l → x ≠ keep → key_at A x ≠ Some k) → (key_at A keep = Some k ∨ key_at A keep = None) →
  omap (key_at A) (del_from keep l) = without k (omap (key_at A) l).
Proof.
  intros Hl Hk. unfold del_from, without. induction l as [|x l IH]; [done |]. assert (IH' : omap (key_at A) (filter (λ y, y ≠ keep) l) = filter (λ y, y ≠ k) (omap (key_at A) l)) by (apply IH; intros y Hy; apply Hl; by right).
  rewrite filter_cons. destruct (decide (x = keep)) as [->|Hx].
  - rewrite decide_False by (intros H; by apply H). cbn. destruct Hk as [-> | ->]; [|done]. rewrite filter_cons, decide_False by (intros H; by apply H). done.
  - rewrite decide_True by done. cbn. specialize (Hl x ltac:(left) Hx). destruct (key_at A x) as [k'|]; [|done]. rewrite filter_cons, decide_True by congruence. by f_equal.
Qed.

Lemma shows_front c A C a k : shows A C → key_at A a = Some k → a ∈ a_order A c → shows (to_front c a A) (touch c k C).
Proof.
  intros [Hr Ho Hi] Hk Ha. constructor; [exact Hr | | exact Hi]. intros c'. cbn. case_decide; [|apply Ho]. cbn.
  change (key_at (to_front c a A)) with (key_at A). rewrite Hk. f_equal. rewrite Ho. symmetry. apply omap_without; [|by left]. intros x _ Hx Hkx. apply Hx. by apply (Hi x a k).
Qed.
Lemma key_at_remove A a x : x ≠ a → key_at (remove a A) x = key_at A x.
Proof. intros Hx. unfold key_at. cbn. by rewrite lookup_delete_ne. Qed.
Lemma shows_remove A C a k : shows A C → key_at A a = Some k → shows (remove a A) (forget k C).
Proof.
  intros [Hr Ho Hi] Hk. assert (Hd : ∀ x, key_at (remove a A) x = if decide (x = a) then None else key_at A x).
  { intros x. case_decide as Hx; [subst; unfold key_at; cbn; by rewrite lookup_delete_eq | by apply key_at_remove]. }
  constructor.
  - intros k' r. cbn. rewrite lookup_delete_Some, Hr. split.
    + intros (Hne & x & e & He & Hre). exists x, e. rewrite lookup_delete_ne; [done |]. intros <-. apply Hne. assert (key_at A a = Some k') by (apply key_at_record; by exists e, r). congruence.
    + intros (x & e & [Hx He]%lookup_delete_Some & Hre). split; [|by exists x, e]. intros ->. apply Hx. apply (Hi a x k'); [done | apply key_at_record; by exists e, r].
  - intros c. cbn. rewrite Ho. etrans; [|apply omap_ext_in with (f := key_at A); intros x [Hx _]%elem_of_del; symmetry; by apply key_at_remove].
    symmetry. apply omap_without; [|by left]. intros x _ Hx Hkx. apply Hx. by apply (Hi x a k).
  - intros x y k'. rewrite !Hd. repeat case_decide; try done. apply Hi.
Qed.
Lemma key_at_set A a e x : key_at (set_entry a e A) x = if decide (x = a) then fst <$> decode e else key_at A x.
Proof. unfold key_at. cbn. case_decide as Hx; [subst; by rewrite lookup_insert_eq | by rewrite lookup_insert_ne]. Qed.
Lemma shows_set A C a e0 e k r : shows A C → a_ents A !! a = Some e0 → key_at A a = Some k → record_at e = Some (k, r) → shows (set_entry a e A) (put_rec k r C).
Proof.
  intros [Hr Ho Hi] He0 Hk He. pose proof (key_of_record _ _ _ He) as Hke. assert (Hd : ∀ x, key_at (set_entry a e A) x = key_at A x) by (intros x; rewrite key_at_set; case_decide; congruence).
  constructor.
  - intros k' r'. cbn. rewrite lookup_insert_Some, Hr. split.
    + intros [[<- <-]|(Hne & x & e' & He' & Hre)]; [exists a, e; by rewrite lookup_insert_eq |]. exists x, e'. rewrite lookup_insert_ne; [done |]. intros <-. apply Hne.
      assert (key_at A a = Some k') by (apply key_at_record; by exists e', r'). congruence.
    + intros (x & e' & [[<- <-]|[Hx He']]%lookup_insert_Some & Hre); [left; by rewrite He in Hre; injection Hre as -> -> |]. right. split; [|by exists x, e'].
      intros ->. apply Hx. apply (Hi a x k'); [done | apply key_at_record; by exists e', r'].
  - intros c. cbn. rewrite Ho. apply omap_ext_in. intros x _. by rewrite Hd.
  - intros x y k'. rewrite !Hd. apply Hi.
Qed.
(** A block that gets its key. *)
Lemma shows_new A C a e0 e k r : shows A C → a_ents A !! a = Some e0 → decode e0 = None → c_recs C !! k = None → record_at e = Some (k, r) →
  (∀ c, a_order A c = a :: del_from a (a_order A c)) → shows (set_entry a e A) (mk_cache (<[k := r]> (c_recs C)) (λ c, k :: c_order C c)).
Proof.
  intros [Hr Ho Hi] He0 Hd0 Hk He Hfront. pose proof (key_of_record _ _ _ He) as Hke. assert (Hka : key_at A a = None) by (rewrite (key_at_entry _ _ _ He0), Hd0; done).
  assert (Hno : ∀ x, key_at A x ≠ Some k).
  { intros x (e' & r' & He' & Hre)%key_at_record. assert (c_recs C !! k = Some r') by (apply Hr; by exists x, e'). congruence. }
  constructor.
  - intros k' r'. cbn. rewrite lookup_insert_Some, Hr. split.
    + intros [[<- <-]|(Hne & x & e' & He' & Hre)]; [exists a, e; by rewrite lookup_insert_eq |]. exists x, e'. rewrite lookup_insert_ne; [done |]. intros <-. rewrite He0 in He'. injection He' as <-. unfold record_at in Hre. by rewrite Hd0 in Hre.
    + intros (x & e' & [[<- <-]|[Hx He']]%lookup_insert_Some & Hre); [left; by rewrite He in Hre; injection Hre as -> -> |]. right. split; [|by exists x, e'].
      intros ->. apply (Hno x). apply key_at_record. by exists e', r'.
  - intros c. cbn. rewrite Ho. rewrite Hfront, !omap_here, Hka, key_at_set, decide_True by done. rewrite Hke. f_equal. apply omap_ext_in. intros x [Hx _]%elem_of_del. by rewrite key_at_set, decide_False.
  - intros x y k'. rewrite !key_at_set. repeat case_decide; subst; try done; rewrite ?Hke; [intros [= <-] Hx; by apply Hno in Hx | intros Hx [= <-]; by apply Hno in Hx | apply Hi].
Qed.
Lemma shows_add A C a e : shows A C → a_ents A !! a = None → decode e = None → (∀ c, a ∉ a_order A c) → shows (add a e A) C.
Proof.
  intros [Hr Ho Hi] Ha Hd Hno. assert (Hk : ∀ x, key_at (add a e A) x = key_at A x).
  { intros x. unfold key_at. cbn. destruct (decide (x = a)) as [->|]; [rewrite lookup_insert_eq, Ha; cbn; by rewrite Hd | by rewrite lookup_insert_ne]. }
  constructor.
  - intros k r. rewrite Hr. split; intros (x & e' & He' & Hre); exists x, e'; (split; [|done]).
    + cbn. rewrite lookup_insert_ne; [done |]. congruence.
    + cbn in He'. apply lookup_insert_Some in He' as [[<- <-]|[_ He']]; [|done]. unfold record_at in Hre. by rewrite Hd in Hre.
  - intros c. cbn. rewrite Hk. unfold key_at at 1. rewrite Ha. cbn. rewrite Ho. apply omap_ext_in. intros x _. by rewrite Hk.
  - intros x y k. rewrite !Hk. apply Hi.
Qed.
Lemma shows_drop A C a : shows A C → key_at A a = None → shows (remove a A) C.
Proof.
  intros [Hr Ho Hi] Hk. assert (Hd : ∀ x, key_at (remove a A) x = key_at A x).
  { intros x. destruct (decide (x = a)) as [->|]; [rewrite Hk; unfold key_at; cbn; by rewrite lookup_delete_eq | by apply key_at_remove]. }
  constructor.
  - intros k r. rewrite Hr. split; intros (x & e & He & Hre); exists x, e; (split; [|done]); [|cbn in He; by apply lookup_delete_Some in He as [_ ?]]. cbn. rewrite lookup_delete_ne; [done |].
    intros <-. assert (key_at A a = Some k) by (apply key_at_record; by exists e, r). congruence.
  - intros c. cbn. rewrite Ho. unfold del_from. induction (a_order A c) as [|x l IH]; [done |]. rewrite filter_cons. destruct (decide (x = a)) as [->|Hx].
    + rewrite decide_False by (intros H; by apply H). cbn. by rewrite Hk.
    + rewrite decide_True by done. cbn. rewrite Hd. destruct (key_at A x); [by f_equal | done].
  - intros x y k. rewrite !Hd. apply Hi.
Qed.
Lemma shows_eq A C C' : c_recs C = c_recs C' → (∀ c, c_order C c = c_order C' c) → shows A C → shows A C'.
Proof. intros E1 E2 []. constructor; [by rewrite <- E1 | by intros c; rewrite <- E2 | done]. Qed.
#[export] Instance shows_proper : Proper (abs_eq ==> eq ==> impl) shows.
Proof.
  intros A A' [Eo _ Ee] C _ <- [Hr Ho Hi]. assert (Hk : ∀ x, key_at A' x = key_at A x) by (intros x; unfold key_at; by rewrite Ee). constructor.
  - intros k r. by rewrite Hr, Ee.
  - intros c. rewrite Ho, Eo. apply omap_ext_in. done.
  - intros a a' k. rewrite !Hk. apply Hi.
Qed.
Lemma omap_snoc {B} (f : Z → option B) l x y : f x = Some y → omap f (l ++ [x]) = omap f l ++ [y].
Proof. intros E. rewrite omap_app. f_equal. cbn. by rewrite E. Qed.

(** ** Blocks and records that are thrown out *)

Lemma given_one a e k r : record_at e = Some (k, r) → readable [(a, e)] = given [(k, r)].
Proof.
  unfold record_at, decode, readable, given, record_of. cbn. destruct (Pack.unpack (e_data e)) as [[k' rest]|]; [|done]. destruct (e_only e); [by intros [= <- <-] |].
  destruct (Pack.unpack rest) as [[v ?]|]; [by intros [= <- <-] | done].
Qed.
(** [k] is the key of [keep], or of no block. *)
Record key_for (keep : Z) (k : key) A : Prop := {
  kf_other x : x ≠ keep → key_at A x ≠ Some k;
  kf_keep : key_at A keep = Some k ∨ key_at A keep = None
}.
Lemma key_for_remove keep k A a : a ≠ keep → key_for keep k A → key_for keep k (remove a A).
Proof.
  intros Ha [Ho Hk]. constructor; [|by rewrite key_at_remove]. intros x Hx. destruct (decide (x = a)) as [->|]; [unfold key_at; cbn; by rewrite lookup_delete_eq | rewrite key_at_remove by done; by apply Ho].
Qed.
Lemma order_without c keep k A C : shows A C → key_for keep k A → without k (c_order C c) = omap (key_at A) (del_from keep (a_order A c)).
Proof. intros HS [Ho Hk]. rewrite (sh_order _ _ HS). symmetry. apply omap_without; [|done]. intros x _. apply Ho. Qed.
Lemma evicts_throws {b} c keep k A gone A' : evicts b c keep A gone A' → ∀ C, shows A C → keyed keep A → key_for keep k A →
  ∃ gone' C', throws b c k C gone' C' ∧ shows A' C' ∧ keyed keep A' ∧ key_for keep k A' ∧ readable gone = given gone'.
Proof.
  induction 1 as [A|A a e gone A' Hv Ha He Hb _ IH]; intros C HS HK HF; [exists [], C; split_and!; [constructor | done..] |].
  pose proof (victim_not_keep c keep A) as Hn. rewrite Hv in Hn. destruct (Hn Ha) as [Hak Hin].
  destruct (HK a e Hak He) as [[k1 v1] Hd]. set (r := mk_record v1 (e_dirty e) (e_sync e)). assert (Hre : record_at e = Some (k1, r)) by (unfold record_at; by rewrite Hd).
  assert (Hk1 : key_at A a = Some k1) by (rewrite (key_at_entry _ _ _ He), Hd; done).
  destruct (IH (forget k1 C)) as (gone' & C' & Hth & HS' & HK' & HF' & Hg); [by apply shows_remove | | by apply key_for_remove |].
  { intros x e' Hx He'. cbn in He'. apply lookup_delete_Some in He' as [_ He']. by apply (HK x). }
  exists ((k1, r) :: gone'), C'. split_and!; try done.
  - econstructor; [done | | by apply (sh_recs _ _ HS); exists a, e | done]. rewrite (order_without c keep k A C HS HF). unfold victim in Hv.
    destruct (lst_split (del_from keep (a_order A c))) as [l E]; [intros E; by rewrite E in Hv |]. rewrite Hv in E. rewrite E. rewrite (omap_snoc _ _ _ _ Hk1). apply last_snoc.
  - change (readable ((a, e) :: gone)) with (readable ([(a, e)] ++ gone)). change (given ((k1, r) :: gone')) with (given ([(k1, r)] ++ gone')). rewrite readable_app, given_app, Hg. f_equal. by apply given_one.
Qed.
Lemma victim_none c keep k A C : shows A C → key_for keep k A → 0 ∉ a_order A c → victim c keep A = 0 → without k (c_order C c) = [].
Proof.
  intros HS HF H0 Hv. rewrite (order_without c keep k A C HS HF). unfold victim in Hv. apply lst_zero in Hv; [by rewrite Hv |]. intros Hin. by apply elem_of_del in Hin as [_ ?].
Qed.
(** What is kept is the front of the order. *)
Lemma throws_order {b} c k C gone C' : throws b c k C gone C' → NoDup (c_order C c) →
  without k (c_order C c) = without k (c_order C' c) ++ reverse gone.*1 ∧ (∀ x r, (x, r) ∈ gone → x ≠ k ∧ c_recs C !! x = Some r) ∧
  (∀ x, c_recs C' !! x = if decide (x ∈ gone.*1) then None else c_recs C !! x).
Proof.
  induction 1 as [C|C k1 r gone C' Hb Hl Hr _ IH]; intros Hnd.
  - split_and!; [by rewrite app_nil_r | by intros x r ?%not_elem_of_nil | intros x; by rewrite decide_False by apply not_elem_of_nil].
  - destruct IH as (IH1 & IH2 & IH3); [by apply NoDup_filter |]. assert (Hin : k1 ∈ without k (c_order C c)) by by apply last_Some_elem_of. apply list_elem_of_filter in Hin as Hk. destruct Hk as [Hk _]. cbn [fmap list_fmap fst]. split_and!.
    + rewrite reverse_cons, app_assoc, <- IH1. cbn [c_order forget]. apply last_Some in Hl as [l E]. assert (Hnd' : NoDup (l ++ [k1])) by (rewrite <- E; by apply NoDup_filter).
      assert (E2 : without k (without k1 (c_order C c)) = without k1 (without k (c_order C c))) by (unfold without; rewrite !list_filter_filter; apply list_filter_iff; tauto).
      rewrite E2, E. f_equal. unfold without. rewrite filter_app, filter_cons, decide_False by (intros H; by apply H). rewrite filter_nil, app_nil_r. symmetry. apply filter_true.
      intros x Hx ->. apply NoDup_app in Hnd' as (_ & Hd & _). apply (Hd k1 Hx). left.
    + intros x r' [[= -> ->]|Hx]%elem_of_cons; [done |]. destruct (IH2 x r' Hx) as [? Hx2]. split; [done |]. cbn in Hx2. by apply lookup_delete_Some in Hx2 as [_ ?].
    + intros x. rewrite IH3. cbn [c_recs forget]. destruct (decide (x = k1)) as [->|Hx].
      * rewrite lookup_delete_eq. destruct (decide (k1 ∈ k1 :: _)) as [|Hn]; [by case_decide | by destruct Hn; left].
      * rewrite lookup_delete_ne by done. apply decide_ext. rewrite elem_of_cons. naive_solver.
Qed.
End shows.
