(* ===== verification/HashMapSpec.v ===== *)
(** What the operations of a [HashMap] promise of the cache they stand for. *)
From stdpp Require Import prelude gmap list.
From Stdlib Require Import ZArith Lia.
From S2P Require Import Prelude Bytes MemChunkSpec HashMap HashMapFind HashMapCache.
Import HashMap.HashMap.

(** An operation with its arguments: [Put] with no value is [set(k, vtData)], [Mark] is
    [setDirty] or [setClean]. *)
Inductive op :=
  | Get (k v : list Z) (iSyncTime : Z)
  | Put (now : Z) (k : key) (ov : option (list Z)) (bDirty : bool)
  | Del (k : key) (data : BlockData)
  | CheckDirty (k : key)
  | Mark (k : key) (bDirty : bool)
  | MarkAfterSync (k : key)
  | Erase (allBlockChunkCount radio : Z) (data : BlockData) (bCheckDirty : bool)
  | SyncBegin
  | Sync (iNowTime : Z) (data : BlockData)
  | BackupBegin (bForceFromBegin : bool)
  | Backup (data : BlockData).
Inductive answer := Done | Code (ret_ : Z) | Value (ret_ : Z) (v : list Z) (iSyncTime : Z) | Data (ret_ : Z) (data : BlockData).

Section run.
Context {Al : Type} {AL : Allocator Al} (hashf : list Z → Z).
Definition run_op (o : op) : prog (t (Al := Al)) Empty_set answer :=
  match o with
  | Get k v iSyncTime => let* r := get hashf k v iSyncTime in ret (Value r.1.1 r.1.2 r.2)
  | Put now k (Some v) bDirty => let* r := set hashf now k v bDirty in ret (Code r)
  | Put now k None _ => let* r := set_only hashf now k in ret (Code r)
  | Del k data => let* r := del hashf k data in ret (Data r.1 r.2)
  | CheckDirty k => let* r := checkDirty hashf k in ret (Code r)
  | Mark k bDirty => let* r := (if bDirty then setDirty hashf k else setClean hashf k) in ret (Code r)
  | MarkAfterSync k => let* r := setDirtyAfterSync hashf k in ret (Code r)
  | Erase n radio data bCheckDirty => let* r := erase n radio data bCheckDirty in ret (Data r.1 r.2)
  | SyncBegin => sync_begin ;;; ret Done
  | Sync iNowTime data => let* r := sync iNowTime data in ret (Data r.1 r.2)
  | BackupBegin bForceFromBegin => backup_begin bForceFromBegin ;;; ret Done
  | Backup data => let* r := backup data in ret (Data r.1 r.2)
  end.
Fixpoint run_ops (os : list op) : prog (t (Al := Al)) Empty_set (list answer) :=
  match os with
  | [] => ret []
  | o :: os' => let* a := run_op o in let* l := run_ops os' in ret (a :: l)
  end.
End run.

(** How a map is set up. *)
Record config := mk_config { cf_read_only : bool; cf_auto_erase : bool; cf_order : chain; cf_sync_time : Z }.
(** What is told of a record, in the place of [data]. *)
Definition shown (k : key) (r : record) (data : BlockData) : Z * BlockData :=
  match r_value r with
  | Some v => (RT_OK, mk_data k v (r_dirty r) (r_sync r))
  | None => (RT_ONLY_KEY, mk_data k (_value data) (r_dirty r) (r_sync r))
  end.
(** The record that was used least, if there is one. *)
Definition oldest (c : chain) (C : cache) (k : key) (r : record) : Prop := last (c_order C c) = Some k ∧ c_recs C !! k = Some r.

(** An operation on the cache, with its answer and what is thrown out for it. *)
Inductive step (cf : config) (C : cache) : op → answer → list (key * record) → cache → Prop :=
  | st_get k v t w d sy : c_recs C !! k = Some (mk_record (Some w) d sy) →
      step cf C (Get k v t) (Value RT_OK w sy) [] (if cf_read_only cf then C else touch GetList k C)
  | st_get_only k v t d sy : c_recs C !! k = Some (mk_record None d sy) → step cf C (Get k v t) (Value RT_ONLY_KEY [] t) [] C
  | st_get_none k v t v' : c_recs C !! k = None → step cf C (Get k v t) (Value RT_NO_DATA v' t) [] C
  | st_put now k ov b gone C1 : cf_read_only cf = false → throws (cf_auto_erase cf) (cf_order cf) k C gone C1 →
      step cf C (Put now k ov b) (Code RT_OK) gone
        (fresh k (mk_record ov (match ov with Some _ => b | None => false end) (match c_recs C !! k with Some r => r_sync r | None => now end)) C1)
  | st_put_full now k ov b gone C1 : cf_read_only cf = false → throws (cf_auto_erase cf) (cf_order cf) k C gone C1 →
      cf_auto_erase cf = false ∨ without k (c_order C1 (cf_order cf)) = [] → step cf C (Put now k ov b) (Code RT_NO_MEMORY) gone C1
  | st_del k data r : cf_read_only cf = false → c_recs C !! k = Some r →
      step cf C (Del k data) (Data (value_code (r_value r)) (mk_data k (default [] (r_value r)) (r_dirty r) (r_sync r))) [] (forget k C)
  | st_del_none k data v' : cf_read_only cf = false → c_recs C !! k = None → step cf C (Del k data) (Data RT_NO_DATA (mk_data k v' (_dirty data) (_synct data))) [] C
  | st_check k : step cf C (CheckDirty k)
      (Code (match c_recs C !! k with
             | Some (mk_record (Some _) d _) => if d then RT_DIRTY_DATA else RT_OK
             | Some (mk_record None _ _) => RT_ONLY_KEY
             | None => RT_NO_DATA
             end)) [] C
  | st_mark k b w d sy : cf_read_only cf = false → c_recs C !! k = Some (mk_record (Some w) d sy) →
      step cf C (Mark k b) (Code RT_OK) [] (fresh k (mk_record (Some w) b sy) C)
  | st_mark_after k w d sy : cf_read_only cf = false → c_recs C !! k = Some (mk_record (Some w) d sy) →
      step cf C (MarkAfterSync k) (Code RT_OK) [] (put_rec k (mk_record (Some w) true sy) C)
  | st_mark_no o k r : (∃ b, o = Mark k b) ∨ o = MarkAfterSync k → cf_read_only cf = false →
      match c_recs C !! k with Some (mk_record (Some _) _ _) => False | Some _ => r = RT_ONLY_KEY | None => r = RT_NO_DATA end → step cf C o (Code r) [] C
  | st_read_only_code o : (∃ now k ov b, o = Put now k ov b) ∨ (∃ k b, o = Mark k b) ∨ (∃ k, o = MarkAfterSync k) → cf_read_only cf = true → step cf C o (Code RT_READONLY) [] C
  | st_read_only_data o data : (∃ k, o = Del k data) ∨ (∃ n radio b, o = Erase n radio data b) → cf_read_only cf = true → step cf C o (Data RT_READONLY data) [] C
  | st_erase_enough n radio data b : cf_read_only cf = false → step cf C (Erase n radio data b) (Data RT_OK data) [] C
  | st_erase n radio data b k r : cf_read_only cf = false → oldest GetList C k r → b && r_dirty r = false →
      step cf C (Erase n radio data b) (Data (match r_value r with Some _ => RT_ERASE_OK | None => RT_ONLY_KEY end) (shown k r data).2) [] (forget k C)
  | st_erase_dirty n radio data k r : cf_read_only cf = false → oldest GetList C k r → r_dirty r = true →
      step cf C (Erase n radio data true) (Data RT_DIRTY_DATA data) [] (touch GetList k C)
  | st_sync_begin : step cf C SyncBegin Done [] C
  | st_sync_done now data : step cf C (Sync now data) (Data RT_OK data) [] C
  | st_sync_clean now data k r : c_recs C !! k = Some r → r_dirty r = false → step cf C (Sync now data) (Data RT_NONEED_SYNC data) [] C
  | st_sync_only now data k d sy : c_recs C !! k = Some (mk_record None true sy) → d = (shown k (mk_record None true sy) data).2 → step cf C (Sync now data) (Data RT_ONLY_KEY d) [] C
  | st_sync_early now data k w sy : c_recs C !! k = Some (mk_record (Some w) true sy) → now ≤ cf_sync_time cf + sy →
      step cf C (Sync now data) (Data RT_NONEED_SYNC (mk_data k w true sy)) [] C
  | st_sync now data k w sy : c_recs C !! k = Some (mk_record (Some w) true sy) → cf_sync_time cf + sy < now →
      step cf C (Sync now data) (Data RT_NEED_SYNC (mk_data k w true sy)) [] (put_rec k (mk_record (Some w) false now) C)
  | st_backup_begin f : step cf C (BackupBegin f) Done [] C
  | st_backup_done data : step cf C (Backup data) (Data RT_OK data) [] C
  | st_backup data k r : c_recs C !! k = Some r →
      step cf C (Backup data) (Data (match r_value r with Some _ => RT_NEED_BACKUP | None => RT_ONLY_KEY end) (shown k r data).2) [] C.
Inductive steps (cf : config) : cache → list op → list answer → list (key * record) → cache → Prop :=
  | ss_nil C : steps cf C [] [] [] C
  | ss_cons C o a g C1 os l g' C' : step cf C o a g C1 → steps cf C1 os l g' C' → steps cf C (o :: os) (a :: l) (g ++ g') C'.
