(* ===== verification/HashMapRefine.v ===== *)
(** The operations of a [HashMap] do what the cache of [HashMapCache] does. *)
From stdpp Require Import prelude gmap list.
From Stdlib Require Import ZArith Lia.
From S2P Require Import Prelude Bytes MemChunkSpec HashMap HashMapLists HashMapRep HashMapBlocks HashMapErase HashMapOrder HashMapEvict HashMapNew HashMapData HashMapWrite HashMapStore HashMapFind HashMapCache.
Import HashMap.HashMap.

Section refine.
Context {Al : Type} {AL : Allocator Al} {ALL : AllocatorLaws Al} (hashf : list Z → Z).
Abbreviation t := (t (Al := Al)).
Implicit Types (s : t) (A : abs) (C : cache).

(** Blocks are in the buckets of their keys. *)
Definition hashed (n : Z) A : Prop := ∀ a e k v, a_ents A !! a = Some e → decode e = Some (k, v) → e_index e = hashf k mod n.
(** A state between two steps of an operation, with a block [busy] that has no key yet. *)
Record good (busy : Z) s A C : Prop := {
  g_rep : rep 0 [] s A;
  g_keyed : keyed busy A;
  g_hashed : hashed (_hash_size s) A;
  g_shows : shows A C;
  g_counting : counting s;
  g_idle : idle s;
  g_erase : 0 ≤ _iEraseCount s
}.
Definition refines s C : Prop := ∃ A, rep 0 [] s A ∧ keyed 0 A ∧ hashed (_hash_size s) A ∧ shows A C ∧ idle s ∧ 0 ≤ _iEraseCount s.
Lemma good_refines s A C : good 0 s A C → refines s C.
Proof. intros []. by exists A. Qed.
Lemma good_keys s A C : good 0 s A C → keys_ok hashf (_hash_size s) A.
Proof.
  intros []. constructor; [|apply (sh_inj _ _ g_shows0)]. intros a e He. assert (a ≠ 0) by (pose proof (entry_pos 0 [] s A a g_rep0 ltac:(by eexists)); lia).
  destruct (g_keyed0 a e ltac:(done) He) as [[k v] Hd]. exists k, v. split; [done | by eapply g_hashed0].
Qed.
Lemma cfg_hash s s' : same_cfg s s' → _hash_size s' = _hash_size s ∧ _iEraseCount s' = _iEraseCount s ∧ _bAutoErase s' = _bAutoErase s ∧ _bReadOnly s' = _bReadOnly s.
Proof. intros (_ & ? & ? & ? & _ & ? & _). done. Qed.

(** *** The beginning of an operation *)

Definition begun s : t := set_journal 0 [] s.
Definition got s : t := push [((0, HGetCount), wrapU 64 (default 0 (mem s !! (0, HGetCount)) + 1))] s.
Lemma begun_good s A C : rep 0 [] s A → keyed 0 A → hashed (_hash_size s) A → shows A C → 0 ≤ _iEraseCount s → good 0 (begun s) A C.
Proof. intros [] ? ? ? ?. constructor; [by constructor | done | done | done | split; [constructor | cbn; lia] | by left | done]. Qed.
Lemma got_good s A C : good 0 s A C → _stModifyData s = [] → good 0 (got s) A C.
Proof.
  intros [[] ? ? ? ? ? ?] E. constructor; [by constructor | done | done | done | | by right | done].
  unfold counting, got, push. cbn. rewrite E. split; [apply Forall_singleton; by left | cbn; lia].
Qed.
Lemma incGetCount_ok s A C : good 0 s A C → _stModifyData s = [] → incGetCount s = (Ok tt, got s).
Proof.
  intros [Hr _ _ _ _ _ _] E. destruct (lo_get _ _ _ (r_lists _ _ _ _ Hr)) as [v Ev]. unfold got. rewrite Ev. apply count_up_ok; [done |]. unfold room. rewrite E. cbn. lia.
Qed.
(** The block a search yields. *)
Lemma found_good a s A C : good 0 s A C → zlen (_stModifyData s) ≤ 1 → good 0 (found a s) A C.
Proof.
  intros G E. unfold found. destruct (a =? 0); [done |]. destruct G as [[] ? ? ? [Hc _] ? ?]. constructor; [by constructor | done | done | done | | by right | done].
  split; cbn; [apply Forall_app; split; [done |]; apply Forall_singleton; by right | rewrite length_app; cbn; lia].
Qed.
Definition block_of s A (k : key) : Z := seek A k (a_bucket A (hashf k mod _hash_size s)).
Lemma block_spec s A C k : good 0 s A C →
  (block_of s A k = 0 ∧ c_recs C !! k = None ∧ ∀ x, key_at A x ≠ Some k) ∨
  (block_of s A k ≠ 0 ∧ ∃ e v, a_ents A !! block_of s A k = Some e ∧ decode e = Some (k, v) ∧ key_at A (block_of s A k) = Some k ∧
     c_recs C !! k = Some (mk_record v (e_dirty e) (e_sync e))).
Proof.
  intros G. pose proof (good_keys _ _ _ G) as HK. destruct G as [Hr Hkd Hh HS _ _ _]. pose proof (r_lists _ _ _ _ Hr) as Hl. pose proof (r_buckets _ _ _ _ Hr) as Hn.
  assert (Hi : 0 ≤ hashf k mod _hash_size s < _hash_size s) by (apply Z.mod_pos_bound; lia). unfold block_of.
  destruct (decide (seek A k (a_bucket A (hashf k mod _hash_size s)) = 0)) as [E|E].
  - left. assert (Hno : ∀ x, key_at A x ≠ Some k).
    { intros x Hx. destruct (key_at_inv _ _ _ Hx) as (e & v & He & Hd). refine (seek_none A k _ x _ E _ Hx); [by apply (bucket_nonzero 0 [] s) |].
      apply (lo_bucket_dom _ _ _ Hl); [done |]. exists e. split; [done |]. by eapply Hh. }
    split_and!; [done | | done]. destruct (c_recs C !! k) as [r|] eqn:Er; [|done]. apply (sh_recs _ _ HS) in Er as (a & e & He & Hre). destruct (Hno a). apply key_at_record. by exists e, r.
  - right. split; [done |]. destruct (seek_some _ _ _ E) as [_ Hk]. destruct (key_at_inv _ _ _ Hk) as (e & v & He & Hd). exists e, v. split_and!; try done.
    apply (sh_recs _ _ HS). exists (seek A k (a_bucket A (hashf k mod _hash_size s))), e. split; [done |]. unfold record_at. by rewrite Hd.
Qed.
Lemma hashIndex_ok s A C k : good 0 s A C → hashIndex hashf k s = (Ok (hashf k mod _hash_size s), s).
Proof. intros G. pose proof (r_buckets _ _ _ _ (g_rep _ _ _ _ G)). unfold hashIndex, bind, get_st. by rewrite (proj2 (Z.eqb_neq _ _)) by lia. Qed.
Lemma bucket_length s A C i : good 0 s A C → 0 ≤ i < _hash_size s → (length (a_bucket A i) ≤ S (size (_cData s)))%nat.
Proof.
  intros G Hi. pose proof (g_rep _ _ _ _ G) as Hr. pose proof (r_lists _ _ _ _ Hr) as Hl.
  pose proof (areas_length (_cData s) (a_bucket A i) (lo_bucket_nodup _ _ _ Hl i Hi)) as H. etrans; [apply H | lia].
  intros x Hx. apply (entry_area 0 [] s A x Hr). by apply (bucket_dom _ _ _ _ _ Hl Hi).
Qed.
Lemma find_k_ok s A C k : good 0 s A C → zlen (_stModifyData s) ≤ 1 → find_k k (hashf k mod _hash_size s) s = (Ok (block_of s A k, RT_OK), found (block_of s A k) s).
Proof.
  intros G Hj. pose proof (g_rep _ _ _ _ G) as Hr. pose proof (r_lists _ _ _ _ Hr) as Hl. pose proof (r_buckets _ _ _ _ Hr) as Hn. set (i := hashf k mod _hash_size s).
  assert (Hi : 0 ≤ i < _hash_size s) by (apply Z.mod_pos_bound; lia). unfold find_k, block_of. fold i.
  rewrite (bind_Ok _ _ _ _ _ (load_ok _ _ _ (bk_head _ _ _ (lo_bucket _ _ _ Hl i Hi)))). destruct (Z.eqb_spec (hd0 (a_bucket A i)) 0) as [E|E].
  - apply hd0_zero in E; [|by apply (bucket_nonzero 0 [] s)]. rewrite E. done.
  - unfold with_fuel. apply (find_k_loop_ok hashf [] s A i k Hr (good_keys _ _ _ G) Hi ltac:(unfold room; lia) _ []); [done | intros E'; by rewrite E' in E | by apply (bucket_length s A C)].
Qed.
Lemma find_kv_ok s A C k v0 : good 0 s A C → zlen (_stModifyData s) ≤ 1 →
  ∃ v r, find_kv k (hashf k mod _hash_size s) v0 s = (Ok (block_of s A k, v, r), found (block_of s A k) s) ∧ (r = RT_OK ∨ r = RT_ONLY_KEY) ∧
    ∀ e w, a_ents A !! block_of s A k = Some e → decode e = Some (k, w) → v = default [] w ∧ r = value_code w.
Proof.
  intros G Hj. pose proof (g_rep _ _ _ _ G) as Hr. pose proof (r_lists _ _ _ _ Hr) as Hl. pose proof (r_buckets _ _ _ _ Hr) as Hn. set (i := hashf k mod _hash_size s).
  assert (Hi : 0 ≤ i < _hash_size s) by (apply Z.mod_pos_bound; lia). unfold find_kv. assert (Eb : block_of s A k = seek A k (a_bucket A i)) by done.
  assert (H0 : a_ents A !! 0 = None) by (destruct (a_ents A !! 0) eqn:E; [|done]; pose proof (entry_pos 0 [] s A 0 Hr ltac:(by eexists)); lia).
  rewrite (bind_Ok _ _ _ _ _ (load_ok _ _ _ (bk_head _ _ _ (lo_bucket _ _ _ Hl i Hi)))). destruct (Z.eqb_spec (hd0 (a_bucket A i)) 0) as [E|E].
  - apply hd0_zero in E; [|by apply (bucket_nonzero 0 [] s)]. rewrite Eb, E. exists v0, RT_OK. cbn. rewrite H0. split_and!; [done | by left | done].
  - unfold with_fuel. eexists _, _. rewrite Eb. split.
    { apply (find_kv_loop_ok hashf [] s A i k Hr (good_keys _ _ _ G) Hi ltac:(unfold room; lia) _ []); [done | intros E'; by rewrite E' in E | by apply (bucket_length s A C)]. }
    unfold seek_value, last_value. split.
    + destruct (_ =? 0); [destruct (a_ents A !! lst _) as [e|] | destruct (a_ents A !! seek _ _ _) as [e|]]; try (by left); (destruct (decode e) as [[k1 [w|]]|]; [by left | by right | by left]).
    + intros e w He Hd. destruct (Z.eqb_spec (seek A k (a_bucket A i)) 0) as [E0|]; [rewrite E0 in He; congruence |]. by rewrite He, Hd.
Qed.

(** *** Parts of operations *)

Lemma keyed_weaken busy A : keyed 0 A → (∀ x, is_Some (a_ents A !! x) → x ≠ 0) → keyed busy A.
Proof. intros HK H0 a e _ He. apply (HK a e); [apply H0; by eexists | done]. Qed.
Lemma keyed_set busy A a e : keyed busy A → is_Some (decode e) → keyed busy (set_entry a e A).
Proof. intros HK He x e' Hx He'. cbn in He'. apply lookup_insert_Some in He' as [[<- <-]|[_ He']]; [done | by apply (HK x)]. Qed.
Lemma hashed_set n A a e0 e : hashed n A → a_ents A !! a = Some e0 → e_index e = e_index e0 → (fst <$> decode e = fst <$> decode e0 ∨ ∃ k v, decode e = Some (k, v) ∧ e_index e0 = hashf k mod n) → hashed n (set_entry a e A).
Proof.
  intros HH He0 Ei Hd x e' k v He' Hd'. cbn in He'. apply lookup_insert_Some in He' as [[<- <-]|[_ He']]; [|by eapply HH]. rewrite Ei. destruct Hd as [Hd|(k1 & v1 & Hd & Hi)].
  - rewrite Hd' in Hd. cbn in Hd. destruct (decode e0) as [[k0 v0]|] eqn:E0; [|done]. cbn in Hd. injection Hd as <-. by apply (HH a e0 k v0).
  - rewrite Hd in Hd'. by injection Hd' as <- <-.
Qed.
Lemma hashed_remove n A a : hashed n A → hashed n (remove a A).
Proof. intros HH x e k v He Hd. cbn in He. apply lookup_delete_Some in He as [_ He]. by eapply HH. Qed.
Lemma keyed_remove busy A a : keyed busy A → keyed busy (remove a A).
Proof. intros HK x e Hx He. cbn in He. apply lookup_delete_Some in He as [_ He]. by apply (HK x). Qed.

Lemma quiet_good s s' A A' C C' : good 0 s A C → quiet s s' → rep 0 [] s' A' → keyed 0 A' → hashed (_hash_size s) A' → shows A' C' → good 0 s' A' C'.
Proof. intros G [] Hr HK HH HS. destruct (cfg_hash _ _ q_cfg) as (Eh & Ee & _). destruct G. constructor; auto; [by rewrite Eh | by rewrite Ee]. Qed.
Lemma refreshGet_good s A C a k : good 0 s A C → key_at A a = Some k →
  ∃ s' A', refreshGetList a s = (Ok tt, s') ∧ good 0 s' A' (touch GetList k C) ∧ quiet s s'.
Proof.
  intros G Hk. destruct (key_at_inv _ _ _ Hk) as (e & v & He & _). destruct (refreshGetList_ok 0 [] s A a (g_rep _ _ _ _ G) (g_counting _ _ _ _ G) ltac:(by eexists)) as (s' & E & Hr & Q).
  exists s', (to_front GetList a A). split; [done |]. split; [|done]. apply (quiet_good s s' A _ C _ G Q Hr); [apply (g_keyed _ _ _ _ G) | apply (g_hashed _ _ _ _ G) |].
  apply shows_front; [apply (g_shows _ _ _ _ G) | done |]. apply (lo_dom _ _ _ (r_lists _ _ _ _ (g_rep _ _ _ _ G))). by eexists.
Qed.
Lemma refreshSet_good s A C a k : good 0 s A C → key_at A a = Some k →
  ∃ s' A', refreshSetList a s = (Ok tt, s') ∧ good 0 s' A' (touch GetList k (touch SetList k C)) ∧ quiet s s'.
Proof.
  intros G Hk. destruct (key_at_inv _ _ _ Hk) as (e & v & He & _). destruct (refreshSetList_ok 0 [] s A a (g_rep _ _ _ _ G) (g_counting _ _ _ _ G) ltac:(by eexists)) as (s' & E & Hr & Q).
  assert (Hin : ∀ c, a ∈ a_order A c) by (intros c; apply (lo_dom _ _ _ (r_lists _ _ _ _ (g_rep _ _ _ _ G))); by eexists).
  exists s', (to_front GetList a (to_front SetList a A)). split; [done |]. split; [|done]. apply (quiet_good s s' A _ C _ G Q Hr); [apply (g_keyed _ _ _ _ G) | apply (g_hashed _ _ _ _ G) |].
  apply shows_front; [apply shows_front; [apply (g_shows _ _ _ _ G) | done | apply Hin] | done |]. rewrite to_front_other by done. apply Hin.
Qed.
Lemma setDirty_good s A C a e k v b : good 0 s A C → a_ents A !! a = Some e → decode e = Some (k, v) →
  ∃ s', setDirty_block a b s = (Ok tt, s') ∧ good 0 s' (set_entry a (dirtied b e) A) (put_rec k (mk_record v b (e_sync e)) C) ∧ quiet s s'.
Proof.
  intros G He Hd. destruct (setDirty_block_ok 0 [] s A a e b (g_rep _ _ _ _ G) (g_counting _ _ _ _ G) He) as (s' & E & Hr & Q).
  exists s'. split; [done |]. split; [|done]. apply (quiet_good s s' A _ C _ G Q Hr).
  - apply keyed_set; [apply (g_keyed _ _ _ _ G) | by exists (k, v)].
  - apply (hashed_set _ A a e); [apply (g_hashed _ _ _ _ G) | done | done | by left].
  - apply (shows_set A C a e); [apply (g_shows _ _ _ _ G) | done | by eapply key_at_decode |]. unfold record_at. change (decode (dirtied b e)) with (decode e). by rewrite Hd.
Qed.
Lemma erase_good busy s A C a e k v : good busy s A C → a_ents A !! a = Some e → decode e = Some (k, v) →
  ∃ s', erase_block a s = (Ok tt, s') ∧ good busy s' (remove a A) (forget k C) ∧ same_cfg s s' ∧ vtData s' = vtData s.
Proof.
  intros [Hr HK HH HS Hc Hi Hec] He Hd. destruct (erase_block_ok 0 [] s A a e Hr Hc He) as (s' & E & Hr' & Cf & S & J & V & _). destruct (cfg_hash _ _ Cf) as (Eh & Ee & _).
  exists s'. split; [done |]. split; [|done]. constructor; [done | by apply keyed_remove | rewrite Eh; by apply hashed_remove | | split; rewrite J; [constructor | cbn; lia] | left; by rewrite S, J | by rewrite Ee].
  apply shows_remove; [done | by eapply key_at_decode].
Qed.
Lemma store_sync_good s A C a e k v now : good 0 s A C → a_ents A !! a = Some e → decode e = Some (k, v) →
  ∃ s', store (a, BSyncTime) now s = (Ok tt, s') ∧ good 0 s' (set_entry a (mk_entry (e_index e) now (e_dirty e) (e_only e) (e_chunks e) (e_data e)) A) (put_rec k (mk_record v (e_dirty e) now) C) ∧ same_cfg s s' ∧ vtData s' = vtData s.
Proof.
  intros [Hr HK HH HS Hc Hi Hec] He Hd. pose proof Hr as [Hl Hch Hp Hn]. destruct (lo_ent _ _ _ Hl a e He) as [Ei Es Ed Eo].
  rewrite hm_store_ok by (rewrite Es; by eexists). eexists. split; [done |]. split; [|done]. set (e' := mk_entry _ _ _ _ _ _). constructor; try done.
  - constructor; [| | done | done]; cbn.
    + apply (entry_memory (mem s) _ _ A a e); try done.
      * intros x f Hf. apply lookup_insert_ne. intros [= <- <-]. unfold own in Hf. cbn in Hf. by rewrite bool_decide_eq_true_2 in Hf.
      * constructor; first [by rewrite lookup_insert_eq | by rewrite lookup_insert_ne by done].
      * rewrite lookup_insert_ne, (lo_dirty _ _ _ Hl), (count_update _ _ _ _ e' He) by done. do 2 f_equal. cbn. lia.
      * rewrite lookup_insert_ne, (lo_only _ _ _ Hl), (count_update _ _ _ _ e' He) by done. do 2 f_equal. cbn. lia.
      * rewrite lookup_insert_ne by done. apply (lo_get _ _ _ Hl).
      * rewrite lookup_insert_ne by done. apply (lo_hit _ _ _ Hl).
    + eapply chains_ok_ext; [| | by apply (same_chains_insert _ _ e) | done]; [intros x f Hf; apply lookup_insert_ne; by intros [= -> <-] | by apply lookup_insert_ne].
  - apply keyed_set; [done | by exists (k, v)].
  - apply (hashed_set _ A a e); [done | done | done | by left].
  - apply (shows_set A C a e); [done | done | by eapply key_at_decode |]. unfold record_at. change (decode e') with (decode e). by rewrite Hd.
Qed.

Lemma begin_ok s C : refines s C → ∃ A, doUpdate false s = (Ok tt, begun s) ∧ good 0 (begun s) A C ∧ same_cfg s (begun s) ∧ vtData (begun s) = vtData s ∧ _stModifyData (begun s) = [].
Proof. intros (A & Hr & HK & HH & HS & Hi & He). exists A. split; [by apply doUpdate_false |]. split; [by apply begun_good | done]. Qed.
Lemma start_ok {B} s C (k : prog t Empty_set B) : refines s C →
  ∃ A s1, (doUpdate false ;;; incGetCount ;;; k) s = k s1 ∧ good 0 s1 A C ∧ same_cfg s s1 ∧ vtData s1 = vtData s ∧ zlen (_stModifyData s1) ≤ 1.
Proof.
  intros H. destruct (begin_ok s C H) as (A & E & G & Cf & V & J). exists A, (got (begun s)). rewrite (bind_Ok _ _ _ _ _ E), (bind_Ok _ _ _ _ _ (incGetCount_ok _ _ _ G J)).
  split; [done |]. split; [by apply got_good |]. split_and!; done.
Qed.
End refine.
