(* ===== verification/HashMapSet.v ===== *)
(** [set] of a [HashMap]: a record comes to the front, and others make room for it. *)
From stdpp Require Import prelude gmap list.
From Stdlib Require Import ZArith Lia.
From S2P Require Import Prelude Bytes MemChunkSpec HashMap HashMapLists HashMapRep HashMapBlocks HashMapErase HashMapOrder HashMapEvict HashMapNew HashMapData HashMapWrite HashMapStore HashMapFind HashMapCache HashMapRefine.
Import HashMap.HashMap.

Section set.
Context {Al : Type} {AL : Allocator Al} {ALL : AllocatorLaws Al} (hashf : list Z → Z).
Abbreviation t := (t (Al := Al)).
Implicit Types (s : t) (A : abs) (C : cache).

(** Why a record is not set. *)
Definition full s (k : key) C : Prop := _bAutoErase s = false ∨ without k (c_order C (order_of s)) = [].
Definition threw_out s (k : key) C (gone : list (key * record)) s' C' : Prop :=
  throws (_bAutoErase s) (order_of s) k C gone C' ∧ vtData s' = vtData s ++ given gone ∧ same_cfg s s'.
Lemma threw_out_trans s k C g s1 C1 g' s2 C2 : threw_out s k C g s1 C1 → threw_out s1 k C1 g' s2 C2 → threw_out s k C (g ++ g') s2 C2.
Proof.
  intros (H & V & Cf) (H' & V' & Cf'). rewrite (order_of_cfg _ _ Cf), (auto_of_cfg _ _ Cf) in H'. split_and!; [by eapply throws_app | by rewrite V', V, given_app, app_assoc | by etrans].
Qed.
Lemma threw_out_then s k C g s1 C1 s2 : threw_out s k C g s1 C1 → same_cfg s1 s2 → vtData s2 = vtData s1 → threw_out s k C g s2 C1.
Proof. intros (H & V & Cf) Cf' V'. split_and!; [done | congruence | by etrans]. Qed.
Lemma full_cfg s s' k C : same_cfg s s' → full s' k C → full s k C.
Proof. intros Cf. unfold full. rewrite (order_of_cfg _ _ Cf). destruct (cfg_hash _ _ Cf) as (_ & _ & E & _). by rewrite E. Qed.
Lemma hashed_evicts {b} c keep A g A' n : evicts b c keep A g A' → hashed hashf n A → hashed hashf n A'.
Proof. induction 1; [done |]. intros HH. auto using hashed_remove. Qed.
Lemma no_memory_full s (a : Z) k A C : rep 0 [] s A → shows A C → key_for a k A → no_memory a s A → full s k C.
Proof. intros Hr HS HF [E|E]; [by left | right]. apply (victim_none _ a k A C HS HF); [by apply (order_nonzero 0 [] s) | done]. Qed.

(** The block [a] is or will be that of [k]. *)
Lemma set_good a s A C e k ov (pData : list Z) ob : good hashf a s A C → a_ents A !! a = Some e → key_for a k A → e_index e = hashf k mod _hash_size s →
  (∀ l, decode (written ob l pData e) = Some (k, ov)) → zlen pData < 2 ^ 64 →
  ∃ r s' gone C1 A1 A', set_block a pData ob s = (Ok r, s') ∧ threw_out s k C gone s' C1 ∧ shows A1 C1 ∧ a_ents A1 !! a = Some e ∧
    (∀ c, a_order A c = a :: del_from a (a_order A c) → a_order A1 c = a :: del_from a (a_order A1 c)) ∧
    (r = RT_NO_MEMORY ∧ good hashf a s' A1 C1 ∧ full s k C1 ∨
     r = RT_OK ∧ ∃ l, A' = set_entry a (written ob l pData e) A1 ∧ ∀ C', shows A' C' → good hashf 0 s' A' C').
Proof.
  intros [Hr HK HH HS Hc Hi Hec] He HF Hix Hd Hlen. destruct (set_block_ok a s A e pData ob Hr Hc Hec He Hlen) as (r & s' & g & A1 & E & Hm & H).
  destruct Hm as [Hev Cf Hcnt Hidle Hvt _]. destruct (evicts_throws _ _ k _ _ _ Hev C HS HK HF) as (gone & C1 & Hth & HS1 & HK1 & HF1 & Hg).
  pose proof (kept _ _ _ _ _ _ Hev He) as He1. destruct (cfg_hash _ _ Cf) as (Eh & Ee & _). pose proof (hashed_evicts _ _ _ _ _ _ Hev HH) as HH1.
  assert (Hfront : ∀ c, a_order A c = a :: del_from a (a_order A c) → a_order A1 c = a :: del_from a (a_order A1 c)).
  { intros c Ea. pose proof (lo_nodup _ _ _ (r_lists _ _ _ _ Hr) (order_of s)) as Hnd. destruct (evicts_order _ _ _ _ _ Hev Hnd) as (_ & Ho & Hk). rewrite Ho. rewrite Ea at 1. rewrite filter_cons, decide_True.
    2: { intros ([x e'] & -> & Hin)%list_elem_of_fmap. by destruct (Hk _ _ Hin). }
    f_equal. unfold del_from. rewrite !list_filter_filter. apply list_filter_iff. tauto. }
  assert (Hto : threw_out s k C gone s' C1) by (split_and!; [done | by rewrite Hvt, Hg | done]).
  destruct H as [(-> & Hr1 & Hno)|(-> & l & Hr1)].
  - exists RT_NO_MEMORY, s', gone, C1, A1, A1. do 5 (split; [done |]). left. split; [done |]. split; [|eapply full_cfg; [exact Cf |]; eapply no_memory_full; [done | done | done |]].
    + constructor; auto; [by rewrite Eh | by rewrite Ee].
    + unfold no_memory in *. rewrite (order_of_cfg _ _ Cf). destruct (cfg_hash _ _ Cf) as (_ & _ & Ea & _). by rewrite Ea.
  - exists RT_OK, s', gone, C1, A1, (set_entry a (written ob l pData e) A1). do 5 (split; [done |]). right. split; [done |]. exists l. split; [done |]. intros C' HS'. constructor; auto; [| | by rewrite Ee].
    + intros x e' Hx He'. cbn in He'. apply lookup_insert_Some in He' as [[<- <-]|[Hne He']]; [exists (k, ov); apply Hd | apply (HK1 x); [congruence | done]].
    + rewrite Eh. apply (hashed_set hashf _ A1 a e); [done | done | done |]. right. exists k, ov. split; [apply Hd | done].
Qed.

Lemma del_front a l : a ∉ l → a :: l = a :: del_from a (a :: l).
Proof. intros Ha. unfold del_from. rewrite filter_cons, decide_False by (intros Hx; by apply Hx). f_equal. symmetry. by apply del_notin. Qed.

(** What is written for a key and a value. *)
Lemma decode_kv l e (k v : list Z) : zlen k < 2 ^ 32 → zlen v < 2 ^ 32 → decode (written false l (Pack.pack k ++ Pack.pack v) e) = Some (k, Some v).
Proof. intros Hk Hv. unfold decode. cbn. rewrite unpack_pack by done. rewrite <- (app_nil_r (Pack.pack v)), unpack_pack by done. done. Qed.
Lemma decode_k l e (k : list Z) : zlen k < 2 ^ 32 → decode (written true l (Pack.pack k) e) = Some (k, None).
Proof. intros Hk. unfold decode. cbn. rewrite <- (app_nil_r (Pack.pack k)), unpack_pack by done. done. Qed.
Definition content_of (k : key) (ov : option (list Z)) : list Z := match ov with Some v => Pack.pack k ++ Pack.pack v | None => Pack.pack k end.
Definition short (k : key) (ov : option (list Z)) : Prop := zlen k < 2 ^ 32 ∧ match ov with Some v => zlen v < 2 ^ 32 | None => True end.
Lemma decode_content l e k ov : short k ov → decode (written (bool_decide (ov = None)) l (content_of k ov) e) = Some (k, ov).
Proof. intros [Hk Hv]. destruct ov as [v|]; [rewrite bool_decide_eq_false_2 by done; by apply decode_kv | rewrite bool_decide_eq_true_2 by done; by apply decode_k]. Qed.
Lemma content_length k ov : short k ov → zlen (content_of k ov) < 2 ^ 64.
Proof. intros [Hk Hv]. pose proof (pack_length k). destruct ov as [v|]; cbn [content_of]; [|lia]. pose proof (pack_length v). rewrite length_app. lia. Qed.

(** The value of a record that was set, before its flag and its time are. *)
Definition set_rec (ov : option (list Z)) (sync : Z) : record := mk_record ov (negb (bool_decide (ov = None))) sync.
Lemma set_old a s A C e k ov v0 : good hashf 0 s A C → a_ents A !! a = Some e → decode e = Some (k, v0) → short k ov →
  ∃ r s' gone C1, set_block a (content_of k ov) (bool_decide (ov = None)) s = (Ok r, s') ∧ threw_out s k C gone s' C1 ∧
    (r = RT_NO_MEMORY ∧ (∃ A1, good hashf 0 s' A1 C1) ∧ full s k C1 ∨
     r = RT_OK ∧ ∃ A' e', good hashf 0 s' A' (put_rec k (set_rec ov (e_sync e)) C1) ∧ a_ents A' !! a = Some e' ∧ decode e' = Some (k, ov) ∧ e_sync e' = e_sync e ∧ e_dirty e' = negb (bool_decide (ov = None))).
Proof.
  intros G He Hd Hs. pose proof G as [Hr HK HH HS Hc Hi Hec]. assert (H0 : ∀ x, is_Some (a_ents A !! x) → x ≠ 0) by (intros x Hx; pose proof (entry_pos 0 [] s A x Hr Hx); lia).
  assert (G' : good hashf a s A C) by (constructor; try done; by apply keyed_weaken).
  assert (HF : key_for a k A).
  { constructor; [|left; by eapply key_at_decode]. intros x Hx Hk. apply Hx. apply (sh_inj _ _ HS x a k); [done | by eapply key_at_decode]. }
  destruct (set_good a s A C e k ov (content_of k ov) (bool_decide (ov = None)) G' He HF) as (r & s' & gone & C1 & A1 & A' & E & Hto & HS1 & He1 & _ & H); [by eapply HH | intros l; by apply decode_content | by apply content_length |].
  exists r, s', gone, C1. split; [done |]. split; [done |]. destruct H as [(-> & G1 & Hf)|(-> & l & -> & HG)].
  - left. split; [done |]. split; [|done]. exists A1. destruct G1. constructor; try done. intros x e' Hx He'. destruct (decide (x = a)) as [->|Hne]; [|by apply (g_keyed x)]. rewrite He1 in He'. injection He' as <-. by exists (k, v0).
  - right. split; [done |]. eexists _, _. split; [apply HG | split; [cbn; apply lookup_insert_eq | split; [by apply decode_content | done]]].
    apply (shows_set A1 C1 a e); [done | done | by eapply key_at_decode |]. unfold record_at. rewrite decode_content by done. done.
Qed.
Lemma set_new a s A C k ov : good hashf a s (add a (new_entry (hashf k mod _hash_size s)) A) C → a ∉ a_order A SetList → a ∉ a_order A GetList → c_recs C !! k = None → short k ov →
  ∃ r s' gone C1 A1, set_block a (content_of k ov) (bool_decide (ov = None)) s = (Ok r, s') ∧ threw_out s k C gone s' C1 ∧
    (r = RT_NO_MEMORY ∧ good hashf a s' A1 C1 ∧ a_ents A1 !! a = Some (new_entry (hashf k mod _hash_size s)) ∧ full s k C1 ∨
     r = RT_OK ∧ ∃ e', good hashf 0 s' A1 (mk_cache (<[k := set_rec ov 0]> (c_recs C1)) (λ c, k :: c_order C1 c)) ∧ a_ents A1 !! a = Some e' ∧ decode e' = Some (k, ov) ∧ e_dirty e' = negb (bool_decide (ov = None))).
Proof.
  intros G Hn1 Hn2 Hk Hs. set (e := new_entry (hashf k mod _hash_size s)) in *. set (A0 := add a e A) in *. assert (He : a_ents A0 !! a = Some e) by (cbn; apply lookup_insert_eq).
  assert (Hka : key_at A0 a = None) by (by rewrite (key_at_entry _ _ _ He)).
  assert (HF : key_for a k A0).
  { constructor; [|by right]. intros x _ (e' & r' & He' & Hre)%key_at_record. assert (c_recs C !! k = Some r') by (apply (sh_recs _ _ (g_shows _ _ _ _ _ G)); by exists x, e'). congruence. }
  destruct (set_good a s A0 C e k ov (content_of k ov) (bool_decide (ov = None)) G He HF) as (r & s' & gone & C1 & A1 & A' & E & Hto & HS1 & He1 & Hfront & H); [done | intros l; by apply decode_content | by apply content_length |].
  destruct H as [(-> & G1 & Hf)|(-> & l & -> & HG)].
  - exists RT_NO_MEMORY, s', gone, C1, A1. split; [done |]. split; [done |]. by left.
  - exists RT_OK, s', gone, C1, (set_entry a (written (bool_decide (ov = None)) l (content_of k ov) e) A1). split; [done |]. split; [done |]. right. split; [done |].
    eexists. split; [apply HG | split; [cbn; apply lookup_insert_eq | split; [by apply decode_content | done]]].
    apply (shows_new A1 C1 a e); try done.
    + destruct Hto as (Hth & _). destruct (c_recs C1 !! k) as [r|] eqn:Er; [|done]. exfalso.
      assert (Hsub : ∀ b c C g C', throws b c k C g C' → ∀ x, c_recs C !! x = None → c_recs C' !! x = None).
      { clear. induction 1; [done |]. intros x Hx. apply IHthrows. cbn. apply lookup_delete_None. by right. }
      by rewrite (Hsub _ _ _ _ _ Hth k Hk) in Er.
    + unfold record_at. rewrite decode_content by done. done.
    + intros c. apply Hfront. apply del_front. by destruct c.
Qed.

(** *** A block for the record *)

Lemma good_eq busy s A C C' : c_recs C = c_recs C' → (∀ c, c_order C c = c_order C' c) → good hashf busy s A C → good hashf busy s A C'.
Proof. intros E1 E2 []. constructor; try done. by eapply shows_eq. Qed.
Lemma found_same a s : same_cfg s (found a s) ∧ vtData (found a s) = vtData s.
Proof. unfold found. by destruct (a =? 0). Qed.
Lemma find_or_allocate_ok s A C k need : good hashf 0 s A C → zlen (_stModifyData s) ≤ 1 →
  ∃ r a (isnew : bool) s2 gone C1, find_or_allocate hashf k need s = (Ok (r, (a, isnew)), s2) ∧ threw_out s k C gone s2 C1 ∧
    (r = RT_NO_MEMORY ∧ (∃ A1, good hashf 0 s2 A1 C1) ∧ full s k C1 ∧ c_recs C !! k = None ∨
     r = RT_OK ∧ isnew = false ∧ gone = [] ∧ C1 = C ∧ good hashf 0 s2 A C ∧ (∃ e v, a_ents A !! a = Some e ∧ decode e = Some (k, v) ∧ c_recs C !! k = Some (mk_record v (e_dirty e) (e_sync e))) ∨
     r = RT_OK ∧ isnew = true ∧ c_recs C !! k = None ∧ c_recs C1 !! k = None ∧ ∃ A1, good hashf a s2 (add a (new_entry (hashf k mod _hash_size s2)) A1) C1 ∧ ∀ c, a ∉ a_order A1 c).
Proof.
  intros G Hj. unfold find_or_allocate. rewrite (bind_Ok _ _ _ _ _ (hashIndex_ok hashf s A C k G)), (bind_Ok _ _ _ _ _ (find_k_ok hashf s A C k G Hj)). cbn [fst snd negb Z.eqb RT_OK].
  set (a := block_of hashf s A k). pose proof (found_good hashf a s A C G Hj) as G2. pose proof (found_same a s) as [Cf2 V2]. set (s2 := found a s) in *.
  assert (Hto : threw_out s k C [] s2 C) by (split_and!; [constructor | by rewrite V2, app_nil_r | done]).
  destruct (block_spec hashf s A C k G) as [(Ea & Hk & Hno)|(Ea & e & v & He & Hd & _ & Hk)]; fold a in Ea.
  2: { fold a in He. rewrite (proj2 (Z.eqb_neq _ _) Ea). exists RT_OK, a, false, s2, [], C. split; [done |]. split; [done |]. right. left. do 5 (split; [done |]). by exists e, v. }
  rewrite (proj2 (Z.eqb_eq _ _) Ea). pose proof G2 as [Hr HK HH HS Hc Hi Hec]. destruct (cfg_hash _ _ Cf2) as (Eh & _). rewrite <- Eh. set (i := hashf k mod _hash_size s2).
  assert (Hix : 0 ≤ i < _hash_size s2) by (apply Z.mod_pos_bound; pose proof (r_buckets _ _ _ _ Hr); lia).
  destruct (allocateMemBlock_ok [] i (sizeof_tagBlockHead + need) s2 A Hr Hc Hec Hix) as (s3 & g & A1 & a1 & s4 & (Hev & Hr3 & Hsp & Hvt) & E & H). rewrite (bind_Ok _ _ _ _ _ E).
  assert (HF : key_for 0 k A) by (constructor; [intros x _; apply Hno | right; unfold key_at; destruct (a_ents A !! 0) eqn:E0; [pose proof (entry_pos 0 [] s2 A 0 Hr ltac:(by eexists)); lia | done]]).
  destruct (evicts_throws _ _ k _ _ _ Hev C HS HK HF) as (gone & C1 & Hth & HS1 & HK1 & HF1 & Hg). pose proof (sp_cfg _ _ _ Hsp) as Cf3. destruct (cfg_hash _ _ Cf3) as (Eh3 & Ee3 & Ea3 & _).
  pose proof (hashed_evicts _ _ _ _ _ _ Hev HH) as HH1.
  assert (Hk1 : c_recs C1 !! k = None).
  { clear -Hth Hk. induction Hth; [done |]. apply IHHth. cbn. apply lookup_delete_None. by right. }
  assert (Hto3 : threw_out s k C gone s3 C1).
  { split_and!; [by rewrite <- (order_of_cfg _ _ Cf2), <- (auto_of_cfg _ _ Cf2) | by rewrite Hvt, Hg, V2 | by etrans]. }
  destruct H as [(-> & -> & Hm)|(Ha1 & Hpos & Hr4 & Hsp4 & Hvt4)].
  - cbn [Z.eqb]. exists RT_NO_MEMORY, 0, false, s3, gone, C1. split; [done |]. split; [done |]. left. split; [done |]. split; [|split; [|done]].
    + exists A1. constructor; [done | done | by rewrite Eh3 | done | by apply (sp_counting _ _ _ Hsp) | by apply (sp_idle _ _ _ Hsp) | by rewrite Ee3].
    + eapply full_cfg; [exact (transitivity Cf2 Cf3) |]. apply (no_memory_full s3 0 k A1); [done | done | done |]. destruct Hm as [Hm|Hm]; [left; congruence | right; by rewrite (order_of_cfg _ _ Cf3)].
  - rewrite (proj2 (Z.eqb_neq _ _)) by lia. exists RT_OK, a1, true, s4, gone, C1. split; [done |]. split; [eapply threw_out_then; [exact Hto3 | apply (sp_cfg _ _ _ Hsp4) | done] |].
    right. right. do 4 (split; [done |]). destruct (cfg_hash _ _ (sp_cfg _ _ _ Hsp4)) as (Eh4 & Ee4 & _). exists A1.
    assert (Hn1 : ∀ c, a1 ∉ a_order A1 c) by (intros c; rewrite (lo_dom _ _ _ (r_lists _ _ _ _ Hr3)), Ha1; by intros []).
    split; [|done]. rewrite Eh4, Eh3. fold i. constructor; [done | | | by apply shows_add | by apply (sp_counting _ _ _ Hsp4), (sp_counting _ _ _ Hsp) | by apply (sp_idle _ _ _ Hsp4), (sp_idle _ _ _ Hsp) | by rewrite Ee4, Ee3].
    + intros x e Hx He. cbn in He. rewrite lookup_insert_ne in He by done. apply (HK1 x e); [|done]. intros ->. pose proof (entry_pos 0 [] s3 A1 0 Hr3 ltac:(by eexists)). lia.
    + intros x e k' v' He Hd. cbn in He. apply lookup_insert_Some in He as [[<- <-]|[_ He]]; [done |]. rewrite Eh4, Eh3. by eapply HH1.
Qed.

(** *** [set] *)

(** What the two functions have in common, when there is a block. *)
Definition finish (now : Z) (a : Z) (isnew : bool) (m : prog t Empty_set unit) (ret_ : Z) : prog t Empty_set Z :=
  if negb (ret_ =? RT_OK) then (if isnew then erase_block a else ret tt) ;;; ret ret_ else
  (if isnew then store (a, BSyncTime) now else ret tt) ;;; m ;;; refreshSetList a ;;; ret RT_OK.
(** [m] makes the record dirty, or leaves it. *)
Definition marks (ov : option (list Z)) (b : bool) (a : Z) (m : prog t Empty_set unit) : Prop :=
  ∀ s A C e, good hashf 0 s A C → a_ents A !! a = Some e → e_dirty e = negb (bool_decide (ov = None)) → ∀ k, decode e = Some (k, ov) →
    ∃ s' A', m s = (Ok tt, s') ∧ good hashf 0 s' A' (put_rec k (mk_record ov b (e_sync e)) C) ∧ same_cfg s s' ∧ vtData s' = vtData s ∧ ∃ e', a_ents A' !! a = Some e' ∧ decode e' = Some (k, ov).
Lemma marks_dirty v b a : marks (Some v) b a (setDirty_block a b).
Proof.
  intros s A C e G He Hd k Hk. destruct (setDirty_good hashf s A C a e k (Some v) b G He Hk) as (s' & E & G' & Q). eexists _, _. split; [exact E |]. split; [exact G' |]. split_and!; [apply (q_cfg _ _ Q) | apply (q_vt _ _ Q) |].
  exists (dirtied b e). split; [cbn; apply lookup_insert_eq | done].
Qed.
Lemma put_same k r A C a e : shows A C → a_ents A !! a = Some e → record_at e = Some (k, r) → c_recs (put_rec k r C) = c_recs C.
Proof. intros HS He Hre. cbn. apply insert_id. apply (sh_recs _ _ HS). by exists a, e. Qed.
Lemma marks_only a : marks None false a (ret tt).
Proof.
  intros s A C e G He Hd k Hk. exists s, A. split; [done |]. split; [|split_and!; [done | done | by exists e]]. eapply good_eq; [symmetry | | exact G]; [|done].
  apply (put_same k _ A C a e); [apply (g_shows _ _ _ _ _ G) | done |]. unfold record_at. by rewrite Hk, Hd.
Qed.
Lemma front_twice (k : key) (l : list key) : filter (λ x, x ≠ k) (k :: l) = filter (λ x, x ≠ k) l.
Proof. by rewrite filter_cons, decide_False by (intros Hx; by apply Hx). Qed.

Lemma finish_ok now ov b k C (m : Z → prog t Empty_set unit) : short k ov → (∀ a, marks ov b a (m a)) → ∀ s1 A, good hashf 0 s1 A C → zlen (_stModifyData s1) ≤ 1 →
  ∃ r s' gone C1, (let* x := find_or_allocate hashf k (zlen (content_of k ov)) in
      let '(ret_, (a, bNewBlock)) := x in
      if negb (ret_ =? RT_OK) then ret ret_ else
      let* ret_ := set_block a (content_of k ov) (bool_decide (ov = None)) in finish now a bNewBlock (m a) ret_) s1 = (Ok r, s') ∧ threw_out s1 k C gone s' C1 ∧
    (r = RT_NO_MEMORY ∧ refines hashf s' C1 ∧ full s1 k C1 ∨
     r = RT_OK ∧ refines hashf s' (fresh k (mk_record ov b (match c_recs C !! k with Some r0 => r_sync r0 | None => now end)) C1)).
Proof.
  intros Hs Hm s1 A G Hj. destruct (find_or_allocate_ok s1 A C k (zlen (content_of k ov)) G Hj) as (r & a & isnew & s2 & gone & C1 & E & Hto & H). rewrite (bind_Ok _ _ _ _ _ E).
  destruct H as [(-> & (A1 & G1) & Hf & _)|[(-> & -> & -> & -> & G2 & e & v & He & Hd & Hk)|(-> & -> & Hk & Hk1 & A1 & G2 & Hn)]]; cbn [negb Z.eqb RT_OK RT_NO_MEMORY].
  - exists RT_NO_MEMORY, s2, gone, C1. split; [done |]. split; [done |]. left. split; [done |]. split; [by eapply good_refines | done].
  - destruct (set_old a s2 A C e k ov v G2 He Hd Hs) as (r & s3 & gone & C1 & E3 & Hto3 & H). rewrite (bind_Ok _ _ _ _ _ E3). pose proof Hto as (_ & _ & Cf2).
    pose proof (threw_out_trans _ _ _ _ _ _ _ _ _ Hto Hto3) as Hto'. cbn [app] in Hto'.
    destruct H as [(-> & (A1 & G3) & Hf)|(-> & A' & e' & G3 & He' & Hd' & Hsy & Hdi)]; cbn [finish negb Z.eqb RT_OK RT_NO_MEMORY].
    + exists RT_NO_MEMORY, s3, gone, C1. split; [done |]. split; [done |]. left. split; [done |]. split; [by eapply good_refines | by eapply full_cfg].
    + destruct (Hm a s3 A' _ e' G3 He' Hdi k Hd') as (s4 & A4 & E4 & G4 & Cf4 & V4 & e4 & He4 & Hd4).
      destruct (refreshSet_good hashf s4 A4 _ a k G4 ltac:(by eapply key_at_decode)) as (s5 & A5 & E5 & G5 & Q5).
      exists RT_OK, s5, gone, C1. split; [unfold bind at 1, ret at 1; by rewrite (bind_Ok _ _ _ _ _ E4), (bind_Ok _ _ _ _ _ E5) |].
      split; [eapply threw_out_then; [exact Hto' | etrans; [exact Cf4 | apply (q_cfg _ _ Q5)] | rewrite (q_vt _ _ Q5); done] |]. right. split; [done |]. apply (good_refines _ _ A5). rewrite Hk. cbn [r_sync].
      eapply good_eq; [| |exact G5]; [cbn; by rewrite insert_insert_eq, Hsy | done].
  - destruct (set_new a s2 A1 C1 k ov G2 (Hn _) (Hn _) Hk1 Hs) as (r & s3 & g & C2 & A2 & E3 & Hto3 & H). rewrite (bind_Ok _ _ _ _ _ E3). pose proof Hto as (_ & _ & Cf2).
    pose proof (threw_out_trans _ _ _ _ _ _ _ _ _ Hto Hto3) as Hto'.
    destruct H as [(-> & G3 & He3 & Hf)|(-> & e' & G3 & He' & Hd' & Hdi)]; cbn [finish negb Z.eqb RT_OK RT_NO_MEMORY].
    + destruct G3 as [Hr3 HK3 HH3 HS3 Hc3 Hi3 Hec3]. destruct (erase_block_ok 0 [] s3 A2 a _ Hr3 Hc3 He3) as (s4 & E4 & Hr4 & Cf4 & S4 & J4 & V4 & _). destruct (cfg_hash _ _ Cf4) as (Eh4 & Ee4 & _).
      exists RT_NO_MEMORY, s4, (gone ++ g), C2. split; [by rewrite (bind_Ok _ _ _ _ _ E4) |]. split; [by eapply threw_out_then |]. left. split; [done |]. split; [|eapply full_cfg; [exact Cf2 | done]].
      exists (remove a A2). split_and!; [done | | rewrite Eh4; by apply hashed_remove | | by left | by rewrite Ee4].
      * intros x y Hx Hy. cbn in Hy. apply lookup_delete_Some in Hy as [Hxa Hy]. apply (HK3 x y); [congruence | done].
      * apply shows_drop; [done |]. by rewrite (key_at_entry _ _ _ He3).
    + destruct (store_sync_good hashf s3 A2 _ a e' k ov now G3 He' Hd') as (s4 & E4 & G4 & Cf4 & V4). set (e4 := mk_entry _ _ _ _ _ _) in G4.
      destruct (Hm a s4 _ _ e4 G4 ltac:(cbn; apply lookup_insert_eq) Hdi k Hd') as (s5 & A5 & E5 & G5 & Cf5 & V5 & e5 & He5 & Hd5).
      destruct (refreshSet_good hashf s5 A5 _ a k G5 ltac:(by eapply key_at_decode)) as (s6 & A6 & E6 & G6 & Q6).
      exists RT_OK, s6, (gone ++ g), C2. split; [by rewrite (bind_Ok _ _ _ _ _ E4), (bind_Ok _ _ _ _ _ E5), (bind_Ok _ _ _ _ _ E6) |].
      split; [eapply threw_out_then; [exact Hto' | etrans; [exact Cf4 | etrans; [exact Cf5 | apply (q_cfg _ _ Q6)]] | rewrite (q_vt _ _ Q6); congruence] |]. right. split; [done |]. apply (good_refines _ _ A6). rewrite Hk.
      eapply good_eq; [| |exact G6]; [cbn; by rewrite !insert_insert_eq |]. intros c. unfold fresh, touch, put_rec, without. cbn [c_order]. repeat case_decide; rewrite ?front_twice; try done. by destruct c.
Qed.
End set.
