(* ===== verification/HashMapSync.v ===== *)
(** What else uses the lists of a [HashMap]: writing back, backing up, and erasing until
    enough is free. *)
From stdpp Require Import prelude gmap list.
From Stdlib Require Import ZArith Lia.
From S2P Require Import Prelude Bytes MemChunkSpec HashMap HashMapLists HashMapRep HashMapBlocks HashMapErase HashMapOrder HashMapEvict HashMapNew HashMapFind HashMapCache HashMapRefine.
Import HashMap.HashMap.

Section sync.
Context {Al : Type} {AL : Allocator Al} {ALL : AllocatorLaws Al} (hashf : list Z → Z).
Abbreviation t := (t (Al := Al)).
Implicit Types (s : t) (A : abs) (C : cache).

(** *** Steps that leave the cache *)

(** Nothing changes but what the lists do not show. *)
Definition keeps s A C s' : Prop := good hashf 0 s' A C ∧ same_cfg s s' ∧ vtData s' = vtData s ∧ _stModifyData s' = _stModifyData s.
Definition tail_chain (f : field) : option chain := match f with HDirtyTail | HSyncTail => Some SetList | HBackupTail => Some GetList | _ => None end.
Lemma tail_store_good s A C f c v : good hashf 0 s A C → tail_chain f = Some c → v = 0 ∨ v ∈ a_order A c → ∃ s', store (0, f) v s = (Ok tt, s') ∧ keeps s A C s'.
Proof.
  intros [[Hl Hc Hp Hn] HK HH HS Hcn Hi He] Hf Hv. set (W := [((0, f), v)] : list (loc * Z)).
  assert (Hx : is_Some (mem s !! (0, f))).
  { pose proof (lo_dirty_tail _ _ _ Hl) as (x1 & E1 & _). pose proof (lo_sync_tail _ _ _ Hl) as (x2 & E2 & _). pose proof (lo_backup_tail _ _ _ Hl) as (x3 & E3 & _).
    destruct f; try done; rewrite ?E1, ?E2, ?E3; by eexists. }
  assert (OW : only (PHead f) W) by (destruct f; try done; by repeat constructor). rewrite hm_store_ok by done. eexists. split; [done |]. split; [|done].
  assert (T : ∀ g d, tail_chain g = Some d → tail_ok (mem s) g (a_order A d) → tail_ok (apply_writes W (mem s)) g (a_order A d)).
  { intros g d Hg Ht. destruct (decide (g = f)) as [->|Hne]; [rewrite Hf in Hg; injection Hg as ->; exists v; split; [apply lookup_insert_eq | done] |].
    destruct Ht as (x & Ex & Hx'). exists x. split; [|done]. cbn. rewrite lookup_insert_ne; [done | congruence]. }
  constructor; try done. constructor; try done.
  - change (lists_ok (apply_writes W (mem s)) (_hash_size s) A). pose proof Hl as []. apply (relist_memory _ _ A); try done; try (by destruct f); try (by apply T).
  - eapply chains_ok_ext; [| | done | done]; cbn; [intros x g Hg | ]; apply lookup_insert_ne; destruct f; try done; intros [= <- <-]; done.
Qed.

(** What waits in the journal is written. *)
Lemma doUpdate_good s A C : good hashf 0 s A C → ∃ s', doUpdate true s = (Ok tt, s') ∧ good hashf 0 s' A C ∧ quiet s s'.
Proof.
  intros G. pose proof G as [Hr _ _ _ Hcn _ _]. pose proof (r_lists _ _ _ _ Hr) as Hl. pose proof (counting_part _ Hcn) as HJ.
  pose proof (commit_ok s [] (counting_exist _ _ _ Hcn Hl) ltac:(constructor)) as E. rewrite push_nil in E. eexists. split; [exact E |]. set (W := _stModifyData s ++ []) in *.
  assert (HP : ∀ p, p ≠ PHead HGetCount → p ≠ PHead HHitCount → at_part p W = []) by (intros p ? ?; unfold W; rewrite app_nil_r; by apply HJ).
  assert (Q : quiet s (commit W s)) by (pose proof (commit_quiet s []) as Q; rewrite push_nil in Q; apply Q; by apply HP). split; [|done].
  apply (quiet_good hashf s _ A A C C G Q); [| apply (g_keyed _ _ _ _ _ G) | apply (g_hashed _ _ _ _ _ G) | apply (g_shows _ _ _ _ _ G)].
  pose proof (commit_rep 0 [] s A A []) as R. rewrite push_nil in R. apply R; try done; try (by apply HP). fold W. pose proof Hl as [].
  apply (relist_memory _ _ A); try done; try (by apply HP); try (apply tail_same; [done | by apply HP | done]).
  intros c. rewrite HP by done. apply lo_dll.
Qed.

(** The block at the front of what is to be written. *)
Lemma tail_load s A C f c : good hashf 0 s A C → tail_chain f = Some c → ∃ v, head_ f s = (Ok v, s) ∧ (v = 0 ∨ v ∈ a_order A c).
Proof.
  intros G Hf. pose proof (r_lists _ _ _ _ (g_rep _ _ _ _ _ G)) as []. destruct f; try done; injection Hf as <-; unfold head_;
    [destruct lo_dirty_tail as (v & Ev & Hv) | destruct lo_sync_tail as (v & Ev & Hv) | destruct lo_backup_tail as (v & Ev & Hv)]; exists v; by rewrite (load_ok _ _ _ Ev).
Qed.
Lemma prev_load s A C c a : good hashf 0 s A C → a ∈ a_order A c → load (a, BPrev c) s = (Ok (prv (a_order A c) a), s) ∧ (prv (a_order A c) a = 0 ∨ prv (a_order A c) a ∈ a_order A c).
Proof.
  intros G Ha. pose proof (r_lists _ _ _ _ (g_rep _ _ _ _ _ G)) as Hl. pose proof (lo_dll _ _ _ Hl c) as D. split; [apply load_ok; by apply (dll_prev _ _ _ D) |].
  pose proof (lo_nodup _ _ _ Hl c) as Hnd. destruct (list_elem_of_split _ _ Ha) as (l & l' & E). rewrite E in *. apply NoDup_app in Hnd as (_ & _ & [Hno _]%NoDup_cons).
  rewrite prv_mid by done. destruct (lst_in l) as [?|Hin]; [by left |]. right. apply elem_of_app. by left.
Qed.
Lemma dirty_tail_back_good s A C a : good hashf 0 s A C → a ∈ a_order A SetList → ∃ s', dirty_tail_back a s = (Ok tt, s') ∧ keeps s A C s'.
Proof.
  intros G Ha. destruct (tail_load s A C HDirtyTail SetList G eq_refl) as (v & Ev & Hv). unfold dirty_tail_back. rewrite (bind_Ok _ _ _ _ _ Ev).
  destruct (v =? a); [|by exists s]. destruct (prev_load s A C SetList a G Ha) as [Ep Hp]. rewrite (bind_Ok _ _ _ _ _ Ep).
  by apply (tail_store_good s A C HDirtyTail SetList).
Qed.

(** *** The last block of the get list moves to its front *)

Definition writes_back (l : list Z) (a : Z) : list (loc * Z) :=
  [((0, HTail GetList), lst l); ((lst l, BNext GetList), 0); ((a, BPrev GetList), 0); ((a, BNext GetList), hd0 l); ((hd0 l, BPrev GetList), a); ((0, HHead GetList), a)].
(** The part of [erase] that does it. *)
Definition back_to_front (h a : Z) (r : Z * BlockData) : prog t Empty_set (Z * BlockData) :=
  let* b := head_ HBackupTail in
  (if b =? a then let* p := load (a, BPrev GetList) in update (0, HBackupTail) p else ret tt) ;;;
  let* p := load (a, BPrev GetList) in
  update (0, HTail GetList) p ;;; update (p, BNext GetList) 0 ;;; update (a, BPrev GetList) 0 ;;;
  update (a, BNext GetList) h ;;; update (h, BPrev GetList) a ;;; update (0, HHead GetList) a ;;;
  doUpdate true ;;; ret r.
Lemma apply_writes_perm (W W' : list (loc * Z)) m : NoDup W.*1 → W ≡ₚ W' → apply_writes W m = apply_writes W' m.
Proof.
  intros Hnd HP. revert m Hnd. induction HP as [|w W W' _ IH|w w' W|W W' W'' HP1 IH1 _ IH2]; intros m Hnd; [done | | |].
  - cbn in Hnd. apply NoDup_cons in Hnd as [_ Hnd]. cbn. by apply IH.
  - cbn in *. apply NoDup_cons in Hnd as [Hne _]. rewrite insert_insert_ne; [done |]. intros E. apply Hne. rewrite E. left.
  - rewrite IH1 by done. apply IH2. by rewrite <- HP1.
Qed.
Lemma writes_back_front m l a : l ≠ [] → NoDup (l ++ [a]) → 0 ∉ l ++ [a] → apply_writes (writes_back l a) m = apply_writes (writes_front GetList l a []) m.
Proof.
  intros Hne Hnd H0. destruct (mid_not l a [] Hnd H0) as (Ha & _ & Ha0 & Hl0 & _).
  assert (Hh : hd0 l ∈ l) by (destruct l; [done | left]). assert (Hll : lst l ∈ l) by (destruct (lst_in l) as [E|?]; [by apply lst_zero in E; [|intros ?; apply H0, elem_of_app; left] | done]).
  apply apply_writes_perm.
  - cbn. do 5 (apply NoDup_cons; split; [rewrite ?not_elem_of_cons; split_and!; try apply not_elem_of_nil; intros [=]; congruence |]). apply NoDup_singleton.
  - unfold writes_back, writes_front. change (hd0 []) with 0. cbn [app].
    set (w1 := ((0, HTail GetList), lst l)). set (w2 := ((lst l, BNext GetList), 0)). set (w3 := ((a, BPrev GetList), 0)). set (w4 := ((a, BNext GetList), hd0 l)). set (w5 := ((hd0 l, BPrev GetList), a)). set (w6 := ((0, HHead GetList), a)).
    change ([w1; w2; w3; w4; w5; w6] ≡ₚ [w4; w5; w6; w3; w2; w1]). solve_Permutation.
Qed.
Lemma back_to_front_ok s A C l a k r : good hashf 0 s A C → a_order A GetList = l ++ [a] → l ≠ [] → key_at A a = Some k →
  ∃ s', back_to_front (hd0 l) a r s = (Ok r, s') ∧ good hashf 0 s' (to_front GetList a A) (touch GetList k C) ∧ quiet s s'.
Proof.
  intros G E Hne Hk. pose proof G as [Hr _ _ _ Hcnt _ _]. pose proof Hr as [Hl _ _ _]. pose proof (lo_nodup _ _ _ Hl GetList) as Hnd. pose proof (order_nonzero _ _ _ _ GetList Hr) as H0. pose proof (lo_dll _ _ _ Hl GetList) as D.
  rewrite E in Hnd, H0, D. assert (Hin : a ∈ a_order A GetList) by (rewrite E; apply elem_of_app; right; left).
  destruct (front_around GetList l a [] Hnd H0 Hne s D) as (Eh & Et & _ & Ep & En & Hha & _ & Hl0). pose proof D as [_ _ Dn Dp].
  assert (Hh : hd0 l ∈ l) by (destruct l; [done | left]). assert (Hll : lst l ∈ l) by (destruct (lst_in l); done).
  unfold back_to_front. destruct (lo_backup_tail _ _ _ Hl) as (v & Ev & Hv). rewrite (bind_Ok _ _ _ _ _ (load_ok _ _ _ Ev)). assert (R : room 10 s) by (destruct Hcnt; unfold room; lia).
  assert (F1 : (if v =? a then let* p := load (a, BPrev GetList) in update (0, HBackupTail) p else ret tt) s = (Ok tt, push (writes_tail l a HBackupTail v) s) ∧ exist (mem s) (writes_tail l a HBackupTail v) ∧ zlen (writes_tail l a HBackupTail v) ≤ 1).
  { unfold writes_tail. destruct (v =? a); [|rewrite push_nil; split_and!; [done | constructor | cbn; lia]]. rewrite (bind_Ok _ _ _ _ _ (load_ok _ _ _ Ep)).
    split_and!; [apply hm_update_ok; unfold room in *; lia | | cbn; lia]. apply Forall_singleton. cbn. rewrite Ev. by eexists. }
  destruct F1 as (F1 & X1 & L1). set (Wb := writes_tail l a HBackupTail v) in *. rewrite (bind_Ok _ _ _ _ _ F1), (bind_Ok _ _ _ _ _ (load_ok (a, BPrev GetList) _ (push Wb s) Ep)).
  do 6 (let W := journal in erewrite (then_push (update _ _) _ W) by (apply hm_update_ok; room)). rewrite <- !app_assoc. cbn [app]. change (_ :: _ :: _ :: _ :: _ :: [_]) with (writes_back l a).
  assert (X2 : exist (mem s) (writes_back l a)).
  { repeat apply Forall_cons_2; try apply Forall_nil_2; cbn; [done | rewrite (Dn (lst l)) by (apply elem_of_app; by left) | rewrite Ep | rewrite En | rewrite (Dp (hd0 l)) by (apply elem_of_app; by left) | rewrite Eh]; by eexists. }
  set (Wf := writes_back l a) in *. rewrite (bind_Ok _ _ _ _ _ (commit_ok s (Wb ++ Wf) (counting_exist _ _ _ Hcnt Hl) (exist_app _ _ _ X1 X2))).
  assert (OWb : only (PHead HBackupTail) Wb) by by apply writes_tail_only. assert (OWf : only (PList GetList) Wf) by (by repeat constructor). pose proof (counting_part _ Hcnt) as HJ.
  set (W := _stModifyData s ++ Wb ++ Wf). assert (EC : at_part PChunk W = []) by (unfold W; by parts). assert (EU : at_part (PHead HUsedChunk) W = []) by (unfold W; by parts).
  assert (Q : quiet s (commit W (push (Wb ++ Wf) s))) by by apply commit_quiet.
  eexists. split; [done |]. split; [|done]. apply (quiet_good hashf s _ A _ C _ G Q); [| apply (g_keyed _ _ _ _ _ G) | apply (g_hashed _ _ _ _ _ G) | apply shows_front; [apply (g_shows _ _ _ _ _ G) | done | done]].
  apply (commit_rep 0 [] s A); [done | | done | done | done].
  change (lists_ok (apply_writes W (mem s)) (_hash_size s) (to_front GetList a A)). apply (relist_memory _ _ A); try done; try (unfold W; by parts).
  - intros c. apply to_front_perm; [|apply (lo_nodup _ _ _ Hl)]. apply (lo_dom _ _ _ Hl), (lo_dom _ _ _ Hl GetList). done.
  - intros c. destruct (decide (c = GetList)) as [->|Hc].
    + replace (at_part (PList GetList) W) with Wf by (unfold W; by parts). unfold Wf. rewrite writes_back_front by done. rewrite to_front_order, E, front_split by done. rewrite app_nil_r.
      pose proof (dll_front GetList (mem s) l a [] Hne Hnd H0 D) as D'. by rewrite app_nil_r in D'.
    + rewrite to_front_other by done. replace (at_part (PList c) W) with ([] : list (loc * Z)); [apply (lo_dll _ _ _ Hl) |]. destruct c; [unfold W; symmetry; by parts | done].
  - apply tail_same; [done | unfold W; by parts | apply (lo_dirty_tail _ _ _ Hl)].
  - apply tail_same; [done | unfold W; by parts | apply (lo_sync_tail _ _ _ Hl)].
  - unfold tail_ok. rewrite (apply_part W (PHead HBackupTail)) by done. replace (at_part (PHead HBackupTail) W) with Wb by (unfold W; by parts).
    rewrite E in Hv. destruct (tail_after l a [] Hnd H0 (mem s) HBackupTail v Ev Hv) as (v' & Ev' & Hv'). exists v'. split; [done |]. rewrite E. rewrite elem_of_app, elem_of_cons in *. tauto.
Qed.
End sync.
