(* ===== verification/HashMapOps.v ===== *)
(** Every operation of a [HashMap] is a step of its cache. *)
From stdpp Require Import prelude gmap list.
From Stdlib Require Import ZArith Lia.
From S2P Require Import Prelude Bytes MemChunkSpec HashMap HashMapLists HashMapRep HashMapBlocks HashMapErase HashMapOrder HashMapEvict HashMapNew HashMapData HashMapWrite HashMapStore HashMapFind HashMapCache HashMapSpec HashMapRefine HashMapSet HashMapSync.
Import HashMap.HashMap.

Lemma decode_only e k v : decode e = Some (k, v) → e_only e = bool_decide (v = None).
Proof.
  unfold decode. destruct (Pack.unpack _) as [[k' rest]|]; [|done]. destruct (e_only e); [by intros [= <- <-]; rewrite bool_decide_eq_true_2 |].
  destruct (Pack.unpack rest) as [[w ?]|]; [|done]. cbn. intros [= <- <-]. by rewrite bool_decide_eq_false_2.
Qed.
Lemma record_of_shown e k v data : decode e = Some (k, v) → record_of e data = shown k (mk_record v (e_dirty e) (e_sync e)) data.
Proof.
  unfold decode, record_of, shown. destruct (Pack.unpack _) as [[k' rest]|]; [|done]. destruct (e_only e); [by intros [= <- <-] |].
  destruct (Pack.unpack rest) as [[w ?]|]; [|done]. cbn. by intros [= <- <-].
Qed.

Section ops.
Context {Al : Type} {AL : Allocator Al} {ALL : AllocatorLaws Al} (hashf : list Z → Z).
Abbreviation t := (t (Al := Al)).
Implicit Types (s : t) (A : abs) (C : cache).

Definition conf s : config := mk_config (_bReadOnly s) (_bAutoErase s) (order_of s) (_iSyncTime s).
Lemma conf_cfg s s' : same_cfg s s' → conf s' = conf s.
Proof. intros (_ & _ & E1 & E2 & E3 & _ & E4). unfold conf, order_of. by rewrite E1, E2, E3, E4. Qed.
(** [m] is the step [o] from [C], [f] of what it yields the answer. *)
Definition does {B} s C (m : prog t Empty_set B) (f : B → answer) (o : op) : Prop :=
  ∃ b gone C' s', m s = (Ok b, s') ∧ step (conf s) C o (f b) gone C' ∧ refines hashf s' C' ∧ same_cfg s s' ∧ vtData s' = vtData s ++ given gone.
Lemma does_still {B} s C (m : prog t Empty_set B) f o b A' C' s' :
  m s = (Ok b, s') → good hashf 0 s' A' C' → same_cfg s s' → vtData s' = vtData s → step (conf s) C o (f b) [] C' → does s C m f o.
Proof. intros E G Cf V H. exists b, [], C', s'. split_and!; try done; [by eapply good_refines | by rewrite app_nil_r]. Qed.
Lemma does_run {B} s C (m : prog t Empty_set B) f o : does s C m f o → run_op hashf o = (let* b := m in ret (f b)) → does s C (run_op hashf o) id o.
Proof. intros (b & gone & C' & s' & E & H) ->. exists (f b), gone, C', s'. split; [by rewrite (bind_Ok _ _ _ _ _ E) | done]. Qed.

(** *** Searches *)

Lemma only_load s A C a e k v : good hashf 0 s A C → a_ents A !! a = Some e → decode e = Some (k, v) → test (a, BOnlyKey) s = (Ok (bool_decide (v = None)), s).
Proof. intros G He Hd. rewrite <- (decode_only _ _ _ Hd). apply test_ok. apply (en_only _ _ _ (lo_ent _ _ _ (r_lists _ _ _ _ (g_rep _ _ _ _ _ G)) a e He)). Qed.
Lemma dirty_load s A C a e : good hashf 0 s A C → a_ents A !! a = Some e → test (a, BDirty) s = (Ok (e_dirty e), s).
Proof. intros G He. apply test_ok. apply (en_dirty _ _ _ (lo_ent _ _ _ (r_lists _ _ _ _ (g_rep _ _ _ _ _ G)) a e He)). Qed.
Lemma data_load s A C a e k v data : good hashf 0 s A C → a_ents A !! a = Some e → decode e = Some (k, v) →
  getBlockData a data s = (Ok (shown k (mk_record v (e_dirty e) (e_sync e)) data), s).
Proof.
  intros G He Hd. rewrite <- (record_of_shown e k v data Hd). apply (getBlockData_ok 0 [] s A); [apply (g_rep _ _ _ _ _ G) | done |].
  pose proof (entry_pos 0 [] s A a (g_rep _ _ _ _ _ G) ltac:(by eexists)). lia.
Qed.
Lemma get_ok s C k v iSyncTime : refines hashf s C → does s C (get hashf k v iSyncTime) (λ r, Value r.1.1 r.1.2 r.2) (Get k v iSyncTime).
Proof.
  intros H. unfold get. set (K := (let* index := hashIndex hashf k in _)). destruct (start_ok hashf s C K H) as (A & s1 & E & G & Cf & V & J).
  destruct (find_kv_ok hashf s1 A C k v G J) as (v' & r & Ef & Hr & Hfound). pose proof (found_good hashf (block_of hashf s1 A k) s1 A C G J) as G2.
  pose proof (found_same (block_of hashf s1 A k) s1) as [Cf2 V2]. set (s2 := found _ s1) in *. assert (Cf' : same_cfg s s2) by by etrans.
  assert (EK : ∀ b s', (if block_of hashf s1 A k =? 0 then ret (RT_NO_DATA, v', iSyncTime) else
      let* only := test (block_of hashf s1 A k, BOnlyKey) in if only then ret (RT_ONLY_KEY, v', iSyncTime) else
      let* iSyncTime := load (block_of hashf s1 A k, BSyncTime) in let* s := get_st in
      (if negb (_bReadOnly s) then refreshGetList (block_of hashf s1 A k) else ret tt) ;;; ret (RT_OK, v', iSyncTime)) s2 = (Ok b, s') → (doUpdate false ;;; incGetCount ;;; K) s = (Ok b, s')).
  { intros b s' Eb. rewrite E. unfold K. rewrite (bind_Ok _ _ _ _ _ (hashIndex_ok hashf s1 A C k G)), (bind_Ok _ _ _ _ _ Ef). destruct Hr as [-> | ->]; cbn [Z.eqb RT_OK RT_ONLY_KEY negb andb]; done. }
  destruct (block_spec hashf s1 A C k G) as [(Ea & Hk & _)|(Ea & e & w & He & Hd & Hka & Hk)].
  - eapply (does_still s C _ _ _ _ A C s2); [apply EK; by rewrite Ea | done | done | congruence | by apply st_get_none].
  - destruct (Hfound e w He Hd) as [-> ->]. rewrite (proj2 (Z.eqb_neq _ _) Ea) in EK. rewrite (bind_Ok _ _ _ _ _ (only_load s2 A C _ e k w G2 He Hd)) in EK. destruct w as [w|].
    2: { eapply (does_still s C _ _ _ _ A C s2); [by apply EK | done | done | congruence | by eapply st_get_only]. }
    rewrite bool_decide_eq_false_2 in EK by done. rewrite (bind_Ok _ _ _ _ _ (load_ok _ _ _ (en_sync _ _ _ (lo_ent _ _ _ (r_lists _ _ _ _ (g_rep _ _ _ _ _ G2)) _ e He)))) in EK.
    unfold bind at 1, get_st in EK. destruct (cfg_hash _ _ Cf') as (_ & _ & _ & Ero). pose proof (st_get (conf s) C k v iSyncTime w (e_dirty e) (e_sync e) Hk) as Hst. cbn [cf_read_only conf] in Hst. rewrite <- Ero in Hst.
    destruct (_bReadOnly s2) eqn:Er; cbn [negb] in EK.
    + eapply (does_still s C _ _ _ _ A C s2); [by apply EK | done | done | congruence | done].
    + destruct (refreshGet_good hashf s2 A C _ k G2 Hka) as (s3 & A3 & E3 & G3 & Q). rewrite (bind_Ok _ _ _ _ _ E3) in EK.
      eapply (does_still s C _ _ _ _ A3 _ s3); [by apply EK | done | etrans; [done | apply (q_cfg _ _ Q)] | rewrite (q_vt _ _ Q); congruence | done].
Qed.

Lemma checkDirty_ok s C k : refines hashf s C → does s C (checkDirty hashf k) Code (CheckDirty k).
Proof.
  intros H. unfold checkDirty. set (K := (let* index := hashIndex hashf k in _)). destruct (start_ok hashf s C K H) as (A & s1 & E & G & Cf & V & J).
  pose proof (find_k_ok hashf s1 A C k G J) as Ef. pose proof (found_good hashf (block_of hashf s1 A k) s1 A C G J) as G2.
  pose proof (found_same (block_of hashf s1 A k) s1) as [Cf2 V2]. set (s2 := found _ s1) in *. assert (Cf' : same_cfg s s2) by by etrans.
  pose proof (st_check (conf s) C k) as Hst. assert (EK : K s1 = (Ok (match c_recs C !! k with Some (mk_record (Some _) d _) => if d then RT_DIRTY_DATA else RT_OK | Some (mk_record None _ _) => RT_ONLY_KEY | None => RT_NO_DATA end), s2)).
  { unfold K. rewrite (bind_Ok _ _ _ _ _ (hashIndex_ok hashf s1 A C k G)), (bind_Ok _ _ _ _ _ Ef). cbn [fst snd negb Z.eqb RT_OK].
    destruct (block_spec hashf s1 A C k G) as [(Ea & -> & _)|(Ea & e & w & He & Hd & _ & ->)]; [by rewrite Ea |]. rewrite (proj2 (Z.eqb_neq _ _) Ea).
    rewrite (bind_Ok _ _ _ _ _ (only_load s2 A C _ e k w G2 He Hd)). destruct w as [w|]; [|done]. rewrite bool_decide_eq_false_2 by done. by rewrite (bind_Ok _ _ _ _ _ (dirty_load s2 A C _ e G2 He)). }
  rewrite EK in E. by eapply (does_still s C _ _ _ _ A C s2); [exact E | done | done | congruence |].
Qed.

(** *** Changes *)

Lemma put_ok s C now k ov b (m : Z → prog t Empty_set unit) (f : prog t Empty_set Z) : refines hashf s C → short k ov → (∀ a, marks hashf ov (match ov with Some _ => b | None => false end) a (m a)) →
  f = (doUpdate false ;;; incGetCount ;;;
    let* s := get_st in if _bReadOnly s then ret RT_READONLY else
    let* x := find_or_allocate hashf k (zlen (content_of k ov)) in
      let '(ret_, (a, bNewBlock)) := x in
      if negb (ret_ =? RT_OK) then ret ret_ else
      let* ret_ := set_block a (content_of k ov) (bool_decide (ov = None)) in finish now a bNewBlock (m a) ret_) → does s C f Code (Put now k ov b).
Proof.
  intros H Hs Hm ->. match goal with |- context [incGetCount ;;; ?k] => set (K := k) end. destruct (start_ok hashf s C K H) as (A & s1 & E & G & Cf & V & J).
  destruct (cfg_hash _ _ Cf) as (_ & _ & _ & Ero). destruct (_bReadOnly s) eqn:Er.
  { eapply (does_still s C _ _ _ RT_READONLY A C s1); [rewrite E; unfold K, bind at 1, get_st; by rewrite Ero | done | done | done |]. apply st_read_only_code; [left; eauto | done]. }
  destruct (finish_ok hashf now ov _ k C m Hs Hm s1 A G J) as (r & s' & gone & C1 & EK & (Hth & Hv & Cf1) & Hr).
  assert (E' : K s1 = (Ok r, s')) by (unfold K; unfold bind at 1, get_st; rewrite Ero; exact EK).
  rewrite (auto_of_cfg _ _ Cf), (order_of_cfg _ _ Cf) in Hth. assert (Cf' : same_cfg s s') by by etrans.
  destruct Hr as [(-> & Hr & Hf)|(-> & Hr)].
  - exists RT_NO_MEMORY, gone, C1, s'. split; [by rewrite E |]. split; [|split_and!; [done | done | congruence]]. apply st_put_full; [done | done |]. apply (full_cfg s s1); done.
  - exists RT_OK, gone, (fresh k (mk_record ov (match ov with Some _ => b | None => false end) (match c_recs C !! k with Some r0 => r_sync r0 | None => now end)) C1), s'.
    split; [by rewrite E |]. split; [by apply st_put | split_and!; [done | done | congruence]].
Qed.
Lemma set_ok s C now k v b : refines hashf s C → short k (Some v) → does s C (set hashf now k v b) Code (Put now k (Some v) b).
Proof. intros H Hs. by apply (put_ok s C now k (Some v) b (λ a, setDirty_block a b)); [| | intros a; apply marks_dirty |]. Qed.
Lemma set_only_ok s C now k b : refines hashf s C → short k None → does s C (set_only hashf now k) Code (Put now k None b).
Proof. intros H Hs. by apply (put_ok s C now k None b (λ _, ret tt)); [| | intros a; apply marks_only |]. Qed.

Lemma del_ok s C k data : refines hashf s C → does s C (del hashf k data) (λ r, Data r.1 r.2) (Del k data).
Proof.
  intros H. unfold del. set (K := (let* s := get_st in _)). destruct (start_ok hashf s C K H) as (A & s1 & E & G & Cf & V & J).
  destruct (cfg_hash _ _ Cf) as (_ & _ & _ & Ero). destruct (_bReadOnly s) eqn:Er.
  { eapply (does_still s C _ _ _ (RT_READONLY, data) A C s1); [rewrite E; unfold K, bind at 1, get_st; by rewrite Ero | done | done | done |]. apply st_read_only_data; [left; by exists k | done]. }
  destruct (find_kv_ok hashf s1 A C k (_value data) G J) as (v' & r & Ef & Hr & Hfound). pose proof (found_good hashf (block_of hashf s1 A k) s1 A C G J) as G2.
  pose proof (found_same (block_of hashf s1 A k) s1) as [Cf2 V2]. set (s2 := found _ s1) in *. assert (Cf' : same_cfg s s2) by by etrans. set (data' := mk_data k v' (_dirty data) (_synct data)).
  assert (EK : K s1 = (if block_of hashf s1 A k =? 0 then ret (RT_NO_DATA, data') else
      let* r := getBlockData (block_of hashf s1 A k) data' in erase_block (block_of hashf s1 A k) ;;; ret r) s2).
  { unfold K. unfold bind at 1, get_st. rewrite Ero, (bind_Ok _ _ _ _ _ (hashIndex_ok hashf s1 A C k G)), (bind_Ok _ _ _ _ _ Ef). by destruct Hr as [-> | ->]. }
  rewrite EK in E. destruct (block_spec hashf s1 A C k G) as [(Ea & Hk & _)|(Ea & e & w & He & Hd & Hka & Hk)].
  - rewrite Ea in E. eapply (does_still s C _ _ _ _ A C s2); [exact E | done | done | congruence | by apply st_del_none].
  - rewrite (proj2 (Z.eqb_neq _ _) Ea), (bind_Ok _ _ _ _ _ (data_load s2 A C _ e k w data' G2 He Hd)) in E. destruct (Hfound e w He Hd) as [Ev _].
    destruct (erase_good hashf 0 s2 A C _ e k w G2 He Hd) as (s3 & E3 & G3 & Cf3 & V3). rewrite (bind_Ok _ _ _ _ _ E3) in E.
    eapply (does_still s C _ _ _ _ _ _ s3); [exact E | exact G3 | by etrans | congruence |]. pose proof (st_del (conf s) C k data _ Er Hk) as Hst. unfold shown. cbn [r_value r_dirty r_sync _value data'] in *. subst v'. by destruct w.
Qed.

(** What is done to the block of a key that has a value. *)
Definition on_value s C k (m : Z → prog t Empty_set unit) o : Prop := ∀ s1 A a e w, good hashf 0 s1 A C → a_ents A !! a = Some e → decode e = Some (k, Some w) →
  ∃ A' C' s', m a s1 = (Ok tt, s') ∧ good hashf 0 s' A' C' ∧ same_cfg s1 s' ∧ vtData s' = vtData s1 ∧
    (_bReadOnly s = false → c_recs C !! k = Some (mk_record (Some w) (e_dirty e) (e_sync e)) → step (conf s) C o (Code RT_OK) [] C').
Lemma with_value_ok s C k m o : refines hashf s C → (∃ b, o = Mark k b) ∨ o = MarkAfterSync k → on_value s C k m o → does s C (with_value hashf k m) Code o.
Proof.
  intros H Ho Hm. destruct (begin_ok hashf s C H) as (A & E0 & G0 & Cf0 & V0 & J0). set (s0 := begun s) in *. destruct (cfg_hash _ _ Cf0) as (_ & _ & _ & Ero).
  unfold with_value. destruct (_bReadOnly s) eqn:Er.
  { eapply (does_still s C _ _ _ RT_READONLY A C s0); [rewrite (bind_Ok _ _ _ _ _ E0); unfold bind at 1, get_st; by rewrite Ero | done | done | done |]. apply st_read_only_code; [right | done]. destruct Ho as [[b ->] | ->]; eauto. }
  pose proof (incGetCount_ok hashf s0 A C G0 J0) as E1. pose proof (got_good hashf s0 A C G0 J0) as G. set (s1 := got s0) in *. assert (J : zlen (_stModifyData s1) ≤ 1) by (cbn; lia).
  pose proof (find_k_ok hashf s1 A C k G J) as Ef. pose proof (found_good hashf (block_of hashf s1 A k) s1 A C G J) as G2.
  pose proof (found_same (block_of hashf s1 A k) s1) as [Cf2 V2]. set (s2 := found _ s1) in *. assert (Cf' : same_cfg s s2) by (etrans; [|exact Cf2]; exact Cf0). assert (V' : vtData s2 = vtData s) by (rewrite V2; exact V0).
  set (a := block_of hashf s1 A k) in *. assert (EK : with_value hashf k m s = (if a =? 0 then ret RT_NO_DATA else let* only := test (a, BOnlyKey) in if only then ret RT_ONLY_KEY else m a ;;; ret RT_OK) s2).
  { unfold with_value. rewrite (bind_Ok _ _ _ _ _ E0). unfold bind at 1, get_st. rewrite Ero, (bind_Ok _ _ _ _ _ E1), (bind_Ok _ _ _ _ _ (hashIndex_ok hashf s1 A C k G)), (bind_Ok _ _ _ _ _ Ef). done. }
  fold (with_value hashf k m). destruct (block_spec hashf s1 A C k G) as [(Ea & Hk & _)|(Ea & e & w & He & Hd & _ & Hk)]; fold a in Ea.
  - rewrite Ea in EK. eapply (does_still s C _ _ _ _ A C s2); [exact EK | done | done | done |]. apply (st_mark_no _ _ _ k); [done | done |]. by rewrite Hk.
  - fold a in He. rewrite (proj2 (Z.eqb_neq _ _) Ea), (bind_Ok _ _ _ _ _ (only_load s2 A C _ e k w G2 He Hd)) in EK. destruct w as [w|].
    2: { eapply (does_still s C _ _ _ _ A C s2); [exact EK | done | done | done |]. apply (st_mark_no _ _ _ k); [done | done |]. by rewrite Hk. }
    rewrite bool_decide_eq_false_2 in EK by done. destruct (Hm s2 A a e w G2 He Hd) as (A' & C' & s' & E3 & G3 & Cf3 & V3 & Hst). rewrite (bind_Ok _ _ _ _ _ E3) in EK.
    eapply (does_still s C _ _ _ _ A' C' s'); [exact EK | done | by etrans | congruence | by apply Hst].
Qed.
Lemma mark_refresh s C k b s1 A a e w : good hashf 0 s1 A C → a_ents A !! a = Some e → decode e = Some (k, Some w) →
  ∃ A' s2 s', setDirty_block a b s1 = (Ok tt, s2) ∧ refreshSetList a s2 = (Ok tt, s') ∧ good hashf 0 s' A' (fresh k (mk_record (Some w) b (e_sync e)) C) ∧ same_cfg s1 s' ∧ vtData s' = vtData s1 ∧
    (_bReadOnly s = false → c_recs C !! k = Some (mk_record (Some w) (e_dirty e) (e_sync e)) → step (conf s) C (Mark k b) (Code RT_OK) [] (fresh k (mk_record (Some w) b (e_sync e)) C)).
Proof.
  intros G He Hd. destruct (setDirty_good hashf s1 A C a e k _ b G He Hd) as (s2 & E2 & G2 & Q2).
  destruct (refreshSet_good hashf s2 _ _ a k G2) as (s3 & A3 & E3 & G3 & Q3); [apply (key_at_decode _ _ (dirtied b e) k (Some w)); [cbn; apply lookup_insert_eq | done] |].
  exists A3, s2, s3. split_and!; [exact E2 | exact E3 | exact G3 | etrans; [apply (q_cfg _ _ Q2) | apply (q_cfg _ _ Q3)] | by rewrite (q_vt _ _ Q3), (q_vt _ _ Q2) |].
  intros Er Hk. by eapply st_mark.
Qed.
Lemma setDirty_ok s C k : refines hashf s C → does s C (setDirty hashf k) Code (Mark k true).
Proof.
  intros H. apply with_value_ok; [done | left; by exists true |]. intros s1 A a e w G He Hd. destruct (mark_refresh s C k true s1 A a e w G He Hd) as (A' & s2 & s' & E2 & E3 & Hm).
  exists A', (fresh k (mk_record (Some w) true (e_sync e)) C), s'. by rewrite (bind_Ok _ _ _ _ _ E2).
Qed.
Lemma setClean_ok s C k : refines hashf s C → does s C (setClean hashf k) Code (Mark k false).
Proof.
  intros H. apply with_value_ok; [done | left; by exists false |]. intros s1 A a e w G He Hd. destruct (mark_refresh s C k false s1 A a e w G He Hd) as (A' & s3 & s' & E & E' & G' & Cf & V & Hst).
  destruct (doUpdate_good hashf s' A' _ G') as (s2 & E2 & G2 & Q). exists A', (fresh k (mk_record (Some w) false (e_sync e)) C), s2.
  split; [|split_and!; [exact G2 | etrans; [exact Cf | apply (q_cfg _ _ Q)] | by rewrite (q_vt _ _ Q) | done]].
  by rewrite (bind_Ok _ _ _ _ _ E), (bind_Ok _ _ _ _ _ E').
Qed.
Lemma setDirtyAfterSync_ok s C k : refines hashf s C → does s C (setDirtyAfterSync hashf k) Code (MarkAfterSync k).
Proof.
  intros H. apply with_value_ok; [done | by right |]. intros s1 A a e w G He Hd. destruct (setDirty_good hashf s1 A C a e k _ true G He Hd) as (s2 & E2 & G2 & Q2). rewrite (bind_Ok _ _ _ _ _ E2).
  assert (Ha : a ∈ a_order (set_entry a (dirtied true e) A) SetList) by (apply (lo_dom _ _ _ (r_lists _ _ _ _ (g_rep _ _ _ _ _ G))); by eexists).
  destruct (tail_load hashf s2 _ _ HDirtyTail SetList G2 eq_refl) as (v & Ev & _). rewrite (bind_Ok _ _ _ _ _ Ev). destruct (prev_load hashf s2 _ _ SetList a G2 Ha) as [Ep _]. rewrite (bind_Ok _ _ _ _ _ Ep).
  assert (Hst : _bReadOnly s = false → c_recs C !! k = Some (mk_record (Some w) (e_dirty e) (e_sync e)) → step (conf s) C (MarkAfterSync k) (Code RT_OK) [] (put_rec k (mk_record (Some w) true (e_sync e)) C)) by (intros; by eapply st_mark_after).
  destruct (v =? _).
  - destruct (tail_store_good hashf s2 _ _ HDirtyTail SetList a G2 eq_refl (or_intror Ha)) as (s3 & E3 & G3 & Cf3 & V3 & _). eexists _, _, s3. split; [exact E3 |]. split; [exact G3 |].
    split_and!; [etrans; [apply (q_cfg _ _ Q2) | done] | by rewrite V3, (q_vt _ _ Q2) | done].
  - eexists _, _, s2. split; [done |]. split; [exact G2 |]. split_and!; [apply (q_cfg _ _ Q2) | apply (q_vt _ _ Q2) | done].
Qed.

(** *** Writing back and backing up *)

Lemma order_entry s A C c a : good hashf 0 s A C → a ∈ a_order A c → ∃ e k v, a_ents A !! a = Some e ∧ decode e = Some (k, v) ∧ a ≠ 0 ∧ (∀ c', a ∈ a_order A c') ∧
  c_recs C !! k = Some (mk_record v (e_dirty e) (e_sync e)).
Proof.
  intros G Ha. pose proof (g_rep _ _ _ _ _ G) as Hr. pose proof (r_lists _ _ _ _ Hr) as Hl. apply (lo_dom _ _ _ Hl) in Ha as [e He]. pose proof (entry_pos 0 [] s A a Hr ltac:(by eexists)).
  destruct (g_keyed _ _ _ _ _ G a e ltac:(lia) He) as [[k v] Hd]. exists e, k, v. split_and!; [done | done | lia | intros c'; apply (lo_dom _ _ _ Hl); by eexists |].
  apply (sh_recs _ _ (g_shows _ _ _ _ _ G)). exists a, e. split; [done |]. unfold record_at. by rewrite Hd.
Qed.
Lemma conf_time s s' : same_cfg s s' → _iSyncTime s' = _iSyncTime s.
Proof. by intros (_ & _ & _ & _ & _ & _ & E). Qed.
Lemma sync_begin_ok s C : refines hashf s C → does s C sync_begin (λ _, Done) SyncBegin.
Proof.
  intros H. destruct (begin_ok hashf s C H) as (A & E0 & G & Cf & V & _). unfold sync_begin. destruct (tail_load hashf _ A C HDirtyTail SetList G eq_refl) as (v & Ev & Hv).
  destruct (tail_store_good hashf _ A C HSyncTail SetList v G eq_refl Hv) as (s' & E & G' & Cf' & V' & _).
  eapply (does_still s C _ _ _ tt A C s'); [by rewrite (bind_Ok _ _ _ _ _ E0), (bind_Ok _ _ _ _ _ Ev) | done | by etrans | congruence | apply st_sync_begin].
Qed.
(** What is done to a block that the sync tail has passed. *)
Lemma sync_passed s1 A1 C a (r : Z * BlockData) : good hashf 0 s1 A1 C → a ∈ a_order A1 SetList → ∃ s', (dirty_tail_back a ;;; ret r) s1 = (Ok r, s') ∧ good hashf 0 s' A1 C ∧ same_cfg s1 s' ∧ vtData s' = vtData s1.
Proof. intros G Ha. destruct (dirty_tail_back_good hashf s1 A1 C a G Ha) as (s' & E & G' & Cf & V & _). exists s'. by rewrite (bind_Ok _ _ _ _ _ E). Qed.
Lemma sync_ok s C now data : refines hashf s C → does s C (sync now data) (λ r, Data r.1 r.2) (Sync now data).
Proof.
  intros H. destruct (begin_ok hashf s C H) as (A & E0 & G & Cf & V & _). destruct (tail_load hashf _ A C HSyncTail SetList G eq_refl) as (a & Ea & Ha).
  assert (E : sync now data s = _) by (unfold sync; rewrite (bind_Ok _ _ _ _ _ E0), (bind_Ok _ _ _ _ _ Ea); reflexivity). destruct (Z.eqb_spec a 0) as [->|Hz].
  { eapply (does_still s C _ _ _ _ A C); [exact E | done | done | done | apply st_sync_done]. }
  destruct Ha as [?|Ha]; [done |]. destruct (order_entry _ A C SetList a G Ha) as (e & k & v & He & Hd & _ & _ & Hk). destruct (prev_load hashf _ A C SetList a G Ha) as [Ep Hp]. rewrite (bind_Ok _ _ _ _ _ Ep) in E.
  destruct (tail_store_good hashf _ A C HSyncTail SetList _ G eq_refl Hp) as (s1 & E1 & G1 & Cf1 & V1 & _). rewrite (bind_Ok _ _ _ _ _ E1), (bind_Ok _ _ _ _ _ (dirty_load s1 A C a e G1 He)) in E. assert (Cf' : same_cfg s s1) by by etrans.
  destruct (e_dirty e) eqn:Hdi; cbn [negb] in E.
  2: { destruct (sync_passed s1 A C a (RT_NONEED_SYNC, data) G1 Ha) as (s' & E2 & G2 & Cf2 & V2). rewrite E2 in E. eapply (does_still s C _ _ _ _ A C s'); [exact E | done | by etrans | congruence | by eapply st_sync_clean]. }
  rewrite (bind_Ok _ _ _ _ _ (data_load s1 A C a e k v data G1 He Hd)), Hdi in E. destruct v as [w|]; cbn [shown r_value fst snd negb Z.eqb RT_OK RT_ONLY_KEY r_dirty r_sync _synct] in E.
  2: { destruct (sync_passed s1 A C a (RT_ONLY_KEY, mk_data k (_value data) true (e_sync e)) G1 Ha) as (s' & E2 & G2 & Cf2 & V2). rewrite E2 in E. eapply (does_still s C _ _ _ _ A C s'); [exact E | done | by etrans | congruence |].
    apply (st_sync_only _ _ _ _ k _ (e_sync e)); done. }
  unfold bind at 1, get_st in E. rewrite (conf_time _ _ Cf') in E. destruct (Z.ltb_spec (_iSyncTime s + e_sync e) now) as [Ht|Ht].
  2: { eapply (does_still s C _ _ _ _ A C s1); [exact E | done | done | congruence | by apply st_sync_early]. }
  destruct (setDirty_good hashf s1 A C a e k _ false G1 He Hd) as (s2 & E2 & G2 & Q2). rewrite (bind_Ok _ _ _ _ _ E2) in E.
  destruct (store_sync_good hashf s2 _ _ a (dirtied false e) k (Some w) now G2 ltac:(cbn; apply lookup_insert_eq) Hd) as (s3 & E3 & G3 & Cf3 & V3). rewrite (bind_Ok _ _ _ _ _ E3) in E.
  destruct (sync_passed s3 _ _ a (RT_NEED_SYNC, mk_data k w true (e_sync e)) G3 Ha) as (s' & E4 & G4 & Cf4 & V4). rewrite E4 in E. pose proof (q_cfg _ _ Q2) as Cf2.
  eapply (does_still s C _ _ _ _ _ (put_rec k (mk_record (Some w) false now) C) s'); [exact E | | by do 3 (etrans; [done |]) | rewrite V4, V3, (q_vt _ _ Q2); congruence | by apply (st_sync _ _ _ _ k _ (e_sync e))].
  eapply good_eq; [| |exact G4]; [cbn; apply insert_insert_eq | done].
Qed.
Lemma backup_begin_ok s C f : refines hashf s C → does s C (backup_begin f) (λ _, Done) (BackupBegin f).
Proof.
  intros H. destruct (begin_ok hashf s C H) as (A & E0 & G & Cf & V & _). destruct (tail_load hashf _ A C HBackupTail GetList G eq_refl) as (b & Eb & _).
  assert (E : backup_begin f s = _) by (unfold backup_begin; rewrite (bind_Ok _ _ _ _ _ E0), (bind_Ok _ _ _ _ _ Eb); reflexivity). destruct (f || (b =? 0)).
  2: { eapply (does_still s C _ _ _ tt A C); [exact E | done | done | done | apply st_backup_begin]. }
  pose proof (lo_dll _ _ _ (r_lists _ _ _ _ (g_rep _ _ _ _ _ G)) GetList) as D. unfold head_ in E. rewrite (bind_Ok _ _ _ _ _ (load_ok _ _ _ (dll_tail _ _ _ D))) in E.
  destruct (tail_store_good hashf _ A C HBackupTail GetList (lst (a_order A GetList)) G eq_refl (lst_in _)) as (s' & E1 & G' & Cf' & V' & _). rewrite E1 in E.
  eapply (does_still s C _ _ _ tt A C s'); [exact E | done | by etrans | congruence | apply st_backup_begin].
Qed.
Lemma backup_ok s C data : refines hashf s C → does s C (backup data) (λ r, Data r.1 r.2) (Backup data).
Proof.
  intros H. destruct (begin_ok hashf s C H) as (A & E0 & G & Cf & V & _). destruct (tail_load hashf _ A C HBackupTail GetList G eq_refl) as (a & Ea & Ha).
  assert (E : backup data s = _) by (unfold backup; rewrite (bind_Ok _ _ _ _ _ E0), (bind_Ok _ _ _ _ _ Ea); reflexivity). destruct (Z.eqb_spec a 0) as [->|Hz].
  { eapply (does_still s C _ _ _ _ A C); [exact E | done | done | done | apply st_backup_done]. }
  destruct Ha as [?|Ha]; [done |]. destruct (order_entry _ A C GetList a G Ha) as (e & k & v & He & Hd & _ & _ & Hk). rewrite (bind_Ok _ _ _ _ _ (data_load _ A C a e k v data G He Hd)) in E.
  destruct (prev_load hashf _ A C GetList a G Ha) as [Ep Hp]. rewrite (bind_Ok _ _ _ _ _ Ep) in E.
  destruct (tail_store_good hashf _ A C HBackupTail GetList _ G eq_refl Hp) as (s1 & E1 & G1 & Cf1 & V1 & _). rewrite (bind_Ok _ _ _ _ _ E1) in E.
  destruct (doUpdate_good hashf s1 A C G1) as (s2 & E2 & G2 & Q). rewrite (bind_Ok _ _ _ _ _ E2) in E.
  eapply (does_still s C _ _ _ _ A C s2); [exact E | done | do 2 (etrans; [done |]); apply (q_cfg _ _ Q) | rewrite (q_vt _ _ Q); congruence |].
  pose proof (st_backup (conf s) C data k _ Hk) as Hst. by destruct v.
Qed.

(** *** Erasing *)

Lemma erase_ok s C n radio data b : refines hashf s C → does s C (erase n radio data b) (λ r, Data r.1 r.2) (Erase n radio data b).
Proof.
  intros H. destruct (begin_ok hashf s C H) as (A & E0 & G & Cf & V & _). destruct (cfg_hash _ _ Cf) as (_ & _ & _ & Ero). pose proof (r_lists _ _ _ _ (g_rep _ _ _ _ _ G)) as Hl.
  pose proof (lo_dll _ _ _ Hl GetList) as D. pose proof (lo_nodup _ _ _ Hl GetList) as Hnd. pose proof (order_nonzero _ _ _ _ GetList (g_rep _ _ _ _ _ G)) as H0. set (a := lst (a_order A GetList)) in *.
  assert (E : erase n radio data b s = _) by (unfold erase; rewrite (bind_Ok _ _ _ _ _ E0); reflexivity). unfold bind at 1, get_st in E. destruct (_bReadOnly s) eqn:Er; rewrite Ero in E.
  { eapply (does_still s C _ _ _ (RT_READONLY, data) A C); [exact E | done | done | done | apply st_read_only_data; [right; eauto | done]]. }
  unfold head_ at 1 in E. rewrite (bind_Ok _ _ _ _ _ (load_ok _ _ _ (dll_tail _ _ _ D))) in E. fold a in E. pose proof (st_erase_enough (conf s) C n radio data b Er) as Henough.
  destruct (Z.eqb_spec a 0) as [Ea|Ea]; [by eapply (does_still s C _ _ _ (RT_OK, data) A C) |]. unfold head_ at 1 in E. rewrite (bind_Ok _ _ _ _ _ (load_ok _ _ _ (co_used _ _ _ _ _ (r_chains _ _ _ _ (g_rep _ _ _ _ _ G))))) in E.
  destruct (below_radio _ _ _); [by eapply (does_still s C _ _ _ (RT_OK, data) A C) |].
  assert (Ha : a ∈ a_order A GetList) by (destruct (lst_in (a_order A GetList)); done). destruct (order_entry _ A C GetList a G Ha) as (e & k & v & He & Hd & _ & Hin & Hk).
  destruct (lst_split (a_order A GetList)) as [l El]; [intros E1; rewrite E1 in Ha; by apply not_elem_of_nil in Ha |]. fold a in El. pose proof (key_at_decode A a e k v He Hd) as Hka.
  assert (Hold : oldest GetList C k (mk_record v (e_dirty e) (e_sync e))) by (split; [rewrite (sh_order _ _ (g_shows _ _ _ _ _ G)), El, (omap_snoc _ _ _ _ Hka); apply last_snoc | done]).
  assert (Eb : (if b then test (a, BDirty) else ret false) (begun s) = (Ok (b && e_dirty e), begun s)) by (destruct b; [by apply (dirty_load _ A C) | done]). rewrite (bind_Ok _ _ _ _ _ Eb) in E.
  destruct (b && e_dirty e) eqn:Hbd.
  - apply andb_true_iff in Hbd as [-> Hdi]. destruct (tail_load hashf _ A C HDirtyTail SetList G eq_refl) as (x & Ex & _). rewrite (bind_Ok _ _ _ _ _ Ex) in E.
    assert (Hs : ∃ s1, (if x =? 0 then store (0, HDirtyTail) a else ret tt) (begun s) = (Ok tt, s1) ∧ keeps hashf (begun s) A C s1).
    { destruct (x =? 0); [apply (tail_store_good hashf _ A C HDirtyTail SetList a G eq_refl); right; apply Hin | by exists (begun s)]. }
    destruct Hs as (s1 & E1 & G1 & Cf1 & V1 & _). rewrite (bind_Ok _ _ _ _ _ E1) in E. pose proof (lo_dll _ _ _ (r_lists _ _ _ _ (g_rep _ _ _ _ _ G1)) GetList) as D1.
    unfold head_ at 1 in E. rewrite (bind_Ok _ _ _ _ _ (load_ok _ _ _ (dll_head _ _ _ D1))) in E. assert (Cf' : same_cfg s s1) by by etrans.
    destruct (Z.eqb_spec (hd0 (a_order A GetList)) a) as [Eh|Eh]; [eapply (does_still s C _ _ _ (RT_OK, data) A C); [exact E | done | done | congruence | done] |].
    assert (Hne : l ≠ []) by (intros ->; rewrite El in Eh; done). assert (Ehd : hd0 (a_order A GetList) = hd0 l) by (rewrite El; by destruct l). rewrite Ehd in E.
    destruct (back_to_front_ok hashf s1 A C l a k (RT_DIRTY_DATA, data) G1 El Hne Hka) as (s' & E2 & G2 & Q). unfold back_to_front in E2. rewrite E2 in E.
    eapply (does_still s C _ _ _ (RT_DIRTY_DATA, data) _ _ s'); [exact E | exact G2 | etrans; [done | apply (q_cfg _ _ Q)] | rewrite (q_vt _ _ Q); congruence |]. by eapply st_erase_dirty.
  - rewrite (bind_Ok _ _ _ _ _ (data_load _ A C a e k v data G He Hd)) in E. destruct (erase_good hashf 0 _ A C a e k v G He Hd) as (s' & E2 & G2 & Cf2 & V2). rewrite (bind_Ok _ _ _ _ _ E2) in E.
    eapply (does_still s C _ _ _ _ _ _ s'); [exact E | exact G2 | by etrans | congruence |]. pose proof (st_erase (conf s) C n radio data b k _ Er Hold Hbd) as Hst. by destruct v.
Qed.

(** ** The refinement *)

(** Keys and values are shorter than 4 GB. *)
Definition op_short (o : op) : Prop := match o with Put _ k ov _ => short k ov | _ => True end.
Lemma op_ok s C o : refines hashf s C → op_short o → does s C (run_op hashf o) id o.
Proof.
  intros H Hs. destruct o as [k v sy|now k [v|] b|k data|k|k []|k|n radio data b| |now data|f|data]; eapply does_run; try done;
    eauto using get_ok, set_ok, set_only_ok, del_ok, checkDirty_ok, setDirty_ok, setClean_ok, setDirtyAfterSync_ok, erase_ok, sync_begin_ok, sync_ok, backup_begin_ok, backup_ok.
Qed.
Lemma ops_ok os : ∀ s C, refines hashf s C → Forall op_short os →
  ∃ l gone C' s', run_ops hashf os s = (Ok l, s') ∧ steps (conf s) C os l gone C' ∧ refines hashf s' C' ∧ same_cfg s s' ∧ vtData s' = vtData s ++ given gone.
Proof.
  induction os as [|o os IH]; intros s C H Hs; [exists [], [], C, s; split_and!; [done | constructor | done | done | by rewrite app_nil_r] |]. apply Forall_cons in Hs as [Ho Hs].
  destruct (op_ok s C o H Ho) as (a & g & C1 & s1 & E & Hst & H1 & Cf & V). destruct (IH s1 C1 H1 Hs) as (l & g' & C' & s' & E' & Hsts & H' & Cf' & V').
  exists (a :: l), (g ++ g'), C', s'. cbn [run_ops]. rewrite (bind_Ok _ _ _ _ _ E), (bind_Ok _ _ _ _ _ E'). rewrite (conf_cfg _ _ Cf) in Hsts.
  split_and!; [done | by econstructor | done | by etrans | by rewrite V', V, given_app, app_assoc].
Qed.
End ops.
