(* ===== verification/HashMapTheorems.v ===== *)
(** What [TC_HashMap] promises: a cache of records, from a new map on; what makes room for a
    record; and a journal that a crash does not break. *)
From stdpp Require Import prelude gmap list.
From Stdlib Require Import ZArith Lia Floats.SpecFloat.
From S2P Require Import Prelude Bytes MemChunk MemChunkSpec HashMap HashMapLists HashMapRep HashMapBlocks HashMapErase HashMapFind HashMapCache HashMapSpec HashMapRefine HashMapSet HashMapOps.
Import MemMultiChunkAllocator AreaSpec HashMap.HashMap.

(** A step that is not one of the operation. *)
Ltac no_op := repeat match goal with H : _ ∨ _ |- _ => destruct H | H : ∃ _, _ |- _ => destruct H end; congruence.

Definition empty_cache : cache := mk_cache ∅ (λ _, []).

(** ** A new map *)

Section new_map.

(** *** Its memory *)

Lemma zero_items_at n m x : zero_items n m !! x = if decide (x.2 = IBlockAddr ∨ x.2 = IListCount) then (if decide (0 ≤ x.1 < n) then Some 0 else m !! x) else m !! x.
Proof.
  unfold zero_items. assert (H : ∀ l : list Z, foldr (λ i m, <[(i, IBlockAddr) := 0]> (<[(i, IListCount) := 0]> m)) m l !! x =
    if decide (x.2 = IBlockAddr ∨ x.2 = IListCount) then (if decide (x.1 ∈ l) then Some 0 else m !! x) else m !! x).
  { destruct x as [a f]. cbn [fst snd]. induction l as [|i l IH]; cbn [foldr]; [case_decide; [|done]; by rewrite decide_False by apply not_elem_of_nil |].
    destruct (decide (f = IBlockAddr ∨ f = IListCount)) as [Hf|Hf].
    - destruct (decide (a = i)) as [->|Hne]; [rewrite (decide_True (P := i ∈ i :: l)) by left; destruct Hf as [-> | ->]; [by rewrite lookup_insert_eq |]; rewrite lookup_insert_ne by done; by rewrite lookup_insert_eq |].
      rewrite !lookup_insert_ne by congruence. rewrite IH. apply decide_ext. rewrite elem_of_cons. tauto.
    - rewrite !lookup_insert_ne by (intros [= -> <-]; tauto). done. }
  rewrite H. do 1 case_decide; [|done]. apply decide_ext. rewrite elem_of_seqZ. lia.
Qed.
Lemma zero_head_at fs m f : f ∈ fs → zero_head fs m !! (0, f) = Some 0.
Proof.
  unfold zero_head. induction fs as [|g fs IH]; [by intros ?%not_elem_of_nil |]. intros Hf. cbn [foldr]. destruct (decide (f = g)) as [->|Hne]; [apply lookup_insert_eq |].
  rewrite lookup_insert_ne by congruence. apply IH. by apply elem_of_cons in Hf as [?|?].
Qed.
Definition empty_abs : abs := mk_abs (λ _, []) (λ _, []) ∅.
Definition new_memory (n : Z) : gmap loc Z := <[(0, HOnlyKeyCount) := 0]> (zero_items n (zero_head head_fields ∅)).
Lemma new_memory_head n f : part_of f ≠ PBucket → f ∈ head_fields → new_memory n !! (0, f) = Some 0.
Proof.
  intros Hp Hf. unfold new_memory. destruct (decide (f = HOnlyKeyCount)) as [->|Hne]; [apply lookup_insert_eq |]. rewrite lookup_insert_ne by congruence.
  rewrite zero_items_at, decide_False; [by apply zero_head_at |]. cbn. by intros [-> | ->].
Qed.
Lemma new_memory_item n i f : f = IBlockAddr ∨ f = IListCount → 0 ≤ i < n → new_memory n !! (i, f) = Some 0.
Proof. intros Hf Hi. unfold new_memory. rewrite lookup_insert_ne by (destruct Hf as [-> | ->]; done). by rewrite zero_items_at, !decide_True. Qed.
Ltac head_field := apply new_memory_head; [by cbn | unfold head_fields; rewrite !elem_of_cons; tauto].
Lemma new_lists n : lists_ok (new_memory n) n empty_abs.
Proof.
  constructor; cbn; try done; try (by intros; constructor); try (by head_field).
  - intros c. constructor; [destruct c; head_field | destruct c; head_field | by intros x ?%not_elem_of_nil | by intros x ?%not_elem_of_nil].
  - intros c a. rewrite lookup_empty. split; [by intros ?%not_elem_of_nil | by intros []].
  - intros i Hi. constructor; [by rewrite new_memory_item by tauto | by rewrite new_memory_item by tauto | by intros x ?%not_elem_of_nil | by intros x ?%not_elem_of_nil].
  - intros i a Hi. split; [by intros ?%not_elem_of_nil | intros (e & He & _); by rewrite lookup_empty in He].
  - exists 0. split; [head_field | by left].
  - exists 0. split; [head_field | by left].
  - exists 0. split; [head_field | by left].
  - rewrite new_memory_head; [by eexists | by cbn | unfold head_fields; rewrite !elem_of_cons; tauto].
  - rewrite new_memory_head; [by eexists | by cbn | unfold head_fields; rewrite !elem_of_cons; tauto].
Qed.
Lemma new_chains n : chains_ok 0 [] (new_memory n) ∅ ∅.
Proof.
  constructor; cbn; try (by intros; rewrite lookup_empty in *); try by constructor.
  - intros x. rewrite lookup_empty. split; [by intros [] |]. intros [?%not_elem_of_nil|(a & e & He & _)]; [done |]. by rewrite lookup_empty in He.
  - head_field.
Qed.
(** Memory that was zero, or whose journal was not being written. *)
Definition clean (old : leftover) : Prop := old_onlykey old = 0 ∧ (old_status old = 0 ∧ old_journal old = [] ∨ old_status old = 1).
Lemma new_refines {Al} `{Allocator Al} hashf pAddr n old (a : Al) free : 0 < n < 2 ^ 32 → al_owns a free ∅ → clean old → (∀ p m, free !! p = Some m → pAddr < p ∧ sizeof_tagBlockHead < m < 2 ^ 32) →
  refines hashf (new pAddr n old a) empty_cache.
Proof.
  intros Hn Ho [Hok Hold] Hf. exists empty_abs. split_and!; try done.
  - constructor; [unfold new; cbn [mem]; rewrite Hok; apply new_lists | unfold new; cbn [mem]; rewrite Hok; apply new_chains | | done]. exists free, ∅. split; [done |]. split; [by intros x [y Hy] |]. intros p m [Hp|Hp]; [by apply Hf | done].
  - constructor; cbn; [| done | by intros a' a'' k Hk]. intros k r. rewrite lookup_empty. split; [done |]. by intros (x & e & He & _).
Qed.

(** *** Its allocator *)

(** The blocks of an area. *)
Definition blocks_of (g : segment) : list (Z * Z) :=
  k ← seq 0 (length (_vBlockSize g)); i ← seqZ 0 (_iBlockCount g); n ← option_list (_vBlockSize g !! k); [(chunk_begin g k + 48 + i * n, n)].
Lemma elem_of_blocks g p n : (p, n) ∈ blocks_of g ↔ ∃ k i, block_at g k i n p.
Proof.
  unfold blocks_of. rewrite list_elem_of_bind. split.
  - intros (k & (i & (m & [[= -> ->]|?%not_elem_of_nil]%elem_of_cons & Hm)%list_elem_of_bind & Hi)%list_elem_of_bind & Hk); [|done]. apply elem_of_seqZ in Hi.
    destruct (_vBlockSize g !! k) as [m'|] eqn:E; [|by apply not_elem_of_nil in Hm]. apply list_elem_of_singleton in Hm as ->. exists k, i. constructor; [done | lia | done].
  - intros (k & i & [Hn Hi ->]). exists k. split; [|apply elem_of_seq; apply lookup_lt_Some in Hn; lia]. apply list_elem_of_bind. exists i. split; [|apply elem_of_seqZ; lia].
    apply list_elem_of_bind. exists n. rewrite Hn. split; by left.
Qed.
(** All blocks of a new area are free. *)
Lemma new_area_free g (v : list Z) : seg_ok g (replicate (length v) (seqZ 0 (_iBlockCount g))) →
  ∃ free, al_owns [g] free ∅ ∧ ∀ p n, free !! p = Some n → ∃ k i, block_at g k i n p.
Proof.
  intros Hg. set (Fs := replicate _ _) in *. assert (Hfree : ∀ p n b, area_block [g] [Fs] p n b → b = true ∧ (p, n) ∈ blocks_of g).
  { intros p n b [(k & F & i & HF & Hb & ->)%seg_block_at|[]]. apply lookup_replicate in HF as [-> _]. split; [|rewrite elem_of_blocks; eauto].
    apply bool_decide_eq_true_2, elem_of_seqZ. pose proof (ba_index _ _ _ _ _ Hb). lia. }
  assert (Hblk : ∀ p n, (p, n) ∈ blocks_of g → area_block [g] [Fs] p n true).
  { intros p n (k & i & Hb)%elem_of_blocks. pose proof Hb as [Hn Hi _]. left. apply seg_block_at. exists k, (seqZ 0 (_iBlockCount g)), i. split; [|split; [done |]].
    - apply lookup_replicate. split; [done |]. apply lookup_lt_Some in Hn. pose proof (so_lists _ _ Hg). pose proof (so_sizes _ _ Hg). unfold Fs in *. rewrite length_replicate in *. lia.
    - symmetry. apply bool_decide_eq_true_2, elem_of_seqZ. lia. }
  assert (Hok : areas_ok [g] [Fs]) by done.
  assert (Hmap : ∀ p n, (list_to_map (blocks_of g) : gmap Z Z) !! p = Some n ↔ (p, n) ∈ blocks_of g).
  { intros p n. symmetry. apply elem_of_list_to_map'. intros m Hm Hn. apply Hblk in Hm, Hn. destruct (area_blocks_apart _ _ _ _ _ _ _ _ Hok Hm Hn) as [(_ & -> & _)|Hap]; [done |].
    pose proof (area_block_above _ _ _ _ _ Hok Hm). pose proof (area_block_above _ _ _ _ _ Hok Hn). lia. }
  exists (list_to_map (blocks_of g)). split; [|intros p n Hp%Hmap; by apply elem_of_blocks]. exists [Fs]. split; [done |]. split; intros p n.
  - rewrite Hmap. split; [apply Hblk | apply Hfree].
  - rewrite lookup_empty. split; [done | intros Hb; by apply Hfree in Hb as [? _]].
Qed.

(** *** [create] *)

(** What [create] needs to be given: sizes of 32 bits, and room for the hash items. *)
Record create_args (iSize iMinDataSize iMaxDataSize n : Z) : Prop := {
  ca_min : 0 < iMinDataSize;
  ca_max : iMaxDataSize + sizeof_tagBlockHead < 2 ^ 32;
  ca_hash : 0 < n < 2 ^ 32;
  ca_room : sizeof_tagMapHead + sizeof_tagModifyHead + (24 + n * sizeof_tagHashItem) ≤ iSize < 2 ^ 64 - 1
}.
Lemma hm_create_ok hashf fuel pAddr iSize iMin iMax fFactor fRadio old s : create fuel pAddr iSize iMin iMax fFactor fRadio old = Ok s → create_args iSize iMin iMax (_hash_size s) → clean old →
  refines hashf s empty_cache ∧ vtData s = [] ∧ conf s = mk_config false true GetList 600.
Proof.
  unfold create. case_match; [done |]. case_match; [done |]. destruct (hash_count _ _ _ _ _) as [n|]; [|done]. case_match; [done |].
  set (pData := pAddr + _ + _ + _). set (m := MemMultiChunkAllocator.create _ _ _ _ _). intros E [Hmin Hmax Hn Hroom] Hold.
  destruct (m tt) as [r []] eqn:Em. cbn [fst] in E. destruct r as [g|[]| | |]; try done. injection E as <-. cbn [_hash_size new] in Hn, Hroom.
  assert (Esz : wrapU 64 (iSize - (pData - pAddr)) = iSize - (pData - pAddr)) by (apply Z.mod_small; unfold pData, sizeof_tagMapHead, sizeof_tagModifyHead, sizeof_tagHashItem in *; lia).
  subst m. rewrite Esz in Em. unfold MemMultiChunkAllocator.create in Em at 1.
  destruct (Z.leb_spec (sizeof_tagBlockHead + iMin) (sizeof_tagBlockHead + iMax)) as [Hmm|]; [|done]. destruct (SFleb _ fFactor) eqn:Ef; [|done].
  destruct (create_segment pData (iSize - (pData - pAddr)) (sizeof_tagBlockHead + iMin) (sizeof_tagBlockHead + iMax) fFactor tt) as [E'|(v & count & E' & Hv & _ & _ & Hok)].
  { unfold sizeof_tagBlockHead. lia. } { done. } { done. } { unfold pData, sizeof_tagMapHead, sizeof_tagModifyHead, sizeof_tagHashItem in *. lia. }
  { unfold MemMultiChunkAllocator.create in E' at 1. rewrite (proj2 (Z.leb_le _ _) Hmm), Ef in E'. congruence. }
  assert (Eg : g = new_segment pData (iSize - (pData - pAddr)) (sizeof_tagBlockHead + iMin) (sizeof_tagBlockHead + iMax) fFactor v count).
  { unfold MemMultiChunkAllocator.create in E' at 1. rewrite (proj2 (Z.leb_le _ _) Hmm), Ef in E'. congruence. }
  rewrite <- Eg in Hok. destruct (new_area_free g v) as (free & Ho & Hfree); [by rewrite Eg at 2 |].
  split; [|done]. apply (new_refines hashf pAddr n old [g] free); [done | done | done |]. intros p k Hp. destruct (Hfree p k Hp) as (j & i & Hb). pose proof (block_range _ _ _ _ _ _ Hok Hb) as Hr.
  pose proof (ba_size _ _ _ _ _ Hb) as Hk. rewrite Eg in Hk, Hr. cbn in Hk, Hr. rewrite Forall_lookup in Hv. specialize (Hv _ _ Hk). unfold pData, sizeof_tagMapHead, sizeof_tagModifyHead, sizeof_tagHashItem, sizeof_tagBlockHead in *. lia.
Qed.
End new_map.

(** ** The journal *)

Section crash.
Context {Al : Type} {AL : Allocator Al}.
Implicit Types (s : t (Al := Al)) (W : list (loc * Z)).

Lemma apply_writes_in W l : l ∈ W.*1 → ∀ m m', apply_writes W m !! l = apply_writes W m' !! l.
Proof.
  induction W as [|w W IH] using rev_ind; [by intros ?%not_elem_of_nil |]. rewrite fmap_app, elem_of_app. intros Hl m m'. rewrite !apply_app. cbn.
  destruct (decide (w.1 = l)) as [->|Hne]; [by rewrite !lookup_insert_eq |]. rewrite !lookup_insert_ne by done. apply IH. destruct Hl as [?|Hl]; [done | by apply list_elem_of_singleton in Hl].
Qed.
(** To write twice is to write once, however far the first time went. *)
Lemma apply_again W n m : apply_writes W (apply_writes (take n W) m) = apply_writes W m.
Proof.
  apply map_eq. intros l. destruct (decide (l ∈ W.*1)) as [Hl|Hl]; [by apply apply_writes_in |].
  assert (HW : Forall (λ w, w.1 ≠ l) W) by (apply Forall_forall; intros w Hw <-; apply Hl, list_elem_of_fmap; by exists w).
  by rewrite !apply_notin by auto using Forall_take.
Qed.
(** A state of [doUpdate(true)]: [n] entries are written. *)
Definition interrupted n s : t (Al := Al) := set_journal 2 (_stModifyData s) (set_mem (apply_writes (take n (_stModifyData s)) (mem s)) s).

End crash.

(** ** Orders *)

Section orders.
Context {Al : Type} {AL : Allocator Al} {ALL : AllocatorLaws Al} (hashf : list Z → Z).

Lemma omap_nodup {B} (f : Z → option B) l : NoDup l → (∀ x y b, f x = Some b → f y = Some b → x = y) → NoDup (omap f l).
Proof.
  intros Hnd Hf. induction Hnd as [|x l Hx _ IH]; [apply NoDup_nil_2 |]. cbn. destruct (f x) as [b|] eqn:E; [|done]. apply NoDup_cons. split; [|done].
  intros (y & Hy & Ey)%list_elem_of_omap. apply Hx. by rewrite (Hf x y b E Ey).
Qed.
Lemma refines_nodup (s : t (Al := Al)) C c : refines hashf s C → NoDup (c_order C c).
Proof.
  intros (A & Hr & _ & _ & HS & _). rewrite (sh_order _ _ HS). apply omap_nodup; [apply (lo_nodup _ _ _ (r_lists _ _ _ _ Hr)) | apply (sh_inj _ _ HS)].
Qed.
Lemma without_twice (k : key) l : without k (without k l) = without k l.
Proof. unfold without. rewrite list_filter_filter. apply list_filter_iff. tauto. Qed.
Lemma fresh_without k r C c : without k (c_order (fresh k r C) c) = without k (c_order C c).
Proof.
  assert (E : ∀ l, without k (k :: l) = without k l) by apply front_twice. unfold fresh, touch, put_rec. cbn [c_order].
  repeat case_decide; rewrite ?E, ?without_twice, ?E, ?without_twice; done.
Qed.
Lemma throws_auto b c k C gone C' : throws b c k C gone C' → gone ≠ [] → b = true.
Proof. by induction 1. Qed.
Lemma step_get_value cf C k v t w d sy a gone C' : step cf C (Get k v t) a gone C' → c_recs C !! k = Some (mk_record (Some w) d sy) → a = Value RT_OK w sy.
Proof.
  intros H E. inversion H; subst; try congruence.
  all: no_op.
Qed.
Lemma step_put_ok cf C now k ov b gone C' : step cf C (Put now k ov b) (Code RT_OK) gone C' → ∃ C1 d sy, c_recs C' !! k = Some (mk_record ov d sy) ∧ throws (cf_auto_erase cf) (cf_order cf) k C gone C1.
Proof.
  intros H. inversion H; subst; try done.
  - eexists _, _, _. cbn. rewrite lookup_insert_eq. split; [done | eassumption].
  - no_op.
Qed.
End orders.

(** ** Properties *)


Section properties.
Context {Al : Type} {AL : Allocator Al} {ALL : AllocatorLaws Al} (hashf : list Z → Z).

(** C38: setting a record answers, and what it throws out are records at the back of the
    order, never that of the key; the caller gets them, the other records stay as they are,
    and a record that was set is at the front of both orders.  A map that may not throw
    out does not, and there is no memory only if that is so or no other record is left. *)
Theorem put_evicts_oldest now k ov b (s : t (Al := Al)) C : refines hashf s C → short k ov → _bReadOnly s = false →
  ∃ r gone C' s', run_op hashf (Put now k ov b) s = (Ok (Code r), s') ∧ refines hashf s' C' ∧ vtData s' = vtData s ++ given gone ∧
    without k (c_order C (order_of s)) = without k (c_order C' (order_of s)) ++ reverse gone.*1 ∧
    (∀ x y, (x, y) ∈ gone → x ≠ k ∧ c_recs C !! x = Some y) ∧
    (∀ x, x ≠ k → c_recs C' !! x = if decide (x ∈ gone.*1) then None else c_recs C !! x) ∧
    (gone ≠ [] → _bAutoErase s = true) ∧
    (r = RT_OK ∧ (∃ y, c_recs C' !! k = Some y ∧ r_value y = ov) ∧ (∀ c, head (c_order C' c) = Some k) ∨
     r = RT_NO_MEMORY ∧ c_recs C' !! k = c_recs C !! k ∧ (_bAutoErase s = false ∨ without k (c_order C' (order_of s)) = [])).
Proof.
  intros HR Hs Hro. destruct (op_ok hashf s C (Put now k ov b) HR Hs) as (a & gone & C' & s' & E & Hst & HR' & _ & V). pose proof (refines_nodup hashf s C (order_of s) HR) as Hnd.
  assert (Hth : ∀ C1, throws (_bAutoErase s) (order_of s) k C gone C1 → without k (c_order C (order_of s)) = without k (c_order C1 (order_of s)) ++ reverse gone.*1 ∧
    (∀ x y, (x, y) ∈ gone → x ≠ k ∧ c_recs C !! x = Some y) ∧ (∀ x, c_recs C1 !! x = if decide (x ∈ gone.*1) then None else c_recs C !! x) ∧ (gone ≠ [] → _bAutoErase s = true)).
  { intros C1 Hth. destruct (throws_order _ _ _ _ _ Hth Hnd) as (H1 & H2 & H3). split_and!; try done. by apply (throws_auto _ _ _ _ _ _ Hth). }
  unfold id in Hst. inversion Hst; subst; cbn [conf cf_read_only cf_auto_erase cf_order] in *; try (no_op; fail).
  - lazymatch goal with H : throws _ _ _ _ _ _ |- _ => destruct (Hth _ H) as (P1 & P2 & P3 & P4) end. eexists _, gone, _, s'. split; [done |]. split; [exact HR' |]. split; [done |]. split_and!; try done.
    + by rewrite P1, fresh_without.
    + intros x Hx. cbn. by rewrite lookup_insert_ne.
    + left. split; [done |]. split; [cbn; eexists; by rewrite lookup_insert_eq |]. by intros [].
  - destruct (Hth C') as (P1 & P2 & P3 & P4); [done |]. eexists _, gone, C', s'. split_and!; try done. right. split; [done |]. split; [|done]. rewrite P3. case_decide as Hin; [|done].
    apply list_elem_of_fmap in Hin as ([x y] & -> & Hin). by destruct (P2 _ _ Hin).
Qed.

(** C39: what [set] has set [get] returns. *)
Theorem get_after_set now k v b v0 t0 (s s1 : t (Al := Al)) C : refines hashf s C → short k (Some v) → set hashf now k v b s = (Ok RT_OK, s1) →
  ∃ sy s2, get hashf k v0 t0 s1 = (Ok (RT_OK, v, sy), s2).
Proof.
  intros HR Hs E. destruct (set_ok hashf s C now k v b HR Hs) as (r & gone & C' & s' & E' & Hst & HR' & _). rewrite E in E'. injection E' as <- <-.
  destruct (step_put_ok _ _ _ _ _ _ _ _ Hst) as (_ & d & sy & Hk & _). destruct (get_ok hashf s1 C' k v0 t0 HR') as ([[r' v'] t'] & gone' & C2 & s2 & E2 & Hst2 & _).
  pose proof (step_get_value _ _ _ _ _ _ _ _ _ _ _ Hst2 Hk) as Ha. cbn in Ha. injection Ha as -> -> ->. by exists sy, s2.
Qed.


(** *** Iteration *)

(** The keys from a block on, one [++it] after another. *)
Fixpoint walk_keys (fuel : nat) (c : chain) (a : Z) : prog (t (Al := Al)) Empty_set (list key) :=
  if a =? 0 then ret [] else
  match fuel with
  | O => no_fuel
  | S fuel' =>
    let* r := item_get_k a [] in
    let* next := nextItem_in c a in
    let* l := walk_keys fuel' c next in ret (r.2 :: l)
  end.
Lemma walk_ok c (s : t (Al := Al)) A C : good hashf 0 s A C → ∀ fuel l2 l1, a_order A c = l1 ++ l2 → (length l2 ≤ fuel)%nat → walk_keys fuel c (hd0 l2) s = (Ok (omap (key_at A) l2), s).
Proof.
  intros G. pose proof (r_lists _ _ _ _ (g_rep _ _ _ _ _ G)) as Hl. induction fuel as [|fuel IH]; intros [|a l2] l1 E Hf; cbn in Hf; try lia; try done.
  assert (Ha : a ∈ a_order A c) by (rewrite E; apply elem_of_app; right; left). destruct (order_entry hashf s A C c a G Ha) as (e & k & v & He & Hd & Ha0 & _).
  change (hd0 (a :: l2)) with a. cbn [walk_keys]. rewrite (proj2 (Z.eqb_neq _ _) Ha0), (bind_Ok _ _ _ _ _ (item_get_k_ok [] s A a e k [] v (g_rep _ _ _ _ _ G) He Hd)).
  assert (En : nxt (a_order A c) a = hd0 l2).
  { rewrite E. apply nxt_mid. pose proof (lo_nodup _ _ _ Hl c) as Hnd. rewrite E in Hnd. apply NoDup_app in Hnd as (_ & Hno & _). intros Hx. apply (Hno a Hx). left. }
  unfold nextItem_in. rewrite (bind_Ok _ _ _ _ _ (load_ok _ _ _ (dll_next _ _ _ (lo_dll _ _ _ Hl c) a Ha))), En, (bind_Ok _ _ _ _ _ (IH l2 (l1 ++ [a]) ltac:(by rewrite <- app_assoc) ltac:(lia))).
  by rewrite omap_here, (key_at_decode A a e k v He Hd).
Qed.
(** From [beginSetTime()] or [beginGetTime()] the iterators yield the keys in the order
    they were set or read, the last one first, each once. *)
Theorem iteration_in_order (s : t (Al := Al)) C c : refines hashf s C →
  ∃ s', (let* a := begin_in c in with_fuel (λ fuel, walk_keys fuel c a)) s = (Ok (c_order C c), s') ∧ refines hashf s' C ∧ NoDup (c_order C c).
Proof.
  intros HR. destruct (begin_ok hashf s C HR) as (A & E & G & _). pose proof (g_rep _ _ _ _ _ G) as Hr. pose proof (r_lists _ _ _ _ Hr) as Hl.
  exists (begun s). split; [|split; [by eapply good_refines | by eapply refines_nodup]]. unfold begin_in, head_. unfold bind at 1. rewrite (bind_Ok _ _ _ _ _ E), (load_ok _ _ _ (dll_head _ _ _ (lo_dll _ _ _ Hl c))).
  unfold with_fuel. rewrite (walk_ok c _ A C G _ (a_order A c) []); [by rewrite <- (sh_order _ _ (g_shows _ _ _ _ _ G)) | done |].
  etrans; [apply (areas_length (_cData (begun s))); [apply (lo_nodup _ _ _ Hl) | intros x Hx; apply (entry_area 0 [] _ A x Hr); by apply (lo_dom _ _ _ Hl) in Hx] | lia].
Qed.
End properties.

(** ** A sample *)

Definition hash_sum (k : list Z) : Z := foldr Z.add 0 k.
(** A map in 1500 bytes for records of 10 to 30 bytes. *)
Definition sample_map : outcome bool (t (Al := MemMultiChunkAllocator.t)) :=
  create 100 10000 1500 10 30 (S754_finite false 12582912 (-23)) (S754_finite false 8388608 (-22)) (mk_leftover 0 0 []).
(** What [m] does in it. *)
Definition in_sample {A} (m : prog (t (Al := MemMultiChunkAllocator.t)) Empty_set A) : option (outcome Empty_set A * t) :=
  match sample_map with Ok s => Some (m s) | _ => None end.
Definition sample_ops : list op := [Put 5 [1; 2] (Some [3; 4; 5]) true; Get [1; 2] [] 0; Put 6 [7] None false; Mark [1; 2] false; Del [1; 2] no_data; SyncBegin].
Definition puts (n : nat) : list op := (λ i, Put 5 [Z.of_nat i] None false) <$> seq 0 n.
Lemma hm_sample_args : match sample_map with Ok s => _hash_size s = 7 ∧ _bReadOnly s = false | _ => False end.
Proof. vm_compute. done. Qed.
Lemma sample_ok : ∃ s, sample_map = Ok s ∧ create_args 1500 10 30 (_hash_size s) ∧ _bReadOnly s = false.
Proof.
  pose proof hm_sample_args as H. destruct sample_map as [s| | | |]; try done. destruct H as [E Hr]. exists s. split; [done |]. split; [|done]. by constructor; rewrite ?E.
Qed.
Lemma clean_zero : clean (mk_leftover 0 0 []).
Proof. split; [done | by left]. Qed.
Lemma sample_short : Forall op_short sample_ops.
Proof. by repeat constructor. Qed.
Lemma sample_refines s : sample_map = Ok s → create_args 1500 10 30 (_hash_size s) → refines hash_sum s empty_cache.
Proof. unfold sample_map. intros E Ha. exact (proj1 (hm_create_ok hash_sum _ _ _ _ _ _ _ _ s E Ha clean_zero)). Qed.

Lemma put_evicts_oldest_witness : ∃ s, sample_map = Ok s ∧ ∃ r gone C' s', run_op hash_sum (Put 5 [1] (Some [2]) true) s = (Ok (Code r), s') ∧ refines hash_sum s' C' ∧ vtData s' = vtData s ++ given gone.
Proof.
  destruct sample_ok as (s & E & Ha & Hr). exists s. split; [exact E |].
  destruct (put_evicts_oldest hash_sum 5 [1] (Some [2]) true s empty_cache (sample_refines s E Ha) ltac:(by split) Hr) as (r & gone & C' & s' & E' & HR & V & _). exists r, gone, C', s'. exact (conj E' (conj HR V)).
Defined.
Lemma sample_set : (fst <$> in_sample (set hash_sum 5 [1; 2] [3; 4; 5] true)) = Some (Ok RT_OK).
Proof. vm_compute. done. Qed.
Lemma get_after_set_witness : ∃ s s1, sample_map = Ok s ∧ set hash_sum 5 [1; 2] [3; 4; 5] true s = (Ok RT_OK, s1) ∧ ∃ sy s2, get hash_sum [1; 2] [] 0 s1 = (Ok (RT_OK, [3; 4; 5], sy), s2).
Proof.
  destruct sample_ok as (s & E & Ha & _). pose proof sample_set as H. unfold in_sample in H. rewrite E in H. destruct (set hash_sum 5 [1; 2] [3; 4; 5] true s) as [r s1] eqn:E1. cbn in H. injection H as ->.
  exists s, s1. split; [exact E |]. split; [done |]. apply (get_after_set hash_sum 5 [1; 2] [3; 4; 5] true [] 0 s s1 empty_cache (sample_refines s E Ha) ltac:(by split) E1).
Defined.
(** The journal of a map with two entries. *)
Definition sample_journal : t (Al := MemMultiChunkAllocator.t) :=
  push [((0, HGetCount), 1); ((0, HHitCount), 1)] (new 10000 7 (mk_leftover 0 0 []) []).

(** Six keys without a value fill the sample.  A seventh has all of them thrown out and is
    not set all the same: [eraseExcept] counts only what has a value, and when it has
    thrown out nothing of that kind the allocator is not asked again. *)
Example only_keys_lost : (λ rs : outcome Empty_set (list answer) * t, (rs.1, mem rs.2 !! (0, HElementCount), size (_cData rs.2))) <$> in_sample (run_ops hash_sum (puts 6)) =
    Some (Ok (replicate 6 (Code RT_OK)), Some 6, 6%nat) ∧
  (λ rs : outcome Empty_set (list answer) * t, (rs.1, mem rs.2 !! (0, HElementCount), size (_cData rs.2))) <$> in_sample (run_ops hash_sum (puts 7)) =
    Some (Ok (replicate 6 (Code RT_OK) ++ [Code RT_NO_MEMORY]), Some 0, 0%nat).
Proof. vm_compute. done. Qed.
