(* ===== verification/Json.v ===== *)
(** [TC_Json] and [TC_JsonWriteOstream] from [src/util/src/tc_json.cpp] and
    [src/util/include/util/tc_json.h]: values, the reader, both writers and the merge. *)
From stdpp Require Import prelude strings list.
From Stdlib Require Import ZArith Lia Ascii SpecFloat.
From S2P Require Import Prelude Bytes.

#[global] Open Scope list_scope.
#[global] Open Scope Z_scope.

(** *** What the code takes from elsewhere *)

(** [pow(10, _)], the cast of a [double] outside the range of [int64_t], and
    [TC_Common::tostr] of a [double]. *)
Class JsonEnv := {
  pow10 : Z → spec_float;
  bad_cast : spec_float → Z;
  bad_cast_range : ∀ d, in_S 64 (bad_cast d);
  print_double : spec_float → list Z
}.

(** [operator[]] and assignment on an [unordered_map]: the order of the entries
    afterwards is its own. *)
Class UnorderedMap := {
  um_assign : ∀ A, list (list Z * A) → list Z → A → list (list Z * A);
  um_assign_spec : ∀ A (m : list (list Z * A)) k v, um_assign A m k v ≡ₚ (k, v) :: filter (λ kv, kv.1 ≠ k) m
}.

(** Character and string literals. *)
Definition chr (a : ascii) : Z := Z.of_N (N_of_ascii a).
Definition str (s : string) : list Z := map chr (String.list_ascii_of_string s).

Module Json.

(** [JsonValuePtr]: a null pointer or an object of one of the classes. *)
#[local] Unset Elimination Schemes.
Inductive json : Type :=
  | JNil
  | JsonValueString (value : list Z)
  | JsonValueNum (value : spec_float) (lvalue : Z) (isInt : bool)
  | JsonValueObj (value : list (list Z * json))
  | JsonValueArray (value : list json)
  | JsonValueBoolean (value : bool)
  | JsonValueNull.
#[local] Set Elimination Schemes.

Section json_ind.
Context (P : json → Prop).
Context (Hnil : P JNil) (Hstring : ∀ s, P (JsonValueString s)) (Hnum : ∀ d l i, P (JsonValueNum d l i)).
Context (Hobj : ∀ ms, Forall (λ kv, P kv.2) ms → P (JsonValueObj ms)) (Harray : ∀ l, Forall P l → P (JsonValueArray l)).
Context (Hbool : ∀ b, P (JsonValueBoolean b)) (Hnull : P JsonValueNull).

Fixpoint json_ind (v : json) : P v :=
  match v with
  | JNil => Hnil
  | JsonValueString s => Hstring s
  | JsonValueNum d l i => Hnum d l i
  | JsonValueObj ms => Hobj ms ((fix go ms : Forall (λ kv, P kv.2) ms := match ms with
      | [] => Forall_nil_2 _ | kv :: ms' => Forall_cons_2 _ kv ms' (json_ind kv.2) (go ms') end) ms)
  | JsonValueArray l => Harray l ((fix go l : Forall P l := match l with
      | [] => Forall_nil_2 _ | x :: l' => Forall_cons_2 _ x l' (json_ind x) (go l') end) l)
  | JsonValueBoolean b => Hbool b
  | JsonValueNull => Hnull
  end.
End json_ind.

Inductive eJsonType : Type :=
  eJsonTypeString | eJsonTypeNum | eJsonTypeObj | eJsonTypeArray | eJsonTypeBoolean | eJsonTypeNull.

(** [getType()]; a null pointer has none. *)
Definition getType (p : json) : option eJsonType :=
  match p with
  | JNil => None
  | JsonValueString _ => Some eJsonTypeString | JsonValueNum _ _ _ => Some eJsonTypeNum
  | JsonValueObj _ => Some eJsonTypeObj | JsonValueArray _ => Some eJsonTypeArray
  | JsonValueBoolean _ => Some eJsonTypeBoolean | JsonValueNull => Some eJsonTypeNull
  end.

(** *** Arithmetic on [double] *)

Definition d_add (a b : spec_float) : spec_float := SFadd 53 1024 a b.
Definition d_sub (a b : spec_float) : spec_float := SFsub 53 1024 a b.
Definition d_mul (a b : spec_float) : spec_float := SFmul 53 1024 a b.
Definition d_of_int (z : Z) : spec_float := binary_normalize 53 1024 z 0 false.
Definition d_zero : spec_float := S754_zero false.
(** [0.1]. *)
Definition d_tenth : spec_float := S754_finite false 7205759403792794 (-56).

(** The cast to [int64_t]. *)
Definition d_trunc `{JsonEnv} (d : spec_float) : Z :=
  match d with
  | S754_zero _ => 0
  | S754_finite s m e =>
    let n := if 0 <=? e then Z.pos m * 2 ^ e else Z.pos m / 2 ^ (- e) in
    let z := if s then - n else n in
    if bool_decide (in_S 64 z) then z else bad_cast d
  | _ => bad_cast d
  end.

(** *** [BufferJsonReader] *)

Record BufferJsonReader := mk { buf : list Z; cur : Z }.
Inductive exn : Type := TC_Json_Exception | TC_AutoPtrNull_Exception.
Abbreviation M A := (prog BufferJsonReader exn A).

Definition set_cur (c : Z) (r : BufferJsonReader) : BufferJsonReader := mk (buf r) c.
Definition setBuffer (b : list Z) : BufferJsonReader := mk b 0.
Definition check : M unit := λ r, if zlen (buf r) <? cur r + 1 then (Throw TC_Json_Exception, r) else (Ok tt, r).
Definition peek : M Z := λ r, match buf r !! Z.to_nat (cur r) with Some c => (Ok c, r) | None => (OutOfBounds, r) end.
Definition read : M Z := check ;;; let* c := peek in modify (λ r, set_cur (cur r + 1) r) ;;; ret c.
Definition back : M unit := let* r := get_st in assert_that (0 <? cur r) ;;; modify (λ r, set_cur (cur r - 1) r).
Definition hasEnd : M bool := λ r, (Ok (zlen (buf r) <=? cur r), r).
Definition getPoint : M Z := λ r, (Ok (cur r), r).

(** [value.append(p, n)]: the [n] characters at [p]. *)
Definition chars_at (p n : Z) : M (list Z) := λ r,
  match mem_read (buf r) p n with Some s => (Ok s, r) | None => (OutOfBounds, r) end.

Definition isspace (c : Z) : bool := (c =? chr " ") || (c =? 9) || (c =? 13) || (c =? 10).

(** The macro [FILTER_SPACE]. *)
Fixpoint filter_space (fuel : nat) (c : Z) : M Z :=
  match fuel with
  | O => λ r, (NoFuel, r)
  | S fuel' => if isspace c then let* c := read in filter_space fuel' c else ret c
  end.
Definition FILTER_SPACE (c : Z) : M Z := λ r, filter_space (S (length (buf r))) c r.
(** [c = reader.read(); FILTER_SPACE]. *)
Definition read_token : M Z := let* c := read in FILTER_SPACE c.

(** *** Strings *)

Fixpoint getHex (n : nat) (iCode : Z) : M Z :=
  match n with
  | O => ret iCode
  | S n' =>
    let* c := read in
    if (chr "a" <=? c) && (c <=? chr "f") then getHex n' (wrapU 32 (iCode * 16 + c - chr "a" + 10))
    else if (chr "A" <=? c) && (c <=? chr "F") then getHex n' (wrapU 32 (iCode * 16 + c - chr "A" + 10))
    else if (chr "0" <=? c) && (c <=? chr "9") then getHex n' (wrapU 32 (iCode * 16 + c - chr "0"))
    else throw TC_Json_Exception
  end.

(** The bytes of a code point. *)
Definition utf8 (iCode : Z) : list Z :=
  let low k := 0x80 + Z.land (Z.shiftr iCode k) 0x3F in
  if iCode <? 0x80 then [Z.land iCode 0xFF]
  else if iCode <? 0x800 then [0xC0 + Z.land (Z.shiftr iCode 6) 0x1F; low 0]
  else if iCode <? 0x10000 then [0xE0 + Z.land (Z.shiftr iCode 12) 0x0F; low 6; low 0]
  else [0xF0 + Z.land (Z.shiftr iCode 18) 0x07; low 12; low 6; low 0].

(** What an escape other than [\u] stands for; an unknown one for nothing. *)
Definition escaped (c : Z) : list Z :=
  if (c =? chr "\") || (c =? 34) || (c =? chr "/") then [c]
  else if c =? chr "b" then [8]
  else if c =? chr "f" then [12]
  else if c =? chr "n" then [10]
  else if c =? chr "r" then [13]
  else if c =? chr "t" then [9]
  else [].

(** The loop of [getString]: [acc] is [p->value], and the [i] characters at [pChar]
    are read but not yet appended. *)
Fixpoint string_loop (fuel : nat) (head pChar i : Z) (acc : list Z) : M (list Z) :=
  match fuel with
  | O => λ r, (NoFuel, r)
  | S fuel' =>
    let* c := read in
    if c =? chr "\" then
      let* seg := chars_at pChar i in
      let acc := acc ++ seg in
      let pChar := pChar + i + 2 in
      let* c := read in
      if c =? chr "u" then
        let* iCode := getHex 4 0 in
        string_loop fuel' head (pChar + 4) 0 (acc ++ utf8 iCode)
      else string_loop fuel' head pChar 0 (acc ++ escaped c)
    else if c =? head then let* seg := chars_at pChar i in ret (acc ++ seg)
    else string_loop fuel' head pChar (wrapU 32 (i + 1)) acc
  end.
Definition getString (head : Z) : M (list Z) :=
  let* pChar := getPoint in λ r, string_loop (S (length (buf r))) head pChar 0 [] r.

(** *** Numbers *)

(** The locals of [getNum]. *)
Record num := Num {
  bOk : bool; bFloat : bool; bExponential : bool; bExponentialNegative : bool;
  iInt : Z; dFloat : spec_float; dFloatRat : spec_float; iExponential : Z
}.

Definition is_digit (c : Z) : bool := (48 <=? c) && (c <=? 57).

(** One digit. *)
Definition digit (n : num) (c : Z) : num :=
  if bExponential n then
    Num true (bFloat n) true (bExponentialNegative n) (iInt n) (dFloat n) (dFloatRat n) (wrapS 64 (iExponential n * 10 + c - 48))
  else if bFloat n then
    Num true true false (bExponentialNegative n) (iInt n)
      (d_add (dFloat n) (d_mul (dFloatRat n) (d_of_int (c - 48)))) (d_mul (dFloatRat n) d_tenth) (iExponential n)
  else
    Num true false false (bExponentialNegative n) (wrapS 64 (iInt n * 10 + c - 48)) (dFloat n) (dFloatRat n) (iExponential n).

(** The loop of [getNum]; the result says whether a character is to be put back. *)
Fixpoint num_loop (fuel : nat) (n : num) : M (num * bool) :=
  match fuel with
  | O => λ r, (NoFuel, r)
  | S fuel' =>
    let* e := hasEnd in
    if (e : bool) then ret (n, false) else
    let* c := read in
    if is_digit c then num_loop fuel' (digit n c)
    else if (c =? chr ".") && negb (bFloat n) && negb (bExponential n) && bOk n then
      num_loop fuel' (Num false true (bExponential n) (bExponentialNegative n) (iInt n) (dFloat n) d_tenth (iExponential n))
    else if ((c =? chr "e") || (c =? chr "E")) && negb (bExponential n) && bOk n then
      let n := Num false (bFloat n) true (bExponentialNegative n) (iInt n) (dFloat n) (dFloatRat n) 0 in
      let* e := hasEnd in
      if (e : bool) then ret (n, false) else
      let* c := read in
      if c =? chr "-" then num_loop fuel' (Num false (bFloat n) true true (iInt n) (dFloat n) (dFloatRat n) 0)
      else if c =? chr "+" then num_loop fuel' (Num false (bFloat n) true false (iInt n) (dFloat n) (dFloatRat n) 0)
      else if is_digit c then
        num_loop fuel' (Num true (bFloat n) (negb (c - 48 =? 0)) (bExponentialNegative n) (iInt n) (dFloat n) (dFloatRat n) 0)
      else ret (n, true)
    else ret (n, true)
  end.

Section values.
Context `{JsonEnv} `{UnorderedMap}.

Definition getNum (head : Z) : M json :=
  let bNegative := head =? chr "-" in
  let n := Num (negb bNegative) false false false (if bNegative then 0 else head - 48) d_zero d_zero 0 in
  let* (n, bNeedBack) := (λ r, num_loop (S (length (buf r))) n r) in
  if negb (bOk n) then throw TC_Json_Exception else
  (if bNeedBack : bool then back else ret tt) ;;;
  let iExponential := if bExponentialNegative n then wrapS 64 (0 - iExponential n) else iExponential n in
  if bFloat n then
    let dResult := d_mul (d_add (d_of_int (iInt n)) (dFloat n)) (pow10 iExponential) in
    let dResult := if bNegative then d_sub d_zero dResult else dResult in
    ret (JsonValueNum dResult (d_trunc dResult) false)
  else
    let iInt := if bNegative then wrapS 64 (0 - iInt n) else iInt n in
    ret (JsonValueNum (d_of_int iInt) iInt true).

(** *** Words *)

(** The letters of a word, in either case. *)
Fixpoint letters (cs : list (Z * Z)) : M unit :=
  match cs with
  | [] => ret tt
  | (lower, upper) :: cs' =>
    let* c := read in if (c =? lower) || (c =? upper) then letters cs' else throw TC_Json_Exception
  end.
Definition cases (lower upper : string) : list (Z * Z) := zip (str lower) (str upper).

Definition getBoolean (c : Z) : M json :=
  if (c =? chr "t") || (c =? chr "T") then letters (cases "rue" "RUE") ;;; ret (JsonValueBoolean true)
  else if (c =? chr "f") || (c =? chr "F") then letters (cases "alse" "ALSE") ;;; ret (JsonValueBoolean false)
  else throw TC_Json_Exception.

Definition getNull (c : Z) : M json :=
  assert_that ((c =? chr "n") || (c =? chr "N")) ;;; letters (cases "ull" "ULL") ;;; ret JsonValueNull.

(** *** [getValue], [getObj], [getArray] *)

Fixpoint getValue (fuel : nat) : M json :=
  match fuel with
  | O => λ r, (NoFuel, r)
  | S fuel' =>
    let* c := read_token in
    if c =? chr "{" then let* ms := getObj fuel' true [] in ret (JsonValueObj ms)
    else if c =? chr "[" then let* l := getArray fuel' true [] in ret (JsonValueArray l)
    else if c =? 34 then let* s := getString c in ret (JsonValueString s)
    else if (c =? chr "T") || (c =? chr "t") || (c =? chr "F") || (c =? chr "f") then getBoolean c
    else if is_digit c || (c =? chr "-") then getNum c
    else if (c =? chr "n") || (c =? chr "N") then getNull c
    else throw TC_Json_Exception
  end
(** One round of the loop, and the rounds after it; [value] is [p->value]. *)
with getObj (fuel : nat) (bFirst : bool) (value : list (list Z * json)) : M (list (list Z * json)) :=
  match fuel with
  | O => λ r, (NoFuel, r)
  | S fuel' =>
    let* c := read_token in
    if (c =? chr "}") && bFirst then ret value else
    if negb (c =? 34) then throw TC_Json_Exception else
    let* pString := getString 34 in
    let* c := read_token in
    if negb (c =? chr ":") then throw TC_Json_Exception else
    let* pValue := getValue fuel' in
    let value := um_assign json value pString pValue in
    let* c := read_token in
    if c =? chr "," then getObj fuel' false value
    else if c =? chr "}" then ret value
    else throw TC_Json_Exception
  end
with getArray (fuel : nat) (bFirst : bool) (value : list json) : M (list json) :=
  match fuel with
  | O => λ r, (NoFuel, r)
  | S fuel' =>
    let* closed := (if bFirst then
        let* c := read_token in
        if c =? chr "]" then ret true else back ;;; ret false
      else ret false) in
    if (closed : bool) then ret value else
    let* pValue := getValue fuel' in
    let value := value ++ [pValue] in
    let* c := read_token in
    if c =? chr "," then getArray fuel' false value
    else if c =? chr "]" then ret value
    else throw TC_Json_Exception
  end.

(** [getValue(str)]. *)
Definition getValue_fuel (s : list Z) : nat := 2 * length s + 2.
Definition getValue_str (s : list Z) : outcome exn json := (getValue (getValue_fuel s) (setBuffer s)).1.

(** *** Writing to a string *)

(** The state is the string. *)
Abbreviation W := (prog (list Z) exn unit).
Definition put (s : list Z) : W := modify (λ ostr, ostr ++ s).

Definition hex_digit (d : Z) : Z := if d <? 10 then 48 + d else 97 + (d - 10).

(** The case of [writeString] for one character. *)
Definition escape (c : Z) : list Z :=
  if c =? 34 then [chr "\"; 34]
  else if c =? chr "\" then [chr "\"; chr "\"]
  else if c =? chr "/" then [chr "\"; chr "/"]
  else if c =? 8 then str "\b"
  else if c =? 12 then str "\f"
  else if c =? 10 then str "\n"
  else if c =? 13 then str "\r"
  else if c =? 9 then str "\t"
  else if c <? 0x20 then str "\u00" ++ [hex_digit (c / 16); hex_digit (c mod 16)]
  else [c].

Fixpoint write_chars (s : list Z) : W :=
  match s with [] => ret tt | c :: s' => put (escape c) ;;; write_chars s' end.
Definition writeString (s : list Z) : W := put [34] ;;; write_chars s ;;; put [34].

(** [ss << n] of an [int64_t]. *)
Fixpoint decimal (fuel : nat) (n : Z) (acc : list Z) : list Z :=
  match fuel with
  | O => acc
  | S fuel' => let acc := (48 + n mod 10) :: acc in if n <? 10 then acc else decimal fuel' (n / 10) acc
  end.
Definition print_int (n : Z) : list Z := if n <? 0 then chr "-" :: decimal 19 (- n) [] else decimal 19 n [].

Definition is_nan (d : spec_float) : bool := match d with S754_nan => true | _ => false end.

Definition writeNum (value : spec_float) (lvalue : Z) (isInt : bool) : W :=
  if is_nan value then put (str "null")
  else if negb isInt then put (print_double value)
  else put (print_int lvalue).

Definition writeBoolean (b : bool) : W := put (str (if b then "true" else "false")).

(** The loops of [writeObj] and [writeArray] over an iterator; [wv] is [writeValue]. *)
Definition write_members (wv : json → W) (sep comma : list Z) : list (list Z * json) → W :=
  fix go ms :=
    match ms with
    | [] => ret tt
    | (k, v) :: ms' =>
      writeString k ;;; put sep ;;; wv v ;;;
      match ms' with [] => ret tt | _ => put comma end ;;; go ms'
    end.
Definition write_items (wv : json → W) (comma : list Z) : list json → W :=
  fix go l :=
    match l with
    | [] => ret tt
    | v :: l' => wv v ;;; match l' with [] => ret tt | _ => put comma end ;;; go l'
    end.

(** [writeObj] and [writeArray]. *)
Definition writeObj (wv : json → W) (ms : list (list Z * json)) (withSpace : bool) : W :=
  put (str (if withSpace then "{ " else "{")) ;;;
  write_members wv (str (if withSpace then ": " else ":")) (str (if withSpace then ", " else ",")) ms ;;;
  put (str (if withSpace then " }" else "}")).
Definition writeArray (wv : json → W) (l : list json) (withSpace : bool) : W :=
  put (str (if withSpace then "[ " else "[")) ;;;
  write_items wv (str (if withSpace then ", " else ",")) l ;;;
  put (str (if withSpace then " ]" else "]")).

(** [writeValue(p, ostr, withSpace)]; the values inside are written without spaces. *)
Fixpoint writeValue (p : json) (withSpace : bool) : W :=
  match p with
  | JNil => put (str "null")
  | JsonValueString s => writeString s
  | JsonValueNum value lvalue isInt => writeNum value lvalue isInt
  | JsonValueObj ms => writeObj (λ v, writeValue v false) ms withSpace
  | JsonValueArray l => writeArray (λ v, writeValue v false) l withSpace
  | JsonValueBoolean b => writeBoolean b
  | JsonValueNull => assert_that false
  end.

(** [writeValue(p, withSpace)]. *)
Definition writeValue_str (p : json) (withSpace : bool) : outcome exn (list Z) :=
  match writeValue p withSpace [] with
  | (Ok _, s) => Ok s | (Throw e, _) => Throw e | (OutOfBounds, _) => OutOfBounds
  | (AssertFailed, _) => AssertFailed | (NoFuel, _) => NoFuel
  end.

(** *** [mergeJson] *)

Definition lookup_member (ms : list (list Z * json)) (k : list Z) : option json :=
  match list_find (λ kv, kv.1 = k) ms with Some (_, (_, v)) => Some v | None => None end.

(** [to] with [v] at [path]: missing objects on the way are created, and a value on
    the way that is no object is a null pointer after the cast. *)
Fixpoint set_at (path : list (list Z)) (v : json) : prog json exn unit := λ to,
  match path with
  | [] => (OutOfBounds, to)
  | k :: path' =>
    match to with
    | JsonValueObj ms =>
      match path' with
      | [] => (Ok tt, JsonValueObj (um_assign json ms k v))
      | _ =>
        let child := default (JsonValueObj []) (lookup_member ms k) in
        let '(r, child) := set_at path' v child in
        (r, JsonValueObj (um_assign json ms k child))
      end
    | _ => (Throw TC_AutoPtrNull_Exception, to)
    end
  end.

(** [mergeObj(from, to, path)]: the state is [to] and [path].  The path loses its end
    after a value that is no object, and only then. *)
Fixpoint mergeObj (from : json) : prog (json * list (list Z)) exn unit :=
  match from with
  | JNil => throw TC_AutoPtrNull_Exception
  | JsonValueObj ms =>
    (fix go ms :=
      match ms with
      | [] => ret tt
      | (k, v) :: ms' => modify (λ tp, (tp.1, tp.2 ++ [k])) ;;; mergeObj v ;;; go ms'
      end) ms
  | _ => λ tp, let '(r, to) := set_at tp.2 from tp.1 in
    match r with Ok _ => (Ok tt, (to, removelast tp.2)) | Throw e => (Throw e, (to, tp.2))
    | OutOfBounds => (OutOfBounds, (to, tp.2)) | AssertFailed => (AssertFailed, (to, tp.2)) | NoFuel => (NoFuel, (to, tp.2)) end
  end.

Definition obind {A B} (o : outcome exn A) (k : A → outcome exn B) : outcome exn B :=
  match o with Ok a => k a | Throw e => Throw e | OutOfBounds => OutOfBounds | AssertFailed => AssertFailed | NoFuel => NoFuel end.

Definition mergeJson (jsonLow jsonHigh : list Z) : outcome exn (list Z) :=
  obind (getValue_str jsonLow) (λ p1, obind (getValue_str jsonHigh) (λ p2,
    match p1, p2 with
    | JsonValueObj _, JsonValueObj _ =>
      let '(r, (p1, _)) := mergeObj p2 (p1, []) in obind r (λ _, writeValue_str p1 false)
    | _, _ => Throw TC_Json_Exception
    end)).
End values.

(** *** [TC_JsonWriteOstream] *)

Module Stream.
(** The state is what the stream has received. *)
Section stream.
Context `{JsonEnv}.

Definition space (withSpace : bool) : list Z := str (if withSpace then " " else "").

Fixpoint write_chars (s : list Z) : prog (list Z) exn unit :=
  match s with [] => ret tt | c :: s' => put (escape c) ;;; write_chars s' end.
Definition writeString (s : list Z) : prog (list Z) exn unit := put [34] ;;; write_chars s ;;; put [34].

Definition writeNum (value : spec_float) (lvalue : Z) (isInt : bool) : prog (list Z) exn unit :=
  if negb isInt then put (print_double value) else put (print_int lvalue).

Definition writeBoolean (b : bool) : prog (list Z) exn unit := if b then put (str "true") else put (str "false").

Definition write_members (wv : json → prog (list Z) exn unit) (withSpace : bool) : list (list Z * json) → prog (list Z) exn unit :=
  fix go ms :=
    match ms with
    | [] => ret tt
    | (k, v) :: ms' =>
      writeString k ;;; put (str ":") ;;; put (space withSpace) ;;; wv v ;;;
      match ms' with [] => ret tt | _ => put (str ",") ;;; put (space withSpace) end ;;; go ms'
    end.
Definition write_items (wv : json → prog (list Z) exn unit) (withSpace : bool) : list json → prog (list Z) exn unit :=
  fix go l :=
    match l with
    | [] => ret tt
    | v :: l' => wv v ;;; match l' with [] => ret tt | _ => put (str ",") ;;; put (space withSpace) end ;;; go l'
    end.

Definition writeObj (wv : json → prog (list Z) exn unit) (ms : list (list Z * json)) (withSpace : bool) : prog (list Z) exn unit :=
  put (str "{") ;;; put (space withSpace) ;;; write_members wv withSpace ms ;;; put (space withSpace) ;;; put (str "}").
Definition writeArray (wv : json → prog (list Z) exn unit) (l : list json) (withSpace : bool) : prog (list Z) exn unit :=
  put (str "[") ;;; put (space withSpace) ;;; write_items wv withSpace l ;;; put (space withSpace) ;;; put (str "]").

Fixpoint writeValue (p : json) (withSpace : bool) : prog (list Z) exn unit :=
  match p with
  | JNil => put (str "null")
  | JsonValueString s => writeString s
  | JsonValueNum value lvalue isInt => writeNum value lvalue isInt
  | JsonValueObj ms => writeObj (λ v, writeValue v false) ms withSpace
  | JsonValueArray l => writeArray (λ v, writeValue v false) l withSpace
  | JsonValueBoolean b => writeBoolean b
  | JsonValueNull => assert_that false
  end.
End stream.
End Stream.
End Json.

(** An environment and an [unordered_map] to compute with: entries in the order of
    their first assignment. *)
#[refine] Definition sample_env : JsonEnv :=
  {| pow10 e := binary_normalize 53 1024 (10 ^ e) 0 false; bad_cast _ := - 2 ^ 63; print_double _ := [] |}.
Proof. unfold in_S. lia. Defined.

Definition assign_last {A} (m : list (list Z * A)) (k : list Z) (v : A) : list (list Z * A) :=
  filter (λ kv, kv.1 ≠ k) m ++ [(k, v)].
#[export, refine] Instance sample_map : UnorderedMap := {| um_assign := @assign_last |}.
Proof. intros A m k v. unfold assign_last. by rewrite <- Permutation_cons_append. Defined.

#[local] Existing Instance sample_env.

(** A text with single quotes for double ones. *)
Definition text (s : string) : list Z := map (λ c, if c =? 39 then 34 else c) (str s).

Example parse_sample :
  Json.getValue_str (text "{ 'a' : [1, -20, true], 'b\n' : nULL }") = Ok (Json.JsonValueObj
    [(str "a", Json.JsonValueArray [Json.JsonValueNum (Json.d_of_int 1) 1 true; Json.JsonValueNum (Json.d_of_int (-20)) (-20) true; Json.JsonValueBoolean true]);
     (str "b" ++ [10], Json.JsonValueNull)]).
Proof. vm_compute. reflexivity. Qed.

(** The first digit of an exponent is lost, and an exponent of zero is none. *)
Example parse_exponents :
  Json.getValue_str (str "3e2") = Ok (Json.JsonValueNum (Json.d_of_int 3) 3 true) ∧
  Json.getValue_str (str "1e05") = Ok (Json.JsonValueNum (Json.d_of_int 15) 15 true).
Proof. split; vm_compute; reflexivity. Qed.

(** The path keeps the name of an object behind it. *)
Example merge_misplaces :
  Json.mergeJson (text "{}") (text "{'a':{'b':1},'c':2}") = Ok (text "{'a':{'b':1,'c':2}}").
Proof. vm_compute. reflexivity. Qed.
