(* ===== verification/JsonSpec.v ===== *)
(** [Json]: the reader stays inside its buffer and returns well-formed values; what
    the writers write, as a function of the value. *)
From stdpp Require Import prelude strings list.
From Stdlib Require Import ZArith Lia Ascii SpecFloat.
From S2P Require Import Prelude Bytes Json.
Import Json.

(** * Well-formed values *)

Section typed.
Context `{JsonEnv} `{UnorderedMap}.

#[local] Unset Elimination Schemes.
(** No null pointers, one entry for a key, bytes in strings, and numbers that fit. *)
Inductive typed : json → Prop :=
  | typed_string s : bytes_ok s → typed (JsonValueString s)
  | typed_num d l i : in_S 64 l → (i = true → d = d_of_int l) → typed (JsonValueNum d l i)
  | typed_obj ms : NoDup ms.*1 → Forall (λ kv, bytes_ok kv.1 ∧ typed kv.2) ms → typed (JsonValueObj ms)
  | typed_array l : Forall typed l → typed (JsonValueArray l)
  | typed_bool b : typed (JsonValueBoolean b)
  | typed_null : typed JsonValueNull.
#[local] Set Elimination Schemes.

Definition members_typed (ms : list (list Z * json)) : Prop :=
  NoDup ms.*1 ∧ Forall (λ kv, bytes_ok kv.1 ∧ typed kv.2) ms.

Lemma assign_typed ms k v : members_typed ms → bytes_ok k → typed v → members_typed (um_assign json ms k v).
Proof.
  intros [Hnd Hms] Hk Hv. pose proof (um_assign_spec json ms k v) as Hp. split.
  - rewrite Hp. cbn. apply NoDup_cons. split.
    + intros (kv & -> & Hin)%list_elem_of_fmap. by apply list_elem_of_filter in Hin as [? _].
    + by apply NoDup_map_filter.
  - rewrite Hp. constructor; [done |]. by apply Forall_filter.
Qed.

(** ** The reader stays inside its buffer *)

(** From [c] on, [m] leaves the position between [lo] and the end, or throws. *)
Definition uptof {A} (b : list Z) (m : M A) (c : Z) (lo : A → Z) (Q : A → Prop) : Prop :=
  runs m (mk b c) (λ a r, buf r = b ∧ lo a ≤ cur r ≤ zlen b ∧ Q a) (λ e _, e = TC_Json_Exception).
Definition upto {A} (b : list Z) (m : M A) (c lo : Z) (Q : A → Prop) : Prop := uptof b m c (λ _, lo) Q.

Lemma uptof_bind {A B} b (m : M A) (k : A → M B) c lo lo' Q Q' :
  uptof b m c lo Q → (∀ a c', lo a ≤ c' ≤ zlen b → Q a → uptof b (k a) c' lo' Q') → uptof b (bind m k) c lo' Q'.
Proof.
  unfold uptof. intros Hm Hk. apply runs_bind. eapply runs_weaken_post; [exact Hm |].
  intros a [b' c'] (Eb & Hc & HQ). cbn in *. subst b'. by apply Hk.
Qed.

Lemma upto_bind {A B} b (m : M A) (k : A → M B) c lo lo' Q Q' :
  upto b m c lo Q → (∀ a c', lo ≤ c' ≤ zlen b → Q a → upto b (k a) c' lo' Q') → upto b (bind m k) c lo' Q'.
Proof. apply uptof_bind. Qed.

Lemma upto_ret {A} b (a : A) c lo (Q : A → Prop) : lo ≤ c ≤ zlen b → Q a → upto b (ret a) c lo Q.
Proof. done. Qed.
Lemma upto_throw {A} b c lo (Q : A → Prop) : upto b (throw TC_Json_Exception) c lo Q.
Proof. done. Qed.
Lemma upto_weaken {A} b (m : M A) c lo lo' (Q Q' : A → Prop) :
  upto b m c lo Q → lo' ≤ lo → (∀ a, Q a → Q' a) → upto b m c lo' Q'.
Proof. unfold upto, uptof. intros Hm Hlo HQ. eapply runs_weaken_post; [exact Hm |]. intros a r (? & ? & ?). split; [done |]. split; [lia | auto]. Qed.

Section buffer.
Context (b : list Z) (Hb : bytes_ok b).

Lemma read_upto c : 0 ≤ c ≤ zlen b → upto b read c (c + 1) is_byte.
Proof.
  intros Hc. unfold upto, uptof, read, check. unfold runs, bind at 1. cbn [buf cur]. destruct (Z.ltb_spec (zlen b) (c + 1)); [done |].
  destruct (lookup_lt_is_Some_2 b (Z.to_nat c)) as [x Ex]; [lia |]. unfold bind, peek. cbn [buf cur]. rewrite Ex.
  cbn. split; [done |]. split; [lia |]. exact (Forall_lookup_1 _ _ _ _ Hb Ex).
Qed.

Lemma back_upto c : 0 < c ≤ zlen b → upto b back c (c - 1) (λ _, True).
Proof.
  intros Hc. unfold upto, uptof, back. apply runs_bind, runs_get, runs_bind, runs_assert; [apply Z.ltb_lt; cbn; lia |].
  apply runs_modify. cbn. split_and!; done || lia.
Qed.

Lemma filter_space_upto fuel : ∀ ch c, 0 ≤ c ≤ zlen b → is_byte ch → (Z.to_nat (zlen b - c) < fuel)%nat →
  upto b (filter_space fuel ch) c c is_byte.
Proof.
  induction fuel as [|fuel IH]; intros ch c Hc Hch Hf; [lia |]. cbn [filter_space].
  destruct (isspace ch); [|apply upto_ret; [lia | done]]. eapply upto_bind; [by apply read_upto |].
  intros a c' Hc' Ha. eapply upto_weaken; [apply IH; done || lia | lia | done].
Qed.

Lemma FILTER_SPACE_upto ch c : 0 ≤ c ≤ zlen b → is_byte ch → upto b (FILTER_SPACE ch) c c is_byte.
Proof. intros Hc Hch. change (upto b (filter_space (S (length b)) ch) c c is_byte). apply filter_space_upto; done || lia. Qed.

Lemma read_token_upto c : 0 ≤ c ≤ zlen b → upto b read_token c (c + 1) is_byte.
Proof.
  intros Hc. eapply upto_bind; [by apply read_upto |]. intros a c' Hc' Ha.
  eapply upto_weaken; [apply FILTER_SPACE_upto; done || lia | lia | done].
Qed.

(** *** Strings *)

Lemma getHex_upto n : ∀ iCode c, 0 ≤ c ≤ zlen b → 0 ≤ iCode → upto b (getHex n iCode) c (c + Z.of_nat n) (λ x, 0 ≤ x).
Proof.
  induction n as [|n IH]; intros iCode c Hc Hi; cbn [getHex]; [apply upto_ret; lia |].
  eapply upto_bind; [by apply read_upto |]. intros a c' Hc' Ha.
  assert (Hnext : ∀ x, 0 ≤ x → upto b (getHex n x) c' (c + Z.of_nat (S n)) (λ x, 0 ≤ x)).
  { intros x Hx. eapply upto_weaken; [apply IH; lia | lia | done]. }
  repeat case_match; try (by apply upto_throw); apply Hnext; apply wrapU_range; lia.
Qed.

Lemma land_bound x m k : 0 ≤ k → m = Z.ones k → 0 ≤ Z.land x m < 2 ^ k.
Proof. intros Hk ->. rewrite Z.land_ones by done. apply Z.mod_pos_bound. by apply pow2_pos. Qed.

Lemma utf8_ok iCode : 0 ≤ iCode → bytes_ok (utf8 iCode).
Proof.
  intros Hi. unfold utf8, is_byte.
  pose proof (λ x, land_bound x 0xFF 8 ltac:(lia) eq_refl). pose proof (λ x, land_bound x 0x3F 6 ltac:(lia) eq_refl).
  pose proof (λ x, land_bound x 0x1F 5 ltac:(lia) eq_refl). pose proof (λ x, land_bound x 0x0F 4 ltac:(lia) eq_refl).
  pose proof (λ x, land_bound x 0x07 3 ltac:(lia) eq_refl).
  repeat case_match; repeat (apply Forall_cons; split); try apply Forall_nil_2;
    match goal with |- context [Z.land ?x ?m] =>
      repeat match goal with Hl : ∀ x, 0 ≤ Z.land x _ < _ |- _ => specialize (Hl x) end end; lia.
Qed.

Lemma escaped_ok c : is_byte c → bytes_ok (escaped c).
Proof. intros Hc. unfold escaped. repeat case_match; repeat constructor; done || (unfold is_byte in *; lia). Qed.

Lemma chars_at_upto p n c : 0 ≤ p → 0 ≤ n → p + n ≤ c ≤ zlen b → upto b (chars_at p n) c c bytes_ok.
Proof.
  intros Hp Hn Hc. unfold upto, uptof, chars_at, runs. cbn [buf]. destruct (mem_read_Some b p n) as [s Hs]; [lia..|].
  rewrite Hs. split; [done |]. split; [cbn; lia | by eapply mem_read_ok].
Qed.

Lemma string_loop_upto fuel head : ∀ pChar i acc c, 0 ≤ pChar → 0 ≤ i → pChar + i ≤ c ≤ zlen b → bytes_ok acc →
  (Z.to_nat (zlen b - c) < fuel)%nat → upto b (string_loop fuel head pChar i acc) c (c + 1) bytes_ok.
Proof.
  induction fuel as [|fuel IH]; intros pChar i acc c Hp Hi Hc Hacc Hf; [lia |]. cbn [string_loop].
  eapply upto_bind; [apply read_upto; lia |]. intros ch c1 Hc1 Hch. destruct (ch =? chr "\").
  - eapply upto_bind; [apply chars_at_upto; lia |]. intros seg c2 Hc2 Hseg.
    eapply upto_bind; [apply read_upto; lia |]. intros e c3 Hc3 He. destruct (e =? chr "u").
    + eapply upto_bind; [apply (getHex_upto 4 0); lia |]. intros iCode c4 Hc4 Hcode.
      eapply upto_weaken; [apply IH | lia | done]; try lia. rewrite !Forall_app. split_and!; [done.. | by apply utf8_ok].
    + eapply upto_weaken; [apply IH | lia | done]; try lia. rewrite !Forall_app. split_and!; [done.. | by apply escaped_ok].
  - destruct (ch =? head).
    + eapply upto_bind; [apply chars_at_upto; lia |]. intros seg c2 Hc2 Hseg. apply upto_ret; [lia | by apply Forall_app].
    + pose proof (wrapU_range 32 (i + 1) ltac:(lia)) as [Hw _]. pose proof (Z.mod_le (i + 1) (2 ^ 32) ltac:(lia) ltac:(lia)).
      unfold wrapU in *. eapply upto_weaken; [apply IH | lia | done]; done || lia.
Qed.

Lemma getString_upto head c : 0 ≤ c ≤ zlen b → upto b (getString head) c (c + 1) bytes_ok.
Proof.
  intros Hc. unfold getString. eapply (upto_bind b getPoint _ c c _ (λ p, p = c)); [split; [done | cbn; lia] |].
  intros p c' Hc' ->. change (upto b (string_loop (S (length b)) head c 0 []) c' (c + 1) bytes_ok).
  eapply upto_weaken; [apply string_loop_upto; try done; lia | lia | done].
Qed.

(** *** Numbers and words *)

Lemma digit_iInt n c : in_S 64 (iInt n) → in_S 64 (iInt (digit n c)).
Proof. intros Hn. unfold digit. repeat case_match; cbn; try done. apply wrapS_range. lia. Qed.

(** A character that is to be put back was read here. *)
Lemma num_loop_upto fuel : ∀ n c, 0 ≤ c ≤ zlen b → in_S 64 (iInt n) → (Z.to_nat (zlen b - c) < fuel)%nat →
  uptof b (num_loop fuel n) c (λ nb, if nb.2 then c + 1 else c) (λ nb, in_S 64 (iInt nb.1)).
Proof.
  induction fuel as [|fuel IH]; intros n c Hc Hn Hf; [lia |]. cbn [num_loop].
  assert (Hend : ∀ c, 0 ≤ c ≤ zlen b → upto b hasEnd c c (λ e, e = false → c < zlen b)).
  { intros c1 Hc1. split; [done |]. split; [cbn; lia |]. cbn. intros ?%Z.leb_gt. lia. }
  eapply uptof_bind; [by apply Hend |]. intros e c0 Hc0 He. destruct e; [split_and!; done || (cbn; lia) |].
  eapply uptof_bind; [apply read_upto; lia |]. intros ch c1 Hc1 Hch.
  set (lo := λ nb : num * bool, if nb.2 then c + 1 else c).
  assert (Hnext : ∀ n' c', c1 ≤ c' ≤ zlen b → in_S 64 (iInt n') → uptof b (num_loop fuel n') c' lo (λ nb, in_S 64 (iInt nb.1))).
  { intros n' c' Hc' Hn'. eapply runs_weaken_post; [apply IH; done || lia |]. intros [n1 []] r (? & ? & ?); cbn in *; split_and!; done || lia. }
  assert (Hret : ∀ n' bk c', c1 ≤ c' ≤ zlen b → in_S 64 (iInt n') → uptof b (ret (n', bk)) c' lo (λ nb, in_S 64 (iInt nb.1))).
  { intros n' [] c' Hc' Hn'; split_and!; done || (cbn; lia). }
  destruct (is_digit ch); [apply Hnext; [lia | by apply digit_iInt] |].
  destruct (_ && _ && _ && _); [apply Hnext; done || lia |].
  destruct (_ && _ && _); [|apply Hret; done || lia].
  eapply uptof_bind; [apply Hend; lia |]. intros e c2 Hc2 He2. destruct e; [apply Hret; done || lia |].
  eapply uptof_bind; [apply read_upto; lia |]. intros ch2 c3 Hc3 Hch2.
  repeat case_match; try (apply Hnext; done || lia). apply Hret; done || lia.
Qed.

Lemma d_trunc_range d : in_S 64 (d_trunc d).
Proof.
  unfold d_trunc. destruct d as [ | | |sg m e]; try apply bad_cast_range; [unfold in_S; lia |].
  case_bool_decide; [done | apply bad_cast_range].
Qed.

Lemma getNum_upto head c : 1 ≤ c ≤ zlen b → is_digit head || (head =? chr "-") = true → upto b (getNum head) c c typed.
Proof.
  intros Hc Hhead. unfold getNum. cbv zeta.
  assert (Hstart : uptof b (λ r, num_loop (S (length (buf r))) (Num (negb (head =? chr "-")) false false false (if head =? chr "-" then 0 else head - 48) d_zero d_zero 0) r)
      c (λ nb, if nb.2 then c + 1 else c) (λ nb, in_S 64 (iInt nb.1))).
  { apply (num_loop_upto (S (length b))); [lia | | lia]. cbn [iInt]. unfold is_digit in Hhead. unfold in_S.
    destruct (head =? chr "-"); [lia |]. rewrite orb_false_r, andb_true_iff, !Z.leb_le in Hhead. lia. }
  eapply uptof_bind; [exact Hstart |]. intros [n bNeedBack] c1 Hc1 Hn. cbn [fst snd] in *. destruct (negb (bOk n)); [apply upto_throw |].
  apply (upto_bind b _ _ c1 c c (λ _, True)).
  { destruct bNeedBack; [eapply upto_weaken; [apply back_upto; lia | lia | done] | apply upto_ret; done || lia]. }
  intros _ c2 Hc2 _. destruct (bFloat n); apply upto_ret; try lia; constructor; try done.
  - apply d_trunc_range.
  - destruct (head =? chr "-"); [apply wrapS_range; lia | done].
Qed.

Lemma letters_upto cs : ∀ c, 0 ≤ c ≤ zlen b → upto b (letters cs) c c (λ _, True).
Proof.
  induction cs as [|[l u] cs IH]; intros c Hc; cbn [letters]; [apply upto_ret; done || lia |].
  eapply upto_bind; [by apply read_upto |]. intros ch c1 Hc1 Hch.
  destruct (_ || _); [|apply upto_throw]. eapply upto_weaken; [apply IH; lia | lia | done].
Qed.

Lemma getBoolean_upto ch c : 0 ≤ c ≤ zlen b → upto b (getBoolean ch) c c typed.
Proof.
  intros Hc. unfold getBoolean. repeat case_match; try apply upto_throw;
    (eapply upto_bind; [by apply letters_upto |]); intros _ c1 Hc1 _; apply upto_ret; try lia; constructor.
Qed.

Lemma getNull_upto ch c : 0 ≤ c ≤ zlen b → (ch =? chr "n") || (ch =? chr "N") = true → upto b (getNull ch) c c typed.
Proof.
  intros Hc Hch. unfold getNull. eapply (upto_bind b _ _ c c c (λ _, True)); [by rewrite Hch; split; [done | cbn; lia] |].
  intros _ c1 Hc1 _. eapply upto_bind; [apply letters_upto; lia |]. intros _ c2 Hc2 _. apply upto_ret; [lia | constructor].
Qed.

(** *** The recursion *)

Lemma values_upto fuel :
  (∀ c, 0 ≤ c ≤ zlen b → (2 * Z.to_nat (zlen b - c) + 1 ≤ fuel)%nat → upto b (getValue fuel) c (c + 1) typed) ∧
  (∀ c first ms, 0 ≤ c ≤ zlen b → (2 * Z.to_nat (zlen b - c) + 2 ≤ fuel)%nat → members_typed ms →
     upto b (getObj fuel first ms) c (c + 1) members_typed) ∧
  (∀ c first l, 0 ≤ c ≤ zlen b → (2 * Z.to_nat (zlen b - c) + 2 ≤ fuel)%nat → Forall typed l →
     upto b (getArray fuel first l) c (c + 1) (Forall typed)).
Proof.
  induction fuel as [|fuel (IHv & IHo & IHa)]; [split_and!; intros; lia |].
  split_and!.
  - intros c Hc Hf. cbn [getValue]. eapply upto_bind; [by apply read_token_upto |]. intros ch c1 Hc1 Hch.
    assert (Hsub : ∀ (m : M json), upto b m c1 c1 typed → upto b m c1 (c + 1) typed) by (intros m Hm; eapply upto_weaken; [exact Hm | lia | done]).
    case_match; [|case_match; [|case_match]].
    + eapply upto_bind; [apply IHo; [lia | lia | by split; constructor] |]. intros ms c2 Hc2 Hms. apply upto_ret; [lia |]. by constructor; apply Hms.
    + eapply upto_bind; [apply IHa; [lia | lia | constructor] |]. intros l c2 Hc2 Hl. apply upto_ret; [lia | by constructor].
    + eapply upto_bind; [apply getString_upto; lia |]. intros s c2 Hc2 Hs. apply upto_ret; [lia | by constructor].
    + apply Hsub. repeat case_match; [apply getBoolean_upto; lia | apply getNum_upto; done || lia | apply getNull_upto; done || lia | apply upto_throw].
  - intros c first ms Hc Hf Hms. cbn [getObj]. eapply upto_bind; [by apply read_token_upto |]. intros ch c1 Hc1 Hch.
    destruct (_ && _); [apply upto_ret; done || lia |]. destruct (negb _); [apply upto_throw |].
    eapply upto_bind; [apply getString_upto; lia |]. intros key c2 Hc2 Hkey.
    eapply upto_bind; [apply read_token_upto; lia |]. intros ch2 c3 Hc3 Hch2. destruct (negb _); [apply upto_throw |].
    eapply upto_bind; [apply IHv; lia |]. intros v c4 Hc4 Hv.
    eapply upto_bind; [apply read_token_upto; lia |]. intros ch3 c5 Hc5 Hch3.
    pose proof (assign_typed ms key v Hms Hkey Hv).
    repeat case_match; [| apply upto_ret; done || lia | apply upto_throw].
    eapply upto_weaken; [apply IHo; done || lia | lia | done].
  - intros c first l Hc Hf Hl. cbn [getArray].
    apply (uptof_bind b _ _ c (λ closed : bool, if closed then c + 1 else c) _ (λ _, True)).
    { destruct first; [|split; [done | split; [cbn; lia | done]]]. eapply uptof_bind; [by apply read_token_upto |]. intros ch c1 Hc1 _.
      case_match; [split; [done | split; [cbn; lia | done]] |].
      eapply uptof_bind; [apply back_upto; lia |]. intros u c2 Hc2 _. split; [done | split; [cbn; lia | done]]. }
    intros closed c1 Hc1 _. destruct closed; [apply upto_ret; done || lia |].
    eapply upto_bind; [apply IHv; lia |]. intros v c2 Hc2 Hv.
    assert (Hl' : Forall typed (l ++ [v])) by (apply Forall_app; split; [done | by constructor]).
    eapply upto_bind; [apply read_token_upto; lia |]. intros ch3 c3 Hc3 Hch3.
    repeat case_match; [| apply upto_ret; done || lia | apply upto_throw].
    eapply upto_weaken; [apply IHa; done || lia | lia | done].
Qed.
End buffer.

Lemma getValue_str_typed s : bytes_ok s →
  (∃ v, getValue_str s = Ok v ∧ typed v) ∨ getValue_str s = Throw TC_Json_Exception.
Proof.
  intros Hs. destruct (values_upto s Hs (getValue_fuel s)) as [Hv _].
  specialize (Hv 0 ltac:(lia) ltac:(unfold getValue_fuel; lia)). unfold getValue_str.
  unfold upto, uptof, runs, setBuffer in *. destruct (getValue _ _) as [[v|e| | |] r]; try done.
  - left. exists v. split; [done | apply Hv].
  - right. by rewrite Hv.
Qed.
End typed.

(** * What the writers write *)

Section written.
Context `{JsonEnv}.

(** A null object somewhere; it is not a null pointer. *)
Fixpoint has_null (v : json) : bool :=
  match v with
  | JsonValueNull => true
  | JsonValueObj ms => existsb (λ kv, has_null kv.2) ms
  | JsonValueArray l => existsb has_null l
  | _ => false
  end.

(** A number without a value somewhere. *)
Fixpoint has_nan (v : json) : bool :=
  match v with
  | JsonValueNum d _ _ => is_nan d
  | JsonValueObj ms => existsb (λ kv, has_nan kv.2) ms
  | JsonValueArray l => existsb has_nan l
  | _ => false
  end.

(** The texts. *)
Definition quoted (s : list Z) : list Z := [34] ++ flat_map escape s ++ [34].
Definition members_text (vt : json → list Z) (ws : list Z) : list (list Z * json) → list Z :=
  fix go ms :=
    match ms with
    | [] => []
    | (k, v) :: ms' => quoted k ++ (str ":" ++ ws) ++ vt v ++ match ms' with [] => [] | _ => str "," ++ ws end ++ go ms'
    end.
Definition items_text (vt : json → list Z) (ws : list Z) : list json → list Z :=
  fix go l :=
    match l with
    | [] => []
    | v :: l' => vt v ++ match l' with [] => [] | _ => str "," ++ ws end ++ go l'
    end.
Definition blank (withSpace : bool) : list Z := if withSpace then [32] else [].

Fixpoint json_text (v : json) (withSpace : bool) : list Z :=
  match v with
  | JNil | JsonValueNull => str "null"
  | JsonValueString s => quoted s
  | JsonValueNum d l i => if is_nan d then str "null" else if i then print_int l else print_double d
  | JsonValueObj ms => str "{" ++ blank withSpace ++ members_text (λ v, json_text v false) (blank withSpace) ms ++ blank withSpace ++ str "}"
  | JsonValueArray l => str "[" ++ blank withSpace ++ items_text (λ v, json_text v false) (blank withSpace) l ++ blank withSpace ++ str "]"
  | JsonValueBoolean b => str (if b then "true" else "false")
  end.

(** [w] writes [t], or fails the assert. *)
Definition writes_or (w : prog (list Z) exn unit) (fails : bool) (t : list Z) : Prop :=
  ∀ s, if fails then (w s).1 = AssertFailed else w s = (Ok tt, s ++ t).

Lemma writes_put t : writes_or (put t) false t.
Proof. done. Qed.

Lemma writes_or_ret : writes_or (ret tt) false [].
Proof. intros s. unfold ret. by rewrite app_nil_r. Qed.

Lemma writes_or_bind w1 w2 f1 f2 t1 t2 : writes_or w1 f1 t1 → writes_or w2 f2 t2 → writes_or (w1 ;;; w2) (f1 || f2) (t1 ++ t2).
Proof.
  intros H1 H2 s. specialize (H1 s). destruct f1; cbn [orb].
  - unfold bind. destruct (w1 s) as [[] ?]; cbn in *; done.
  - rewrite (bind_Ok _ _ _ _ _ H1). specialize (H2 (s ++ t1)). by rewrite <- (assoc_L app) in H2.
Qed.

Lemma writes_or_eq w f f' t t' : writes_or w f t → f = f' → t = t' → writes_or w f' t'.
Proof. by intros Hw -> ->. Qed.

Lemma write_chars_text s : writes_or (write_chars s) false (flat_map escape s).
Proof.
  induction s as [|c s IH]; [apply writes_or_ret |]. apply (writes_or_bind (put (escape c)) _ false false); [apply writes_put | exact IH].
Qed.

Lemma writeString_text s : writes_or (writeString s) false (quoted s).
Proof.
  apply (writes_or_bind _ _ false false); [apply writes_put |].
  apply (writes_or_bind _ _ false false); [apply write_chars_text | apply writes_put].
Qed.

Lemma members_written wv vt fails ws ms : Forall (λ kv, writes_or (wv kv.2) (fails kv.2) (vt kv.2)) ms →
  writes_or (write_members wv (str ":" ++ ws) (str "," ++ ws) ms) (existsb (λ kv, fails kv.2) ms) (members_text vt ws ms).
Proof.
  induction 1 as [|[k v] ms Hv Hms IH]; [apply writes_or_ret |]. cbn [write_members existsb members_text].
  apply (writes_or_bind _ _ false (fails v || _)); [apply writeString_text |].
  apply (writes_or_bind _ _ false (fails v || _)); [apply writes_put |]. apply writes_or_bind; [exact Hv |].
  apply (writes_or_bind _ _ false); [|exact IH]. destruct ms; [apply writes_or_ret | apply writes_put].
Qed.

Lemma items_written wv vt fails ws l : Forall (λ v, writes_or (wv v) (fails v) (vt v)) l →
  writes_or (write_items wv (str "," ++ ws) l) (existsb fails l) (items_text vt ws l).
Proof.
  induction 1 as [|v l Hv Hl IH]; [apply writes_or_ret |]. cbn [write_items existsb items_text].
  apply writes_or_bind; [exact Hv |]. apply (writes_or_bind _ _ false); [|exact IH]. destruct l; [apply writes_or_ret | apply writes_put].
Qed.

Lemma writeValue_text v : ∀ sp, writes_or (writeValue v sp) (has_null v) (json_text v sp).
Proof.
  induction v as [ |s|d l i|ms IH|l IH|b| ] using json_ind; intros sp; cbn [writeValue has_null json_text].
  - apply writes_put.
  - apply writeString_text.
  - unfold writeNum. destruct (is_nan d), i; apply writes_put.
  - unfold writeObj. eapply writes_or_eq.
    + apply (writes_or_bind _ _ false); [apply writes_put |]. apply (writes_or_bind _ _ (existsb (λ kv, has_null kv.2) ms) false); [|apply writes_put].
      assert (Hm : Forall (λ kv, writes_or (writeValue kv.2 false) (has_null kv.2) (json_text kv.2 false)) ms)
        by (eapply Forall_impl; [exact IH | auto]).
      pose proof (members_written (λ v, writeValue v false) (λ v, json_text v false) has_null (blank sp) ms Hm) as Hw.
      destruct sp; exact Hw.
    + by rewrite orb_false_r.
    + destruct sp; cbn; by rewrite <- ?(assoc_L app).
  - unfold writeArray. eapply writes_or_eq.
    + apply (writes_or_bind _ _ false); [apply writes_put |]. apply (writes_or_bind _ _ (existsb has_null l) false); [|apply writes_put].
      assert (Hm : Forall (λ v, writes_or (writeValue v false) (has_null v) (json_text v false)) l)
        by (eapply Forall_impl; [exact IH | auto]).
      pose proof (items_written (λ v, writeValue v false) (λ v, json_text v false) has_null (blank sp) l Hm) as Hw.
      destruct sp; exact Hw.
    + by rewrite orb_false_r.
    + destruct sp; cbn; by rewrite <- ?(assoc_L app).
  - apply writes_put.
  - intros s. done.
Qed.

(** ** The two writers *)

Lemma bind_ext {S E A B} (m m' : prog S E A) (k k' : A → prog S E B) :
  (∀ s, m s = m' s) → (∀ a s, k a s = k' a s) → ∀ s, bind m k s = bind m' k' s.
Proof. intros Hm Hk s. unfold bind. rewrite Hm. destruct (m' s) as [[] ?]; auto. Qed.

Lemma put_put a c s : (put a ;;; put c) s = put (a ++ c) s.
Proof. unfold bind, put, modify. by rewrite (assoc_L app). Qed.

(** A literal written in two parts. *)
Lemma put_put_bind {B} a c (k : prog (list Z) exn B) s : (put a ;;; put c ;;; k) s = (put (a ++ c) ;;; k) s.
Proof. rewrite <- bind_assoc. apply bind_ext; [apply put_put | done]. Qed.

Lemma stream_chars s : ∀ t, Stream.write_chars s t = write_chars s t.
Proof. induction s as [|c s IH]; intros t; [done |]. by apply bind_ext. Qed.
Lemma stream_string s t : Stream.writeString s t = writeString s t.
Proof. apply bind_ext; [done |]. intros _. apply bind_ext; [apply stream_chars | done]. Qed.

Lemma stream_members wv wv' sp ms : Forall (λ kv, ∀ t, wv kv.2 t = wv' kv.2 t) ms →
  ∀ t, Stream.write_members wv sp ms t =
    write_members wv' (str (if sp then ": " else ":")) (str (if sp then ", " else ",")) ms t.
Proof.
  induction 1 as [|[k v] ms Hv Hms IH]; intros t; [done |]. cbn [Stream.write_members write_members].
  apply bind_ext; [apply stream_string |]. intros _ t1. rewrite put_put_bind.
  apply bind_ext; [intros; unfold Stream.space; by destruct sp |]. intros _. apply bind_ext; [exact Hv |]. intros _.
  apply bind_ext; [|intros _; exact IH]. intros t2. destruct ms; [done |]. rewrite put_put. unfold Stream.space. by destruct sp.
Qed.

Lemma stream_items wv wv' sp l : Forall (λ v, ∀ t, wv v t = wv' v t) l →
  ∀ t, Stream.write_items wv sp l t = write_items wv' (str (if sp then ", " else ",")) l t.
Proof.
  induction 1 as [|v l Hv Hl IH]; intros t; [done |]. cbn [Stream.write_items write_items].
  apply bind_ext; [exact Hv |]. intros _. apply bind_ext; [|intros _; exact IH]. intros t2.
  destruct l; [done |]. rewrite put_put. unfold Stream.space. by destruct sp.
Qed.

Lemma existsb_false {A} (f : A → bool) l x : existsb f l = false → x ∈ l → f x = false.
Proof.
  intros Hl Hx. destruct (f x) eqn:E; [|done]. rewrite <- Hl. symmetry. apply existsb_exists. exists x. by rewrite <- list_elem_of_In.
Qed.

Lemma stream_value v : has_nan v = false → ∀ sp t, Stream.writeValue v sp t = writeValue v sp t.
Proof.
  induction v as [ |s|d l i|ms IH|l IH|b| ] using json_ind; intros Hn sp t; cbn [Stream.writeValue writeValue has_nan] in *; try done.
  - unfold Stream.writeNum, writeNum. by rewrite Hn.
  - unfold Stream.writeObj, writeObj. rewrite put_put_bind. apply bind_ext; [intros; unfold Stream.space; by destruct sp |].
    intros _. apply bind_ext; [|intros _ t1; rewrite put_put; unfold Stream.space; by destruct sp].
    apply stream_members. apply Forall_forall. intros kv Hin t1. rewrite Forall_forall in IH. apply IH; [done |]. exact (existsb_false (λ kv, has_nan kv.2) ms kv Hn Hin).
  - unfold Stream.writeArray, writeArray. rewrite put_put_bind. apply bind_ext; [intros; unfold Stream.space; by destruct sp |].
    intros _. apply bind_ext; [|intros _ t1; rewrite put_put; unfold Stream.space; by destruct sp].
    apply stream_items. apply Forall_forall. intros v Hin t1. rewrite Forall_forall in IH. apply IH; [done |]. exact (existsb_false has_nan l v Hn Hin).
  - by destruct b.
Qed.
End written.
