(* ===== verification/JsonTheorems.v ===== *)
(** [Json]: reading back what was written, and the properties of the component. *)
From stdpp Require Import prelude strings list.
From Stdlib Require Import ZArith Lia Ascii SpecFloat.
From S2P Require Import Prelude Bytes Json JsonSpec.
Import Json.

(** * Reading a text in front of another *)

Section parses.

(** [m] reads [t] as [a], wherever it stands, in front of anything that [P] admits. *)
Definition parses {A} (P : list Z → Prop) (m : M A) (t : list Z) (a : A) : Prop :=
  ∀ pre post, P post → zlen (pre ++ t ++ post) < 2 ^ 32 →
    m (mk (pre ++ t ++ post) (zlen pre)) = (Ok a, mk (pre ++ t ++ post) (zlen (pre ++ t))).

Definition any (_ : list Z) : Prop := True.

(** What may stand behind a number. *)
Definition num_char (c : Z) : bool := is_digit c || (c =? chr ".") || (c =? chr "e") || (c =? chr "E").
Definition stops (post : list Z) : Prop := match post with [] => True | c :: _ => num_char c = false end.

Lemma parses_bind {A B} P Q (m : M A) (k : A → M B) t1 t2 a b :
  parses P m t1 a → parses Q (k a) t2 b → (∀ post, Q post → P (t2 ++ post)) → parses Q (bind m k) (t1 ++ t2) b.
Proof.
  intros Hm Hk HPQ pre post Hpost Hlen. rewrite <- (assoc_L app) in *.
  rewrite (bind_Ok _ _ _ _ _ (Hm pre (t2 ++ post) (HPQ _ Hpost) Hlen)).
  specialize (Hk (pre ++ t1) post Hpost). rewrite <- !(assoc_L app) in Hk. by apply Hk.
Qed.

Lemma parses_ret {A} P (a : A) : parses P (ret a) [] a.
Proof. intros pre post _ _. by rewrite app_nil_r. Qed.

Lemma parses_weaken {A} P Q (m : M A) t a : parses P m t a → (∀ post, Q post → P post) → parses Q m t a.
Proof. intros Hm HPQ pre post Hpost. apply Hm; auto. Qed.

Lemma parses_eq {A} P (m : M A) t t' a : parses P m t a → t = t' → parses P m t' a.
Proof. by intros ? <-. Qed.

Lemma read_at b c x : b !! Z.to_nat c = Some x → 0 ≤ c → read (mk b c) = (Ok x, mk b (c + 1)).
Proof.
  intros Hx Hc. pose proof (lookup_lt_Some _ _ _ Hx). unfold read, check. unfold bind at 1. cbn [buf cur].
  rewrite (proj2 (Z.ltb_ge _ _)) by lia. unfold bind, peek. cbn [buf cur]. by rewrite Hx.
Qed.

Lemma read_parses c : parses any read [c] c.
Proof.
  intros pre post _ _. rewrite (read_at _ _ c).
  - f_equal. f_equal. rewrite length_app. cbn. lia.
  - rewrite Nat2Z.id. by apply list_lookup_middle.
  - lia.
Qed.

(** *** Blanks *)

Definition blanks (ws : list Z) : Prop := Forall (λ c, isspace c = true) ws.

Lemma filter_space_parses ws c : blanks ws → isspace c = false → ∀ fuel, (length ws < fuel)%nat →
  match ws with
  | [] => parses any (filter_space fuel c) [] c
  | w :: ws' => parses any (filter_space fuel w) (ws' ++ [c]) c
  end.
Proof.
  intros Hws Hc. induction Hws as [|w ws Hw Hws IH]; intros fuel Hf; (destruct fuel as [|fuel]; [lia |]); cbn [filter_space].
  - rewrite Hc. apply parses_ret.
  - rewrite Hw. cbn in Hf. specialize (IH fuel ltac:(lia)). destruct ws as [|w' ws].
    + apply (parses_bind any any read (filter_space fuel) [c] [] c c); [apply read_parses | exact IH | done].
    + apply (parses_bind any any read (filter_space fuel) [w'] (ws ++ [c]) w' c); [apply read_parses | exact IH | done].
Qed.

Lemma read_token_parses ws c : blanks ws → isspace c = false → parses any read_token (ws ++ [c]) c.
Proof.
  intros Hws Hc pre post Hp Hlen. pose proof (λ fuel, filter_space_parses ws c Hws Hc fuel) as Hf.
  assert (Hfuel : (length ws < S (length (pre ++ (ws ++ [c]) ++ post)))%nat) by (rewrite !length_app; lia).
  specialize (Hf _ Hfuel). unfold read_token. destruct ws as [|w ws].
  - rewrite (bind_Ok _ _ _ _ _ (read_parses c pre post Hp Hlen)). unfold FILTER_SPACE. cbn [buf].
    specialize (Hf (pre ++ [c]) post Hp). rewrite <- !(assoc_L app) in Hf. cbn [app] in *. by rewrite Hf by done.
  - change ((w :: ws) ++ [c]) with ([w] ++ ws ++ [c]) in *. rewrite <- (assoc_L app) in *.
    rewrite (bind_Ok _ _ _ _ _ (read_parses w pre ((ws ++ [c]) ++ post) Hp Hlen)). unfold FILTER_SPACE. cbn [buf].
    specialize (Hf (pre ++ [w]) post Hp). rewrite <- !(assoc_L app) in *. rewrite Hf by done. done.
Qed.

(** *** Strings *)

Lemma hex_read d x c b : b !! Z.to_nat c = Some (hex_digit d) → 0 ≤ c → 0 ≤ d < 16 → 0 ≤ x < 2 ^ 16 → ∀ n,
  getHex (S n) x (mk b c) = getHex n (x * 16 + d) (mk b (c + 1)).
Proof.
  intros Hb Hc Hd Hx n. cbn [getHex]. rewrite (bind_Ok _ _ _ _ _ (read_at b c _ Hb Hc)).
  unfold hex_digit. change (chr "a") with 97. change (chr "f") with 102. change (chr "A") with 65. change (chr "F") with 70.
  change (chr "0") with 48. change (chr "9") with 57. destruct (Z.ltb_spec d 10).
  - rewrite (proj2 (Z.leb_gt 97 _)), (proj2 (Z.leb_gt 65 _)), (proj2 (Z.leb_le 48 _)), (proj2 (Z.leb_le _ 57)) by lia.
    cbn [andb]. rewrite wrapU_id by (unfold in_U; lia). f_equal. lia.
  - rewrite (proj2 (Z.leb_le 97 _)), (proj2 (Z.leb_le _ 102)) by lia. cbn [andb].
    rewrite wrapU_id by (unfold in_U; lia). f_equal. lia.
Qed.

(** How each character is written, and what the reader makes of it. *)
Inductive written (c : Z) : list Z → Prop :=
  | written_plain : c ≠ 34 → c ≠ 92 → written c [c]
  | written_short e : e ≠ chr "u" → escaped e = [c] → written c [chr "\"; e]
  | written_hex : 0 ≤ c < 32 → written c [chr "\"; chr "u"; 48; 48; hex_digit (c / 16); hex_digit (c mod 16)].

Lemma escape_written c : is_byte c → written c (escape c).
Proof.
  intros Hc. unfold escape. change (chr "\") with 92. change (chr "/") with 47.
  repeat match goal with |- context [c =? ?k] => destruct (Z.eqb_spec c k) as [->|]; [by apply written_short|] end.
  destruct (Z.ltb_spec c 32); [apply written_hex; unfold is_byte in Hc; lia | by apply written_plain].
Qed.

Lemma utf8_small c : 0 ≤ c < 32 → utf8 c = [c].
Proof.
  intros Hc. unfold utf8. rewrite (proj2 (Z.ltb_lt _ _)) by lia. change 0xFF with (Z.ones 8).
  rewrite Z.land_ones by lia. by rewrite Z.mod_small by lia.
Qed.

Lemma read_pos b p c post pos : b = p ++ c :: post → pos = zlen p → read (mk b pos) = (Ok c, mk b (pos + 1)).
Proof. intros -> ->. apply read_at; [by rewrite Nat2Z.id, list_lookup_middle | lia]. Qed.

Lemma chars_pos b p seg post c : b = p ++ seg ++ post → chars_at (zlen p) (zlen seg) (mk b c) = (Ok seg, mk b c).
Proof. intros ->. unfold chars_at. cbn [buf]. by rewrite mem_read_app. Qed.

Lemma getHex_zeros b p d1 d2 post : b = p ++ 48 :: 48 :: hex_digit d1 :: hex_digit d2 :: post → 0 ≤ d1 < 16 → 0 ≤ d2 < 16 →
  getHex 4 0 (mk b (zlen p)) = (Ok (d1 * 16 + d2), mk b (zlen p + 4)).
Proof.
  intros E H1 H2. assert (Hat : ∀ k c, (48 :: 48 :: hex_digit d1 :: hex_digit d2 :: post) !! k = Some c → b !! Z.to_nat (zlen p + Z.of_nat k) = Some c).
  { intros k c Hk. rewrite E, lookup_app_r by lia. rewrite <- Hk. f_equal. lia. }
  rewrite <- (Z.add_0_r (zlen p)) at 1. rewrite (hex_read 0) by (try lia; apply (Hat 0%nat); done).
  rewrite (hex_read 0) by (try lia; replace (zlen p + 0 + 1) with (zlen p + Z.of_nat 1) by lia; by apply (Hat 1%nat)).
  rewrite (hex_read d1) by (try lia; replace (zlen p + 0 + 1 + 1) with (zlen p + Z.of_nat 2) by lia; by apply (Hat 2%nat)).
  rewrite (hex_read d2) by (try lia; replace (zlen p + 0 + 1 + 1 + 1) with (zlen p + Z.of_nat 3) by lia; by apply (Hat 3%nat)).
  cbn [getHex]. unfold ret. do 2 f_equal; lia.
Qed.

(** One round of the loop, with [seg] read and not yet appended. *)
Section round.
Context (fuel : nat) (b pre seg acc : list Z).

Lemma read_backslash rest : b = pre ++ seg ++ chr "\" :: rest →
  read (mk b (zlen pre + zlen seg)) = (Ok (chr "\"), mk b (zlen pre + zlen seg + 1)).
Proof. intros E. apply (read_pos b (pre ++ seg) _ rest); [by rewrite <- (assoc_L app) | rewrite length_app; lia]. Qed.

Lemma read_escape e rest : b = pre ++ seg ++ chr "\" :: e :: rest →
  read (mk b (zlen pre + zlen seg + 1)) = (Ok e, mk b (zlen (pre ++ seg ++ [chr "\"; e]))).
Proof.
  intros E. rewrite (read_pos b (pre ++ seg ++ [chr "\"]) e rest); [|by rewrite <- !(assoc_L app) | rewrite !length_app; cbn; lia].
  do 2 f_equal. rewrite !length_app. cbn [length]. lia.
Qed.

Lemma string_step_short e rest : b = pre ++ seg ++ chr "\" :: e :: rest → e ≠ chr "u" →
  string_loop (S fuel) 34 (zlen pre) (zlen seg) acc (mk b (zlen pre + zlen seg)) =
  string_loop fuel 34 (zlen (pre ++ seg ++ [chr "\"; e])) 0 (acc ++ seg ++ escaped e) (mk b (zlen (pre ++ seg ++ [chr "\"; e]))).
Proof.
  intros E He. cbn [string_loop]. rewrite (bind_Ok _ _ _ _ _ (read_backslash _ E)), Z.eqb_refl.
  rewrite (bind_Ok _ _ _ _ _ (chars_pos b pre seg _ _ E)), (bind_Ok _ _ _ _ _ (read_escape _ _ E)).
  rewrite (proj2 (Z.eqb_neq e _)) by done. rewrite <- (assoc_L app). f_equal. rewrite !length_app. cbn [length]. lia.
Qed.

Lemma string_step_hex d1 d2 rest : let digits := [chr "\"; chr "u"; 48; 48; hex_digit d1; hex_digit d2] in
  b = pre ++ seg ++ digits ++ rest → 0 ≤ d1 < 16 → 0 ≤ d2 < 16 →
  string_loop (S fuel) 34 (zlen pre) (zlen seg) acc (mk b (zlen pre + zlen seg)) =
  string_loop fuel 34 (zlen (pre ++ seg ++ digits)) 0 (acc ++ seg ++ utf8 (d1 * 16 + d2)) (mk b (zlen (pre ++ seg ++ digits))).
Proof.
  intros digits E H1 H2. cbn [string_loop]. rewrite (bind_Ok _ _ _ _ _ (read_backslash _ E)), Z.eqb_refl.
  rewrite (bind_Ok _ _ _ _ _ (chars_pos b pre seg _ _ E)), (bind_Ok _ _ _ _ _ (read_escape _ _ E)), Z.eqb_refl.
  rewrite (bind_Ok _ _ _ _ _ (getHex_zeros b (pre ++ seg ++ [chr "\"; chr "u"]) d1 d2 rest ltac:(by rewrite E, <- !(assoc_L app)) H1 H2)).
  rewrite <- (assoc_L app). f_equal; [|f_equal]; rewrite !length_app; cbn [length digits]; lia.
Qed.
End round.

(** The loop. *)
Lemma string_loop_reads s : bytes_ok s → ∀ fuel b pre seg acc post,
  b = pre ++ seg ++ flat_map escape s ++ 34 :: post → (length (flat_map escape s) < fuel)%nat → zlen b < 2 ^ 32 →
  string_loop fuel 34 (zlen pre) (zlen seg) acc (mk b (zlen pre + zlen seg)) =
    (Ok (acc ++ seg ++ s), mk b (zlen pre + zlen seg + zlen (flat_map escape s) + 1)).
Proof.
  induction 1 as [|c s Hc Hs IH]; intros fuel b pre seg acc post Eb Hf Hlen; (destruct fuel as [|fuel]; [lia |]).
  - cbn [flat_map app string_loop] in *.
    erewrite bind_Ok by (apply (read_pos b (pre ++ seg) 34 post); [by rewrite <- (assoc_L app) | rewrite length_app; lia]).
    change (34 =? chr "\") with false. change (34 =? 34) with true. cbv iota.
    rewrite (bind_Ok _ _ _ _ _ (chars_pos b pre seg _ _ Eb)), app_nil_r. unfold ret. cbn. do 2 f_equal. lia.
  - pose proof (escape_written c Hc) as Hw. cbn [flat_map] in *. rewrite <- (assoc_L app) in Eb. rewrite length_app in *.
    assert (Hseg : zlen pre + zlen seg < zlen b) by (rewrite Eb, !length_app; destruct Hw; cbn; lia).
    assert (Hnext : ∀ u acc', (0 < length u)%nat → b = (pre ++ seg ++ u) ++ [] ++ flat_map escape s ++ 34 :: post → (length (flat_map escape s) < fuel)%nat →
      string_loop fuel 34 (zlen (pre ++ seg ++ u)) 0 acc' (mk b (zlen (pre ++ seg ++ u))) =
      (Ok (acc' ++ s), mk b (zlen pre + zlen seg + Z.of_nat (length u + length (flat_map escape s)) + 1))).
    { intros u acc' Hu Eb' Hf'. specialize (IH fuel b (pre ++ seg ++ u) [] acc' post Eb' Hf' Hlen).
      change (zlen []) with 0 in IH. rewrite !Z.add_0_r in IH. rewrite IH. do 2 f_equal. rewrite !length_app. lia. }
    inversion Hw as [Hq Hb E|e He Hesc E|Hr E]; rewrite <- E in *; cbn [length] in Hf.
    + cbn [string_loop app] in *. erewrite bind_Ok by (eapply (read_pos b (pre ++ seg) c); [by rewrite <- (assoc_L app) | rewrite length_app; lia]).
      change (chr "\") with 92. rewrite !(proj2 (Z.eqb_neq _ _)) by done. rewrite wrapU_id by (unfold in_U; lia).
      specialize (IH fuel b pre (seg ++ [c]) acc post ltac:(by rewrite Eb, <- !(assoc_L app)) ltac:(lia) Hlen).
      rewrite length_app, <- (assoc_L app) in IH. cbn [length app] in *.
      replace (zlen seg + 1) with (Z.of_nat (length seg + 1)) by lia.
      replace (zlen pre + zlen seg + 1) with (zlen pre + Z.of_nat (length seg + 1)) by lia. rewrite IH. do 2 f_equal. lia.
    + rewrite (string_step_short _ _ _ _ _ e _ Eb He), Hesc, Hnext, <- !(assoc_L app); [done | cbn; lia | | lia].
      by rewrite Eb, <- !(assoc_L app).
    + assert (Hd1 : 0 ≤ c / 16 < 16) by (split; [apply Z.div_pos | apply Z.div_lt_upper_bound]; lia).
      rewrite (string_step_hex _ _ _ _ _ (c / 16) (c mod 16) _ Eb Hd1 (Z.mod_pos_bound c 16 ltac:(lia))).
      replace (c / 16 * 16 + c mod 16) with c by (pose proof (Z.div_mod c 16); lia).
      rewrite utf8_small, Hnext, <- !(assoc_L app); [done | cbn; lia | | lia | done]. by rewrite Eb, <- !(assoc_L app).
Qed.

Lemma getString_parses s : bytes_ok s → parses any (getString 34) (flat_map escape s ++ [34]) s.
Proof.
  intros Hs pre post _ Hlen. unfold getString. unfold bind, getPoint. cbn [cur buf].
  pose proof (string_loop_reads s Hs (S (length (pre ++ (flat_map escape s ++ [34]) ++ post))) _ pre [] [] post eq_refl) as E.
  cbn [app] in E. change (zlen []) with 0 in E. rewrite Z.add_0_r in E. rewrite <- (assoc_L app) in *. cbn [app] in *.
  rewrite E; [|rewrite !length_app; lia | done]. do 2 f_equal. rewrite !length_app. cbn. lia.
Qed.

(** *** Integers *)

Definition value_from (x : Z) (ds : list Z) : Z := fold_left (λ a c, a * 10 + (c - 48)) ds x.
Definition digits_ok (ds : list Z) : Prop := Forall (λ c, is_digit c = true) ds.

Lemma decimal_digits fuel : ∀ n acc, 0 ≤ n < 10 ^ Z.of_nat fuel → (0 < fuel)%nat →
  ∃ ds, decimal fuel n acc = ds ++ acc ∧ ds ≠ [] ∧ digits_ok ds ∧ value_from 0 ds = n.
Proof.
  induction fuel as [|fuel IH]; intros n acc Hn Hf; [lia |]. cbn [decimal].
  pose proof (Z.mod_pos_bound n 10 ltac:(lia)) as Hm. pose proof (Z.div_mod n 10 ltac:(lia)) as Hd.
  assert (Hdig : is_digit (48 + n mod 10) = true).
  { unfold is_digit. apply andb_true_iff. rewrite !Z.leb_le. lia. }
  destruct (Z.ltb_spec n 10).
  - exists [48 + n mod 10]. split_and!; [done | done | by constructor |].
    unfold value_from. cbn. rewrite Z.mod_small by lia. lia.
  - rewrite Nat2Z.inj_succ, Z.pow_succ_r in Hn by lia.
    destruct fuel as [|fuel']; [cbn in Hn; lia |].
    destruct (IH (n / 10) (48 + n mod 10 :: acc)) as (ds & -> & Hne & Hds & Hv); [|lia |].
    { split; [apply Z.div_pos; lia | apply Z.div_lt_upper_bound; lia]. }
    exists (ds ++ [48 + n mod 10]). rewrite <- (assoc_L app). split_and!; [done | by destruct ds | apply Forall_app; split; [done | by constructor] |].
    unfold value_from in *. rewrite fold_left_app, Hv. cbn. lia.
Qed.

(** Nineteen digits are enough for a 64-bit number. *)
Lemma decimal_int64 n ds : 0 ≤ n ≤ 2 ^ 63 → decimal 19 n [] = ds → ds ≠ [] ∧ digits_ok ds ∧ value_from 0 ds = n.
Proof.
  intros Hn E. destruct (decimal_digits 19 n []) as (ds' & E' & Hds); [|lia |].
  - assert (Hp : 2 ^ 63 < 10 ^ Z.of_nat 19) by (vm_compute; reflexivity). lia.
  - rewrite app_nil_r in E'. by rewrite <- E, E'.
Qed.

Lemma wrapS_step x c : wrapS 64 (wrapS 64 x * 10 + c - 48) = wrapS 64 (x * 10 + (c - 48)).
Proof.
  rewrite <- (wrapS_wrapU 64 (wrapS 64 x * 10 + c - 48)), <- (wrapS_wrapU 64 (x * 10 + (c - 48))) by lia. f_equal.
  pose proof (wrapU_wrapS 64 x ltac:(lia)) as E. unfold wrapU in *.
  rewrite <- Z.add_sub_assoc, Zplus_mod, Zmult_mod, E, <- Zmult_mod, <- Zplus_mod. done.
Qed.

Lemma wrapS_neg x : wrapS 64 (0 - wrapS 64 x) = wrapS 64 (- x).
Proof.
  rewrite <- (wrapS_wrapU 64 (0 - wrapS 64 x)), <- (wrapS_wrapU 64 (- x)) by lia. f_equal.
  pose proof (wrapU_wrapS 64 x ltac:(lia)) as E. unfold wrapU in *. by rewrite <- Zminus_mod_idemp_r, E, Zminus_mod_idemp_r.
Qed.

(** The state of [getNum] in the integer part. *)
Definition int_num (ok : bool) (x : Z) : num := Num ok false false false (wrapS 64 x) d_zero d_zero 0.

Lemma num_loop_digits ds : digits_ok ds → ∀ fuel ok x b pre post, b = pre ++ ds ++ post → stops post → (length ds < fuel)%nat → (ds = [] → ok = true) →
  ∃ bk r, num_loop fuel (int_num ok x) (mk b (zlen pre)) = (Ok (int_num true (value_from x ds), bk), r) ∧
    (if bk : bool then back else ret tt) r = (Ok tt, mk b (zlen (pre ++ ds))).
Proof.
  induction 1 as [|c ds Hc Hds IH]; intros fuel ok x b pre post Eb Hpost Hf Hok; (destruct fuel as [|fuel]; [lia |]); cbn [num_loop].
  - rewrite (Hok eq_refl) in *. unfold bind at 1, hasEnd. cbn [buf cur]. rewrite app_nil_r. cbn [app] in Eb.
    destruct post as [|c post].
    + rewrite app_nil_r in Eb. subst b. rewrite Z.leb_refl. by exists false, (mk pre (zlen pre)).
    + assert (Hlen : zlen pre < zlen b) by (rewrite Eb, length_app; cbn; lia). rewrite (proj2 (Z.leb_gt _ _)) by done.
      rewrite (bind_Ok _ _ _ _ _ (read_pos b pre c post _ Eb eq_refl)). unfold stops, num_char in Hpost. rewrite !orb_false_iff in Hpost.
      destruct Hpost as [[[-> ->] ->] ->]. cbn [orb andb]. exists true, (mk b (zlen pre + 1)). split; [done |].
      unfold back, bind, get_st, assert_that, modify. cbn [cur set_cur]. rewrite (proj2 (Z.ltb_lt _ _)) by lia.
      unfold set_cur. cbn. do 2 f_equal. lia.
  - assert (Hlen : zlen pre < zlen b) by (rewrite Eb, !length_app; cbn; lia).
    unfold bind at 1, hasEnd. cbn [buf cur]. rewrite (proj2 (Z.leb_gt _ _)) by done.
    rewrite (bind_Ok _ _ _ _ _ (read_pos b pre c (ds ++ post) _ Eb eq_refl)), Hc.
    assert (Ed : digit (int_num ok x) c = int_num true (x * 10 + (c - 48))).
    { unfold digit, int_num. cbn [bExponential bFloat bExponentialNegative iInt dFloat dFloatRat iExponential]. by rewrite wrapS_step. }
    rewrite Ed. cbn in Hf.
    destruct (IH fuel true (x * 10 + (c - 48)) b (pre ++ [c]) post) as (bk & r & E & Hb); [by rewrite <- (assoc_L app) | done | lia | done |].
    exists bk, r. rewrite length_app in E. cbn [length] in E. rewrite Nat2Z.inj_add in E.
    split; [exact E |]. by rewrite Hb, <- (assoc_L app).
Qed.
End parses.

Section numbers.
Context `{JsonEnv} `{UnorderedMap}.

(** [getNum] behind the first character of an integer. *)
Lemma getNum_parses head ds l : in_S 64 l → print_int l = head :: ds →
  (is_digit head || (head =? chr "-") = true) ∧ isspace head = false ∧
  parses stops (getNum head) ds (JsonValueNum (d_of_int l) l true).
Proof.
  intros Hl Hp. unfold print_int in Hp. unfold in_S in Hl.
  assert (Hrun : ∀ ok x ds, digits_ok ds → (ds = [] → ok = true) → ∀ pre post, stops post →
    ∃ bk r, num_loop (S (length (pre ++ ds ++ post))) (int_num ok x) (mk (pre ++ ds ++ post) (zlen pre)) = (Ok (int_num true (value_from x ds), bk), r) ∧
      (if bk : bool then back else ret tt) r = (Ok tt, mk (pre ++ ds ++ post) (zlen (pre ++ ds)))).
  { clear Hp Hl. intros ok x ds' Hds Hok pre post Hpost. apply (num_loop_digits ds' Hds _ _ _ _ _ post); [reflexivity | assumption | rewrite !length_app; lia | assumption]. }
  destruct (Z.ltb_spec l 0).
  - apply (inj2 cons) in Hp as [<- Hp]. apply decimal_int64 in Hp as (Hne & Hds & Hv); [|lia].
    split_and!; [done | done |].
    intros pre post Hpost Hlen. unfold getNum. cbv zeta. change (chr "-" =? chr "-") with true. cbn [negb]. cbv iota.
    destruct (Hrun false 0 ds Hds ltac:(done) pre post Hpost) as (bk & r & E1 & E2).
    erewrite bind_Ok by exact E1. cbn [bOk int_num negb]. rewrite (bind_Ok _ _ _ _ _ E2). cbn [bFloat iInt int_num].
    unfold ret. rewrite Hv, wrapS_neg, Z.opp_involutive. by rewrite wrapS_id by (unfold in_S; lia).
  - apply decimal_int64 in Hp as (Hne & Hds & Hv); [|lia].
    apply Forall_cons in Hds as [Hh Hds].
    assert (Hr : 48 ≤ head ≤ 57) by (unfold is_digit in Hh; rewrite andb_true_iff, !Z.leb_le in Hh; lia).
    split_and!; [by rewrite Hh | |].
    { unfold isspace. change (chr " ") with 32. rewrite !(proj2 (Z.eqb_neq _ _)) by lia. done. }
    intros pre post Hpost Hlen. unfold getNum. cbv zeta. rewrite (proj2 (Z.eqb_neq head (chr "-"))) by (change (chr "-") with 45; lia). cbn [negb].
    destruct (Hrun true (head - 48) ds Hds ltac:(done) pre post Hpost) as (bk & r & E1 & E2).
    assert (Estart : int_num true (head - 48) = Num true false false false (head - 48) d_zero d_zero 0).
    { unfold int_num. by rewrite wrapS_id by (unfold in_S; lia). }
    rewrite Estart in E1. erewrite bind_Ok by exact E1. cbn [bOk int_num negb].
    rewrite (bind_Ok _ _ _ _ _ E2). cbn [bFloat iInt int_num].
    unfold ret. change (value_from (head - 48) ds) with (value_from 0 (head :: ds)). rewrite Hv. by rewrite wrapS_id by (unfold in_S; lia).
Qed.
End numbers.

(** * Values *)

(** The tests of a character that is known. *)
Ltac chars := repeat match goal with |- context [?a =? ?b] =>
  let r := eval vm_compute in (a =? b) in
  match r with true => change (a =? b) with true | false => change (a =? b) with false end end;
  cbn [andb orb negb]; cbv iota beta.

(** The next token is [c], behind the blanks [ws]. *)
Ltac token ws c := apply (parses_bind any _ _ _ (ws ++ [c]) _ c _); [apply read_token_parses; [first [assumption | apply Forall_nil_2] | reflexivity] | chars | done].

Lemma letters_parses cs : parses any (letters cs) (map fst cs) tt.
Proof.
  induction cs as [|[lo up] cs IH]; [apply parses_ret |]. cbn [letters map fst].
  apply (parses_bind any any read _ [lo] _ lo tt); [apply read_parses | by rewrite Z.eqb_refl | done].
Qed.

Lemma word_parses lower upper (v : json) : map fst (cases lower upper) = str lower →
  parses any (letters (cases lower upper) ;;; ret v) (str lower) v.
Proof.
  intros E. rewrite <- E, <- (app_nil_r (map fst _)).
  apply (parses_bind any any _ _ _ _ tt v); [apply letters_parses | apply parses_ret | done].
Qed.

(** The end of a value: what follows a number is never part of it. *)
Lemma stops_char c t : num_char c = false → stops (c :: t).
Proof. done. Qed.

Section values.
Context `{JsonEnv} `{UnorderedMap}.

#[local] Unset Elimination Schemes.
(** The values that a text keeps: no [JsonValueNull], whose writer does not exist; numbers that
    are integers. *)
Inductive writable : json → Prop :=
  | writable_nil : writable JNil
  | writable_string s : bytes_ok s → writable (JsonValueString s)
  | writable_num d l : in_S 64 l → is_nan d = false → writable (JsonValueNum d l true)
  | writable_obj ms : NoDup ms.*1 → Forall (λ kv, bytes_ok kv.1 ∧ writable kv.2) ms → writable (JsonValueObj ms)
  | writable_array l : Forall writable l → writable (JsonValueArray l)
  | writable_bool b : writable (JsonValueBoolean b).

(** [same v v']: [v'] is [v] with [JsonValueNull] for a null pointer, the [double] of
    a number made from its integer, and the members of an object in any order. *)
Inductive same : json → json → Prop :=
  | same_nil : same JNil JsonValueNull
  | same_string s : same (JsonValueString s) (JsonValueString s)
  | same_num d l : same (JsonValueNum d l true) (JsonValueNum (d_of_int l) l true)
  | same_obj ms ms' ms'' : Forall2 (λ kv kv', kv.1 = kv'.1 ∧ same kv.2 kv'.2) ms ms' → ms' ≡ₚ ms'' →
      same (JsonValueObj ms) (JsonValueObj ms'')
  | same_array l l' : Forall2 same l l' → same (JsonValueArray l) (JsonValueArray l')
  | same_bool b : same (JsonValueBoolean b) (JsonValueBoolean b).
#[local] Set Elimination Schemes.

(** The text of [v] is read as [v'], with or without spaces. *)
Definition reads (v v' : json) : Prop := ∀ fuel ws sp, blanks ws → (length (json_text v false) ≤ fuel)%nat →
  parses stops (getValue fuel) (ws ++ json_text v sp) v'.

Lemma print_int_head l : in_S 64 l → ∃ head ds, print_int l = head :: ds.
Proof.
  intros Hl. unfold print_int, in_S in *. destruct (Z.ltb_spec l 0); [eauto |].
  destruct (decimal_int64 l _ ltac:(lia) eq_refl) as [Hne _]. destruct (decimal 19 l []); eauto. done.
Qed.

(** Every text starts with a character that is neither a blank nor a bracket that closes. *)
Definition starts (t : list Z) : Prop := ∃ c t', t = c :: t' ∧ isspace c = false ∧ c ≠ chr "]".

Lemma head_range head : is_digit head || (head =? chr "-") = true → 45 ≤ head ≤ 57.
Proof. unfold is_digit. change (chr "-") with 45. rewrite orb_true_iff, andb_true_iff, !Z.leb_le, Z.eqb_eq. lia. Qed.

Lemma text_starts v sp : writable v → starts (json_text v sp).
Proof.
  destruct 1 as [|s _|d l Hl Hn|ms _ _|l _|b]; cbn [json_text]; try (eexists _, _; split; [reflexivity | by vm_compute]).
  - rewrite Hn. destruct (print_int_head l Hl) as (head & ds & E). rewrite E.
    destruct (getNum_parses head ds l Hl E) as (Hr & Hs & _). apply head_range in Hr. eexists _, _. split; [reflexivity |].
    split; [done |]. change (chr "]") with 93. lia.
  - destruct b; (eexists _, _; split; [reflexivity | by vm_compute]).
Qed.

Lemma text_length v sp : writable v → (0 < length (json_text v sp))%nat.
Proof. intros (c & t & E & _)%(text_starts v sp). rewrite E. cbn. lia. Qed.

(** ** Leaves *)

Lemma leaf_reads v v' : (∀ fuel ws, blanks ws → parses stops (getValue (S fuel)) (ws ++ json_text v false) v') →
  (∀ sp, json_text v sp = json_text v false) → (0 < length (json_text v false))%nat → reads v v'.
Proof. intros Hp Hsp Hl fuel ws sp Hws Hf. rewrite Hsp. destruct fuel; [lia |]. by apply Hp. Qed.

Lemma null_reads : reads JNil JsonValueNull.
Proof.
  apply leaf_reads; [|done | cbn; lia]. intros fuel ws Hws. apply parses_weaken with any; [|done]. cbn [getValue json_text].
  change (str "null") with ([chr "n"] ++ str "ull"). rewrite (assoc_L app). token ws (chr "n"). unfold getNull. chars.
  by apply word_parses.
Qed.

Lemma bool_reads b : reads (JsonValueBoolean b) (JsonValueBoolean b).
Proof.
  apply leaf_reads; [|done | destruct b; cbn; lia]. intros fuel ws Hws. apply parses_weaken with any; [|done]. cbn [getValue json_text].
  destruct b; [change (str "true") with ([chr "t"] ++ str "rue") | change (str "false") with ([chr "f"] ++ str "alse")];
    rewrite (assoc_L app); [token ws (chr "t") | token ws (chr "f")]; unfold getBoolean; chars; by apply word_parses.
Qed.

Lemma string_reads s : bytes_ok s → reads (JsonValueString s) (JsonValueString s).
Proof.
  intros Hs. apply leaf_reads; [|done | cbn; lia]. intros fuel ws Hws. apply parses_weaken with any; [|done]. cbn [getValue json_text].
  unfold quoted. rewrite (assoc_L app). token ws 34. rewrite <- (app_nil_r (_ ++ [34])).
  apply (parses_bind any any _ _ _ _ s); [by apply getString_parses | apply parses_ret | done].
Qed.

Lemma num_reads d l : in_S 64 l → is_nan d = false → reads (JsonValueNum d l true) (JsonValueNum (d_of_int l) l true).
Proof.
  intros Hl Hn. apply leaf_reads; [|done | by apply text_length, writable_num]. intros fuel ws Hws. cbn [getValue json_text]. rewrite Hn.
  destruct (print_int_head l Hl) as (head & ds & E). rewrite E. destruct (getNum_parses head ds l Hl E) as (Hc & Hs & Hp).
  pose proof (head_range head Hc) as Hr. assert (Hne : ∀ c, c < 45 ∨ 57 < c → (head =? c) = false) by (intros; apply Z.eqb_neq; lia).
  change (head :: ds) with ([head] ++ ds). rewrite (assoc_L app).
  apply (parses_bind any _ _ _ (ws ++ [head]) _ head _); [by apply read_token_parses | | done].
  rewrite !Hne by (vm_compute; tauto). cbn [orb]. cbv iota beta. by rewrite Hc.
Qed.

(** ** Arrays *)

(** The look at the first character of an array, which is put back. *)
Lemma look_back ws c post pre : blanks ws → isspace c = false → c ≠ chr "]" → zlen (pre ++ ws ++ c :: post) < 2 ^ 32 →
  (let* c := read_token in if c =? chr "]" then ret true else back ;;; ret false) (mk (pre ++ ws ++ c :: post) (zlen pre)) =
    (Ok false, mk (pre ++ ws ++ c :: post) (zlen (pre ++ ws))).
Proof.
  intros Hws Hs Hc Hlen. change (ws ++ c :: post) with (ws ++ [c] ++ post) in *. rewrite (assoc_L app ws) in *.
  rewrite (bind_Ok _ _ _ _ _ (read_token_parses ws c Hws Hs pre post I Hlen)). rewrite (proj2 (Z.eqb_neq _ _)) by done.
  unfold back, bind, get_st, assert_that, modify. cbn [cur]. rewrite (proj2 (Z.ltb_lt _ _)) by (rewrite !length_app; cbn; lia).
  unfold set_cur, ret. cbn [buf cur]. do 2 f_equal. rewrite !length_app. cbn. lia.
Qed.

(** What follows a value: a blank, a comma or a bracket. *)
Lemma stops_blanks ws c t : blanks ws → num_char c = false → stops (ws ++ c :: t).
Proof.
  intros Hws Hc. destruct Hws as [|w ws Hw _]; [done |]. apply stops_char. revert Hw. unfold isspace.
  change (chr " ") with 32. rewrite !orb_true_iff, !Z.eqb_eq. intros [[[->| ->]| ->]| ->]; done.
Qed.

Abbreviation texts := (λ v, json_text v false).

(** The elements of an array behind the look at its first character, or behind a comma. *)
Lemma items_parses ws l l' : blanks ws → Forall2 reads l l' → ∀ fuel ws0 acc, blanks ws0 → l ≠ [] →
  (length (items_text texts [] l) < fuel)%nat →
  parses any (getArray fuel false acc) (ws0 ++ items_text texts ws l ++ ws ++ [chr "]"]) (acc ++ l').
Proof.
  intros Hws. induction 1 as [|v v' l l' Hv Hl IH]; intros fuel ws0 acc Hws0 Hne Hf; [done |].
  destruct fuel as [|fuel]; [lia |]. cbn [getArray items_text] in *. rewrite !length_app in Hf.
  apply (parses_bind any any _ _ [] _ false); [apply parses_ret | | done]. cbv iota. rewrite <- !(assoc_L app), (assoc_L app ws0).
  destruct l as [|x l].
  - apply Forall2_nil_inv_l in Hl as ->. cbn [items_text app].
    apply (parses_bind stops any _ _ _ _ v'); [apply Hv; [done | lia] | |].
    + rewrite <- (app_nil_r (ws ++ _)). token ws (chr "]"). apply parses_ret.
    + intros post _. rewrite <- (assoc_L app). by apply stops_blanks.
  - apply (parses_bind stops any _ _ _ _ v'); [apply Hv; [done | lia] | | done].
    rewrite <- (assoc_L app). token (@nil Z) (chr ",").
    rewrite (cons_middle v' acc l'), (assoc_L app acc). apply IH; [done.. |]. cbn in *. lia.
Qed.

Lemma array_parses ws l l' : blanks ws → Forall writable l → Forall2 reads l l' → ∀ fuel,
  (length (items_text texts [] l) < fuel)%nat →
  parses any (getArray fuel true []) (ws ++ items_text texts ws l ++ ws ++ [chr "]"]) l'.
Proof.
  intros Hws Hw Hl fuel Hf. destruct l as [|v l].
  - apply Forall2_nil_inv_l in Hl as ->. destruct fuel as [|fuel]; [lia |]. cbn [getArray items_text app]. rewrite (assoc_L app).
    rewrite <- (app_nil_r (_ ++ [chr "]"])).
    apply (parses_bind any any _ _ _ _ true); [|apply parses_ret | done]. rewrite <- (app_nil_r ((ws ++ ws) ++ _)).
    assert (blanks (ws ++ ws)) by by apply Forall_app. token (ws ++ ws) (chr "]"). apply parses_ret.
  - intros pre post Hp Hlen. pose proof (items_parses ws (v :: l) l' Hws Hl fuel [] [] (Forall_nil_2 _) ltac:(done) Hf (pre ++ ws) post Hp) as Hi.
    destruct fuel as [|fuel]; [lia |]. apply Forall_cons in Hw as [(c & t & E & Hs & Hc)%(text_starts v false) _].
    assert (Et : ∃ post', items_text texts ws (v :: l) ++ ws ++ [chr "]"] = c :: post') by (cbn [items_text]; rewrite E; eexists; done).
    destruct Et as [post' Et]. rewrite Et in *. cbn [app] in Hi. rewrite <- !(assoc_L app) in *. cbn [app] in *.
    rewrite <- Hi by done. cbn [getArray]. rewrite (bind_Ok _ _ _ _ _ (look_back ws c _ pre Hws Hs Hc Hlen)). done.
Qed.

(** ** Objects *)

(** The members assigned one after the other. *)
Definition assign_all (ms acc : list (list Z * json)) : list (list Z * json) :=
  fold_left (λ acc kv, um_assign json acc kv.1 kv.2) ms acc.

Lemma filter_fresh {A} (k : list Z) (m : list (list Z * A)) : k ∉ m.*1 → filter (λ kv, kv.1 ≠ k) m = m.
Proof.
  intros Hk. induction m as [|[k' v] m IH]; [done |]. cbn in Hk. apply not_elem_of_cons in Hk as [Hne Hk].
  rewrite filter_cons_True by (cbn; congruence). by rewrite IH.
Qed.

Lemma assign_all_fresh ms : ∀ acc, NoDup (acc ++ ms).*1 → assign_all ms acc ≡ₚ acc ++ ms.
Proof.
  induction ms as [|[k v] ms IH]; intros acc Hnd; cbn [assign_all fold_left]; [by rewrite app_nil_r |].
  assert (Hp : um_assign json acc k v ≡ₚ (k, v) :: acc).
  { rewrite um_assign_spec, filter_fresh; [done |]. rewrite fmap_app in Hnd. apply NoDup_app in Hnd as (_ & Hd & _).
    intros Hin. apply (Hd _ Hin). left. }
  assert (Hmid : um_assign json acc k v ++ ms ≡ₚ acc ++ (k, v) :: ms) by (rewrite Hp; apply Permutation_middle).
  rewrite IH; [done |]. by rewrite Hmid.
Qed.

(** The members of an object, at their key. *)
Lemma members_parses ws ms ms' : blanks ws → Forall (λ kv, bytes_ok kv.1) ms →
  Forall2 (λ kv kv', kv.1 = kv'.1 ∧ reads kv.2 kv'.2) ms ms' → ∀ fuel ws0 first acc, blanks ws0 → ms ≠ [] →
  (length (members_text texts [] ms) < fuel)%nat →
  parses any (getObj fuel first acc) (ws0 ++ members_text texts ws ms ++ ws ++ [chr "}"]) (assign_all ms' acc).
Proof.
  intros Hws Hk. induction 1 as [|[k v] [k' v'] ms ms' [Ek Hv] Hms IH]; intros fuel ws0 first acc Hws0 Hne Hf; [done |].
  cbn in Ek, Hv. subst k'. apply Forall_cons in Hk as [Hk Hks]. specialize (IH Hks). cbn in Hk.
  destruct fuel as [|fuel]; [lia |]. cbn [getObj members_text] in *. unfold quoted in *. rewrite !length_app in Hf.
  rewrite <- !(assoc_L app), (assoc_L app ws0). token ws0 34. rewrite (assoc_L app (flat_map _ _)).
  apply (parses_bind any _ _ _ _ _ k); [by apply getString_parses | | done].
  token (@nil Z) (chr ":"). rewrite (assoc_L app ws).
  destruct ms as [|x ms].
  - apply Forall2_nil_inv_l in Hms as ->. cbn [members_text app].
    apply (parses_bind stops any _ _ _ _ v'); [apply Hv; [done | lia] | |].
    + rewrite <- (app_nil_r (ws ++ _)). token ws (chr "}"). apply parses_ret.
    + intros post _. rewrite <- (assoc_L app). by apply stops_blanks.
  - apply (parses_bind stops any _ _ _ _ v'); [apply Hv; [done | lia] | | done].
    rewrite <- (assoc_L app). token (@nil Z) (chr ",").
    apply IH; [done.. |]. cbn in *. lia.
Qed.

Lemma object_parses ws ms ms' : blanks ws → Forall (λ kv, bytes_ok kv.1) ms →
  Forall2 (λ kv kv', kv.1 = kv'.1 ∧ reads kv.2 kv'.2) ms ms' → ∀ fuel, (length (members_text texts [] ms) < fuel)%nat →
  parses any (getObj fuel true []) (ws ++ members_text texts ws ms ++ ws ++ [chr "}"]) (assign_all ms' []).
Proof.
  intros Hws Hk Hms fuel Hf. destruct ms as [|kv ms]; [|by apply members_parses].
  apply Forall2_nil_inv_l in Hms as ->. destruct fuel as [|fuel]; [lia |]. cbn [getObj members_text app]. rewrite (assoc_L app).
  rewrite <- (app_nil_r (_ ++ [chr "}"])). assert (blanks (ws ++ ws)) by by apply Forall_app.
  token (ws ++ ws) (chr "}"). apply parses_ret.
Qed.

(** ** All values *)

Lemma blanks_blank sp : blanks (blank sp).
Proof. destruct sp; by repeat constructor. Qed.

Lemma array_reads l l' : Forall writable l → Forall2 reads l l' → reads (JsonValueArray l) (JsonValueArray l').
Proof.
  intros Hw Hl fuel ws sp Hws Hf. cbn [json_text] in *. rewrite !length_app in Hf. cbn in Hf.
  destruct fuel as [|fuel]; [lia |]. apply parses_weaken with any; [|done]. cbn [getValue].
  change (str "[" ++ ?t) with ([chr "["] ++ t). rewrite (assoc_L app ws). token ws (chr "[").
  rewrite <- (app_nil_r (blank sp ++ _)).
  apply (parses_bind any any _ _ _ _ l'); [|apply parses_ret | done].
  apply array_parses; [apply blanks_blank | done.. | lia].
Qed.

Lemma object_reads ms ms' : Forall (λ kv, bytes_ok kv.1 ∧ writable kv.2) ms →
  Forall2 (λ kv kv', kv.1 = kv'.1 ∧ reads kv.2 kv'.2) ms ms' → reads (JsonValueObj ms) (JsonValueObj (assign_all ms' [])).
Proof.
  intros Hw Hms fuel ws sp Hws Hf. cbn [json_text] in *. rewrite !length_app in Hf. cbn in Hf.
  destruct fuel as [|fuel]; [lia |]. apply parses_weaken with any; [|done]. cbn [getValue].
  change (str "{" ++ ?t) with ([chr "{"] ++ t). rewrite (assoc_L app ws). token ws (chr "{").
  rewrite <- (app_nil_r (blank sp ++ _)).
  apply (parses_bind any any _ _ _ _ (assign_all ms' [])); [|apply parses_ret | done].
  apply object_parses; [apply blanks_blank | | done | lia]. eapply Forall_impl; [exact Hw | by intros kv [? _]].
Qed.

(** One value for each element. *)
Lemma Forall_choose {A B} (R : A → B → Prop) l : Forall (λ a, ∃ b, R a b) l → ∃ l', Forall2 R l l'.
Proof.
  induction 1 as [|a l [b Hb] _ [l' IH]]; [by exists [] |]. exists (b :: l'). by constructor.
Qed.

Lemma same_keys {A} (R : list Z * A → list Z * A → Prop) l l' : Forall2 (λ a b, a.1 = b.1 ∧ R a b) l l' → l.*1 = l'.*1.
Proof. induction 1 as [|a b l l' [E _] _ IH]; [done |]. by rewrite !fmap_cons, E, IH. Qed.

Lemma writable_reads v : writable v → ∃ v', same v v' ∧ reads v v'.
Proof.
  induction v as [ |s|d l i|ms IH|l IH|b| ] using json_ind; inversion 1 as [|? Hs|? ? Hl Hn|? Hnd Hms|? Hw|]; subst.
  - exists JsonValueNull. split; [constructor | apply null_reads].
  - exists (JsonValueString s). split; [constructor | by apply string_reads].
  - eexists. split; [constructor | by apply num_reads].
  - assert (Hex : Forall (λ kv, ∃ kv' : list Z * json, kv.1 = kv'.1 ∧ same kv.2 kv'.2 ∧ reads kv.2 kv'.2) ms).
    { rewrite Forall_forall in *. intros [k v] Hin. destruct (Hms _ Hin) as [_ Hw].
      destruct (IH _ Hin Hw) as (v' & Hsame & Hr). by exists (k, v'). }
    destruct (Forall_choose _ _ Hex) as (ms' & Hms'). exists (JsonValueObj (assign_all ms' [])).
    assert (Hkeys : ms'.*1 = ms.*1) by (symmetry; eapply same_keys, Hms').
    split; [eapply same_obj with ms' |].
    + eapply Forall2_impl; [exact Hms' | by intros ? ? (? & ? & ?)].
    + symmetry. apply assign_all_fresh. cbn. by rewrite Hkeys.
    + apply object_reads; [done.. |]. eapply Forall2_impl; [exact Hms' | by intros ? ? (? & ? & ?)].
  - assert (Hex : Forall (λ v, ∃ v', same v v' ∧ reads v v') l) by (rewrite Forall_forall in *; auto).
    destruct (Forall_choose _ _ Hex) as (l' & Hl'). exists (JsonValueArray l').
    split; [apply same_array | apply array_reads; [done |]]; (eapply Forall2_impl; [exact Hl' | by intros ? ? [? ?]]).
  - exists (JsonValueBoolean b). split; [constructor | apply bool_reads].
Qed.

(** Spaces only make a text longer. *)
Lemma text_spaces v sp : (length (json_text v false) ≤ length (json_text v sp))%nat.
Proof.
  assert (Hms : ∀ vt ms, (length (members_text vt [] ms) ≤ length (members_text vt (blank sp) ms))%nat).
  { intros vt ms. induction ms as [|[k w] ms IH]; [done |]. cbn [members_text]. destruct ms; rewrite !length_app in *; cbn [length] in *; lia. }
  assert (Hl : ∀ vt l, (length (items_text vt [] l) ≤ length (items_text vt (blank sp) l))%nat).
  { intros vt l. induction l as [|w l IH]; [done |]. cbn [items_text]. destruct l; rewrite !length_app in *; cbn [length] in *; lia. }
  destruct v as [|s|d l i|ms|l|b|]; cbn [json_text]; try done; rewrite !length_app; cbn [blank length].
  - specialize (Hms (λ v, json_text v false) ms). lia.
  - specialize (Hl (λ v, json_text v false) l). lia.
Qed.

Lemma writable_no_null v : writable v → has_null v = false.
Proof.
  induction v as [ |s|d l i|ms IH|l IH|b| ] using json_ind; inversion 1 as [| | |? Hnd Hms|? Hw|]; subst; try done; cbn [has_null].
  - apply not_true_is_false. intros (kv & Hin & Hn)%existsb_exists. rewrite <- list_elem_of_In, Forall_forall in *.
    destruct (Hms _ Hin). by rewrite IH in Hn.
  - apply not_true_is_false. intros (x & Hin & Hn)%existsb_exists. rewrite <- list_elem_of_In, Forall_forall in *.
    by rewrite IH in Hn by auto.
Qed.

Lemma writeValue_str_text v sp : writeValue_str v sp = if has_null v then AssertFailed else Ok (json_text v sp).
Proof.
  unfold writeValue_str. pose proof (writeValue_text v sp []) as Hw. destruct (has_null v).
  - destruct (writeValue v sp []) as [[] ?]; done.
  - by rewrite Hw.
Qed.

(** * Properties *)

(** C31: type.  The reader, on any bytes, never looks outside its buffer and always
    ends: it throws [TC_Json_Exception], or returns a value in which every pointer is
    set, every key of an object has one entry, every string consists of bytes and
    every number fits. *)
Theorem json_typed s : bytes_ok s →
  (∃ v, getValue_str s = Ok v ∧ typed v) ∨ getValue_str s = Throw TC_Json_Exception.
Proof. apply getValue_str_typed. Qed.

(** Equivalence.  Both writers produce the text of the value, unless a
    [JsonValueNull] stands somewhere in it, when the string writer runs into its
    assert; the stream writer agrees on every value without a number that is none. *)
Theorem json_writers v sp : has_nan v = false →
  writeValue_str v sp = (if has_null v then AssertFailed else Ok (json_text v sp)) ∧
  ∀ t, Stream.writeValue v sp t = writeValue v sp t.
Proof. intros Hn. split; [apply writeValue_str_text |]. intros t. by apply stream_value. Qed.

End values.

(** ** Witnesses *)

#[local] Existing Instance sample_env.

Definition sample_json : json := JsonValueObj [
  (str "ids", JsonValueArray [JsonValueNum (d_of_int 1) 1 true; JsonValueNum (d_of_int (- 2 ^ 63)) (- 2 ^ 63) true; JsonValueArray []]);
  (text "a'b\c", JsonValueString [9; 31; 47; 200]);
  (str "none", JNil); (str "nested", JsonValueObj [(str "ok", JsonValueBoolean true)])].

Lemma sample_json_writable : writable sample_json.
Proof.
  repeat match goal with
  | |- writable _ => constructor
  | |- Forall _ [] => constructor
  | |- Forall _ (_ :: _) => constructor
  | |- _ ∧ _ => split
  end; try done; try (by repeat constructor); try (vm_compute; intuition congruence).
  all: apply NoDup_ListNoDup; repeat constructor; cbn; intuition congruence.
Qed.

Lemma json_typed_witness :
  bytes_ok (text "{'a':[1e2,null]}") ∧
  ((∃ v, getValue_str (text "{'a':[1e2,null]}") = Ok v ∧ typed v) ∨ getValue_str (text "{'a':[1e2,null]}") = Throw TC_Json_Exception).
Proof.
  assert (Hb : bytes_ok (text "{'a':[1e2,null]}")) by (repeat constructor; done).
  split; [exact Hb | exact (json_typed _ Hb)].
Defined.

Lemma json_writers_witness : has_nan sample_json = false ∧
  writeValue_str sample_json true = Ok (json_text sample_json true) ∧
  ∀ t, Stream.writeValue sample_json true t = writeValue sample_json true t.
Proof. split; [done |]. exact (json_writers sample_json true eq_refl). Defined.

