(* ===== verification/TarsSafety.v ===== *)
(** Memory safety and totality of the decoder: on every byte string, a read ends
    with a value or an exception, and never looks outside the buffer.  The
    property composes, so it holds for every type the encoding has. *)
From stdpp Require Import prelude list.
From Stdlib Require Import ZArith Lia.
From S2P Require Import Prelude Bytes TarsBuffer TarsOutput TarsInput TarsSkip TarsWire.
From S2P Require Import TarsCodec TarsContainers TarsStruct Packets.

(** A reader whose claimed length is really there. *)
Definition bounded (r : BufferReader) : Prop := reader_ok r ∧ rlen r ≤ zlen (rmem r).

(** No access outside the buffer, and [nf] instead of exhausted fuel. *)
Definition clean (nf : Prop) {A} (o : outcome tars_error A) : Prop :=
  match o with
  | Ok _ | Throw _ => True
  | OutOfBounds | AssertFailed => False
  | NoFuel => nf
  end.

(** [safe nf m]: from every bounded reader, [m] moves forward and ends cleanly. *)
Definition safe (nf : Prop) {A} (m : reads_prog A) : Prop :=
  forward m ∧ ∀ r, bounded r → clean nf (m r).1.

Lemma bounded_advances r r' : bounded r → advances r r' → bounded r'.
Proof.
  intros [Hr Hl] Ha. split; [by eapply advances_ok |]. destruct Ha as (-> & -> & _). done.
Qed.

Section combinators.
Context (nf : Prop).

Lemma safe_ret {A} (a : A) : safe nf (ret a).
Proof. split; [apply forward_ret | done]. Qed.

Lemma safe_throw {A} e : safe nf (A:=A) (throw e).
Proof. split; [apply forward_throw | done]. Qed.

Lemma safe_bind' {A B} (m : reads_prog A) (k : A → reads_prog B) :
  safe nf m → (∀ a r r', bounded r → m r = (Ok a, r') → safe nf (k a)) →
  (∀ a, forward (k a)) → safe nf (bind m k).
Proof.
  intros [Hf Hm] Hk Hkf. split; [by apply forward_bind |].
  intros r Hr. specialize (Hm r Hr). pose proof (Hf r (proj1 Hr)) as Ha. unfold bind.
  destruct (m r) as [[] r'] eqn:E; try done. cbn in Ha.
  apply (Hk a r r' Hr E). by eapply bounded_advances.
Qed.

Lemma safe_bind {A B} (m : reads_prog A) (k : A → reads_prog B) :
  safe nf m → (∀ a, safe nf (k a)) → safe nf (bind m k).
Proof. intros Hm Hk. apply safe_bind'; [done | intros; apply Hk | intros; apply Hk]. Qed.

(** When the value of the first step matters for the second. *)
Lemma safe_bind_val {A B} (P : A → Prop) (m : reads_prog A) (k : A → reads_prog B) :
  safe nf m → (∀ a r r', reader_ok r → m r = (Ok a, r') → P a) → (∀ a, P a → safe nf (k a)) →
  safe nf (bind m k).
Proof.
  intros [Hf Hm] HP Hk. split.
  - apply forward_bind'; [done |]. intros a r r' Hr E. by eapply Hk, HP.
  - intros r Hr. specialize (Hm r Hr). pose proof (Hf r (proj1 Hr)) as Ha. unfold bind.
    destruct (m r) as [[] r'] eqn:E; try done. cbn in Ha.
    eapply Hk; [eapply HP; [apply Hr | done] | by eapply bounded_advances].
Qed.

Lemma safe_if {A} (b : bool) (m m' : reads_prog A) : safe nf m → safe nf m' → safe nf (if b then m else m').
Proof. by destruct b. Qed.

Lemma safe_catch {A} (m : reads_prog (option A)) : safe nf m → safe nf (catch_decode m).
Proof.
  intros [Hf Hm]. split; [by apply forward_catch |]. intros r Hr. specialize (Hm r Hr).
  unfold catch_decode, try_catch. destruct (m r) as [[] r']; try done. by destruct (is_decode_exception e).
Qed.

Lemma safe_skip n : 0 ≤ n → safe nf (TarsReadHeadSkip n).
Proof. intros. split; [by apply forward_skip | done]. Qed.

Lemma safe_hasEnd : safe nf hasEnd.
Proof. split; [apply forward_hasEnd |]. intros r _. unfold hasEnd. by destruct (_ <? _). Qed.

(** The check of the peek macros keeps them inside the buffer. *)
Lemma safe_peek len off : 0 ≤ len → 0 ≤ off → safe nf (TarsPeekBuf len off).
Proof.
  intros ??. split; [apply forward_peek |]. intros r [[_ Hc] Hl]. unfold TarsPeekBuf.
  destruct (Z.ltb_spec (rlen r) (rcur r + off + len)); [done |].
  destruct (mem_read_Some (rmem r) (rcur r + off) len) as [bs ->]; (done || lia).
Qed.

Lemma safe_peek_type off size : 0 ≤ size → 0 ≤ off → safe nf (TarsPeekTypeBuf off size).
Proof. intros. apply safe_bind; [by apply safe_peek | intros; apply safe_ret]. Qed.

Lemma safe_read_type size : 0 ≤ size → safe nf (TarsReadTypeBuf size).
Proof.
  intros. apply safe_bind; [by apply safe_peek_type | intros v].
  apply safe_bind; [by apply safe_skip | intros; apply safe_ret].
Qed.

Lemma safe_string_buf len : 0 ≤ len → safe nf (TarsReadStringBuf len).
Proof.
  intros. apply safe_bind; [by apply safe_peek | intros bs].
  apply safe_bind; [by apply safe_skip | intros; apply safe_ret].
Qed.

Lemma safe_readBuf len : 0 ≤ len → safe nf (readBuf len).
Proof.
  intros. destruct (safe_string_buf len ltac:(done)) as [Hf Hs].
  split; intros r Hr; unfold readBuf; destruct (_ && _); (done || by apply Hf || by apply Hs || idtac).
Qed.

Lemma safe_head : safe nf readFromHead.
Proof.
  split; [apply forward_head |]. intros r Hr. unfold readFromHead.
  assert (Hp : safe nf TarsPeekFromHead).
  { apply safe_bind; [by apply safe_peek_type | intros v]. cbv zeta. apply safe_if; [|apply safe_ret].
    apply safe_bind; [by apply safe_peek_type | intros; apply safe_ret]. }
  destruct Hp as [_ Hp]. specialize (Hp r Hr). unfold bind, TarsReadHeadSkip, modify, ret.
  by destruct (TarsPeekFromHead r) as [[[[] ?]| | | |] ?].
Qed.

Lemma safe_peek_head : safe nf TarsPeekFromHead.
Proof.
  apply safe_bind; [by apply safe_peek_type | intros v]. cbv zeta. apply safe_if; [|apply safe_ret].
  apply safe_bind; [by apply safe_peek_type | intros; apply safe_ret].
Qed.

Lemma safe_head_notag : safe nf readFromHeadNoTag.
Proof.
  split; [apply forward_head_notag |]. intros r Hr. unfold readFromHeadNoTag, TarsPeekFromHeadNoTag.
  destruct (safe_peek_type 0 1 ltac:(done) ltac:(done)) as [_ Hp]. specialize (Hp r Hr).
  unfold bind. destruct (TarsPeekTypeBuf 0 1 r) as [[v| | | |] r1]; try done. cbv zeta.
  destruct (_ =? 15); [|done]. unfold TarsPeekTypeBufNoTag. by destruct (_ <? _).
Qed.

Lemma safe_Int64_of_head ty : safe nf (Int64_of_head ty).
Proof.
  unfold Int64_of_head, load_Char, load_Short, load_Int32, load_Int64.
  repeat apply safe_if; try apply safe_ret; try apply safe_throw;
    (apply safe_bind; [by apply safe_read_type | intros; apply safe_ret]).
Qed.
End combinators.

Create HintDb safe.
#[export] Hint Resolve safe_ret safe_throw safe_bind safe_if safe_catch safe_hasEnd safe_head
  safe_peek_head safe_head_notag safe_Int64_of_head : safe.
#[export] Hint Extern 1 (safe _ (TarsReadHeadSkip _)) => apply safe_skip; lia : safe.
#[export] Hint Extern 1 (safe _ (TarsReadTypeBuf _)) => apply safe_read_type; lia : safe.
#[export] Hint Extern 1 (safe _ (TarsReadStringBuf _)) => apply safe_string_buf; lia : safe.

(** * Skipping *)
Section skipping.
Context (nf : Prop) (rec : skip_task → reads_prog (option (Z * Z))) (Hrec : ∀ k, safe nf (rec k)).

Lemma safe_size_of : safe nf (size_of rec).
Proof. apply safe_bind; [apply Hrec |]. intros [[]|]; auto with safe. Qed.

Lemma safe_skip_step k : safe nf (skip_step rec k).
Proof.
  pose proof safe_size_of as Hsz.
  destruct k as [ty|n| |tag]; simpl skip_step; fold (size_of rec).
  - repeat apply safe_if; auto 6 with safe.
    + apply (safe_bind_val _ (in_U 8)); [auto with safe | intros v r r' Hr H |].
      * by apply read_type_inv in H as (_ & _ & Hv).
      * unfold in_U. intros v Hv. auto with safe.
    + apply safe_bind; [auto with safe |]. intros v.
      pose proof (bswap_range 4 v) as Hv. unfold in_U in Hv.
      apply safe_bind; [apply safe_skip; unfold ntohl; lia | auto with safe].
    + apply safe_bind; [auto with safe |]. intros [ty' tg]. apply safe_if; [auto with safe |].
      apply (safe_bind_val _ (in_U 32)); [done | intros v r r' Hr H; by apply size_nonneg in H |].
      unfold in_U. intros v Hv. auto with safe.
  - apply safe_if; [auto with safe |].
    apply safe_bind; [auto with safe | intros ty]. by apply safe_bind.
  - apply safe_bind; [auto with safe | intros ty].
    apply safe_bind; [done |]. intros _. apply safe_if; auto with safe.
  - apply safe_catch, safe_bind; [auto with safe |]. intros fin.
    apply safe_if; [auto with safe |].
    apply (safe_bind_val _ (λ h, 1 ≤ h.2)); [auto with safe | |].
    + intros [[ty tg] n] r r' Hr H. by apply peek_head_inv in H as (_ & (? & _) & _).
    + intros [[ty tg] n] Hn. cbn in Hn. repeat apply safe_if; auto with safe.
Qed.
End skipping.

Lemma safe_skip_fuel f k : safe True (skip f k).
Proof.
  revert k. induction f as [|f IH]; intros k; [by split; [intros r _ |] | by apply safe_skip_step].
Qed.

Lemma safe_run_skip k : safe False (run_skip k).
Proof.
  split; [apply forward_run_skip |]. intros r Hr.
  destruct (safe_skip_fuel (skip_fuel r) k) as [_ Hs]. specialize (Hs r Hr).
  pose proof (skip_enough (skip_fuel r) k r (proj1 Hr) (skip_fuel_enough k r (proj1 Hr))) as Ht.
  unfold run_skip, total in *. by destruct (skip _ k r) as [[] ?].
Qed.
#[export] Hint Resolve safe_run_skip : safe.

(** * Fields *)
Abbreviation robust := (safe False).

Section fields.
Lemma robust_field {A} (d : A) tag req body :
  (∀ ty, robust (body ty)) → robust (read_field d tag req body).
Proof.
  intros Hb. apply safe_bind; [apply safe_run_skip |].
  intros [[ty tg]|]; [apply Hb | apply safe_if; auto with safe].
Qed.

Lemma robust_map {A B} (m : reads_prog A) (f : A → B) : robust m → robust (let* x := m in ret (f x)).
Proof. intros. apply safe_bind; auto with safe. Qed.

Lemma robust_Char d tag req : robust (read_Char d tag req).
Proof. apply robust_field. intros ty. unfold load_Char. repeat apply safe_if; auto with safe. Qed.
Lemma robust_Bool d tag req : robust (read_Bool d tag req).
Proof. apply robust_map, robust_Char. Qed.
Lemma robust_Short d tag req : robust (read_Short d tag req).
Proof. apply robust_field. intros ty. unfold load_Char, load_Short. repeat apply safe_if; auto with safe. Qed.
Lemma robust_UInt8 d tag req : robust (read_UInt8 d tag req).
Proof. apply robust_map, robust_Short. Qed.
Lemma robust_Int32 d tag req : robust (read_Int32 d tag req).
Proof.
  apply robust_field. intros ty. unfold load_Char, load_Short, load_Int32.
  repeat apply safe_if; auto with safe.
Qed.
Lemma robust_UInt16 d tag req : robust (read_UInt16 d tag req).
Proof. apply robust_map, robust_Int32. Qed.
Lemma robust_Int64 d tag req : robust (read_Int64 d tag req).
Proof. apply robust_field. auto with safe. Qed.
Lemma robust_UInt32 d tag req : robust (read_UInt32 d tag req).
Proof. apply robust_map, robust_Int64. Qed.
Lemma robust_Float d tag req : robust (read_Float d tag req).
Proof. apply robust_field. intros ty. repeat apply safe_if; auto with safe. Qed.
Lemma robust_Double d tag req : robust (read_Double d tag req).
Proof. apply robust_field. intros ty. repeat apply safe_if; auto with safe. Qed.

(** The length of a string cannot be negative. *)
Lemma robust_string d tag req : robust (read_string d tag req).
Proof.
  apply robust_field. intros ty.
  apply (safe_bind_val _ (λ n, 0 ≤ n)); [| |intros n Hn; auto with safe].
  - apply safe_if; [auto with safe |]. apply safe_if; [|auto with safe].
    apply safe_bind; [auto with safe |]. intros v. cbv zeta. apply safe_if; auto with safe.
  - intros n r r' Hr. destruct (_ =? _); [|destruct (_ =? _); [|done]].
    + intros H. apply read_type_inv in H as (_ & _ & Hn); [|done]. apply Hn.
    + intros (v & r1 & _ & H)%bind_Ok_inv. cbv zeta in H. destruct (_ <? _); [done |].
      unfold ret in H. simplify_eq. apply (bswap_range 4 v).
Qed.

Lemma robust_reader_size : robust reader_size.
Proof. by split; [intros r _ |]. Qed.

Lemma robust_count : robust read_count.
Proof.
  apply safe_bind; [apply robust_UInt32 | intros n].
  apply safe_bind; [apply robust_reader_size | intros l]. apply safe_if; auto with safe.
Qed.

Lemma robust_elems {A} (rd : A → reads_prog A) l : (∀ x, robust (rd x)) → robust (read_elems rd l).
Proof.
  intros Hr. induction l as [|x l IH]; [apply safe_ret |].
  apply safe_bind; [apply Hr | intros y]. apply safe_bind; auto with safe.
Qed.

Lemma robust_insert {A C} (rd : reads_prog A) (ins : A → C → C) n c :
  robust rd → robust (read_insert rd ins n c).
Proof.
  intros Hr. revert c. induction n as [|n IH]; intros c; [apply safe_ret |].
  by apply safe_bind.
Qed.

Lemma count_nonneg n r r' : read_count r = (Ok n, r') → 0 ≤ n.
Proof.
  intros (v & r1 & (i & r2 & _ & H)%bind_Ok_inv & (l & r3 & _ & H')%bind_Ok_inv)%bind_Ok_inv.
  destruct (_ <? _); [done |]. unfold ret in *. simplify_eq. apply (wrapU_range 32); lia.
Qed.

Lemma robust_vector_char d tag req : robust (read_vector_char d tag req).
Proof.
  apply robust_field. intros ty. apply safe_if; [|apply safe_if].
  - apply safe_bind; [unfold read_bytes_head; apply safe_bind; [auto with safe |];
      intros [ht hg]; apply safe_if; auto with safe |].
    intros _. apply (safe_bind_val _ (λ n, 0 ≤ n)); [apply robust_count | |].
    + intros n r r' _. apply count_nonneg.
    + intros n Hn. by apply safe_readBuf.
  - apply safe_bind; [apply robust_count | intros n].
    apply safe_bind; [apply robust_elems; intros; apply robust_Char | auto with safe].
  - auto with safe.
Qed.
End fields.

(** A codec whose reads are robust. *)
Definition robust_codec {A} (c : codec A) : Prop := ∀ d tag req, robust (c_read c d tag req).

Section containers.
Lemma robust_vector {A} (dA : A) (c : codec A) : robust_codec c → robust_codec (codec_vector dA c).
Proof.
  intros Hc d tag req. apply robust_field. intros ty. apply safe_if; [|auto with safe].
  apply safe_bind; [apply robust_count | intros n]. apply robust_elems. intros x. apply Hc.
Qed.

Lemma robust_map_codec {K V} (dK : K) (dV : V) lt (ck : codec K) (cv : codec V) :
  robust_codec ck → robust_codec cv → robust_codec (codec_map dK dV lt ck cv).
Proof.
  intros Hk Hv d tag req. apply robust_field. intros ty. apply safe_if; [|auto with safe].
  apply safe_bind; [apply robust_count | intros n]. apply robust_insert.
  apply safe_bind; [apply Hk | intros k]. apply safe_bind; [apply Hv | auto with safe].
Qed.

Lemma robust_members {R} (F : list (member R)) r :
  Forall (λ f, robust_codec (m_codec f)) F → robust (readMembers F r).
Proof.
  intros HF. revert r. induction HF as [|f F Hf HF IH]; intros r; [apply safe_ret |].
  apply safe_bind; [apply Hf | intros v; apply IH].
Qed.

Lemma robust_struct {R} cd (F : list (member R)) :
  Forall (λ f, robust_codec (m_codec f)) F → robust_codec (codec_struct cd F).
Proof.
  intros HF d tag req. apply robust_field. intros ty. apply safe_if; [auto with safe |].
  apply safe_bind; [by apply robust_members | intros r].
  apply safe_bind; [|auto with safe]. apply safe_bind; auto with safe.
Qed.
End containers.

Lemma robust_string_map : robust_codec codec_string_map.
Proof. apply robust_map_codec; exact robust_string. Qed.

(** Closes the goal for one member of a packet. *)
Ltac robust_member :=
  first [exact robust_Short | exact robust_Char | exact robust_Int32 | exact robust_string
        | exact robust_vector_char | exact robust_string_map].

Lemma robust_request : Forall (λ f, robust_codec (m_codec f)) RequestPacket.fields.
Proof.
  unfold RequestPacket.fields. repeat apply Forall_cons_2; [robust_member.. | apply Forall_nil_2].
Qed.

Lemma robust_response : Forall (λ f, robust_codec (m_codec f)) ResponsePacket.fields.
Proof.
  unfold ResponsePacket.fields. repeat apply Forall_cons_2; [robust_member.. | apply Forall_nil_2].
Qed.
