(* ===== verification/TarsTheorems.v ===== *)
(** The theorems about the TARS encoding: round trips, schema evolution, the
    behaviour on missing and mistyped fields, termination and memory safety of the
    decoder, and the places where the code of [src/servant/tup/Tars.h] does
    something its callers have to know. *)
From stdpp Require Import prelude list.
From Stdlib Require Import ZArith Lia Sorting.Sorted.
From S2P Require Import Prelude Bytes TarsBuffer TarsOutput TarsInput TarsSkip TarsWire.
From S2P Require Import TarsCodec TarsContainers TarsStruct Packets TarsSafety.

(** Proves that concrete values are in range. *)
Ltac in_range :=
  repeat first
    [ apply conj | apply Forall_cons_2 | apply Forall_nil_2 | progress unfold in_S, in_U, is_byte, is_tag, size_ok
    | progress cbn | lia | done ].

(** A response used in the witnesses. *)
Definition sample_response : ResponsePacket.t :=
  ResponsePacket.mk 1 0 (-70000) 0 (-3) [1; 2; 255] [([65], [66]); ([66; 67], [])] [104; 105] [].

Lemma sample_response_ok : struct_ok ResponsePacket.fields sample_response.
Proof.
  unfold struct_ok, ResponsePacket.fields, sample_response.
  repeat (apply Forall_cons_2; [|]); [..| apply Forall_nil_2]; cbn.
  1-5: unfold in_S; lia.
  - split; [repeat constructor; done | done].
  - split_and!; [repeat constructor; done | repeat constructor; done | done].
  - split; [repeat constructor; done | done].
  - split_and!; [constructor | constructor | done].
Defined.



(** C2: schema evolution.  A reader that knows the members [F] reads a structure
    written with any ascending fields [fs]: fields it does not know are passed
    over wherever they stand, optional members that are not there keep their
    default, and the whole structure is consumed. *)
Theorem struct_evolution {R} (F : list (member R)) fs rest r r' tag t req :
  Forall (λ f, is_tag (m_tag f)) F → Forall skippable fs → is_tag tag → is_tag t →
  reads_as F fs rest (resetDefautlt F r) r' →
  reads (read_struct (readFrom F) r tag req)
    (head_bytes TarsHeadeStructBegin tag ++ wires fs ++ head_bytes TarsHeadeStructEnd t) r'.
Proof. apply read_struct_fields. Qed.

(** A structure with a required [int] of tag 1 and an optional [string] of tag 3,
    and a field of tag 2 it does not know. *)
Definition small_fields : list (member (Z * list Z)) :=
  [member_Int32 1 true 0 fst (λ v r, (v, r.2)); member_string 3 false [] snd (λ v r, (r.1, v))].

Lemma struct_evolution_witness :
  Forall skippable [(int_type 5, 1, int_body 5); (string_type [65], 2, string_body [65])] ∧
  reads (read_struct (readFrom small_fields) (9, [66]) 4 true)
    (head_bytes TarsHeadeStructBegin 4 ++
     wires [(int_type 5, 1, int_body 5); (string_type [65], 2, string_body [65])] ++
     head_bytes TarsHeadeStructEnd 0) (5, []).
Proof.
  assert (Hs : Forall skippable [(int_type 5, 1, int_body 5); (string_type [65], 2, string_body [65])]).
  { apply Forall_cons_2; [|apply Forall_cons_2; [|apply Forall_nil_2]].
    - refine (skippable_field codec_Int32 5 1 _ _); [cbn; unfold in_S; lia | done].
    - refine (skippable_field codec_string [65] 2 _ _); [split; [by repeat constructor | done] | done]. }
  split; [exact Hs |].
  apply (struct_evolution small_fields _ [] (9, [66]) (5, []) 4 0 true); try done.
  - by repeat constructor.
  - apply (ra_known (member_Int32 1 true 0 fst (λ v r, (v, r.2))) _ 5); [cbn; unfold in_S; lia |].
    apply ra_unknown; [done |].
    apply ra_missing; [done | split; [constructor | done] | constructor |]. apply ra_done.
Defined.



(** C10: skipping terminates on every input and obeys the recursion of the code:
    the fuel of the model never shows, and the position never moves back. *)
Theorem skip_refines (k : skip_task) (r : BufferReader) : reader_ok r →
  run_skip k r = skip_step run_skip k r ∧ (run_skip k r).1 ≠ NoFuel ∧ advances r (run_skip k r).2.
Proof.
  intros Hr. split_and!; [by apply run_skip_eq | | by apply forward_run_skip].
  apply (skip_enough (skip_fuel r) k r Hr), skip_fuel_enough, Hr.
Qed.

Lemma skip_refines_witness :
  reader_ok (setBuffer [26; 16; 5] 3) ∧
  run_skip (SkipToTag 9) (setBuffer [26; 16; 5] 3) = skip_step run_skip (SkipToTag 9) (setBuffer [26; 16; 5] 3) ∧
  (run_skip (SkipToTag 9) (setBuffer [26; 16; 5] 3)).1 ≠ NoFuel ∧
  advances (setBuffer [26; 16; 5] 3) (run_skip (SkipToTag 9) (setBuffer [26; 16; 5] 3)).2.
Proof.
  assert (Hr : reader_ok (setBuffer [26; 16; 5] 3)) by (split; [by repeat constructor | done]).
  split; [exact Hr | exact (skip_refines (SkipToTag 9) _ Hr)].
Defined.


Definition codec_nested : codec (list (list Z * list (list Z))) :=
  codec_map [] [] string_lt codec_string (codec_vector [] (codec_vector 0 codec_Int32)).
Instance nested_laws : CodecLaws codec_nested := map_laws [] [] string_lt codec_string _.
Definition nested_value : list (list Z * list (list Z)) := [([97], [[1; 70000]; []]); ([98], [])].

Lemma nested_value_ok : c_ok nested_value.
Proof.
  split_and!; [| repeat constructor; done | done].
  repeat (apply Forall_cons_2; [|]); [..| apply Forall_nil_2].
  - split; [split; [by repeat constructor | done] |]. split; [|done].
    repeat (apply Forall_cons_2; [|]); [..| apply Forall_nil_2]; (split; [|done]).
    + repeat constructor; cbn; lia.
    + constructor.
  - split; [split; [by repeat constructor | done] | split; [constructor | done]].
Defined.


(** ** Integers *)

(** The overload for [Int32] finds an integer too wide for it. *)
Lemma Int32_mismatch d tag req n pre post :
  ¬ in_S 32 n → is_tag tag → bytes_ok (pre ++ int_bytes n tag ++ post) →
  ∃ r, read_Int32 d tag req (at_ pre (int_bytes n tag ++ post)) = (Throw TarsDecodeMismatch, r).
Proof.
  intros Hn Ht Hb. destruct (int_type_range n) as [Hty Hne].
  unfold int_bytes in *. rewrite <- app_assoc in *.
  pose proof (reads_found (int_type n) tag Hty Hne Ht pre (int_body n ++ post) Hb I) as E.
  unfold read_Int32, read_field. rewrite (bind_Ok _ _ _ _ _ E).
  assert (int_type n = TarsHeadeInt64) as ->.
  { unfold int_type, in_S in *. destruct (Z.eqb_spec n 0); [lia |].
    by replace (_ && _) with false by lia; replace (_ && _) with false by lia;
      replace (_ && _) with false by lia. }
  by eexists.
Qed.

(** C12: integers are written with the narrowest head that holds them, so the
    width of the writer's type does not matter: [write(Int64)] of a value that
    fits [Int32] is read back by [read(Int32)], and of a value that does not is a
    mismatch, never a truncation. *)
Theorem integer_widths (n d tag : Z) req pre post :
  in_S 64 n → is_tag tag → bytes_ok (pre ++ int_bytes n tag ++ post) →
  (∀ S (HW : WriterT S), writes (S := S) (write_Int64 n tag) (int_bytes n tag)) ∧
  if bool_decide (in_S 32 n)
  then read_Int32 d tag req (at_ pre (int_bytes n tag ++ post)) = (Ok n, at_ (pre ++ int_bytes n tag) post)
  else ∃ r, read_Int32 d tag req (at_ pre (int_bytes n tag ++ post)) = (Throw TarsDecodeMismatch, r).
Proof.
  intros Hn Ht Hb. split; [intros; by apply writes_Int64 |].
  case_bool_decide; [by apply reads_Int32 | by apply Int32_mismatch].
Qed.

Lemma integer_widths_witness :
  in_S 64 4294967296 ∧
  ((∀ S (HW : WriterT S), writes (S := S) (write_Int64 4294967296 20) (int_bytes 4294967296 20)) ∧
   if bool_decide (in_S 32 4294967296)
   then read_Int32 0 20 true (at_ [] (int_bytes 4294967296 20 ++ [])) =
     (Ok 4294967296, at_ ([] ++ int_bytes 4294967296 20) [])
   else ∃ r, read_Int32 0 20 true (at_ [] (int_bytes 4294967296 20 ++ [])) = (Throw TarsDecodeMismatch, r)).
Proof.
  assert (Hn : in_S 64 4294967296) by (unfold in_S; lia). split; [exact Hn |].
  apply (integer_widths 4294967296 0 20 true [] []); [exact Hn | done | by repeat constructor].
Defined.

(** ** Absent members *)

(** A field that is not there: [read] with [isRequire] throws and leaves the
    position alone; without it, the value is left as it was. *)
Theorem absent_field {A} (c : codec A) `{!CodecLaws c} (d : A) tag pre post :
  c_ok d → is_tag tag → bytes_ok (pre ++ post) → stops tag post →
  c_read c d tag true (at_ pre post) = (Throw TarsDecodeRequireNotExist, at_ pre post) ∧
  c_read c d tag false (at_ pre post) = (Ok d, at_ pre post).
Proof.
  intros Hd Ht Hb Hs. split; [by apply law_missing |].
  pose proof (law_absent d tag Hd Ht pre post Hb Hs) as E. by rewrite app_nil_r, app_nil_l in E.
Qed.

Lemma absent_field_witness :
  stops 4 (head_bytes TarsHeadeChar 7 ++ [1]) ∧
  (c_read codec_string [65] 4 true (at_ [] (head_bytes TarsHeadeChar 7 ++ [1])) =
     (Throw TarsDecodeRequireNotExist, at_ [] (head_bytes TarsHeadeChar 7 ++ [1])) ∧
   c_read codec_string [65] 4 false (at_ [] (head_bytes TarsHeadeChar 7 ++ [1])) =
     (Ok [65], at_ [] (head_bytes TarsHeadeChar 7 ++ [1]))).
Proof.
  assert (Hs : stops 4 (head_bytes TarsHeadeChar 7 ++ [1])).
  { right. exists TarsHeadeChar, 7, [1]. split_and!; try done. by right. }
  split; [exact Hs |].
  refine (absent_field codec_string [65] 4 [] _ _ _ _ Hs);
    [split; [by repeat constructor | done] | done | by repeat constructor].
Defined.

(** ** Strings *)

(** The limit of 100 MB holds on both sides: a longer string is refused by
    [write] before anything is written, and a longer length on the wire is
    refused by [read]. *)
Theorem string_limit {S} `{WriterT S} (str d : list Z) tag req n (s : S) pre post :
  TARS_MAX_STRING_LENGTH < zlen str → TARS_MAX_STRING_LENGTH < n < 2 ^ 32 → is_tag tag →
  bytes_ok (pre ++ head_bytes TarsHeadeString4 tag ++ be_bytes 4 n ++ post) →
  write_string str tag s = (Throw TarsDecodeInvalidValue, s) ∧
  ∃ r, read_string d tag req (at_ pre (head_bytes TarsHeadeString4 tag ++ be_bytes 4 n ++ post)) =
    (Throw TarsDecodeInvalidValue, r).
Proof.
  intros Hl Hn Ht Hb. split.
  - unfold write_string. rewrite (proj2 (Z.ltb_lt 255 _)) by (unfold TARS_MAX_STRING_LENGTH in *; lia).
    by rewrite (proj2 (Z.ltb_lt _ _) Hl).
  - pose proof (reads_found TarsHeadeString4 tag ltac:(done) ltac:(done) Ht pre (be_bytes 4 n ++ post) Hb I) as E.
    unfold read_string, read_field. rewrite (bind_Ok _ _ _ _ _ E). cbv iota beta.
    change (TarsHeadeString4 =? TarsHeadeString1) with false.
    change (TarsHeadeString4 =? TarsHeadeString4) with true. cbv iota.
    rewrite (app_assoc pre) in Hb.
    pose proof (reads_type 4 (be_bytes 4 n) ltac:(by rewrite length_be_bytes) _ post Hb I) as E4.
    unfold bind at 1. rewrite (bind_Ok _ _ _ _ _ E4). cbv zeta.
    rewrite ntohl_be_bytes by (unfold in_U, TARS_MAX_STRING_LENGTH in *; lia).
    rewrite (proj2 (Z.ltb_lt _ n)) by lia. by eexists.
Qed.

Lemma string_limit_witness :
  let str := replicate (Z.to_nat (TARS_MAX_STRING_LENGTH + 1)) 0 in
  TARS_MAX_STRING_LENGTH < zlen str ∧
  (write_string str 2 BufferWriter.init = (Throw TarsDecodeInvalidValue, BufferWriter.init) ∧
   ∃ r, read_string [] 2 true (at_ [] (head_bytes TarsHeadeString4 2 ++ be_bytes 4 4000000000 ++ [])) =
     (Throw TarsDecodeInvalidValue, r)).
Proof.
  intros str. assert (Hl : TARS_MAX_STRING_LENGTH < zlen str).
  { unfold str. rewrite length_replicate. unfold TARS_MAX_STRING_LENGTH. lia. }
  clearbody str. split; [exact Hl |].
  apply (string_limit str [] 2 true 4000000000 BufferWriter.init [] []);
    [exact Hl | unfold TARS_MAX_STRING_LENGTH; lia | done | by repeat constructor].
Defined.

(** ** Output buffers *)

(** C13: a sequence of writes to a [BufferWriterVector] or [BufferWriterString]
    leaves exactly the bytes written, however often the block is reallocated, and
    both ways to take them out return them. *)
Theorem vector_writer (ws : list (list Z)) (w : BufferWriterVector.t) :
  BufferWriterVector.wf w →
  zlen (BufferWriterVector.view w) + zlen (concat ws) < 2 ^ 63 →
  ∃ w', write_each BufferWriterVector.writeBuf ws w = (Ok tt, w') ∧
    (BufferWriterVector.getByteBuffer w').1 = BufferWriterVector.view w ++ concat ws ∧
    BufferWriterVector.contents (BufferWriterVector.swap (BufferWriterVector.mkvec [] 0) w').1 =
      BufferWriterVector.view w ++ concat ws.
Proof.
  intros Hw Hl.
  assert (Hws : writes (S := BufferWriterVector.t) (write_each BufferWriterVector.writeBuf ws) (concat (map id ws))).
  { apply writes_each, Forall_forall. intros bs _.
    exact (writes_raw (S := BufferWriterVector.t) bs). }
  rewrite map_id in Hws. destruct (Hws w Hw Hl) as (w' & E & Hw' & V).
  change (BufferWriterVector.view w' = BufferWriterVector.view w ++ concat ws) in V.
  exists w'. rewrite <- V. split_and!; [done | |].
  - by apply BufferWriterVector.getByteBuffer_view.
  - by apply BufferWriterVector.swap_view.
Qed.

Lemma vector_writer_witness :
  BufferWriterVector.wf BufferWriterVector.init ∧
  ∃ w', write_each BufferWriterVector.writeBuf [[1; 2]; replicate 200 7] BufferWriterVector.init = (Ok tt, w') ∧
    (BufferWriterVector.getByteBuffer w').1 =
      BufferWriterVector.view BufferWriterVector.init ++ concat [[1; 2]; replicate 200 7] ∧
    BufferWriterVector.contents (BufferWriterVector.swap (BufferWriterVector.mkvec [] 0) w').1 =
      BufferWriterVector.view BufferWriterVector.init ++ concat [[1; 2]; replicate 200 7].
Proof.
  assert (Hw : BufferWriterVector.wf BufferWriterVector.init)
    by (unfold BufferWriterVector.wf; cbn; lia).
  split; [exact Hw | apply (vector_writer _ _ Hw); vm_compute; done].
Defined.

(** Writing on after [getByteBuffer] loses bytes: the vector has been trimmed
    while [_buf_len] has not, so whatever still fits the old block is written
    behind the end of the vector, and the next [getByteBuffer] puts zeros there. *)
Theorem vector_writer_stale (w : BufferWriterVector.t) (bs : list Z) :
  BufferWriterVector.wf w → BufferWriterVector.len w + zlen bs ≤ BufferWriterVector.buf_len w →
  ∃ w', BufferWriterVector.writeBuf bs (BufferWriterVector.getByteBuffer w).2 = (Ok tt, w') ∧
    (BufferWriterVector.getByteBuffer w').1 = BufferWriterVector.view w ++ replicate (length bs) 0.
Proof.
  intros (Hl & He & Hm) Hf. unfold BufferWriterVector.writeBuf, BufferWriterVector.getByteBuffer,
    BufferWriterVector.TarsReserveBuf, reserve_len. cbn.
  rewrite (proj2 (Z.ltb_ge _ _) Hf).
  assert (E : BufferWriterVector.resize (BufferWriterVector.len w) (BufferWriterVector.buffer w) =
    BufferWriterVector.mkvec (BufferWriterVector.mem (BufferWriterVector.buffer w)) (BufferWriterVector.len w)).
  { unfold BufferWriterVector.resize. by rewrite (proj2 (Z.leb_le _ _)) by lia. }
  rewrite E. cbn. rewrite (proj2 (Z.leb_le _ _)) by lia. eexists. split; [done |]. cbn.
  destruct (BufferWriterVector.store_view (BufferWriterVector.len w) bs
    (BufferWriterVector.mem (BufferWriterVector.buffer w))) as [Hs Ht]; [lia.. |].
  unfold BufferWriterVector.resize, BufferWriterVector.contents, BufferWriterVector.view. cbn.
  assert (Hlen : zlen (take (Z.to_nat (BufferWriterVector.len w))
    (BufferWriterVector.mem (BufferWriterVector.buffer w))) = BufferWriterVector.len w)
    by (rewrite length_take; lia).
  destruct (Z.leb_spec (BufferWriterVector.len w + zlen bs) (BufferWriterVector.len w)); cbn.
  { destruct bs; [|cbn in *; lia]. cbn in Ht |- *. by rewrite <- Ht. }
  rewrite Hs, (proj2 (Z.leb_le _ _)) by lia. cbn.
  replace (take (Z.to_nat (BufferWriterVector.len w)) (BufferWriterVector.store _ _ _))
    with (take (Z.to_nat (BufferWriterVector.len w)) (BufferWriterVector.mem (BufferWriterVector.buffer w))).
  - rewrite app_assoc, take_app_le; [rewrite take_ge; [repeat f_equal; lia |] |];
      rewrite length_app, length_replicate; lia.
  - apply (f_equal (take (Z.to_nat (BufferWriterVector.len w)))) in Ht.
    rewrite take_take, take_app_le, take_take in Ht by lia.
    by rewrite !Nat.min_l in Ht by lia.
Qed.

Lemma vector_writer_stale_witness :
  let w := (BufferWriterVector.writeBuf [1; 2] BufferWriterVector.init).2 in
  BufferWriterVector.len w + 2 ≤ BufferWriterVector.buf_len w ∧
  ∃ w', BufferWriterVector.writeBuf [3; 4] (BufferWriterVector.getByteBuffer w).2 = (Ok tt, w') ∧
    (BufferWriterVector.getByteBuffer w').1 = [1; 2] ++ [0; 0].
Proof.
  intros w. assert (H : BufferWriterVector.len w + 2 ≤ BufferWriterVector.buf_len w) by (vm_compute; discriminate).
  split; [exact H |]. refine (vector_writer_stale w [3; 4] _ H).
  split_and!; vm_compute; first [done | discriminate].
Defined.

(** ** Arrays and sets *)

(** [read(T*, len, readLen, ...)] fills the array with the elements on the
    wire and sets [readLen] to their number, if they fit.  It never looks at
    [len]: with more of them than the array has, it writes behind the array. *)
Theorem array_read {A} (dA : A) (c : codec A) `{!CodecLaws c} (l arr : list A) len readLen tag req pre post :
  vector_ok c l → is_tag tag →
  bytes_ok (pre ++ field_bytes (codec_vector dA c) l tag ++ post) →
  let result := read_array (c_read c) arr len readLen tag req
    (at_ pre (field_bytes (codec_vector dA c) l tag ++ post)) in
  if zlen l <=? zlen arr
  then result = (Ok (l ++ drop (length l) arr, zlen l), at_ (pre ++ field_bytes (codec_vector dA c) l tag) post)
  else result.1 = OutOfBounds.
Proof.
  intros Hl Ht Hb. destruct (Z.leb_spec (zlen l) (zlen arr)) as [Hle|Hgt].
  - refine (reads_list dA c (λ _, True) (λ n, _) _ l tag req _ Hl Ht _ pre post Hb I).
    rewrite Nat2Z.id, <- (app_nil_r (wires _)).
    eapply reads_bind; [apply reads_slots; [apply Hl | lia] | apply reads_ret].
  - by apply array_overflows.
Qed.

Lemma array_read_witness :
  vector_ok codec_Int32 [7; 8; 9] ∧
  read_array (c_read codec_Int32) [0; 0; 0; 4] 4 0 1 true
    (at_ [] (field_bytes (codec_vector 0 codec_Int32) [7; 8; 9] 1 ++ [])) =
    (Ok ([7; 8; 9; 4], 3), at_ (field_bytes (codec_vector 0 codec_Int32) [7; 8; 9] 1) []) ∧
  (read_array (c_read codec_Int32) [0; 0] 2 0 1 true
    (at_ [] (field_bytes (codec_vector 0 codec_Int32) [7; 8; 9] 1 ++ []))).1 = OutOfBounds.
Proof.
  assert (Hl : vector_ok codec_Int32 [7; 8; 9]) by (split; [repeat constructor; done | done]).
  split; [exact Hl | split].
  - exact (array_read 0 codec_Int32 [7; 8; 9] [0; 0; 0; 4] 4 0 1 true [] [] Hl ltac:(done) ltac:(by repeat constructor)).
  - exact (array_read 0 codec_Int32 [7; 8; 9] [0; 0] 2 0 1 true [] [] Hl ltac:(done) ltac:(by repeat constructor)).
Defined.

(** [write(std::set)] and [read(std::set&)] round-trip into an empty set; a
    set that holds elements already keeps them, since [read] does not clear it. *)
Theorem set_read_merges {A} (dA : A) (c : codec A) `{!CodecLaws c} (lt : A → A → bool) (l v : list A) tag req :
  vector_ok c l → is_tag tag → StronglySorted (λ x y, lt x y = true ∧ lt y x = false) l →
  (∀ S (HW : WriterT S), writes (S := S) (write_set (c_write c) l tag) (field_bytes (codec_vector dA c) l tag)) ∧
  reads (read_set dA (c_read c) lt [] tag req) (field_bytes (codec_vector dA c) l tag) l ∧
  reads (read_set dA (c_read c) lt v tag req) (field_bytes (codec_vector dA c) l tag)
    (foldl (λ v x, set_insert lt x v) v l).
Proof.
  intros Hl Ht Hs. split_and!.
  - intros S HW. exact (law_write (c := codec_vector dA c) l tag S Hl Ht).
  - rewrite <- (foldl_set_insert lt l Hs) at 2. by apply reads_set.
  - by apply reads_set.
Qed.

Lemma set_read_merges_witness :
  vector_ok codec_Int32 [7; 8] ∧
  (∀ S (HW : WriterT S), writes (S := S) (write_set (c_write codec_Int32) [7; 8] 1)
     (field_bytes (codec_vector 0 codec_Int32) [7; 8] 1)) ∧
  reads (read_set 0 read_Int32 Z.ltb [] 1 true) (field_bytes (codec_vector 0 codec_Int32) [7; 8] 1) [7; 8] ∧
  reads (read_set 0 read_Int32 Z.ltb [5] 1 true) (field_bytes (codec_vector 0 codec_Int32) [7; 8] 1) [5; 7; 8].
Proof.
  assert (Hl : vector_ok codec_Int32 [7; 8]) by (split; [repeat constructor; done | done]).
  split; [exact Hl |].
  exact (set_read_merges 0 codec_Int32 Z.ltb [7; 8] [5] 1 true Hl ltac:(done) ltac:(repeat constructor; done)).
Defined.

(** ** Floats *)

(** A [Double] read from a [Float] field goes through a [float] of the
    unswapped bytes.  It gets the value of the [Float] unless these bytes are a
    signalling NaN; then it gets that of another [Float]. *)
Theorem double_of_float (d x tag : Z) req :
  is_tag tag → in_U 32 x →
  ∃ y, reads (read_Double d tag req) (field_bytes codec_Float x tag) (Float_to_Double y) ∧
    (y = x ↔ signalling (bswap 4 x) = false).
Proof.
  intros Ht Hx. eexists. split; [by apply reads_Double_of_Float | by apply Float_survives].
Qed.

(** 1.5 survives; 9.05e-38, whose bytes in reverse are a signalling NaN, does not. *)
Lemma double_of_float_witness :
  (∃ y, reads (read_Double 0 1 true) (field_bytes codec_Float 1069547520 1) (Float_to_Double y) ∧
     (y = 1069547520 ↔ signalling (bswap 4 1069547520) = false)) ∧
  signalling (bswap 4 1069547520) = false ∧
  (∃ y, reads (read_Double 0 1 true) (field_bytes codec_Float 16810111 1) (Float_to_Double y) ∧
     (y = 16810111 ↔ signalling (bswap 4 16810111) = false)) ∧
  signalling (bswap 4 16810111) = true.
Proof.
  split; [exact (double_of_float 0 1069547520 1 true ltac:(done) ltac:(done)) |].
  split; [vm_compute; done |].
  split; [exact (double_of_float 0 16810111 1 true ltac:(done) ltac:(done)) | vm_compute; done].
Defined.
