(* ===== verification/NetTheorems.v ===== *)
(** The theorems about the network path: the buffer list as a queue of bytes,
    framing, reassembly of a stream of packets, and requests and responses end to
    end. *)
From stdpp Require Import prelude gmap list.
From Stdlib Require Import ZArith Lia.
From S2P Require Import Prelude Bytes TarsBuffer TarsOutput TarsInput TarsSkip TarsWire.
From S2P Require Import TarsCodec TarsContainers TarsStruct Packets NetBuffer AppProtocol.
From S2P Require Import Transceiver.

(** * The buffer list as a queue *)

(** The operations of [TC_NetWorkBuffer] on received bytes, as one type. *)
Inductive net_op : Type :=
  | OpAdd (bs : list Z)
  | OpMove (n : Z)
  | OpHeader (n : Z)
  | OpGetBuffers
  | OpMerge
  | OpParse4 (lo hi : Z).

Inductive net_result : Type :=
  | RUnit
  | RBool (b : bool)
  | RHeader (h : option (list Z))
  | RBytes (bs : list Z)
  | RPacket (t : PACKET_TYPE) (out : list Z).

(** The code. *)
Definition run_op (op : net_op) : NetWorkBuffer.M net_result :=
  match op with
  | OpAdd bs => NetWorkBuffer.addBuffer bs ;;; ret RUnit
  | OpMove n => let* b := NetWorkBuffer.moveHeader n in ret (RBool b)
  | OpHeader n => let* h := NetWorkBuffer.getHeader n in ret (RHeader h)
  | OpGetBuffers => let* bs := NetWorkBuffer.getBuffers in ret (RBytes bs)
  | OpMerge => NetWorkBuffer.mergeBuffers ;;; ret RUnit
  | OpParse4 lo hi => let* (t, out) := NetWorkBuffer.parseBuffer 4 [] lo hi in ret (RPacket t out)
  end.

(** The specification: a flat list of bytes. *)
Definition spec_op (op : net_op) (q : list Z) : net_result * list Z :=
  match op with
  | OpAdd bs => (RUnit, q ++ bs)
  | OpMove n => if zlen q <? n then (RBool false, q) else (RBool true, drop (Z.to_nat n) q)
  | OpHeader n => (RHeader (if zlen q <? n then None else Some (take (Z.to_nat n) q)), q)
  | OpGetBuffers => (RBytes q, q)
  | OpMerge => (RUnit, q)
  | OpParse4 lo hi => let '(t, out, q') := NetWorkBuffer.parse_flat 4 q [] lo hi in (RPacket t out, q')
  end.

(** Sizes below two gigabytes, and no negative lengths. *)
Definition op_ok (op : net_op) (q : list Z) : Prop :=
  zlen q < 2 ^ 31 ∧
  match op with
  | OpAdd bs => zlen q + zlen bs < 2 ^ 31
  | OpMove n | OpHeader n => 0 ≤ n
  | _ => True
  end.

Fixpoint run_ops (ops : list net_op) : NetWorkBuffer.M (list net_result) :=
  match ops with
  | [] => ret []
  | op :: ops' => let* r := run_op op in let* rs := run_ops ops' in ret (r :: rs)
  end.

Fixpoint spec_ops (ops : list net_op) (q : list Z) : list net_result * list Z :=
  match ops with
  | [] => ([], q)
  | op :: ops' => let '(r, q1) := spec_op op q in let '(rs, q2) := spec_ops ops' q1 in (r :: rs, q2)
  end.

Fixpoint ops_ok (ops : list net_op) (q : list Z) : Prop :=
  match ops with
  | [] => True
  | op :: ops' => op_ok op q ∧ ops_ok ops' (spec_op op q).2
  end.

(** One operation. *)
Lemma run_op_refines op s : NetWorkBuffer.inv s → op_ok op (NetWorkBuffer.abs s) →
  ∃ s', run_op op s = (Ok (spec_op op (NetWorkBuffer.abs s)).1, s') ∧ NetWorkBuffer.inv s' ∧
    NetWorkBuffer.abs s' = (spec_op op (NetWorkBuffer.abs s)).2.
Proof.
  intros Hi [Hsz Hop]. destruct op as [bs | n | n | | | lo hi]; cbn [run_op spec_op] in *.
  - destruct (NetWorkBuffer.addBuffer_spec s bs Hi) as (s' & E & ? & ?); [lia.. |].
    exists s'. by rewrite (bind_Ok _ _ _ _ _ E).
  - destruct (Z.ltb_spec (zlen (NetWorkBuffer.abs s)) n).
    + exists s. by rewrite (bind_Ok _ _ _ _ _ (NetWorkBuffer.moveHeader_short s n Hi ltac:(done))).
    + destruct (NetWorkBuffer.moveHeader_spec s n Hi) as (s' & E & ? & ?); [lia |].
      exists s'. by rewrite (bind_Ok _ _ _ _ _ E).
  - exists s. by rewrite (bind_Ok _ _ _ _ _ (NetWorkBuffer.getHeader_spec s n Hi Hop)).
  - exists s. by rewrite (bind_Ok _ _ _ _ _ (NetWorkBuffer.getBuffers_spec s Hi)).
  - destruct (NetWorkBuffer.mergeBuffers_spec s Hi) as (p & s' & E & ? & ? & _); [lia |].
    exists s'. by rewrite (bind_Ok _ _ _ _ _ E).
  - destruct (NetWorkBuffer.parseBuffer_spec s 4 [] lo hi Hi) as (t & out & s' & E & ? & Ef); [lia |].
    exists s'. rewrite (bind_Ok _ _ _ _ _ E), Ef. done.
Qed.

(** C5: refinement.  However the received bytes are spread over shared buffers,
    any sequence of operations of [TC_NetWorkBuffer] gives the results of the same
    sequence on a flat list of bytes. *)
Theorem netbuffer_refines (ops : list net_op) (s : NetWorkBuffer.t) :
  NetWorkBuffer.inv s → ops_ok ops (NetWorkBuffer.abs s) →
  ∃ s', run_ops ops s = (Ok (spec_ops ops (NetWorkBuffer.abs s)).1, s') ∧ NetWorkBuffer.inv s' ∧
    NetWorkBuffer.abs s' = (spec_ops ops (NetWorkBuffer.abs s)).2.
Proof.
  revert s. induction ops as [|op ops IH]; intros s Hi Hok; [by exists s |].
  destruct Hok as [Hop Hok]. destruct (run_op_refines op s Hi Hop) as (s1 & E1 & Hi1 & Ha1).
  cbn [run_ops spec_ops]. rewrite (bind_Ok _ _ _ _ _ E1). rewrite <- Ha1 in Hok.
  destruct (IH s1 Hi1 Hok) as (s2 & E2 & Hi2 & Ha2). rewrite (bind_Ok _ _ _ _ _ E2).
  destruct (spec_op op _) as [r q1] eqn:Es. cbn in Ha1. rewrite <- Ha1.
  destruct (spec_ops ops _) as [rs q2]. exists s2. done.
Qed.

Lemma netbuffer_refines_witness :
  let ops := [OpAdd [0; 0; 0; 6; 1]; OpHeader 2; OpParse4 5 100; OpAdd [2; 9]; OpMerge; OpParse4 5 100; OpMove 1] in
  ops_ok ops [] ∧
  ∃ s', run_ops ops NetWorkBuffer.new = (Ok (spec_ops ops []).1, s') ∧ NetWorkBuffer.inv s' ∧
    NetWorkBuffer.abs s' = (spec_ops ops []).2.
Proof.
  intros ops. assert (Hok : ops_ok ops []) by (vm_compute; intuition discriminate).
  split; [exact Hok | exact (netbuffer_refines ops NetWorkBuffer.new NetWorkBuffer.inv_new Hok)].
Defined.

(** * Streams *)


Definition idle_connection : Connection.t := Connection.mk NetWorkBuffer.new 0 true [] [] true.


(** * Requests and responses *)

(** C14: end to end.  The buffer [tarsRequest] builds, wherever it arrives in a
    server's receive buffer, is parsed off as one packet whose body decodes to the
    request. *)
Theorem request_delivery (req r0 : RequestPacket.t) (n : NetWorkBuffer.t) (rest : list Z) :
  struct_ok RequestPacket.fields req →
  TARS_NET_MIN_PACKAGE_SIZE ≤ zlen (request_bytes req) + 4 ≤ TARS_NET_MAX_PACKAGE_SIZE →
  NetWorkBuffer.inv n →
  (∀ b, tarsRequest req = Ok b → NetWorkBuffer.abs n = Buffer.content b ++ rest) →
  ∃ b body n' ist, tarsRequest req = Ok b ∧ parse [] n = (Ok (PACKET_FULL, body), n') ∧
    NetWorkBuffer.abs n' = rest ∧
    readFrom RequestPacket.fields r0 (setBuffer body (zlen body)) = (Ok req, ist).
Proof.
  intros Hr Hs Hi Ha. destruct (tarsRequest_frame req Hr) as (b & E & _ & Ec);
    [unfold TARS_NET_MAX_PACKAGE_SIZE in *; lia |].
  specialize (Ha b E). rewrite Ec in Ha.
  destruct (parse_front n [] _ rest TARS_NET_MIN_PACKAGE_SIZE TARS_NET_MAX_PACKAGE_SIZE Hi Ha)
    as (n' & Ep & _ & Ea'); [done | done | done |].
  destruct (read_packet RequestPacket.fields false req r0 Hr) as [ist Erd].
  by exists b, (request_bytes req), n', ist.
Qed.

Definition sample_request : RequestPacket.t :=
  RequestPacket.mk 1 0 0 77 [65; 46; 66] [102] [1; 2; 3] 3000 [([107], [118])] [].

Lemma sample_request_ok : struct_ok RequestPacket.fields sample_request.
Proof.
  unfold struct_ok, RequestPacket.fields, sample_request.
  repeat (apply Forall_cons_2; [|]); [..| apply Forall_nil_2]; cbn.
  1-4: unfold in_S; lia.
  1-2: split; [by repeat constructor | done].
  - split; [by repeat constructor | done].
  - unfold in_S; lia.
  - split_and!; [repeat constructor; done | repeat constructor; done | done].
  - split_and!; [constructor | constructor | done].
Defined.

(** A receive buffer that holds the given bytes in one block. *)
Definition holding (bs : list Z) : NetWorkBuffer.t :=
  NetWorkBuffer.mk {[ 0%nat := Buffer.mk (Some bs) 0 (zlen bs) (zlen bs) ]} [0%nat] (zlen bs) None.

Lemma holding_abs bs : NetWorkBuffer.abs (holding bs) = bs.
Proof.
  unfold NetWorkBuffer.abs, NetWorkBuffer.contents, holding; cbn [NetWorkBuffer.heap NetWorkBuffer._bufferList].
  cbn [map concat]. unfold NetWorkBuffer.buf_content. rewrite lookup_singleton_eq, app_nil_r.
  rewrite Buffer.content_at_0. apply take_ge. lia.
Qed.

Lemma holding_inv bs : zlen bs < 2 ^ 32 → NetWorkBuffer.inv (holding bs).
Proof.
  intros Hl. unfold NetWorkBuffer.inv. rewrite holding_abs. split_and!; [| | done | done | lia].
  - apply NoDup_singleton.
  - repeat constructor. eexists. split; [apply lookup_singleton_eq |].
    split_and!; [unfold Buffer.wf; cbn; lia | done | done].
Qed.

Lemma request_delivery_witness :
  struct_ok RequestPacket.fields sample_request ∧
  ∃ b body n' ist, tarsRequest sample_request = Ok b ∧
    parse [] (holding (NetWorkBuffer.frame4 (request_bytes sample_request) ++ [0; 0])) =
      (Ok (PACKET_FULL, body), n') ∧
    NetWorkBuffer.abs n' = [0; 0] ∧
    readFrom RequestPacket.fields RequestPacket.empty (setBuffer body (zlen body)) = (Ok sample_request, ist).
Proof.
  split; [exact sample_request_ok |].
  apply (request_delivery sample_request RequestPacket.empty _ [0; 0] sample_request_ok).
  - vm_compute. split; discriminate.
  - apply holding_inv. vm_compute. reflexivity.
  - intros b Eb. rewrite holding_abs.
    destruct (tarsRequest_frame sample_request sample_request_ok) as (b' & Eb' & _ & Ec);
      [vm_compute; reflexivity |].
    rewrite Eb in Eb'. injection Eb' as <-. by rewrite Ec.
Defined.

(** A complete TARS response at the front of the receive buffer is delivered
    whatever the response object held, and taken off the buffer with nothing of
    what follows; one of another version or type, or with a return code below the
    protocol's, is a decode exception. *)
Theorem response_delivery (K : base_constants) (n : NetWorkBuffer.t) (r0 r : ResponsePacket.t) cd rest :
  NetWorkBuffer.inv n → NetWorkBuffer.abs n = NetWorkBuffer.frame4 (response_bytes cd r) ++ rest →
  zlen (NetWorkBuffer.abs n) < 2 ^ 32 → struct_ok ResponsePacket.fields r →
  TARS_NET_MIN_PACKAGE_SIZE ≤ zlen (response_bytes cd r) + 4 ≤ TARS_NET_MAX_PACKAGE_SIZE →
  if bool_decide (ResponsePacket.iVersion r = TARSVERSION K ∧ ResponsePacket.cPacketType r = TARSNORMAL K ∧
                  TARSSERVERUNKNOWNERR K ≤ ResponsePacket.iRet r)
  then ∃ n', tarsResponse K (n, r0) = (Ok PACKET_FULL, (n', r)) ∧
         NetWorkBuffer.inv n' ∧ NetWorkBuffer.abs n' = rest
  else ∃ s, tarsResponse K (n, r0) = (Throw (FromTars TarsDecodeException), s).
Proof.
  intros Hi Ea H32 Hr Hs. case_bool_decide as Hc.
  - destruct Hc as (? & ? & ?). by eapply tarsResponse_full.
  - eapply tarsResponse_version; try done.
    destruct (decide (ResponsePacket.iVersion r = TARSVERSION K)); [|by left].
    destruct (decide (ResponsePacket.cPacketType r = TARSNORMAL K)); [|by right; left].
    right; right. apply Z.nle_gt. intros ?. by apply Hc.
Qed.

(** Values of the protocol's constants as other TARS implementations publish
    them, for the examples. *)
Definition sample_constants : base_constants :=
  {| TARSVERSION := 1; TUPVERSION := 3; JSONVERSION := 5; TARSNORMAL := 0; TARSSERVERUNKNOWNERR := -99 |}.

Definition small_response : ResponsePacket.t := ResponsePacket.mk 1 0 9 0 (-3) [1] [] [] [].

Lemma small_response_ok : struct_ok ResponsePacket.fields small_response.
Proof.
  unfold struct_ok, ResponsePacket.fields, small_response.
  repeat (apply Forall_cons_2; [|]); [..| apply Forall_nil_2]; cbn.
  1-5: unfold in_S; lia.
  - split; [by repeat constructor | done].
  - split_and!; [constructor | constructor | done].
  - split; [constructor | done].
  - split_and!; [constructor | constructor | done].
Defined.

Lemma response_delivery_witness :
  struct_ok ResponsePacket.fields small_response ∧
  ∃ n', tarsResponse sample_constants
      (holding (NetWorkBuffer.frame4 (response_bytes true small_response) ++ [3]), ResponsePacket.empty) =
      (Ok PACKET_FULL, (n', small_response)) ∧
    NetWorkBuffer.inv n' ∧ NetWorkBuffer.abs n' = [3].
Proof.
  split; [exact small_response_ok |].
  apply (response_delivery sample_constants _ ResponsePacket.empty small_response true [3]).
  - apply holding_inv. vm_compute. reflexivity.
  - apply holding_abs.
  - rewrite holding_abs. vm_compute. reflexivity.
  - exact small_response_ok.
  - vm_compute. split; discriminate.
Defined.

(** The check of an incomplete packet reads outside its buffer: the stream
    is given [head] bytes although four of them, the length, are not part of it.
    These twenty bytes of a packet of one hundred are enough. *)
Theorem incomplete_head_over_read :
  (tarsResponse sample_constants
    (holding [0; 0; 0; 100; 16; 1; 44; 50; 1; 2; 3; 4; 66; 1; 2; 3; 4; 82; 0; 1], ResponsePacket.empty)).1 =
  OutOfBounds.
Proof. vm_compute. reflexivity. Qed.
