(* ===== verification/SenderTheorems.v ===== *)
(** What a client's TCP connection puts on the wire, and what the server at the
    other end makes of it. *)
From stdpp Require Import prelude gmap list.
From Stdlib Require Import ZArith Lia.
From S2P Require Import Prelude Bytes NetBuffer AppProtocol Transceiver AdapterProxy Sender NetTheorems.

(** C20: invariant.  Whatever the kernel answers and the callbacks do, after any
    events no assertion has failed, and the bytes on the wire with those waiting are
    the buffers accepted on this connection, in order; of every closed connection
    the kernel took a beginning. *)
Theorem sender_stream {K : Kernel} (AUTH : bool) {W E : Type} (tr : W → Sender.t) (set_tr : Sender.t → W → W)
    (exn : E) (onConnect onRequest : prog W E unit) (onSendAuth : prog W E nat)
    (es : list Sender.event) (w : W) :
  Sender.callbacks_ok AUTH tr set_tr onConnect onRequest onSendAuth →
  Sender.inv (tr w) → Forall Sender.event_ok es →
  ∃ w', Sender.handle_all AUTH tr set_tr exn onConnect onRequest onSendAuth es w = (Ok tt, w') ∧
    Sender.wire (tr w') ++ NetWorkBuffer.abs (Sender._sendBuffer (tr w')) = concat (Sender.accepted (tr w')) ∧
    Forall (λ c, c.1 `prefix_of` concat c.2) (Sender.past (tr w')).
Proof.
  intros Hcb Hw Hes. destruct (Sender.handle_all_inv AUTH tr set_tr exn _ _ _ Hcb es w Hw Hes) as (w' & Er & Hw').
  exists w'. split; [done |]. split; [apply Hw' | apply Hw'].
Qed.

(** C21: [sendRequest] takes a buffer and sends it, or keeps what the kernel does
    not take; or refuses it without a trace; or throws, with the connection closed
    and the buffer holding what was not sent.  It never returns [eRetError]. *)
Theorem send_request_outcomes {K : Kernel} (AUTH : bool) (x : Sender.t) (l : nat) :
  Sender.inv x → is_Some (NetWorkBuffer.heap (Sender._sendBuffer x) !! l) →
  runs (Sender.sendRequest AUTH l) x (Sender.send_outcome AUTH x l) (λ _, Sender.send_failed x l).
Proof.
  intros Hx Hl. eapply runs_weaken; [by apply Sender.sendRequest_spec | |]; cbn beta; by intros ?? (_ & _ & ?).
Qed.


(** A buffer whose sending broke off keeps its new read index: sent again on
    the next connection, only the rest of the packet goes out. *)
Theorem resend_tail {K : Kernel} (AUTH : bool) (x x1 x2 x3 : Sender.t) (l : nat) :
  Sender.inv x → is_Some (NetWorkBuffer.heap (Sender._sendBuffer x) !! l) →
  Sender.sendRequest AUTH l x = (Throw TC_Transceiver_Exception, x1) →
  Sender.inv x2 → is_Some (NetWorkBuffer.heap (Sender._sendBuffer x2) !! l) → Sender.buf x2 l = Sender.buf x1 l →
  Sender.sendRequest AUTH l x2 = (Ok eRetOk, x3) →
  ∃ sent rest, Sender.buf x l = sent ++ rest ∧
    Sender.past x1 = Sender.past x ++ [(Sender.wire x ++ sent, Sender.accepted x ++ [sent ++ rest])] ∧
    Sender.accepted x3 = Sender.accepted x2 ++ [rest] ∧ Sender.wire x3 = concat (Sender.accepted x3).
Proof.
  intros Hx Hl E1 Hx2 Hl2 Eb E2.
  pose proof (Sender.sendRequest_spec AUTH x l Hx Hl) as H1. unfold runs in H1. rewrite E1 in H1.
  destruct H1 as (_ & _ & sent & rest & Ec & Hne & Er & _ & Ep).
  pose proof (Sender.sendRequest_spec AUTH x2 l Hx2 Hl2) as H2. unfold runs in H2. rewrite E2 in H2.
  destruct H2 as (Hx3 & _ & [[E0 _]|(Ea & Ep3 & _)]); [congruence |].
  exists sent, rest. rewrite <- Ec. split_and!; [done | done | congruence |].
  rewrite <- (Sender.inv_stream _ Hx3). by rewrite Ep3, app_nil_r.
Qed.

(** * Concrete clients *)

(** A kernel that takes three bytes, breaks the connection, and then takes
    everything but for one refusal; connections are made later. *)
#[export, refine] Instance moody_kernel : Kernel := {
  k_send n bs := match n with
    | 2%nat => Sent (Z.min 3 (zlen bs))
    | 3%nat => SendError
    | 6%nat => Pending
    | _ => Sent (zlen bs)
    end;
  k_connect n := InProgress;
  k_so_error n := false
}.
Proof.
  intros n bs k Hne E. assert (0 < zlen bs) by (destruct bs; [done | cbn; lia]).
  destruct n as [|[|[|[|[|[|[|n]]]]]]]; simplify_eq; lia.
Defined.

Definition block (bs : list Z) : Buffer.t := Buffer.mk (Some bs) 0 (zlen bs) (zlen bs).

Lemma block_good bs : zlen bs < 2 ^ 32 → NetWorkBuffer.good (block bs).
Proof. intros. split_and!; [unfold Buffer.wf; cbn; lia | done | done]. Qed.

(** A client with no other state, which sends the buffer 0 when it may. *)
Definition on_request : Sender.M unit := Sender.handle false (λ x, x) (λ x _, x) TC_Transceiver_Exception
  (ret tt) (ret tt) (ret 0%nat) (Sender.SendOld 0).

Definition on_auth : Sender.M nat := Sender.make_buffer (block [1; 2]).

Lemma plain_callbacks : Sender.callbacks_ok false (λ x, x) (λ x _, x) (ret tt) on_request on_auth.
Proof.
  assert (Hauth : ∀ x, Sender.inv x → runs on_auth x
    (λ l x', Sender.inv x' ∧ Sender._connStatus x' = Sender._connStatus x ∧ Sender.pending x' = Sender.pending x ∧
       Sender.buf x' l ≠ []) (λ _ x', Sender.inv x')).
  { intros x Hx. destruct (Sender.make_buffer_spec x (block [1; 2]) Hx) as (l & x' & E & Hx' & El & Ep & Ec & _);
      [by apply block_good |].
    eapply runs_Ok; [exact E |]. split_and!; [done.. |]. unfold Sender.buf, NetWorkBuffer.buf_content. by rewrite El. }
  split; [done | | | exact Hauth]; intros x Hx; [by apply runs_ret |].
  unfold on_request. cbn [Sender.handle]. apply runs_bind, runs_get.
  destruct (NetWorkBuffer.heap _ !! 0%nat) as [b|] eqn:El; [|by apply runs_ret].
  apply runs_bind, Sender.runs_on_tr.
  eapply runs_weaken; [apply Sender.sendRequest_spec; [done | by exists b] | |]; cbn beta.
  - intros r x' (Hx' & _). by apply runs_ret.
  - by intros e x' (Hx' & _).
Qed.

Lemma init_inv h : Sender.good_heap h → Sender.inv (Sender.init h).
Proof.
  intros Hg. split; cbn; try done. split_and!; [|by left | done].
  split_and!; cbn; [constructor | constructor | done | done | done].
Qed.

(** Two packets; the first one breaks the first connection. *)
Definition packet_a := NetWorkBuffer.frame4 [7; 8].
Definition packet_b := NetWorkBuffer.frame4 [9].
Definition sample_events : list Sender.event :=
  [Sender.Connect; Sender.SendNew (block packet_a); Sender.Writable; Sender.Connect; Sender.Writable;
   Sender.SendNew (block packet_b); Sender.Writable].

Lemma sample_events_ok : Forall Sender.event_ok sample_events.
Proof. repeat constructor; cbn; lia. Defined.

Definition empty_client : Sender.t := Sender.init ∅.

Lemma empty_client_inv : Sender.inv empty_client.
Proof. by apply init_inv. Qed.

(** What it comes to: the second connection begins in the middle of a packet. *)
Example sample_run :
  let x := (Sender.handle_all false (λ x, x) (λ x _, x) TC_Transceiver_Exception (ret tt) on_request on_auth
    sample_events empty_client).2 in
  (Sender.wire x, Sender.accepted x, Sender.past x) =
  ([6; 7; 8; 0; 0; 0; 5; 9], [[6; 7; 8]; packet_b], [([0; 0; 0], [packet_a])]).
Proof. vm_compute. reflexivity. Qed.

Lemma sender_stream_witness :
  ∃ x, Sender.handle_all false (λ x, x) (λ x _, x) TC_Transceiver_Exception (ret tt) on_request on_auth
      sample_events empty_client = (Ok tt, x) ∧
    Sender.wire x ++ NetWorkBuffer.abs (Sender._sendBuffer x) = concat (Sender.accepted x) ∧
    Forall (λ c, c.1 `prefix_of` concat c.2) (Sender.past x).
Proof.
  exact (sender_stream false (λ x, x) (λ x _, x) TC_Transceiver_Exception (ret tt) on_request on_auth
    sample_events empty_client plain_callbacks empty_client_inv sample_events_ok).
Defined.

(** A connection with [bs] in a buffer of its own, after some socket calls. *)
Definition connected (bs : list Z) (n : nat) : Sender.t :=
  Sender.mk true eConnected eAuthSucc false (NetWorkBuffer.mk {[ 0%nat := block bs ]} [] 0 None) n [] [] [].

Lemma connected_inv bs n : zlen bs < 2 ^ 32 → Sender.inv (connected bs n).
Proof.
  intros Hl. split; cbn; try done. split_and!; [|by left |].
  - split_and!; cbn; [constructor | constructor | done | done | done].
  - apply map_Forall_singleton. by apply block_good.
Qed.

Lemma send_request_outcomes_witness :
  runs (Sender.sendRequest false 0) (connected packet_a 6) (Sender.send_outcome false (connected packet_a 6) 0)
    (λ _, Sender.send_failed (connected packet_a 6) 0).
Proof.
  apply (send_request_outcomes false (connected packet_a 6) 0); [by apply connected_inv |].
  eexists. apply lookup_singleton_eq.
Defined.


(** The packet as the broken connection left it, on a new connection. *)
Definition left_over : Sender.t := connected [6; 7; 8] 10.

Lemma resend_tail_witness :
  let x1 := (Sender.sendRequest false 0 (connected packet_a 2)).2 in
  let x3 := (Sender.sendRequest false 0 left_over).2 in
  ∃ sent rest, Sender.buf (connected packet_a 2) 0 = sent ++ rest ∧
    Sender.past x1 = [] ++ [([] ++ sent, [] ++ [sent ++ rest])] ∧
    Sender.accepted x3 = [] ++ [rest] ∧ Sender.wire x3 = concat (Sender.accepted x3).
Proof.
  apply (resend_tail false (connected packet_a 2) _ left_over _ 0).
  - by apply connected_inv.
  - eexists. apply lookup_singleton_eq.
  - vm_compute. reflexivity.
  - by apply connected_inv.
  - eexists. apply lookup_singleton_eq.
  - vm_compute. reflexivity.
  - vm_compute. reflexivity.
Defined.
